(* ===== verification/_CoqProject ===== *)
-Q . S2P
Prelude.v
JsMap.v
NsPattern.v
WorkerContract.v
Gateway.v
GatewayRuntime.v
Utf8.v
Base64.v
Json.v
JsNumber.v
OwnerLease.v
Hash.v
Redis.v
OwnerProtocol.v
OwnerLogic.v
OwnerWorld.v
D1Owner.v
D1OwnerSafety.v
D1OwnerWorld.v
JsDate.v
Auth.v
RespEncode.v
RespReader.v
SqlSplitter.v
D1ReadCache.v
D1Wire.v
D1WireRoundtrip.v
D1Router.v
D1Actor.v
SessionPolicy.v
Txn.v
Control.v
JsonView.v
DoProtocol.v
DoOwner.v
DoOwnerSafety.v
DoOwnerWorld.v
Topology.v
Routing.v
RoutingSafety.v
Delete.v
DeleteSafety.v
Bundle.v
Deploy.v
DeploySafety.v
DeployLink.v
Load.v
WorkflowReplay.v
RoutingWorld.v
References.v
