(* ===== verification/Prelude.v ===== *)
(** * WDL: a verification development

    WDL is a multi-tenant host for JavaScript workers: a control service that uploads,
    promotes and deletes workers in Redis, a gateway that routes requests to the runtimes
    with the tables the control service writes, D1 runtimes that own SQLite databases by
    leases in Redis, Durable Object runtimes that own hosts of objects in the same way, and an
    auth service. The library models the logic of these services as
    it is written under src/ and proves what makes it correct. A file models the sources its
    header names; definitions keep the names of the source.

    ** The language and Redis

    - Prelude.v: strings are lists of UTF-16 code units ([jstr], [js] embeds a literal),
      untyped values are [jsval], a throw is [Err] of [result]; scopes, tactics, hint
      databases and the generic lemmas.
    - JsMap.v (Map with insertion order), JsNumber.v, JsDate.v, Json.v (JSON.parse and
      JSON.stringify), Utf8.v (TextEncoder, TextDecoder and src/shared/utf8.js), Base64.v
      (src/shared/base64.js), Hash.v (src/shared/fnv1a32.js on 32-bit integers). JsonView.v:
      what JSON keeps of a value, and the class of printers whose text parses to it.
    - Redis.v: the server of the owner protocol as a class of laws with a concrete instance,
      and worlds in which the programs of many tasks interleave over it; replies may be
      lost, keys expire. Txn.v: the store of the control plane, WATCH, reads, EXEC and the
      retries of src/control/optimistic.js, the generic argument that an invariant kept
      by every attempt holds in every interleaving, and that an undisturbed attempt commits.

    ** Names and contracts

    - NsPattern.v (src/shared/ns-pattern.js): namespaces, worker names, module paths.
    - WorkerContract.v, SessionPolicy.v (src/shared/worker-contract.js, worker-id.js):
      version tags, keys, lock tokens and the JSON payloads, with their round trips and
      which keys cannot collide. Two families do collide: [worker_keys_collide].

    ** Gateway

    - Gateway.v (src/shared/route-projection.js, src/gateway/lib.js, src/gateway/dispatch.js):
      the routing table codec, host classification, the pattern sort and match, header
      hygiene and the dispatch decision. A forwarded request has valid, unreserved names;
      the match is the most specific one; no internal header passes.
    - GatewayRuntime.v (src/gateway/runtime.js): the two caches with their shared in-flight
      reads, as a step relation. No answer is older than the last processed invalidation of
      its key; caches stay within their bounds; a lookup sends at most five reads.

    ** Ownership by leases

    - OwnerLease.v (src/shared/env.js, owner-lease.js, owner-protocol.js, owner-endpoint.js):
      lease times, generation counters, fences, owner keys and endpoints. OwnerProtocol.v
      (src/shared/owner-protocol.js, optimistic-retry.js): the timed reads, the staged writes,
      the batched release and the retries, generic in the owner record as the source is.
    - OwnerLogic.v: the class [OwnerScheme] of what an owner record is (keys, bytes, parser,
      fence, lease, the keys it is pinned to) with its laws, which commands the protocol lets a
      task send, and a weakest precondition for programs that send only those; the class
      [History] lets it speak of what was stored and what the clock showed since a program
      began. OwnerWorld.v: in every interleaving of such programs leases are exclusive,
      generations only grow, and records stay pinned, and an answer holds of the run ([run]) in
      which it was computed. A runtime discharges the class and proves its operations.

    ** D1: databases, queries and the wire

    - D1Owner.v (src/d1-runtime/owner-registry.js, state.js, protocol.js): resolve, claim,
      takeover, renewal, release, drain and rebalancing. D1OwnerSafety.v makes the owner record
      an instance of [OwnerScheme] and proves every operation in its program logic,
      D1OwnerWorld.v has the theorems over all interleavings of any number of tasks: one
      unexpired lease per database, generations that fence off earlier owners, local caches
      that never claim more than Redis granted.
    - SqlSplitter.v (src/shared/sql-splitter.js), D1ReadCache.v (src/d1-runtime/read-cache.js):
      statements are split as SQL tokens say; the byte and entry budgets of a cache hold.
      D1Router.v (src/d1-runtime/router.js): the caches of a router while its requests
      interleave, proved against [ActorContract]. D1Actor.v (src/d1-runtime/actor.js): how a
      query is executed, with its transactions, result limits and memo of schema objects; it
      discharges the contract from the documented behaviour of SQLite ([SqlLaws]), so that a
      cached result is never older than a finished write. Writes executed after their request
      ended are in the world but not counted as finished, as docs/modules/d1.md has it.
    - D1Wire.v, D1WireRoundtrip.v (src/shared/d1-query-wire.js, d1-params.js,
      d1-data-field.js): the encoder with its patched lengths and the decoder. What is
      written is what is read, up to the conversions of UTF-8 and of [undefined] and exactly for
      plain text; decoding any bytes ends, and a leading byte-order mark is lost.
    - RespEncode.v, RespReader.v (src/shared/redis-resp.js): commands are framed exactly, and
      replies do not depend on how the stream is cut into chunks.

    ** Durable Objects

    - DoProtocol.v (src/do-runtime/protocol.js and protocol/): the normalisation of invokes, host
      ids and shards, owner fences, the binary envelope. Every accepted invoke goes to the host
      of its object, hosts of different storages, classes or shards are different, and an invoke
      forwarded to another task is read there as it was sent.
    - DoOwner.v (src/do-runtime/owner-registry.js, state.js, dispatch of index.js and actor.js):
      the owner registry with its storage pointer, delete lock, session policy and renewal
      script. DoOwnerSafety.v makes its records an instance of [OwnerScheme] pinned to the storage
      pointer; DoOwnerWorld.v adds the control plane as one more participant: leases are
      exclusive, generations fence, records are only written while the worker points to their
      storage, nothing of a deleted worker comes back, and tenant code runs under a live fence, for
      the lease of a stored record less a time the server showed meanwhile.

    ** Workflows

    - WorkflowReplay.v (src/runtime/dispatch/workflow-replay-cache.js): the cache of finished
      steps, its eviction and the leases of replies being read. The byte counters are exact in
      every run, the memory stays within its limits, and remembering a step does exactly what
      it says: oversize steps are left out, a refusal changes nothing, a stored output reads back.

    ** Auth

    - Auth.v (src/shared/auth-roles.js, src/auth/lib.js): roles, token records and the access
      decision. A bound token holds a namespace of the kind of its role and acts there only;
      system actions need an operator.

    ** Control plane

    - Control.v (src/control/lib.js, lifecycle-indexes.js, cron-index.js, routing/route-plan.js,
      src/shared/queue-keys.js), Topology.v (src/control/topology.js, src/shared/cron-time.js):
      metadata, references, staged index updates, and the parsers of routes, hosts, crons and
      consumers with their limits.
    - Routing.v (src/control/routing.js): promotion, version bumps and declared hosts.
      Delete.v (src/control/handlers/delete.js, delete-plan.js, versions.js): deletes of
      workers and versions.
    - Bundle.v (src/control/bindings.js, bundle.js, workflow-definitions.js,
      src/shared/workerd-compat-flags.js) and Deploy.v (src/control/handlers/deploy.js and what
      it calls of d1-store.js, d1-model.js, shared.js): the request, the linking of service and
      platform bindings, the prepared bundle and its commit. DeploySafety.v: what a committed
      deploy writes, and that a promotion reads it back as the request. DeployLink.v: the
      bindings to other namespaces that a commit lets through, and the version they pin.
      Load.v (src/runtime/lib.js): the runtime loads from the committed hash what was submitted.
    - RoutingSafety.v, DeleteSafety.v, DeploySafety.v: every attempt of these transactions keeps
      [routing_inv], whatever the others do between its reads. RoutingWorld.v: in every
      interleaving the routing tables are coherent, the commit of every [request] is the one step
      that an atomic specification ([spec_step]) has for that request, and the gateway, given
      the table of a host, serves exactly the routes of active versions.
    - References.v: in the same interleavings every reference of every bundle leads to a bundle
      that is there and is registered with it, so no service binding dangles.

    ** Fuel and bounds

    Loops that are not structural take fuel that is proved or chosen to be enough: the length
    of the text for JSON and SQL, the number of bytes for the wire decoder
    ([wire_decoding_ends]), twice the pending bytes plus one for the reply reader, the length
    of the list for batches. The retry loops have the bounds of the source (five attempts and
    the like). Integers are [Z]; safe-integer and 32-bit limits are written out where the
    source relies on them.

    ** Assumptions

    Version numbers are drawn from a counter that only grows: a bundle key is used once (the
    set of used keys of a world). The text of [JSON.stringify] is a parameter: the class
    [JsonPrinter] asks that it parses to the value it prints, and has a concrete instance.
    Clients, regular-expression engines, [URL], the cron library, SHA-1 and the time zone data
    are parameters or are modelled for the patterns in use. Redis behaves as documented. SQLite
    is a parameter with the laws of [SqlLaws], and a query that may drop an object is [orderly]:
    [dropped_table_stays_in_memo] shows what happens otherwise.

    A storage id is minted for one worker and never reused, and an invoke names the worker its
    storage was made for ([at_home], [storage_unused]).

    ** Not modelled

    Request bodies, HTTP answers, logs and metrics around the transactions; the upload of
    assets; secrets, their budgets and Web Crypto (the outcome of the budget check is a
    parameter of a deploy); the sockets below the RESP reader; the alarms, facets and SQLite of
    Durable Objects; code generation and bindings inside workerd; WebSocket proxying; S3 clean-up;
    vendored code, scripts and examples. PROJECT.json lists them one by one. *)

From stdpp Require Import base list strings gmap sorting.
From Stdlib Require Import ZArith Lia.

#[local] Open Scope Z_scope.

(** ** Scopes, hint databases and tactics *)

Declare Scope wdl_scope.
Delimit Scope wdl_scope with wdl.

Create HintDb wdl discriminated.
Create HintDb js discriminated.
Create Rewrite HintDb jsrw.

(** Case analysis on the scrutinee of a [match] or an [if], keeping the equation. *)
Ltac break_match :=
  match goal with
  | |- context [match ?x with _ => _ end] => destruct x eqn:?
  | H : context [match ?x with _ => _ end] |- _ => destruct x eqn:?
  end.

Ltac break_goal :=
  match goal with
  | |- context [match ?x with _ => _ end] => destruct x eqn:?
  end.

Ltac break_hyp H :=
  match type of H with
  | context [match ?x with _ => _ end] => destruct x eqn:?
  end.

(** Turns the boolean tests of the code into propositions. *)
Ltac to_prop :=
  repeat match goal with
  | H : (_ && _)%bool = true |- _ => apply andb_prop in H; destruct H
  | H : (_ || _)%bool = false |- _ => apply orb_false_elim in H; destruct H
  | H : (_ || _)%bool = true |- _ => apply orb_prop in H
  | H : (_ && _)%bool = false |- _ => apply andb_false_iff in H
  | H : negb _ = true |- _ => apply negb_true_iff in H
  | H : negb _ = false |- _ => apply negb_false_iff in H
  | H : (_ =? _) = true |- _ => apply Z.eqb_eq in H
  | H : (_ =? _) = false |- _ => apply Z.eqb_neq in H
  | H : (_ <? _) = true |- _ => apply Z.ltb_lt in H
  | H : (_ <? _) = false |- _ => apply Z.ltb_ge in H
  | H : (_ <=? _) = true |- _ => apply Z.leb_le in H
  | H : (_ <=? _) = false |- _ => apply Z.leb_gt in H
  | H : bool_decide _ = true |- _ => apply bool_decide_eq_true in H
  | H : bool_decide _ = false |- _ => apply bool_decide_eq_false in H
  end.

(** ** Errors

    A function that may throw returns [result]: the JavaScript [throw] carries the
    value thrown. *)

Inductive result (E A : Type) :=
| Ok (a : A)
| Err (e : E).
Arguments Ok {E A} a.
Arguments Err {E A} e.

Definition rbind {E A B} (r : result E A) (f : A → result E B) : result E B :=
  match r with Ok a => f a | Err e => Err e end.

Notation "'let!' x ':=' r 'in' k" := (rbind r (λ x, k))
  (at level 10, x pattern, k at level 200) : wdl_scope.

Definition guard_r {E} (b : bool) (e : E) : result E unit :=
  if b then Ok tt else Err e.

Definition is_ok {E A} (r : result E A) : bool :=
  match r with Ok _ => true | Err _ => false end.

Lemma rbind_Ok_inv {E A B} (r : result E A) (f : A → result E B) b :
  rbind r f = Ok b → ∃ a, r = Ok a ∧ f a = Ok b.
Proof. destruct r; simpl; [eauto | discriminate]. Qed.

Lemma Ok_inj {E A} (a b : A) : @Ok E A a = Ok b → a = b.
Proof. by intros [= ->]. Qed.

(** ** JavaScript strings

    A string is the list of its UTF-16 code units; a byte buffer is a list of
    integers in [0, 255]. [js] reads a literal of the source. *)

Abbreviation jstr := (list Z).

Definition js (s : string) : jstr :=
  map (λ c, Z.of_nat (Ascii.nat_of_ascii c)) (String.list_ascii_of_string s).

Definition jlen (s : jstr) : Z := Z.of_nat (length s).

Definition jeqb (a b : jstr) : bool := bool_decide (a = b).

Lemma jeqb_eq a b : jeqb a b = true ↔ a = b.
Proof. unfold jeqb. apply bool_decide_eq_true. Qed.

Lemma jeqb_refl a : jeqb a a = true.
Proof. by apply jeqb_eq. Qed.

Lemma jeqb_neq a b : jeqb a b = false ↔ a ≠ b.
Proof. unfold jeqb. apply bool_decide_eq_false. Qed.

Arguments js : simpl never.
Arguments jeqb : simpl never.

(** [s.startsWith(p)] *)
Fixpoint starts_with (p s : jstr) : bool :=
  match p, s with
  | [], _ => true
  | a :: p', b :: s' => (a =? b) && starts_with p' s'
  | _ :: _, [] => false
  end.

(** [s.endsWith(p)] *)
Definition ends_with (p s : jstr) : bool := starts_with (rev p) (rev s).

(** [s.includes(c)] for a one-unit needle. *)
Definition includes_unit (c : Z) (s : jstr) : bool := existsb (Z.eqb c) s.

(** [s.split(c)] for a one-unit separator. *)
Fixpoint split_on (c : Z) (s : jstr) : list jstr :=
  match s with
  | [] => [[]]
  | x :: s' =>
      if x =? c then [] :: split_on c s'
      else match split_on c s' with
           | [] => [[x]]
           | w :: ws => (x :: w) :: ws
           end
  end.

(** [parts.join(c)] for a one-unit separator. *)
Fixpoint join_with (c : Z) (parts : list jstr) : jstr :=
  match parts with
  | [] => []
  | [w] => w
  | w :: ws => w ++ c :: join_with c ws
  end.

(** [s.indexOf(c)]; [-1] when absent. *)
Fixpoint index_of (c : Z) (s : jstr) : Z :=
  match s with
  | [] => -1
  | x :: s' => if x =? c then 0
               else let r := index_of c s' in if r <? 0 then -1 else r + 1
  end.

(** Decimal text of a non-negative integer: [String(n)]. *)
Fixpoint digits_of (fuel : nat) (n : Z) (acc : jstr) : jstr :=
  match fuel with
  | O => acc
  | S f => let acc' := (48 + n mod 10) :: acc in
           if n <? 10 then acc' else digits_of f (n / 10) acc'
  end.

Definition string_of_nonneg (n : Z) : jstr := digits_of (S (Z.to_nat (Z.log2 n))) n [].

Definition string_of_Z (n : Z) : jstr :=
  if n <? 0 then 45 :: string_of_nonneg (- n) else string_of_nonneg n.

(** Value of a decimal digit string. *)
Fixpoint dec_value (acc : Z) (s : jstr) : Z :=
  match s with
  | [] => acc
  | d :: s' => dec_value (acc * 10 + (d - 48)) s'
  end.

(** ** Character classes of the source's regular expressions *)

Definition is_lower (c : Z) : bool := (97 <=? c) && (c <=? 122).
Definition is_upper (c : Z) : bool := (65 <=? c) && (c <=? 90).
Definition is_digit (c : Z) : bool := (48 <=? c) && (c <=? 57).
Definition is_alpha (c : Z) : bool := is_lower c || is_upper c.
Definition is_alnum (c : Z) : bool := is_alpha c || is_digit c.
Definition is_lower_alnum (c : Z) : bool := is_lower c || is_digit c.

(** [s.toLowerCase()] on the ASCII letters. *)
Definition lower_unit (c : Z) : Z := if is_upper c then c + 32 else c.
Definition to_lower (s : jstr) : jstr := map lower_unit s.

(** The white space [String.prototype.trim] and the class [\s] know, below U+0100 and
    the others of ECMA-262 WhiteSpace and LineTerminator. *)
Definition is_space (c : Z) : bool :=
  ((9 <=? c) && (c <=? 13)) || (c =? 32) || (c =? 160) || (c =? 5760)
  || ((8192 <=? c) && (c <=? 8202)) || (c =? 8232) || (c =? 8233)
  || (c =? 8239) || (c =? 8287) || (c =? 12288) || (c =? 65279).

Fixpoint drop_while (p : Z → bool) (s : jstr) : jstr :=
  match s with
  | [] => []
  | c :: s' => if p c then drop_while p s' else s
  end.

Definition trim_end (p : Z → bool) (s : jstr) : jstr := rev (drop_while p (rev s)).
Definition trim (s : jstr) : jstr := trim_end is_space (drop_while is_space s).

(** The numbers of the language that the sources reason about. *)
Definition MAX_SAFE_INTEGER : Z := 9007199254740991.
Definition is_safe_integer (n : Z) : bool := (- MAX_SAFE_INTEGER <=? n) && (n <=? MAX_SAFE_INTEGER).

(** ** JavaScript values

    The values an [unknown] parameter may hold. A finite number is an integer or a
    non-integral quotient (the quotients the sources look at are only tested for
    being safe integers or compared). *)

Inductive jnum :=
| NInt (z : Z)
| NFrac (num : Z) (den : positive)
| NInf (neg : bool)
| NNaN.

#[export] Instance jnum_eq_dec : EqDecision jnum.
Proof. solve_decision. Defined.

#[local] Set Warnings "-register-all".

Inductive jsval :=
| JUndef
| JNull
| JBool (b : bool)
| JNum (n : jnum)
| JStr (s : jstr)
| JBytes (b : list Z)
| JArr (l : list jsval)
| JObj (fields : list (jstr * jsval)).

(** [Number.isSafeInteger(v)] and its value. *)
Definition safe_integer_of (v : jsval) : option Z :=
  match v with
  | JNum (NInt z) => if is_safe_integer z then Some z else None
  | _ => None
  end.

(** Own-property lookup; an absent key reads [undefined]. *)
Fixpoint obj_get (k : jstr) (fields : list (jstr * jsval)) : jsval :=
  match fields with
  | [] => JUndef
  | (k', v) :: rest => if jeqb k k' then v else obj_get k rest
  end.

Definition has_own (k : jstr) (fields : list (jstr * jsval)) : bool :=
  existsb (λ kv, jeqb k kv.1) fields.

Arguments includes_unit : simpl never.
Arguments Z.eqb : simpl never.
Arguments Z.ltb : simpl never.
Arguments Z.leb : simpl never.

(** ** Lemmas on strings *)

Lemma starts_with_spec p s : starts_with p s = true ↔ ∃ t, s = p ++ t.
Proof.
  revert s; induction p as [|a p IH]; intros s; simpl.
  - split; eauto.
  - destruct s as [|b s].
    + split; [discriminate | intros [t Ht]; discriminate].
    + rewrite andb_true_iff, Z.eqb_eq, IH. split.
      * intros [-> [t ->]]. by exists t.
      * intros [t Ht]. inversion Ht; subst. eauto.
Qed.

Lemma starts_with_app p t : starts_with p (p ++ t) = true.
Proof. apply starts_with_spec. eauto. Qed.

Lemma includes_unit_spec c s : includes_unit c s = true ↔ c ∈ s.
Proof.
  unfold includes_unit. rewrite existsb_exists, list_elem_of_In. split.
  - intros (x & Hx & ->%Z.eqb_eq). done.
  - intros H. exists c. by rewrite Z.eqb_refl.
Qed.

Lemma includes_unit_false c s : includes_unit c s = false ↔ c ∉ s.
Proof. rewrite <- includes_unit_spec. by destruct (includes_unit c s). Qed.

Lemma split_on_nonnil c s : split_on c s ≠ [].
Proof. induction s as [|x s IH]; simpl; [done|]. repeat break_goal; done. Qed.

Lemma join_with_cons c w ws : ws ≠ [] → join_with c (w :: ws) = w ++ c :: join_with c ws.
Proof. by destruct ws. Qed.

Lemma join_split c s : join_with c (split_on c s) = s.
Proof.
  induction s as [|x s IH]; simpl; [done|].
  destruct (x =? c) eqn:E.
  - apply Z.eqb_eq in E; subst.
    rewrite join_with_cons by apply split_on_nonnil. by rewrite IH.
  - destruct (split_on c s) as [|w ws] eqn:Es; [by destruct (split_on_nonnil c s)|].
    rewrite <- IH. by destruct ws.
Qed.

Lemma split_on_no_sep c w : c ∉ w → split_on c w = [w].
Proof.
  induction w as [|x w IH]; simpl; intros Hc; [done|].
  rewrite not_elem_of_cons in Hc; destruct Hc as [Hx Hw].
  destruct (Z.eqb_spec x c); [congruence|]. by rewrite IH.
Qed.

Lemma split_on_app_sep c w s : c ∉ w → split_on c (w ++ c :: s) = w :: split_on c s.
Proof.
  induction w as [|x w IH]; simpl; intros Hc.
  - by rewrite Z.eqb_refl.
  - rewrite not_elem_of_cons in Hc; destruct Hc as [Hx Hw].
    destruct (Z.eqb_spec x c); [congruence|]. by rewrite IH.
Qed.

Lemma split_join c ws :
  ws ≠ [] → Forall (λ w, c ∉ w) ws → split_on c (join_with c ws) = ws.
Proof.
  intros Hne H. induction H as [|w ws Hw H IH]; [done|].
  destruct ws as [|w' ws]; [by apply split_on_no_sep|].
  change (join_with c (w :: w' :: ws)) with (w ++ c :: join_with c (w' :: ws)).
  rewrite split_on_app_sep by done. by rewrite IH.
Qed.

Lemma split_on_pieces c s : Forall (λ w, c ∉ w) (split_on c s).
Proof.
  induction s as [|x s IH]; simpl.
  - repeat constructor. by apply not_elem_of_nil.
  - destruct (Z.eqb_spec x c).
    + constructor; [by apply not_elem_of_nil | done].
    + destruct (split_on c s) as [|w ws]; inversion IH; subst; repeat constructor; auto;
        rewrite not_elem_of_cons; split; auto using not_elem_of_nil.
Qed.

#[export] Hint Resolve split_on_nonnil split_on_pieces : js.
#[export] Hint Rewrite join_split : jsrw.

(** Decimal printing is undone by [dec_value] and has no leading zero. *)
Lemma dec_value_app acc a b : dec_value acc (a ++ b) = dec_value (dec_value acc a) b.
Proof. revert acc; induction a; simpl; auto. Qed.

Lemma digits_of_app fuel n acc : digits_of fuel n acc = digits_of fuel n [] ++ acc.
Proof.
  revert n acc; induction fuel as [|f IH]; intros n acc; simpl; [done|].
  destruct (n <? 10); [done|].
  rewrite (IH _ (_ :: acc)), (IH _ [_]). by rewrite <- app_assoc.
Qed.

Lemma div10_log2 n : 10 <= n → Z.log2 (n / 10) < Z.log2 n.
Proof.
  intros H. pose proof (Z.log2_nonneg n).
  apply Z.log2_lt_pow2; [apply Z.div_str_pos; lia|].
  apply Z.div_lt_upper_bound; [lia|].
  pose proof (Z.log2_spec n ltac:(lia)) as [_ B]. rewrite Z.pow_succ_r in B by done. lia.
Qed.

Lemma dec_value_digits fuel n :
  0 <= n → (Z.to_nat (Z.log2 n) < fuel)%nat → dec_value 0 (digits_of fuel n []) = n.
Proof.
  revert n; induction fuel as [|f IH]; intros n Hn Hf; [lia|]. simpl.
  destruct (Z.ltb_spec n 10); simpl.
  - rewrite Z.mod_small; lia.
  - rewrite digits_of_app, dec_value_app, IH.
    + simpl. pose proof (Z.div_mod n 10). lia.
    + apply Z.div_pos; lia.
    + pose proof (div10_log2 n). pose proof (Z.log2_nonneg (n / 10)). lia.
Qed.

Lemma dec_value_string_of_nonneg n : 0 <= n → dec_value 0 (string_of_nonneg n) = n.
Proof. intros. apply dec_value_digits; [done | lia]. Qed.

Lemma digits_of_digits fuel n :
  0 <= n → Forall (λ c, is_digit c = true) (digits_of fuel n []).
Proof.
  revert n; induction fuel as [|f IH]; intros n Hn; simpl; [constructor|].
  assert (is_digit (48 + n mod 10) = true) as Hd.
  { unfold is_digit. pose proof (Z.mod_pos_bound n 10). apply andb_true_iff; lia. }
  destruct (n <? 10); [by repeat constructor|].
  rewrite digits_of_app. apply Forall_app; split; [|by repeat constructor].
  apply IH, Z.div_pos; lia.
Qed.

Lemma string_of_nonneg_digits n : 0 <= n → Forall (λ c, is_digit c = true) (string_of_nonneg n).
Proof. apply digits_of_digits. Qed.

Lemma digits_of_head fuel n :
  1 <= n → (Z.to_nat (Z.log2 n) < fuel)%nat →
  ∃ d rest, digits_of fuel n [] = d :: rest ∧ 49 <= d <= 57.
Proof.
  revert n; induction fuel as [|f IH]; intros n Hn Hf; [lia|]. simpl.
  destruct (Z.ltb_spec n 10).
  - rewrite Z.mod_small by lia. eexists _, _; split; [done|lia].
  - rewrite digits_of_app.
    destruct (IH (n / 10)) as (d & rest & -> & Hd).
    + apply Z.div_le_lower_bound; lia.
    + pose proof (div10_log2 n). pose proof (Z.log2_nonneg (n / 10)). lia.
    + simpl. eauto.
Qed.

Lemma string_of_nonneg_head n :
  1 <= n → ∃ d rest, string_of_nonneg n = d :: rest ∧ 49 <= d <= 57.
Proof. intros. apply digits_of_head; [done | lia]. Qed.

Lemma string_of_nonneg_inj n m :
  0 <= n → 0 <= m → string_of_nonneg n = string_of_nonneg m → n = m.
Proof.
  intros Hn Hm H. apply (f_equal (dec_value 0)) in H.
  by rewrite !dec_value_string_of_nonneg in H.
Qed.
