(* ===== verification/JsMap.v ===== *)
(** * Insertion-ordered maps

    A JavaScript [Map] as the list of its entries in iteration order. [set] on a present
    key keeps its position, [delete] followed by [set] moves the key to the end. *)

From stdpp Require Import base list sets.
From Stdlib Require Import Lia.
From S2P Require Import Prelude.

Section jsmap.
Context {K V : Type} `{EqDecision K}.

Definition jmap := list (K * V).

Fixpoint jm_get (k : K) (m : jmap) : option V :=
  match m with
  | [] => None
  | (k', v) :: m' => if decide (k = k') then Some v else jm_get k m'
  end.

Definition jm_has (k : K) (m : jmap) : bool :=
  match jm_get k m with Some _ => true | None => false end.

Fixpoint jm_delete (k : K) (m : jmap) : jmap :=
  match m with
  | [] => []
  | (k', v) :: m' => if decide (k = k') then jm_delete k m' else (k', v) :: jm_delete k m'
  end.

Fixpoint jm_set (k : K) (v : V) (m : jmap) : jmap :=
  match m with
  | [] => [(k, v)]
  | (k', v') :: m' => if decide (k = k') then (k, v) :: m' else (k', v') :: jm_set k v m'
  end.

Definition jm_size (m : jmap) : nat := length m.

(** [m.keys().next().value] *)
Definition jm_first_key (m : jmap) : option K :=
  match m with [] => None | (k, _) :: _ => Some k end.

(** The idiom [m.delete(k); m.set(k, v)]. *)
Definition jm_touch (k : K) (v : V) (m : jmap) : jmap := jm_set k v (jm_delete k m).

Definition jm_keys (m : jmap) : list K := map fst m.

(** No key occurs twice: every map built with [jm_set] has this. *)
Definition jm_wf (m : jmap) : Prop := NoDup (jm_keys m).

Lemma jm_keys_delete k m x : x ∈ jm_keys (jm_delete k m) ↔ x ∈ jm_keys m ∧ x ≠ k.
Proof.
  unfold jm_keys. induction m as [|[k' v] m IH]; simpl; [set_solver|].
  destruct (decide (k = k')); simpl; set_solver.
Qed.

Lemma jm_get_None k m : jm_get k m = None ↔ k ∉ jm_keys m.
Proof.
  unfold jm_keys. induction m as [|[k' v] m IH]; simpl; [set_solver|].
  destruct (decide (k = k')); simpl; set_solver.
Qed.

Lemma jm_has_spec k m : jm_has k m = true ↔ k ∈ jm_keys m.
Proof.
  unfold jm_has. destruct (jm_get k m) eqn:E.
  - split; [|done]. intros _. destruct (decide (k ∈ jm_keys m)) as [|Hn]; [done|].
    apply jm_get_None in Hn. congruence.
  - apply jm_get_None in E. split; done.
Qed.

Lemma jm_get_delete k k' m :
  jm_get k (jm_delete k' m) = if decide (k = k') then None else jm_get k m.
Proof.
  induction m as [|[k2 v] m IH]; simpl; [by destruct (decide _)|].
  repeat case_decide; simplify_eq; simpl; repeat case_decide; simplify_eq; auto.
Qed.

Lemma jm_get_set k k' v m :
  jm_get k (jm_set k' v m) = if decide (k = k') then Some v else jm_get k m.
Proof.
  induction m as [|[k2 v2] m IH]; simpl; repeat case_decide; simplify_eq; simpl;
    repeat case_decide; simplify_eq; auto.
Qed.

Lemma jm_delete_length k m : jm_size (jm_delete k m) ≤ jm_size m.
Proof.
  unfold jm_size. induction m as [|[k2 v] m IH]; simpl; [lia|].
  case_decide; simpl; lia.
Qed.

Lemma jm_delete_absent k m : k ∉ jm_keys m → jm_delete k m = m.
Proof.
  unfold jm_keys. induction m as [|[k2 v] m IH]; simpl; [done|].
  intros H. case_decide; subst; [set_solver|]. rewrite IH; set_solver.
Qed.

Lemma jm_set_absent k v m : k ∉ jm_keys m → jm_set k v m = m ++ [(k, v)].
Proof.
  unfold jm_keys. induction m as [|[k2 v2] m IH]; simpl; [done|].
  intros H. case_decide; subst; [set_solver|]. rewrite IH; set_solver.
Qed.

Lemma jm_touch_eq k v m : jm_touch k v m = jm_delete k m ++ [(k, v)].
Proof. unfold jm_touch. apply jm_set_absent. rewrite jm_keys_delete. tauto. Qed.

Lemma jm_get_touch k k' v m :
  jm_get k (jm_touch k' v m) = if decide (k = k') then Some v else jm_get k m.
Proof.
  unfold jm_touch. rewrite jm_get_set, jm_get_delete. by repeat case_decide.
Qed.

Lemma jm_wf_delete k m : jm_wf m → jm_wf (jm_delete k m).
Proof.
  unfold jm_wf. induction m as [|[k2 v] m IH]; simpl; [done|].
  rewrite NoDup_cons. intros [Hn Hd]. case_decide; [by apply IH|].
  simpl. apply NoDup_cons. split; [|by apply IH].
  intros Hin. apply jm_keys_delete in Hin. tauto.
Qed.

Lemma jm_wf_snoc k v m : k ∉ jm_keys m → jm_wf m → jm_wf (m ++ [(k, v)]).
Proof.
  unfold jm_wf, jm_keys. intros Hn Hd. rewrite map_app. apply NoDup_app.
  split; [done|]. split; [|apply NoDup_singleton]. set_solver.
Qed.

Lemma jm_wf_touch k v m : jm_wf m → jm_wf (jm_touch k v m).
Proof.
  intros Hd. rewrite jm_touch_eq. apply jm_wf_snoc; [|by apply jm_wf_delete].
  rewrite jm_keys_delete. tauto.
Qed.

Lemma jm_set_keys k v m x : x ∈ jm_keys (jm_set k v m) ↔ x = k ∨ x ∈ jm_keys m.
Proof.
  unfold jm_keys. induction m as [|[k2 v2] m IH]; simpl; [set_solver|].
  case_decide; subst; simpl; set_solver.
Qed.

Lemma jm_wf_set k v m : jm_wf m → jm_wf (jm_set k v m).
Proof.
  unfold jm_wf. induction m as [|[k2 v2] m IH]; simpl; intros Hd.
  - apply NoDup_singleton.
  - apply NoDup_cons in Hd as [Hn Hd]. case_decide; subst; simpl.
    + by apply NoDup_cons.
    + apply NoDup_cons. split; [|by apply IH].
      intros Hin. apply jm_set_keys in Hin. naive_solver.
Qed.

Lemma jm_wf_nil : jm_wf [].
Proof. constructor. Qed.

Lemma jm_wf_tail kv (m : jmap) : jm_wf (kv :: m) → jm_wf m.
Proof. unfold jm_wf. simpl. rewrite NoDup_cons. tauto. Qed.

Lemma jm_size_touch k v m : jm_size (jm_touch k v m) = S (jm_size (jm_delete k m)).
Proof. rewrite jm_touch_eq. unfold jm_size. rewrite length_app. simpl. lia. Qed.

Lemma jm_delete_head k v m : jm_wf ((k, v) :: m) → jm_delete k ((k, v) :: m) = m.
Proof.
  unfold jm_wf. simpl. rewrite NoDup_cons. intros [Hn _].
  case_decide; [|done]. by apply jm_delete_absent.
Qed.

Lemma jm_size_delete_present k v m :
  jm_wf m → jm_get k m = Some v → S (jm_size (jm_delete k m)) = jm_size m.
Proof.
  unfold jm_wf, jm_size. induction m as [|[k2 v2] m IH]; simpl; [done|].
  rewrite NoDup_cons. intros [Hn Hd] Hg. case_decide; subst; simpl.
  - by rewrite jm_delete_absent.
  - f_equal. auto.
Qed.

Lemma jm_size_touch_present k v v' m :
  jm_wf m → jm_get k m = Some v → jm_size (jm_touch k v' m) = jm_size m.
Proof. intros. rewrite jm_size_touch. by eapply jm_size_delete_present. Qed.

(** The eviction loop [while (m.size > max) m.delete(m.keys().next().value)]. *)
Fixpoint jm_evict (fuel : nat) (max : nat) (m : jmap) : jmap :=
  match fuel with
  | O => m
  | S f =>
      if decide (max < jm_size m) then
        match jm_first_key m with
        | None => m
        | Some k => jm_evict f max (jm_delete k m)
        end
      else m
  end.

Definition jm_trim (max : nat) (m : jmap) : jmap := jm_evict (jm_size m) max m.

(** The loop terminates within the map's size and drops exactly the oldest entries. *)
Lemma jm_evict_drop fuel max m :
  jm_wf m → jm_size m - max ≤ fuel → jm_evict fuel max m = drop (jm_size m - max) m.
Proof.
  revert m; induction fuel as [|f IH]; intros m Hwf Hf; simpl.
  - by replace (jm_size m - max) with 0 by lia.
  - case_decide as Hs.
    + destruct m as [|[k v] m]; [unfold jm_size in *; simpl in *; lia|].
      simpl jm_first_key. cbv iota beta. rewrite jm_delete_head by done.
      rewrite IH; [|by eapply jm_wf_tail | unfold jm_size in *; simpl in *; lia].
      unfold jm_size in *. simpl in *.
      by replace (S (length m) - max) with (S (length m - max)) by lia.
    + by replace (jm_size m - max) with 0 by lia.
Qed.

Lemma jm_trim_drop max m : jm_wf m → jm_trim max m = drop (jm_size m - max) m.
Proof. intros. apply jm_evict_drop; [done | lia]. Qed.

Lemma jm_trim_size max m : jm_wf m → jm_size (jm_trim max m) ≤ max.
Proof. intros. rewrite jm_trim_drop by done. unfold jm_size. rewrite length_drop. lia. Qed.

Lemma jm_wf_drop n (m : jmap) : jm_wf m → jm_wf (drop n m).
Proof.
  revert m; induction n as [|n IH]; intros m H; [done|].
  destruct m as [|kv m]; [done|]. simpl. apply IH. by eapply jm_wf_tail.
Qed.

Lemma jm_wf_trim max m : jm_wf m → jm_wf (jm_trim max m).
Proof. intros. rewrite jm_trim_drop by done. by apply jm_wf_drop. Qed.

Lemma jm_get_drop n k v (m : jmap) : jm_wf m → jm_get k (drop n m) = Some v → jm_get k m = Some v.
Proof.
  revert m; induction n as [|n IH]; intros m H Hg; [done|].
  destruct m as [|[k2 v2] m]; [done|]. simpl in *.
  apply IH in Hg; [|by eapply jm_wf_tail]. case_decide; [|done]. subst.
  exfalso. unfold jm_wf in H. simpl in H. apply NoDup_cons in H as [Hn _].
  apply jm_get_None in Hn. simpl in Hn. congruence.
Qed.

Lemma jm_get_trim max k v m :
  jm_wf m → jm_get k (jm_trim max m) = Some v → jm_get k m = Some v.
Proof. intros H. rewrite jm_trim_drop by done. by apply jm_get_drop. Qed.

Lemma jm_get_elem k v (m : jmap) : jm_get k m = Some v → (k, v) ∈ m.
Proof.
  induction m as [|[k2 v2] m IH]; simpl; [done|].
  case_decide; subst; [intros [= <-]|intros ?]; set_solver.
Qed.

(** A property of all entries. *)
Lemma jm_Forall_delete (P : K * V → Prop) k m : Forall P m → Forall P (jm_delete k m).
Proof. induction 1 as [|[k' v] m H _ IH]; simpl; [done|]. case_decide; auto. Qed.

Lemma jm_Forall_set (P : K * V → Prop) k v m : P (k, v) → Forall P m → Forall P (jm_set k v m).
Proof.
  intros Hk. induction 1 as [|[k' v'] m H Hm IH]; simpl; [auto|]. case_decide; auto.
Qed.

Lemma jm_Forall_touch (P : K * V → Prop) k v m : P (k, v) → Forall P m → Forall P (jm_touch k v m).
Proof. intros. apply jm_Forall_set; auto using jm_Forall_delete. Qed.

Lemma jm_Forall_trim (P : K * V → Prop) max m : jm_wf m → Forall P m → Forall P (jm_trim max m).
Proof. intros. rewrite jm_trim_drop by done. by apply Forall_drop. Qed.
End jsmap.

Arguments jmap : clear implicits.

#[export] Hint Resolve jm_Forall_delete jm_Forall_set jm_Forall_touch jm_Forall_trim : wdl.
#[export] Hint Resolve jm_wf_nil jm_wf_delete jm_wf_touch jm_wf_set jm_wf_trim jm_wf_tail : wdl.
Create Rewrite HintDb jmaprw.
#[export] Hint Rewrite @jm_get_delete @jm_get_set @jm_get_touch : jmaprw.
