(* ===== verification/NsPattern.v ===== *)
(** * Name grammars (src/shared/ns-pattern.js)

    Every regular expression of the module is a boolean function on code units, and
    every exported predicate takes an [unknown] JavaScript value, as in the source. *)

From stdpp Require Import base list strings.
From Stdlib Require Import ZArith Lia.
From S2P Require Import Prelude.

#[local] Open Scope Z_scope.

(** [^[A](?:[B]{0,max}[A])?$]: one edge character, or two with at most [max]
    middle characters between them. *)
Definition bracketed_re (edge mid : Z → bool) (max : Z) (s : jstr) : bool :=
  match s with
  | [] => false
  | [c] => edge c
  | c :: rest =>
      edge c &&
      match rev rest with
      | [] => false
      | l :: middle => edge l && forallb mid middle && (jlen middle <=? max)
      end
  end.

(** [^[A][B]{0,max}$] *)
Definition head_tail_re (hd tl : Z → bool) (max : Z) (s : jstr) : bool :=
  match s with
  | [] => false
  | c :: rest => hd c && forallb tl rest && (jlen rest <=? max)
  end.

(** [^[A][B]*$] *)
Definition head_star_re (hd tl : Z → bool) (s : jstr) : bool :=
  match s with [] => false | c :: rest => hd c && forallb tl rest end.

Definition is_dash (c : Z) : bool := c =? 45.
Definition is_underscore (c : Z) : bool := c =? 95.
Definition is_dollar (c : Z) : bool := c =? 36.
Definition is_dot (c : Z) : bool := c =? 46.
Definition is_slash (c : Z) : bool := c =? 47.

(** ** DNS hostnames *)

Definition NS_PATTERN (s : jstr) : bool :=
  bracketed_re is_lower_alnum (λ c, is_lower_alnum c || is_dash c) 61 s.
Definition DEFAULT_PLATFORM_DOMAIN : jstr := js "workers.local".
Definition MAX_PLATFORM_DOMAIN_BYTES : Z := 126.
Definition MAX_DNS_HOSTNAME_BYTES : Z := 253.
Definition DNS_LABEL_RE (s : jstr) : bool :=
  bracketed_re is_alnum (λ c, is_alnum c || is_dash c) 61 s.
Definition DNS_FINAL_LABEL_RE (s : jstr) : bool :=
  match s with [] => false | _ => forallb is_alpha s end.

Definition isValidAsciiDnsHostname (value : jsval) : bool :=
  match value with
  | JStr s =>
      if (jlen s =? 0) || (MAX_DNS_HOSTNAME_BYTES <? jlen s) then false
      else forallb DNS_LABEL_RE (split_on 46 s)
  | _ => false
  end.

(** [s.slice(s.lastIndexOf(".") + 1)] *)
Definition after_last_dot (s : jstr) : jstr :=
  match last (split_on 46 s) with Some w => w | None => [] end.

(** [t.endsWith(".") ? t.slice(0, -1) : t] *)
Definition strip_final_dot (t : jstr) : jstr :=
  match rev t with
  | c :: r => if c =? 46 then rev r else t
  | [] => t
  end.

Definition configuredHostname (value : jsval) : option jstr :=
  match value with
  | JStr s =>
      match trim s with
      | [] => None
      | trimmed =>
          let rawHost := strip_final_dot trimmed in
          let finalLabel := after_last_dot rawHost in
          if (MAX_PLATFORM_DOMAIN_BYTES <? jlen rawHost)
             || negb (isValidAsciiDnsHostname (JStr rawHost))
             || negb (DNS_FINAL_LABEL_RE finalLabel)
          then None
          else Some (to_lower rawHost)
      end
  | _ => None
  end.

Inductive ns_error :=
| BadPlatformDomain
| BadModulePath (p : jsval)
| BadModuleSegment (p seg : jstr)
| ReservedModuleSegment (p seg : jstr).

Definition platformDomainFromEnv (PLATFORM_DOMAIN : jsval) : result ns_error jstr :=
  match PLATFORM_DOMAIN with
  | JStr [] => Ok DEFAULT_PLATFORM_DOMAIN
  | JStr raw =>
      match configuredHostname (JStr raw) with
      | Some domain => Ok domain
      | None => Err BadPlatformDomain
      end
  | _ => Ok DEFAULT_PLATFORM_DOMAIN
  end.

(** ** Namespaces *)

Definition set_has (l : list jstr) (s : jstr) : bool := existsb (jeqb s) l.

Arguments set_has : simpl never.

Definition RESERVED_NS : list jstr := [js "__system__"; js "__platform__"; js "__community__"].

(** [(?:NS_PATTERN|__system__|__platform__|__community__)] *)
Definition SUBDOMAIN_NS_PATTERN (s : jstr) : bool := NS_PATTERN s || set_has RESERVED_NS s.

Definition isReservedNs (ns : jsval) : bool :=
  match ns with JStr s => set_has RESERVED_NS s | _ => false end.

Definition NS_RE (s : jstr) : bool := NS_PATTERN s.

Definition RESERVED_TENANT_NS : list jstr := [js "admin"].

Definition isValidTenantNs (ns : jsval) : bool :=
  match ns with
  | JStr s =>
      (0 <? jlen s) && negb (isReservedNs ns) && negb (set_has RESERVED_TENANT_NS s) && NS_RE s
  | _ => false
  end.

Definition ROUTES_ALLOWED_RESERVED_NS : list jstr := [js "__system__"].
Definition PLATFORM_TIER_RESERVED_NS : list jstr := [js "__platform__"].
Definition RUNTIME_LOAD_ALLOWED_RESERVED_NS : list jstr :=
  ROUTES_ALLOWED_RESERVED_NS ++ PLATFORM_TIER_RESERVED_NS.

Definition isValidRouteNs (ns : jsval) : bool :=
  isValidTenantNs ns ||
  match ns with JStr s => set_has ROUTES_ALLOWED_RESERVED_NS s | _ => false end.

Definition isValidRuntimeLoadNs (ns : jsval) : bool :=
  isValidTenantNs ns ||
  match ns with JStr s => set_has RUNTIME_LOAD_ALLOWED_RESERVED_NS s | _ => false end.

(** ** Resource names *)

Definition alnum_dash_us (c : Z) : bool := is_alnum c || is_underscore c || is_dash c.
Definition lower_dash (c : Z) : bool := is_lower_alnum c || is_dash c.

Definition on_string (re : jstr → bool) (v : jsval) : bool :=
  match v with JStr s => re s | _ => false end.

Definition WORKER_NAME_RE : jstr → bool := head_tail_re is_alnum alnum_dash_us 254.
Definition isValidWorkerName (name : jsval) : bool := on_string WORKER_NAME_RE name.

Definition WORKFLOW_NAME_RE : jstr → bool := head_tail_re is_alnum alnum_dash_us 63.
Definition isValidWorkflowName (name : jsval) : bool := on_string WORKFLOW_NAME_RE name.

Definition WORKFLOW_INSTANCE_ID_RE : jstr → bool := head_tail_re is_alnum alnum_dash_us 127.

(** [^wf_[0-9a-f]{32}$] *)
Definition WORKFLOW_KEY_RE (s : jstr) : bool :=
  starts_with (js "wf_") s && (jlen s =? 35) &&
  forallb (λ c, is_digit c || ((97 <=? c) && (c <=? 102))) (drop 3 s).

Definition AI_PROVIDER_NAME_RE (s : jstr) : bool := bracketed_re is_lower_alnum lower_dash 30 s.

(** [^(?![0-9]+$)[a-z0-9](?:[a-z0-9._-]{0,62}[a-z0-9])?$] *)
Definition AI_MODEL_ALIAS_RE (s : jstr) : bool :=
  negb (match s with [] => false | _ => forallb is_digit s end) &&
  bracketed_re is_lower_alnum
    (λ c, is_lower_alnum c || is_dot c || is_underscore c || is_dash c) 62 s.

Definition isValidAiProviderName (name : jsval) : bool := on_string AI_PROVIDER_NAME_RE name.
Definition isValidAiModelAlias (name : jsval) : bool := on_string AI_MODEL_ALIAS_RE name.

Definition QUEUE_NAME_RE : jstr → bool := head_tail_re is_lower_alnum lower_dash 62.
Definition isValidQueueName (name : jsval) : bool := on_string QUEUE_NAME_RE name.

Definition ident_start (c : Z) : bool := is_alpha c || is_underscore c || is_dollar c.
Definition ident_part (c : Z) : bool := is_alnum c || is_underscore c || is_dollar c.

Definition BINDING_NAME_RE : jstr → bool := head_tail_re ident_start ident_part 63.
Definition JS_IDENTIFIER_RE : jstr → bool := head_star_re ident_start ident_part.
Definition MAX_DO_CLASS_NAME_BYTES : Z := 468.

Definition isValidJsIdentifier (value : jsval) : bool := on_string JS_IDENTIFIER_RE value.

Definition JS_CLASS_DECLARATION_RESERVED_WORDS : list jstr :=
  [js "arguments"; js "await"; js "break"; js "case"; js "catch"; js "class"; js "const";
   js "continue"; js "debugger"; js "default"; js "delete"; js "do"; js "else"; js "enum";
   js "eval"; js "export"; js "extends"; js "false"; js "finally"; js "for"; js "function";
   js "if"; js "implements"; js "import"; js "in"; js "instanceof"; js "interface"; js "let";
   js "new"; js "null"; js "package"; js "private"; js "protected"; js "public"; js "return";
   js "static"; js "super"; js "switch"; js "this"; js "throw"; js "true"; js "try";
   js "typeof"; js "var"; js "void"; js "while"; js "with"; js "yield"].

Definition isValidJsClassDeclarationName (value : jsval) : bool :=
  match value with
  | JStr s => isValidJsIdentifier value && negb (set_has JS_CLASS_DECLARATION_RESERVED_WORDS s)
  | _ => false
  end.

(** [^<prefix>[A-Za-z0-9_]*__$] *)
Definition reserved_wrapped_re (prefix s : jstr) : bool :=
  starts_with prefix s &&
  (let rest := drop (length prefix) s in
   ends_with (js "__") rest && forallb (λ c, is_alnum c || is_underscore c) rest).

Definition WDL_RESERVED_BINDING_RE : jstr → bool := reserved_wrapped_re (js "__WDL_").
Definition WDL_RESERVED_ENTRYPOINT_RE : jstr → bool := reserved_wrapped_re (js "__Wdl").

Definition KV_ID_RE : jstr → bool := head_tail_re is_lower_alnum lower_dash 62.
Definition isValidKvId (id : jsval) : bool := on_string KV_ID_RE id.
Definition D1_DATABASE_ID_RE : jstr → bool := head_tail_re is_alnum alnum_dash_us 127.
Definition R2_BUCKET_NAME_RE : jstr → bool := head_tail_re is_lower_alnum lower_dash 62.

(** ** Module paths *)

Definition MODULE_PATH_RE : jstr → bool :=
  head_star_re (λ c, is_alnum c || is_underscore c)
    (λ c, is_alnum c || is_dot c || is_underscore c || is_slash c || is_dash c).

Definition RESERVED_OBJECT_KEYS : list jstr :=
  [js "__proto__"; js "constructor"; js "prototype"; js "hasOwnProperty"; js "isPrototypeOf";
   js "propertyIsEnumerable"; js "toString"; js "toLocaleString"; js "valueOf"].

Fixpoint validateSegments (p : jstr) (segs : list jstr) : result ns_error unit :=
  match segs with
  | [] => Ok tt
  | seg :: rest =>
      if jeqb seg [] || jeqb seg (js ".") || jeqb seg (js "..") then Err (BadModuleSegment p seg)
      else if set_has RESERVED_OBJECT_KEYS seg then Err (ReservedModuleSegment p seg)
      else validateSegments p rest
  end.

Definition validateModulePath (p : jsval) : result ns_error unit :=
  match p with
  | JStr s =>
      if MODULE_PATH_RE s then validateSegments s (split_on 47 s) else Err (BadModulePath p)
  | _ => Err (BadModulePath p)
  end.

(** ** Lemmas on the grammars *)

Lemma set_has_spec l s : set_has l s = true ↔ s ∈ l.
Proof.
  unfold set_has. rewrite existsb_exists, list_elem_of_In. split.
  - intros (x & Hx & ->%jeqb_eq). done.
  - intros H. exists s. by rewrite jeqb_refl.
Qed.

Lemma forallb_Forall {A} (f : A → bool) l : forallb f l = true ↔ Forall (λ x, f x = true) l.
Proof.
  rewrite forallb_forall, Forall_forall.
  split; intros H x Hx; apply H; by apply list_elem_of_In.
Qed.

(** A [bracketed_re] string is made of the two classes and bounded. *)
Lemma bracketed_re_inv edge mid max s :
  bracketed_re edge mid max s = true →
  Forall (λ c, edge c = true ∨ mid c = true) s ∧ 1 <= jlen s <= Z.max 1 (max + 2).
Proof.
  unfold bracketed_re, jlen. intros H.
  destruct s as [|c [|d rest]]; [done| |].
  - split; [constructor; [by left | constructor] | simpl; lia].
  - apply andb_prop in H as [Hc H].
    destruct (rev (d :: rest)) as [|l middle] eqn:Er; [done|].
    apply andb_prop in H as [[Hl Hm]%andb_prop Hlen]. apply Z.leb_le in Hlen.
    assert (d :: rest = rev middle ++ [l]) as Heq
      by (rewrite <- (rev_involutive (d :: rest)), Er; done).
    rewrite forallb_Forall in Hm. split.
    + constructor; [by left|]. rewrite Heq. apply Forall_app; split.
      * apply Forall_rev. eapply Forall_impl; [exact Hm | by right].
      * constructor; [by left | constructor].
    + change (length (c :: d :: rest)) with (S (length (d :: rest))).
      rewrite Heq, length_app, length_rev. simpl. lia.
Qed.

Lemma head_tail_re_inv hd tl max s :
  head_tail_re hd tl max s = true →
  Forall (λ c, hd c = true ∨ tl c = true) s ∧ 1 <= jlen s <= max + 1.
Proof.
  destruct s as [|c rest]; simpl; [done|]. unfold jlen. intros H.
  apply andb_prop in H as [[Hc Hr]%andb_prop Hl]. apply Z.leb_le in Hl.
  rewrite forallb_Forall in Hr. split; [|simpl; lia].
  constructor; [by left|]. eapply Forall_impl; [exact Hr | by right].
Qed.

(** A class that excludes a separator keeps it out of every name of the grammar. *)
Lemma Forall_class_no_sep (P : Z → Prop) sep (s : jstr) :
  ¬ P sep → Forall P s → sep ∉ s.
Proof. intros Hn H Hin. rewrite Forall_forall in H. by apply Hn, H. Qed.

Lemma lower_unit_lower_alnum c : is_lower_alnum c || is_dash c = true → lower_unit c = c.
Proof.
  unfold is_lower_alnum, is_lower, is_digit, is_dash, lower_unit, is_upper. intros H.
  break_goal; lia.
Qed.

Lemma tenant_ns_inv s :
  isValidTenantNs (JStr s) = true →
  (s ∉ RESERVED_NS) ∧ (s ∉ RESERVED_TENANT_NS) ∧ (1 <= jlen s <= 63) ∧
  Forall (λ c, is_lower_alnum c || is_dash c = true) s.
Proof.
  unfold isValidTenantNs, isReservedNs, NS_RE, NS_PATTERN. intros H. to_prop.
  repeat split.
  1,2: intros Hin; apply set_has_spec in Hin; congruence.
  all: match goal with H : bracketed_re _ _ _ _ = true |- _ => apply bracketed_re_inv in H as [HF HL] end.
  1,2: lia.
  eapply Forall_impl; [exact HF|]. intros c [Hc|Hc]; [by rewrite Hc | done].
Qed.

Lemma to_lower_id s : Forall (λ c, is_lower_alnum c || is_dash c = true) s → to_lower s = s.
Proof.
  unfold to_lower. induction 1; simpl; [done|]. by rewrite lower_unit_lower_alnum, IHForall.
Qed.

Lemma not_reserved_route s :
  isValidRouteNs (JStr s) = true → s = js "__system__" ∨ isValidTenantNs (JStr s) = true.
Proof.
  unfold isValidRouteNs. intros [H|H]%orb_prop; [by right | left].
  unfold set_has in H. simpl in H. rewrite orb_false_r in H. by apply jeqb_eq.
Qed.

(** Namespaces accepted anywhere never hold the separators of Redis keys, worker ids,
    route projections or URL paths. *)
Lemma runtime_load_ns_units s :
  isValidRuntimeLoadNs (JStr s) = true →
  Forall (λ c, is_lower_alnum c || is_dash c || is_underscore c = true) s ∧ s ≠ [].
Proof.
  unfold isValidRuntimeLoadNs. intros [H|H]%orb_prop.
  - apply tenant_ns_inv in H as (_ & _ & Hl & HF). split.
    + eapply Forall_impl; [exact HF|]. intros c ->. done.
    + intros ->. unfold jlen in Hl. simpl in Hl. lia.
  - unfold set_has in H; cbn [existsb app ROUTES_ALLOWED_RESERVED_NS
      PLATFORM_TIER_RESERVED_NS RUNTIME_LOAD_ALLOWED_RESERVED_NS] in H.
    rewrite orb_false_r in H.
    apply orb_prop in H as [->%jeqb_eq| ->%jeqb_eq]; (split; [|done]);
      apply forallb_Forall; reflexivity.
Qed.

Lemma route_ns_runtime_load ns : isValidRouteNs ns = true → isValidRuntimeLoadNs ns = true.
Proof.
  unfold isValidRouteNs, isValidRuntimeLoadNs. intros [->|H]%orb_prop; [done|].
  apply orb_true_iff; right. destruct ns; try done.
  apply set_has_spec in H. apply set_has_spec. unfold RUNTIME_LOAD_ALLOWED_RESERVED_NS.
  apply elem_of_app. by left.
Qed.

Lemma worker_name_units s :
  WORKER_NAME_RE s = true → Forall (λ c, alnum_dash_us c = true) s ∧ 1 <= jlen s <= 255.
Proof.
  intros H. apply head_tail_re_inv in H as [HF HL]. split; [|lia].
  eapply Forall_impl; [exact HF|]. intros c [Hc|Hc]; [|done].
  unfold alnum_dash_us. by rewrite Hc.
Qed.

Lemma validateSegments_Ok p segs :
  validateSegments p segs = Ok tt ↔
  Forall (λ seg, seg ≠ [] ∧ seg ≠ js "." ∧ seg ≠ js ".." ∧ seg ∉ RESERVED_OBJECT_KEYS) segs.
Proof.
  induction segs as [|seg rest IH]; simpl; [split; [constructor | done]|].
  rewrite Forall_cons, <- IH. clear IH.
  destruct (jeqb seg [] || _ || _) eqn:E1.
  - split; [done|]. intros [(? & ? & ? & _) _].
    apply orb_prop in E1 as [[E|E]%orb_prop|E]; apply jeqb_eq in E; congruence.
  - to_prop. rewrite !jeqb_neq in *.
    pose proof (set_has_spec RESERVED_OBJECT_KEYS seg) as Hk.
    destruct (set_has RESERVED_OBJECT_KEYS seg).
    + split; [discriminate|]. intros [(_ & _ & _ & Hn) _]. by destruct Hn; apply Hk.
    + split; [|by intros []]. intros H'. repeat split; try done.
      intros Hin%Hk. discriminate.
Qed.

(** ** Properties *)

(** A tenant namespace accepted by [isValidTenantNs] is a lower-case DNS label of at
    most 63 units: it is none of the reserved names and holds none of the separators
    [:], [/], [.], [\t], [_] or [*] that Redis keys, worker ids, URL paths, hosts and
    route projections are cut at, so no other field can be forged through it. *)
Lemma tenant_ns_key_safe (s : jstr) (H : isValidTenantNs (JStr s) = true) :
  (s ∉ RESERVED_NS ++ RESERVED_TENANT_NS) ∧ (1 <= jlen s <= 63) ∧ to_lower s = s ∧
  Forall (λ sep, sep ∉ s) [58; 47; 46; 9; 95; 42].
Proof.
  apply tenant_ns_inv in H as (Hr & Ht & Hl & HF).
  repeat split; try lia.
  - rewrite elem_of_app. tauto.
  - by apply to_lower_id.
  - repeat constructor; (eapply Forall_class_no_sep; [|exact HF]); done.
Qed.

(** [validateModulePath] accepts exactly the strings of the module-path grammar whose
    every [/]-separated segment is non-empty, is neither [.] nor [..], and is not a name of
    Object.prototype; in particular no accepted path is absolute or climbs out. *)
Lemma validateModulePath_exact (s : jstr) :
  validateModulePath (JStr s) = Ok tt ↔
  MODULE_PATH_RE s = true ∧
  Forall (λ seg, seg ≠ [] ∧ seg ≠ js "." ∧ seg ≠ js ".." ∧ seg ∉ RESERVED_OBJECT_KEYS)
    (split_on 47 s).
Proof.
  unfold validateModulePath. rewrite <- validateSegments_Ok with (p := s).
  destruct (MODULE_PATH_RE s); split; try done; by intros [].
Qed.
