(* ===== verification/WorkerContract.v ===== *)
(** * Worker versions, worker ids and control-plane keys

    Models the version tags, Redis key builders and delete-lock tokens of
    src/shared/worker-contract.js and the worker ids of src/shared/worker-id.js.
    The session-policy and worker-delete payloads of the same file are in SessionPolicy. *)

From stdpp Require Import base list strings.
From Stdlib Require Import ZArith Lia.
From S2P Require Import Prelude NsPattern.

#[local] Open Scope Z_scope.
#[local] Open Scope wdl_scope.

Inductive contract_error :=
| InvalidVersionNumber
| InvalidVersionTag
| InvalidDeleteLockToken.

(** ** Version tags *)

Definition formatVersion (n : jsval) : result contract_error jstr :=
  match safe_integer_of n with
  | Some z => if z <? 1 then Err InvalidVersionNumber else Ok (js "v" ++ string_of_Z z)
  | None => Err InvalidVersionNumber
  end.

Definition MAX_WORKER_VERSION_TAG : jstr := js "v9007199254740991".

(** The digit loop of [parseVersion]. Sums past 2^53 - 1 are rounded by the source but
    stay at or above 2^53, so the exact sum fails the same test. *)
Fixpoint parseVersionDigits (parsed : Z) (s : jstr) : option Z :=
  match s with
  | [] => Some parsed
  | c :: rest =>
      let digit := c - 48 in
      if (digit <? 0) || (9 <? digit) then None
      else let parsed' := parsed * 10 + digit in
           if is_safe_integer parsed' then parseVersionDigits parsed' rest else None
  end.

Definition parseVersion (tag : jsval) : option Z :=
  match tag with
  | JStr (c0 :: c1 :: rest) =>
      if negb (c0 =? 118) || (c1 =? 48) then None else parseVersionDigits 0 (c1 :: rest)
  | _ => None
  end.

(** ** Keys *)

Definition colon : Z := 58.

Definition bundleKey (ns worker : jstr) (version : jsval) : result contract_error jstr :=
  match parseVersion version with
  | None => Err InvalidVersionTag
  | Some n => Ok (js "worker:" ++ ns ++ js ":" ++ worker ++ js ":v:" ++ string_of_Z n)
  end.

Definition nextVersionKey (ns worker : jstr) : jstr :=
  js "worker:" ++ ns ++ js ":" ++ worker ++ js ":next_version".
Definition CRON_GENERATION_EPOCH : Z := 1024.
Definition cronSequenceKey (ns worker : jstr) : jstr := js "cron:seq:" ++ ns ++ js ":" ++ worker.
Definition routesKey (ns : jstr) : jstr := js "routes:" ++ ns.
Definition platformDomainDisabledKey (ns : jstr) : jstr := js "platform-domain-disabled:" ++ ns.
Definition patternsKey (host : jstr) : jstr := js "patterns:" ++ host.

Definition NAMESPACES_KEY : jstr := js "namespaces".
Definition DECLARED_HOSTS_KEY : jstr := js "declared-hosts".

Definition HOSTS_PREFIX : jstr := js "hosts:".
Definition hostsKey (ns : jstr) : jstr := HOSTS_PREFIX ++ ns.
Definition namespaceFromHostsKey (key : jstr) : jstr :=
  if starts_with HOSTS_PREFIX key then drop (length HOSTS_PREFIX) key else [].
Definition nsHostsKey (ns : jstr) : jstr := js "ns-hosts:" ++ ns.
Definition hostDeclarationsKey (host : jstr) : jstr := js "host-declarations:" ++ host.
Definition workerVersionsKey (ns worker : jstr) : jstr :=
  js "worker-versions:" ++ ns ++ js ":" ++ worker.
Definition doStorageIdKey (ns worker : jstr) : jstr :=
  js "worker:do-storage:" ++ ns ++ js ":" ++ worker.

Definition SESSION_POLICY_PRESERVE : jstr := js "preserve".
Definition SESSION_POLICY_RESTART : jstr := js "restart".

Definition isSessionPolicyMode (value : jsval) : bool :=
  match value with
  | JStr s => jeqb s SESSION_POLICY_PRESERVE || jeqb s SESSION_POLICY_RESTART
  | _ => false
  end.

Definition isValidSessionPolicy (version mode restartSequence : jsval) : bool :=
  match parseVersion version, safe_integer_of restartSequence with
  | Some _, Some n =>
      isSessionPolicyMode mode && (0 <=? n) &&
      (match mode with JStr s => negb (jeqb s SESSION_POLICY_RESTART) | _ => true end
       || negb (n =? 0))
  | _, _ => false
  end.

Definition sessionPolicyKey (ns worker : jstr) : jstr :=
  js "worker:session-policy:" ++ ns ++ js ":" ++ worker.
Definition sessionPolicySequenceKey (ns worker : jstr) : jstr :=
  js "worker:session-policy-seq:" ++ ns ++ js ":" ++ worker.

(** ** Delete locks *)

Definition WHOLE_DELETE_LOCK_KIND : jstr := js "whole".
Definition VERSION_DELETE_LOCK_KIND : jstr := js "version".

Definition deleteLockKey (ns worker : jstr) : jstr :=
  js "worker-delete-lock:" ++ ns ++ js ":" ++ worker.

Definition is_delete_lock_kind (k : jstr) : bool :=
  jeqb k WHOLE_DELETE_LOCK_KIND || jeqb k VERSION_DELETE_LOCK_KIND.

Definition formatDeleteLockToken (kind : jstr) (token : jsval) : result contract_error jstr :=
  match token with
  | JStr (t :: ts) =>
      if is_delete_lock_kind kind then Ok (kind ++ js ":" ++ t :: ts) else Err InvalidDeleteLockToken
  | _ => Err InvalidDeleteLockToken
  end.

Definition parseDeleteLockKind (value : jsval) : option jstr :=
  match value with
  | JStr s =>
      let separator := index_of colon s in
      if (separator <=? 0) || (separator =? jlen s - 1) then None
      else let kind := take (Z.to_nat separator) s in
           if is_delete_lock_kind kind then Some kind else None
  | _ => None
  end.

(** ** Worker ids (src/shared/worker-id.js) *)

Record worker_id := WorkerId { wid_namespace : jstr; wid_worker : jstr; wid_version : jstr }.

Definition formatWorkerId (id : worker_id) : jstr :=
  wid_namespace id ++ js ":" ++ wid_worker id ++ js ":" ++ wid_version id.

(** [null], [undefined] and the empty string all read as an absent id. *)
Definition parseWorkerId (workerId : option jstr) : option (list jstr) :=
  match workerId with
  | None | Some [] => None
  | Some s =>
      let parts := split_on colon s in
      if negb (Nat.eqb (length parts) 3) || existsb (λ p, jeqb p []) parts then None
      else Some parts
  end.

Definition parseValidatedWorkerId (workerId : option jstr) (nsValidator : jsval → bool)
  : option worker_id :=
  match parseWorkerId workerId with
  | Some [namespace; worker; version] =>
      if negb (nsValidator (JStr namespace)) then None
      else if negb (WORKER_NAME_RE worker) then None
      else match parseVersion (JStr version) with
           | None => None
           | Some _ => Some (WorkerId namespace worker version)
           end
  | _ => None
  end.

Definition parseDispatchWorkerId (workerId : option jstr) : option worker_id :=
  parseValidatedWorkerId workerId isValidRouteNs.
Definition parseRuntimeLoadWorkerId (workerId : option jstr) : option worker_id :=
  parseValidatedWorkerId workerId isValidRuntimeLoadNs.

(** ** Lemmas on version tags *)

Lemma is_digit_sub c : is_digit c = negb ((c - 48 <? 0) || (9 <? c - 48)).
Proof. unfold is_digit. apply eq_iff_eq_true. rewrite negb_true_iff, orb_false_iff, andb_true_iff. lia. Qed.

Lemma dec_value_mono acc s :
  0 <= acc → Forall (λ c, is_digit c = true) s → acc <= dec_value acc s.
Proof.
  intros Ha H. revert acc Ha; induction H as [|c s Hc H IH]; intros acc Ha; simpl; [lia|].
  unfold is_digit in Hc. specialize (IH (acc * 10 + (c - 48))). lia.
Qed.

(** The digit loop computes the decimal value exactly when it is a safe integer. *)
Lemma parseVersionDigits_spec acc s n :
  0 <= acc <= MAX_SAFE_INTEGER →
  parseVersionDigits acc s = Some n ↔
  Forall (λ c, is_digit c = true) s ∧ dec_value acc s = n ∧ n <= MAX_SAFE_INTEGER.
Proof.
  revert acc; induction s as [|c s IH]; intros acc Ha; simpl.
  - split; [intros [= <-]; repeat split; [constructor|lia] | intros (_ & -> & _); done].
  - rewrite Forall_cons, is_digit_sub.
    destruct ((c - 48 <? 0) || (9 <? c - 48)) eqn:Ec; simpl.
    + split; [discriminate | intros ([? _] & _); discriminate].
    + to_prop. unfold is_safe_integer.
      destruct ((- MAX_SAFE_INTEGER <=? _) && _) eqn:Es.
      * rewrite IH by lia. tauto.
      * split; [discriminate|]. intros ([_ HF] & <- & Hn).
        pose proof (dec_value_mono (acc * 10 + (c - 48)) s ltac:(lia) HF). lia.
Qed.

Lemma parseVersion_format n :
  1 <= n <= MAX_SAFE_INTEGER → parseVersion (JStr (js "v" ++ string_of_Z n)) = Some n.
Proof.
  intros Hn. unfold string_of_Z. destruct (Z.ltb_spec n 0); [lia|].
  destruct (string_of_nonneg_head n ltac:(lia)) as (d & rest & E & Hd).
  rewrite E. simpl. destruct (Z.eqb_spec d 48); [lia|]. simpl.
  apply (parseVersionDigits_spec 0 (d :: rest) n); [unfold MAX_SAFE_INTEGER; lia|].
  rewrite <- E. repeat split; [apply string_of_nonneg_digits; lia
    | apply dec_value_string_of_nonneg; lia | lia].
Qed.

(** Decimal strings without a leading zero are determined by their value. *)
Lemma dec_value_length_bound acc s :
  1 <= acc → Forall (λ c, is_digit c = true) s →
  acc * 10 ^ jlen s <= dec_value acc s < (acc + 1) * 10 ^ jlen s.
Proof.
  unfold jlen. intros Ha H. revert acc Ha; induction H as [|c s Hc H IH]; intros acc Ha; simpl; [lia|].
  unfold is_digit in Hc. specialize (IH (acc * 10 + (c - 48)) ltac:(lia)).
  change (Z.pos (Pos.of_succ_nat (length s))) with (Z.of_nat (S (length s))).
  rewrite Nat2Z.inj_succ, Z.pow_succ_r by lia.
  assert (0 < 10 ^ Z.of_nat (length s)) by (apply Z.pow_pos_nonneg; lia). nia.
Qed.

Lemma dec_value_inj_same_length acc acc' s t :
  length s = length t → 0 <= acc → 0 <= acc' →
  Forall (λ c, is_digit c = true) s → Forall (λ c, is_digit c = true) t →
  dec_value acc s = dec_value acc' t → acc = acc' ∧ s = t.
Proof.
  intros Hl. revert acc acc' t Hl; induction s as [|c s IH]; intros acc acc' [|d t] Hl Ha Ha' Hs Ht Hv;
    try done.
  inversion Hs as [|? ? Hc Hs']; inversion Ht as [|? ? Hd Ht']; subst.
  unfold is_digit in *. simpl in Hl, Hv.
  destruct (IH (acc * 10 + (c - 48)) (acc' * 10 + (d - 48)) t ltac:(lia) ltac:(lia) ltac:(lia) Hs' Ht' Hv)
    as [He ->].
  assert (acc = acc') by lia. assert (c = d) by lia. by subst.
Qed.

Lemma dec_value_shorter a b s t :
  1 <= a <= 9 → 1 <= b →
  Forall (λ c, is_digit c = true) s → Forall (λ c, is_digit c = true) t →
  (length s < length t)%nat → dec_value a s < dec_value b t.
Proof.
  intros Ha Hb Hs Ht L.
  pose proof (dec_value_length_bound a s ltac:(lia) Hs) as [_ Bs].
  pose proof (dec_value_length_bound b t ltac:(lia) Ht) as [Bt _].
  unfold jlen in *.
  assert (10 * 10 ^ Z.of_nat (length s) <= 10 ^ Z.of_nat (length t)).
  { rewrite <- Z.pow_succ_r by lia. apply Z.pow_le_mono_r; lia. }
  assert (0 < 10 ^ Z.of_nat (length s)) by (apply Z.pow_pos_nonneg; lia).
  assert ((a + 1) * 10 ^ Z.of_nat (length s) <= 10 * 10 ^ Z.of_nat (length s)) by nia.
  assert (10 ^ Z.of_nat (length t) <= b * 10 ^ Z.of_nat (length t)) by nia. lia.
Qed.

Lemma dec_value_inj_nonzero c s d t :
  49 <= c <= 57 → 49 <= d <= 57 →
  Forall (λ c, is_digit c = true) s → Forall (λ c, is_digit c = true) t →
  dec_value 0 (c :: s) = dec_value 0 (d :: t) → c :: s = d :: t.
Proof.
  intros Hc Hd Hs Ht Hv. change (dec_value (c - 48) s = dec_value (d - 48) t) in Hv.
  assert (length s = length t) as Hl.
  { destruct (Nat.lt_total (length s) (length t)) as [L|[L|L]]; [exfalso|done|exfalso].
    - pose proof (dec_value_shorter (c - 48) (d - 48) s t ltac:(lia) ltac:(lia) Hs Ht L). lia.
    - pose proof (dec_value_shorter (d - 48) (c - 48) t s ltac:(lia) ltac:(lia) Ht Hs L). lia. }
  destruct (dec_value_inj_same_length (c - 48) (d - 48) s t) as [E ->]; try lia; try done.
  by assert (c = d) as -> by lia.
Qed.

Lemma parseVersion_inv tag n :
  parseVersion (JStr tag) = Some n → 1 <= n <= MAX_SAFE_INTEGER ∧ tag = js "v" ++ string_of_Z n.
Proof.
  destruct tag as [|c0 [|c1 rest]]; try done. simpl. intros H.
  destruct (_ || _) eqn:E; [done|]. to_prop. subst c0.
  apply (parseVersionDigits_spec 0 (c1 :: rest)) in H as (HF & Hv & Hm);
    [|unfold MAX_SAFE_INTEGER; lia].
  apply Forall_cons in HF as [Hc Hr]. unfold is_digit in Hc.
  assert (1 <= n) as Hn.
  { change (dec_value (c1 - 48) rest = n) in Hv.
    pose proof (dec_value_mono (c1 - 48) rest ltac:(lia) Hr). lia. }
  split; [lia|]. unfold string_of_Z. destruct (Z.ltb_spec n 0); [lia|].
  destruct (string_of_nonneg_head n Hn) as (d & ds & Es & Hd).
  change (js "v" ++ string_of_nonneg n) with (118 :: string_of_nonneg n). f_equal. rewrite Es.
  pose proof (string_of_nonneg_digits n ltac:(lia)) as Hds. rewrite Es in Hds.
  apply Forall_cons in Hds as [_ Hds].
  apply dec_value_inj_nonzero; try lia; try done.
  rewrite <- Es, dec_value_string_of_nonneg by lia. done.
Qed.

Lemma version_no_colon tag n : parseVersion (JStr tag) = Some n → (colon ∉ tag) ∧ tag ≠ [].
Proof.
  intros [Hn ->]%parseVersion_inv. split; [|done].
  rewrite not_elem_of_app. split; [by apply includes_unit_false|].
  unfold string_of_Z. destruct (Z.ltb_spec n 0); [lia|].
  eapply Forall_class_no_sep; [|apply string_of_nonneg_digits; lia]. done.
Qed.

#[export] Hint Resolve parseVersion_format : wdl.

Arguments parseVersion : simpl never.

(** ** Lemmas on worker ids *)

Lemma runtime_load_ns_no_colon ns :
  isValidRuntimeLoadNs (JStr ns) = true → (colon ∉ ns) ∧ ns ≠ [].
Proof.
  intros [HF Hne]%runtime_load_ns_units. split; [|done].
  eapply Forall_class_no_sep; [|exact HF]. done.
Qed.

Lemma worker_name_no_colon w : WORKER_NAME_RE w = true → (colon ∉ w) ∧ w ≠ [].
Proof.
  intros [HF HL]%worker_name_units. split.
  - eapply Forall_class_no_sep; [|exact HF]. done.
  - intros ->. unfold jlen in HL. simpl in HL. lia.
Qed.

Lemma parseWorkerId_join a b c :
  colon ∉ a → colon ∉ b → colon ∉ c → a ≠ [] → b ≠ [] → c ≠ [] →
  parseWorkerId (Some (join_with colon [a; b; c])) = Some [a; b; c].
Proof.
  intros Ha Hb Hc Na Nb Nc. unfold parseWorkerId.
  assert (∃ x xs, join_with colon [a; b; c] = x :: xs) as (x & xs & E) by (destruct a; simpl; eauto; done).
  rewrite E, <- E, split_join by (repeat constructor; done). simpl.
  by rewrite !(proj2 (jeqb_neq _ _)).
Qed.

Lemma parseWorkerId_inv s a b c :
  parseWorkerId (Some s) = Some [a; b; c] → s = join_with colon [a; b; c].
Proof.
  unfold parseWorkerId. destruct s as [|x s]; [done|].
  pose proof (join_split colon (x :: s)) as J.
  destruct (split_on colon (x :: s)) as [|p ps]; [done|].
  destruct (_ || _); [done|]. intros H. injection H as -> ->. done.
Qed.

(** Injectivity of the colon-separated names below a fixed prefix. *)
Lemma colon_pair_inj a b a' b' :
  colon ∉ a → colon ∉ a' → a ++ colon :: b = a' ++ colon :: b' → a = a' ∧ b = b'.
Proof.
  revert a'; induction a as [|x a IH]; intros [|x' a'] Ha Ha' H; simpl in H.
  - by inversion H.
  - inversion H; subst. rewrite not_elem_of_cons in Ha'. tauto.
  - inversion H; subst. rewrite not_elem_of_cons in Ha. tauto.
  - inversion H; subst. rewrite not_elem_of_cons in Ha, Ha'.
    destruct (IH a') as [-> ->]; tauto.
Qed.

(** ** Properties *)

(** Version tags and version numbers are in bijection: [parseVersion] reads a tag to
    [n] exactly when [formatVersion] prints [n] as that tag, so a version has one tag and a
    tag one version, and anything else (leading zeros, signs, other text, numbers past
    2^53 - 1) is rejected on both sides. *)
Lemma version_tag_bijection (tag : jstr) (n : Z) :
  parseVersion (JStr tag) = Some n ↔ formatVersion (JNum (NInt n)) = Ok tag.
Proof.
  unfold formatVersion, safe_integer_of. split.
  - intros [Hn ->]%parseVersion_inv. unfold is_safe_integer.
    rewrite (proj2 (andb_true_iff _ _)) by lia. by destruct (Z.ltb_spec n 1); [lia|].
  - destruct (is_safe_integer n) eqn:Es; [|done]. unfold is_safe_integer in Es. to_prop.
    destruct (Z.ltb_spec n 1); [done|]. intros [= <-]. apply parseVersion_format. lia.
Qed.

(** A worker id text is accepted by the runtime loader exactly when it is the
    [formatWorkerId] of a namespace, worker name and version that are each valid; the
    parts come back unchanged, so no two accepted ids share a text. *)
Lemma worker_id_roundtrip (s : jstr) (id : worker_id) :
  parseRuntimeLoadWorkerId (Some s) = Some id ↔
  s = formatWorkerId id ∧ isValidRuntimeLoadNs (JStr (wid_namespace id)) = true ∧
  WORKER_NAME_RE (wid_worker id) = true ∧ parseVersion (JStr (wid_version id)) ≠ None.
Proof.
  unfold parseRuntimeLoadWorkerId, parseValidatedWorkerId. split.
  - destruct (parseWorkerId (Some s)) as [[|a [|b [|c []]]]|] eqn:E; try done.
    apply parseWorkerId_inv in E. subst s.
    destruct (isValidRuntimeLoadNs (JStr a)) eqn:Ea; [|done].
    destruct (WORKER_NAME_RE b) eqn:Eb; [|done]. simpl.
    destruct (parseVersion (JStr c)) eqn:Ec; [|done].
    intros [= <-]. simpl. by rewrite Ec.
  - intros (-> & Ha & Hb & Hc). destruct id as [a b c]; cbn [wid_namespace wid_worker wid_version] in *.
    destruct (parseVersion (JStr c)) as [n|] eqn:Ec; [|done].
    destruct (runtime_load_ns_no_colon a Ha), (worker_name_no_colon b Hb), (version_no_colon c n Ec).
    change (formatWorkerId (WorkerId a b c)) with (join_with colon [a; b; c]).
    rewrite parseWorkerId_join by assumption.
    by rewrite Ha, Hb, Ec.
Qed.

(** Bundle keys of valid workers never collide: two bundle keys are equal only for the
    same namespace, worker and version, and no bundle key is the [next_version] allocator
    key of any worker. *)
Lemma bundleKey_injective (ns worker v ns' worker' v' k : jstr)
  (Hns : isValidRuntimeLoadNs (JStr ns) = true) (Hns' : isValidRuntimeLoadNs (JStr ns') = true)
  (Hw : WORKER_NAME_RE worker = true) (Hw' : WORKER_NAME_RE worker' = true)
  (Hk : bundleKey ns worker (JStr v) = Ok k) :
  k ≠ nextVersionKey ns' worker' ∧
  (bundleKey ns' worker' (JStr v') = Ok k → ns = ns' ∧ worker = worker' ∧ v = v').
Proof.
  destruct (runtime_load_ns_no_colon ns Hns) as [Cn _], (runtime_load_ns_no_colon ns' Hns') as [Cn' _].
  destruct (worker_name_no_colon worker Hw) as [Cw _], (worker_name_no_colon worker' Hw') as [Cw' _].
  unfold bundleKey in *. destruct (parseVersion (JStr v)) as [n|] eqn:Ev; [|done].
  apply Ok_inj in Hk. subst k. split.
  - unfold nextVersionKey. intros H. apply app_inv_head in H.
    apply (colon_pair_inj ns _ ns') in H as [-> H]; try done.
    apply (colon_pair_inj worker _ worker') in H as [-> H]; done.
  - destruct (parseVersion (JStr v')) as [n'|] eqn:Ev'; [|done]. intros H. apply Ok_inj in H.
    apply app_inv_head in H. apply (colon_pair_inj ns' _ ns) in H as [-> H]; try done.
    apply (colon_pair_inj worker' _ worker) in H as [-> H]; try done.
    apply (app_inv_head (js "v:")) in H.
    apply parseVersion_inv in Ev as [? ->], Ev' as [? ->]. by rewrite H.
Qed.

(** The kind of a delete-lock token survives the round trip whatever the non-empty
    lock secret is, colons included. *)
Lemma delete_lock_roundtrip (kind secret token : jstr)
  (H : formatDeleteLockToken kind (JStr secret) = Ok token) :
  parseDeleteLockKind (JStr token) = Some kind.
Proof.
  unfold formatDeleteLockToken in H. destruct secret as [|t ts]; [done|].
  destruct (is_delete_lock_kind kind) eqn:Ek; [|done]. apply Ok_inj in H. subst token.
  unfold is_delete_lock_kind in Ek.
  unfold parseDeleteLockKind.
  assert (kind = js "whole" ∨ kind = js "version") as Hkind
    by (apply orb_prop in Ek as [E|E]; apply jeqb_eq in E; auto).
  destruct ((index_of colon _ <=? 0) || _) eqn:E.
  - exfalso. unfold jlen in E. rewrite !length_app in E.
    destruct Hkind as [-> | ->];
      [change (index_of colon (js "whole" ++ js ":" ++ t :: ts)) with 5 in E
      |change (index_of colon (js "version" ++ js ":" ++ t :: ts)) with 7 in E];
      simpl length in E; clear Ek;
      (apply orb_prop in E as [E|E]; [done | apply Z.eqb_eq in E; lia]).
  - by destruct Hkind as [-> | ->].
Qed.

(** ** Keys that coincide *)

(** Namespaces called [session-policy] and [do-storage] and workers called [next_version] are
    valid, and for every namespace [x] the session policy (the Durable Object storage) of
    [x/next_version] is kept under the version counter of [session-policy/x]
    ([do-storage/x]). *)
Lemma worker_keys_collide (x : jstr) :
  isValidTenantNs (JStr (js "session-policy")) = true ∧ isValidTenantNs (JStr (js "do-storage")) = true ∧
  WORKER_NAME_RE (js "next_version") = true ∧
  sessionPolicyKey x (js "next_version") = nextVersionKey (js "session-policy") x ∧
  doStorageIdKey x (js "next_version") = nextVersionKey (js "do-storage") x.
Proof.
  unfold sessionPolicyKey, doStorageIdKey, nextVersionKey.
  change (js ":next_version") with (js ":" ++ js "next_version").
  change (js "worker:session-policy:") with (js "worker:" ++ js "session-policy" ++ js ":").
  change (js "worker:do-storage:") with (js "worker:" ++ js "do-storage" ++ js ":").
  rewrite <- !app_assoc. by split_and!; [vm_compute; reflexivity..| |].
Qed.
