(* ===== verification/Gateway.v ===== *)
(** * Gateway routing decisions

    Models src/shared/route-projection.js, src/gateway/lib.js and the dispatch decision of
    src/gateway/dispatch.js. The routing tables a request reads
    ([resolveNamespaceRoutes], [resolveHostPatterns]) are arguments of
    [resolveGatewayDispatch]; GatewayRuntime.v models how they are cached. The memo table of
    compiled host expressions ([hostRegexCache]) has no observable effect and is left out. *)

From stdpp Require Import base list strings sorting sets.
From Stdlib Require Import ZArith Lia.
From S2P Require Import Prelude NsPattern WorkerContract JsMap.

#[local] Open Scope Z_scope.
#[local] Open Scope wdl_scope.

(** ** Pattern projections (src/shared/route-projection.js) *)

Definition tab : Z := 9.
Definition PATTERN_PROJECTION_VERSION : jstr := js "v2".

Inductive pattern_kind := Exact | Prefix.

#[export] Instance pattern_kind_eq_dec : EqDecision pattern_kind.
Proof. solve_decision. Defined.

Definition kind_text (k : pattern_kind) : jstr :=
  match k with Exact => js "exact" | Prefix => js "prefix" end.

Definition kind_of_text (s : jstr) : option pattern_kind :=
  if jeqb s (js "exact") then Some Exact
  else if jeqb s (js "prefix") then Some Prefix else None.

Record projection := Projection {
  pp_ns : jstr; pp_worker : jstr; pp_version : jstr; pp_kind : pattern_kind; pp_value : jstr }.

Inductive projection_error := InvalidComponent (name : jstr) | InvalidKind.

Definition requireProjectionComponent (name : jstr) (value : jsval) : result projection_error jstr :=
  match value with
  | JStr [] => Err (InvalidComponent name)
  | JStr s => if includes_unit tab s then Err (InvalidComponent name) else Ok s
  | _ => Err (InvalidComponent name)
  end.

Definition encodePatternProjection (ns worker version kind value : jsval)
  : result projection_error jstr :=
  let! ns := requireProjectionComponent (js "ns") ns in
  let! worker := requireProjectionComponent (js "worker") worker in
  let! version := requireProjectionComponent (js "version") version in
  let! kind := requireProjectionComponent (js "kind") kind in
  let! value := requireProjectionComponent (js "value") value in
  match kind_of_text kind with
  | None => Err InvalidKind
  | Some _ => Ok (join_with tab [PATTERN_PROJECTION_VERSION; ns; worker; version; kind; value])
  end.

Definition decodePatternProjection (raw : jsval) : option projection :=
  match raw with
  | JStr s =>
      match split_on tab s with
      | [v; ns; worker; version; kind; value] =>
          if negb (jeqb v PATTERN_PROJECTION_VERSION) then None
          else if (jlen ns =? 0) || (jlen worker =? 0) || (jlen version =? 0) || (jlen value =? 0)
          then None
          else match kind_of_text kind with
               | None => None
               | Some k => Some (Projection ns worker version k value)
               end
      | _ => None
      end
  | _ => None
  end.

(** ** Request headers and hosts (src/gateway/lib.js) *)

(** A [Headers] object: names are kept in lower case. *)
Abbreviation headers := (list (jstr * jstr)).

Definition header_delete (name : jstr) (h : headers) : headers :=
  filter (λ kv, to_lower name ≠ kv.1) h.

Definition INTERNAL_HEADER_PREFIX : jstr := js "x-wdl-".
Definition INTERNAL_FORWARD_HEADERS : list jstr := [js "x-worker-id"; js "x-worker-prefix"].

Definition deleteGatewayInternalHeaders (h : headers) : headers :=
  let h1 := fold_left (λ acc name, header_delete name acc) INTERNAL_FORWARD_HEADERS h in
  let privateHeaders := List.filter (starts_with INTERNAL_HEADER_PREFIX) (map fst h1) in
  fold_left (λ acc name, header_delete name acc) privateHeaders h1.

Definition normalizeRequestHost (hostname : jstr) : jstr := trim_end is_dot hostname.

Definition isWebSocketUpgrade (upgrade : option jstr) : bool :=
  jeqb (to_lower (default [] upgrade)) (js "websocket").

Definition isPatternInvalidationKey (host : jsval) : bool :=
  match host with
  | JStr s =>
      (0 <? jlen s) && jeqb s (to_lower s) && jeqb (normalizeRequestHost s) s &&
      negb (includes_unit 58 s) && negb (includes_unit 47 s) && negb (existsb is_space s)
  | _ => false
  end.

Inductive classified := Subdomain (namespace : jstr) | PatternHost (host : jstr).

(** [new RegExp(`^(${nsPattern})\\.${RegExp.escape(platformDomain)}$`)]: the suffix has a
    fixed length, so the group is what precedes it. *)
Definition hostRegex (platformDomain : jstr) (nsPattern : jstr → bool) (host : jstr) : option jstr :=
  let suffix := js "." ++ platformDomain in
  let n := (length host - length suffix)%nat in
  let ns := take n host in
  if bool_decide (drop n host = suffix) && nsPattern ns then Some ns else None.

Definition classifyHost (hostname platformDomain : jstr) (nsPattern : jstr → bool) : classified :=
  let normalized := normalizeRequestHost hostname in
  match hostRegex platformDomain nsPattern normalized with
  | Some ns => Subdomain ns
  | None => PatternHost normalized
  end.

(** ** Pattern tables *)

Record pattern_entry := PatternEntry {
  pe_slot : jstr; pe_kind : pattern_kind; pe_value : jstr;
  pe_ns : jstr; pe_worker : jstr; pe_version : jstr }.

Inductive pattern_reason := BadShape | BadNamespace.

(** The checks on one entry of the table: the projection read back from Redis is an object
    with five string fields, or something else. *)
Definition patternEntryOf (isValidRouteNamespace : jstr → bool) (slot : jstr) (parsed : jsval)
  : result pattern_reason pattern_entry :=
  match parsed with
  | JObj record =>
      match obj_get (js "ns") record, obj_get (js "worker") record, obj_get (js "version") record,
            obj_get (js "kind") record, obj_get (js "value") record with
      | JStr ns, JStr worker, JStr version, JStr kind, JStr value =>
          match kind_of_text kind with
          | Some k =>
              if isValidRouteNamespace ns
              then Ok (PatternEntry slot k value ns worker version)
              else Err BadNamespace
          | None => Err BadShape
          end
      | _, _, _, _, _ => Err BadShape
      end
  | _ => Err BadShape
  end.

(** The comparator of [toSorted]: longer values first, exact before prefix. *)
Definition patternCompare (a b : pattern_entry) : Z :=
  let d := jlen (pe_value b) - jlen (pe_value a) in
  if negb (d =? 0) then d
  else if decide (pe_kind a = pe_kind b) then 0
  else match pe_kind a with Exact => -1 | Prefix => 1 end.

(** [Array.prototype.toSorted] is stable: an element goes after those it ties with. *)
Fixpoint insert_stable (cmp : pattern_entry → pattern_entry → Z) (x : pattern_entry)
    (l : list pattern_entry) : list pattern_entry :=
  match l with
  | [] => [x]
  | y :: l' => if cmp y x <=? 0 then y :: insert_stable cmp x l' else x :: l
  end.

Definition to_sorted (cmp : pattern_entry → pattern_entry → Z) (l : list pattern_entry)
  : list pattern_entry :=
  fold_left (λ acc x, insert_stable cmp x acc) l [].

Fixpoint collectPatterns (valid : jstr → bool) (entries : list (jstr * jsval))
  : list pattern_entry * list (jstr * pattern_reason) :=
  match entries with
  | [] => ([], [])
  | (slot, parsed) :: rest =>
      let '(sorted, errors) := collectPatterns valid rest in
      match patternEntryOf valid slot parsed with
      | Ok e => (e :: sorted, errors)
      | Err r => (sorted, (slot, r) :: errors)
      end
  end.

Definition sortPatterns (entries : list (jstr * jsval)) (isValidRouteNamespace : jstr → bool)
  : list pattern_entry * list (jstr * pattern_reason) :=
  let '(sorted, errors) := collectPatterns isValidRouteNamespace entries in
  (to_sorted patternCompare sorted, errors).

Definition matchPatternEntry (entry : pattern_entry) (pathname search : jstr) : bool :=
  match pe_kind entry with
  | Exact => jeqb pathname (pe_value entry) && jeqb search []
  | Prefix => starts_with (pe_value entry) pathname
  end.

Fixpoint matchPatternFrom (comparisons : Z) (sorted : list pattern_entry) (pathname search : jstr)
  : option pattern_entry * Z :=
  match sorted with
  | [] => (None, comparisons)
  | entry :: rest =>
      if matchPatternEntry entry pathname search then (Some entry, comparisons + 1)
      else matchPatternFrom (comparisons + 1) rest pathname search
  end.

Definition matchPatternWithStats (sorted : list pattern_entry) (pathname search : jstr)
  : option pattern_entry * Z :=
  matchPatternFrom 0 sorted pathname search.

(** ** Dispatch (src/gateway/dispatch.js) *)

Inductive binding := CONTROL | RUNTIME_SYSTEM | RUNTIME_USER.

Inductive dispatch :=
| NotFound (route : jstr) (namespace worker version : option jstr)
| ForwardControl (forwardPath prefix : jstr)
| ForwardRuntime (route : jstr) (bindingName : binding) (forwardPath prefix namespace worker version : jstr).

(** [/^\/+([^/]+)(?=\/|$)/]: leading slashes, then the non-slash run. *)
Fixpoint take_while (p : Z → bool) (s : jstr) : jstr :=
  match s with
  | [] => []
  | c :: s' => if p c then c :: take_while p s' else []
  end.

Record path_parts := PathParts { sp_worker : jstr; sp_prefix : jstr; sp_forwardPath : jstr }.

Definition subdomainPathParts (pathname : jstr) : option path_parts :=
  if negb (starts_with (js "/") pathname) then None
  else
    let rest := drop_while is_slash pathname in
    let worker := take_while (λ c, negb (is_slash c)) rest in
    match worker with
    | [] => None
    | _ =>
        let suffix := drop (length worker) rest in
        Some (PathParts worker (js "/" ++ worker)
                (match suffix with [] => js "/" | _ => suffix end))
    end.

(** What the awaited table lookups answer: [None] when the name is not known. *)
Definition ns_resolution := option (jmap jstr jstr).
Definition host_resolution := option (list pattern_entry).

Definition bindingFor (namespace : jstr) : binding :=
  if jeqb namespace (js "__system__") then RUNTIME_SYSTEM else RUNTIME_USER.

Section dispatch.
Context {E : Type}.
Variables (resolveNamespaceRoutes : jstr → result E ns_resolution)
          (resolveHostPatterns : jstr → result E host_resolution).

Definition subdomainDispatch (pathname namespace : jstr) : result E dispatch :=
  let route := js "worker_fetch_subdomain" in
  if isReservedNs (JStr namespace) || set_has RESERVED_TENANT_NS namespace
  then Ok (NotFound route (Some namespace) None None)
  else
    let! resolvedRoutes := resolveNamespaceRoutes namespace in
    match resolvedRoutes with
    | None => Ok (NotFound route (Some namespace) None None)
    | Some nsRoutes =>
        match subdomainPathParts pathname with
        | None => Ok (NotFound route (Some namespace) None None)
        | Some (PathParts worker prefix forwardPath) =>
            if negb (WORKER_NAME_RE worker)
            then Ok (NotFound route (Some namespace) (Some worker) None)
            else match jm_get worker nsRoutes with
                 | None | Some [] => Ok (NotFound route (Some namespace) (Some worker) None)
                 | Some version =>
                     match parseVersion (JStr version) with
                     | None => Ok (NotFound route (Some namespace) (Some worker) (Some version))
                     | Some _ => Ok (ForwardRuntime route (bindingFor namespace) forwardPath prefix
                                       namespace worker version)
                     end
                 end
        end
    end.

Definition patternDispatch (pathname search host : jstr) : result E dispatch :=
  let route := js "worker_fetch_pattern" in
  let! resolvedPatterns := resolveHostPatterns host in
  match resolvedPatterns with
  | None => Ok (NotFound route None None None)
  | Some sorted =>
      match (matchPatternWithStats sorted pathname search).1 with
      | None => Ok (NotFound route None None None)
      | Some hit =>
          let namespace := pe_ns hit in
          let worker := pe_worker hit in
          if negb (WORKER_NAME_RE worker)
          then Ok (NotFound route (Some namespace) (Some worker) (Some (pe_version hit)))
          else match parseVersion (JStr (pe_version hit)) with
               | None => Ok (NotFound route (Some namespace) (Some worker) (Some (pe_version hit)))
               | Some _ => Ok (ForwardRuntime route (bindingFor namespace) pathname (pe_slot hit)
                                 namespace worker (pe_version hit))
               end
      end
  end.

Definition resolveGatewayDispatch (pathname search normalizedHost normalizedAdminHost platformDomain : jstr)
  : result E dispatch :=
  if negb (jeqb normalizedAdminHost []) && jeqb normalizedHost normalizedAdminHost
  then Ok (ForwardControl pathname (js "/"))
  else match classifyHost normalizedHost platformDomain SUBDOMAIN_NS_PATTERN with
       | Subdomain namespace => subdomainDispatch pathname namespace
       | PatternHost host => patternDispatch pathname search host
       end.
End dispatch.

(** ** Lemmas on projections *)

Lemma kind_of_text_spec s k : kind_of_text s = Some k ↔ s = kind_text k.
Proof.
  unfold kind_of_text. destruct k; simpl.
  - destruct (jeqb s (js "exact")) eqn:E; [apply jeqb_eq in E; by subst|].
    apply jeqb_neq in E. destruct (jeqb s (js "prefix")); split; try done.
  - destruct (jeqb s (js "exact")) eqn:E; [apply jeqb_eq in E; subst; by split|].
    destruct (jeqb s (js "prefix")) eqn:E2; [apply jeqb_eq in E2; by subst|].
    apply jeqb_neq in E2. by split.
Qed.

Lemma requireProjectionComponent_Ok name v s :
  requireProjectionComponent name v = Ok s ↔ v = JStr s ∧ s ≠ [] ∧ tab ∉ s.
Proof.
  destruct v as [| | | |[|c t]| | |]; simpl; try (split; [discriminate | by intros [[=] _]]).
  - split; [discriminate|]. intros ([= <-] & ? & _). done.
  - destruct (includes_unit tab (c :: t)) eqn:E; split.
    + discriminate.
    + intros ([= <-] & _ & Hn). apply includes_unit_spec in E. by destruct Hn.
    + intros H%Ok_inj. subst s. apply includes_unit_false in E. by repeat split.
    + intros ([= <-] & _). done.
Qed.

Lemma encodePatternProjection_Ok ns worker version kind value s :
  encodePatternProjection (JStr ns) (JStr worker) (JStr version) (JStr kind) (JStr value) = Ok s ↔
  Forall (λ w, w ≠ [] ∧ tab ∉ w) [ns; worker; version; kind; value] ∧
  kind_of_text kind ≠ None ∧
  s = join_with tab [PATTERN_PROJECTION_VERSION; ns; worker; version; kind; value].
Proof.
  unfold encodePatternProjection. rewrite !Forall_cons. split.
  - intros H. repeat (apply rbind_Ok_inv in H as (? & ([= <-] & ? & ?)%requireProjectionComponent_Ok & H)).
    destruct (kind_of_text kind); [|done]. apply Ok_inj in H. subst s. by repeat split.
  - intros ((? & ? & ? & ? & ? & _) & Hk & ->).
    rewrite !(λ n w H, proj2 (requireProjectionComponent_Ok n (JStr w) w) (conj eq_refl H)) by done.
    simpl. by destruct (kind_of_text kind).
Qed.

Lemma jlen_zero s : (jlen s =? 0) = false ↔ s ≠ [].
Proof. unfold jlen. rewrite Z.eqb_neq. destruct s; simpl; split; try done; lia. Qed.

(** ** Lemmas on the pattern order *)

Definition kind_rank (k : pattern_kind) : Z := match k with Exact => 0 | Prefix => 1 end.

(** [a] is at least as specific as [b]. *)
Definition pattern_le (a b : pattern_entry) : Prop :=
  jlen (pe_value b) < jlen (pe_value a) ∨
  (jlen (pe_value a) = jlen (pe_value b) ∧ kind_rank (pe_kind a) <= kind_rank (pe_kind b)).

Lemma patternCompare_le a b : patternCompare a b <= 0 ↔ pattern_le a b.
Proof.
  unfold patternCompare, pattern_le.
  destruct (Z.eqb_spec (jlen (pe_value b) - jlen (pe_value a)) 0); simpl; [|lia].
  case_decide as E; [rewrite E; lia|]. destruct (pe_kind a), (pe_kind b); simpl; try done; lia.
Qed.

Lemma pattern_le_total a b : pattern_le a b ∨ pattern_le b a.
Proof. unfold pattern_le. destruct (pe_kind a), (pe_kind b); simpl; lia. Qed.

#[export] Instance pattern_le_preorder : PreOrder pattern_le.
Proof. split; unfold Reflexive, Transitive, pattern_le; intros; lia. Qed.

Lemma insert_stable_perm cmp x l : insert_stable cmp x l ≡ₚ x :: l.
Proof.
  induction l as [|y l IH]; simpl; [done|].
  destruct (cmp y x <=? 0); [|done]. rewrite IH. apply Permutation_swap.
Qed.

Lemma insert_stable_sorted x l :
  StronglySorted pattern_le l → StronglySorted pattern_le (insert_stable patternCompare x l).
Proof.
  induction 1 as [|y l Hs IH Hy]; simpl; [repeat constructor|].
  destruct (Z.leb_spec (patternCompare y x) 0) as [Hc|Hc].
  - constructor; [done|]. rewrite insert_stable_perm. constructor; [by apply patternCompare_le | done].
  - assert (pattern_le x y) as Hxy.
    { destruct (pattern_le_total x y) as [|H']; [done|]. apply patternCompare_le in H'. lia. }
    constructor; [by constructor|]. constructor; [done|].
    eapply Forall_impl; [exact Hy|]. intros z Hz. by transitivity y.
Qed.

Lemma fold_insert_perm cmp l acc :
  fold_left (λ acc x, insert_stable cmp x acc) l acc ≡ₚ l ++ acc.
Proof.
  revert acc; induction l as [|x l IH]; intros acc; simpl; [done|].
  rewrite IH, insert_stable_perm. apply Permutation_sym, Permutation_middle.
Qed.

Lemma fold_insert_sorted l acc :
  StronglySorted pattern_le acc →
  StronglySorted pattern_le (fold_left (λ acc x, insert_stable patternCompare x acc) l acc).
Proof.
  revert acc; induction l as [|x l IH]; intros acc H; simpl; [done|].
  by apply IH, insert_stable_sorted.
Qed.

Lemma to_sorted_perm cmp l : to_sorted cmp l ≡ₚ l.
Proof. unfold to_sorted. rewrite fold_insert_perm. by rewrite app_nil_r. Qed.

Lemma to_sorted_sorted l : StronglySorted pattern_le (to_sorted patternCompare l).
Proof. apply fold_insert_sorted. constructor. Qed.

Lemma collectPatterns_elem valid entries e :
  e ∈ (collectPatterns valid entries).1 ↔
  ∃ slot parsed, (slot, parsed) ∈ entries ∧ patternEntryOf valid slot parsed = Ok e.
Proof.
  induction entries as [|[slot parsed] rest IH]; simpl.
  - split; [by intros ?%elem_of_nil | intros (? & ? & H & _); by apply elem_of_nil in H].
  - setoid_rewrite elem_of_cons.
    destruct (collectPatterns valid rest) as [sorted errors]; simpl in *.
    destruct (patternEntryOf valid slot parsed) as [e'|r] eqn:Ep; simpl.
    + rewrite elem_of_cons, IH. split.
      * intros [->|(s & p & Hin & Hp)]; eauto 6.
      * intros (s & p & [[= -> ->]|Hin] & Hp); [left; congruence | right; eauto].
    + rewrite IH. split.
      * intros (s & p & Hin & Hp); eauto 6.
      * intros (s & p & [[= -> ->]|Hin] & Hp); [congruence | eauto].
Qed.

Lemma collectPatterns_length valid entries :
  (length (collectPatterns valid entries).1 + length (collectPatterns valid entries).2)%nat
  = length entries.
Proof.
  induction entries as [|[slot parsed] rest IH]; simpl; [done|].
  destruct (collectPatterns valid rest); simpl in *.
  destruct (patternEntryOf valid slot parsed); simpl; lia.
Qed.

Lemma matchPatternFrom_spec n sorted pathname search :
  StronglySorted pattern_le sorted →
  let r := matchPatternFrom n sorted pathname search in
  n <= r.2 <= n + Z.of_nat (length sorted) ∧
  match r.1 with
  | Some e => e ∈ sorted ∧ matchPatternEntry e pathname search = true ∧
              ∀ e', e' ∈ sorted → matchPatternEntry e' pathname search = true → pattern_le e e'
  | None => ∀ e', e' ∈ sorted → matchPatternEntry e' pathname search = false
  end.
Proof.
  intros Hs. revert n; induction Hs as [|x l Hs IH Hx]; intros n; simpl.
  - split; [lia|]. intros e' He'. by apply elem_of_nil in He'.
  - destruct (matchPatternEntry x pathname search) eqn:Em; simpl.
    + split; [lia|]. split; [left|]. split; [done|].
      intros e' [->|Hin]%elem_of_cons Hm; [reflexivity|]. rewrite Forall_forall in Hx. auto.
    + destruct (IH (n + 1)) as [Hn H]. split; [lia|].
      destruct (matchPatternFrom (n + 1) l pathname search).1 as [e|].
      * destruct H as (Hin & Hm & Hle). split; [by right|]. split; [done|].
        intros e' [->|Hin']%elem_of_cons Hm'; [congruence | auto].
      * intros e' [->|Hin']%elem_of_cons; auto.
Qed.

Lemma sortPatterns_elem entries valid e :
  e ∈ (sortPatterns entries valid).1 ↔
  ∃ slot parsed, (slot, parsed) ∈ entries ∧ patternEntryOf valid slot parsed = Ok e.
Proof.
  unfold sortPatterns. rewrite <- collectPatterns_elem.
  destruct (collectPatterns valid entries) as [sorted errors]; simpl.
  by rewrite to_sorted_perm.
Qed.

Lemma sortPatterns_sorted entries valid : StronglySorted pattern_le (sortPatterns entries valid).1.
Proof.
  unfold sortPatterns. destruct (collectPatterns valid entries). apply to_sorted_sorted.
Qed.

Lemma patternEntryOf_ns valid slot parsed e :
  patternEntryOf valid slot parsed = Ok e → valid (pe_ns e) = true.
Proof.
  unfold patternEntryOf. intros H. destruct parsed; try done.
  repeat (break_hyp H; try done). by apply Ok_inj in H; subst.
Qed.

(** ** Lemmas on hosts *)

Lemma drop_while_app_all p a b : forallb p a = true → drop_while p (a ++ b) = drop_while p b.
Proof. induction a as [|x a IH]; simpl; [done|]. intros [-> H]%andb_prop. auto. Qed.

Lemma drop_while_idem p s : drop_while p (drop_while p s) = drop_while p s.
Proof.
  induction s as [|x s IH]; simpl; [done|]. destruct (p x) eqn:E; [done|]. simpl. by rewrite E.
Qed.

Lemma trim_end_app p s t : forallb p t = true → trim_end p (s ++ t) = trim_end p s.
Proof.
  intros H. unfold trim_end. rewrite rev_app_distr, drop_while_app_all; [done|].
  apply forallb_Forall. apply Forall_rev. by apply forallb_Forall.
Qed.

Lemma trim_end_idem p s : trim_end p (trim_end p s) = trim_end p s.
Proof. unfold trim_end. by rewrite rev_involutive, drop_while_idem. Qed.

Lemma hostRegex_spec domain pat host ns :
  hostRegex domain pat host = Some ns ↔ host = ns ++ js "." ++ domain ∧ pat ns = true.
Proof.
  unfold hostRegex. split.
  - destruct (bool_decide _) eqn:E1; simpl; [|done].
    destruct (pat _) eqn:E2; [|done]. intros [= <-]. apply bool_decide_eq_true in E1.
    split; [|done]. etransitivity; [symmetry; apply take_drop|]. by f_equal.
  - intros [-> Hp]. rewrite !length_app. simpl length.
    replace (length ns + (1 + length domain) - (1 + length domain))%nat with (length ns) by lia.
    rewrite take_app_length, drop_app_length, bool_decide_true by done. by rewrite Hp.
Qed.

(** ** Properties *)

(** C26. Longest-match routing: matching a request against the sorted table of a host returns
    an entry exactly when some well-formed entry of the table matches, and then a most
    specific one (the longest value; on equal length an exact entry wins over a prefix),
    after at most one comparison per entry. *)
Theorem route_match_most_specific (entries : list (jstr * jsval)) (valid : jstr → bool)
    (pathname search : jstr) :
  let candidates e := ∃ slot parsed, (slot, parsed) ∈ entries ∧
                        patternEntryOf valid slot parsed = Ok e ∧
                        matchPatternEntry e pathname search = true in
  let '(hit, comparisons) := matchPatternWithStats (sortPatterns entries valid).1 pathname search in
  (0 <= comparisons <= Z.of_nat (length entries)) ∧
  match hit with
  | Some e => candidates e ∧ ∀ e', candidates e' → pattern_le e e'
  | None => ∀ e', ¬ candidates e'
  end.
Proof.
  intros candidates.
  pose proof (matchPatternFrom_spec 0 _ pathname search (sortPatterns_sorted entries valid)) as [Hn H].
  unfold matchPatternWithStats. destruct (matchPatternFrom 0 _ pathname search) as [hit n] eqn:Em.
  simpl in *. split.
  - split; [lia|]. transitivity (Z.of_nat (length (sortPatterns entries valid).1)); [lia|].
    pose proof (collectPatterns_length valid entries). unfold sortPatterns.
    destruct (collectPatterns valid entries); simpl in *.
    rewrite (Permutation_length (to_sorted_perm _ _)). lia.
  - assert (∀ e, candidates e ↔ e ∈ (sortPatterns entries valid).1 ∧
              matchPatternEntry e pathname search = true) as Hc.
    { intros e. rewrite sortPatterns_elem. unfold candidates. naive_solver. }
    destruct hit as [e|].
    + destruct H as (Hin & Hm & Hle). split; [by apply Hc|]. intros e' [? ?]%Hc. auto.
    + intros e' [Hin Hm]%Hc. rewrite H in Hm; done.
Qed.

(** The decoder is the exact inverse of the encoder. *)
Lemma projection_codec (s : jstr) (p : projection) :
  decodePatternProjection (JStr s) = Some p ↔
  encodePatternProjection (JStr (pp_ns p)) (JStr (pp_worker p)) (JStr (pp_version p))
    (JStr (kind_text (pp_kind p))) (JStr (pp_value p)) = Ok s.
Proof.
  destruct p as [ns worker version kind value]. cbn [pp_ns pp_worker pp_version pp_kind pp_value].
  rewrite encodePatternProjection_Ok, !Forall_cons. unfold decodePatternProjection. split.
  - intros H. pose proof (join_split tab s) as J. pose proof (split_on_pieces tab s) as P.
    destruct (split_on tab s) as [|v [|a [|b [|c [|d [|e [|]]]]]]]; try done.
    destruct (jeqb v PATTERN_PROJECTION_VERSION) eqn:Ev; [|done]. apply jeqb_eq in Ev. subst v.
    destruct (_ || _) eqn:El; [done|]. rewrite !orb_false_iff, !jlen_zero in El.
    destruct (kind_of_text d) as [k|] eqn:Ek; [|done].
    pose proof (proj1 (kind_of_text_spec _ _) Ek) as Hd.
    injection H as -> -> -> -> ->. subst d. rewrite !Forall_cons in P.
    repeat split; try tauto; try done; [by destruct kind | congruence].
  - intros ((? & ? & ? & ? & ? & _) & Hk & ->).
    rewrite split_join; [|done|].
    + rewrite jeqb_refl, !(proj2 (jlen_zero _)) by tauto. simpl.
      by rewrite (proj2 (kind_of_text_spec _ kind) eq_refl).
    + rewrite !Forall_cons, Forall_nil. repeat split; try tauto. by apply includes_unit_false.
Qed.

(** A pattern projection written for a route decodes to the same route, and the decoder
    accepts nothing else: a text decodes to a projection exactly when it is the encoding
    of it. *)
Lemma projection_roundtrip (s : jstr) (p : projection) :
  decodePatternProjection (JStr s) = Some p ↔
  encodePatternProjection (JStr (pp_ns p)) (JStr (pp_worker p)) (JStr (pp_version p))
    (JStr (kind_text (pp_kind p))) (JStr (pp_value p)) = Ok s.
Proof. apply projection_codec. Qed.

(** Host classification: a host, whatever dots end it, is routed to the subdomain branch
    exactly when it is [<ns>.<platform domain>] with [ns] of the namespace grammar, and the
    namespace is the part before; every other host goes to the pattern branch under its
    normalized name. *)
Lemma classifyHost_exact (host dots domain : jstr) (pat : jstr → bool)
    (Hdots : forallb is_dot dots = true) :
  classifyHost (host ++ dots) domain pat = classifyHost host domain pat ∧
  ∀ ns, classifyHost host domain pat = Subdomain ns ↔
        normalizeRequestHost host = ns ++ js "." ++ domain ∧ pat ns = true.
Proof.
  unfold classifyHost, normalizeRequestHost. rewrite trim_end_app by done. split; [done|].
  intros ns. rewrite <- hostRegex_spec. destruct (hostRegex _ _ _); split; congruence.
Qed.

Lemma header_delete_elem name h kv : kv ∈ header_delete name h ↔ kv ∈ h ∧ to_lower name ≠ kv.1.
Proof. unfold header_delete. rewrite list_elem_of_filter. tauto. Qed.

Lemma fold_header_delete names h kv :
  kv ∈ fold_left (λ acc name, header_delete name acc) names h ↔
  kv ∈ h ∧ Forall (λ name, to_lower name ≠ kv.1) names.
Proof.
  revert h; induction names as [|n names IH]; intros h; simpl.
  - rewrite Forall_nil. tauto.
  - rewrite IH, header_delete_elem, Forall_cons. tauto.
Qed.

(** C27. The gateway strips every header it uses internally ([x-worker-id],
    [x-worker-prefix] and the whole [x-wdl-] family) from a public request and keeps every
    other header unchanged. *)
Theorem internal_headers_stripped (h : headers) (name value : jstr)
    (Hlower : Forall (λ kv, to_lower kv.1 = kv.1) h) :
  (name, value) ∈ deleteGatewayInternalHeaders h ↔
  (name, value) ∈ h ∧ name ∉ INTERNAL_FORWARD_HEADERS ∧
  starts_with INTERNAL_HEADER_PREFIX name = false.
Proof.
  unfold deleteGatewayInternalHeaders.
  assert (∀ kv, kv ∈ fold_left (λ acc name, header_delete name acc) INTERNAL_FORWARD_HEADERS h ↔
                kv ∈ h ∧ kv.1 ∉ INTERNAL_FORWARD_HEADERS) as Hfwd.
  { intros kv. rewrite fold_header_delete. unfold INTERNAL_FORWARD_HEADERS.
    rewrite !Forall_cons, Forall_nil, !not_elem_of_cons.
    change (to_lower (js "x-worker-id")) with (js "x-worker-id").
    change (to_lower (js "x-worker-prefix")) with (js "x-worker-prefix"). set_solver. }
  revert Hfwd. generalize (fold_left (λ acc name, header_delete name acc) INTERNAL_FORWARD_HEADERS h).
  intros h1 Hfwd. cbv zeta. rewrite fold_header_delete, Hfwd. cbn [fst].
  rewrite Forall_forall in Hlower. rewrite Forall_forall. split.
  - intros [[Hin Hn] HF]. repeat split; try done.
    destruct (starts_with _ name) eqn:E; [|done]. exfalso.
    apply (HF name); [|by apply (Hlower (name, value))].
    apply list_elem_of_In, filter_In. split; [|done].
    apply in_map_iff. exists (name, value). split; [done|]. apply list_elem_of_In. by apply Hfwd.
  - intros (Hin & Hn & Hp). split; [done|].
    intros n Hn'. apply list_elem_of_In, filter_In in Hn' as [Hn' Hpn].
    apply in_map_iff in Hn' as ([n' v'] & <- & Hn'). cbn [fst] in *.
    apply list_elem_of_In, Hfwd in Hn' as [Hn' _].
    pose proof (Hlower _ Hn') as Hl. cbn [fst] in Hl. congruence.
Qed.

Lemma internal_headers_stripped_witness :
  (js "accept", js "*/*") ∈
    deleteGatewayInternalHeaders [(js "x-wdl-token", js "t"); (js "accept", js "*/*");
                                  (js "x-worker-id", js "a:b:v1")].
Proof.
  apply (internal_headers_stripped
           [(js "x-wdl-token", js "t"); (js "accept", js "*/*"); (js "x-worker-id", js "a:b:v1")]).
  - repeat constructor.
  - repeat split; try (vm_compute; reflexivity).
    + right. left.
    + refine (bool_decide_unpack (js "accept" ∉ INTERNAL_FORWARD_HEADERS) _).
      vm_compute. exact I.
Defined.

Lemma matchPatternFrom_elem n sorted path search e :
  (matchPatternFrom n sorted path search).1 = Some e →
  e ∈ sorted ∧ matchPatternEntry e path search = true.
Proof.
  revert n; induction sorted as [|x l IH]; intros n; simpl; [done|].
  destruct (matchPatternEntry x path search) eqn:Em; simpl.
  - intros [= <-]. split; [left | done].
  - intros [? ?]%IH. split; [by right | done].
Qed.

(** What the subdomain branch promises of a forward. *)
Definition subdomain_forward {E} (rns : jstr → result E ns_resolution)
    (path fwd prefix ns worker version : jstr) : Prop :=
  (ns ∉ RESERVED_NS ++ RESERVED_TENANT_NS) ∧
  (∃ table, rns ns = Ok (Some table) ∧ jm_get worker table = Some version) ∧
  subdomainPathParts path = Some (PathParts worker prefix fwd).

(** What the pattern branch promises of a forward. *)
Definition pattern_forward {E} (rhost : jstr → result E host_resolution)
    (path search host fwd ns worker version : jstr) : Prop :=
  fwd = path ∧ ∃ table e, rhost host = Ok (Some table) ∧ e ∈ table ∧
    matchPatternEntry e path search = true ∧
    pe_ns e = ns ∧ pe_worker e = worker ∧ pe_version e = version.

Definition forward_ok (b : binding) (ns worker version : jstr) : Prop :=
  WORKER_NAME_RE worker = true ∧ parseVersion (JStr version) ≠ None ∧
  (b = RUNTIME_SYSTEM ∧ ns = js "__system__" ∨ b = RUNTIME_USER ∧ ns ≠ js "__system__").

Lemma bindingFor_ok ns worker version n :
  WORKER_NAME_RE worker = true → parseVersion (JStr version) = Some n →
  forward_ok (bindingFor ns) ns worker version.
Proof.
  intros Hw Hv. unfold forward_ok, bindingFor. rewrite Hv. repeat split; try done.
  destruct (jeqb ns (js "__system__")) eqn:E; [left | right]; split; try done;
    by apply jeqb_eq || apply jeqb_neq.
Qed.

Lemma subdomainDispatch_forward {E} (rns : jstr → result E ns_resolution)
    path ns route b fwd prefix ns' worker version :
  subdomainDispatch rns path ns = Ok (ForwardRuntime route b fwd prefix ns' worker version) →
  ns' = ns ∧ forward_ok b ns worker version ∧ subdomain_forward rns path fwd prefix ns worker version.
Proof.
  unfold subdomainDispatch. intros H.
  destruct (_ || _) eqn:Er; [done|]. apply rbind_Ok_inv in H as ([table|] & Ht & H); [|done].
  destruct (subdomainPathParts path) as [[w p f]|] eqn:Ep; [|done].
  destruct (WORKER_NAME_RE w) eqn:Ew; [|done]. simpl in H.
  destruct (jm_get w table) as [[|c v]|] eqn:Eg; try done.
  destruct (parseVersion (JStr (c :: v))) as [n|] eqn:Ev; [|done].
  apply Ok_inj in H. injection H as <- <- <- <- <- <- <-. split; [done|].
  split; [by eapply bindingFor_ok|]. split; [|eauto].
  apply orb_false_elim in Er as [E1 E2]. simpl in E1.
  rewrite elem_of_app, <- !set_has_spec. rewrite E1, E2. by intros [|].
Qed.

Lemma patternDispatch_forward {E} (rhost : jstr → result E host_resolution)
    path search host route b fwd prefix ns worker version :
  patternDispatch rhost path search host = Ok (ForwardRuntime route b fwd prefix ns worker version) →
  forward_ok b ns worker version ∧ pattern_forward rhost path search host fwd ns worker version.
Proof.
  unfold patternDispatch, matchPatternWithStats. intros H.
  apply rbind_Ok_inv in H as ([table|] & Ht & H); [|done].
  destruct (matchPatternFrom 0 table path search).1 as [e|] eqn:Em; [|done].
  apply matchPatternFrom_elem in Em as [Hin Hm].
  destruct (WORKER_NAME_RE (pe_worker e)) eqn:Ew; [|done]. simpl in H.
  destruct (parseVersion (JStr (pe_version e))) as [n|] eqn:Ev; [|done].
  apply Ok_inj in H. injection H as <- <- <- <- <- <- <-. split; [by eapply bindingFor_ok|].
  split; [done|]. exists table, e. by repeat split.
Qed.

(** C25. Dispatch safety: whatever the routing tables hold, a request is forwarded to a
    runtime only for a worker name and version of the grammar, to the system runtime only
    for [__system__]; on a subdomain the namespace is the host's, is none of the reserved
    ones and maps the worker to that version; on a pattern host the target is a table entry
    that matches the request; and the control worker is reached only on the exact,
    non-empty admin host. *)
Theorem dispatch_safe {E} (rns : jstr → result E ns_resolution)
    (rhost : jstr → result E host_resolution) (path search host admin domain : jstr) (d : dispatch)
    (H : resolveGatewayDispatch rns rhost path search host admin domain = Ok d) :
  match d with
  | NotFound _ _ _ _ => host ≠ admin ∨ admin = []
  | ForwardControl fwd _ => host = admin ∧ admin ≠ [] ∧ fwd = path
  | ForwardRuntime _ b fwd prefix ns worker version =>
      forward_ok b ns worker version ∧
      match classifyHost host domain SUBDOMAIN_NS_PATTERN with
      | Subdomain ns' => ns = ns' ∧ subdomain_forward rns path fwd prefix ns worker version
      | PatternHost h => pattern_forward rhost path search h fwd ns worker version
      end
  end.
Proof.
  unfold resolveGatewayDispatch in H.
  destruct (negb (jeqb admin []) && jeqb host admin) eqn:Ea.
  - apply Ok_inj in H. subst d. to_prop.
    match goal with H : jeqb host admin = true |- _ => apply jeqb_eq in H; subst end.
    by rewrite jeqb_neq in *.
  - destruct d as [ | |route b fwd prefix ns worker version].
    + apply andb_false_iff in Ea as [Ea|Ea].
      * right. apply negb_false_iff in Ea. by apply jeqb_eq.
      * left. by apply jeqb_neq.
    + exfalso. destruct (classifyHost _ _ _); unfold subdomainDispatch, patternDispatch, rbind in H;
        repeat (break_hyp H; try done).
    + destruct (classifyHost _ _ _) as [ns'|h].
      * apply subdomainDispatch_forward in H as (-> & ? & ?). auto.
      * apply patternDispatch_forward in H as (? & ?). auto.
Qed.

Definition witness_routes (_ : jstr) : result unit ns_resolution := Ok (Some [(js "api", js "v3")]).
Definition witness_hosts (_ : jstr) : result unit host_resolution := Ok None.
Definition witness_dispatch : dispatch :=
  ForwardRuntime (js "worker_fetch_subdomain") RUNTIME_USER (js "/x") (js "/api")
    (js "acme") (js "api") (js "v3").

Lemma dispatch_safe_witness :
  forward_ok RUNTIME_USER (js "acme") (js "api") (js "v3").
Proof.
  assert (resolveGatewayDispatch witness_routes witness_hosts (js "/api/x") []
            (js "acme.workers.local") (js "admin.example") (js "workers.local")
          = Ok witness_dispatch) as R by (vm_compute; reflexivity).
  exact (proj1 (dispatch_safe _ _ _ _ _ _ _ _ R)).
Defined.
