(* ===== verification/GatewayRuntime.v ===== *)
(** * Gateway routing caches (src/gateway/runtime.js)

    The gateway keeps two caches with the same discipline: namespace routes and host
    patterns. A [side] is the module state of one of them. A lookup runs synchronously up to
    its next Redis read ([resolve]) and goes on when the reply arrives ([resume]); between
    the two, other lookups, invalidation messages and subscriber (dis)connects run. In-flight
    read states are mutable objects shared between lookups: they live in a heap and are
    reached through the [reads] map, as in the source. *)

From stdpp Require Import base list strings gmap sets.
From Stdlib Require Import ZArith Lia.
From S2P Require Import Prelude NsPattern WorkerContract JsMap Gateway.

#[local] Open Scope Z_scope.

Definition MAX_ROUTE_CACHE_ENTRIES : nat := 10000.
Definition MAX_PATTERN_CACHE_ENTRIES : nat := 10000.
Definition MAX_ROUTING_SNAPSHOT_ATTEMPTS : nat := 5.

(** [InFlightReadState] *)
Record read_state := ReadState { rs_epoch : Z; rs_readers : Z }.

Section side.
Context {V : Type}.

Record side := Side {
  known : option (list jstr);
  cache : jmap jstr V;
  resetEpoch : Z;
  membershipEpoch : Z;
  reads : jmap jstr nat;
  heap : gmap nat read_state;
  next_id : nat }.

Definition initial_side : side := Side None [] 0 0 [] ∅ 0.

(** [clearRouteState] and [clearPatternState] *)
Definition clearState (s : side) : side :=
  Side None [] (resetEpoch s + 1) (membershipEpoch s + 1) (reads s) (heap s) (next_id s).

Definition read_obj (s : side) (id : nat) : read_state := default (ReadState 0 0) (heap s !! id).

Definition with_heap (s : side) (rd : jmap jstr nat) (h : gmap nat read_state) : side :=
  Side (known s) (cache s) (resetEpoch s) (membershipEpoch s) rd h (next_id s).

(** Returns the state, the read's object and the epoch captured from it. *)
Definition beginKeyRead (s : side) (key : jstr) : side * nat * Z :=
  match jm_get key (reads s) with
  | Some id =>
      let st := read_obj s id in
      (with_heap s (reads s) (<[id := ReadState (rs_epoch st) (rs_readers st + 1)]> (heap s)),
       id, rs_epoch st)
  | None =>
      let id := next_id s in
      (Side (known s) (cache s) (resetEpoch s) (membershipEpoch s)
         (jm_set key id (reads s)) (<[id := ReadState 0 1]> (heap s)) (S id),
       id, 0)
  end.

Definition endKeyRead (s : side) (key : jstr) (id : nat) : side :=
  let st := read_obj s id in
  let st' := ReadState (rs_epoch st) (rs_readers st - 1) in
  with_heap s (if rs_readers st' =? 0 then jm_delete key (reads s) else reads s)
    (<[id := st']> (heap s)).

Definition invalidateKeyRead (s : side) (key : jstr) : side :=
  match jm_get key (reads s) with
  | Some id =>
      let st := read_obj s id in
      with_heap s (reads s) (<[id := ReadState (rs_epoch st + 1) (rs_readers st)]> (heap s))
  | None => s
  end.

Definition with_cache (s : side) (k : option (list jstr)) (c : jmap jstr V) : side :=
  Side k c (resetEpoch s) (membershipEpoch s) (reads s) (heap s) (next_id s).

Definition getCachedEntry (s : side) (key : jstr) : side * option V :=
  match jm_get key (cache s) with
  | None => (s, None)
  | Some value => (with_cache s (known s) (jm_touch key value (cache s)), Some value)
  end.

Definition setBoundedCacheEntry (c : jmap jstr V) (key : jstr) (value : V) (maxEntries : nat)
  : jmap jstr V :=
  let c1 := if jm_has key c then jm_delete key c else c in
  let c2 := jm_set key value c1 in
  if (maxEntries <? jm_size c2)%nat then
    match jm_first_key c2 with Some k => jm_delete k c2 | None => c2 end
  else c2.

(** Where a lookup stands at an [await]: attempts left, and what it captured. *)
Inductive wait :=
| WaitFull (attempts : nat) (key : jstr) (resetE membershipE : Z)
| WaitKey (attempts : nat) (key : jstr) (resetE : Z) (id : nat) (epoch : Z).

Inductive outcome :=
| Waiting (w : wait)
| Known (value : V) (cacheHit : bool)
| Unknown
| RoutingUnavailable
| RedisFailed.

(** One iteration of the attempt loop, up to its [await]. *)
Definition resolve (attempts : nat) (key : jstr) (s : side) : side * outcome :=
  match attempts with
  | O => (s, RoutingUnavailable)
  | S rest =>
      match known s with
      | None => (s, Waiting (WaitFull rest key (resetEpoch s) (membershipEpoch s)))
      | Some names =>
          if negb (set_has names key) then (s, Unknown)
          else match getCachedEntry s key with
               | (s1, Some value) => (s1, Known value true)
               | (s1, None) =>
                   let '(s2, id, epoch) := beginKeyRead s1 key in
                   (s2, Waiting (WaitKey rest key (resetEpoch s2) id epoch))
               end
      end
  end.

(** What follows the [await]: [names] is the membership set read with a full snapshot,
    [value] the table built from the reply. *)
Definition resume (max : nat) (w : wait) (names : list jstr) (value : V) (s : side)
  : side * outcome :=
  match w with
  | WaitFull rest key resetE membershipE =>
      if negb (resetE =? resetEpoch s) || negb (membershipE =? membershipEpoch s)
      then resolve rest key s
      else if negb (set_has names key) then (with_cache s (Some names) (cache s), Unknown)
      else (with_cache s (Some names) (setBoundedCacheEntry (cache s) key value max),
            Known value false)
  | WaitKey rest key resetE id epoch =>
      if negb (resetE =? resetEpoch s) || negb (epoch =? rs_epoch (read_obj s id))
      then resolve rest key (endKeyRead s key id)
      else (endKeyRead (with_cache s (known s) (setBoundedCacheEntry (cache s) key value max)) key id,
            Known value false)
  end.

(** The read rejected: [finally] still ends a key read, then the error propagates. *)
Definition resume_error (w : wait) (s : side) : side * outcome :=
  match w with
  | WaitFull _ _ _ _ => (s, RedisFailed)
  | WaitKey _ key _ id _ => (endKeyRead s key id, RedisFailed)
  end.
End side.

Arguments side : clear implicits.
Arguments outcome : clear implicits.

(** ** Building and invalidating the tables *)

Definition cacheNsRoutes (entries : list (jstr * jsval)) (disabled : list jstr) : jmap jstr jstr :=
  fold_left (λ m kv,
    match kv.2 with
    | JStr v => if negb (set_has disabled kv.1) then jm_set kv.1 v m else m
    | _ => m
    end) entries [].

(** The projection object [decodePatternProjection] answers, as a value. *)
Definition projection_value (p : option projection) : jsval :=
  match p with
  | None => JNull
  | Some p =>
      JObj [(js "ns", JStr (pp_ns p)); (js "worker", JStr (pp_worker p));
            (js "version", JStr (pp_version p)); (js "kind", JStr (kind_text (pp_kind p)));
            (js "value", JStr (pp_value p))]
  end.

Definition cacheHostPatterns (entries : list (jstr * jsval))
  : list pattern_entry * list (jstr * pattern_reason) :=
  let decoded := flat_map (λ kv, match kv.2 with
                                 | JStr v => [(kv.1, projection_value (decodePatternProjection (JStr v)))]
                                 | _ => [] end) entries in
  sortPatterns decoded (λ ns, isValidRouteNs (JStr ns)).

(** One key is invalidated: its in-flight reads and its cache entry are discarded, and
    every full snapshot in flight with them. *)
Definition invalidateKey {V} (key : jstr) (upd : option (list jstr) → option (list jstr)) (s : side V)
  : side V :=
  let s1 := invalidateKeyRead
              (Side (known s) (cache s) (resetEpoch s) (membershipEpoch s + 1)
                 (reads s) (heap s) (next_id s)) key in
  with_cache s1 (upd (known s1)) (jm_delete key (cache s1)).

(** The route channel: one namespace is invalidated, and becomes known. *)
Definition onRoutesMessage {V} (value : jstr) (s : side V) : side V :=
  if negb (isValidRouteNs (JStr value)) then s
  else invalidateKey value
         (option_map (λ names, if set_has names value then names else names ++ [value])) s.

(** The pattern channel: [*] clears everything, a host key invalidates one host and the
    set of declared hosts. *)
Definition onPatternsMessage {V} (value : jstr) (s : side V) : side V :=
  if jeqb value (js "*") then clearState s
  else if isPatternInvalidationKey (JStr value) then invalidateKey value (λ _, None) s
  else s.

(** What the coherence proof needs of a channel's message handler. *)
Class Channel (onMessage : ∀ V, jstr → side V → side V) := {
  clears : jstr → bool;
  accepts : jstr → bool;
  channel_clears : ∀ V v (s : side V), clears v = true → onMessage V v s = clearState s;
  channel_accepts : ∀ V v (s : side V), clears v = false → accepts v = true →
    ∃ upd, onMessage V v s = invalidateKey v upd s;
  channel_ignores : ∀ V v (s : side V), clears v = false → accepts v = false → onMessage V v s = s }.

#[export] Program Instance routes_channel : Channel (@onRoutesMessage) := {|
  clears := λ _, false;
  accepts := λ v, isValidRouteNs (JStr v) |}.
Next Obligation. done. Qed.
Next Obligation. intros V v s _ H. unfold onRoutesMessage. rewrite H. simpl. eauto. Qed.
Next Obligation. intros V v s _ H. unfold onRoutesMessage. by rewrite H. Qed.

#[export] Program Instance patterns_channel : Channel (@onPatternsMessage) := {|
  clears := λ v, jeqb v (js "*");
  accepts := λ v, isPatternInvalidationKey (JStr v) |}.
Next Obligation. intros V v s H. unfold onPatternsMessage. by rewrite H. Qed.
Next Obligation. intros V v s H1 H2. unfold onPatternsMessage. rewrite H1, H2. eauto. Qed.
Next Obligation. intros V v s H1 H2. unfold onPatternsMessage. by rewrite H1, H2. Qed.

(** ** The cache as a concurrent system

    Values carry the time their Redis read was issued; [m_inval] and [m_reset] record when
    the gateway last processed an invalidation of a key and a full reset. *)

Record machine (A : Type) := Machine {
  m_side : side (nat * A);
  m_clock : nat;
  m_pend : list (wait * nat);
  m_inval : gmap jstr nat;
  m_reset : nat }.
Arguments Machine {A}.
Arguments m_side {A}.
Arguments m_clock {A}.
Arguments m_pend {A}.
Arguments m_inval {A}.
Arguments m_reset {A}.

Definition initial_machine {A} : machine A := Machine initial_side 1 [] ∅ 0.

(** The last time [key] was invalidated, alone or with everything else. *)
Definition inval_time (inval : gmap jstr nat) (reset : nat) (key : jstr) : nat :=
  (default 0 (inval !! key) `max` reset)%nat.

Definition new_wait {V} (o : outcome V) (t : nat) : list (wait * nat) :=
  match o with Waiting w => [(w, t)] | _ => [] end.

Definition wait_key (w : wait) : jstr :=
  match w with WaitFull _ key _ _ => key | WaitKey _ key _ _ _ => key end.

Inductive step {A} (onMessage : ∀ V, jstr → side V → side V) `{!Channel onMessage} (max : nat)
  : machine A → option (jstr * outcome (nat * A)) → machine A → Prop :=
| step_request m key s o :
    resolve MAX_ROUTING_SNAPSHOT_ATTEMPTS key (m_side m) = (s, o) →
    step onMessage max m (Some (key, o))
      (Machine s (S (m_clock m)) (m_pend m ++ new_wait o (m_clock m)) (m_inval m) (m_reset m))
| step_reply m l1 w t l2 names a s o :
    m_pend m = l1 ++ (w, t) :: l2 →
    resume max w names (t, a) (m_side m) = (s, o) →
    step onMessage max m (Some (wait_key w, o))
      (Machine s (S (m_clock m)) (l1 ++ l2 ++ new_wait o (m_clock m)) (m_inval m) (m_reset m))
| step_error m l1 w t l2 s o :
    m_pend m = l1 ++ (w, t) :: l2 →
    resume_error w (m_side m) = (s, o) →
    step onMessage max m (Some (wait_key w, o))
      (Machine s (S (m_clock m)) (l1 ++ l2) (m_inval m) (m_reset m))
| step_message m v :
    step onMessage max m None
      (Machine (onMessage _ v (m_side m)) (S (m_clock m)) (m_pend m)
         (if negb (clears v) && accepts v then <[v := m_clock m]> (m_inval m) else m_inval m)
         (if clears v then m_clock m else m_reset m))
| step_clear m :
    step onMessage max m None
      (Machine (clearState (m_side m)) (S (m_clock m)) (m_pend m) (m_inval m) (m_clock m)).

Inductive reachable {A} (onMessage : ∀ V, jstr → side V → side V) `{!Channel onMessage} (max : nat)
  : machine A → Prop :=
| reach_init : reachable onMessage max initial_machine
| reach_step m l m' : reachable onMessage max m → step onMessage max m l m' → reachable onMessage max m'.

(** ** The invariant *)

(** How many waiting lookups share read object [id]. *)
Definition holds_read (id : nat) (w : wait) : bool :=
  match w with WaitKey _ _ _ id' _ => (id' =? id)%nat | _ => false end.
Definition readers_of (id : nat) (pend : list (wait * nat)) : nat :=
  length (List.filter (λ p, holds_read id p.1) pend).

Record wait_ok {V} (s : side V) (inval : gmap jstr nat) (reset : nat) (w : wait) (t : nat) : Prop := {
  wok_reset : match w with WaitFull _ _ r _ | WaitKey _ _ r _ _ => r end <= resetEpoch s;
  wok_reset_eq : match w with WaitFull _ _ r _ | WaitKey _ _ r _ _ => r end = resetEpoch s →
                 (reset < t)%nat;
  wok_kind : match w with
             | WaitFull _ _ _ m =>
                 m <= membershipEpoch s ∧
                 (m = membershipEpoch s → ∀ k, (inval_time inval reset k < t)%nat)
             | WaitKey _ key _ id ep =>
                 jm_get key (reads s) = Some id ∧ ep <= rs_epoch (read_obj s id) ∧
                 (ep = rs_epoch (read_obj s id) → (default 0 (inval !! key) < t)%nat)
             end;
  wok_attempts : (match w with WaitFull n _ _ _ | WaitKey n _ _ _ _ => n end
                  < MAX_ROUTING_SNAPSHOT_ATTEMPTS)%nat }.

Record side_ok {A} (max : nat) (s : side (nat * A)) (pend : list (wait * nat))
    (inval : gmap jstr nat) (reset : nat) (clock : nat) : Prop := {
  ok_cache_wf : jm_wf (cache s);
  ok_cache_size : (jm_size (cache s) <= max)%nat;
  ok_cache_fresh : ∀ k t a, jm_get k (cache s) = Some (t, a) → (inval_time inval reset k < t)%nat;
  ok_reads_wf : jm_wf (reads s);
  ok_reads_obj : ∀ k id, jm_get k (reads s) = Some id →
                 (id < next_id s)%nat ∧ (0 < readers_of id pend)%nat ∧
                 rs_readers (read_obj s id) = Z.of_nat (readers_of id pend);
  ok_reads_inj : ∀ k k' id, jm_get k (reads s) = Some id → jm_get k' (reads s) = Some id → k = k';
  ok_pend : Forall (λ p, wait_ok s inval reset p.1 p.2) pend;
  ok_clock : (∀ k, (inval_time inval reset k < clock)%nat) ∧ Forall (λ p, (p.2 < clock)%nat) pend }.

(** ** Lemmas *)

Lemma readers_of_cons id w t pend :
  readers_of id ((w, t) :: pend) = ((if holds_read id w then 1 else 0) + readers_of id pend)%nat.
Proof. unfold readers_of. simpl. by destruct (holds_read id w). Qed.

Lemma readers_of_perm id p p' : p ≡ₚ p' → readers_of id p = readers_of id p'.
Proof.
  unfold readers_of. induction 1 as [|x l l' _ IH|x y l|l l' l'' _ IH1 _ IH2]; simpl; auto.
  - destruct (holds_read id x.1); simpl; auto.
  - by destruct (holds_read id x.1), (holds_read id y.1).
  - congruence.
Qed.

Lemma readers_of_elem id p w t : (w, t) ∈ p → holds_read id w = true → (0 < readers_of id p)%nat.
Proof.
  intros (l1 & l2 & ->)%list_elem_of_split H.
  rewrite (readers_of_perm _ _ ((w, t) :: l1 ++ l2)) by (symmetry; apply Permutation_middle).
  rewrite readers_of_cons, H. lia.
Qed.

Lemma side_ok_perm {A} max (s : side (nat * A)) p p' i r c :
  p ≡ₚ p' → side_ok max s p i r c → side_ok max s p' i r c.
Proof.
  intros Hp []. split; auto.
  - intros k id Hk. rewrite <- (readers_of_perm id _ _ Hp). by eapply ok_reads_obj0.
  - by rewrite <- Hp.
  - by rewrite <- Hp.
Qed.

Lemma side_ok_tick {A} max (s : side (nat * A)) p i r c : side_ok max s p i r c → side_ok max s p i r (S c).
Proof.
  intros []. split; auto. destruct ok_clock0 as [H1 H2]. split; [intros k; specialize (H1 k); lia|].
  eapply Forall_impl; [exact H2|]. simpl. lia.
Qed.

Lemma side_ok_drop_full {A} max (s : side (nat * A)) n k r0 m t p i r c :
  side_ok max s ((WaitFull n k r0 m, t) :: p) i r c → side_ok max s p i r c.
Proof.
  intros []. rewrite Forall_cons in ok_pend0. destruct ok_clock0 as [H1 H2]. rewrite Forall_cons in H2.
  split; auto; tauto.
Qed.

Lemma read_obj_insert {V} (s : side V) rd id st id' :
  read_obj (with_heap s rd (<[id := st]> (heap s))) id' = if decide (id = id') then st else read_obj s id'.
Proof. unfold read_obj. simpl. rewrite lookup_insert. by case_decide. Qed.

Lemma side_ok_end {A} max (s : side (nat * A)) n key r0 id ep t p i r c :
  side_ok max s ((WaitKey n key r0 id ep, t) :: p) i r c → side_ok max (endKeyRead s key id) p i r c.
Proof.
  intros []. apply Forall_cons in ok_pend0 as [Hw Hp]. destruct ok_clock0 as [Hc1 Hc2].
  apply Forall_cons in Hc2 as [_ Hc2].
  destruct Hw as [_ _ (Hkey & _ & _) _]. simpl in Hkey.
  destruct (ok_reads_obj0 key id Hkey) as (Hlt & _ & Hcnt).
  rewrite readers_of_cons in Hcnt. simpl in Hcnt. rewrite Nat.eqb_refl in Hcnt.
  assert (∀ k id', jm_get k (reads (endKeyRead s key id)) = Some id' →
            jm_get k (reads s) = Some id' ∧ (0 < readers_of id' p)%nat) as Hreads.
  { intros k id'. unfold endKeyRead. simpl. destruct (Z.eqb_spec (rs_readers (read_obj s id) - 1) 0).
    - rewrite jm_get_delete. case_decide; [done|]. intros Hk. split; [done|].
      destruct (ok_reads_obj0 k id' Hk) as (_ & Hpos & _).
      rewrite readers_of_cons in Hpos. simpl in Hpos.
      destruct (Nat.eqb_spec id id'); [|lia]. subst id'. exfalso. eauto.
    - intros Hk. split; [done|]. destruct (ok_reads_obj0 k id' Hk) as (_ & Hpos & _).
      rewrite readers_of_cons in Hpos. simpl in Hpos.
      destruct (Nat.eqb_spec id id'); [subst; lia | lia]. }
  assert (∀ id', rs_epoch (read_obj (endKeyRead s key id) id') = rs_epoch (read_obj s id')) as Hep.
  { intros id'. unfold endKeyRead. rewrite read_obj_insert. by case_decide; subst. }
  split; auto.
  - unfold endKeyRead. simpl. case_match; auto with wdl.
  - intros k id' Hk. destruct (Hreads k id' Hk) as [Hk' Hpos].
    destruct (ok_reads_obj0 k id' Hk') as (Hl' & _ & Hc'). split; [done|]. split; [done|].
    unfold endKeyRead. rewrite read_obj_insert. rewrite readers_of_cons in Hc'. simpl in Hc'.
    case_decide; subst; simpl.
    + lia.
    + destruct (Nat.eqb_spec id id'); [done|]. lia.
  - intros k k' id' H1 H2. apply Hreads in H1 as [H1 _], H2 as [H2 _]. eauto.
  - apply Forall_forall. intros [w t'] Hin. rewrite Forall_forall in Hp.
    destruct (Hp _ Hin) as [W1 W2 W3 W4]. simpl in *. split; auto.
    destruct w as [|n' key' r' id' ep']; [done|]. destruct W3 as (Hk' & Hle & Hfr).
    rewrite Hep. split; [|done]. unfold endKeyRead. simpl.
    destruct (Z.eqb_spec (rs_readers (read_obj s id) - 1) 0) as [Hz|]; [|done].
    rewrite jm_get_delete. case_decide; [|done]. subst key'. exfalso.
    assert (id' = id) as -> by congruence.
    pose proof (readers_of_elem id p _ _ Hin) as Hpos. simpl in Hpos. rewrite Nat.eqb_refl in Hpos.
    specialize (Hpos eq_refl). lia.
Qed.

Lemma setBounded_get {V} (c : jmap jstr V) key v max k v' :
  jm_wf c → jm_get k (setBoundedCacheEntry c key v max) = Some v' →
  (k = key ∧ v' = v) ∨ jm_get k c = Some v'.
Proof.
  intros Hwf. unfold setBoundedCacheEntry.
  set (c1 := if jm_has key c then jm_delete key c else c).
  assert (∀ x, jm_get x c1 = Some v' → jm_get x c = Some v') as Hc1.
  { intros x. unfold c1. destruct (jm_has key c); [|done]. rewrite jm_get_delete. by case_decide. }
  assert (∀ x, jm_get x (jm_set key v c1) = Some v' → x = key ∧ v' = v ∨ jm_get x c = Some v') as Hc2.
  { intros x. rewrite jm_get_set. case_decide; [intros [= <-]; auto | eauto]. }
  case_match; [|by apply Hc2]. case_match; [|by apply Hc2].
  rewrite jm_get_delete. case_decide; [done | by apply Hc2].
Qed.

Lemma setBounded_wf {V} (c : jmap jstr V) key v max :
  jm_wf c → jm_wf (setBoundedCacheEntry c key v max).
Proof.
  intros Hwf. unfold setBoundedCacheEntry. repeat case_match; auto with wdl.
Qed.

Lemma setBounded_size {V} (c : jmap jstr V) key v max :
  jm_wf c → (jm_size c <= max)%nat → (jm_size (setBoundedCacheEntry c key v max) <= max)%nat.
Proof.
  intros Hwf Hs. unfold setBoundedCacheEntry.
  set (c1 := if jm_has key c then jm_delete key c else c).
  assert (key ∉ jm_keys c1) as Hn.
  { unfold c1. destruct (jm_has key c) eqn:E; [rewrite jm_keys_delete; tauto|].
    intros Hin%jm_has_spec. congruence. }
  assert (jm_size c1 <= jm_size c)%nat as Hc1
    by (unfold c1; destruct (jm_has key c); [apply jm_delete_length | lia]).
  assert (jm_wf c1) as Hwf1 by (unfold c1; destruct (jm_has key c); auto with wdl).
  rewrite jm_set_absent by done.
  destruct (max <? jm_size (c1 ++ [(key, v)]))%nat eqn:E; [|apply Nat.ltb_ge in E; done].
  pose proof (jm_wf_snoc key v c1 Hn Hwf1) as Hwf2.
  assert (jm_size (c1 ++ [(key, v)]) = S (jm_size c1)) as Hlen
    by (unfold jm_size; rewrite length_app; simpl; lia).
  destruct (c1 ++ [(key, v)]) as [|[k0 v0] rest] eqn:Ec; [by destruct c1|].
  simpl jm_first_key. cbv iota beta. rewrite jm_delete_head by done.
  unfold jm_size in *. simpl in Hlen. lia.
Qed.

Lemma side_ok_set {A} max (s : side (nat * A)) names key t a p i r c :
  side_ok max s p i r c → (inval_time i r key < t)%nat →
  side_ok max (with_cache s names (setBoundedCacheEntry (cache s) key (t, a) max)) p i r c.
Proof.
  intros [] Ht. split; simpl; auto using setBounded_wf, setBounded_size.
  - intros k t' a' [[-> [= -> ->]]|H]%setBounded_get; eauto.
  - eapply Forall_impl; [exact ok_pend0|]. intros [w t'] []. by split.
Qed.

Lemma side_ok_names {A} max (s : side (nat * A)) names p i r c :
  side_ok max s p i r c → side_ok max (with_cache s names (cache s)) p i r c.
Proof.
  intros []. split; simpl; auto. eapply Forall_impl; [exact ok_pend0|]. intros [w t'] []. by split.
Qed.

Lemma side_ok_getCached {A} max (s : side (nat * A)) key s' o p i r c :
  side_ok max s p i r c → getCachedEntry s key = (s', o) →
  side_ok max s' p i r c ∧ resetEpoch s' = resetEpoch s ∧
  ∀ v, o = Some v → (inval_time i r key < v.1)%nat.
Proof.
  intros [] H. unfold getCachedEntry in H. destruct (jm_get key (cache s)) as [[t a]|] eqn:E; simplify_eq.
  - split; [|split; [done|]].
    + split; simpl; auto with wdl.
      * by erewrite jm_size_touch_present.
      * intros k t' a'. rewrite jm_get_touch. case_decide; [intros [= <- <-]; subst; eauto | eauto].
      * eapply Forall_impl; [exact ok_pend0|]. intros [w t'] []. by split.
    + intros v [= <-]. simpl. eauto.
  - split; [by split|]. split; [done | intros v [=]].
Qed.

(** A new key read joins the read object of its key, or makes one. *)
Lemma side_ok_begin {A} max (s : side (nat * A)) key s' id ep n p i r c :
  side_ok max s p i r c → (n < MAX_ROUTING_SNAPSHOT_ATTEMPTS)%nat →
  beginKeyRead s key = (s', id, ep) →
  side_ok max s' ((WaitKey n key (resetEpoch s') id ep, c) :: p) i r (S c).
Proof.
  intros Hok Hn H. pose proof (side_ok_tick _ _ _ _ _ _ Hok) as Htick. destruct Hok.
  destruct ok_clock0 as [Hc1 Hc2].
  assert (∀ k0, default 0%nat (i !! k0) < c)%nat as Hinv
    by (intros k0; specialize (Hc1 k0); unfold inval_time in Hc1; lia).
  assert (r < c)%nat as Hr by (specialize (Hc1 key); unfold inval_time in Hc1; lia).
  unfold beginKeyRead in H. destruct (jm_get key (reads s)) as [id0|] eqn:Ek; simplify_eq; simpl.
  - destruct (ok_reads_obj0 key id Ek) as (Hlt & Hpos & Hcnt).
    assert (∀ id', rs_epoch (read_obj (with_heap s (reads s)
              (<[id:=ReadState (rs_epoch (read_obj s id)) (rs_readers (read_obj s id) + 1)]> (heap s))) id')
            = rs_epoch (read_obj s id')) as Hep.
    { intros id'. rewrite read_obj_insert. by case_decide; subst. }
    split; simpl; auto.
    + intros k id' Hk. destruct (ok_reads_obj0 k id' Hk) as (? & ? & Hcnt'). split; [done|].
      rewrite readers_of_cons, read_obj_insert. simpl.
      destruct (Nat.eqb_spec id id'); case_decide; try done; subst; simpl; lia.
    + constructor.
      * split; simpl; try lia. rewrite Hep. split; [done|]. split; [lia|]. auto.
      * eapply Forall_impl; [exact ok_pend0|]. intros [w t] [W1 W2 W3 W4]. split; auto.
        destruct w as [|n' key' r' id' ep']; [done|]. simpl in *. by rewrite Hep.
    + split; [intros k; specialize (Hc1 k); lia|]. constructor; [simpl; lia|].
      eapply Forall_impl; [exact Hc2|]. simpl. lia.
  - assert (∀ k id', jm_get k (reads s) = Some id' → id' ≠ next_id s) as Hfresh.
    { intros k id' Hk ->. destruct (ok_reads_obj0 _ _ Hk). lia. }
    assert (readers_of (next_id s) p = 0%nat) as Hzero.
    { destruct (readers_of (next_id s) p) eqn:E; [done|]. exfalso.
      unfold readers_of in E. destruct (List.filter _ p) as [|[w t] l] eqn:El; [done|].
      assert (In (w, t) (List.filter (λ q, holds_read (next_id s) q.1) p)) as Hin by (rewrite El; by left).
      apply filter_In in Hin as [Hin Hh]. apply list_elem_of_In in Hin.
      rewrite Forall_forall in ok_pend0. destruct (ok_pend0 _ Hin) as [_ _ W3 _].
      destruct w as [|n' key' r' id' ep']; [done|]. simpl in *. apply Nat.eqb_eq in Hh. subst.
      destruct W3 as (Hk & _). by apply Hfresh in Hk. }
    assert (∀ id', id' ≠ next_id s → read_obj
              (Side (known s) (cache s) (resetEpoch s) (membershipEpoch s) (jm_set key (next_id s) (reads s))
                 (<[next_id s:=ReadState 0 1]> (heap s)) (S (next_id s))) id' = read_obj s id') as Hobj.
    { intros id' Hne. unfold read_obj. simpl. by rewrite lookup_insert_ne. }
    split; simpl; auto with wdl.
    + intros k id'. rewrite jm_get_set, readers_of_cons. simpl. case_decide.
      * intros [= <-]. rewrite Nat.eqb_refl. split; [lia|]. split; [lia|].
        unfold read_obj. simpl. rewrite lookup_insert_eq. simpl. lia.
      * intros Hk. pose proof (Hfresh _ _ Hk) as Hne. rewrite Hobj by done.
        destruct (ok_reads_obj0 k id' Hk) as (? & ? & ?).
        destruct (Nat.eqb_spec (next_id s) id'); [congruence|]. split; [lia|]. split; [lia | done].
    + intros k k' id'. rewrite !jm_get_set. repeat case_decide; intros; simplify_eq; eauto;
        exfalso; by eapply Hfresh.
    + constructor.
      * split; simpl; try lia. rewrite jm_get_set. rewrite decide_True by done.
        unfold read_obj. simpl. rewrite lookup_insert_eq. simpl. split; [done|]. split; [lia|]. auto.
      * eapply Forall_impl; [exact ok_pend0|]. intros [w t] [W1 W2 W3 W4]. split; auto.
        destruct w as [|n' key' r' id' ep']; [done|]. simpl in *. destruct W3 as (Hk & ? & ?).
        rewrite jm_get_set. rewrite decide_False by congruence.
        rewrite Hobj by (by eapply Hfresh). done.
    + split; [intros k; specialize (Hc1 k); lia|]. constructor; [simpl; lia|].
      eapply Forall_impl; [exact Hc2|]. simpl. lia.
Qed.

Lemma side_ok_resolve {A} max (s : side (nat * A)) key s' o n p i r c :
  side_ok max s p i r c → (n <= MAX_ROUTING_SNAPSHOT_ATTEMPTS)%nat →
  resolve n key s = (s', o) →
  side_ok max s' (new_wait o c ++ p) i r (S c) ∧
  ∀ v hit, o = Known v hit → (inval_time i r key < v.1)%nat.
Proof.
  intros Hok Hn H. destruct n as [|n]; simpl in H.
  { simplify_eq. split; [by apply side_ok_tick | done]. }
  destruct (known s) as [names|] eqn:Ek.
  2: { simplify_eq. split; [|done]. simpl. pose proof (side_ok_tick _ _ _ _ _ _ Hok) as [].
       destruct Hok. destruct ok_clock1 as [Hc1 _].
       assert (∀ k, inval_time i r k < c)%nat as Hc by auto.
       assert (r < c)%nat as Hr by (specialize (Hc key); unfold inval_time in Hc; lia).
       split; auto.
       - constructor; [|done]. split; simpl; try lia. split; [lia|auto].
       - split; [apply ok_clock0|]. constructor; [simpl; lia|apply ok_clock0]. }
  destruct (set_has names key); simpl in H; [|simplify_eq; split; [by apply side_ok_tick | done]].
  destruct (getCachedEntry s key) as [s1 [v|]] eqn:Eg.
  - simplify_eq. destruct (side_ok_getCached _ _ _ _ _ _ _ _ _ Hok Eg) as (Hok' & _ & Hf).
    split; [by apply side_ok_tick|]. intros v' hit [= <- _]. auto.
  - destruct (side_ok_getCached _ _ _ _ _ _ _ _ _ Hok Eg) as (Hok' & _ & _).
    destruct (beginKeyRead s1 key) as [[s2 id] ep] eqn:Eb. simplify_eq. split; [|done].
    eapply side_ok_begin; [done| lia |done].
Qed.

Lemma side_ok_resume {A} max (s : side (nat * A)) w t names a s' o p i r c :
  side_ok max s ((w, t) :: p) i r c → resume max w names (t, a) s = (s', o) →
  side_ok max s' (new_wait o c ++ p) i r (S c) ∧
  ∀ v hit, o = Known v hit → (inval_time i r (wait_key w) < v.1)%nat.
Proof.
  intros Hok H. pose proof (ok_pend _ _ _ _ _ _ Hok) as HF. apply Forall_cons in HF as [[W1 W2 W3 W4] _].
  destruct w as [n key r0 m|n key r0 id ep]; simpl in *.
  - apply side_ok_drop_full in Hok. destruct (_ || _) eqn:E.
    + eapply side_ok_resolve; [done | | exact H]; lia.
    + to_prop. destruct W3 as [_ W3]. specialize (W3 ltac:(done) key).
      destruct (set_has names key); simpl in H; simplify_eq.
      * split; [apply side_ok_tick, side_ok_set; [done | done] | by intros ? ? [= <- _]].
      * split; [by apply side_ok_tick, side_ok_names | done].
  - destruct (_ || _) eqn:E.
    + eapply side_ok_resolve; [by eapply side_ok_end | | exact H]; lia.
    + to_prop. destruct W3 as (Hk & _ & W3). simplify_eq.
      assert (inval_time i r key < t)%nat as Ht.
      { unfold inval_time. specialize (W2 ltac:(done)). specialize (W3 ltac:(done)). lia. }
      split; [|by intros ? ? [= <- _]]. simpl. apply side_ok_tick.
      eapply side_ok_end. by apply side_ok_set.
Qed.

Lemma inval_time_insert i r key c k :
  (inval_time (<[key := c]> i) r k = if decide (key = k) then c `max` r else inval_time i r k)%nat.
Proof. unfold inval_time. rewrite lookup_insert. by case_decide. Qed.

Lemma invalidateKeyRead_obj {V} (s : side V) key id :
  rs_epoch (read_obj (invalidateKeyRead s key) id) =
  rs_epoch (read_obj s id) + (if decide (jm_get key (reads s) = Some id) then 1 else 0).
Proof.
  unfold invalidateKeyRead. destruct (jm_get key (reads s)) as [id0|] eqn:E.
  - rewrite read_obj_insert. repeat case_decide; simplify_eq; simpl; lia.
  - rewrite decide_False by done. lia.
Qed.

Lemma invalidateKeyRead_frame {V} (s : side V) key :
  let s' := invalidateKeyRead s key in
  known s' = known s ∧ cache s' = cache s ∧ resetEpoch s' = resetEpoch s ∧
  membershipEpoch s' = membershipEpoch s ∧ reads s' = reads s ∧ next_id s' = next_id s ∧
  ∀ id, rs_readers (read_obj s' id) = rs_readers (read_obj s id).
Proof.
  unfold invalidateKeyRead. destruct (jm_get key (reads s)) as [id0|]; simpl; [|done].
  repeat split. intros id. rewrite read_obj_insert. by case_decide; subst.
Qed.

Lemma side_ok_invalidate {A} max (s : side (nat * A)) key upd p i r c :
  side_ok max s p i r c → side_ok max (invalidateKey key upd s) p (<[key := c]> i) r (S c).
Proof.
  intros []. destruct ok_clock0 as [Hc1 Hc2].
  unfold invalidateKey.
  set (s0 := Side (known s) (cache s) (resetEpoch s) (membershipEpoch s + 1) (reads s) (heap s) (next_id s)).
  destruct (invalidateKeyRead_frame s0 key) as (_ & F2 & F3 & F4 & F5 & F6 & F7).
  pose proof (invalidateKeyRead_obj s0 key) as F8.
  assert (∀ V (x : side V) k0 c0 id, read_obj (with_cache x k0 c0) id = read_obj x id) as Hwc by done.
  split; simpl; rewrite ?F2, ?F3, ?F4, ?F5, ?F6; simpl; auto with wdl.
  - etransitivity; [apply jm_delete_length | done].
  - intros k t a. rewrite jm_get_delete. case_decide; [done|].
    rewrite inval_time_insert, decide_False by done. eauto.
  - intros k id Hk. rewrite Hwc, F7. by apply (ok_reads_obj0 k).
  - apply Forall_forall. intros [w t] Hin. rewrite Forall_forall in ok_pend0, Hc2.
    destruct (ok_pend0 _ Hin) as [W1 W2 W3 W4]. specialize (Hc2 _ Hin). simpl in *.
    split; simpl; rewrite ?F3, ?F4, ?F5; simpl; auto.
    destruct w as [n' key' r' m'|n' key' r' id' ep'].
    + split; [lia|]. intros He. lia.
    + destruct W3 as (Hk & Hle & Hfr). rewrite Hwc, F8. simpl.
      change (read_obj s0 id') with (read_obj s id').
      split; [done|]. case_decide as Hd; (split; [lia|]); intros He; [lia|].
      rewrite lookup_insert_ne; [apply Hfr; lia|]. intros ->. done.
  - split.
    + intros k. rewrite inval_time_insert. pose proof (Hc1 k) as Hk. pose proof (Hc1 key).
      unfold inval_time in *. case_decide; lia.
    + eapply Forall_impl; [exact Hc2|]. simpl. lia.
Qed.

Lemma side_ok_clear {A} max (s : side (nat * A)) p i r c :
  side_ok max s p i r c → side_ok max (clearState s) p i c (S c).
Proof.
  intros []. destruct ok_clock0 as [Hc1 Hc2]. split; simpl; auto.
  - apply jm_wf_nil.
  - unfold jm_size. simpl. lia.
  - done.
  - apply Forall_forall. intros [w t] Hin. rewrite Forall_forall in ok_pend0, Hc2.
    destruct (ok_pend0 _ Hin) as [W1 W2 W3 W4]. simpl in *. split; simpl; auto; try lia.
    destruct w as [n' key' r' m'|n' key' r' id' ep']; simpl in *; [lia|].
    destruct W3 as (Hk & Hle & Hfr). split; [done|]. auto.
  - split.
    + intros k. specialize (Hc1 k). unfold inval_time in *. lia.
    + eapply Forall_impl; [exact Hc2|]. simpl. lia.
Qed.

Definition machine_ok {A} (max : nat) (m : machine A) : Prop :=
  side_ok max (m_side m) (m_pend m) (m_inval m) (m_reset m) (m_clock m).

Lemma step_ok {A} onMessage `{!Channel onMessage} max (m m' : machine A) l :
  machine_ok max m → step onMessage max m l m' →
  machine_ok max m' ∧
  ∀ key v hit, l = Some (key, Known v hit) → (inval_time (m_inval m) (m_reset m) key < v.1)%nat.
Proof.
  unfold machine_ok. intros Hok Hs. destruct Hs as [m key s o H|m l1 w t l2 names a s o Hp H
    |m l1 w t l2 s o Hp H|m v|m]; simpl.
  - destruct (side_ok_resolve _ _ _ _ _ _ _ _ _ _ Hok (le_n _) H) as [Hok' Hf].
    split; [eapply side_ok_perm; [apply Permutation_app_comm | done]|].
    intros k v hit [= <- ->]. eauto.
  - rewrite Hp in Hok. apply (side_ok_perm _ _ _ ((w, t) :: l1 ++ l2)) in Hok;
      [|symmetry; apply Permutation_middle].
    destruct (side_ok_resume _ _ _ _ _ _ _ _ _ _ _ _ Hok H) as [Hok' Hf]. split.
    + eapply side_ok_perm; [|done]. rewrite (app_assoc l1 l2). apply Permutation_app_comm.
    + intros k v hit [= <- ->]. eauto.
  - rewrite Hp in Hok. apply (side_ok_perm _ _ _ ((w, t) :: l1 ++ l2)) in Hok;
      [|symmetry; apply Permutation_middle].
    destruct w; simpl in H; simplify_eq; (split; [|done]).
    + apply side_ok_tick. eapply side_ok_drop_full. exact Hok.
    + apply side_ok_tick. eapply side_ok_end. exact Hok.
  - split; [|done]. destruct (clears v) eqn:Ec; simpl.
    + rewrite channel_clears by done. by eapply side_ok_clear.
    + destruct (accepts v) eqn:Ea.
      * destruct (channel_accepts _ v (m_side m) Ec Ea) as [upd ->]. by apply side_ok_invalidate.
      * rewrite channel_ignores by done. by apply side_ok_tick.
  - split; [|done]. by eapply side_ok_clear.
Qed.

Lemma initial_ok {A} max : machine_ok max (@initial_machine A).
Proof.
  split; simpl; auto with wdl; try done. lia.
Qed.

Lemma reachable_ok {A} onMessage `{!Channel onMessage} max (m : machine A) :
  reachable onMessage max m → machine_ok max m.
Proof.
  induction 1 as [|m l m' _ IH Hs]; [apply initial_ok|].
  destruct (step_ok _ _ _ _ _ IH Hs). done.
Qed.

(** ** Properties *)

(** C22. Cache coherence of the gateway: in every interleaving of lookups, Redis replies and
    failures, invalidation messages and resets, whatever the replies hold, each cached table
    was read from Redis after the gateway last processed an invalidation of its key or a
    reset, and the cache stays within its bound. Holds of both channels. *)
Theorem gateway_cache_coherent {A} onMessage `{!Channel onMessage} (max : nat) (m : machine A)
    (H : reachable onMessage max m) :
  (jm_size (cache (m_side m)) <= max)%nat ∧
  ∀ key t a, jm_get key (cache (m_side m)) = Some (t, a) →
             (inval_time (m_inval m) (m_reset m) key < t)%nat.
Proof. apply reachable_ok in H. destruct H. auto. Qed.

(** A namespace lookup that misses, is overtaken by an invalidation of that namespace while
    its read is in flight, and whose reply then arrives. *)
Definition witness_machine : machine nat :=
  let '(s1, o1) := resolve MAX_ROUTING_SNAPSHOT_ATTEMPTS (js "acme") initial_side in
  let m1 := Machine s1 2 (new_wait o1 1) ∅ 0%nat in
  let m2 := Machine (onRoutesMessage (js "acme") s1) 3 (new_wait o1 1) {[js "acme" := 2%nat]} 0 in
  let '(s3, o3) := resume 10 (WaitFull 4 (js "acme") 0 0) [js "acme"] (1%nat, 7%nat) (m_side m2) in
  Machine s3 4 (new_wait o3 3) {[js "acme" := 2%nat]} 0.

Lemma witness_machine_reachable : reachable (@onRoutesMessage) 10 witness_machine.
Proof.
  enough (∃ m, reachable (@onRoutesMessage) 10 m ∧ m = witness_machine) as (m & H & <-) by exact H.
  eexists. split; [eapply reach_step; [eapply reach_step; [eapply reach_step; [apply reach_init|]|]|]|].
  - by eapply (step_request _ _ _ (js "acme")).
  - apply (step_message _ _ _ (js "acme")).
  - eapply (step_reply _ _ _ [] (WaitFull 4 (js "acme") 0 0) 1 [] [js "acme"] 7%nat); reflexivity.
  - vm_compute. reflexivity.
Defined.

Lemma gateway_cache_coherent_witness : (jm_size (cache (m_side witness_machine)) <= 10)%nat.
Proof.
  exact (proj1 (gateway_cache_coherent (@onRoutesMessage) 10 witness_machine witness_machine_reachable)).
Defined.

(** C23. A lookup never answers with a table older than the last invalidation the gateway
    had processed of that key, whether it was served from the cache or from a reply. *)
Theorem gateway_lookup_fresh {A} onMessage `{!Channel onMessage} (max : nat) (m m' : machine A)
    (key : jstr) (v : nat * A) (hit : bool)
    (Hr : reachable onMessage max m) (Hs : step onMessage max m (Some (key, Known v hit)) m') :
  (inval_time (m_inval m) (m_reset m) key < v.1)%nat.
Proof.
  apply reachable_ok in Hr. destruct (step_ok _ _ _ _ _ Hr Hs) as [_ Hf]. by eapply Hf.
Qed.

(** The lookup of [witness_machine] retried; its second reply is accepted. *)
Lemma gateway_lookup_fresh_witness :
  (inval_time (m_inval witness_machine) (m_reset witness_machine) (js "acme") < 3)%nat.
Proof.
  eapply (gateway_lookup_fresh (@onRoutesMessage) 10 witness_machine _ (js "acme") (3%nat, 9%nat) false
            witness_machine_reachable).
  eapply (step_reply _ _ _ [] (WaitFull 3 (js "acme") 0 1) 3 [] [js "acme"] 9%nat); reflexivity.
Defined.

Definition wait_attempts (w : wait) : nat :=
  match w with WaitFull n _ _ _ => n | WaitKey n _ _ _ _ => n end.

(** The lookup goes from one Redis read to its next, in any state the caches have reached
    meanwhile and whatever the reply is. *)
Definition retries {V} (w w' : wait) : Prop :=
  ∃ max names (v : V) s s', resume max w names v s = (s', Waiting w').

Lemma resolve_attempts {V} n key (s s' : side V) w :
  resolve n key s = (s', Waiting w) → (wait_attempts w < n)%nat ∧ wait_key w = key.
Proof.
  unfold resolve. intros H. destruct n as [|n]; [done|].
  destruct (known s) as [names|]; [|simplify_eq; simpl; split; [lia|done]].
  destruct (negb _); [done|]. destruct (getCachedEntry s key) as [s1 [v|]]; [done|].
  destruct (beginKeyRead s1 key) as [[s2 id] ep]. simplify_eq. simpl. split; [lia|done].
Qed.

Lemma retries_attempts {V} w w' :
  retries (V := V) w w' → (wait_attempts w' < wait_attempts w)%nat ∧ wait_key w' = wait_key w.
Proof.
  intros (max & names & v & s & s' & H). destruct w; simpl in *.
  - destruct (_ || _); [by eapply resolve_attempts|]. by destruct (negb _).
  - destruct (_ || _); [by eapply resolve_attempts | done].
Qed.

(** C24. Every lookup terminates: it sends at most five Redis reads for its key, whatever
    the replies are and whatever happens to the caches between them. *)
Theorem gateway_lookup_bounded {V} (key : jstr) (s s' : side V) (w w' : wait) (reads_after : nat)
    (H : resolve MAX_ROUTING_SNAPSHOT_ATTEMPTS key s = (s', Waiting w))
    (Hr : nsteps (retries (V := V)) reads_after w w') :
  (1 + reads_after <= MAX_ROUTING_SNAPSHOT_ATTEMPTS)%nat ∧ wait_key w' = key.
Proof.
  apply resolve_attempts in H as [Hn <-].
  assert (reads_after + wait_attempts w' <= wait_attempts w ∧ wait_key w' = wait_key w)%nat as [? ?].
  { clear Hn. induction Hr as [|n x y z Hxy _ [IH1 IH2]]; [split; [lia|done]|].
    apply retries_attempts in Hxy as [? <-]. split; [lia|done]. }
  split; [lia|done].
Qed.

Lemma gateway_lookup_bounded_witness : (1 + 0 <= MAX_ROUTING_SNAPSHOT_ATTEMPTS)%nat.
Proof.
  refine (proj1 (gateway_lookup_bounded (js "acme") (@initial_side nat) initial_side
                   (WaitFull 4 (js "acme") 0 0) (WaitFull 4 (js "acme") 0 0) 0 eq_refl _)).
  apply nsteps_O.
Defined.
