(* ===== verification/Utf8.v ===== *)
(** UTF-8: the [TextEncoder] and [TextDecoder] of the platform on UTF-16 strings, and
    src/shared/utf8.js, whose [utf8ByteLength] counts bytes without encoding. *)
From stdpp Require Import base list gmap.
From Stdlib Require Import ZArith Lia.
From S2P Require Import Prelude.

#[local] Open Scope Z_scope.

(** ** The platform's encoder *)

Definition is_high (c : Z) : bool := (0xd800 <=? c) && (c <=? 0xdbff).
Definition is_low (c : Z) : bool := (0xdc00 <=? c) && (c <=? 0xdfff).
Definition REPLACEMENT : Z := 0xfffd.
Definition surrogate_pair (hi lo : Z) : Z := 0x10000 + (hi - 0xd800) * 0x400 + (lo - 0xdc00).

(** The scalar values of a string; a surrogate that is not part of a pair is replaced. *)
Fixpoint scalars (s : jstr) : list Z :=
  match s with
  | [] => []
  | c :: t =>
      if is_high c then
        match t with
        | d :: t' => if is_low d then surrogate_pair c d :: scalars t' else REPLACEMENT :: scalars t
        | [] => [REPLACEMENT]
        end
      else if is_low c then REPLACEMENT :: scalars t
      else c :: scalars t
  end.

Definition encode_scalar (cp : Z) : list Z :=
  if cp <? 0x80 then [cp]
  else if cp <? 0x800 then [0xc0 + cp / 64; 0x80 + cp mod 64]
  else if cp <? 0x10000 then [0xe0 + cp / 4096; 0x80 + cp / 64 mod 64; 0x80 + cp mod 64]
  else [0xf0 + cp / 262144; 0x80 + cp / 4096 mod 64; 0x80 + cp / 64 mod 64; 0x80 + cp mod 64].

(** [new TextEncoder().encode(s)]. *)
Definition utf8_encode (s : jstr) : list Z := flat_map encode_scalar (scalars s).

(** ** The platform's decoder: the state machine of the Encoding Standard *)

Record dec_state := DecState {
  d_needed : nat; d_cp : Z; d_lower : Z; d_upper : Z }.

Definition dec_init : dec_state := DecState 0 0 0x80 0xbf.

Definition dec_start (b : Z) : list Z * dec_state :=
  if b <? 0x80 then ([b], dec_init)
  else if (0xc2 <=? b) && (b <=? 0xdf) then ([], DecState 1 (b - 0xc0) 0x80 0xbf)
  else if (0xe0 <=? b) && (b <=? 0xef) then
    ([], DecState 2 (b - 0xe0) (if b =? 0xe0 then 0xa0 else 0x80) (if b =? 0xed then 0x9f else 0xbf))
  else if (0xf0 <=? b) && (b <=? 0xf4) then
    ([], DecState 3 (b - 0xf0) (if b =? 0xf0 then 0x90 else 0x80) (if b =? 0xf4 then 0x8f else 0xbf))
  else ([REPLACEMENT], dec_init).

Definition dec_byte (st : dec_state) (b : Z) : list Z * dec_state :=
  match d_needed st with
  | O => dec_start b
  | S n =>
      if (b <? d_lower st) || (d_upper st <? b) then
        let '(out, st') := dec_start b in (REPLACEMENT :: out, st')
      else
        let cp := d_cp st * 64 + (b - 0x80) in
        match n with
        | O => ([cp], dec_init)
        | _ => ([], DecState n cp 0x80 0xbf)
        end
  end.

Fixpoint dec_bytes (st : dec_state) (bytes : list Z) : list Z :=
  match bytes with
  | [] => match d_needed st with O => [] | _ => [REPLACEMENT] end
  | b :: r => let '(out, st') := dec_byte st b in out ++ dec_bytes st' r
  end.

Definition units_of_scalar (cp : Z) : jstr :=
  if cp <? 0x10000 then [cp]
  else [0xd800 + (cp - 0x10000) / 0x400; 0xdc00 + (cp - 0x10000) mod 0x400].

Definition BOM : Z := 0xfeff.

(** [new TextDecoder().decode(bytes)], which drops a leading byte-order mark. *)
Definition utf8_decode (bytes : list Z) : jstr :=
  let cps := dec_bytes dec_init bytes in
  flat_map units_of_scalar (match cps with c :: r => if c =? BOM then r else cps | [] => [] end).

(** ** src/shared/utf8.js *)

Definition SHORT_STRING_MAX_CODE_UNITS : Z := 512.

Fixpoint utf8ByteLengthLoop (bytes : Z) (value : jstr) : Z :=
  match value with
  | [] => bytes
  | code :: t =>
      if code <? 0x80 then utf8ByteLengthLoop (bytes + 1) t
      else if code <? 0x800 then utf8ByteLengthLoop (bytes + 2) t
      else if (0xd800 <=? code) && (code <=? 0xdbff) then
        match t with
        | next :: t' =>
            if (0xdc00 <=? next) && (next <=? 0xdfff) then utf8ByteLengthLoop (bytes + 4) t'
            else utf8ByteLengthLoop (bytes + 3) t
        | [] => bytes + 3
        end
      else utf8ByteLengthLoop (bytes + 3) t
  end.

Definition utf8ByteLength (value : jstr) : Z :=
  if SHORT_STRING_MAX_CODE_UNITS <? jlen value then Z.of_nat (length (utf8_encode value))
  else utf8ByteLengthLoop 0 value.

(** ** Lemmas *)

Definition is_unit (c : Z) : Prop := 0 <= c < 0x10000.

Lemma js_units t : Forall is_unit (js t).
Proof.
  unfold js. apply Forall_map, Forall_forall. intros c _. simpl. unfold is_unit.
  pose proof (Ascii.nat_ascii_bounded c). lia.
Qed.
Definition is_byte (b : Z) : Prop := 0 <= b < 0x100.

(** A Unicode scalar value. *)
Definition is_scalar (cp : Z) : Prop := 0 <= cp < 0x110000 ∧ ¬ (0xd800 <= cp <= 0xdfff).

(** Induction that takes a surrogate pair as one step. *)
Lemma pair_induction (P : jstr → Prop) :
  P [] → (∀ c t, P t → (∀ d t', t = d :: t' → P t') → P (c :: t)) → ∀ s, P s.
Proof.
  intros H0 H1 s. enough (P s ∧ ∀ d t', s = d :: t' → P t') by tauto.
  induction s as [|c t [IH1 IH2]]; [done|]. split; [by apply H1 | by intros ? ? [= <- <-]].
Qed.

Fixpoint well_formed (s : jstr) : bool :=
  match s with
  | [] => true
  | c :: t =>
      if is_high c then match t with d :: t' => is_low d && well_formed t' | [] => false end
      else negb (is_low c) && well_formed t
  end.

Lemma encode_scalar_length cp :
  length (encode_scalar cp) = if cp <? 0x80 then 1%nat else if cp <? 0x800 then 2%nat
                              else if cp <? 0x10000 then 3%nat else 4%nat.
Proof. unfold encode_scalar. repeat case_match; done. Qed.

Lemma surrogate_cases c :
  (is_high c = true ∧ is_low c = false ∧ 0xd800 <= c <= 0xdbff) ∨
  (is_high c = false ∧ is_low c = true ∧ 0xdc00 <= c <= 0xdfff) ∨
  (is_high c = false ∧ is_low c = false ∧ ¬ (0xd800 <= c <= 0xdfff)).
Proof.
  unfold is_high, is_low.
  destruct (Z.leb_spec 0xd800 c), (Z.leb_spec c 0xdbff), (Z.leb_spec 0xdc00 c), (Z.leb_spec c 0xdfff);
    simpl; (lia || naive_solver lia).
Qed.

Lemma utf8ByteLengthLoop_spec s : ∀ n, Forall is_unit s →
  utf8ByteLengthLoop n s = n + Z.of_nat (length (utf8_encode s)).
Proof.
  induction s as [|c t IH1 IH2] using pair_induction; intros n Hs; [simpl; lia|].
  apply Forall_cons in Hs as [Hc Ht]. unfold utf8_encode, is_unit in *. cbn [scalars utf8ByteLengthLoop].
  fold (is_high c). destruct (surrogate_cases c) as [(Eh & El & Hr)|[(Eh & El & Hr)|(Eh & El & Hr)]];
    rewrite Eh, ?El.
  - rewrite !(proj2 (Z.ltb_ge c _)) by lia. destruct t as [|d t']; [simpl; lia|].
    apply Forall_cons in Ht as [Hd Ht']. fold (is_low d). destruct (is_low d) eqn:Ed;
      cbn [flat_map]; rewrite length_app.
    + rewrite encode_scalar_length, (IH2 d t' eq_refl) by done. unfold is_low in Ed. to_prop. unfold surrogate_pair.
      rewrite !(proj2 (Z.ltb_ge _ _)) by lia. lia.
    + change (length (encode_scalar REPLACEMENT)) with 3%nat. rewrite IH1 by (constructor; done). lia.
  - rewrite !(proj2 (Z.ltb_ge c _)) by lia. rewrite IH1 by done. cbn [flat_map].
    rewrite length_app. change (length (encode_scalar REPLACEMENT)) with 3%nat. lia.
  - cbn [flat_map]. rewrite length_app, encode_scalar_length, (proj2 (Z.ltb_lt c 0x10000)) by lia.
    destruct (c <? 0x80), (c <? 0x800); rewrite IH1 by done; lia.
Qed.

#[local] Ltac Zify.zify_post_hook ::= Z.div_mod_to_equations.

(** Decides the comparisons of the goal that follow from the context. *)
Ltac decide_cmp :=
  repeat match goal with
  | |- context [?a <? ?b] =>
      first [rewrite (proj2 (Z.ltb_lt a b)) by lia | rewrite (proj2 (Z.ltb_ge a b)) by lia]
  | |- context [?a <=? ?b] =>
      first [rewrite (proj2 (Z.leb_le a b)) by lia | rewrite (proj2 (Z.leb_gt a b)) by lia]
  end; cbn [andb orb].

Lemma dec_cont n cp lo hi b r :
  lo <= b <= hi →
  dec_bytes (DecState (S n) cp lo hi) (b :: r) =
  match n with
  | O => (cp * 64 + (b - 0x80)) :: dec_bytes dec_init r
  | _ => dec_bytes (DecState n (cp * 64 + (b - 0x80)) 0x80 0xbf) r
  end.
Proof.
  intros H. cbn [dec_bytes dec_byte d_needed d_lower d_upper d_cp]. decide_cmp.
  by destruct n.
Qed.

Lemma dec_first b r :
  dec_bytes dec_init (b :: r) = let '(out, st) := dec_start b in out ++ dec_bytes st r.
Proof. done. Qed.

(** A scalar value is decoded from its own bytes, whatever follows. *)
Lemma dec_encode_scalar cp r :
  is_scalar cp → dec_bytes dec_init (encode_scalar cp ++ r) = cp :: dec_bytes dec_init r.
Proof.
  intros [Hr Hs]. unfold encode_scalar.
  destruct (Z.ltb_spec cp 0x80); [|destruct (Z.ltb_spec cp 0x800); [|destruct (Z.ltb_spec cp 0x10000)]];
    cbn [app]; rewrite dec_first; unfold dec_start; decide_cmp; cbn [app].
  - done.
  - rewrite dec_cont by lia. f_equal. lia.
  - rewrite dec_cont by (destruct (Z.eqb_spec (0xe0 + cp / 4096) 0xe0), (Z.eqb_spec (0xe0 + cp / 4096) 0xed); lia).
    rewrite dec_cont by lia. f_equal. lia.
  - rewrite dec_cont by (destruct (Z.eqb_spec (0xf0 + cp / 262144) 0xf0), (Z.eqb_spec (0xf0 + cp / 262144) 0xf4); lia).
    rewrite !dec_cont by lia. f_equal. lia.
Qed.

Lemma dec_encode cps : Forall is_scalar cps → dec_bytes dec_init (flat_map encode_scalar cps) = cps.
Proof.
  induction 1 as [|cp cps Hc _ IH]; [done|]. cbn [flat_map]. by rewrite dec_encode_scalar, IH.
Qed.

Lemma scalars_scalar s : Forall is_unit s → Forall is_scalar (scalars s).
Proof.
  induction s as [|c t IH1 IH2] using pair_induction; intros Hs; [constructor|].
  apply Forall_cons in Hs as [Hc Ht]. assert (is_scalar REPLACEMENT) by (unfold is_scalar, REPLACEMENT; lia).
  cbn [scalars]. destruct (surrogate_cases c) as [(Eh & El & Hr)|[(Eh & El & Hr)|(Eh & El & Hr)]];
    rewrite Eh, ?El; auto.
  - destruct t as [|d t']; auto. apply Forall_cons in Ht as [Hd Ht'].
    destruct (is_low d) eqn:Ed; constructor; auto; [|by apply (IH2 d)].
    unfold is_low in Ed. to_prop. unfold is_scalar, surrogate_pair, is_unit in *. lia.
  - constructor; auto. unfold is_scalar, is_unit in *. lia.
Qed.

Lemma units_scalars s : Forall is_unit s → well_formed s = true → flat_map units_of_scalar (scalars s) = s.
Proof.
  induction s as [|c t IH1 IH2] using pair_induction; intros Hs Hw; [done|].
  apply Forall_cons in Hs as [Hc Ht]. cbn [well_formed scalars] in *.
  destruct (surrogate_cases c) as [(Eh & El & Hr)|[(Eh & El & Hr)|(Eh & El & Hr)]];
    rewrite Eh, ?El in *; [|done|].
  - destruct t as [|d t']; [done|]. apply Forall_cons in Ht as [Hd Ht'].
    apply andb_prop in Hw as [Ed Hw]. rewrite Ed. cbn [flat_map]. rewrite (IH2 d t') by done.
    unfold is_low in Ed. to_prop. unfold units_of_scalar, surrogate_pair. decide_cmp.
    cbn [app]. repeat f_equal; lia.
  - cbn [flat_map]. rewrite IH1 by done. unfold units_of_scalar, is_unit in *. decide_cmp. done.
Qed.

Lemma scalars_head s : head (scalars s) = Some BOM → head s = Some BOM.
Proof.
  destruct s as [|c t]; [done|]. cbn [scalars].
  destruct (surrogate_cases c) as [(Eh & El & Hr)|[(Eh & El & Hr)|(Eh & El & Hr)]]; rewrite Eh, ?El; try done.
  destruct t as [|d t']; [done|]. destruct (is_low d) eqn:Ed; [|done]. unfold is_low in Ed. to_prop.
  cbn [head]. intros [= Hbom]. exfalso. revert Hbom. unfold surrogate_pair, BOM. lia.
Qed.

(** Text survives being written as UTF-8 and read back. *)
Lemma utf8_roundtrip s :
  Forall is_unit s → well_formed s = true → head s ≠ Some BOM → utf8_decode (utf8_encode s) = s.
Proof.
  intros Hu Hw Hb. unfold utf8_decode, utf8_encode. rewrite dec_encode by by apply scalars_scalar.
  rewrite <- (units_scalars s Hu Hw) at 2. f_equal.
  pose proof (scalars_head s) as Hh. destruct (scalars s) as [|c r]; [done|].
  destruct (Z.eqb_spec c BOM) as [->|]; [|done]. exfalso. apply Hb, Hh. done.
Qed.

Lemma encode_scalar_bytes cp : is_scalar cp → Forall is_byte (encode_scalar cp).
Proof.
  intros [Hr _]. unfold encode_scalar, is_byte.
  destruct (Z.ltb_spec cp 0x80), (Z.ltb_spec cp 0x800), (Z.ltb_spec cp 0x10000);
    repeat constructor; lia.
Qed.

Lemma utf8_encode_bytes s : Forall is_unit s → Forall is_byte (utf8_encode s).
Proof.
  intros Hs. apply scalars_scalar in Hs. unfold utf8_encode.
  induction Hs; cbn [flat_map]; [constructor | apply Forall_app; auto using encode_scalar_bytes].
Qed.

(** ASCII text is its own encoding. *)
Lemma utf8_encode_ascii s : Forall (λ c, 0 <= c < 0x80) s → utf8_encode s = s.
Proof.
  unfold utf8_encode. induction 1 as [|c t Hc Ht IH]; [done|]. cbn [scalars].
  destruct (surrogate_cases c) as [(Eh & El & Hr)|[(Eh & El & Hr)|(Eh & El & Hr)]]; [lia..|].
  rewrite Eh, El. cbn [flat_map]. rewrite IH. unfold encode_scalar. by decide_cmp.
Qed.

(** ** Properties *)

(** [utf8ByteLength] is the number of bytes [TextEncoder] produces, for every string,
    lone surrogates included, on both sides of its short-string threshold. *)
Lemma utf8ByteLength_exact (value : jstr) (H : Forall is_unit value) :
  utf8ByteLength value = Z.of_nat (length (utf8_encode value)).
Proof. unfold utf8ByteLength. destruct (_ <? _); [done | by apply utf8ByteLengthLoop_spec]. Qed.
