(* ===== verification/Base64.v ===== *)
(** * Base64

    Models src/shared/base64.js: the canonical check, the forgiving check in front of
    [Buffer.from] (the grammar of [atob]), and the two conversions. *)

From stdpp Require Import base list strings list_numbers sets.
From Stdlib Require Import ZArith Lia.
From S2P Require Import Prelude Utf8.

#[local] Open Scope Z_scope.
#[local] Open Scope wdl_scope.

Inductive base64_error := InvalidBase64 | TooManyBytes.

Definition base64Sextet (code : Z) : Z :=
  if (0x41 <=? code) && (code <=? 0x5a) then code - 0x41
  else if (0x61 <=? code) && (code <=? 0x7a) then code - 0x61 + 26
  else if (0x30 <=? code) && (code <=? 0x39) then code - 0x30 + 52
  else if code =? 0x2b then 62
  else if code =? 0x2f then 63
  else -1.

(** The text without its padding, and how many signs of padding it has. *)
Definition base64_payload (value : jstr) : jstr * Z :=
  match rev value with
  | c :: d :: rest => if c =? 61 then if d =? 61 then (rev rest, 2) else (rev (d :: rest), 1) else (value, 0)
  | [c] => if c =? 61 then ([], 1) else (value, 0)
  | [] => (value, 0)
  end.

Definition assertCanonicalBase64 (value : jstr) : bool :=
  let '(payload, padding) := base64_payload value in
  let finalSextet := match last payload with Some c => base64Sextet c | None => -1 end in
  (jlen value mod 4 =? 0) && forallb (λ c, 0 <=? base64Sextet c) payload
  && negb ((padding =? 1) && ((finalSextet <? 0) || negb (Z.land finalSextet 0x03 =? 0)))
  && negb ((padding =? 2) && ((finalSextet <? 0) || negb (Z.land finalSextet 0x0f =? 0))).

(** [Buffer.from(value, 'base64')], or [atob], on a payload of base64 units. *)
Fixpoint base64_bytes (l : list Z) : list Z :=
  match l with
  | a :: b :: c :: d :: l =>
      Z.lor (Z.shiftl a 2) (Z.shiftr b 4) :: Z.lor (Z.shiftl (Z.land b 15) 4) (Z.shiftr c 2)
      :: Z.lor (Z.shiftl (Z.land c 3) 6) d :: base64_bytes l
  | [a; b; c] => [Z.lor (Z.shiftl a 2) (Z.shiftr b 4); Z.lor (Z.shiftl (Z.land b 15) 4) (Z.shiftr c 2)]
  | [a; b] => [Z.lor (Z.shiftl a 2) (Z.shiftr b 4)]
  | _ => []
  end.

Definition base64_sign (n : Z) : Z :=
  if n <? 26 then 0x41 + n else if n <? 52 then 0x61 + n - 26 else if n <? 62 then 0x30 + n - 52 else if n =? 62 then 0x2b else 0x2f.

(** [btoa]; [Buffer.from(bytes).toString('base64')] prints the same. *)
Fixpoint bytesToBase64 (bytes : list Z) : jstr :=
  match bytes with
  | x :: y :: z :: rest =>
      base64_sign (Z.shiftr x 2) :: base64_sign (Z.lor (Z.shiftl (Z.land x 3) 4) (Z.shiftr y 4))
      :: base64_sign (Z.lor (Z.shiftl (Z.land y 15) 2) (Z.shiftr z 6)) :: base64_sign (Z.land z 63) :: bytesToBase64 rest
  | [x; y] => [base64_sign (Z.shiftr x 2); base64_sign (Z.lor (Z.shiftl (Z.land x 3) 4) (Z.shiftr y 4));
               base64_sign (Z.shiftl (Z.land y 15) 2); 61]
  | [x] => [base64_sign (Z.shiftr x 2); base64_sign (Z.shiftl (Z.land x 3) 4); 61; 61]
  | [] => []
  end.

Definition canonicalBase64ToBytes (value : jstr) : result base64_error (list Z) :=
  if assertCanonicalBase64 value then Ok (base64_bytes (map base64Sextet (base64_payload value).1)) else Err InvalidBase64.

(** [/[\t\n\f\r ]/] *)
Definition is_base64_space (c : Z) : bool := existsb (Z.eqb c) [9; 10; 12; 13; 32].

(** The payload [atob] accepts: white space is dropped, padding only where it fits. *)
Definition validatedBufferBase64 (value : jstr) : result base64_error jstr :=
  let payload := filter (λ c, is_base64_space c = false) value in
  let payload := if jlen payload mod 4 =? 0 then (base64_payload payload).1 else payload in
  if (jlen payload mod 4 =? 1) || negb (forallb (λ c, 0 <=? base64Sextet c) payload) then Err InvalidBase64 else Ok payload.

Definition base64ToBytes (value : jstr) : result base64_error (list Z) :=
  let! payload := validatedBufferBase64 value in Ok (base64_bytes (map base64Sextet payload)).

Definition textToBase64 (value : jstr) : jstr := bytesToBase64 (utf8_encode value).

Definition canonicalBase64DecodedLength (value : jstr) : Z := jlen value / 4 * 3 - (base64_payload value).2.

(** [prepareCanonicalBase64Values(values, max).map(identity)]; without a bound nothing is too long. *)
Fixpoint prepareCanonicalBase64Values (values : list (option jstr)) (maxDecodedBytes : option Z) : result base64_error (list (option (list Z))) :=
  match values with
  | [] => Ok []
  | None :: values => let! rest := prepareCanonicalBase64Values values maxDecodedBytes in Ok (None :: rest)
  | Some value :: values =>
      let! bytes := canonicalBase64ToBytes value in
      if match maxDecodedBytes with Some max => max <? canonicalBase64DecodedLength value | None => false end then Err TooManyBytes
      else let! rest := prepareCanonicalBase64Values values maxDecodedBytes in Ok (Some bytes :: rest)
  end.

(** ** Sextets and bytes *)

Lemma check1 (P : Z → bool) n : forallb P (seqZ 0 n) = true → ∀ a, 0 <= a < n → P a = true.
Proof. intros H a Ha. rewrite forallb_forall in H. apply H, list_elem_of_In, elem_of_seqZ. lia. Qed.

Lemma check2 (P : Z → Z → bool) n m : forallb (λ a, forallb (P a) (seqZ 0 m)) (seqZ 0 n) = true →
  ∀ a b, 0 <= a < n → 0 <= b < m → P a b = true.
Proof. intros H a b Ha. pose proof (check1 _ _ H a Ha) as Hb. exact (check1 _ _ Hb b). Qed.

Definition is_byte (b : Z) : Prop := 0 <= b < 256.
Definition is_sextet (n : Z) : Prop := 0 <= n < 64.

(** The sextets of the digits, and the padding. *)
Fixpoint sextets (bytes : list Z) : list Z :=
  match bytes with
  | x :: y :: z :: rest =>
      Z.shiftr x 2 :: Z.lor (Z.shiftl (Z.land x 3) 4) (Z.shiftr y 4) :: Z.lor (Z.shiftl (Z.land y 15) 2) (Z.shiftr z 6)
      :: Z.land z 63 :: sextets rest
  | [x; y] => [Z.shiftr x 2; Z.lor (Z.shiftl (Z.land x 3) 4) (Z.shiftr y 4); Z.shiftl (Z.land y 15) 2]
  | [x] => [Z.shiftr x 2; Z.shiftl (Z.land x 3) 4]
  | [] => []
  end.

Fixpoint pad (bytes : list Z) : jstr :=
  match bytes with
  | x :: y :: z :: rest => pad rest
  | [x; y] => [61]
  | [x] => [61; 61]
  | [] => []
  end.

Lemma triples_ind (P : list Z → Prop) : P [] → (∀ x, P [x]) → (∀ x y, P [x; y]) → (∀ x y z l, P l → P (x :: y :: z :: l)) → ∀ l, P l.
Proof.
  intros H0 H1 H2 H3. assert (∀ n l, (length l <= n)%nat → P l) as H; [|intros l; by apply (H (length l))].
  induction n as [|n IH]; intros [|x [|y [|z l]]] Hl; try done; cbn in Hl; try lia; auto. apply H3, IH. lia.
Qed.

Lemma encode_split bytes : bytesToBase64 bytes = map base64_sign (sextets bytes) ++ pad bytes.
Proof. induction bytes using triples_ind; cbn [bytesToBase64 sextets pad map app]; try done. by rewrite IHbytes. Qed.

Lemma sign_sextet n : is_sextet n → base64Sextet (base64_sign n) = n ∧ base64_sign n ≠ 61.
Proof.
  intros H. assert ((base64Sextet (base64_sign n) =? n) && negb (base64_sign n =? 61) = true) as E.
  { revert n H. apply (check1 (λ n, (base64Sextet (base64_sign n) =? n) && negb (base64_sign n =? 61)) 64). vm_compute. reflexivity. }
  apply andb_prop in E as [E1%Z.eqb_eq E2%negb_true_iff%Z.eqb_neq]. done.
Qed.

Lemma sextet_sign c : 0 <= base64Sextet c → is_sextet (base64Sextet c) ∧ base64_sign (base64Sextet c) = c.
Proof.
  unfold base64Sextet, base64_sign, is_sextet. repeat case_match; intros; try lia;
    repeat match goal with H : andb _ _ = true |- _ => apply andb_prop in H as [? ?] end; lia.
Qed.

(** The bits of a byte spread over two sextets come back. *)
Lemma byte_first x y : is_byte x → is_byte y →
  is_sextet (Z.shiftr x 2) ∧ is_sextet (Z.lor (Z.shiftl (Z.land x 3) 4) (Z.shiftr y 4)) ∧
  Z.lor (Z.shiftl (Z.shiftr x 2) 2) (Z.shiftr (Z.lor (Z.shiftl (Z.land x 3) 4) (Z.shiftr y 4)) 4) = x ∧
  Z.land (Z.lor (Z.shiftl (Z.land x 3) 4) (Z.shiftr y 4)) 15 = Z.shiftr y 4.
Proof.
  intros Hx Hy. pose (t x y := (Z.shiftr x 2 <? 64) && (Z.lor (Z.shiftl (Z.land x 3) 4) (Z.shiftr y 4) <? 64)
    && (0 <=? Z.shiftr x 2) && (0 <=? Z.lor (Z.shiftl (Z.land x 3) 4) (Z.shiftr y 4))
    && (Z.lor (Z.shiftl (Z.shiftr x 2) 2) (Z.shiftr (Z.lor (Z.shiftl (Z.land x 3) 4) (Z.shiftr y 4)) 4) =? x)
    && (Z.land (Z.lor (Z.shiftl (Z.land x 3) 4) (Z.shiftr y 4)) 15 =? Z.shiftr y 4)).
  assert (t x y = true) as H by (revert x y Hx Hy; apply (check2 t 256 256); vm_compute; reflexivity).
  unfold t, is_sextet in *. rewrite !andb_true_iff, !Z.ltb_lt, !Z.leb_le, !Z.eqb_eq in H. intuition lia.
Qed.

Lemma byte_second y z : is_byte y → is_byte z →
  is_sextet (Z.lor (Z.shiftl (Z.land y 15) 2) (Z.shiftr z 6)) ∧ is_sextet (Z.land z 63) ∧
  Z.lor (Z.shiftl (Z.shiftr y 4) 4) (Z.shiftr (Z.lor (Z.shiftl (Z.land y 15) 2) (Z.shiftr z 6)) 2) = y ∧
  Z.lor (Z.shiftl (Z.land (Z.lor (Z.shiftl (Z.land y 15) 2) (Z.shiftr z 6)) 3) 6) (Z.land z 63) = z.
Proof.
  intros Hy Hz. pose (t y z := (Z.lor (Z.shiftl (Z.land y 15) 2) (Z.shiftr z 6) <? 64) && (Z.land z 63 <? 64)
    && (0 <=? Z.lor (Z.shiftl (Z.land y 15) 2) (Z.shiftr z 6)) && (0 <=? Z.land z 63)
    && (Z.lor (Z.shiftl (Z.shiftr y 4) 4) (Z.shiftr (Z.lor (Z.shiftl (Z.land y 15) 2) (Z.shiftr z 6)) 2) =? y)
    && (Z.lor (Z.shiftl (Z.land (Z.lor (Z.shiftl (Z.land y 15) 2) (Z.shiftr z 6)) 3) 6) (Z.land z 63) =? z)).
  assert (t y z = true) as H by (revert y z Hy Hz; apply (check2 t 256 256); vm_compute; reflexivity).
  unfold t, is_sextet in *. rewrite !andb_true_iff, !Z.ltb_lt, !Z.leb_le, !Z.eqb_eq in H. intuition lia.
Qed.

Lemma byte_zero : is_byte 0. Proof. unfold is_byte. lia. Qed.

Lemma decode_sextets bytes : Forall is_byte bytes → Forall is_sextet (sextets bytes) ∧ base64_bytes (sextets bytes) = bytes.
Proof.
  pose proof byte_zero as H0. induction bytes as [|x|x y|x y z l IH] using triples_ind; intros H; cbn [sextets base64_bytes].
  - by split.
  - apply Forall_cons in H as [H _]. destruct (byte_first x 0 H H0) as (E1 & E2 & E3 & _). cbn [Z.shiftr] in *. rewrite !Z.lor_0_r in *.
    split; [by rewrite !Forall_cons|by rewrite E3].
  - apply Forall_cons in H as [Hx [Hy _]%Forall_cons]. destruct (byte_first x y Hx Hy) as (E1 & E2 & E3 & E4).
    destruct (byte_second y 0 Hy H0) as (F1 & F2 & F3 & _). change (Z.shiftr 0 6) with 0 in *. rewrite !Z.lor_0_r in *.
    split; [by rewrite !Forall_cons|]. by rewrite E3, E4, F3.
  - apply Forall_cons in H as [Hx H]. apply Forall_cons in H as [Hy H]. apply Forall_cons in H as [Hz H].
    destruct (byte_first x y Hx Hy) as (E1 & E2 & E3 & E4). destruct (byte_second y z Hy Hz) as (F1 & F2 & F3 & F4).
    destruct (IH H) as [G1 G2]. split; [by rewrite !Forall_cons|]. by rewrite E3, E4, F3, F4, G2.
Qed.

(** ** Texts *)

Lemma rev_head_ne digits c rest : Forall (λ c, c ≠ 61) digits → rev digits = c :: rest → c ≠ 61.
Proof.
  intros Hd E. rewrite Forall_forall in Hd. apply Hd. apply list_elem_of_In, in_rev. rewrite E. by left.
Qed.

Lemma payload_plain digits : Forall (λ c, c ≠ 61) digits → base64_payload digits = (digits, 0).
Proof.
  intros Hd. unfold base64_payload. destruct (rev digits) as [|c [|d rest]] eqn:E; [done|..];
    by rewrite (proj2 (Z.eqb_neq c 61)) by by eapply rev_head_ne.
Qed.

Lemma payload_one digits : Forall (λ c, c ≠ 61) digits → digits ≠ [] → base64_payload (digits ++ [61]) = (digits, 1).
Proof.
  intros Hd Hne. unfold base64_payload. rewrite rev_app_distr. cbn [rev app]. destruct (rev digits) as [|d rest] eqn:E.
  - by apply (f_equal (@rev Z)) in E; rewrite rev_involutive in E.
  - rewrite Z.eqb_refl. rewrite (proj2 (Z.eqb_neq d 61)) by by eapply rev_head_ne. change (rev rest ++ [d]) with (rev (d :: rest)).
    by rewrite <- E, rev_involutive.
Qed.

Lemma payload_two digits : base64_payload (digits ++ [61; 61]) = (digits, 2).
Proof. unfold base64_payload. rewrite rev_app_distr. cbn [rev app]. by rewrite Z.eqb_refl, rev_involutive. Qed.

(** The padding a number of digits needs, and the bits its last digit must leave empty. *)
Definition pad_fits (l : list Z) (padding : jstr) : Prop :=
  (padding = [] ∧ jlen l mod 4 = 0) ∨
  (padding = [61] ∧ jlen l mod 4 = 3 ∧ ∃ n, last l = Some n ∧ Z.land n 3 = 0) ∨
  (padding = [61; 61] ∧ jlen l mod 4 = 2 ∧ ∃ n, last l = Some n ∧ Z.land n 15 = 0).

Lemma pad_fits_payload l padding : Forall is_sextet l → pad_fits l padding →
  base64_payload (map base64_sign l ++ padding) = (map base64_sign l, jlen padding).
Proof.
  intros Hl Hp. assert (Forall (λ c, c ≠ 61) (map base64_sign l)) as Hd.
  { apply Forall_map. eapply Forall_impl; [exact Hl|]. intros n Hn. by apply sign_sextet. }
  destruct Hp as [[-> _]|[(-> & Hm & _)|(-> & _)]].
  - rewrite app_nil_r. by apply payload_plain.
  - apply payload_one; [done|]. by destruct l.
  - apply payload_two.
Qed.

Lemma map_sextet_sign l : Forall is_sextet l → map base64Sextet (map base64_sign l) = l.
Proof.
  intros Hl. induction Hl as [|n l Hn _ IH]; [done|]. cbn [map]. rewrite IH. by destruct (sign_sextet n Hn) as [-> _].
Qed.

Lemma forallb_signs l : Forall is_sextet l → forallb (λ c, 0 <=? base64Sextet c) (map base64_sign l) = true.
Proof.
  intros Hl. apply forallb_forall. intros c Hc. apply in_map_iff in Hc as (n & <- & Hn%list_elem_of_In). rewrite Forall_forall in Hl.
  specialize (Hl n Hn). destruct (sign_sextet n Hl) as [-> _]. unfold is_sextet in Hl. lia.
Qed.

(** What is canonical: digits of sextets with the padding that fits. *)
Lemma canonical_text l padding : Forall is_sextet l → pad_fits l padding →
  canonicalBase64ToBytes (map base64_sign l ++ padding) = Ok (base64_bytes l).
Proof.
  intros Hl Hp. unfold canonicalBase64ToBytes, assertCanonicalBase64. rewrite (pad_fits_payload l padding Hl Hp). cbn [fst].
  rewrite map_sextet_sign, forallb_signs by done. assert (jlen (map base64_sign l ++ padding) = jlen l + jlen padding) as -> by (unfold jlen; rewrite length_app, length_map; lia).
  assert (∀ n, last l = Some n → last (map base64_sign l) = Some (base64_sign n) ∧ base64Sextet (base64_sign n) = n ∧ 0 <= n) as Hlast.
  { intros n E. split; [pose proof (fmap_last base64_sign l) as Hf; by rewrite E in Hf|]. assert (is_sextet n) as Hn.
    { rewrite Forall_forall in Hl. apply Hl. apply last_Some in E as (l' & ->). set_solver. }
    destruct (sign_sextet n Hn) as [-> _]. unfold is_sextet in Hn. lia. }
  destruct Hp as [[-> Hm]|[(-> & Hm & n & E & Hb)|(-> & Hm & n & E & Hb)]].
  - change (jlen []) with 0. rewrite Z.add_0_r, Hm. done.
  - change (jlen [61]) with 1. replace ((jlen l + 1) mod 4) with 0 by (Z.to_euclidean_division_equations; lia).
    destruct (Hlast n E) as (-> & -> & Hn). rewrite Hb. replace (n <? 0) with false by lia. done.
  - change (jlen [61; 61]) with 2. replace ((jlen l + 2) mod 4) with 0 by (Z.to_euclidean_division_equations; lia).
    destruct (Hlast n E) as (-> & -> & Hn). rewrite Hb. replace (n <? 0) with false by lia. done.
Qed.

Lemma sextets_fit bytes : Forall is_byte bytes → pad_fits (sextets bytes) (pad bytes).
Proof.
  induction bytes as [|x|x y|x y z l IH] using triples_ind; intros H; cbn [sextets pad].
  - by left.
  - right. right. split_and!; [done|done|]. eexists. split; [done|]. apply Forall_cons in H as [H _].
    apply Z.eqb_eq. revert x H. apply (check1 (λ x, Z.land (Z.shiftl (Z.land x 3) 4) 15 =? 0) 256). vm_compute. reflexivity.
  - right. left. split_and!; [done|done|]. eexists. split; [done|]. apply Forall_cons in H as [_ [H _]%Forall_cons].
    apply Z.eqb_eq. revert y H. apply (check1 (λ y, Z.land (Z.shiftl (Z.land y 15) 2) 3 =? 0) 256). vm_compute. reflexivity.
  - apply Forall_cons in H as [_ H]. apply Forall_cons in H as [_ H]. apply Forall_cons in H as [_ H]. specialize (IH H).
    set (l' := sextets l) in *.
    assert (∀ a b c d, jlen (a :: b :: c :: d :: l') mod 4 = jlen l' mod 4) as Hlen by (intros; unfold jlen; cbn [length]; Z.to_euclidean_division_equations; lia).
    unfold pad_fits in *. rewrite Hlen.
    assert (∀ a b c d n, last l' = Some n → last (a :: b :: c :: d :: l') = Some n) as Hlast by (intros a b c d n E; by rewrite !last_cons, E).
    naive_solver.
Qed.

(** *** From text to bytes and back *)

Lemma quads_ind (P : list Z → Prop) : P [] → (∀ a, P [a]) → (∀ a b, P [a; b]) → (∀ a b c, P [a; b; c]) →
  (∀ a b c d l, P l → P (a :: b :: c :: d :: l)) → ∀ l, P l.
Proof.
  intros H0 H1 H2 H3 H4. assert (∀ n l, (length l <= n)%nat → P l) as H; [|intros l; by apply (H (length l))].
  induction n as [|n IH]; intros [|a [|b [|c [|d l]]]] Hl; try done; cbn in Hl; try lia; auto. apply H4, IH. lia.
Qed.

Lemma sextet_pair a b : is_sextet a → is_sextet b → is_byte (Z.lor (Z.shiftl a 2) (Z.shiftr b 4)) ∧
  Z.shiftr (Z.lor (Z.shiftl a 2) (Z.shiftr b 4)) 2 = a ∧ Z.land (Z.lor (Z.shiftl a 2) (Z.shiftr b 4)) 3 = Z.shiftr b 4.
Proof.
  intros Ha Hb. pose (t a b := (Z.lor (Z.shiftl a 2) (Z.shiftr b 4) <? 256) && (0 <=? Z.lor (Z.shiftl a 2) (Z.shiftr b 4))
    && (Z.shiftr (Z.lor (Z.shiftl a 2) (Z.shiftr b 4)) 2 =? a) && (Z.land (Z.lor (Z.shiftl a 2) (Z.shiftr b 4)) 3 =? Z.shiftr b 4)).
  assert (t a b = true) as H by (revert a b Ha Hb; apply (check2 t 64 64); vm_compute; reflexivity).
  unfold t, is_byte in *. rewrite !andb_true_iff, !Z.ltb_lt, !Z.leb_le, !Z.eqb_eq in H. intuition lia.
Qed.

Lemma sextet_middle b c : is_sextet b → is_sextet c → is_byte (Z.lor (Z.shiftl (Z.land b 15) 4) (Z.shiftr c 2)) ∧
  Z.lor (Z.shiftl (Z.shiftr b 4) 4) (Z.shiftr (Z.lor (Z.shiftl (Z.land b 15) 4) (Z.shiftr c 2)) 4) = b ∧
  Z.land (Z.lor (Z.shiftl (Z.land b 15) 4) (Z.shiftr c 2)) 15 = Z.shiftr c 2 ∧
  (Z.land b 15 = 0 → Z.shiftl (Z.shiftr b 4) 4 = b).
Proof.
  intros Hb Hc. pose (t b c := (Z.lor (Z.shiftl (Z.land b 15) 4) (Z.shiftr c 2) <? 256) && (0 <=? Z.lor (Z.shiftl (Z.land b 15) 4) (Z.shiftr c 2))
    && (Z.lor (Z.shiftl (Z.shiftr b 4) 4) (Z.shiftr (Z.lor (Z.shiftl (Z.land b 15) 4) (Z.shiftr c 2)) 4) =? b)
    && (Z.land (Z.lor (Z.shiftl (Z.land b 15) 4) (Z.shiftr c 2)) 15 =? Z.shiftr c 2)
    && (negb (Z.land b 15 =? 0) || (Z.shiftl (Z.shiftr b 4) 4 =? b))).
  assert (t b c = true) as H by (revert b c Hb Hc; apply (check2 t 64 64); vm_compute; reflexivity).
  unfold t, is_byte in *. rewrite !andb_true_iff, orb_true_iff, negb_true_iff, !Z.ltb_lt, !Z.leb_le, !Z.eqb_eq, Z.eqb_neq in H. intuition lia.
Qed.

Lemma sextet_last c d : is_sextet c → is_sextet d → is_byte (Z.lor (Z.shiftl (Z.land c 3) 6) d) ∧
  Z.lor (Z.shiftl (Z.shiftr c 2) 2) (Z.shiftr (Z.lor (Z.shiftl (Z.land c 3) 6) d) 6) = c ∧
  Z.land (Z.lor (Z.shiftl (Z.land c 3) 6) d) 63 = d ∧ (Z.land c 3 = 0 → Z.shiftl (Z.shiftr c 2) 2 = c).
Proof.
  intros Hc Hd. pose (t c d := (Z.lor (Z.shiftl (Z.land c 3) 6) d <? 256) && (0 <=? Z.lor (Z.shiftl (Z.land c 3) 6) d)
    && (Z.lor (Z.shiftl (Z.shiftr c 2) 2) (Z.shiftr (Z.lor (Z.shiftl (Z.land c 3) 6) d) 6) =? c)
    && (Z.land (Z.lor (Z.shiftl (Z.land c 3) 6) d) 63 =? d) && (negb (Z.land c 3 =? 0) || (Z.shiftl (Z.shiftr c 2) 2 =? c))).
  assert (t c d = true) as H by (revert c d Hc Hd; apply (check2 t 64 64); vm_compute; reflexivity).
  unfold t, is_byte in *. rewrite !andb_true_iff, orb_true_iff, negb_true_iff, !Z.ltb_lt, !Z.leb_le, !Z.eqb_eq, Z.eqb_neq in H. intuition lia.
Qed.

Lemma sextets_decode l padding : Forall is_sextet l → pad_fits l padding →
  Forall is_byte (base64_bytes l) ∧ sextets (base64_bytes l) = l ∧ pad (base64_bytes l) = padding.
Proof.
  induction l as [|a|a b|a b c|a b c d l IH] using quads_ind; intros Hl Hp; cbn [base64_bytes].
  - destruct Hp as [[-> _]|[(_ & H & _)|(_ & H & _)]]; [by split_and!|by cbn in H..].
  - exfalso. destruct Hp as [[_ H]|[(_ & H & _)|(_ & H & _)]]; by cbn in H.
  - apply Forall_cons in Hl as [Ha [Hb _]%Forall_cons]. destruct Hp as [[_ H]|[(_ & H & _)|(-> & _ & n & E & H)]]; [by cbn in H..|].
    injection E as <-. destruct (sextet_pair a b Ha Hb) as (E1 & E2 & E3). destruct (sextet_middle b b Hb Hb) as (_ & _ & _ & E4).
    cbn [sextets pad]. rewrite E2, E3, E4 by done. by rewrite Forall_singleton.
  - apply Forall_cons in Hl as [Ha Hl]. apply Forall_cons in Hl as [Hb [Hc _]%Forall_cons].
    destruct Hp as [[_ H]|[(-> & _ & n & E & H)|(_ & H & _)]]; [by cbn in H| |by cbn in H]. injection E as <-.
    destruct (sextet_pair a b Ha Hb) as (E1 & E2 & E3). destruct (sextet_middle b c Hb Hc) as (F1 & F2 & F3 & _).
    destruct (sextet_last c c Hc Hc) as (_ & _ & _ & G). cbn [sextets pad]. rewrite E2, E3, F2, F3, G by done. by rewrite Forall_cons, Forall_singleton.
  - apply Forall_cons in Hl as [Ha Hl]. apply Forall_cons in Hl as [Hb Hl]. apply Forall_cons in Hl as [Hc Hl]. apply Forall_cons in Hl as [Hd Hl].
    destruct (sextet_pair a b Ha Hb) as (E1 & E2 & E3). destruct (sextet_middle b c Hb Hc) as (F1 & F2 & F3 & _).
    destruct (sextet_last c d Hc Hd) as (G1 & G2 & G3 & _).
    destruct (IH Hl) as (I1 & I2 & I3).
    { assert (jlen (a :: b :: c :: d :: l) mod 4 = jlen l mod 4) as Hlen by (unfold jlen; cbn [length]; Z.to_euclidean_division_equations; lia). unfold pad_fits in *. rewrite Hlen in Hp.
      assert (jlen l mod 4 ≠ 0 → last (a :: b :: c :: d :: l) = last l) as Hlast.
      { intros Hne. destruct l as [|x l']; [done|]. by rewrite !last_cons_cons. }
      destruct Hp as [[-> H]|[(-> & H & n & E & H')|(-> & H & n & E & H')]]; [by left|right; left|right; right]; (split; [done|]); (split; [done|]);
        exists n; (split; [|done]); rewrite <- Hlast; [done|lia|done|lia]. }
    cbn [sextets pad]. rewrite E2, E3, F2, F3, G2, G3, I2, I3. by rewrite !Forall_cons.
Qed.

(** A text is its payload and its padding. *)
Lemma payload_split value payload padding : base64_payload value = (payload, padding) →
  (padding = 0 ∧ value = payload) ∨ (padding = 1 ∧ value = payload ++ [61]) ∨ (padding = 2 ∧ value = payload ++ [61; 61]).
Proof.
  unfold base64_payload. intros H. assert (value = rev (rev value)) as Hv by by rewrite rev_involutive.
  destruct (rev value) as [|x [|y rest]]; cbn [rev app] in Hv.
  - injection H as <- <-. by left.
  - destruct (x =? 61) eqn:E; injection H as <- <-; [apply Z.eqb_eq in E as ->; by right; left|by left].
  - destruct (x =? 61) eqn:E; [apply Z.eqb_eq in E as ->|injection H as <- <-; by left]. destruct (y =? 61) eqn:E'.
    + apply Z.eqb_eq in E' as ->. injection H as <- <-. right. right. split; [done|]. by rewrite Hv, <- app_assoc.
    + injection H as <- <-. right. left. split; [done|]. by rewrite Hv.
Qed.

Lemma payload_signs payload : forallb (λ c, 0 <=? base64Sextet c) payload = true →
  Forall is_sextet (map base64Sextet payload) ∧ map base64_sign (map base64Sextet payload) = payload.
Proof.
  induction payload as [|c payload IH]; [by split|]. cbn [forallb map]. intros [Hc%Z.leb_le H]%andb_prop.
  destruct (IH H) as [H1 H2]. destruct (sextet_sign c Hc) as [H3 H4]. split; [by constructor|]. by rewrite H4, H2.
Qed.

Lemma last_map {X Y} (f : X → Y) l : last (map f l) = f <$> last l.
Proof. apply fmap_last. Qed.

(** What the canonical check accepts. *)
Lemma canonical_split value : assertCanonicalBase64 value = true → ∃ l padding,
  Forall is_sextet l ∧ pad_fits l padding ∧ value = map base64_sign l ++ padding.
Proof.
  unfold assertCanonicalBase64. destruct (base64_payload value) as [payload padding] eqn:Ep. intros [[[H1 H2]%andb_prop H3]%andb_prop H4]%andb_prop.
  apply Z.eqb_eq in H1. destruct (payload_signs payload H2) as [Hl Hs]. exists (map base64Sextet payload).
  apply payload_split in Ep as [[-> ->]|[[-> ->]|[-> ->]]].
  - exists []. rewrite app_nil_r, Hs. split_and!; [done| |done]. left. split; [done|]. unfold jlen in *. by rewrite length_map.
  - exists [61]. rewrite Hs. split_and!; [done| |done]. right. left. unfold jlen in *. rewrite length_app in H1. cbn [length] in H1.
    split_and!; [done|rewrite length_map; Z.to_euclidean_division_equations; lia|]. rewrite last_map.
    destruct (last payload) as [c|]; [|done]. exists (base64Sextet c). split; [done|]. cbn in H3.
    apply negb_true_iff, orb_false_iff in H3 as [_ H3]. by apply negb_false_iff, Z.eqb_eq in H3.
  - exists [61; 61]. rewrite Hs. split_and!; [done| |done]. right. right. unfold jlen in *. rewrite length_app in H1. cbn [length] in H1.
    split_and!; [done|rewrite length_map; Z.to_euclidean_division_equations; lia|]. rewrite last_map.
    destruct (last payload) as [c|]; [|done]. exists (base64Sextet c). split; [done|]. cbn in H4.
    apply negb_true_iff, orb_false_iff in H4 as [_ H4]. by apply negb_false_iff, Z.eqb_eq in H4.
Qed.

Lemma encoded_fits bytes : Forall is_byte bytes →
  Forall is_sextet (sextets bytes) ∧ pad_fits (sextets bytes) (pad bytes) ∧ base64_bytes (sextets bytes) = bytes.
Proof. intros H. destruct (decode_sextets bytes H). auto using sextets_fit. Qed.

Lemma filter_id (P : Z → Prop) `{∀ c, Decision (P c)} (l : list Z) : (∀ c, c ∈ l → P c) → filter P l = l.
Proof.
  induction l as [|c l IH]; intros Hl; [done|]. rewrite filter_cons, decide_True by (apply Hl; set_solver). f_equal. apply IH. set_solver.
Qed.

Lemma no_spaces l padding : Forall is_sextet l → pad_fits l padding →
  filter (λ c, is_base64_space c = false) (map base64_sign l ++ padding) = map base64_sign l ++ padding.
Proof.
  intros Hl Hp. apply filter_id. intros c [Hc|Hc]%elem_of_app.
  - apply list_elem_of_fmap in Hc as (n & -> & Hn). rewrite Forall_forall in Hl. specialize (Hl n Hn). clear Hn.
    apply negb_true_iff. revert n Hl. apply (check1 (λ n, negb (is_base64_space (base64_sign n))) 64). vm_compute. reflexivity.
  - assert (c = 61) as ->; [|done]. destruct Hp as [[-> _]|[(-> & _)|(-> & _)]]; set_solver.
Qed.

(** The forgiving decoder agrees with the canonical one on canonical texts. *)
Lemma forgiving_text l padding : Forall is_sextet l → pad_fits l padding →
  base64ToBytes (map base64_sign l ++ padding) = Ok (base64_bytes l).
Proof.
  intros Hl Hp. unfold base64ToBytes, validatedBufferBase64. rewrite no_spaces by done. cbv zeta.
  assert (jlen (map base64_sign l ++ padding) mod 4 = 0 ∧ jlen (map base64_sign l) mod 4 ≠ 1) as [H1 H2].
  { assert (jlen (map base64_sign l ++ padding) = jlen l + jlen padding) as -> by (unfold jlen; rewrite length_app, length_map; lia).
    assert (jlen (map base64_sign l) = jlen l) as -> by (unfold jlen; by rewrite length_map).
    destruct Hp as [[-> Hm]|[(-> & Hm & _)|(-> & Hm & _)]]; [change (jlen []) with 0|change (jlen [61]) with 1|change (jlen [61; 61]) with 2];
      Z.to_euclidean_division_equations; lia. }
  rewrite H1. cbn [Z.eqb]. rewrite Z.eqb_refl, (pad_fits_payload l padding Hl Hp). cbn [fst]. rewrite forallb_signs by done.
  rewrite (proj2 (Z.eqb_neq _ 1)) by done. cbn [orb negb rbind]. by rewrite map_sextet_sign.
Qed.

(** ** Properties *)

(** C34. Base64: for every byte sequence the encoder's text decodes to it again, with the
    canonical and with the forgiving decoder; and the canonical decoder accepts no other text
    for a byte sequence than the one the encoder prints. *)
Theorem base64_canonical_roundtrip (bytes : list Z) (value : jstr) (Hbytes : Forall is_byte bytes) :
  canonicalBase64ToBytes (bytesToBase64 bytes) = Ok bytes ∧ base64ToBytes (bytesToBase64 bytes) = Ok bytes ∧
  (canonicalBase64ToBytes value = Ok bytes ↔ value = bytesToBase64 bytes).
Proof.
  destruct (encoded_fits bytes Hbytes) as (H1 & H2 & H3).
  assert (canonicalBase64ToBytes (bytesToBase64 bytes) = Ok bytes) as Hc by (rewrite encode_split, canonical_text by done; by rewrite H3).
  split_and!; [done|rewrite encode_split, forgiving_text by done; by rewrite H3|].
  split; [|by intros ->]. intros Hv. assert (assertCanonicalBase64 value = true) as Ha by (unfold canonicalBase64ToBytes in Hv; by destruct (assertCanonicalBase64 value)).
  destruct (canonical_split value Ha) as (l & padding & Hl & Hp & ->). rewrite canonical_text in Hv by done. apply Ok_inj in Hv as <-.
  destruct (sextets_decode l padding Hl Hp) as (_ & E1 & E2). by rewrite encode_split, E1, E2.
Qed.

Lemma base64_canonical_roundtrip_witness :
  bytesToBase64 [0; 255; 16; 127] = js "AP8Qfw==" ∧ canonicalBase64ToBytes (js "AP8Qfw==") = Ok [0; 255; 16; 127] ∧
  canonicalBase64ToBytes (js "AP8Qfx==") ≠ Ok [0; 255; 16; 127].
Proof.
  destruct (base64_canonical_roundtrip [0; 255; 16; 127] (js "AP8Qfx==")) as (H & _ & Hv).
  - rewrite !Forall_cons. unfold is_byte. split_and!; try lia. constructor.
  - split_and!; [vm_compute; reflexivity|exact H|]. intros E%Hv. by vm_compute in E.
Defined.
