(* ===== verification/Json.v ===== *)
(** * JSON text

    [JSON.stringify] and [JSON.parse] of the language, as the sources use them on owner
    records, event payloads and stored metadata. Parsing covers the whole grammar: escapes,
    duplicate members (the last one wins), and number literals rounded to the nearest
    double. Printing covers the values the sources print, whose numbers are safe integers;
    other finite numbers have no text here ([None]). *)

From stdpp Require Import base list strings gmap.
From Stdlib Require Import ZArith Lia.
From S2P Require Import Prelude Utf8.

#[local] Open Scope Z_scope.

(** ** Printing *)

Definition hex_digit (n : Z) : Z := if n <? 10 then 48 + n else 87 + n.

Definition unicode_escape (c : Z) : jstr :=
  [92; 117; hex_digit (c / 4096 mod 16); hex_digit (c / 256 mod 16);
   hex_digit (c / 16 mod 16); hex_digit (c mod 16)].

(** One code unit that is not a surrogate. *)
Definition escape_unit (c : Z) : jstr :=
  if c =? 34 then [92; 34]
  else if c =? 92 then [92; 92]
  else if c =? 8 then [92; 98]
  else if c =? 9 then [92; 116]
  else if c =? 10 then [92; 110]
  else if c =? 12 then [92; 102]
  else if c =? 13 then [92; 114]
  else if c <? 32 then unicode_escape c
  else [c].

(** Unpaired surrogates are escaped, so the text is always well-formed UTF-16. *)
Fixpoint escape (s : jstr) : jstr :=
  match s with
  | [] => []
  | c :: t =>
      if is_high c then
        match t with
        | d :: t' => if is_low d then c :: d :: escape t' else unicode_escape c ++ escape t
        | [] => unicode_escape c
        end
      else if is_low c then unicode_escape c ++ escape t
      else escape_unit c ++ escape t
  end.

Definition quote (s : jstr) : jstr := 34 :: escape s ++ [34].

Definition number_text (n : jnum) : option jstr :=
  match n with
  | NInt z => if is_safe_integer z then Some (string_of_Z z) else None
  | NInf _ | NNaN => Some (js "null")
  | NFrac _ _ => None
  end.

(** [JSON.stringify(v)]; [None] for [undefined] and for what is not printed here. *)
Fixpoint stringify (v : jsval) : option jstr :=
  match v with
  | JUndef | JBytes _ => None
  | JNull => Some (js "null")
  | JBool b => Some (if b then js "true" else js "false")
  | JNum n => number_text n
  | JStr s => Some (quote s)
  | JArr l =>
      ws ← (fix go (l : list jsval) : option (list jstr) :=
              match l with
              | [] => Some []
              | x :: r =>
                  w ← match x with JUndef => Some (js "null") | _ => stringify x end;
                  ws ← go r; Some (w :: ws)
              end) l;
      Some (91 :: join_with 44 ws ++ [93])
  | JObj fields =>
      ws ← (fix go (l : list (jstr * jsval)) : option (list jstr) :=
              match l with
              | [] => Some []
              | (k, x) :: r =>
                  match x with
                  | JUndef => go r
                  | _ => w ← stringify x; ws ← go r; Some ((quote k ++ 58 :: w) :: ws)
                  end
              end) fields;
      Some (123 :: join_with 44 ws ++ [125])
  end.

(** ** Number literals *)

(** The double nearest to [num / den], ties to even. *)
Definition round_half_even (n d : Z) : Z :=
  let q := n / d in
  let r := n mod d in
  if (d <? 2 * r) || ((2 * r =? d) && Z.odd q) then q + 1 else q.

Definition num_of_quotient (n d : Z) : jnum :=
  if n mod d =? 0 then NInt (n / d)
  else let g := Z.gcd n d in NFrac (n / g) (Z.to_pos (d / g)).

Definition to_double (num : Z) (den : Z) : jnum :=
  if num =? 0 then NInt 0
  else
    let k0 := Z.log2 num - Z.log2 den in
    let k := if num * 2 ^ Z.max 0 (- k0) <? den * 2 ^ Z.max 0 k0 then k0 - 1 else k0 in
    let e := Z.max (k - 52) (-1074) in
    let m := round_half_even (num * 2 ^ Z.max 0 (- e)) (den * 2 ^ Z.max 0 e) in
    let n := m * 2 ^ Z.max 0 e in
    if 2 ^ 1024 <=? n / 2 ^ Z.max 0 (- e) then NInf false
    else num_of_quotient n (2 ^ Z.max 0 (- e)).

Definition num_neg (n : jnum) : jnum :=
  match n with
  | NInt z => NInt (- z)
  | NFrac a b => NFrac (- a) b
  | NInf s => NInf (negb s)
  | NNaN => NNaN
  end.

Fixpoint span_digits (s : jstr) : jstr * jstr :=
  match s with
  | [] => ([], [])
  | c :: r => if is_digit c then let '(ds, r') := span_digits r in (c :: ds, r') else ([], s)
  end.

(** The value of an integer part, a fraction part and an exponent. *)
Definition literal_value (int frac : jstr) (exp : Z) : jnum :=
  let digits := dec_value 0 (int ++ frac) in
  let e := exp - jlen frac in
  if 0 <=? e then to_double (digits * 10 ^ e) 1 else to_double digits (10 ^ (- e)).

Definition parse_fraction (s : jstr) : option (jstr * jstr) :=
  match s with
  | c :: r =>
      if c =? 46 then match span_digits r with ([], _) => None | p => Some p end else Some ([], s)
  | [] => Some ([], s)
  end.

Definition parse_exponent (s : jstr) : option (Z * jstr) :=
  match s with
  | c :: r =>
      if (c =? 101) || (c =? 69) then
        let '(sign, r1) :=
          match r with
          | d :: r' => if d =? 45 then (-1, r') else if d =? 43 then (1, r') else (1, r)
          | [] => (1, r)
          end in
        match span_digits r1 with
        | ([], _) => None
        | (ds, r2) => Some (sign * dec_value 0 ds, r2)
        end
      else Some (0, s)
  | [] => Some (0, s)
  end.

(** A number literal without its sign. *)
Definition parse_unsigned (s : jstr) : option (jnum * jstr) :=
  match span_digits s with
  | ([], _) => None
  | (c :: ds, r) =>
      if (c =? 48) && negb (bool_decide (ds = [])) then None
      else
        '(frac, r1) ← parse_fraction r;
        '(exp, r2) ← parse_exponent r1;
        Some (literal_value (c :: ds) frac exp, r2)
  end.

Definition parse_number (s : jstr) : option (jnum * jstr) :=
  match s with
  | c :: r =>
      if c =? 45 then '(n, r') ← parse_unsigned r; Some (num_neg n, r') else parse_unsigned s
  | [] => None
  end.

(** ** Strings *)

Definition hex_value (c : Z) : option Z :=
  if is_digit c then Some (c - 48)
  else if (97 <=? c) && (c <=? 102) then Some (c - 87)
  else if (65 <=? c) && (c <=? 70) then Some (c - 55)
  else None.

Definition hex4 (a b c d : Z) : option Z :=
  x ← hex_value a; y ← hex_value b; z ← hex_value c; w ← hex_value d;
  Some (((x * 16 + y) * 16 + z) * 16 + w).

(** The unit a one-letter escape stands for. *)
Definition simple_escape (c : Z) : option Z :=
  if c =? 34 then Some 34 else if c =? 92 then Some 92 else if c =? 47 then Some 47
  else if c =? 98 then Some 8 else if c =? 102 then Some 12 else if c =? 110 then Some 10
  else if c =? 114 then Some 13 else if c =? 116 then Some 9 else None.

(** The characters of a string literal after its opening quote. *)
Fixpoint parse_chars (s : jstr) : option (jstr * jstr) :=
  match s with
  | [] => None
  | c :: r =>
      if c =? 34 then Some ([], r)
      else if c =? 92 then
        match r with
        | [] => None
        | e :: r1 =>
            if e =? 117 then
              match r1 with
              | h1 :: h2 :: h3 :: h4 :: r2 =>
                  u ← hex4 h1 h2 h3 h4; '(t, rest) ← parse_chars r2; Some (u :: t, rest)
              | _ => None
              end
            else u ← simple_escape e; '(t, rest) ← parse_chars r1; Some (u :: t, rest)
        end
      else if c <? 32 then None
      else '(t, rest) ← parse_chars r; Some (c :: t, rest)
  end.

(** ** Values *)

Definition is_ws (c : Z) : bool := (c =? 32) || (c =? 9) || (c =? 10) || (c =? 13).
Definition skip_ws (s : jstr) : jstr := drop_while is_ws s.

(** Sets an own property: a present key keeps its place. *)
Fixpoint obj_put (k : jstr) (v : jsval) (fields : list (jstr * jsval)) : list (jstr * jsval) :=
  match fields with
  | [] => [(k, v)]
  | (k', v') :: r => if jeqb k k' then (k, v) :: r else (k', v') :: obj_put k v r
  end.

Definition parse_literal (lit : jstr) (v : jsval) (s : jstr) : option (jsval * jstr) :=
  if starts_with lit s then Some (v, drop (length lit) s) else None.

Definition after_unit (u : Z) (s : jstr) : option jstr :=
  match s with c :: r => if c =? u then Some r else None | [] => None end.

(** Every call takes one unit of fuel, and consumes at least one unit of text. *)
Fixpoint parse_value (fuel : nat) (s : jstr) : option (jsval * jstr) :=
  match fuel with
  | O => None
  | S f =>
      match skip_ws s with
      | [] => None
      | c :: r =>
          if c =? 123 then
            match after_unit 125 (skip_ws r) with
            | Some r' => Some (JObj [], r')
            | None => '(fields, r') ← parse_members f [] r; Some (JObj fields, r')
            end
          else if c =? 91 then
            match after_unit 93 (skip_ws r) with
            | Some r' => Some (JArr [], r')
            | None => '(l, r') ← parse_elements f r; Some (JArr l, r')
            end
          else if c =? 34 then '(t, r') ← parse_chars r; Some (JStr t, r')
          else if c =? 116 then parse_literal (js "true") (JBool true) (c :: r)
          else if c =? 102 then parse_literal (js "false") (JBool false) (c :: r)
          else if c =? 110 then parse_literal (js "null") JNull (c :: r)
          else '(n, r') ← parse_number (c :: r); Some (JNum n, r')
      end
  end
with parse_members (fuel : nat) (acc : list (jstr * jsval)) (s : jstr)
    : option (list (jstr * jsval) * jstr) :=
  match fuel with
  | O => None
  | S f =>
      r ← after_unit 34 (skip_ws s);
      '(k, r1) ← parse_chars r;
      r2 ← after_unit 58 (skip_ws r1);
      '(v, r3) ← parse_value f r2;
      match skip_ws r3 with
      | [] => None
      | c :: r4 =>
          if c =? 44 then parse_members f (obj_put k v acc) r4
          else if c =? 125 then Some (obj_put k v acc, r4)
          else None
      end
  end
with parse_elements (fuel : nat) (s : jstr) : option (list jsval * jstr) :=
  match fuel with
  | O => None
  | S f =>
      '(v, r) ← parse_value f s;
      match skip_ws r with
      | [] => None
      | c :: r1 =>
          if c =? 44 then '(l, r2) ← parse_elements f r1; Some (v :: l, r2)
          else if c =? 93 then Some ([v], r1)
          else None
      end
  end.

(** [JSON.parse(text)]; [None] when it throws. *)
Definition json_parse (text : jstr) : option jsval :=
  '(v, r) ← parse_value (S (length text)) text;
  match skip_ws r with [] => Some v | _ => None end.

(** ** Values the sources print and read back *)

(** No [undefined], no fraction, and the keys of every object are distinct. *)
Fixpoint plain (v : jsval) : Prop :=
  match v with
  | JUndef | JBytes _ => False
  | JNull | JBool _ => True
  | JNum n => match n with NInt z => is_safe_integer z = true | _ => False end
  | JStr s => Forall is_unit s
  | JArr l => (fix go l := match l with [] => True | x :: r => plain x ∧ go r end) l
  | JObj fields =>
      NoDup (map fst fields) ∧
      (fix go (l : list (jstr * jsval)) :=
         match l with [] => True | (k, x) :: r => Forall is_unit k ∧ plain x ∧ go r end) fields
  end.

(** A literal whose apostrophes stand for double quotes. *)
Definition dq (s : string) : jstr := map (λ c, if c =? 39 then 34 else c) (js s).

Example json_numbers :
  json_parse (dq "[1, -2.50, 1e2, 9007199254740993, 1.00000000000000000001, 1e400]") =
  Some (JArr [JNum (NInt 1); JNum (NFrac (-5) 2); JNum (NInt 100); JNum (NInt 9007199254740992);
              JNum (NInt 1); JNum (NInf false)]).
Proof. vm_compute. reflexivity. Qed.

Example json_members :
  json_parse (dq "{ 'a' : true, 'b':{} , 'a' : '\u0041\n' } ") =
  Some (JObj [(js "a", JStr [65; 10]); (js "b", JObj [])]).
Proof. vm_compute. reflexivity. Qed.

Example json_rejects :
  map json_parse [dq "[1,]"; dq "01"; dq "{'a':1"; dq "'x"; dq "1 2"; dq "nul"; dq "-"; dq "1."; dq "[1e]"] =
  [None; None; None; None; None; None; None; None; None].
Proof. vm_compute. reflexivity. Qed.

(** ** Lemmas *)

Section jsval_induction.
Variable P : jsval → Prop.
Hypothesis Hundef : P JUndef.
Hypothesis Hnull : P JNull.
Hypothesis Hbool : ∀ b, P (JBool b).
Hypothesis Hnum : ∀ n, P (JNum n).
Hypothesis Hstr : ∀ s, P (JStr s).
Hypothesis Hbytes : ∀ b, P (JBytes b).
Hypothesis Harr : ∀ l, Forall P l → P (JArr l).
Hypothesis Hobj : ∀ fields, Forall (λ kv, P kv.2) fields → P (JObj fields).

Fixpoint jsval_nested_ind (v : jsval) : P v :=
  match v with
  | JUndef => Hundef
  | JNull => Hnull
  | JBool b => Hbool b
  | JNum n => Hnum n
  | JStr s => Hstr s
  | JBytes b => Hbytes b
  | JArr l =>
      Harr l ((fix go l : Forall P l :=
                 match l with
                 | [] => Forall_nil_2 _
                 | x :: r => Forall_cons_2 _ _ _ (jsval_nested_ind x) (go r)
                 end) l)
  | JObj fields =>
      Hobj fields ((fix go l : Forall (λ kv, P kv.2) l :=
                      match l with
                      | [] => Forall_nil_2 _
                      | kv :: r => Forall_cons_2 _ _ _ (jsval_nested_ind kv.2) (go r)
                      end) fields)
  end.
End jsval_induction.

(** *** Strings *)

Definition push (c : Z) (o : option (jstr * jstr)) : option (jstr * jstr) :=
  '(t, rest) ← o; Some (c :: t, rest).

Lemma hex_value_digit n : 0 <= n < 16 → hex_value (hex_digit n) = Some n.
Proof.
  intros H. unfold hex_value, hex_digit, is_digit. destruct (Z.ltb_spec n 10).
  - rewrite (proj2 (Z.leb_le _ _)), (proj2 (Z.leb_le _ _)) by lia. cbn [andb]. f_equal. lia.
  - rewrite (proj2 (Z.leb_le 48 _)), (proj2 (Z.leb_gt _ 57)) by lia.
    rewrite (proj2 (Z.leb_le 97 _)), (proj2 (Z.leb_le _ 102)) by lia. cbn [andb]. f_equal. lia.
Qed.

Lemma parse_unicode_escape c r : is_unit c → parse_chars (unicode_escape c ++ r) = push c (parse_chars r).
Proof.
  intros H. unfold is_unit in H. unfold unicode_escape. cbn [app].
  change (parse_chars (92 :: 117 :: ?a :: ?b :: ?c :: ?d :: r)) with
    (u ← hex4 a b c d; '(t, rest) ← parse_chars r; Some (u :: t, rest)).
  unfold hex4. rewrite !hex_value_digit by (apply Z.mod_pos_bound; lia). cbn [mbind option_bind].
  unfold push. replace (_ + c mod 16) with c; [done|].
  pose proof (Z.div_mod c 4096 ltac:(lia)). Z.div_mod_to_equations. lia.
Qed.

Lemma parse_escape_unit c r : is_unit c → parse_chars (escape_unit c ++ r) = push c (parse_chars r).
Proof.
  intros H. unfold escape_unit.
  repeat match goal with
  | |- context [c =? ?k] => destruct (Z.eqb_spec c k) as [->|]; [reflexivity|]
  end.
  destruct (Z.ltb_spec c 32); [by apply parse_unicode_escape|].
  cbn [app parse_chars]. rewrite !(proj2 (Z.eqb_neq c _)), (proj2 (Z.ltb_ge c 32)) by lia. done.
Qed.

Lemma parse_escape s rest : Forall is_unit s → parse_chars (escape s ++ 34 :: rest) = Some (s, rest).
Proof.
  induction s as [|c t IH1 IH2] using pair_induction; intros Hs; [done|].
  apply Forall_cons in Hs as [Hc Ht]. cbn [escape].
  destruct (surrogate_cases c) as [(Eh & El & Hr)|[(Eh & El & Hr)|(Eh & El & Hr)]]; rewrite Eh, ?El.
  - destruct t as [|d t'].
    { rewrite parse_unicode_escape by done. done. }
    destruct (is_low d) eqn:Ed.
    + apply Forall_cons in Ht as [Hd Ht']. specialize (IH2 d t' eq_refl Ht').
      unfold is_low in Ed. to_prop. cbn [app parse_chars].
      rewrite !(proj2 (Z.eqb_neq c _)), !(proj2 (Z.eqb_neq d _)), (proj2 (Z.ltb_ge c 32)),
        (proj2 (Z.ltb_ge d 32)), IH2 by lia. done.
    + rewrite <- app_assoc, parse_unicode_escape, IH1 by done. done.
  - rewrite <- app_assoc, parse_unicode_escape, IH1 by done. done.
  - rewrite <- app_assoc, parse_escape_unit, IH1 by done. done.
Qed.

(** *** Numbers *)

Lemma to_double_safe z : 0 <= z <= MAX_SAFE_INTEGER → to_double z 1 = NInt z.
Proof.
  intros Hz. unfold MAX_SAFE_INTEGER in Hz. unfold to_double. destruct (Z.eqb_spec z 0) as [->|Hn]; [done|].
  change (Z.log2 1) with 0. rewrite Z.sub_0_r.
  pose proof (Z.log2_spec z ltac:(lia)) as [L1 L2]. pose proof (Z.log2_nonneg z) as L0.
  assert (Z.log2 z <= 52) as L3.
  { apply Z.lt_succ_r. apply Z.log2_lt_pow2; [lia|]. cbn. lia. }
  rewrite (Z.max_l 0 (- Z.log2 z)), (Z.max_r 0 (Z.log2 z)), Z.pow_0_r by lia.
  rewrite (proj2 (Z.ltb_ge _ _)) by lia.
  rewrite (Z.max_l (Z.log2 z - 52) (-1074)) by lia.
  rewrite (Z.max_l 0 (Z.log2 z - 52)), (Z.max_r 0 (- (Z.log2 z - 52))), Z.pow_0_r by lia.
  set (p := 2 ^ (- (Z.log2 z - 52))). assert (0 < p) by (apply Z.pow_pos_nonneg; lia).
  unfold round_half_even. rewrite !Z.mul_1_r, Z.div_1_r, Z.mod_1_r.
  change (1 <? 2 * 0) with false. change (2 * 0 =? 1) with false. cbn [orb andb].
  rewrite ?Z.mul_1_r, Z.div_mul by lia. rewrite (proj2 (Z.leb_gt _ _)).
  - unfold num_of_quotient. rewrite Z.mod_mul, Z.eqb_refl, Z.div_mul by lia. done.
  - apply Z.le_lt_trans with (1 := proj2 Hz). reflexivity.
Qed.

Lemma to_double_nonneg num den z : 0 <= num → 0 < den → to_double num den = NInt z → 0 <= z.
Proof.
  intros Hn Hd. unfold to_double. destruct (num =? 0); [by intros [= <-]|].
  set (e := Z.max _ (-1074)). set (p := 2 ^ Z.max 0 (- e)). set (q := 2 ^ Z.max 0 e).
  assert (0 < p) by (apply Z.pow_pos_nonneg; lia). assert (0 < q) by (apply Z.pow_pos_nonneg; lia).
  assert (0 <= round_half_even (num * p) (den * q)) as Hr.
  { unfold round_half_even. assert (0 <= num * p / (den * q)) by (apply Z.div_pos; nia).
    destruct (_ || _); lia. }
  destruct (_ <=? _); [done|]. unfold num_of_quotient. destruct (_ =? 0); [|done].
  intros [= <-]. apply Z.div_pos; nia.
Qed.

Lemma to_double_pos num z : 0 < num → to_double num 1 = NInt z → 0 < z.
Proof.
  intros Hn. unfold to_double. destruct (Z.eqb_spec num 0); [lia|].
  change (Z.log2 1) with 0. rewrite Z.sub_0_r.
  pose proof (Z.log2_spec num Hn) as [L1 L2]. pose proof (Z.log2_nonneg num) as L0.
  rewrite (Z.max_l 0 (- Z.log2 num)), (Z.max_r 0 (Z.log2 num)), Z.pow_0_r by lia.
  rewrite (proj2 (Z.ltb_ge _ _)) by lia. rewrite (Z.max_l (Z.log2 num - 52) (-1074)) by lia.
  set (e := Z.log2 num - 52). set (p := 2 ^ Z.max 0 (- e)). set (q := 2 ^ Z.max 0 e).
  assert (0 < p) by (apply Z.pow_pos_nonneg; lia). assert (0 < q) by (apply Z.pow_pos_nonneg; lia).
  assert (q <= num * p) as Hq.
  { unfold q. transitivity (2 ^ Z.log2 num); [apply Z.pow_le_mono_r; lia | nia]. }
  assert (0 < round_half_even (num * p) (1 * q)) as Hr.
  { unfold round_half_even. assert (0 < num * p / (1 * q)) by (apply Z.div_str_pos; lia).
    destruct (_ || _); lia. }
  destruct (_ <=? _); [done|]. unfold num_of_quotient. destruct (Z.eqb_spec (round_half_even (num * p) (1 * q) * q mod p) 0) as [E|]; [|done].
  intros [= <-]. apply Z.div_exact in E; [|lia]. nia.
Qed.

(** What may follow a number literal without becoming part of it. *)
Definition num_stop (s : jstr) : Prop :=
  match s with
  | [] => True
  | c :: _ => is_digit c = false ∧ c ≠ 46 ∧ c ≠ 101 ∧ c ≠ 69
  end.

Lemma span_digits_app ds rest :
  Forall (λ c, is_digit c = true) ds → num_stop rest → span_digits (ds ++ rest) = (ds, rest).
Proof.
  intros Hd Hr. induction Hd as [|d ds Hd _ IH]; cbn [app span_digits].
  - destruct rest as [|c r]; [done|]. destruct Hr as [Hc _]. cbn [span_digits]. by rewrite Hc.
  - by rewrite Hd, IH.
Qed.

Lemma parse_unsigned_safe z rest :
  0 <= z <= MAX_SAFE_INTEGER → num_stop rest →
  parse_unsigned (string_of_nonneg z ++ rest) = Some (NInt z, rest).
Proof.
  intros Hz Hr. unfold parse_unsigned.
  rewrite span_digits_app by (try apply string_of_nonneg_digits; done || lia).
  destruct (string_of_nonneg z) as [|c ds] eqn:E.
  { destruct (decide (z = 0)) as [->|]; [done|].
    destruct (string_of_nonneg_head z) as (? & ? & E' & _); [lia|]. by rewrite E in E'. }
  assert ((c =? 48) && negb (bool_decide (ds = [])) = false) as ->.
  { destruct (decide (z = 0)) as [->|].
    - revert E. vm_compute. by intros [= <- <-].
    - destruct (string_of_nonneg_head z) as (d & ? & E' & Hd); [lia|]. rewrite E in E'. simplify_eq.
      by rewrite (proj2 (Z.eqb_neq _ 48)) by lia. }
  assert (parse_fraction rest = Some ([], rest)) as ->.
  { destruct rest as [|x r]; [done|]. destruct Hr as (_ & ? & _). cbn [parse_fraction].
    by rewrite (proj2 (Z.eqb_neq x 46)). }
  cbn [mbind option_bind].
  assert (parse_exponent rest = Some (0, rest)) as ->.
  { destruct rest as [|x r]; [done|]. destruct Hr as (_ & _ & ? & ?). cbn [parse_exponent].
    by rewrite (proj2 (Z.eqb_neq x 101)), (proj2 (Z.eqb_neq x 69)). }
  cbn [mbind option_bind]. rewrite <- E. unfold literal_value. rewrite app_nil_r.
  change (jlen []) with 0. change (0 <=? 0 - 0) with true. cbv iota.
  rewrite dec_value_string_of_nonneg, Z.mul_1_r, to_double_safe by lia. done.
Qed.

Lemma parse_number_safe z rest :
  is_safe_integer z = true → num_stop rest →
  parse_number (string_of_Z z ++ rest) = Some (NInt z, rest).
Proof.
  unfold is_safe_integer. intros Hz Hr. to_prop. unfold string_of_Z. destruct (Z.ltb_spec z 0).
  - cbn [app parse_number]. change (45 =? 45) with true. cbv iota.
    rewrite parse_unsigned_safe by (done || lia). cbn [mbind option_bind num_neg]. do 3 f_equal. lia.
  - unfold parse_number. pose proof (parse_unsigned_safe z rest ltac:(lia) Hr) as Hp.
    pose proof (string_of_nonneg_digits z ltac:(lia)) as Hd.
    destruct (string_of_nonneg z) as [|c ds] eqn:E.
    { destruct (decide (z = 0)) as [->|]; [done|].
      destruct (string_of_nonneg_head z) as (? & ? & E' & _); [lia|]. by rewrite E in E'. }
    cbn [app] in *. apply Forall_cons in Hd as [Hd _]. unfold is_digit in Hd. to_prop.
    by rewrite (proj2 (Z.eqb_neq c 45)) by lia.
Qed.

(** *** Well-formedness of the text *)

Lemma well_formed_app a b : well_formed a = true → well_formed (a ++ b) = well_formed b.
Proof.
  induction a as [|c t IH1 IH2] using pair_induction; intros H; [done|]. cbn [app well_formed] in *.
  destruct (is_high c).
  - destruct t as [|d t']; [done|]. apply andb_prop in H as [Hd Ht]. cbn [app]. rewrite Hd. by apply (IH2 d).
  - apply andb_prop in H as [-> Ht]. by apply IH1.
Qed.

Definition text_ok (w : jstr) : Prop := Forall is_unit w ∧ well_formed w = true.

Lemma text_ok_app a b : text_ok a → text_ok b → text_ok (a ++ b).
Proof.
  intros [Ha Wa] [Hb Wb]. split; [by apply Forall_app | by rewrite well_formed_app].
Qed.

Lemma text_ok_cons c w : 0 <= c < 0xd800 → text_ok w → text_ok (c :: w).
Proof.
  intros Hc Hw. apply (text_ok_app [c]); [|done]. split.
  - repeat constructor; unfold is_unit; lia.
  - cbn [well_formed]. destruct (surrogate_cases c) as [(Eh & El & Hr)|[(Eh & El & Hr)|(Eh & El & Hr)]];
      [lia..|]. by rewrite Eh, El.
Qed.

Lemma text_ok_ascii w : Forall (λ c, 0 <= c < 0x80) w → text_ok w.
Proof. induction 1; [done|]. apply text_ok_cons; [lia | done]. Qed.

Lemma hex_digit_ascii n : 0 <= n < 16 → 0 <= hex_digit n < 0x80.
Proof. unfold hex_digit. destruct (Z.ltb_spec n 10); lia. Qed.

Lemma unicode_escape_ok c : text_ok (unicode_escape c).
Proof.
  apply text_ok_ascii. unfold unicode_escape.
  repeat constructor; try lia; apply hex_digit_ascii; apply Z.mod_pos_bound; lia.
Qed.

Lemma escape_unit_ok c : is_unit c → is_high c = false → is_low c = false → text_ok (escape_unit c).
Proof.
  intros Hc Eh El. unfold escape_unit.
  repeat (destruct (_ =? _); [apply text_ok_ascii; repeat constructor; lia|]).
  destruct (_ <? _); [apply unicode_escape_ok|]. split; [by constructor|].
  cbn [well_formed]. by rewrite Eh, El.
Qed.

Lemma escape_ok s : Forall is_unit s → text_ok (escape s).
Proof.
  induction s as [|c t IH1 IH2] using pair_induction; intros Hs; [done|].
  apply Forall_cons in Hs as [Hc Ht]. cbn [escape].
  destruct (surrogate_cases c) as [(Eh & El & Hr)|[(Eh & El & Hr)|(Eh & El & Hr)]]; rewrite Eh, ?El;
    auto using text_ok_app, unicode_escape_ok, escape_unit_ok.
  destruct t as [|d t']; [apply unicode_escape_ok|].
  destruct (is_low d) eqn:Ed; [|auto using text_ok_app, unicode_escape_ok].
  apply Forall_cons in Ht as [Hd Ht']. apply (text_ok_app [c; d]); [|by apply (IH2 d)].
  split; [do 2 (apply Forall_cons; split; [done|]); apply Forall_nil_2|]. cbn [well_formed]. by rewrite Eh, Ed.
Qed.

Lemma quote_ok s : Forall is_unit s → text_ok (quote s).
Proof.
  intros. unfold quote. apply text_ok_cons; [lia|]. apply text_ok_app; [by apply escape_ok|].
  apply text_ok_cons; [lia | done].
Qed.

Lemma digits_ascii n : 0 <= n → Forall (λ c, 0 <= c < 0x80) (string_of_nonneg n).
Proof.
  intros Hn. eapply Forall_impl; [by apply string_of_nonneg_digits|]. simpl. unfold is_digit.
  intros c Hc. to_prop. lia.
Qed.

Lemma string_of_Z_ascii z : Forall (λ c, 0 <= c < 0x80) (string_of_Z z).
Proof.
  unfold string_of_Z. destruct (Z.ltb_spec z 0); [constructor; [lia|]|]; apply digits_ascii; lia.
Qed.

Lemma join_ok ws : Forall text_ok ws → text_ok (join_with 44 ws).
Proof.
  induction 1 as [|w ws Hw Hws IH]; [done|]. destruct ws as [|w' ws]; [done|].
  rewrite join_with_cons by done. apply text_ok_app; [done|]. apply text_ok_cons; [lia | done].
Qed.

(** *** Values *)

Fixpoint jsize (v : jsval) : nat :=
  match v with
  | JArr l => S ((fix go l := match l with [] => 0%nat | x :: r => S (jsize x + go r) end) l)
  | JObj fields =>
      S ((fix go (l : list (jstr * jsval)) :=
            match l with [] => 0%nat | (_, x) :: r => S (jsize x + go r) end) fields)
  | _ => 1%nat
  end.

Definition list_size (l : list jsval) : nat := foldr (λ x n, S (jsize x + n)) 0%nat l.
Definition fields_size (l : list (jstr * jsval)) : nat := foldr (λ kv n, S (jsize kv.2 + n)) 0%nat l.

Lemma jsize_arr l : jsize (JArr l) = S (list_size l).
Proof. reflexivity. Qed.

Lemma jsize_obj fields : jsize (JObj fields) = S (fields_size fields).
Proof. simpl. f_equal. induction fields as [|[k x] r]; simpl; congruence. Qed.

(** [w] is the text of [v], and parsing [w] inside any text gives [v] back. *)
Record prints (v : jsval) (w : jstr) : Prop := {
  pr_text : stringify v = Some w;
  pr_defined : v ≠ JUndef;
  pr_size : (jsize v <= length w)%nat;
  pr_head : ∃ c w', w = c :: w' ∧ is_ws c = false ∧ c ≠ 93 ∧ c ≠ BOM;
  pr_ok : text_ok w;
  pr_parse : ∀ fuel rest, (jsize v <= fuel)%nat → num_stop rest →
             parse_value fuel (w ++ rest) = Some (v, rest) }.

Lemma skip_ws_head c s : is_ws c = false → skip_ws (c :: s) = c :: s.
Proof. unfold skip_ws. cbn [drop_while]. by intros ->. Qed.

Lemma prints_literal v w c w' :
  w = c :: w' → is_ws c = false → c ≠ 93 → Forall (λ c, 0 <= c < 0x80) w →
  stringify v = Some w → v ≠ JUndef → jsize v = 1%nat →
  (∀ f rest, num_stop rest → parse_value (S f) (c :: (w' ++ rest)) = Some (v, rest)) → prints v w.
Proof.
  intros -> Hws Hc Ha Ht Hd Hs Hp. split; auto using text_ok_ascii.
  - rewrite Hs. simpl. lia.
  - apply Forall_cons in Ha as [Ha _]. exists c, w'. unfold BOM. by split_and!; try lia.
  - intros [|f] rest Hf Hr; [lia|]. by apply Hp.
Qed.

Lemma prints_num z : is_safe_integer z = true → prints (JNum (NInt z)) (string_of_Z z).
Proof.
  intros Hz. pose proof (string_of_Z_ascii z) as Ha.
  assert (∃ c w', string_of_Z z = c :: w' ∧ (c = 45 ∨ is_digit c = true)) as (c & w' & E & Hc).
  { unfold string_of_Z. destruct (z <? 0) eqn:E0; [eauto|]. to_prop.
    pose proof (string_of_nonneg_digits z E0) as Hd. destruct (string_of_nonneg z) as [|c ds] eqn:E.
    - destruct (decide (z = 0)) as [->|]; [done|].
      destruct (string_of_nonneg_head z) as (? & ? & E' & _); [lia|]. by rewrite E in E'.
    - apply Forall_cons in Hd as [Hd _]. eauto. }
  assert (c = 45 ∨ 48 <= c <= 57) as Hr by (unfold is_digit in Hc; destruct Hc; [tauto|to_prop; lia]).
  assert (is_ws c = false) as Hw by (unfold is_ws; by rewrite !(proj2 (Z.eqb_neq c _)) by lia).
  apply (prints_literal _ _ c w'); try done; try lia.
  - simpl. by rewrite Hz.
  - intros f rest Hs. cbn [parse_value]. rewrite skip_ws_head by done.
    rewrite !(proj2 (Z.eqb_neq c _)) by lia. change (c :: w' ++ rest) with ((c :: w') ++ rest).
    rewrite <- E, parse_number_safe by done. done.
Qed.

Lemma prints_str s : Forall is_unit s → prints (JStr s) (quote s).
Proof.
  intros Hs. split; try done; auto using quote_ok.
  - unfold quote. simpl. lia.
  - unfold quote. eexists _, _. split; [done|]. unfold BOM. by split_and!; try lia.
  - intros [|f] rest Hf Hr; [simpl in Hf; lia|]. unfold quote. cbn [app].
    change (parse_value (S f) (34 :: ?x)) with ('(t, r') ← parse_chars x; Some (JStr t, r')).
    rewrite <- app_assoc. cbn [app]. by rewrite parse_escape.
Qed.

Lemma stringify_arr l ws :
  Forall2 prints l ws → stringify (JArr l) = Some (91 :: join_with 44 ws ++ [93]).
Proof.
  intros H. cbn [stringify].
  match goal with |- (ws ← ?go l; _) = _ => assert (go l = Some ws) as -> end; [|done].
  induction H as [|x w l ws Hx _ IH]; [done|]. cbn [mbind option_bind]. rewrite IH.
  pose proof (pr_text _ _ Hx) as Ht. pose proof (pr_defined _ _ Hx).
  destruct x; (done || (rewrite Ht; done)).
Qed.

(** The text of one member. *)
Definition member_text (k w : jstr) : jstr := quote k ++ 58 :: w.

Definition prints_field (kv : jstr * jsval) (w : jstr) : Prop :=
  Forall is_unit kv.1 ∧ ∃ w', w = member_text kv.1 w' ∧ prints kv.2 w'.

Lemma stringify_obj fields ws :
  Forall2 prints_field fields ws → stringify (JObj fields) = Some (123 :: join_with 44 ws ++ [125]).
Proof.
  intros H. cbn [stringify].
  match goal with |- (ws ← ?go fields; _) = _ => assert (go fields = Some ws) as -> end; [|done].
  induction H as [|[k x] w l ws (_ & w' & -> & Hx) _ IH]; [done|]. cbn [fst snd] in *.
  pose proof (pr_text _ _ Hx) as Ht. pose proof (pr_defined _ _ Hx).
  destruct x; (done || (rewrite Ht; cbn [mbind option_bind]; rewrite IH; done)).
Qed.

Lemma num_stop_sep c s : c = 44 ∨ c = 93 ∨ c = 125 → num_stop (c :: s).
Proof. intros [->|[->| ->]]; simpl; (split; [done|lia]). Qed.

Lemma parse_elements_text l ws : Forall2 prints l ws → l ≠ [] → ∀ fuel rest,
  (list_size l <= fuel)%nat → parse_elements fuel (join_with 44 ws ++ 93 :: rest) = Some (l, rest).
Proof.
  induction 1 as [|x w l ws Hx Hl IH]; [done|]. intros _ fuel rest Hf. cbn [list_size foldr] in Hf.
  change (foldr _ _ l) with (list_size l) in Hf. destruct fuel as [|f]; [lia|]. cbn [parse_elements].
  destruct Hl as [|y w2 l ws Hy Hl].
  - cbn [join_with]. rewrite (pr_parse _ _ Hx) by (lia || apply num_stop_sep; tauto). done.
  - rewrite join_with_cons, <- app_assoc by done. cbn [app].
    rewrite (pr_parse _ _ Hx) by (lia || apply num_stop_sep; tauto). cbn [mbind option_bind].
    change (skip_ws (44 :: ?r)) with (44 :: r). change (44 =? 44) with true. cbv iota.
    rewrite IH by (done || lia). done.
Qed.

Lemma obj_put_fresh k v fields : k ∉ map fst fields → obj_put k v fields = fields ++ [(k, v)].
Proof.
  induction fields as [|[k' v'] r IH]; [done|]. cbn [map fst]. intros Hk.
  apply not_elem_of_cons in Hk as [Hk Hr]. cbn [obj_put]. rewrite (proj2 (jeqb_neq k k')) by done.
  by rewrite IH.
Qed.

Lemma parse_members_text l ws : Forall2 prints_field l ws → l ≠ [] → ∀ fuel acc rest,
  (fields_size l <= fuel)%nat → NoDup (map fst (acc ++ l)) →
  parse_members fuel acc (join_with 44 ws ++ 125 :: rest) = Some (acc ++ l, rest).
Proof.
  induction 1 as [|[k x] w l ws (Hk & w' & -> & Hx) Hl IH]; [done|]. intros _ fuel acc rest Hf Hnd.
  cbn [fields_size foldr fst snd] in *. change (foldr _ _ l) with (fields_size l) in Hf.
  destruct fuel as [|f]; [lia|].
  assert (obj_put k x acc = acc ++ [(k, x)]) as Hput.
  { apply obj_put_fresh. intros Hin. rewrite map_app in Hnd. cbn [map fst] in Hnd.
    apply NoDup_app in Hnd as (_ & Hd & _). apply (Hd k Hin). by left. }
  assert (∀ r, parse_members (S f) acc (member_text k w' ++ r) =
          '(v, r3) ← parse_value f (w' ++ r);
          match skip_ws r3 with
          | [] => None
          | c :: r4 =>
              if c =? 44 then parse_members f (obj_put k v acc) r4
              else if c =? 125 then Some (obj_put k v acc, r4) else None
          end) as Hstep.
  { intros r. unfold member_text, quote. cbn [app parse_members].
    change (skip_ws (34 :: ?r)) with (34 :: r). cbn [after_unit]. change (34 =? 34) with true.
    cbn [mbind option_bind]. rewrite <- !app_assoc. cbn [app]. rewrite parse_escape by done. done. }
  destruct Hl as [|[k2 x2] w2 l ws Hy Hl].
  - cbn [join_with]. rewrite Hstep, (pr_parse _ _ Hx) by (lia || apply num_stop_sep; tauto).
    cbn [mbind option_bind]. by rewrite Hput.
  - rewrite join_with_cons, <- app_assoc by done. cbn [app].
    rewrite Hstep, (pr_parse _ _ Hx) by (lia || apply num_stop_sep; tauto). cbn [mbind option_bind].
    change (skip_ws (44 :: ?r)) with (44 :: r). change (44 =? 44) with true. cbv iota.
    rewrite Hput, IH by (done || lia || by rewrite <- app_assoc). by rewrite <- app_assoc.
Qed.

Lemma length_join ws :
  ws ≠ [] → foldr (λ w n, S (length w + n))%nat 0%nat ws = S (length (join_with 44 ws)).
Proof.
  induction ws as [|w ws IH]; [done|]. intros _. destruct ws as [|w2 ws]; [cbn; lia|].
  rewrite join_with_cons, length_app by done. specialize (IH ltac:(done)). cbn [foldr length] in *. lia.
Qed.

Lemma prints_arr l ws : Forall2 prints l ws → prints (JArr l) (91 :: join_with 44 ws ++ [93]).
Proof.
  intros H. assert (list_size l <= foldr (λ w n, S (length w + n))%nat 0%nat ws)%nat as Hsz.
  { induction H as [|x w l ws Hx _ IH]; [done|]. pose proof (pr_size _ _ Hx).
    cbn [list_size foldr]. change (foldr _ _ l) with (list_size l). lia. }
  split; [by apply stringify_arr | done | | eexists _, _; split; [done|]; unfold BOM; by split_and!; try lia | |].
  - rewrite jsize_arr. cbn [length]. rewrite length_app. cbn [length]. destruct ws as [|w ws].
    + simpl in *. lia.
    + rewrite length_join in Hsz by done. lia.
  - apply text_ok_cons; [lia|]. apply text_ok_app; [|apply text_ok_cons; [lia | done]].
    apply join_ok. clear -H. induction H as [|x w l ws Hx _ IH]; constructor; [apply (pr_ok _ _ Hx) | done].
  - intros [|f] rest Hf Hr; rewrite jsize_arr in Hf; [lia|]. cbn [app]. rewrite <- app_assoc.
    destruct (decide (l = [])) as [->|Hl]; [by inversion H|].
    assert (∃ c r, join_with 44 ws = c :: r ∧ is_ws c = false ∧ c ≠ 93) as (c & r & Ej & Hc & Hn).
    { destruct H as [|x w l ws Hx H]; [done|]. destruct (pr_head _ _ Hx) as (c & w' & -> & ? & ? & _).
      destruct ws; [cbn; eauto|]. rewrite join_with_cons by done. cbn [app]. eauto. }
    cbn [parse_value]. change (skip_ws (91 :: ?r)) with (91 :: r).
    change (91 =? 123) with false. change (91 =? 91) with true. cbv iota.
    rewrite Ej. cbn [app]. rewrite skip_ws_head by done. cbn [after_unit].
    rewrite (proj2 (Z.eqb_neq c 93)) by done. change (c :: r ++ 93 :: rest) with ((c :: r) ++ 93 :: rest).
    rewrite <- Ej, (parse_elements_text l) by (done || lia). done.
Qed.

Lemma prints_obj fields ws :
  NoDup (map fst fields) → Forall2 prints_field fields ws →
  prints (JObj fields) (123 :: join_with 44 ws ++ [125]).
Proof.
  intros Hnd H. assert (fields_size fields <= foldr (λ w n, S (length w + n))%nat 0%nat ws)%nat as Hsz.
  { clear Hnd. induction H as [|[k x] w l ws (_ & w' & -> & Hx) _ IH]; [done|]. pose proof (pr_size _ _ Hx).
    cbn [fields_size foldr fst snd] in *. change (foldr _ _ l) with (fields_size l).
    unfold member_text. rewrite length_app. cbn [length]. lia. }
  split; [by apply stringify_obj | done | | eexists _, _; split; [done|]; unfold BOM; by split_and!; try lia | |].
  - rewrite jsize_obj. cbn [length]. rewrite length_app. cbn [length]. destruct ws as [|w ws].
    + simpl in *. lia.
    + rewrite length_join in Hsz by done. lia.
  - apply text_ok_cons; [lia|]. apply text_ok_app; [|apply text_ok_cons; [lia | done]].
    apply join_ok. clear -H. induction H as [|[k x] w l ws (Hk & w' & -> & Hx) _ IH]; constructor; [|done].
    unfold member_text. apply text_ok_app; [by apply quote_ok|]. apply text_ok_cons; [lia|]. apply (pr_ok _ _ Hx).
  - intros [|f] rest Hf Hr; rewrite jsize_obj in Hf; [lia|]. cbn [app]. rewrite <- app_assoc.
    destruct (decide (fields = [])) as [->|Hl]; [by inversion H|].
    assert (∃ r, join_with 44 ws = 34 :: r) as (r & Ej).
    { destruct H as [|[k x] w l ws (_ & w' & -> & Hx) H]; [done|].
      destruct ws; [cbn; eauto|]. rewrite join_with_cons by done. cbn [app]. eauto. }
    cbn [parse_value]. change (skip_ws (123 :: ?r)) with (123 :: r).
    change (123 =? 123) with true. cbv iota. rewrite Ej. cbn [app].
    change (skip_ws (34 :: ?r)) with (34 :: r). cbn [after_unit]. change (34 =? 125) with false. cbv iota.
    change (34 :: r ++ 125 :: rest) with ((34 :: r) ++ 125 :: rest).
    rewrite <- Ej, (parse_members_text fields) by (done || lia). done.
Qed.

Lemma plain_prints v : plain v → ∃ w, prints v w.
Proof.
  induction v as [| |b|n|s| b|l IH|fields IH] using jsval_nested_ind; cbn [plain]; intros Hp; try done.
  - exists (js "null"). eapply (prints_literal _ _ 110); try reflexivity; (lia || done || idtac).
    repeat constructor; vm_compute; done.
  - exists (if b then js "true" else js "false").
    destruct b; [eapply (prints_literal _ _ 116) | eapply (prints_literal _ _ 102)]; try reflexivity;
      (lia || done || idtac); repeat constructor; vm_compute; done.
  - destruct n; try done. eauto using prints_num.
  - eauto using prints_str.
  - assert (∃ ws, Forall2 prints l ws) as [ws Hws]; [|eauto using prints_arr].
    induction IH as [|x l Hx _ IHl]; [eauto|]. destruct Hp as [Hpx Hpl].
    destruct (Hx Hpx) as [w Hw], (IHl Hpl) as [ws Hws]. eauto.
  - destruct Hp as [Hnd Hp]. assert (∃ ws, Forall2 prints_field fields ws) as [ws Hws]; [|eauto using prints_obj].
    clear Hnd. induction IH as [|[k x] l Hx _ IHl]; [eauto|]. destruct Hp as (Hk & Hpx & Hpl).
    destruct (Hx Hpx) as [w Hw], (IHl Hpl) as [ws Hws]. exists (member_text k w :: ws).
    constructor; [|done]. split; [done | eauto].
Qed.

Lemma prints_json_parse v w : prints v w → json_parse w = Some v.
Proof.
  intros H. unfold json_parse. pose proof (pr_size _ _ H). rewrite <- (app_nil_r w) at 2.
  rewrite (pr_parse _ _ H) by (done || lia). done.
Qed.

(** The bytes of a printed value decode to its text. *)
Lemma prints_utf8 v w : prints v w → utf8_decode (utf8_encode w) = w.
Proof.
  intros H. destruct (pr_ok _ _ H) as [Hu Hw]. apply utf8_roundtrip; [done|done|].
  destruct (pr_head _ _ H) as (c & w' & -> & _ & _ & Hb). by intros [= ?].
Qed.

(** A value of records, arrays, strings of any code units and safe integers survives
    [JSON.stringify], the UTF-8 encoding Redis stores, its decoding and [JSON.parse]. *)
Lemma json_roundtrip v : plain v →
  ∃ text, stringify v = Some text ∧ json_parse text = Some v ∧
          json_parse (utf8_decode (utf8_encode text)) = Some v.
Proof.
  intros H. destruct (plain_prints v H) as [w Hw]. exists w. rewrite (prints_utf8 _ _ Hw).
  pose proof (prints_json_parse _ _ Hw). pose proof (pr_text _ _ Hw). done.
Qed.
