(* ===== verification/JsNumber.v ===== *)
(** * Numbers of the language

    [Number(v)], the tests and the comparisons the sources apply to numbers that come from
    configuration or from stored records. *)

From stdpp Require Import base list strings.
From Stdlib Require Import ZArith Lia.
From S2P Require Import Prelude Json.

#[local] Open Scope Z_scope.

(** ** [Number(text)] *)

Definition radix_digit (radix : Z) (c : Z) : option Z :=
  match hex_value c with Some d => if d <? radix then Some d else None | None => None end.

Fixpoint radix_value (radix acc : Z) (s : jstr) : option Z :=
  match s with
  | [] => Some acc
  | c :: r => d ← radix_digit radix c; radix_value radix (acc * radix + d) r
  end.

(** [0x], [0o] and [0b] literals. *)
Definition radix_literal (s : jstr) : option jnum :=
  match s with
  | z :: x :: ((_ :: _) as digits) =>
      if negb (z =? 48) then None
      else
        let value r := match radix_value r 0 digits with
                       | Some n => Some (to_double n 1) | None => Some NNaN end in
        if (x =? 120) || (x =? 88) then value 16
        else if (x =? 111) || (x =? 79) then value 8
        else if (x =? 98) || (x =? 66) then value 2
        else None
  | _ => None
  end.

(** A decimal literal without sign: digits with an optional fraction, or a fraction alone. *)
Definition decimal_literal (s : jstr) : jnum :=
  if jeqb s (js "Infinity") then NInf false
  else
    let '(int, r) := span_digits s in
    let '(frac, r1) :=
      match r with
      | c :: t => if c =? 46 then span_digits t else ([], r)
      | [] => ([], r)
      end in
    if bool_decide (int ++ frac = []) then NNaN
    else match parse_exponent r1 with
         | Some (e, []) => literal_value int frac e
         | _ => NNaN
         end.

Definition string_to_number (s : jstr) : jnum :=
  let t := trim s in
  match t with
  | [] => NInt 0
  | c :: r =>
      match radix_literal t with
      | Some n => n
      | None =>
          if c =? 45 then num_neg (decimal_literal r)
          else if c =? 43 then decimal_literal r
          else decimal_literal t
      end
  end.

(** [Number(v)]; an object or a buffer is not a number here. *)
Definition Number_of (v : jsval) : jnum :=
  match v with
  | JNull => NInt 0
  | JBool b => NInt (if b then 1 else 0)
  | JNum n => n
  | JStr s => string_to_number s
  | JUndef | JBytes _ | JArr _ | JObj _ => NNaN
  end.

(** ** Tests and comparisons *)

Definition num_is_finite (n : jnum) : bool :=
  match n with NInt _ | NFrac _ _ => true | _ => false end.

Definition num_is_integer (n : jnum) : bool := match n with NInt _ => true | _ => false end.

(** [n <= m]; false when either is [NaN]. *)
Definition num_leb (n m : jnum) : bool :=
  match n, m with
  | NNaN, _ | _, NNaN => false
  | NInf neg, NInf neg' => neg || negb neg'
  | NInf neg, _ => neg
  | _, NInf neg => negb neg
  | NInt a, NInt b => a <=? b
  | NInt a, NFrac c d => a * Z.pos d <=? c
  | NFrac a b, NInt c => a <=? c * Z.pos b
  | NFrac a b, NFrac c d => a * Z.pos d <=? c * Z.pos b
  end.

(** [n < m]. *)
Definition num_ltb (n m : jnum) : bool :=
  match n, m with NNaN, _ | _, NNaN => false | _, _ => negb (num_leb m n) end.

(** [Math.trunc(n)]. *)
Definition num_trunc (n : jnum) : jnum :=
  match n with NFrac a b => NInt (Z.quot a (Z.pos b)) | _ => n end.

Example string_to_number_examples :
  map string_to_number [js ""; js " 12 "; js "-0x1"; js "0x1F"; js "1e3"; js ".5"; js "5."; js "."; js "12a"; js "-Infinity"; js "0b102"] =
  [NInt 0; NInt 12; NNaN; NInt 31; NInt 1000; NFrac 1 2; NInt 5; NNaN; NNaN; NInf true; NNaN].
Proof. vm_compute. reflexivity. Qed.
