(* ===== verification/OwnerLease.v ===== *)
(** * Owner leases: pure part

    Models src/shared/env.js, src/shared/owner-lease.js, the fence test and the key layout of
    src/shared/owner-protocol.js, and src/shared/owner-endpoint.js. Values read from Redis are
    [jsval]: [JNull] and [JUndef] for an absent key, [JStr] for decoded text, [JBytes] for
    raw bytes. [URL] is a platform API and is an argument of [validOwnerEndpointForService]. *)

From stdpp Require Import base list strings sets.
From Stdlib Require Import ZArith Lia.
From S2P Require Import Prelude NsPattern WorkerContract Utf8 Json JsNumber.

#[local] Open Scope Z_scope.
#[local] Open Scope wdl_scope.

Abbreviation fields := (list (jstr * jsval)).

(** ** Environment values (src/shared/env.js) *)

(** [^[1-9]\d*$] *)
Definition CANONICAL_POSITIVE_DECIMAL (s : jstr) : bool :=
  match s with
  | c :: r => is_digit c && negb (c =? 48) && forallb is_digit r
  | [] => false
  end.

Definition envValueOr (value fallback : jsval) : jsval :=
  match value with
  | JUndef | JNull => fallback
  | JStr [] => fallback
  | _ => value
  end.

Definition canonicalPositiveIntegerEnv (env : fields) (name : jstr) (fallback max : Z) : Z :=
  match obj_get name env with
  | JStr raw =>
      if CANONICAL_POSITIVE_DECIMAL raw then
        match string_to_number raw with
        | NInt value => if is_safe_integer value && (value <=? max) then value else fallback
        | _ => fallback
        end
      else fallback
  | _ => fallback
  end.

(** ** Lease arithmetic and generation counters (src/shared/owner-lease.js) *)

Definition OWNER_TTL_MAX_SECONDS : Z := MAX_SAFE_INTEGER / 1000.

(** [^(?:0|[1-9]\d* )$] *)
Definition OWNER_GENERATION_COUNTER (s : jstr) : bool :=
  jeqb s (js "0") || CANONICAL_POSITIVE_DECIMAL s.

(** The units [encodeURIComponent] leaves alone. *)
Definition uri_unreserved (c : Z) : bool :=
  is_alnum c || includes_unit c (js "-_.!~*'()").

Definition upper_hex (n : Z) : Z := if n <? 10 then 48 + n else 55 + n.

Definition encode_uri_byte (b : Z) : jstr :=
  if uri_unreserved b then [b] else [37; upper_hex (b / 16); upper_hex (b mod 16)].

(** [encodeURIComponent(s)] on well-formed strings (it throws on a lone surrogate). *)
Definition encodeURIComponent (s : jstr) : jstr := flat_map encode_uri_byte (utf8_encode s).

Definition ownerScopedKey (prefix scope : jstr) : jstr := prefix ++ encodeURIComponent scope.

Definition ownerGenerationScopedKey (prefix scope : jstr) : jstr :=
  ownerScopedKey prefix scope ++ js ":generation".

(** The text of a raw value; [None] when the value is falsy. *)
Definition raw_text (raw : jsval) : option jstr :=
  match raw with
  | JStr [] => None
  | JStr s => Some s
  | JBytes b => Some (utf8_decode b)
  | _ => None
  end.

Definition parseOwnerRecord (raw : jsval) : option fields :=
  match raw_text raw with
  | None => None
  | Some text =>
      match json_parse text with
      | Some (JObj record) =>
          match safe_integer_of (obj_get (js "generation") record) with
          | Some generation =>
              if generation <=? 0 then None
              else match obj_get (js "leaseExpiresAt") record with
                   | JUndef | JNull => Some record
                   | JNum n => if num_is_finite n then Some record else None
                   | _ => None
                   end
          | None => None
          end
      | _ => None
      end
  end.

(** The argument is [owner?.leaseExpiresAt]. *)
Definition ownerLeaseExpired (leaseExpiresAt : jsval) (now : Z) : bool :=
  let n := Number_of leaseExpiresAt in
  negb (num_is_finite n) || num_leb n (NInt now).

Inductive lease_error := InvalidTime | InvalidTtl | CorruptCounter | ExhaustedCounter.

(** The check [redisServerTimeMs] and [parseTimedOwnerRead] apply to the reply of [TIME]. *)
Definition redisServerTimeMs (now : Z) : result lease_error Z :=
  if negb (is_safe_integer now) || (now <? 0) then Err InvalidTime else Ok now.

Definition ownerLeaseExpiresAt (nowMs ttlSeconds : Z) : result lease_error Z :=
  if negb (is_safe_integer nowMs) || (nowMs <? 0) then Err InvalidTime
  else if negb (is_safe_integer ttlSeconds) || (ttlSeconds <=? 0) || (OWNER_TTL_MAX_SECONDS <? ttlSeconds)
  then Err InvalidTtl
  else
    let ttlMs := ttlSeconds * 1000 in
    Ok (Z.min MAX_SAFE_INTEGER (nowMs + ttlMs)).

Definition ownerTtlSecondsEnv (env : fields) (name : jstr) (fallback : Z) : Z :=
  canonicalPositiveIntegerEnv env name fallback OWNER_TTL_MAX_SECONDS.

Definition parseOwnerGenerationCounter (raw : jsval) : result lease_error Z :=
  match raw with
  | JNull | JUndef | JStr [] => Ok 0
  | JNum n =>
      match n with
      | NInt z => if is_safe_integer z && (0 <=? z) then Ok z else Err CorruptCounter
      | _ => Err CorruptCounter
      end
  | JStr _ | JBytes _ =>
      let text := match raw with JStr s => s | JBytes b => utf8_decode b | _ => [] end in
      if jeqb text [] then Ok 0
      else if negb (OWNER_GENERATION_COUNTER text) then Err CorruptCounter
      else match string_to_number text with
           | NInt parsed => if is_safe_integer parsed then Ok parsed else Err CorruptCounter
           | _ => Err CorruptCounter
           end
  | JBool _ | JArr _ | JObj _ => Err CorruptCounter
  end.

Definition nextOwnerGenerationFromSnapshot (raw : jsval) (currentGeneration : Z) : result lease_error Z :=
  let! currentCounter := parseOwnerGenerationCounter raw in
  let previousGeneration := Z.max currentCounter currentGeneration in
  if negb (is_safe_integer previousGeneration) || (MAX_SAFE_INTEGER <=? previousGeneration)
  then Err ExhaustedCounter
  else Ok (previousGeneration + 1).

(** [max] is an integer at every call of the sources. *)
Definition boundedPositiveIntEnv (env : fields) (name : jstr) (fallback max : Z) : Z :=
  let raw := Number_of (envValueOr (obj_get name env) (JNum (NInt fallback))) in
  if negb (num_is_finite raw) || num_leb raw (NInt 0) then fallback
  else match num_trunc raw with
       | NInt n => Z.max 1 (if 0 <? max then Z.min n max else n)
       | _ => fallback
       end.

(** ** Fences and keys (src/shared/owner-protocol.js) *)

Record protocol_keys := ProtocolKeys { ownerKey : jstr; generationKey : jstr }.

Definition ownerProtocolKeys (prefix scope : jstr) : protocol_keys :=
  ProtocolKeys (ownerScopedKey prefix scope) (ownerGenerationScopedKey prefix scope).

(** A fence: [taskId] and [generation] of a record. *)
Definition fence := (jstr * Z)%type.

Definition ownerFenceMatches (current expected : option fence) : bool :=
  match current, expected with
  | Some (taskId, generation), Some (taskId', generation') =>
      jeqb taskId taskId' && (generation =? generation')
  | _, _ => false
  end.

(** ** Owner endpoints (src/shared/owner-endpoint.js) *)

Inductive service := D1Runtime | DoRuntime.

Definition service_name (s : service) : jstr :=
  match s with D1Runtime => js "d1-runtime" | DoRuntime => js "do-runtime" end.

(** The parts of a parsed [URL] the validator reads. *)
Record url_parts := UrlParts {
  url_host : jstr; url_hostname : jstr; url_port : jstr; url_username : jstr;
  url_password : jstr; url_pathname : jstr; url_search : jstr; url_hash : jstr }.

Definition INVALID_OWNER_ENDPOINT_RE (s : jstr) : bool :=
  existsb (λ c, includes_unit c (js "/?#@[]\")) s.

(** [^(?:0|[1-9]\d{0,2})$] *)
Definition IPV4_OCTET_RE (s : jstr) : bool :=
  match s with
  | c :: r => (jeqb s (js "0")) || (is_digit c && negb (c =? 48) && forallb is_digit r && (jlen r <=? 2))
  | [] => false
  end.

Fixpoint ipv4Octets (parts : list jstr) : option (list Z) :=
  match parts with
  | [] => Some []
  | part :: r =>
      if negb (IPV4_OCTET_RE part) then None
      else
        let value := dec_value 0 part in
        if (value <? 0) || (255 <? value) then None
        else octets ← ipv4Octets r; Some (value :: octets)
  end.

Definition acceptablePrivateIpv4 (hostname : jstr) : bool :=
  let parts := split_on 46 hostname in
  if negb (length parts =? 4)%nat then false
  else match ipv4Octets parts with
       | Some (a :: b :: _) =>
           (a =? 10)
           || ((a =? 100) && (64 <=? b) && (b <=? 127))
           || ((a =? 172) && (16 <=? b) && (b <=? 31))
           || ((a =? 192) && (b =? 168))
       | _ => false
       end.

Definition lower_dash_plus (s : jstr) : bool :=
  match s with [] => false | _ => forallb (λ c, is_lower_alnum c || is_dash c) s end.

(** [^<service>(?:-[a-z0-9-]+)?$] *)
Definition OWNER_ENDPOINT_SERVICE_RE (s : service) (hostname : jstr) : bool :=
  let name := service_name s in
  starts_with name hostname &&
  match drop (length name) hostname with
  | [] => true
  | c :: r => is_dash c && lower_dash_plus r
  end.

(** [^<service>-[0-9]+\.<service>-headless(?:\.[a-z0-9-]+\.svc(?:\.cluster\.local)?)?$],
    by the dot-separated labels, none of which can hold a dot. *)
Definition OWNER_ENDPOINT_HEADLESS_RE (s : service) (hostname : jstr) : bool :=
  let name := service_name s in
  let pod l := starts_with (name ++ js "-") l &&
               match drop (length name + 1) l with [] => false | d => forallb is_digit d end in
  let tail ls :=
    match ls with
    | [] => true
    | [ns; svc] => lower_dash_plus ns && jeqb svc (js "svc")
    | [ns; svc; cluster; local] =>
        lower_dash_plus ns && jeqb svc (js "svc") && jeqb cluster (js "cluster") && jeqb local (js "local")
    | _ => false
    end in
  match split_on 46 hostname with
  | l1 :: l2 :: ls => pod l1 && jeqb l2 (name ++ js "-headless") && tail ls
  | _ => false
  end.

Section endpoint.
(** [new URL(text)]: [None] when it throws. *)
Variable IntrinsicURL : jstr → option url_parts.

Definition validOwnerEndpointForService (endpoint : jsval) (port : Z) (serviceName : service) : bool :=
  match endpoint with
  | JStr [] => false
  | JStr endpoint =>
      if INVALID_OWNER_ENDPOINT_RE endpoint then false
      else match IntrinsicURL (js "http://" ++ endpoint) with
           | None => false
           | Some url =>
               if negb (jeqb (url_host url) endpoint) || negb (jeqb (url_username url) [])
                  || negb (jeqb (url_password url) []) || negb (jeqb (url_pathname url) (js "/"))
                  || negb (jeqb (url_search url) []) || negb (jeqb (url_hash url) [])
               then false
               else if negb (jeqb (url_port url) (string_of_Z port)) then false
               else OWNER_ENDPOINT_SERVICE_RE serviceName (url_hostname url)
                    || OWNER_ENDPOINT_HEADLESS_RE serviceName (url_hostname url)
                    || acceptablePrivateIpv4 (url_hostname url)
           end
  | _ => false
  end.
End endpoint.

(** ** Lemmas *)

Lemma canonical_decimal_digits s : CANONICAL_POSITIVE_DECIMAL s = true → Forall (λ c, is_digit c = true) s.
Proof.
  destruct s as [|c r]; [done|]. cbn [CANONICAL_POSITIVE_DECIMAL]. intros H. to_prop.
  constructor; [done|]. by apply forallb_Forall.
Qed.

Lemma string_of_nonneg_cases n : 0 <= n →
  string_of_nonneg n = js "0" ∧ n = 0 ∨ CANONICAL_POSITIVE_DECIMAL (string_of_nonneg n) = true ∧ 0 < n.
Proof.
  intros Hn. destruct (decide (n = 0)) as [->|]; [by left|]. right. split; [|lia].
  destruct (string_of_nonneg_head n) as (d & r & E & Hd); [lia|].
  pose proof (string_of_nonneg_digits n Hn) as Hds. rewrite E in *. apply Forall_cons in Hds as [H1 H2].
  cbn [CANONICAL_POSITIVE_DECIMAL]. rewrite H1, (proj2 (Z.eqb_neq d 48)) by lia. cbn [andb negb].
  by apply forallb_Forall.
Qed.

Lemma digits_no_space s : Forall (λ c, is_digit c = true) s → trim s = s.
Proof.
  intros H. assert (∀ t, Forall (λ c, is_digit c = true) t → drop_while is_space t = t) as Hd.
  { intros t Ht. destruct t as [|c r]; [done|]. apply Forall_cons in Ht as [Hc _].
    unfold is_digit in Hc. to_prop. cbn [drop_while]. unfold is_space.
    repeat match goal with
    | |- context [c =? ?k] => rewrite (proj2 (Z.eqb_neq c k)) by lia
    end.
    rewrite (proj2 (Z.leb_gt c 13)), (proj2 (Z.leb_gt 8192 c)) by lia. by rewrite andb_false_r. }
  unfold trim, trim_end. rewrite (Hd s H), Hd, rev_involutive by by apply Forall_rev. done.
Qed.

(** A digit string without sign denotes the double nearest to its value. *)
Lemma string_to_number_digits s :
  s ≠ [] → Forall (λ c, is_digit c = true) s → string_to_number s = to_double (dec_value 0 s) 1.
Proof.
  intros Hne Hs. unfold string_to_number. rewrite digits_no_space by done.
  destruct s as [|c r]; [done|]. pose proof (proj1 (Forall_cons _ _ _) Hs) as [Hc Hr].
  assert (48 <= c <= 57) by (unfold is_digit in Hc; to_prop; lia).
  assert (radix_literal (c :: r) = None) as ->.
  { destruct r as [|x [|y r]]; [done..|]. cbn [radix_literal]. apply Forall_cons in Hr as [Hx _].
    unfold is_digit in Hx. to_prop.
    destruct (c =? 48); [|done]. cbn [negb]. by rewrite !(proj2 (Z.eqb_neq x _)) by lia. }
  rewrite (proj2 (Z.eqb_neq c 45)), (proj2 (Z.eqb_neq c 43)) by lia.
  unfold decimal_literal. rewrite (proj2 (jeqb_neq _ _)).
  2:{ intros E. change (js "Infinity") with (73 :: js "nfinity") in E. injection E. lia. }
  rewrite <- (app_nil_r (c :: r)) at 1. rewrite span_digits_app by done.
  cbv iota. rewrite app_nil_r. rewrite bool_decide_eq_false_2 by done. cbn [parse_exponent].
  unfold literal_value. rewrite app_nil_r. change (jlen []) with 0. change (0 <=? 0 - 0) with true. cbv iota.
  by rewrite Z.mul_1_r.
Qed.

Lemma generation_text g : 0 <= g <= MAX_SAFE_INTEGER →
  parseOwnerGenerationCounter (JStr (string_of_nonneg g)) = Ok g.
Proof.
  intros Hg. pose proof (string_of_nonneg_cases g ltac:(lia)) as Hc.
  pose proof (string_of_nonneg_digits g ltac:(lia)) as Hd.
  assert (string_of_nonneg g ≠ []) as Hne.
  { destruct Hc as [[-> _]|[Hc _]]; [done|]. by intros E; rewrite E in Hc. }
  assert (OWNER_GENERATION_COUNTER (string_of_nonneg g) = true) as Ho.
  { unfold OWNER_GENERATION_COUNTER. destruct Hc as [[-> _]|[-> _]]; [done | by rewrite orb_true_r]. }
  unfold parseOwnerGenerationCounter. rewrite Ho, (proj2 (jeqb_neq _ _) Hne), string_to_number_digits by done.
  rewrite dec_value_string_of_nonneg, to_double_safe by lia. unfold is_safe_integer.
  rewrite (proj2 (Z.leb_le _ _)), (proj2 (Z.leb_le _ _)) by lia.
  destruct (string_of_nonneg g); done.
Qed.

Lemma counter_range raw n : parseOwnerGenerationCounter raw = Ok n → 0 <= n <= MAX_SAFE_INTEGER.
Proof.
  assert (0 <= 0 <= MAX_SAFE_INTEGER) as H0 by (unfold MAX_SAFE_INTEGER; lia).
  assert (∀ t, (if jeqb t [] then Ok 0
      else if negb (OWNER_GENERATION_COUNTER t) then Err CorruptCounter
      else match string_to_number t with
           | NInt parsed => if is_safe_integer parsed then Ok parsed else Err CorruptCounter
           | _ => Err CorruptCounter
           end) = Ok n → 0 <= n <= MAX_SAFE_INTEGER) as Ht.
  { intros t. destruct (jeqb t []) eqn:Et; [by intros <-%Ok_inj|].
    destruct (OWNER_GENERATION_COUNTER t) eqn:Eo; [|done]. cbn [negb]. apply jeqb_neq in Et.
    assert (Forall (λ c, is_digit c = true) t) as Hd.
    { unfold OWNER_GENERATION_COUNTER in Eo. to_prop.
      destruct Eo as [->%jeqb_eq|?%canonical_decimal_digits]; [|done]. by repeat constructor. }
    rewrite string_to_number_digits by done. intros H.
    assert (0 <= dec_value 0 t) as Hpos.
    { clear -Hd. assert (∀ a, 0 <= a → 0 <= dec_value a t) as Hg; [|by apply Hg].
      induction Hd as [|c t Hc _ IH]; intros a Ha; [done|]. cbn [dec_value]. apply IH.
      unfold is_digit in Hc. to_prop. lia. }
    unfold is_safe_integer in H. destruct (Z.leb_spec (dec_value 0 t) MAX_SAFE_INTEGER).
    - rewrite to_double_safe in H by lia. destruct (_ && _); [|done]. apply Ok_inj in H. lia.
    - destruct (to_double (dec_value 0 t) 1) eqn:E; try done. destruct (_ && _) eqn:Eb; [|done].
      apply Ok_inj in H as <-. to_prop. split; [|done]. by apply (to_double_nonneg _ _ _ Hpos) in E. }
  destruct raw as [| | |n0|s|b| |]; cbn [parseOwnerGenerationCounter]; try (by intros <-%Ok_inj); try done.
  - destruct n0; try done. destruct (_ && _) eqn:Eb; [|done]. intros <-%Ok_inj.
    unfold is_safe_integer in Eb. to_prop. lia.
  - destruct s; [by intros <-%Ok_inj | apply Ht].
  - apply Ht.
Qed.

Lemma next_generation_spec raw cur g : 0 <= cur →
  nextOwnerGenerationFromSnapshot raw cur = Ok g →
  ∃ counter, parseOwnerGenerationCounter raw = Ok counter ∧
             g = Z.max counter cur + 1 ∧ 0 < g <= MAX_SAFE_INTEGER.
Proof.
  intros Hc H. apply rbind_Ok_inv in H as (c & Hp & H). pose proof (counter_range _ _ Hp).
  cbv zeta in H. destruct (negb _ || _) eqn:E; [done|]. apply Ok_inj in H as <-. to_prop.
  exists c. split; [done|]. lia.
Qed.

Lemma lease_expires_spec now ttl v : ownerLeaseExpiresAt now ttl = Ok v →
  v = Z.min MAX_SAFE_INTEGER (now + ttl * 1000) ∧ 0 <= now ∧ 0 < ttl ∧ 0 < v.
Proof.
  unfold ownerLeaseExpiresAt. destruct (negb (is_safe_integer now) || _) eqn:E1; [done|].
  destruct (_ || _ || _) eqn:E2; [done|]. intros <-%Ok_inj. to_prop. unfold MAX_SAFE_INTEGER. lia.
Qed.

(** *** Keys *)

Lemma uri_byte_no_colon b : 0 <= b < 256 → 58 ∉ encode_uri_byte b.
Proof.
  intros Hb. unfold encode_uri_byte. destruct (uri_unreserved b) eqn:E.
  - intros <-%list_elem_of_singleton. by vm_compute in E.
  - rewrite !not_elem_of_cons. unfold upper_hex.
    pose proof (Z.div_lt_upper_bound b 16 16 ltac:(lia) ltac:(lia)). pose proof (Z.div_pos b 16).
    pose proof (Z.mod_pos_bound b 16 ltac:(lia)).
    destruct (Z.ltb_spec (b / 16) 10), (Z.ltb_spec (b mod 16) 10);
      (split; [done|]); (split; [lia|]); (split; [lia | by apply not_elem_of_nil]).
Qed.

Lemma encodeURIComponent_no_colon s : Forall is_unit s → 58 ∉ encodeURIComponent s.
Proof.
  intros Hs. apply utf8_encode_bytes in Hs. unfold encodeURIComponent.
  induction Hs as [|b l Hb _ IH]; cbn [flat_map]; [by apply not_elem_of_nil|].
  apply not_elem_of_app. split; [by apply uri_byte_no_colon | done].
Qed.

Lemma encode_uri_bytes_inj a b :
  Forall is_byte a → Forall is_byte b → flat_map encode_uri_byte a = flat_map encode_uri_byte b → a = b.
Proof.
  intros Ha. revert b. induction Ha as [|x a Hx _ IH]; intros b Hb; destruct Hb as [|y b Hy Hb]; cbn [flat_map].
  - done.
  - unfold encode_uri_byte. by destruct (uri_unreserved y).
  - unfold encode_uri_byte. by destruct (uri_unreserved x).
  - unfold is_byte in *. unfold encode_uri_byte at 1 3.
    assert (uri_unreserved 37 = false) as H37 by done.
    assert (∀ n, 0 <= n < 256 → 0 <= n / 16 < 16 ∧ 0 <= n mod 16 < 16) as Hr.
    { intros n Hn. split; [|by apply Z.mod_pos_bound]. split; [apply Z.div_pos; lia|].
      apply Z.div_lt_upper_bound; lia. }
    assert (∀ m n, 0 <= m < 16 → 0 <= n < 16 → upper_hex m = upper_hex n → m = n) as Hu.
    { intros m n ? ?. unfold upper_hex. destruct (Z.ltb_spec m 10), (Z.ltb_spec n 10); lia. }
    destruct (uri_unreserved x) eqn:Ex, (uri_unreserved y) eqn:Ey; cbn [app]; intros H; injection H as H.
    + subst. f_equal. by apply IH.
    + subst. by rewrite H37 in Ex.
    + subst. by rewrite H37 in Ey.
    + apply Hu in H; [|by apply Hr..]. apply Hu in H0; [|by apply Hr..].
      f_equal; [|by apply IH]. rewrite (Z.div_mod x 16), (Z.div_mod y 16) by lia. by rewrite H, H0.
Qed.

Lemma encodeURIComponent_inj a b :
  Forall (λ c, 0 <= c < 0x80) a → Forall (λ c, 0 <= c < 0x80) b →
  encodeURIComponent a = encodeURIComponent b → a = b.
Proof.
  intros Ha Hb. unfold encodeURIComponent. rewrite !utf8_encode_ascii by done.
  apply encode_uri_bytes_inj; (eapply Forall_impl; [done|]); unfold is_byte; simpl; lia.
Qed.

Lemma ascii_units s : Forall (λ c, 0 <= c < 0x80) s → Forall is_unit s.
Proof. intros H. eapply Forall_impl; [done|]. unfold is_unit. simpl. lia. Qed.

Lemma generation_key_not_owner_key prefix a b :
  Forall is_unit a → Forall is_unit b → ownerScopedKey prefix a ≠ ownerGenerationScopedKey prefix b.
Proof.
  intros Ha Hb H. unfold ownerGenerationScopedKey, ownerScopedKey in H. rewrite <- app_assoc in H.
  apply app_inv_head in H. apply (encodeURIComponent_no_colon a Ha). rewrite H.
  apply elem_of_app. right. by left.
Qed.

(** *** Private addresses *)

Lemma canonical_decimal_print s :
  CANONICAL_POSITIVE_DECIMAL s = true ∨ s = js "0" → s = string_of_nonneg (dec_value 0 s) ∧ 0 <= dec_value 0 s.
Proof.
  intros [H| ->]; [|done]. pose proof (canonical_decimal_digits _ H) as Hd.
  destruct s as [|c r]; [done|]. cbn [CANONICAL_POSITIVE_DECIMAL] in H. apply Forall_cons in Hd as [Hc Hr].
  unfold is_digit in Hc. to_prop.
  pose proof (dec_value_length_bound (c - 48) r ltac:(lia) Hr) as Hb.
  assert (1 <= dec_value 0 (c :: r)) as Hpos.
  { change (dec_value 0 (c :: r)) with (dec_value (c - 48) r).
    assert (0 < 10 ^ jlen r) by (apply Z.pow_pos_nonneg; unfold jlen; lia). nia. }
  split; [|lia]. destruct (string_of_nonneg_head _ Hpos) as (d & t & E & Hdr). rewrite E.
  pose proof (string_of_nonneg_digits (dec_value 0 (c :: r)) ltac:(lia)) as Ht. rewrite E in Ht.
  apply Forall_cons in Ht as [_ Ht]. apply dec_value_inj_nonzero; try done; [lia|].
  rewrite <- E. by rewrite dec_value_string_of_nonneg by lia.
Qed.

Lemma octet_re_spec s : IPV4_OCTET_RE s = true → CANONICAL_POSITIVE_DECIMAL s = true ∨ s = js "0".
Proof.
  destruct s as [|c r]; [done|]. cbn [IPV4_OCTET_RE CANONICAL_POSITIVE_DECIMAL]. intros H. to_prop.
  destruct H as [H%jeqb_eq|H]; [by right|]. left. by apply andb_prop in H as [-> _].
Qed.

(** An octet's decimal text. *)
Definition octet (n : Z) (s : jstr) : Prop := 0 <= n <= 255 ∧ s = string_of_nonneg n.

Lemma octet_text n : 0 <= n <= 255 → IPV4_OCTET_RE (string_of_nonneg n) = true ∧ 46 ∉ string_of_nonneg n.
Proof.
  intros Hn. assert (forallb (λ k, IPV4_OCTET_RE (string_of_nonneg (Z.of_nat k)) &&
    negb (includes_unit 46 (string_of_nonneg (Z.of_nat k)))) (seq 0 256) = true) as H by (vm_compute; reflexivity).
  rewrite forallb_forall in H. specialize (H (Z.to_nat n)). rewrite Z2Nat.id in H by lia.
  rewrite in_seq in H. specialize (H ltac:(lia)). to_prop. split; [done | by apply includes_unit_false].
Qed.

Lemma ipv4Octets_spec parts octets : ipv4Octets parts = Some octets ↔ Forall2 octet octets parts.
Proof.
  revert octets. induction parts as [|p r IH]; intros octets; cbn [ipv4Octets].
  - split; [by intros [= <-] | by inversion 1].
  - split.
    + destruct (IPV4_OCTET_RE p) eqn:E; [|done]. cbn [negb]. destruct (_ || _) eqn:Er; [done|].
      destruct (ipv4Octets r) as [os|] eqn:Eo; [|done]. intros [= <-]. to_prop.
      apply octet_re_spec, canonical_decimal_print in E as [E _].
      constructor; [split; [lia | done] | by apply IH].
    + intros H. inversion H as [|n ? os ? [Hn ->] Hos]; subst. apply IH in Hos.
      destruct (octet_text n Hn) as [-> _]. cbn [negb]. rewrite dec_value_string_of_nonneg by lia.
      rewrite (proj2 (Z.ltb_ge _ _)), (proj2 (Z.ltb_ge _ _)) by lia. cbn [orb]. by rewrite Hos.
Qed.

(** ** Properties *)

(** The Redis keys of the owner protocol never collide: for ASCII scopes, two owner keys or
    two generation keys are equal only for the same scope, and no owner key is a generation
    key of any scope. *)
Lemma owner_keys_disjoint (prefix a b : jstr)
    (Ha : Forall (λ c, 0 <= c < 0x80) a) (Hb : Forall (λ c, 0 <= c < 0x80) b) :
  (ownerKey (ownerProtocolKeys prefix a) = ownerKey (ownerProtocolKeys prefix b) → a = b) ∧
  (generationKey (ownerProtocolKeys prefix a) = generationKey (ownerProtocolKeys prefix b) → a = b) ∧
  ownerKey (ownerProtocolKeys prefix a) ≠ generationKey (ownerProtocolKeys prefix b).
Proof.
  cbn [ownerProtocolKeys ownerKey generationKey]. split; [|split].
  - intros H%app_inv_head. by apply encodeURIComponent_inj.
  - intros H%app_inv_tail%app_inv_head. by apply encodeURIComponent_inj.
  - apply generation_key_not_owner_key; by apply ascii_units.
Qed.

(** The generation a claim takes is a positive safe integer strictly above both the
    stored counter and the generation of the record it replaces, and the text it stores is
    read back as that same counter, so the next claim starts above it. *)
Lemma next_generation_fences (raw : jsval) (currentGeneration g : Z)
    (Hc : 0 <= currentGeneration)
    (H : nextOwnerGenerationFromSnapshot raw currentGeneration = Ok g) :
  currentGeneration < g <= MAX_SAFE_INTEGER ∧
  (∃ counter, parseOwnerGenerationCounter raw = Ok counter ∧ counter < g) ∧
  parseOwnerGenerationCounter (JStr (string_of_nonneg g)) = Ok g ∧
  ∀ cur g', 0 <= cur → nextOwnerGenerationFromSnapshot (JStr (string_of_nonneg g)) cur = Ok g' → g < g'.
Proof.
  destruct (next_generation_spec _ _ _ Hc H) as (c & Hp & -> & Hg).
  pose proof (generation_text (Z.max c currentGeneration + 1) ltac:(lia)) as Ht.
  split; [lia|]. split; [eauto with lia|]. split; [done|].
  intros cur g' Hcur H'. destruct (next_generation_spec _ _ _ Hcur H') as (c' & Hp' & -> & _).
  rewrite Ht in Hp'. apply Ok_inj in Hp' as <-. lia.
Qed.

(** A host name is accepted as a private address exactly when it is the canonical
    dotted-quad text of an address in 10/8, 100.64/10, 172.16/12 or 192.168/16: no other
    spelling of an address (leading zeros, hexadecimal, fewer parts) and no public address
    is ever contacted as an owner. *)
Lemma private_ipv4_exact (hostname : jstr) :
  acceptablePrivateIpv4 hostname = true ↔
  ∃ a b c d, Forall (λ n, 0 <= n <= 255) [a; b; c; d] ∧
    hostname = join_with 46 (map string_of_nonneg [a; b; c; d]) ∧
    (a = 10 ∨ (a = 100 ∧ 64 <= b <= 127) ∨ (a = 172 ∧ 16 <= b <= 31) ∨ (a = 192 ∧ b = 168)).
Proof.
  unfold acceptablePrivateIpv4. split.
  - destruct (negb (length (split_on 46 hostname) =? 4)%nat) eqn:El; [done|].
    apply negb_false_iff, Nat.eqb_eq in El. destruct (ipv4Octets _) as [os|] eqn:Eo; [|done].
    apply ipv4Octets_spec in Eo. pose proof (Forall2_length _ _ _ Eo) as Hl. rewrite El in Hl.
    destruct os as [|a [|b [|c [|d [|]]]]]; try done. intros H. exists a, b, c, d.
    rewrite <- (join_split 46 hostname). inversion Eo as [|? ? ? ? [Ha Ea] E1]; subst.
    inversion E1 as [|? ? ? ? [Hb Eb] E2]; subst. inversion E2 as [|? ? ? ? [Hcc Ec] E3]; subst.
    inversion E3 as [|? ? ? ? [Hd Ed] E4]; subst. inversion E4; subst.
    split; [by repeat (apply Forall_cons; split; [done|])|]. split; [done|]. to_prop.
    repeat match goal with H : _ ∨ _ |- _ => destruct H end; to_prop; lia.
  - intros (a & b & c & d & Hr & -> & Hp).
    assert (split_on 46 (join_with 46 (map string_of_nonneg [a; b; c; d])) = map string_of_nonneg [a; b; c; d]) as ->.
    { apply split_join; [done|]. apply Forall_map. eapply Forall_impl; [exact Hr|]. intros n Hn. by apply octet_text. }
    rewrite length_map. cbn [length Nat.eqb negb].
    assert (ipv4Octets (map string_of_nonneg [a; b; c; d]) = Some [a; b; c; d]) as ->.
    { apply ipv4Octets_spec. rewrite !Forall_cons in Hr. destruct Hr as (? & ? & ? & ? & _).
      repeat (constructor; [by split|]). constructor. }
    apply orb_true_iff. rewrite !orb_true_iff, !andb_true_iff, !Z.eqb_eq, !Z.leb_le. tauto.
Qed.
