(* ===== verification/Hash.v ===== *)
(** * FNV-1a hashes (src/shared/fnv1a32.js), on the language's 32-bit integers. *)

From stdpp Require Import base list.
From Stdlib Require Import ZArith Lia.
From S2P Require Import Prelude Utf8.

#[local] Open Scope Z_scope.

(** [ToInt32] and [ToUint32]. *)
Definition to_int32 (z : Z) : Z := (z + 2 ^ 31) mod 2 ^ 32 - 2 ^ 31.
Definition to_uint32 (z : Z) : Z := z mod 2 ^ 32.

Definition bit_xor (a b : Z) : Z := Z.lxor (to_int32 a) (to_int32 b).
Definition Math_imul (a b : Z) : Z := to_int32 (to_int32 a * to_int32 b).

Definition fnv_step (hash unit : Z) : Z := Math_imul (bit_xor hash unit) 16777619.

Definition fnv1a32Utf8 (value : jstr) : Z := to_uint32 (fold_left fnv_step (utf8_encode value) 2166136261).
Definition fnv1a32CodeUnits (value : jstr) : Z := to_uint32 (fold_left fnv_step value 2166136261).

Example fnv1a32_vector : map fnv1a32Utf8 [[]; [97]; [102; 111; 111; 98; 97; 114]] = [0x811c9dc5; 0xe40c292c; 0xbf9cf968].
Proof. vm_compute. reflexivity. Qed.

(** The hash over code units and the hash over UTF-8 bytes agree on ASCII text, and both
    are 32-bit unsigned integers. *)
Lemma fnv1a32_ascii (value : jstr) (H : Forall (λ c, 0 <= c < 0x80) value) :
  fnv1a32CodeUnits value = fnv1a32Utf8 value ∧ 0 <= fnv1a32CodeUnits value < 2 ^ 32.
Proof.
  unfold fnv1a32CodeUnits, fnv1a32Utf8. rewrite utf8_encode_ascii by done.
  split; [done|]. apply Z.mod_pos_bound. lia.
Qed.
