(* ===== verification/Redis.v ===== *)
(** * Redis as the owner protocol uses it, and tasks that talk to it

    The server is not part of the repository: [RedisServer] states the documented behaviour
    of the commands the protocol sends (GET, TIME, SET with EX and IFEQ, DEL, DELIFEQ and the
    renewal script, which runs atomically) and
    [redis_store] is a concrete server that satisfies it. WATCH, MULTI and EXEC are rules of
    the step relation: EXEC may only run when no watched key was written or has expired since
    WATCH, and may always be refused.

    A handler of the sources is a [prog]: synchronous code on the task's local state between
    awaited commands. The world interleaves the commands of all the handlers of all the tasks
    with the passing of time; a command may be executed and its reply lost, or never arrive. *)

From stdpp Require Import base list strings gmap.
From Stdlib Require Import ZArith Lia.
From S2P Require Import Prelude.

#[local] Open Scope Z_scope.

Abbreviation bytes := (list Z).

(** ** The server *)

Definition ttl_ok (ttl : option Z) : Prop := match ttl with Some s => 0 < s | None => True end.

Class RedisServer (Db : Type) := {
  r_get : jstr → Db → option bytes;
  (** TIME, in milliseconds. *)
  r_time : Db → Z;
  (** When a key expires. *)
  r_deadline : jstr → Db → option Z;
  (** SET key value [EX seconds]. *)
  r_set : jstr → bytes → option Z → Db → Db;
  r_del : jstr → Db → Db;
  (** Time passes and keys expire. *)
  r_wait : Db → Db → Prop;
  r_get_set k v ttl db k' : ttl_ok ttl →
    r_get k' (r_set k v ttl db) = if decide (k = k') then Some v else r_get k' db;
  r_get_del k db k' : r_get k' (r_del k db) = if decide (k = k') then None else r_get k' db;
  r_time_set k v ttl db : r_time (r_set k v ttl db) = r_time db;
  r_time_del k db : r_time (r_del k db) = r_time db;
  r_deadline_set k v ttl db k' :
    r_deadline k' (r_set k v ttl db) =
    if decide (k = k') then (λ s, r_time db + 1000 * s) <$> ttl else r_deadline k' db;
  r_deadline_del k db k' : k ≠ k' → r_deadline k' (r_del k db) = r_deadline k' db;
  r_wait_time db db' : r_wait db db' → r_time db <= r_time db';
  r_wait_get db db' k : r_wait db db' →
    (r_get k db' = r_get k db ∧ r_deadline k db' = r_deadline k db) ∨
    (r_get k db' = None ∧ ∃ t, r_deadline k db = Some t ∧ t <= r_time db') }.

(** ** Commands and programs *)

Inductive write := WSet (k : jstr) (v : bytes) (ttl : option Z) | WDel (k : jstr).

Inductive cmd :=
| CGet (k : jstr)
| CTime
| CSetIfEq (k : jstr) (v : bytes) (ttl : Z) (expected : bytes)
| CDelIfEq (k : jstr) (expected : bytes)
(** EVAL of the renewal script of src/do-runtime/owner-registry.js. *)
| CRenewFenced (k fk : jstr) (expected fence v : bytes) (ttl : Z)
| CWatch (ks : list jstr)
| CUnwatch
| CExec (ws : list write).

Inductive reply :=
| RBulk (v : option bytes)
| RInt (n : Z)
| ROk
| RNull
| RFail.

(** What a handler throws. [OutOfFuel] marks a recursion cut short by the model. *)
Inductive jserr :=
| ProtocolError (status : Z) (code : jstr)
| WatchError
| RedisError
| PlainError
| OutOfFuel.

#[export] Instance jserr_eq_dec : EqDecision jserr.
Proof. solve_decision. Defined.

Inductive prog (L A : Type) :=
| PRet (r : result jserr A)
| PDo (c : cmd) (k : reply → prog L A)
| PGet (k : L → prog L A)
| PPut (l : L) (p : prog L A).
Arguments PRet {L A} r.
Arguments PDo {L A} c k.
Arguments PGet {L A} k.
Arguments PPut {L A} l p.

Section programs.
Context {L : Type}.

Fixpoint pbind {A B} (p : prog L A) (f : A → prog L B) : prog L B :=
  match p with
  | PRet (Ok a) => f a
  | PRet (Err e) => PRet (Err e)
  | PDo c k => PDo c (λ r, pbind (k r) f)
  | PGet k => PGet (λ l, pbind (k l) f)
  | PPut l p => PPut l (pbind p f)
  end.

(** [try { p } catch (e) { h e }] *)
Fixpoint pcatch {A} (p : prog L A) (h : jserr → prog L A) : prog L A :=
  match p with
  | PRet (Ok a) => PRet (Ok a)
  | PRet (Err e) => h e
  | PDo c k => PDo c (λ r, pcatch (k r) h)
  | PGet k => PGet (λ l, pcatch (k l) h)
  | PPut l p => PPut l (pcatch p h)
  end.

Definition pret {A} (a : A) : prog L A := PRet (Ok a).
Definition pthrow {A} (e : jserr) : prog L A := PRet (Err e).
Definition plift {A} (r : result jserr A) : prog L A := PRet r.
Definition pmodify (f : L → L) : prog L unit := PGet (λ l, PPut (f l) (pret tt)).
Definition pread {A} (f : L → A) : prog L A := PGet (λ l, pret (f l)).

Definition redis_get (k : jstr) : prog L (option bytes) :=
  PDo (CGet k) (λ r, match r with RBulk v => pret v | _ => pthrow RedisError end).

Definition redis_time : prog L Z :=
  PDo CTime (λ r, match r with RInt n => pret n | _ => pthrow RedisError end).

Definition redis_set_ifeq (k : jstr) (v : bytes) (ttl : Z) (expected : bytes) : prog L bool :=
  PDo (CSetIfEq k v ttl expected)
    (λ r, match r with ROk => pret true | RNull => pret false | _ => pthrow RedisError end).

Definition redis_del_ifeq (k : jstr) (expected : bytes) : prog L Z :=
  PDo (CDelIfEq k expected) (λ r, match r with RInt n => pret n | _ => pthrow RedisError end).

(** The script replies 1 (renewed), 0 (another record) or -1 (another fence value). *)
Definition redis_renew_fenced (k fk : jstr) (expected fence v : bytes) (ttl : Z) : prog L Z :=
  PDo (CRenewFenced k fk expected fence v ttl)
    (λ r, match r with RInt n => pret n | _ => pthrow RedisError end).

Definition session_watch (ks : list jstr) : prog L unit :=
  PDo (CWatch ks) (λ r, match r with ROk => pret tt | _ => pthrow RedisError end).

Definition session_unwatch : prog L unit :=
  PDo CUnwatch (λ r, match r with ROk => pret tt | _ => pthrow RedisError end).

(** [multi.exec()]: a refused transaction replies null, which the client turns into a
    [WatchError]. *)
Definition session_exec (ws : list write) : prog L unit :=
  PDo (CExec ws)
    (λ r, match r with ROk => pret tt | RNull => pthrow WatchError | _ => pthrow RedisError end).

(** Synchronous code runs up to the next awaited command. *)
Fixpoint run_local {A} (l : L) (p : prog L A) : L * prog L A :=
  match p with
  | PGet k => run_local l (k l)
  | PPut l' p => run_local l' p
  | _ => (l, p)
  end.
End programs.

Notation "'let*' x ':=' p 'in' k" := (pbind p (λ x, k))
  (at level 10, x pattern, k at level 200) : wdl_scope.

(** ** Worlds *)

Section worlds.
Context {Db : Type} `{!RedisServer Db} {L A : Type}.

Inductive running :=
| Run (p : prog L A)
| Got (r : reply) (k : reply → prog L A).

(** [p_watch] holds the watched keys with the number of writes they had seen. *)
Record proc := Proc { p_task : nat; p_watch : option (list (jstr * nat)); p_run : running }.

Record world := World {
  w_db : Db;
  w_writes : jstr → nat;
  w_tasks : nat → L;
  w_procs : gmap nat proc }.

Definition apply_write (db : Db) (w : write) : Db :=
  match w with WSet k v ttl => r_set k v ttl db | WDel k => r_del k db end.

Definition apply_writes (ws : list write) (db : Db) : Db := fold_left apply_write ws db.

(** Keys a transaction certainly modifies: deleting an absent key modifies nothing. *)
Definition modified (ws : list write) (db : Db) : list jstr :=
  flat_map (λ w, match w with
                 | WSet k _ _ => [k]
                 | WDel k => match r_get k db with Some _ => [k] | None => [] end
                 end) ws.

Definition bump (ks : list jstr) (n : jstr → nat) : jstr → nat :=
  λ k, if decide (k ∈ ks) then S (n k) else n k.

(** The expiry of a watched key makes EXEC fail, as a write does. *)
Definition bump_expired (db db' : Db) (n : jstr → nat) : jstr → nat :=
  λ k, match r_get k db, r_get k db' with Some _, None => S (n k) | _, _ => n k end.

Definition watch_valid (p : option (list (jstr * nat))) (n : jstr → nat) : Prop :=
  match p with Some l => Forall (λ kn, n kn.1 = kn.2) l | None => True end.

(** One command at the server: the new database, the modified keys and the reply. *)
Inductive serve (db : Db) : cmd → Db → list jstr → reply → Prop :=
| serve_get k : serve db (CGet k) db [] (RBulk (r_get k db))
| serve_time : serve db CTime db [] (RInt (r_time db))
| serve_set_ok k v ttl e : r_get k db = Some e → serve db (CSetIfEq k v ttl e) (r_set k v (Some ttl) db) [k] ROk
| serve_set_no k v ttl e : r_get k db ≠ Some e → serve db (CSetIfEq k v ttl e) db [] RNull
| serve_del_ok k e : r_get k db = Some e → serve db (CDelIfEq k e) (r_del k db) [k] (RInt 1)
| serve_del_no k e : r_get k db ≠ Some e → serve db (CDelIfEq k e) db [] (RInt 0)
| serve_renew_ok k fk e f v ttl : r_get k db = Some e → r_get fk db = Some f →
    serve db (CRenewFenced k fk e f v ttl) (r_set k v (Some ttl) db) [k] (RInt 1)
| serve_renew_owner k fk e f v ttl : r_get k db ≠ Some e → serve db (CRenewFenced k fk e f v ttl) db [] (RInt 0)
| serve_renew_fence k fk e f v ttl : r_get k db = Some e → r_get fk db ≠ Some f →
    serve db (CRenewFenced k fk e f v ttl) db [] (RInt (-1))
| serve_watch ks : serve db (CWatch ks) db [] ROk
| serve_unwatch : serve db CUnwatch db [] ROk
| serve_exec ws : serve db (CExec ws) (apply_writes ws db) (modified ws db) ROk
| serve_refused ws : serve db (CExec ws) db [] RNull.

Definition is_exec_ok (c : cmd) (r : reply) : bool :=
  match c, r with CExec _, ROk => true | _, _ => false end.

(** WATCH starts a session's watch, UNWATCH and EXEC end it. *)
Definition watch_after (c : cmd) (writes : jstr → nat) (p : option (list (jstr * nat)))
    : option (list (jstr * nat)) :=
  match c with
  | CWatch ks => Some (map (λ k, (k, writes k)) ks)
  | CUnwatch | CExec _ => None
  | _ => p
  end.

Definition set_task (t : nat) (l : L) (tasks : nat → L) : nat → L :=
  λ t', if decide (t = t') then l else tasks t'.

(** [api t p]: task [t] may start the handler [p]. [tick]: what else changes a task's local
    state (its clock). *)
Variable api : nat → prog L A → Prop.
Variable tick : L → L → Prop.

(** A step is labelled with the command the server executed and the task it came from. *)
Inductive wstep (w : world) : option (nat * cmd * reply) → world → Prop :=
| step_start pid t p :
    w_procs w !! pid = None → api t p →
    wstep w None (World (w_db w) (w_writes w) (w_tasks w)
                    (<[pid := Proc t None (Run p)]> (w_procs w)))
| step_serve pid t pw c k db ms r :
    w_procs w !! pid = Some (Proc t pw (Run (PDo c k))) →
    serve (w_db w) c db ms r →
    (is_exec_ok c r = true → watch_valid pw (w_writes w)) →
    wstep w (Some (t, c, r))
      (World db (bump ms (w_writes w)) (w_tasks w)
         (<[pid := Proc t (watch_after c (w_writes w) pw) (Got r k)]> (w_procs w)))
| step_lose pid t pw r k :
    w_procs w !! pid = Some (Proc t pw (Got r k)) →
    wstep w None (World (w_db w) (w_writes w) (w_tasks w)
                    (<[pid := Proc t pw (Got RFail k)]> (w_procs w)))
| step_drop pid t pw c k :
    w_procs w !! pid = Some (Proc t pw (Run (PDo c k))) →
    wstep w None (World (w_db w) (w_writes w) (w_tasks w)
                    (<[pid := Proc t pw (Got RFail k)]> (w_procs w)))
| step_reply pid t pw r k l p :
    w_procs w !! pid = Some (Proc t pw (Got r k)) →
    run_local (w_tasks w t) (k r) = (l, p) →
    wstep w None (World (w_db w) (w_writes w) (set_task t l (w_tasks w))
                    (<[pid := Proc t pw (Run p)]> (w_procs w)))
| step_sync pid t pw q l p :
    w_procs w !! pid = Some (Proc t pw (Run q)) →
    run_local (w_tasks w t) q = (l, p) →
    wstep w None (World (w_db w) (w_writes w) (set_task t l (w_tasks w))
                    (<[pid := Proc t pw (Run p)]> (w_procs w)))
| step_wait db :
    r_wait (w_db w) db →
    wstep w None (World db (bump_expired (w_db w) db (w_writes w)) (w_tasks w) (w_procs w))
| step_tick t l :
    tick (w_tasks w t) l →
    wstep w None (World (w_db w) (w_writes w) (set_task t l (w_tasks w)) (w_procs w)).

(** ** Running a schedule *)

(** A server that refuses a transaction only when a watched key was written. *)
Definition serve_now (db : Db) (valid : bool) (c : cmd) : Db * list jstr * reply :=
  match c with
  | CGet k => (db, [], RBulk (r_get k db))
  | CTime => (db, [], RInt (r_time db))
  | CSetIfEq k v ttl e =>
      if decide (r_get k db = Some e) then (r_set k v (Some ttl) db, [k], ROk) else (db, [], RNull)
  | CDelIfEq k e =>
      if decide (r_get k db = Some e) then (r_del k db, [k], RInt 1) else (db, [], RInt 0)
  | CRenewFenced k fk e f v ttl =>
      if decide (r_get k db = Some e) then
        if decide (r_get fk db = Some f) then (r_set k v (Some ttl) db, [k], RInt 1) else (db, [], RInt (-1))
      else (db, [], RInt 0)
  | CWatch _ | CUnwatch => (db, [], ROk)
  | CExec ws => if valid then (apply_writes ws db, modified ws db, ROk) else (db, [], RNull)
  end.

#[export] Instance watch_valid_dec pw n : Decision (watch_valid pw n).
Proof. destruct pw; simpl; apply _. Defined.

(** The pending command of a process, executed by the server. *)
Definition exec_serve (pid : nat) (w : world) : option (option (nat * cmd * reply) * world) :=
  match w_procs w !! pid with
  | Some (Proc t pw (Run (PDo c k))) =>
      let '(db, ms, r) := serve_now (w_db w) (bool_decide (watch_valid pw (w_writes w))) c in
      Some (Some (t, c, r),
            World db (bump ms (w_writes w)) (w_tasks w)
              (<[pid := Proc t (watch_after c (w_writes w) pw) (Got r k)]> (w_procs w)))
  | _ => None
  end.

(** The reply of a process, delivered; synchronous code runs to its next command. *)
Definition exec_reply (pid : nat) (w : world) : option (option (nat * cmd * reply) * world) :=
  match w_procs w !! pid with
  | Some (Proc t pw (Got r k)) =>
      let '(l, p) := run_local (w_tasks w t) (k r) in
      Some (None, World (w_db w) (w_writes w) (set_task t l (w_tasks w)) (<[pid := Proc t pw (Run p)]> (w_procs w)))
  | Some (Proc t pw (Run q)) =>
      let '(l, p) := run_local (w_tasks w t) q in
      Some (None, World (w_db w) (w_writes w) (set_task t l (w_tasks w)) (<[pid := Proc t pw (Run p)]> (w_procs w)))
  | None => None
  end.

Lemma exec_serve_sound pid w lbl w' : exec_serve pid w = Some (lbl, w') → wstep w lbl w'.
Proof.
  unfold exec_serve. destruct (w_procs w !! pid) as [[t pw [[| c k| |]|]]|] eqn:Hp; try done.
  destruct (serve_now _ _ c) as [[db ms] r] eqn:Es. intros [= <- <-].
  apply (step_serve _ _ _ _ _ _ _ _ _ Hp).
  - destruct c; cbn [serve_now] in Es; repeat (case_decide || case_bool_decide); simplify_eq; by constructor.
  - destruct c; cbn [serve_now] in Es; repeat case_decide; simplify_eq; try done.
    case_bool_decide; simplify_eq; done.
Qed.

Lemma exec_reply_sound pid w lbl w' : exec_reply pid w = Some (lbl, w') → wstep w lbl w'.
Proof.
  unfold exec_reply. destruct (w_procs w !! pid) as [[t pw [q|r k]]|] eqn:Hp; [| |done].
  - destruct (run_local _ q) as [l p] eqn:Er. intros [= <- <-]. by apply (step_sync _ _ _ _ _ _ _ Hp).
  - destruct (run_local _ (k r)) as [l p] eqn:Er. intros [= <- <-]. by apply (step_reply _ _ _ _ _ _ _ _ Hp).
Qed.
End worlds.

Arguments running L A : clear implicits.
Arguments proc L A : clear implicits.
Arguments world Db L A : clear implicits.

(** ** A concrete server *)

Record redis_store := RedisStore {
  rs_now : Z;
  rs_map : gmap jstr (bytes * option Z) }.

Definition rs_live (now : Z) (e : bytes * option Z) : bool :=
  match e.2 with Some t => now <? t | None => true end.

(** The store at a later time, without the keys whose time has come. *)
Definition rs_advance (now : Z) (s : redis_store) : redis_store :=
  RedisStore now (filter (λ kv, rs_live now kv.2 = true) (rs_map s)).

#[export] Program Instance redis_store_server : RedisServer redis_store := {
  r_get k s := fst <$> rs_map s !! k;
  r_time := rs_now;
  r_deadline k s := match rs_map s !! k with Some e => e.2 | None => None end;
  r_set k v ttl s := RedisStore (rs_now s) (<[k := (v, (λ x, rs_now s + 1000 * x) <$> ttl)]> (rs_map s));
  r_del k s := RedisStore (rs_now s) (delete k (rs_map s));
  r_wait s s' := ∃ t, rs_now s <= t ∧ s' = rs_advance t s }.
Next Obligation. intros. simpl. rewrite lookup_insert. by case_decide. Qed.
Next Obligation. intros. simpl. rewrite lookup_delete. by case_decide. Qed.
Next Obligation. done. Qed.
Next Obligation. done. Qed.
Next Obligation. intros. simpl. rewrite lookup_insert. by case_decide. Qed.
Next Obligation. intros. simpl. by rewrite lookup_delete_ne. Qed.
Next Obligation. intros s s' (t & Ht & ->). done. Qed.
Next Obligation.
  intros s s' k (t & Ht & ->). simpl. rewrite map_lookup_filter.
  destruct (rs_map s !! k) as [[v d]|] eqn:E; simpl; [|by left].
  unfold rs_live. simpl. destruct d as [d|]; simpl; [|by left].
  destruct (Z.ltb_spec t d); simpl; [by left|]. right. eauto.
Qed.
