(* ===== verification/OwnerProtocol.v ===== *)
(** * The owner protocol shared by the D1 and the Durable Object runtimes

    Models the reads, the staged writes and the batched release of
    src/shared/owner-protocol.js, the retry loops of src/shared/optimistic-retry.js and
    [withOwnerWatchRetries], and the Lua script src/do-runtime/owner-registry.js renews with.
    As in the sources, everything is generic in the record and in its parser. *)

From stdpp Require Import base list strings gmap.
From Stdlib Require Import ZArith Lia.
From S2P Require Import Prelude NsPattern WorkerContract Utf8 Json JsNumber OwnerLease Redis.

#[local] Open Scope Z_scope.
#[local] Open Scope wdl_scope.

Definition OWNER_RELEASE_BATCH_SIZE : nat := 256.
Definition OWNER_RELEASE_ATTEMPTS : nat := 3.

(** A generation counter as the staged writes store it: [String(generation)] in UTF-8. *)
Definition generation_bytes (g : Z) : bytes := utf8_encode (string_of_Z g).

(** [decodeBulk] of src/shared/redis-resp.js on a GET reply. *)
Definition decodeBulk (v : option bytes) : jsval :=
  match v with None => JNull | Some b => JStr (utf8_decode b) end.

(** [stageOwnerClaim], [stageOwnerRenew], [stageOwnerRelease]: the queued commands. *)
Definition stageOwnerClaim (keys : protocol_keys) (generation : Z) (owner : bytes) (ttlSeconds : Z) : list write :=
  [WSet (generationKey keys) (generation_bytes generation) None;
   WSet (ownerKey keys) owner (Some ttlSeconds)].

Definition stageOwnerRenew (ownerKey : jstr) (owner : bytes) (ttlSeconds : Z) : list write :=
  [WSet ownerKey owner (Some ttlSeconds)].

Definition stageOwnerRelease (ownerKey : jstr) : list write := [WDel ownerKey].

(** ** Retries *)

Section retries.
Context {L : Type}.

Fixpoint withOptimisticRetries {A} (attempts : nat) (operation : prog L A)
    (isRetryableError : jserr → bool) (onExhausted : prog L A) : prog L A :=
  match attempts with
  | O => onExhausted
  | S n =>
      pcatch operation
        (λ e, if isRetryableError e
              then withOptimisticRetries n operation isRetryableError onExhausted
              else pthrow e)
  end.

Definition isWatchError (e : jserr) : bool := bool_decide (e = WatchError).

Definition withOwnerWatchRetries {A} (retries : nat) (operation : prog L A) (exhausted : jserr) : prog L A :=
  withOptimisticRetries retries operation isWatchError (pthrow exhausted).

Definition lift_lease {A} (r : result lease_error A) : prog L A :=
  match r with Ok a => pret a | Err _ => pthrow PlainError end.

(** ** Pipelines *)

Fixpoint redis_get_many (ks : list jstr) : prog L (list (option bytes)) :=
  match ks with
  | [] => pret []
  | k :: r => let* v := redis_get k in let* vs := redis_get_many r in pret (v :: vs)
  end.

(** The pipeline sends every DELIFEQ before it reads the replies; one failed reply fails the
    call. *)
Fixpoint del_ifeq_pipeline (entries : list (jstr * bytes)) : prog L (list (option Z)) :=
  match entries with
  | [] => pret []
  | (k, e) :: r =>
      let* n := PDo (CDelIfEq k e) (λ r, match r with RInt n => pret (Some n) | _ => pret None end) in
      let* ns := del_ifeq_pipeline r in
      pret (n :: ns)
  end.

Definition redis_del_ifeq_many (entries : list (jstr * bytes)) : prog L (list Z) :=
  let* replies := del_ifeq_pipeline entries in
  match mapM id replies with Some ns => pret ns | None => pthrow RedisError end.
End retries.

(** ** Reads *)

Section protocol.
Context {L Owner : Type}.

Section reads.
Variable parseOwner : jsval → result jserr (option Owner).

Definition parseTimedOwnerRead (value : option bytes) (nowMs : Z) : prog L (option Owner * option bytes * Z) :=
  let* now := lift_lease (redisServerTimeMs nowMs) in
  let* owner := plift (parseOwner (decodeBulk value)) in
  pret (owner, value, now).

Definition readOwnerRecord (ownerKey : jstr) : prog L (option Owner) :=
  let* value := redis_get ownerKey in
  plift (parseOwner (decodeBulk value)).

(** [getWithTime] and [getManyWithTime] send GET for each key, then TIME. *)
Definition readOwnerRecordWithRedisTime (ownerKey : jstr) : prog L (option Owner * option bytes * Z) :=
  let* value := redis_get ownerKey in
  let* nowMs := redis_time in
  parseTimedOwnerRead value nowMs.

(** The record, its bytes, the related values and the time. *)
Definition readOwnerSnapshotWithRedisTime (ownerKey : jstr) (relatedKeys : list jstr)
    : prog L (option Owner * option bytes * list (option bytes) * Z) :=
  let* value := redis_get ownerKey in
  let* relatedValues := redis_get_many relatedKeys in
  let* nowMs := redis_time in
  let* read := parseTimedOwnerRead value nowMs in
  let '(owner, rawOwner, now) := read in
  pret (owner, rawOwner, relatedValues, now).
End reads.

(** [relatedValues[i]], decoded. *)
Definition related (relatedValues : list (option bytes)) (i : nat) : jsval :=
  decodeBulk (default None (relatedValues !! i)).

(** ** Release in batches *)

Inductive release_outcome :=
| Released
| NotReleased (owner : option Owner)
| ReleaseError (e : jserr).

(** A candidate of the batch: its index, its entry and the bytes read. *)
Record candidate := Candidate { c_index : nat; c_ownerKey : jstr; c_expected : Owner; c_raw : bytes }.

Section release.
Variable parseOwner : jsval → Owner → result jserr (option Owner).
Variable fence_of : Owner → fence.

(** What a read of an entry's key means: still ours (a candidate), or an outcome. *)
Definition classifyRelease (index : nat) (entry : jstr * Owner) (rawOwner : option bytes)
    : candidate + release_outcome :=
  match parseOwner (decodeBulk rawOwner) entry.2 with
  | Err e => inr (ReleaseError e)
  | Ok owner =>
      match rawOwner with
      | Some raw =>
          if ownerFenceMatches (fence_of <$> owner) (Some (fence_of entry.2))
          then inl (Candidate index entry.1 entry.2 raw)
          else inr (NotReleased owner)
      | None => inr (NotReleased owner)
      end
  end.

Definition candidates_of (cls : list (nat * (candidate + release_outcome))) : list candidate :=
  omap (λ c, match c.2 with inl x => Some x | inr _ => None end) cls.

Definition outcomes_of (cls : list (nat * (candidate + release_outcome))) : list (nat * release_outcome) :=
  omap (λ c, match c.2 with inl _ => None | inr o => Some (c.1, o) end) cls.

(** The loop of [releaseOwnerRecordBatch]; [left] is [OWNER_RELEASE_ATTEMPTS - attempt]. *)
Fixpoint releaseLoop (left : nat) (candidates : list candidate) (results : list (nat * release_outcome))
    : prog L (list (nat * release_outcome)) :=
  match candidates, left with
  | [], _ => pret results
  | _, O => pret results
  | _, S left' =>
      let failed cs e := map (λ c, (c_index c, ReleaseError e)) cs in
      pcatch
        (let* released := redis_del_ifeq_many (map (λ c, (c_ownerKey c, c_raw c)) candidates) in
         let pairs := zip candidates released in
         let raced := omap (λ p : candidate * Z, if p.2 =? 1 then None else Some p.1) pairs in
         let done := omap (λ p : candidate * Z, if p.2 =? 1 then Some (c_index p.1, Released) else None) pairs in
         let results := results ++ done in
         match raced with
         | [] => pret results
         | _ =>
             pcatch
               (let* currentOwners := redis_get_many (map c_ownerKey raced) in
                let cls := map (λ p : candidate * option bytes,
                                  (c_index p.1, classifyRelease (c_index p.1) (c_ownerKey p.1, c_expected p.1) p.2))
                             (zip raced currentOwners) in
                let results := results ++ outcomes_of cls in
                match left' with
                | O => pret (results ++ failed (candidates_of cls) PlainError)
                | _ => releaseLoop left' (candidates_of cls) results
                end)
               (λ e, pret (results ++ failed raced e))
         end)
        (λ e, pret (results ++ failed candidates e))
  end.

Fixpoint result_at (index : nat) (results : list (nat * release_outcome)) : release_outcome :=
  match results with
  | [] => ReleaseError PlainError
  | (i, o) :: r => if (i =? index)%nat then o else result_at index r
  end.

Definition releaseOwnerRecordBatch (entries : list (jstr * Owner)) : prog L (list release_outcome) :=
  match entries with
  | [] => pret []
  | _ =>
      let* rawOwners := redis_get_many (map fst entries) in
      let cls := imap (λ i p, (i, classifyRelease i p.1 p.2)) (zip entries rawOwners) in
      let* results := releaseLoop OWNER_RELEASE_ATTEMPTS (candidates_of cls) (outcomes_of cls) in
      pret (imap (λ i _, result_at i results) entries)
  end.

Fixpoint releaseBatches (fuel : nat) (entries : list (jstr * Owner)) : prog L (list release_outcome) :=
  match fuel, entries with
  | _, [] => pret []
  | O, _ => pthrow OutOfFuel
  | S n, _ =>
      let batch := take OWNER_RELEASE_BATCH_SIZE entries in
      let* results := pcatch (releaseOwnerRecordBatch batch)
                        (λ e, pret (map (λ _, ReleaseError e) batch)) in
      let* rest := releaseBatches n (drop OWNER_RELEASE_BATCH_SIZE entries) in
      pret (results ++ rest)
  end.

(** Each round takes a batch, so the number of entries is enough fuel. *)
Definition releaseOwnerRecords (entries : list (jstr * Owner)) : prog L (list release_outcome) :=
  releaseBatches (length entries) entries.
End release.
End protocol.

Arguments release_outcome Owner : clear implicits.
Arguments candidate Owner : clear implicits.

(** ** Counters *)

(** The value of a counter key. *)
Definition counter_of (v : option bytes) : Z :=
  match parseOwnerGenerationCounter (decodeBulk v) with Ok n => n | Err _ => 0 end.

Lemma generation_bytes_counter g : 0 <= g <= MAX_SAFE_INTEGER →
  parseOwnerGenerationCounter (decodeBulk (Some (generation_bytes g))) = Ok g.
Proof.
  intros Hg. unfold decodeBulk, generation_bytes. rewrite utf8_encode_ascii by apply string_of_Z_ascii.
  rewrite <- (utf8_encode_ascii (string_of_Z g)) by apply string_of_Z_ascii.
  rewrite utf8_roundtrip.
  - unfold string_of_Z. rewrite (proj2 (Z.ltb_ge _ _)) by lia. by apply generation_text.
  - apply ascii_units, string_of_Z_ascii.
  - apply text_ok_ascii, string_of_Z_ascii.
  - pose proof (string_of_Z_ascii g) as H. destruct (string_of_Z g) as [|c r]; [done|].
    apply Forall_cons in H as [H _]. intros [= ->]. unfold BOM in H. lia.
Qed.

Lemma generation_bytes_value g : 0 <= g <= MAX_SAFE_INTEGER → counter_of (Some (generation_bytes g)) = g.
Proof. intros H. unfold counter_of. by rewrite generation_bytes_counter. Qed.

(** A read of a generation key. *)
Definition counter_raw (v : option bytes) : Prop :=
  match v with None => True | Some b => ∃ g, b = generation_bytes g ∧ 0 <= g <= MAX_SAFE_INTEGER end.

Lemma counter_raw_spec v : counter_raw v → parseOwnerGenerationCounter (decodeBulk v) = Ok (counter_of v).
Proof.
  destruct v as [b|]; [|done]. intros (g & -> & Hg). unfold counter_of. by rewrite generation_bytes_counter.
Qed.

Lemma counter_of_pos v : 0 <= counter_of v.
Proof.
  unfold counter_of. destruct (parseOwnerGenerationCounter _) eqn:E; [|done]. apply counter_range in E. lia.
Qed.

Lemma fence_match_spec f f' : ownerFenceMatches (Some f) (Some f') = true ↔ f = f'.
Proof.
  destruct f as [t g], f' as [t' g']. unfold ownerFenceMatches. rewrite andb_true_iff, jeqb_eq, Z.eqb_eq.
  split; [by intros [-> ->] | by intros [= -> ->]].
Qed.

(** The Redis time a timed read accepts. *)
Lemma server_time_spec n m : redisServerTimeMs n = Ok m → m = n ∧ 0 <= n.
Proof. unfold redisServerTimeMs. destruct (_ || _) eqn:E; [done|]. intros <-%Ok_inj. to_prop. lia. Qed.
