(* ===== verification/OwnerLogic.v ===== *)
(** * A program logic for owner protocols

    [OwnerScheme] states what the D1 and the Durable Object runtimes promise of their owner
    records: where they are stored, how they read back, and which keys a write relies on.
    [wp] is a logic for handlers over Redis: which commands a task may send given what it has
    learnt, and what the replies teach it. The handlers of both runtimes are verified against
    it, and the interleavings are handled once for all schemes. *)

From stdpp Require Import base list strings gmap.
From Stdlib Require Import ZArith Lia.
From S2P Require Import Prelude NsPattern WorkerContract Utf8 Json JsNumber OwnerLease Redis OwnerProtocol.

#[local] Open Scope Z_scope.
#[local] Open Scope wdl_scope.

(** The configured lease time is positive. *)
Lemma ttl_env_positive (env : fields) name fallback : 0 < fallback → 0 < ownerTtlSecondsEnv env name fallback.
Proof.
  intros Hf. unfold ownerTtlSecondsEnv, canonicalPositiveIntegerEnv.
  destruct (obj_get _ _); try done. destruct (CANONICAL_POSITIVE_DECIMAL s) eqn:E; [|done].
  destruct (string_to_number s) eqn:En; try done. destruct (_ && _) eqn:Eb; [|done]. to_prop.
  assert (s = string_of_nonneg (dec_value 0 s) ∧ 0 <= dec_value 0 s) as [Es Hv]
    by (apply canonical_decimal_print; auto).
  assert (s ≠ []) as Hne by (by intros ->).
  pose proof (string_to_number_digits s Hne (canonical_decimal_digits _ E)) as Hd. rewrite En in Hd.
  destruct (decide (dec_value 0 s = 0)) as [E0|].
  { rewrite E0 in Es. subst s. by vm_compute in E. }
  symmetry in Hd. eapply to_double_pos; [|done]. lia.
Qed.

(** A pin of a record is a key whose value every write of the record relies on; a guard is a
    key with a condition every claim relies on. *)
Class OwnerScheme (Owner : Type) := {
  ow_ttl : Z;
  ow_valid : jstr → Prop;
  ow_key : jstr → jstr;
  ow_generation_key : jstr → jstr;
  (** A record as the protocol writes it for a scope. *)
  ow_wf : jstr → Owner → Prop;
  ow_bytes : Owner → bytes;
  ow_parse : jstr → bytes → option Owner;
  ow_fence : Owner → fence;
  ow_lease : Owner → Z;
  ow_pins : Owner → list (jstr * (bytes → Prop));
  ow_guards : Owner → list (jstr * (option bytes → Prop));
  ow_ttl_pos : 0 < ow_ttl;
  ow_wf_valid K o : ow_wf K o → ow_valid K;
  ow_wf_generation K o : ow_wf K o → 0 < (ow_fence o).2 <= MAX_SAFE_INTEGER;
  ow_parse_bytes K o : ow_wf K o → ow_parse K (ow_bytes o) = Some o;
  ow_key_inj K K' : ow_valid K → ow_valid K' → ow_key K = ow_key K' → K = K';
  ow_generation_key_inj K K' :
    ow_valid K → ow_valid K' → ow_generation_key K = ow_generation_key K' → K = K';
  ow_keys_ne K K' : ow_valid K → ow_valid K' → ow_key K ≠ ow_generation_key K';
  ow_pins_foreign K o k P K' :
    ow_wf K o → (k, P) ∈ ow_pins o → ow_valid K' → k ≠ ow_key K' ∧ k ≠ ow_generation_key K' }.

(** What the run of the server has gone through: [was_stored t k b], key [k] held [b] at time
    [t]; [was_time t], the clock showed [t]. *)
Class History := {
  was_stored : Z → jstr → bytes → Prop;
  was_time : Z → Prop }.

(** A history that records nothing. *)
Definition no_history : History := {| was_stored _ _ _ := True; was_time _ := True |}.

(** ** Commands and what they teach *)

Section logic.
Context {Owner L : Type} `{!OwnerScheme Owner} {Hist : History}.

(** The end of a lease granted at [t]. *)
Definition lease_until (t : Z) : Z := Z.min MAX_SAFE_INTEGER (t + ow_ttl * 1000).

Lemma lease_until_mono t t' : t <= t' → lease_until t <= lease_until t'.
Proof. unfold lease_until. lia. Qed.

Lemma ow_bytes_inj K o o' : ow_wf K o → ow_wf K o' → ow_bytes o = ow_bytes o' → o = o'.
Proof. intros H%ow_parse_bytes H'%ow_parse_bytes E. rewrite E, H' in H. by injection H. Qed.

(** What a handler has learnt: the keys its session watches, what it read from them since
    WATCH, and a time the server has reached. *)
Record ghost := Ghost { g_watch : list jstr; g_seen : list (jstr * option bytes); g_time : Z }.

Definition unwatched (t : Z) : ghost := Ghost [] [] t.

(** What GET may reply at time [t]. *)
Definition value_ok (t : Z) (k : jstr) (v : option bytes) : Prop :=
  ∀ b, v = Some b → ∀ K, ow_valid K →
    (k = ow_key K → ∃ o, b = ow_bytes o ∧ ow_wf K o ∧ ow_lease o <= lease_until t) ∧
    (k = ow_generation_key K → ∃ g, b = generation_bytes g ∧ 0 <= g <= MAX_SAFE_INTEGER).

(** GET replied [v] at time [t]. *)
Definition held (t : Z) (k : jstr) (v : option bytes) : Prop := ∀ b, v = Some b → was_stored t k b.

(** When a claim by task [me] may replace what it saw under the owner key. *)
Definition may_replace (me : jstr) (t : Z) (K : jstr) (v : option bytes) : Prop :=
  ∀ b, v = Some b → ∃ cur, b = ow_bytes cur ∧ ow_wf K cur ∧ (ow_lease cur <= t ∨ (ow_fence cur).1 = me).

(** A key read under WATCH with a value that satisfies [P]. *)
Definition watched (g : ghost) (k : jstr) (P : option bytes → Prop) : Prop :=
  k ∈ g_watch g ∧ ∃ v, (k, v) ∈ g_seen g ∧ P v.

Definition pins_seen (g : ghost) (o : Owner) : Prop :=
  Forall (λ kp, watched g kp.1 (λ v, ∃ b, v = Some b ∧ kp.2 b)) (ow_pins o).

Definition guards_seen (g : ghost) (o : Owner) : Prop :=
  Forall (λ kp, watched g kp.1 kp.2) (ow_guards o).

Definition foreign (k : jstr) : Prop := ∀ K, ow_valid K → k ≠ ow_key K ∧ k ≠ ow_generation_key K.

(** A write of another component: not to the protocol's keys. *)
Definition foreign_write (w : write) : Prop :=
  match w with WSet k _ ttl => foreign k ∧ ttl_ok ttl | WDel k => foreign k end.

(** Ownership of the scopes [Ks] is ended together with what pins their records. *)
Definition retire_writes (Ks : list jstr) : list write :=
  flat_map (λ K, [WDel (ow_key K); WDel (ow_generation_key K)]) Ks.

Definition unpinned (ws : list write) (K : jstr) : Prop :=
  ow_valid K ∧ ∀ o, ow_wf K o → ∃ k P, (k, P) ∈ ow_pins o ∧ WDel k ∈ ws ∧ ∀ v ttl, WSet k v ttl ∉ ws.

Definition claim_writes (K : jstr) (o : Owner) : list write :=
  [WSet (ow_generation_key K) (generation_bytes (ow_fence o).2) None; WSet (ow_key K) (ow_bytes o) (Some ow_ttl)].

Definition renew_writes (K : jstr) (o : Owner) : list write := [WSet (ow_key K) (ow_bytes o) (Some ow_ttl)].

(** [o] continues the lease of [cur]. *)
Definition continues (me : jstr) (t : Z) (K : jstr) (cur o : Owner) : Prop :=
  ow_wf K cur ∧ ow_wf K o ∧ ow_fence o = ow_fence cur ∧ (ow_fence cur).1 = me ∧
  ow_lease cur <= ow_lease o ∧ ow_lease o <= lease_until t.

(** The commands task [me] may send; the control plane has the empty name. *)
Inductive cmd_ok (me : jstr) (g : ghost) : cmd → Prop :=
| ok_get k : cmd_ok me g (CGet k)
| ok_time : cmd_ok me g CTime
| ok_watch ks : cmd_ok me g (CWatch ks)
| ok_unwatch : cmd_ok me g CUnwatch
| ok_claim K o vg vo :
    ow_wf K o → ow_key K ∈ g_watch g → ow_generation_key K ∈ g_watch g →
    (ow_generation_key K, vg) ∈ g_seen g → (ow_key K, vo) ∈ g_seen g →
    counter_of vg < (ow_fence o).2 → ow_lease o <= lease_until (g_time g) →
    may_replace me (g_time g) K vo → pins_seen g o → guards_seen g o →
    cmd_ok me g (CExec (claim_writes K o))
| ok_refresh K cur o :
    continues me (g_time g) K cur o → ow_key K ∈ g_watch g → (ow_key K, Some (ow_bytes cur)) ∈ g_seen g →
    pins_seen g o → cmd_ok me g (CExec (renew_writes K o))
| ok_repair_refresh K cur o vg :
    continues me (g_time g) K cur o → ow_key K ∈ g_watch g → (ow_key K, Some (ow_bytes cur)) ∈ g_seen g →
    ow_generation_key K ∈ g_watch g → (ow_generation_key K, vg) ∈ g_seen g → counter_of vg < (ow_fence o).2 →
    pins_seen g o → cmd_ok me g (CExec (claim_writes K o))
| ok_repair K o vg :
    ow_wf K o → ow_generation_key K ∈ g_watch g → (ow_generation_key K, vg) ∈ g_seen g →
    counter_of vg < (ow_fence o).2 → pins_seen g o →
    cmd_ok me g (CExec [WSet (ow_generation_key K) (generation_bytes (ow_fence o).2) None])
| ok_release K cur :
    ow_wf K cur → ow_key K ∈ g_watch g → (ow_key K, Some (ow_bytes cur)) ∈ g_seen g →
    (ow_fence cur).1 = me → me ≠ [] → cmd_ok me g (CExec [WDel (ow_key K)])
| ok_renew K cur o :
    continues me (g_time g) K cur o → ow_pins o = [] →
    cmd_ok me g (CSetIfEq (ow_key K) (ow_bytes o) ow_ttl (ow_bytes cur))
| ok_renew_fenced K cur o fk P f :
    continues me (g_time g) K cur o → ow_pins o = [(fk, P)] → P f →
    cmd_ok me g (CRenewFenced (ow_key K) fk (ow_bytes cur) f (ow_bytes o) ow_ttl)
| ok_drop K cur :
    ow_wf K cur → (ow_fence cur).1 = me → cmd_ok me g (CDelIfEq (ow_key K) (ow_bytes cur))
| ok_foreign ws : Forall foreign_write ws → cmd_ok me g (CExec ws)
| ok_retire Ks ws :
    me = [] → Forall foreign_write ws → Forall (unpinned ws) Ks → cmd_ok me g (CExec (ws ++ retire_writes Ks)).

(** What the handler knows after a reply. *)
Inductive reply_ok (g : ghost) : cmd → reply → ghost → Prop :=
| rep_fail c : reply_ok g c RFail (unwatched (g_time g))
| rep_get k v t : g_time g <= t → value_ok t k v → held t k v →
    reply_ok g (CGet k) (RBulk v) (Ghost (g_watch g) ((k, v) :: g_seen g) t)
| rep_time t : g_time g <= t → was_time t → reply_ok g CTime (RInt t) (Ghost (g_watch g) (g_seen g) t)
| rep_watch ks : reply_ok g (CWatch ks) ROk (Ghost ks [] (g_time g))
| rep_unwatch : reply_ok g CUnwatch ROk (unwatched (g_time g))
| rep_exec ws r : reply_ok g (CExec ws) r (unwatched (g_time g))
| rep_set k v ttl e r : reply_ok g (CSetIfEq k v ttl e) r g
| rep_renew k fk e f v ttl r : (r = RInt 1 → ∃ t, g_time g <= t ∧ was_stored t k v) → reply_ok g (CRenewFenced k fk e f v ttl) r g
| rep_del k e r : reply_ok g (CDelIfEq k e) r g.

(** ** Programs *)

Variable local_ok : L → Prop.
Variable me : jstr.

Fixpoint wp {A} (g : ghost) (p : prog L A) (Q : ghost → result jserr A → Prop) : Prop :=
  match p with
  | PRet r => Q g r
  | PDo c k => cmd_ok me g c ∧ ∀ r g', reply_ok g c r g' → wp g' (k r) Q
  | PGet k => ∀ l, local_ok l → wp g (k l) Q
  | PPut l p => local_ok l ∧ wp g p Q
  end.

Lemma wp_mono {A} (p : prog L A) : ∀ g (Q Q' : ghost → result jserr A → Prop),
  wp g p Q → (∀ g' r, Q g' r → Q' g' r) → wp g p Q'.
Proof.
  induction p as [r|c k IH|k IH|l p IH]; intros g Q Q' H HQ; simpl in *.
  - auto.
  - destruct H as [Hc H]. split; [done|]. eauto.
  - eauto.
  - destruct H as [Hl H]. split; [done|]. eauto.
Qed.

Lemma wp_bind {A B} (p : prog L A) (f : A → prog L B) : ∀ g Q,
  wp g p (λ g' r, match r with Ok a => wp g' (f a) Q | Err e => Q g' (Err e) end) →
  wp g (pbind p f) Q.
Proof.
  induction p as [r|c k IH|k IH|l p IH]; intros g Q H; simpl in *.
  - by destruct r.
  - destruct H as [Hc H]. split; [done|]. eauto.
  - eauto.
  - destruct H as [Hl H]. split; [done|]. eauto.
Qed.

Lemma wp_catch {A} (p : prog L A) (h : jserr → prog L A) : ∀ g Q,
  wp g p (λ g' r, match r with Ok a => Q g' (Ok a) | Err e => wp g' (h e) Q end) →
  wp g (pcatch p h) Q.
Proof.
  induction p as [r|c k IH|k IH|l p IH]; intros g Q H; simpl in *.
  - by destruct r.
  - destruct H as [Hc H]. split; [done|]. eauto.
  - eauto.
  - destruct H as [Hl H]. split; [done|]. eauto.
Qed.

Lemma wp_ret {A} g (a : A) (Q : ghost → result jserr A → Prop) : Q g (Ok a) → wp g (pret a) Q.
Proof. done. Qed.

Lemma wp_throw {A} g e (Q : ghost → result jserr A → Prop) : Q g (Err e) → wp g (pthrow e) Q.
Proof. done. Qed.

(** *** Commands *)

Lemma wp_redis_get g k Q :
  (∀ v t, g_time g <= t → value_ok t k v → held t k v → Q (Ghost (g_watch g) ((k, v) :: g_seen g) t) (Ok v)) →
  (∀ g' e, g_time g <= g_time g' → Q g' (Err e)) →
  wp g (redis_get k) Q.
Proof.
  intros H He. split; [constructor|]. intros r g' Hr. inversion Hr; subst; simpl; auto.
  apply He. simpl. lia.
Qed.

Lemma wp_redis_time g Q :
  (∀ t, g_time g <= t → was_time t → Q (Ghost (g_watch g) (g_seen g) t) (Ok t)) →
  (∀ g' e, g_time g <= g_time g' → Q g' (Err e)) →
  wp g redis_time Q.
Proof.
  intros H He. split; [constructor|]. intros r g' Hr. inversion Hr; subst; simpl; auto.
  apply He. simpl. lia.
Qed.

Lemma wp_watch g ks Q :
  Q (Ghost ks [] (g_time g)) (Ok tt) → (∀ g' e, g_time g <= g_time g' → Q g' (Err e)) →
  wp g (session_watch ks) Q.
Proof.
  intros H He. split; [constructor|]. intros r g' Hr. inversion Hr; subst; simpl; auto.
  apply He. simpl. lia.
Qed.

Lemma wp_unwatch g Q :
  Q (unwatched (g_time g)) (Ok tt) → (∀ g' e, g_time g <= g_time g' → Q g' (Err e)) →
  wp g session_unwatch Q.
Proof.
  intros H He. split; [constructor|]. intros r g' Hr. inversion Hr; subst; simpl; auto.
  apply He. simpl. lia.
Qed.

Lemma wp_exec g ws Q :
  cmd_ok me g (CExec ws) →
  Q (unwatched (g_time g)) (Ok tt) → (∀ g' e, g_time g <= g_time g' → Q g' (Err e)) →
  wp g (session_exec ws) Q.
Proof.
  intros Hc H He. split; [done|]. intros r g' Hr. inversion Hr; subst.
  - apply He. simpl. lia.
  - destruct r; simpl; try (apply He; simpl; lia). done.
Qed.

Lemma wp_redis_set g k v ttl e (Q : ghost → result jserr bool → Prop) :
  cmd_ok me g (CSetIfEq k v ttl e) →
  (∀ b, Q g (Ok b)) → (∀ g' e, g_time g <= g_time g' → Q g' (Err e)) →
  wp g (redis_set_ifeq k v ttl e) Q.
Proof.
  intros Hc HQ HE. split; [done|]. intros r g' Hr. inversion Hr; subst.
  - apply HE. simpl. lia.
  - destruct r; (apply HQ || (apply HE; lia)).
Qed.

Lemma wp_renew_fenced g k fk e f v ttl (Q : ghost → result jserr Z → Prop) :
  cmd_ok me g (CRenewFenced k fk e f v ttl) →
  (∀ n, (n = 1 → ∃ t, g_time g <= t ∧ was_stored t k v) → Q g (Ok n)) → (∀ g' e, g_time g <= g_time g' → Q g' (Err e)) →
  wp g (redis_renew_fenced k fk e f v ttl) Q.
Proof.
  intros Hc HQ HE. split; [done|]. intros r g' Hr. inversion Hr as [| | | | | | |? ? ? ? ? ? ? Hst|]; subst.
  - apply HE. simpl. lia.
  - destruct r; try (apply HE; lia). apply HQ. intros ->. by apply Hst.
Qed.

Lemma wp_modify g (f : L → L) Q :
  (∀ l, local_ok l → local_ok (f l)) → Q g (Ok tt) → wp g (pmodify f) Q.
Proof. intros Hf HQ l Hl. split; [auto|done]. Qed.

Lemma wp_lift_lease {A} g (r : result lease_error A) Q :
  (∀ a, r = Ok a → Q g (Ok a)) → (∀ e, Q g (Err e)) → wp g (lift_lease r) Q.
Proof. intros H He. destruct r; simpl; auto. Qed.

(** A handler ends no earlier than [t]; its result satisfies [P]. *)
Definition post {A} (t : Z) (P : A → Prop) (g : ghost) (r : result jserr A) : Prop :=
  t <= g_time g ∧ match r with Ok a => P a | Err _ => True end.

Lemma post_err {A} t (P : A → Prop) g e : t <= g_time g → post t P g (Err e).
Proof. by split. Qed.

Lemma post_weaken {A} t t' (P : A → Prop) g r : t <= t' → post t' P g r → post t P g r.
Proof. intros Ht [H1 H2]. split; [lia | done]. Qed.

Lemma wp_retries {A} n g t (op : prog L A) e P :
  t <= g_time g → (∀ g0, t <= g_time g0 → wp g0 op (post t P)) →
  wp g (withOwnerWatchRetries n op e) (post t P).
Proof.
  intros Ht H. unfold withOwnerWatchRetries. revert g Ht.
  induction n as [|n IH]; intros g Ht; cbn [withOptimisticRetries].
  - by split.
  - apply wp_catch. eapply wp_mono; [by apply H|]. intros g' [a|x] [Hg' Hp]; [by split|].
    destruct (isWatchError x); [by apply IH | by split].
Qed.

#[local] Arguments wp : simpl never.
#[local] Arguments pbind : simpl never.
#[local] Arguments pcatch : simpl never.

(** *** Reads *)

Lemma value_ok_mono t t' k v : t <= t' → value_ok t k v → value_ok t' k v.
Proof.
  intros Ht Hv b Hb K HK. destruct (Hv b Hb K HK) as [Ho Hg]. split; [|done]. intros E.
  destruct (Ho E) as (o & -> & Hwf & Hl). exists o. split_and!; try done.
  etransitivity; [exact Hl | by apply lease_until_mono].
Qed.

Lemma wp_get_many ks : ∀ g Q,
  (∀ vs t, g_time g <= t → Forall2 (value_ok t) ks vs →
     Q (Ghost (g_watch g) (rev (zip ks vs) ++ g_seen g) t) (Ok vs)) →
  (∀ g' e, g_time g <= g_time g' → Q g' (Err e)) →
  wp g (redis_get_many ks) Q.
Proof.
  induction ks as [|k ks IH]; intros g Q HQ HE; cbn [redis_get_many].
  { apply wp_ret. destruct g. by apply (HQ []). }
  apply wp_bind, wp_redis_get; [|done]. intros v t Ht Hv _. apply wp_bind, IH; simpl.
  - intros vs t' Ht' Hvs. apply wp_ret. specialize (HQ (v :: vs) t' ltac:(lia)).
    cbn [zip zip_with rev] in HQ. rewrite <- app_assoc in HQ. apply HQ.
    constructor; [by eapply value_ok_mono | done].
  - intros g' e Hg'. apply HE. lia.
Qed.

(** [parse] reads the record stored for [K] as itself, or fails; what it accepts satisfies
    [P]. *)
Definition reads_owner (K : jstr) (parse : jsval → result jserr (option Owner)) (P : Owner → Prop) : Prop :=
  parse JNull = Ok None ∧
  ∀ o, ow_wf K o → match parse (decodeBulk (Some (ow_bytes o))) with
                   | Ok (Some o') => o' = o ∧ P o
                   | Ok None => False
                   | Err _ => True
                   end.

(** What a timed read of the owner key found at [n]. *)
Definition found (K : jstr) (P : Owner → Prop) (n : Z) (o : option Owner) (v : option bytes) : Prop :=
  v = None ∧ o = None ∨
  ∃ cur, o = Some cur ∧ v = Some (ow_bytes cur) ∧ ow_wf K cur ∧ P cur ∧ ow_lease cur <= lease_until n.

Lemma wp_parse_timed g K parse P v t n Q :
  ow_valid K → reads_owner K parse P → t <= n → value_ok t (ow_key K) v →
  (∀ o, 0 <= n → found K P n o v → Q g (Ok (o, v, n))) → (∀ e, Q g (Err e)) →
  wp g (parseTimedOwnerRead parse v n) Q.
Proof.
  intros HK [HN HS] Ht Hv HQ HE. unfold parseTimedOwnerRead. apply wp_bind, wp_lift_lease; [|done].
  intros n' [-> Hn]%server_time_spec. apply wp_bind. destruct v as [b|].
  - destruct (proj1 (Hv b eq_refl K HK) eq_refl) as (o & -> & Hwf & Hl). pose proof (HS o Hwf) as Ho. revert Ho.
    unfold plift. cbn [wp]. destruct (parse (decodeBulk _)) as [[o'|]|e]; [intros [-> HP]|done|intros _; apply HE].
    apply HQ; [done|]. right. exists o. split_and!; try done.
    etransitivity; [exact Hl | by apply lease_until_mono].
  - unfold plift. cbn [wp decodeBulk]. rewrite HN. apply HQ; [done | by left].
Qed.

(** The record was read at some time from [t0] on and the clock after that. *)
Definition read_at (t0 : Z) (K : jstr) (n : Z) (v : option bytes) : Prop :=
  was_time n ∧ ∃ t, t0 <= t <= n ∧ held t (ow_key K) v.

Lemma wp_timed_read g K parse P Q :
  ow_valid K → reads_owner K parse P →
  (∀ v o n, g_time g <= n → 0 <= n → found K P n o v →
     Q (Ghost (g_watch g) ((ow_key K, v) :: g_seen g) n) (Ok (o, v, n))) →
  (∀ g' e, g_time g <= g_time g' → Q g' (Err e)) →
  wp g (readOwnerRecordWithRedisTime parse (ow_key K)) Q.
Proof.
  intros HK Hp HQ HE. unfold readOwnerRecordWithRedisTime.
  apply wp_bind, wp_redis_get; [|done]. intros v t Ht Hv _.
  apply wp_bind, wp_redis_time; simpl; [|intros; apply HE; lia]. intros n Hn _.
  eapply wp_parse_timed; [done..| |]; simpl.
  - intros o H0 Hf. apply HQ; [lia | done..].
  - intros e. apply HE. simpl. lia.
Qed.

Lemma wp_snapshot g K parse P ks Q :
  ow_valid K → reads_owner K parse P →
  (∀ vo vs o n, g_time g <= n → 0 <= n → Forall2 (value_ok n) ks vs → found K P n o vo → read_at (g_time g) K n vo →
     Q (Ghost (g_watch g) (rev (zip ks vs) ++ (ow_key K, vo) :: g_seen g) n) (Ok (o, vo, vs, n))) →
  (∀ g' e, g_time g <= g_time g' → Q g' (Err e)) →
  wp g (readOwnerSnapshotWithRedisTime parse (ow_key K) ks) Q.
Proof.
  intros HK Hp HQ HE. unfold readOwnerSnapshotWithRedisTime.
  apply wp_bind, wp_redis_get; [|done]. intros v t Ht Hv Hheld.
  apply wp_bind, wp_get_many; simpl; [|intros; apply HE; lia]. intros vs t' Ht' Hvs.
  apply wp_bind, wp_redis_time; simpl; [|intros; apply HE; lia]. intros n Hn Htime.
  apply wp_bind. eapply wp_parse_timed; [done| exact Hp | |exact Hv| |]; simpl; [lia| |].
  - intros o H0 Hf. apply wp_ret. apply HQ; [lia|done| |done|split; [done|]; exists t; split; [lia|done]].
    eapply Forall2_impl; [exact Hvs|]. intros k w. apply value_ok_mono. lia.
  - intros e. apply HE. simpl. lia.
Qed.

Lemma wp_read_owner g K parse P Q :
  ow_valid K → reads_owner K parse P →
  (∀ g' r, g_time g <= g_time g' → match r with Ok (Some o) => ow_wf K o ∧ P o | _ => True end → Q g' r) →
  wp g (readOwnerRecord parse (ow_key K)) Q.
Proof.
  intros HK [HN HS] HQ. unfold readOwnerRecord. apply wp_bind, wp_redis_get; [|by intros; apply HQ].
  intros v t Ht Hv _. unfold plift. cbn [wp]. apply HQ; [done|]. destruct v as [b|]; [|cbn [decodeBulk]; by rewrite HN].
  destruct (proj1 (Hv b eq_refl K HK) eq_refl) as (o & -> & Hwf & Hl). pose proof (HS o Hwf) as Ho. revert Ho.
  destruct (parse (decodeBulk _)) as [[o'|]|e]; [by intros [-> HP]|done..].
Qed.

(** *** Release *)

Section release.
Context (parse : jsval → Owner → result jserr (option Owner)).

(** An entry this task may release. *)
Definition entry_ok (e : jstr * Owner) : Prop :=
  ∃ K, e.1 = ow_key K ∧ ow_wf K e.2 ∧ (ow_fence e.2).1 = me ∧ reads_owner K (λ v, parse v e.2) (λ _, True).

Definition outcome_ok (r : release_outcome Owner) : Prop :=
  match r with NotReleased (Some o) => ∃ K, ow_wf K o | _ => True end.

Definition candidate_ok (c : candidate Owner) : Prop :=
  entry_ok (c_ownerKey c, c_expected c) ∧
  ∃ K cur, c_ownerKey c = ow_key K ∧ c_raw c = ow_bytes cur ∧ ow_wf K cur ∧ (ow_fence cur).1 = me.

Definition class_ok (c : nat * (candidate Owner + release_outcome Owner)) : Prop :=
  match c.2 with inl c => candidate_ok c | inr r => outcome_ok r end.

Definition results_ok (rs : list (nat * release_outcome Owner)) : Prop := Forall (λ r, outcome_ok r.2) rs.

Lemma classify_ok t i e v : entry_ok e → value_ok t e.1 v → class_ok (i, classifyRelease parse ow_fence i e v).
Proof.
  destruct e as [k o]. intros (K & Ek & Hwf & Hm & Hr) Hv. pose proof Hr as [HN HS]. simpl in *.
  unfold class_ok, classifyRelease. simpl. destruct v as [b|]; simpl; [|cbn [decodeBulk]; by rewrite HN].
  destruct (proj1 (Hv b eq_refl K (ow_wf_valid _ _ Hwf)) Ek) as (cur & -> & Hc & _).
  pose proof (HS cur Hc) as Ho. revert Ho. cbn [decodeBulk]. destruct (parse (JStr _) _) as [[o'|]|e]; [intros [-> _]|done..].
  cbn [fmap option_fmap option_map]. destruct (ownerFenceMatches _ _) eqn:Ef; [|by exists K].
  apply fence_match_spec in Ef. split; [by exists K|]. exists K, cur. simpl. split_and!; try done. by rewrite Ef.
Qed.

Lemma candidates_ok cls : Forall class_ok cls → Forall candidate_ok (candidates_of cls).
Proof. induction 1 as [|[i [c|o]] r H _ IH]; cbn; [done| |done]. by constructor. Qed.

Lemma outcomes_ok cls : Forall class_ok cls → results_ok (outcomes_of cls).
Proof. induction 1 as [|[i [c|o]] r H _ IH]; cbn; [constructor|done|]. by constructor. Qed.

Lemma failed_ok (cs : list (candidate Owner)) e : results_ok (map (λ c, (c_index c, ReleaseError e)) cs).
Proof. induction cs; by constructor. Qed.

Lemma raced_ok cs (ns : list Z) : Forall candidate_ok cs →
  Forall candidate_ok (omap (λ p : candidate Owner * Z, if p.2 =? 1 then None else Some p.1) (zip cs ns)).
Proof.
  intros H. revert ns. induction H as [|c cs Hc _ IH]; intros [|n ns]; cbn; try constructor.
  destruct (n =? 1); cbn; [apply IH | by constructor].
Qed.

Lemma released_ok (cs : list (candidate Owner)) (ns : list Z) :
  results_ok (omap (λ p : candidate Owner * Z, if p.2 =? 1 then Some (c_index p.1, Released) else None) (zip cs ns)).
Proof.
  revert ns. induction cs as [|c cs IH]; intros [|n ns]; cbn; try constructor.
  destruct (n =? 1); cbn; [constructor; [done | apply IH] | apply IH].
Qed.

Lemma reread_ok t cs (vs : list (option bytes)) :
  Forall candidate_ok cs → Forall2 (value_ok t) (map c_ownerKey cs) vs →
  Forall class_ok (map (λ p : candidate Owner * option bytes,
    (c_index p.1, classifyRelease parse ow_fence (c_index p.1) (c_ownerKey p.1, c_expected p.1) p.2)) (zip cs vs)).
Proof.
  intros H. revert vs. induction H as [|c cs [Hc _] _ IH]; intros vs Hv; inversion Hv; subst; cbn; [constructor|].
  constructor; [|by apply IH]. by eapply classify_ok.
Qed.

Lemma wp_del_pipeline cs : ∀ g, Forall candidate_ok cs →
  wp g (del_ifeq_pipeline (map (λ c, (c_ownerKey c, c_raw c)) cs)) (post (g_time g) (λ _, True)).
Proof.
  induction cs as [|c r IH]; intros g Hc; cbn [map del_ifeq_pipeline]; [by split|].
  apply Forall_cons in Hc as [[_ (K & cur & Hk & Hraw & Hwf & Ht)] Hr]. apply wp_bind.
  split; [rewrite Hk, Hraw; by apply ok_drop|]. intros rep g' Hrep.
  assert (g_time g <= g_time g') as Hg by (inversion Hrep; subst; simpl; lia).
  assert (∀ n, wp g' (let* ns := del_ifeq_pipeline (map (λ c, (c_ownerKey c, c_raw c)) r) in
               pret (n :: ns)) (post (g_time g) (λ _ : list (option Z), True))) as Hkk.
  { intros n. apply wp_bind. eapply wp_mono; [by apply IH|].
    intros g2 [ns|e] [H1 H2]; (split; [lia | done]). }
  destruct rep; apply Hkk.
Qed.

Lemma wp_del_many cs g : Forall candidate_ok cs →
  wp g (redis_del_ifeq_many (map (λ c, (c_ownerKey c, c_raw c)) cs)) (post (g_time g) (λ _, True)).
Proof.
  intros Hc. unfold redis_del_ifeq_many. apply wp_bind. eapply wp_mono; [by apply wp_del_pipeline|].
  intros g' [rs|e] [Hg' _]; [|by apply post_err]. destruct (mapM id rs); by split.
Qed.

Lemma wp_releaseLoop left : ∀ cs rs g, Forall candidate_ok cs → results_ok rs →
  wp g (releaseLoop parse ow_fence left cs rs) (post (g_time g) results_ok).
Proof.
  induction left as [|left IH]; intros cs rs g Hcs Hrs; destruct cs as [|c0 cs0];
    cbn [releaseLoop]; try by split.
  set (cs := c0 :: cs0) in *. apply wp_catch, wp_bind. eapply wp_mono; [by apply wp_del_many|].
  intros g1 [ns|e] [Hg1 _].
  2:{ apply wp_ret. split; [lia|]. apply Forall_app. split; [done | apply failed_ok]. }
  pose proof (raced_ok cs ns Hcs) as Hraced. pose proof (released_ok cs ns) as Hdone.
  assert (results_ok (rs ++ omap (λ p : candidate Owner * Z, if p.2 =? 1 then Some (c_index p.1, Released) else None)
    (zip cs ns))) as Hrs' by (by apply Forall_app).
  cbv zeta. set (results := rs ++ _) in *.
  set (raced := omap (λ p : candidate Owner * Z, if p.2 =? 1 then None else Some p.1) (zip cs ns)) in *.
  destruct raced as [|r0 raced0] eqn:Er; [split; [lia | done]|]. rewrite <- Er in *. clear Er r0 raced0.
  apply wp_catch, wp_bind, wp_get_many.
  2:{ intros g2 e Hg2. apply wp_ret. split; [lia|]. apply Forall_app. split; [done | apply failed_ok]. }
  intros vs t Ht Hvs. pose proof (reread_ok _ _ _ Hraced Hvs) as Hcls.
  apply candidates_ok in Hcls as Hcand. apply outcomes_ok in Hcls as Hout.
  destruct left as [|left'].
  - split; [simpl; lia|]. apply Forall_app. split; [by apply Forall_app | apply failed_ok].
  - eapply wp_mono; [apply IH; [done | by apply Forall_app]|]. intros g3 [r3|e3] [H1 H2]; simpl in H1.
    + split; [lia | done].
    + apply wp_ret. split; [lia|]. apply Forall_app. split; [done | apply failed_ok].
Qed.

Lemma result_at_ok i rs : results_ok rs → outcome_ok (result_at i rs).
Proof. induction 1 as [|[j o] r H _ IH]; cbn; [done|]. by destruct (j =? i)%nat. Qed.

Lemma wp_releaseBatch entries g : Forall entry_ok entries →
  wp g (releaseOwnerRecordBatch parse ow_fence entries) (post (g_time g) (Forall outcome_ok)).
Proof.
  intros Ho. unfold releaseOwnerRecordBatch. destruct entries as [|o0 os0]; [by split|].
  set (entries := o0 :: os0) in *. apply wp_bind, wp_get_many; [|intros; by apply post_err].
  intros vs t Ht Hvs.
  assert (Forall class_ok (imap (λ i p, (i, classifyRelease parse ow_fence i p.1 p.2)) (zip entries vs))) as Hcls.
  { clear -Ho Hvs. assert (Forall (λ p, entry_ok p.1 ∧ value_ok t p.1.1 p.2) (zip entries vs)) as HF.
    { remember (map fst entries) as ks eqn:Ek. revert Ek Ho. generalize entries as es. 
      induction Hvs as [|k v ks vs Hv _ IH]; intros [|e es] Ek Ho; try done; cbn; try constructor.
      - apply Forall_cons in Ho as [? ?]. injection Ek as -> Ek. split; done.
      - apply Forall_cons in Ho as [? ?]. injection Ek as -> Ek. by apply IH. }
    apply Forall_forall. intros c Hc. apply elem_of_lookup_imap in Hc as (i & p & -> & Hp).
    rewrite Forall_forall in HF. apply list_elem_of_lookup_2 in Hp. destruct (HF p Hp). by eapply classify_ok. }
  apply wp_bind. eapply wp_mono; [apply wp_releaseLoop; auto using candidates_ok, outcomes_ok|].
  intros g2 [rs|e] [Hg2 Hrs]; simpl in Hg2; [|apply post_err; lia]. split; [lia|].
  apply Forall_forall. intros r Hr. apply elem_of_lookup_imap in Hr as (i & p & -> & _). by apply result_at_ok.
Qed.

Lemma wp_releaseBatches fuel : ∀ entries g, Forall entry_ok entries →
  wp g (releaseBatches parse ow_fence fuel entries) (post (g_time g) (Forall outcome_ok)).
Proof.
  induction fuel as [|n IH]; intros entries g Ho; destruct entries as [|o0 os0]; cbn [releaseBatches];
    try by split.
  set (entries := o0 :: os0) in *. apply wp_bind, wp_catch.
  eapply wp_mono; [apply wp_releaseBatch; by apply Forall_take|].
  assert (∀ g1 rs, g_time g <= g_time g1 → Forall outcome_ok rs →
    wp g1 (let* rest := releaseBatches parse ow_fence n (drop OWNER_RELEASE_BATCH_SIZE entries) in
           pret (rs ++ rest)) (post (g_time g) (Forall outcome_ok))) as Hk.
  { intros g1 rs Hg1 Hrs. apply wp_bind. eapply wp_mono; [apply IH; by apply Forall_drop|].
    intros g2 [rest|e] [Hg2 Hrest]; (split; [lia|]); [by apply Forall_app | done]. }
  intros g1 [rs|e] [Hg1 Hrs]; [by apply Hk|]. apply wp_ret, Hk; [done|].
  apply Forall_map, Forall_forall. done.
Qed.
End release.
End logic.

(** A program that is right whatever the history is right with more knowledge of it. *)
Lemma wp_history {Owner L A} `{!OwnerScheme Owner} (H H' : History) local_ok me (p : prog L A) :
  (∀ t k b, was_stored (History := H') t k b → was_stored (History := H) t k b) →
  (∀ t, was_time (History := H') t → was_time (History := H) t) →
  ∀ g Q, wp (Hist := H) local_ok me g p Q → wp (Hist := H') local_ok me g p Q.
Proof.
  intros Hs Ht. induction p as [r|c k IH|k IH|l p IH]; intros g Q Hp; cbn [wp] in *; [done| | |destruct Hp; auto].
  - destruct Hp as [Hc Hp]. split; [done|]. intros r g' Hr. apply IH, Hp. destruct Hr as [| | | | | | |k0 fk e f v ttl r Hr|]; constructor; auto.
    + intros b Hb. auto.
    + intros Er. destruct (Hr Er) as (t & ? & ?). eauto.
  - intros l Hl. by apply IH, Hp.
Qed.

Arguments wp : simpl never.
Arguments pbind : simpl never.
Arguments pcatch : simpl never.
