(* ===== verification/OwnerWorld.v ===== *)
(** * Owner protocols in every interleaving

    Worlds of any number of tasks over one Redis server, for any [OwnerScheme]. The promise
    of a scope is the lease its last stored record granted; a holder that deletes its own
    record gives the promise up. If the handlers follow the logic of OwnerLogic, the invariant
    [world_ok] holds in every reachable world and every step has the [effect] the theorems of
    the two runtimes are read off from. *)

From stdpp Require Import base list strings gmap.
From Stdlib Require Import ZArith Lia.
From S2P Require Import Prelude NsPattern WorkerContract Utf8 Json JsNumber OwnerLease Redis OwnerProtocol OwnerLogic.

#[local] Open Scope Z_scope.
#[local] Open Scope wdl_scope.

Section world.
Context {Db : Type} `{!RedisServer Db} {Owner L A : Type} `{!OwnerScheme Owner} {Hist : History}.

(** The name of each task, the handlers it starts, what else happens to its state. *)
Context (names : nat → jstr) (api : nat → prog L A → Prop) (tick : L → L → Prop).
Context (local_ok : jstr → L → Prop).

(** What handler [pid] of task [t] may answer, and when a handler may have begun. *)
Context (answer_ok : nat → nat → ghost → result jserr A → Prop) (began : nat → Z → Prop).

Abbreviation world := (world Db L A).
Abbreviation proc := (proc L A).
Abbreviation step := (wstep (Db := Db) api tick).
Abbreviation wp t := (wp (local_ok (names t)) (names t)).

(** ** Promises *)

(** The fence a scope is promised to and the end of the lease. *)
Definition promises := jstr → option (fence * Z).

Definition record_promise (k : jstr) (v : bytes) (pr : promises) : promises := λ K,
  if decide (k = ow_key K) then
    match ow_parse K v with
    | Some o => Some (ow_fence o, ow_lease o)
    | None => pr K
    end
  else pr K.

Definition drop_promise (holder k : jstr) (pr : promises) : promises := λ K,
  if decide (k = ow_key K) then
    match pr K with
    | Some (f, e) => if decide (f.1 = holder ∨ holder = []) then None else Some (f, e)
    | None => None
    end
  else pr K.

Definition note_write (holder : jstr) (pr : promises) (w : write) : promises :=
  match w with WSet k v _ => record_promise k v pr | WDel k => drop_promise holder k pr end.

(** How a command executed by the server changes the promises. *)
Definition promise_step (lbl : option (nat * cmd * reply)) (pr : promises) : promises :=
  match lbl with
  | Some (_, CSetIfEq k v _ _, ROk) => record_promise k v pr
  | Some (_, CRenewFenced k _ _ _ v _, RInt 1) => record_promise k v pr
  | Some (t, CDelIfEq k _, RInt 1) => drop_promise (names t) k pr
  | Some (t, CExec ws, ROk) => fold_left (note_write (names t)) ws pr
  | _ => pr
  end.

(** The scopes whose ownership the control plane has ended. *)
Definition retire_step (lbl : option (nat * cmd * reply)) (rt : jstr → Prop) : jstr → Prop := λ K,
  rt K ∨ match lbl with Some (t, CExec ws, ROk) => names t = [] ∧ WDel (ow_key K) ∈ ws | _ => False end.

(** What pinned a retired scope is never written again. *)
Definition fresh (lbl : option (nat * cmd * reply)) (rt : jstr → Prop) : Prop :=
  match lbl with
  | Some (_, CExec ws, ROk) =>
      ∀ K o k P v ttl, rt K → ow_wf K o → (k, P) ∈ ow_pins o → P v → WSet k v ttl ∉ ws
  | _ => True
  end.

(** A world in which no record is stored and no handler runs. *)
Record initial (w : world) : Prop := {
  in_procs : w_procs w = ∅;
  in_tasks : ∀ t, local_ok (names t) (w_tasks w t);
  in_owner : ∀ K, r_get (ow_key K) (w_db w) = None;
  in_generation : ∀ K, r_get (ow_generation_key K) (w_db w) = None }.

Inductive reachable : world → promises → (jstr → Prop) → Prop :=
| reach_init w : initial w → reachable w (λ _, None) (λ _, False)
| reach_step w pr rt lbl w' : reachable w pr rt → step w lbl w' → fresh lbl rt →
    reachable w' (promise_step lbl pr) (retire_step lbl rt).

(** ** The invariant *)

Definition counter (K : jstr) (db : Db) : Z := counter_of (r_get (ow_generation_key K) db).

Record stored_ok (K : jstr) (db : Db) (pr : promises) (o : Owner) : Prop := {
  so_wf : ow_wf K o;
  so_generation : (ow_fence o).2 <= counter K db;
  so_lease : ow_lease o <= lease_until (r_time db);
  so_deadline : ∃ dl, r_deadline (ow_key K) db = Some dl ∧ ow_lease o <= dl;
  so_promise : ∀ f e, pr K = Some (f, e) → f = ow_fence o ∧ e <= ow_lease o }.

Definition pins_hold (db : Db) (o : Owner) : Prop := 
  Forall (λ kp, ∃ b, r_get kp.1 db = Some b ∧ kp.2 b) (ow_pins o).
Definition guards_hold (db : Db) (o : Owner) : Prop := Forall (λ kp, kp.2 (r_get kp.1 db)) (ow_guards o).

(** Nothing is stored for a retired scope, and nothing can be. *)
Record retired_ok (db : Db) (K : jstr) : Prop := {
  rt_owner : r_get (ow_key K) db = None;
  rt_generation : r_get (ow_generation_key K) db = None;
  rt_pins : ∀ o, ow_wf K o → ¬ pins_hold db o }.

Record db_ok (db : Db) (pr : promises) (rt : jstr → Prop) : Prop := {
  do_gen : ∀ K b, ow_valid K → r_get (ow_generation_key K) db = Some b →
    (∃ g, b = generation_bytes g ∧ 0 <= g <= MAX_SAFE_INTEGER) ∧ r_deadline (ow_generation_key K) db = None;
  do_owner : ∀ K b, ow_valid K → r_get (ow_key K) db = Some b → ∃ o, b = ow_bytes o ∧ stored_ok K db pr o;
  do_absent : ∀ K f e, ow_valid K → r_get (ow_key K) db = None → pr K = Some (f, e) → e <= r_time db;
  do_promise : ∀ K f e, ow_valid K → pr K = Some (f, e) → f.2 <= counter K db;
  do_retired : ∀ K, ow_valid K → rt K → retired_ok db K }.

(** What a handler has learnt is still true. *)
Record knows (db : Db) (writes : jstr → nat) (pw : option (list (jstr * nat))) (g : ghost) : Prop := {
  kn_time : g_time g <= r_time db;
  kn_watch : g_watch g ≠ [] → ∃ l, pw = Some l ∧ map fst l = g_watch g;
  kn_counts : match pw with Some l => Forall (λ kn, (kn.2 <= writes kn.1)%nat) l | None => True end;
  kn_seen : watch_valid pw writes → ∀ k v, (k, v) ∈ g_seen g → k ∈ g_watch g → r_get k db = v }.

Definition proc_ok (db : Db) (writes : jstr → nat) (pid : nat) (p : proc) : Prop :=
  ∃ g, knows db writes (p_watch p) g ∧
  match p_run p with
  | Run q => wp (p_task p) g q (answer_ok pid (p_task p))
  | Got r k => wp (p_task p) g (k r) (answer_ok pid (p_task p)) ∧
               ∃ gf, knows db writes (p_watch p) gf ∧ wp (p_task p) gf (k RFail) (answer_ok pid (p_task p))
  end.

Record world_ok (w : world) (pr : promises) (rt : jstr → Prop) : Prop := {
  wo_db : db_ok (w_db w) pr rt;
  wo_tasks : ∀ t, local_ok (names t) (w_tasks w t);
  wo_procs : ∀ pid p, w_procs w !! pid = Some p → proc_ok (w_db w) (w_writes w) pid p }.

(** The history has what the server holds now. *)
Definition recorded (db : Db) : Prop := was_time (r_time db) ∧ ∀ k b, r_get k db = Some b → was_stored (r_time db) k b.

(** The handlers follow the logic. *)
Hypothesis api_ok : ∀ pid t p g, began pid (g_time g) → api t p → wp t g p (answer_ok pid t).
Hypothesis tick_ok : ∀ t l l', tick l l' → local_ok (names t) l → local_ok (names t) l'.

Lemma run_local_ok {B} t (q : prog L B) : ∀ l l' p g Q,
  run_local l q = (l', p) → local_ok (names t) l → wp t g q Q → local_ok (names t) l' ∧ wp t g p Q.
Proof.
  induction q as [r|c k IH|k IH|l0 q IH]; intros l l' p g Q H Hl Hw; cbn [run_local] in H.
  - by simplify_eq.
  - by simplify_eq.
  - eapply IH; [done..|]. by apply Hw.
  - destruct Hw as [Hl0 Hw]. by eapply IH.
Qed.

(** *** The server *)

Definition write_ok (w : write) : Prop := match w with WSet _ _ ttl => ttl_ok ttl | WDel _ => True end.

Lemma apply_writes_time ws (db : Db) : r_time (apply_writes ws db) = r_time db.
Proof.
  unfold apply_writes. revert db. induction ws as [|w ws IH]; intros db; [done|]. cbn [fold_left].
  rewrite IH. destruct w; cbn [apply_write]; [apply r_time_set | apply r_time_del].
Qed.

Lemma apply_writes_get ws k (db0 : Db) : Forall write_ok ws → k ∉ modified ws db0 → ∀ db,
  r_get k db = r_get k db0 → r_get k (apply_writes ws db) = r_get k db0.
Proof.
  unfold apply_writes. induction 1 as [|w ws Hw _ IH]; intros Hk db Hdb; [done|]. cbn [fold_left].
  cbn [modified flat_map] in Hk. apply not_elem_of_app in Hk as [Hk Hks]. apply IH; [done|].
  destruct w as [k' v ttl|k']; cbn [apply_write].
  - rewrite r_get_set by done. rewrite decide_False; [done|]. intros ->. apply Hk. by left.
  - rewrite r_get_del. case_decide; [|done]. subst k'. rewrite <- Hdb.
    destruct (r_get k db) eqn:E; [|done]. exfalso. apply Hk. rewrite <- Hdb. by left.
Qed.

Lemma foreign_writes_ok ws : Forall foreign_write ws → Forall write_ok ws.
Proof.
  intros H. eapply Forall_impl; [exact H|]. intros [k v ttl|k]; simpl; [by intros [_ ?] | done].
Qed.

Lemma retire_writes_ok Ks : Forall write_ok (retire_writes Ks).
Proof. induction Ks as [|K Ks IH]; [constructor|]. by repeat constructor. Qed.

Lemma cmd_writes_ok me g c : cmd_ok me g c →
  match c with
  | CExec ws => Forall write_ok ws
  | CSetIfEq _ _ ttl _ | CRenewFenced _ _ _ _ _ ttl => 0 < ttl
  | _ => True
  end.
Proof.
  pose proof (ow_ttl_pos (Owner := Owner)) as Ht.
  destruct 1; try done; try (repeat constructor; done); [by apply foreign_writes_ok|].
  apply Forall_app. split; [by apply foreign_writes_ok | apply retire_writes_ok].
Qed.

Lemma serve_time_eq (db : Db) c db' ms r : serve db c db' ms r → r_time db' = r_time db.
Proof. destruct 1; auto using r_time_set, r_time_del, apply_writes_time. Qed.

Lemma serve_get_other me g (db : Db) c db' ms r k :
  cmd_ok me g c → serve db c db' ms r → k ∉ ms → r_get k db' = r_get k db.
Proof.
  intros Hc Hs Hk. apply cmd_writes_ok in Hc. destruct Hs; try done.
  - rewrite r_get_set by done. rewrite decide_False; [done|]. intros ->. apply Hk. by left.
  - rewrite r_get_del, decide_False; [done|]. intros ->. apply Hk. by left.
  - rewrite r_get_set by done. rewrite decide_False; [done|]. intros ->. apply Hk. by left.
  - by apply apply_writes_get.
Qed.

(** *** What a handler has learnt stays true *)

Lemma bump_le ms n k : (n k <= bump ms n k)%nat.
Proof. unfold bump. case_decide; lia. Qed.

Lemma watch_valid_bump ms l n :
  Forall (λ kn, (kn.2 <= n kn.1)%nat) l → watch_valid (Some l) (bump ms n) →
  watch_valid (Some l) n ∧ ∀ k, k ∈ map fst l → k ∉ ms.
Proof.
  cbn [watch_valid]. intros Hc Hv. split.
  - rewrite Forall_forall in *. intros kn Hin. specialize (Hc kn Hin). specialize (Hv kn Hin).
    pose proof (bump_le ms n kn.1). lia.
  - intros k Hk Hms. apply list_elem_of_fmap in Hk as (kn & -> & Hin).
    rewrite Forall_forall in *. specialize (Hc kn Hin). specialize (Hv kn Hin).
    unfold bump in Hv. rewrite decide_True in Hv by done. lia.
Qed.

Lemma knows_serve_other db c db' ms r writes pw g me g2 :
  knows db writes pw g → cmd_ok me g2 c → serve db c db' ms r → knows db' (bump ms writes) pw g.
Proof.
  intros [Ht Hw Hc Hs] Hok Hserve. split.
  - by rewrite (serve_time_eq _ _ _ _ _ Hserve).
  - done.
  - destruct pw as [l|]; [|done]. eapply Forall_impl; [exact Hc|]. intros kn Hle. simpl in *.
    pose proof (bump_le ms writes kn.1). lia.
  - intros Hv k v Hin Hk. destruct (Hw ltac:(by intros E; rewrite E in Hk; apply elem_of_nil in Hk)) as (l & -> & Hl).
    destruct (watch_valid_bump _ _ _ Hc Hv) as [Hv' Hms].
    rewrite (serve_get_other _ _ _ _ _ _ _ k Hok Hserve) by (apply Hms; by rewrite Hl).
    by apply Hs.
Qed.

Lemma bump_expired_le (db db' : Db) n k : (n k <= bump_expired db db' n k)%nat.
Proof. unfold bump_expired. destruct (r_get k db), (r_get k db'); lia. Qed.

Lemma knows_wait db db' writes pw g :
  r_wait db db' → knows db writes pw g → knows db' (bump_expired db db' writes) pw g.
Proof.
  intros Hw [Ht Hwt Hc Hs]. split.
  - pose proof (r_wait_time _ _ Hw). lia.
  - done.
  - destruct pw as [l|]; [|done]. eapply Forall_impl; [exact Hc|]. intros kn Hle. simpl in *.
    pose proof (bump_expired_le db db' writes kn.1). lia.
  - intros Hv k v Hin Hk. destruct (Hwt ltac:(by intros E; rewrite E in Hk; apply elem_of_nil in Hk)) as (l & -> & Hl).
    cbn [watch_valid] in Hv. assert (Forall (λ kn, writes kn.1 = kn.2 ∧ bump_expired db db' writes kn.1 = kn.2) l) as Hv'.
    { rewrite Forall_forall in *. intros kn Hkn. specialize (Hc kn Hkn). specialize (Hv kn Hkn). simpl in *.
      pose proof (bump_expired_le db db' writes kn.1). lia. }
    assert (r_get k db = v) as <-.
    { apply Hs; [|done..]. cbn [watch_valid]. eapply Forall_impl; [exact Hv'|]. by intros kn [? _]. }
    rewrite <- Hl in Hk. apply list_elem_of_fmap in Hk as (kn & -> & Hkn).
    rewrite Forall_forall in Hv'. destruct (Hv' kn Hkn) as [E1 E2]. unfold bump_expired in E2.
    destruct (r_wait_get _ _ kn.1 Hw) as [[E _]|[E _]]; [done|]. rewrite E in E2 |- *.
    destruct (r_get kn.1 db); [lia | done].
Qed.

Lemma knows_fail db writes pw g t :
  knows db writes pw g → t <= g_time g → knows db writes pw (unwatched t).
Proof.
  intros [] Ht. split; simpl; [lia|done|done|]. intros _ k v Hin. by apply elem_of_nil in Hin.
Qed.

Lemma value_ok_db db pr rt k : db_ok db pr rt → value_ok (r_time db) k (r_get k db).
Proof.
  intros Hdb b Hb K HK. split.
  - intros ->. destruct (do_owner _ _ _ Hdb K b HK Hb) as (o & -> & []). eauto.
  - intros ->. by destruct (do_gen _ _ _ Hdb K b HK Hb).
Qed.

(** The step of the handler itself. *)
Lemma knows_serve db c db' ms r writes pw g me pr rt :
  db_ok db pr rt → recorded db → recorded db' → knows db writes pw g → cmd_ok me g c → serve db c db' ms r →
  ∃ g', reply_ok g c r g' ∧
        knows db' (bump ms writes) (watch_after c writes pw) g' ∧ g_time g <= g_time g'.
Proof.
  intros Hdb [Hrt Hrs] [_ Hrs'] Hk Hok Hs. pose proof (knows_serve_other _ _ _ _ _ _ _ _ _ _ Hk Hok Hs) as Hk'.
  pose proof (kn_time _ _ _ _ Hk) as Ht.
  assert (knows db' (bump ms writes) None (unwatched (g_time g))) as Hnone.
  { split; simpl; [by rewrite (serve_time_eq _ _ _ _ _ Hs)|done|done|]. intros _ k v Hin. by apply elem_of_nil in Hin. }
  destruct Hs as [k| |k v ttl e|k v ttl e|k e|k e|k fk e f v ttl|k fk e f v ttl|k fk e f v ttl|ks| |ws|ws]; cbn [watch_after];
    [| |exists g|exists g|exists g|exists g|exists g|exists g|exists g| |exists (unwatched (g_time g))..];
    try (split; [constructor|]; by split_and!); try (split; [by constructor|]; split_and!; try done; lia).
  - exists (Ghost (g_watch g) ((k, r_get k db) :: g_seen g) (r_time db)).
    split; [constructor; [done|by eapply value_ok_db|intros b Hb; by apply Hrs]|]. split; [|done].
    destruct Hk' as [H1 H2 H3 H4]. split; simpl; [lia|done|done|].
    intros Hv k' v' [[= -> ->]|Hin]%elem_of_cons Hkw; [done | by apply H4].
  - exists (Ghost (g_watch g) (g_seen g) (r_time db)). split; [by constructor|]. split; [|done].
    destruct Hk' as [H1 H2 H3 H4]. split; simpl; [lia|done|done|done].
  - split; [|by split_and!]. constructor. intros _. exists (r_time db). split; [done|].
    rewrite <- (r_time_set k v (Some ttl) db). apply Hrs'. apply cmd_writes_ok in Hok. rewrite r_get_set by done. by rewrite decide_True.
  - exists (Ghost ks [] (g_time g)). split; [constructor|]. split; [|done]. split; simpl.
    + done.
    + intros _. eexists. split; [done|]. by rewrite map_map, map_id.
    + apply Forall_map, Forall_forall. intros k _. simpl. apply bump_le.
    + intros _ k v Hin. by apply elem_of_nil in Hin.
Qed.

(** *** Writes *)

(** What the database holds for [K] changes, nothing else of the protocol does. *)
Definition only (K : jstr) (db db' : Db) : Prop :=
  r_time db' = r_time db ∧
  (∀ K', ow_valid K' → K' ≠ K →
     r_get (ow_key K') db' = r_get (ow_key K') db ∧
     r_deadline (ow_key K') db' = r_deadline (ow_key K') db ∧
     r_get (ow_generation_key K') db' = r_get (ow_generation_key K') db ∧
     r_deadline (ow_generation_key K') db' = r_deadline (ow_generation_key K') db) ∧
  (∀ k, foreign k → r_get k db' = r_get k db).

(** The effect of one command on scope [K]: the counter never decreases unless the scope is
    retired, a stored record keeps its fence or has a fresh generation and its guards hold, a
    record is only written while its pins hold, and a promise is only broken after its lease
    or by its holder. *)
Record effect (dead : Prop) (holder : jstr) (K : jstr) (db db' : Db) (pr pr' : promises) : Prop := {
  ef_counter : counter K db <= counter K db' ∨ dead;
  ef_fence : ∀ o', r_get (ow_key K) db' = Some (ow_bytes o') → ow_wf K o' →
    (∃ o, r_get (ow_key K) db = Some (ow_bytes o) ∧ ow_wf K o ∧ ow_fence o = ow_fence o') ∨
    (counter K db < (ow_fence o').2 ∧ (ow_fence o').2 = counter K db' ∧ guards_hold db o');
  ef_pins : ∀ o', r_get (ow_key K) db' = Some (ow_bytes o') → ow_wf K o' →
    r_get (ow_key K) db = Some (ow_bytes o') ∨ pins_hold db o';
  ef_promise : ∀ f e f' e', pr K = Some (f, e) → pr' K = Some (f', e') →
    (f' = f ∧ e <= e') ∨ (f' ≠ f ∧ (e <= r_time db ∨ f.1 = holder)) }.

Lemma effect_same dead holder K db db' pr pr' :
  r_get (ow_key K) db' = r_get (ow_key K) db →
  r_get (ow_generation_key K) db' = r_get (ow_generation_key K) db → pr' K = pr K → effect dead holder K db db' pr pr'.
Proof.
  intros Eo Eg Ep. split.
  - left. unfold counter. by rewrite Eg.
  - intros o' Ho Hwf. left. exists o'. by rewrite <- Eo.
  - intros o' Ho Hwf. left. by rewrite <- Eo.
  - intros f e f' e' H1 H2. rewrite Ep, H1 in H2. simplify_eq. left. done.
Qed.

(** Pins are foreign keys. *)
Lemma pins_foreign db db' K o : ow_wf K o → (∀ k, foreign k → r_get k db' = r_get k db) →
  pins_hold db' o → pins_hold db o.
Proof.
  intros Hwf Hfor. unfold pins_hold. rewrite !Forall_forall. intros H [k P] Hin. simpl.
  rewrite <- Hfor; [by apply (H (k, P))|]. intros K' HK'. by eapply ow_pins_foreign.
Qed.

(** It is enough to look at the scope a command is about. *)
Lemma only_ok K db db' pr pr' rt holder :
  db_ok db pr rt → only K db db' → (∀ K', K' ≠ K → ow_valid K' → pr' K' = pr K') →
  (∀ b, r_get (ow_generation_key K) db' = Some b →
     (∃ g, b = generation_bytes g ∧ 0 <= g <= MAX_SAFE_INTEGER) ∧ r_deadline (ow_generation_key K) db' = None) →
  (∀ b, r_get (ow_key K) db' = Some b → ∃ o, b = ow_bytes o ∧ stored_ok K db' pr' o) →
  (∀ f e, r_get (ow_key K) db' = None → pr' K = Some (f, e) → e <= r_time db') →
  (∀ f e, pr' K = Some (f, e) → f.2 <= counter K db') →
  (ow_valid K → rt K → r_get (ow_key K) db' = None ∧ r_get (ow_generation_key K) db' = None) →
  (ow_valid K → effect False holder K db db' pr pr') →
  db_ok db' pr' rt ∧ ∀ K', ow_valid K' → effect False holder K' db db' pr pr'.
Proof.
  intros Hdb (Ht & Ho & Hfor) Hpr Hg Hown Habs Hp Hret Hef. split; [split|].
  - intros K' b HK'. destruct (decide (K' = K)) as [->|Hne]; [apply Hg|].
    destruct (Ho K' HK' Hne) as (E1 & E2 & E3 & E4). rewrite E3, E4. by apply (do_gen _ _ _ Hdb).
  - intros K' b HK'. destruct (decide (K' = K)) as [->|Hne]; [apply Hown|].
    destruct (Ho K' HK' Hne) as (E1 & E2 & E3 & E4). rewrite E1. intros Hb.
    destruct (do_owner _ _ _ Hdb K' b HK' Hb) as (o & -> & []). exists o. split; [done|].
    split; try done.
    + unfold counter. by rewrite E3.
    + by rewrite Ht.
    + by rewrite E2.
    + by rewrite Hpr.
  - intros K' f e HK'. destruct (decide (K' = K)) as [->|Hne]; [apply Habs|].
    destruct (Ho K' HK' Hne) as (E1 & E2 & E3 & E4). rewrite E1, Hpr, Ht by done. by apply (do_absent _ _ _ Hdb).
  - intros K' f e HK'. destruct (decide (K' = K)) as [->|Hne]; [apply Hp|].
    destruct (Ho K' HK' Hne) as (E1 & E2 & E3 & E4). unfold counter. rewrite E3, Hpr by done.
    by apply (do_promise _ _ _ Hdb).
  - intros K' HK' Hrt. destruct (do_retired _ _ _ Hdb K' HK' Hrt) as [R1 R2 R3]. split.
    + destruct (decide (K' = K)) as [->|Hne]; [by apply Hret|]. by destruct (Ho K' HK' Hne) as (-> & _).
    + destruct (decide (K' = K)) as [->|Hne]; [by apply Hret|]. by destruct (Ho K' HK' Hne) as (_ & _ & -> & _).
    + intros o Hwf Hpin. apply (R3 o Hwf). by eapply pins_foreign.
  - intros K' HK'. destruct (decide (K' = K)) as [->|Hne]; [by apply Hef|].
    destruct (Ho K' HK' Hne) as (E1 & E2 & E3 & E4). apply effect_same; auto.
Qed.

Lemma record_promise_self K o pr : ow_wf K o →
  record_promise (ow_key K) (ow_bytes o) pr K = Some (ow_fence o, ow_lease o).
Proof.
  intros Hwf. unfold record_promise. rewrite decide_True by done. by rewrite (ow_parse_bytes _ _ Hwf).
Qed.

Lemma record_promise_other k v pr K : k ≠ ow_key K → record_promise k v pr K = pr K.
Proof. intros H. unfold record_promise. by rewrite decide_False. Qed.

Lemma drop_promise_other h k pr K : k ≠ ow_key K → drop_promise h k pr K = pr K.
Proof. intros H. unfold drop_promise. by rewrite decide_False. Qed.

Lemma set_owner_only K v ttl (db : Db) : ow_valid K → ttl_ok ttl → only K db (r_set (ow_key K) v ttl db).
Proof.
  intros HK Ht. split; [apply r_time_set|]. split.
  - intros K' HK' Hne. assert (ow_key K ≠ ow_key K') by (intros E; by apply ow_key_inj in E).
    pose proof (ow_keys_ne K K' HK HK'). rewrite !r_get_set, !r_deadline_set, !decide_False by done. done.
  - intros k Hk. destruct (Hk K HK). by rewrite r_get_set, decide_False.
Qed.

Lemma set_generation_only K v (db : Db) : ow_valid K → only K db (r_set (ow_generation_key K) v None db).
Proof.
  intros HK. split; [apply r_time_set|]. split.
  - intros K' HK' Hne.
    assert (ow_generation_key K ≠ ow_generation_key K') by (intros E; by apply ow_generation_key_inj in E).
    assert (ow_generation_key K ≠ ow_key K') by (intros E; by apply (ow_keys_ne K' K HK' HK)).
    rewrite !r_get_set, !r_deadline_set, !decide_False by done. done.
  - intros k Hk. destruct (Hk K HK). by rewrite r_get_set, decide_False.
Qed.

Lemma del_owner_only K (db : Db) : ow_valid K → only K db (r_del (ow_key K) db).
Proof.
  intros HK. split; [apply r_time_del|]. split.
  - intros K' HK' Hne. assert (ow_key K ≠ ow_key K') by (intros E; by apply ow_key_inj in E).
    pose proof (ow_keys_ne K K' HK HK'). rewrite !r_get_del, !decide_False by done. by rewrite !r_deadline_del.
  - intros k Hk. destruct (Hk K HK). by rewrite r_get_del, decide_False.
Qed.

Lemma only_trans K db1 db2 db3 : only K db1 db2 → only K db2 db3 → only K db1 db3.
Proof.
  intros (T1 & O1 & F1) (T2 & O2 & F2). split; [congruence|]. split.
  - intros K' HK' Hne. destruct (O1 K' HK' Hne) as (? & ? & ? & ?), (O2 K' HK' Hne) as (? & ? & ? & ?).
    split_and!; congruence.
  - intros k Hk. by rewrite F2, F1.
Qed.

Lemma stored_unique K db pr rt o : db_ok db pr rt → ow_wf K o →
  r_get (ow_key K) db = Some (ow_bytes o) → stored_ok K db pr o.
Proof.
  intros Hdb Hwf Hb. destruct (do_owner _ _ _ Hdb K _ (ow_wf_valid _ _ Hwf) Hb) as (o' & E & Hs).
  apply (ow_bytes_inj K) in E; [by subst | done | apply (so_wf _ _ _ _ Hs)].
Qed.

Lemma ttl_covers (db : Db) : lease_until (r_time db) <= r_time db + 1000 * ow_ttl.
Proof. unfold lease_until. lia. Qed.

Definition serve_result (holder : jstr) (db db' : Db) (pr pr' : promises) (rt : jstr → Prop) : Prop :=
  db_ok db' pr' rt ∧ ∀ K, ow_valid K → effect False holder K db db' pr pr'.

Lemma claim_ok holder K o db pr rt vg vo t :
  db_ok db pr rt → ow_wf K o → r_get (ow_generation_key K) db = vg →
  r_get (ow_key K) db = vo → counter_of vg < (ow_fence o).2 → t <= r_time db → ow_lease o <= lease_until t →
  may_replace holder t K vo → pins_hold db o → guards_hold db o →
  let ws := claim_writes K o in
  serve_result holder db (apply_writes ws db) pr (fold_left (note_write holder) ws pr) rt.
Proof.
  intros Hdb Hwf Hg Ho Hlt Ht Hl Hr Hpin Hgu. pose proof (ow_wf_valid _ _ Hwf) as HK.
  pose proof (ow_ttl_pos (Owner := Owner)) as Httl.
  pose proof (ow_wf_generation _ _ Hwf) as Hgen. cbn [claim_writes apply_writes fold_left apply_write note_write].
  set (db1 := r_set (ow_generation_key K) (generation_bytes (ow_fence o).2) None db).
  set (db' := r_set (ow_key K) (ow_bytes o) (Some ow_ttl) db1).
  set (pr' := record_promise (ow_key K) (ow_bytes o) _).
  pose proof (ow_keys_ne K K HK HK) as Hne.
  assert (r_time db' = r_time db) as Et by (unfold db', db1; by rewrite !r_time_set).
  assert (r_get (ow_key K) db' = Some (ow_bytes o)) as Eo.
  { unfold db'. by rewrite r_get_set, decide_True. }
  assert (r_get (ow_generation_key K) db' = Some (generation_bytes (ow_fence o).2)) as Eg.
  { unfold db', db1. rewrite r_get_set, decide_False by done. by rewrite r_get_set, decide_True. }
  assert (counter K db' = (ow_fence o).2) as Ec.
  { unfold counter. rewrite Eg. apply generation_bytes_value. lia. }
  assert (counter K db = counter_of vg) as Ec0 by (unfold counter; by rewrite Hg).
  assert (pr' K = Some (ow_fence o, ow_lease o)) as Ep by by apply record_promise_self.
  apply only_ok with K; auto.
  - eapply only_trans; [by apply set_generation_only | by apply set_owner_only].
  - intros K' Hn HK'. unfold pr'. rewrite record_promise_other by (intros E; apply Hn; by apply ow_key_inj in E).
    apply record_promise_other. intros E. by apply (ow_keys_ne K' K HK' HK).
  - intros b Hb. rewrite Eg in Hb. simplify_eq. split; [eexists; split; [done | lia]|].
    unfold db', db1. rewrite r_deadline_set, decide_False by done. by rewrite r_deadline_set, decide_True.
  - intros b Hb. rewrite Eo in Hb. simplify_eq. exists o. split; [done|]. split; [done|lia| | |].
    + rewrite Et. etransitivity; [exact Hl | by apply lease_until_mono].
    + exists (r_time db + 1000 * ow_ttl). split.
      * unfold db'. rewrite r_deadline_set, decide_True by done. unfold db1. by rewrite r_time_set.
      * pose proof (ttl_covers db). pose proof (lease_until_mono _ _ Ht). lia.
    + intros f e E. rewrite Ep in E. by simplify_eq.
  - intros f e E. by rewrite Eo in E.
  - intros f e E. rewrite Ep in E. simplify_eq. lia.
  - intros _ Hrt. by destruct (rt_pins _ _ (do_retired _ _ _ Hdb K HK Hrt) o Hwf).
  - intros _. split; [left; lia| | |].
    + intros o' Ho' Hwf'. rewrite Eo in Ho'. injection Ho' as Ho'.
      apply (ow_bytes_inj K) in Ho' as <-; [|done..]. right. split_and!; [lia|lia|done].
    + intros o' Ho' Hwf'. rewrite Eo in Ho'. injection Ho' as Ho'.
      apply (ow_bytes_inj K) in Ho' as <-; [|done..]. by right.
    + intros f e f' e' E E'. rewrite Ep in E'. simplify_eq.
      destruct (decide (ow_fence o = f)) as [<-|Hf]; [left|right; split; [done|]].
      * pose proof (do_promise _ _ _ Hdb K _ _ HK E) as Hp. lia.
      * destruct (r_get (ow_key K) db) as [b|] eqn:Eb.
        -- destruct (Hr b ltac:(congruence)) as (cur & -> & Hcur & Hor).
           pose proof (stored_unique _ _ _ _ _ Hdb Hcur Eb) as Hs.
           destruct (so_promise _ _ _ _ Hs _ _ E) as [-> He]. destruct Hor; [left; lia | right; done].
        -- left. by apply (do_absent _ _ _ Hdb K f).
Qed.

Lemma renew_ok holder K cur o db pr rt t :
  db_ok db pr rt → continues holder t K cur o → r_get (ow_key K) db = Some (ow_bytes cur) →
  t <= r_time db → pins_hold db o →
  serve_result holder db (r_set (ow_key K) (ow_bytes o) (Some ow_ttl) db) pr
    (record_promise (ow_key K) (ow_bytes o) pr) rt.
Proof.
  intros Hdb (Hcur & Hwf & Hf & Hme & Hle & Hl) Hb Ht Hpin. pose proof (ow_wf_valid _ _ Hwf) as HK.
  pose proof (ow_ttl_pos (Owner := Owner)) as Httl.
  pose proof (stored_unique _ _ _ _ _ Hdb Hcur Hb) as Hs.
  set (db' := r_set _ _ _ _). set (pr' := record_promise _ _ _).
  pose proof (ow_keys_ne K K HK HK) as Hne.
  assert (r_time db' = r_time db) as Et by (unfold db'; by rewrite r_time_set).
  assert (r_get (ow_key K) db' = Some (ow_bytes o)) as Eo.
  { unfold db'. by rewrite r_get_set, decide_True. }
  assert (r_get (ow_generation_key K) db' = r_get (ow_generation_key K) db) as Eg.
  { unfold db'. by rewrite r_get_set, decide_False. }
  assert (counter K db' = counter K db) as Ec by (unfold counter; by rewrite Eg).
  assert (pr' K = Some (ow_fence o, ow_lease o)) as Ep by by apply record_promise_self.
  pose proof (so_generation _ _ _ _ Hs) as Hgen. rewrite <- Hf in Hgen.
  apply only_ok with K; auto.
  - by apply set_owner_only.
  - intros K' Hn HK'. apply record_promise_other. intros E. apply Hn. by apply ow_key_inj in E.
  - intros b E. rewrite Eg in E. unfold db'. rewrite r_deadline_set, decide_False by done.
    by apply (do_gen _ _ _ Hdb).
  - intros b E. rewrite Eo in E. simplify_eq. exists o. split; [done|]. split; [done|lia| | |].
    + rewrite Et. etransitivity; [exact Hl | by apply lease_until_mono].
    + exists (r_time db + 1000 * ow_ttl). split.
      * unfold db'. by rewrite r_deadline_set, decide_True.
      * pose proof (ttl_covers db). pose proof (lease_until_mono _ _ Ht). lia.
    + intros f e E. rewrite Ep in E. by simplify_eq.
  - intros f e E. by rewrite Eo in E.
  - intros f e E. rewrite Ep in E. simplify_eq. lia.
  - intros _ Hrt. by destruct (rt_pins _ _ (do_retired _ _ _ Hdb K HK Hrt) o Hwf).
  - intros _. split; [left; lia| | |].
    + intros o' Ho' Hwf'. rewrite Eo in Ho'. injection Ho' as Ho'.
      apply (ow_bytes_inj K) in Ho' as <-; [|done..]. left. exists cur. by rewrite Hf.
    + intros o' Ho' Hwf'. rewrite Eo in Ho'. injection Ho' as Ho'.
      apply (ow_bytes_inj K) in Ho' as <-; [|done..]. by right.
    + intros f e f' e' E E'. rewrite Ep in E'. simplify_eq.
      destruct (so_promise _ _ _ _ Hs _ _ E) as [-> He]. left. split; [done | lia].
Qed.

Lemma repair_ok holder K o db pr rt :
  ow_wf K o → db_ok db pr rt → counter K db < (ow_fence o).2 → pins_hold db o →
  let ws := [WSet (ow_generation_key K) (generation_bytes (ow_fence o).2) None] in
  serve_result holder db (apply_writes ws db) pr (fold_left (note_write holder) ws pr) rt.
Proof.
  intros Hwf Hdb Hlt Hpin. pose proof (ow_wf_valid _ _ Hwf) as HK. pose proof (ow_wf_generation _ _ Hwf) as Hmax.
  set (gen := (ow_fence o).2) in *. cbn [apply_writes fold_left apply_write note_write].
  set (db' := r_set _ _ _ _). set (pr' := record_promise _ _ _).
  pose proof (ow_keys_ne K K HK HK) as Hne.
  pose proof (counter_of_pos (r_get (ow_generation_key K) db)) as Hpos.
  assert (∀ K', ow_valid K' → pr' K' = pr K') as Ep.
  { intros K' HK'. apply record_promise_other. intros E. by apply (ow_keys_ne K' K HK' HK). }
  assert (r_time db' = r_time db) as Et by (unfold db'; by rewrite r_time_set).
  assert (r_get (ow_key K) db' = r_get (ow_key K) db) as Eo.
  { unfold db'. by rewrite r_get_set, decide_False. }
  assert (r_get (ow_generation_key K) db' = Some (generation_bytes gen)) as Eg.
  { unfold db'. by rewrite r_get_set, decide_True. }
  assert (counter K db' = gen) as Ec
    by (unfold counter in *; rewrite Eg; apply generation_bytes_value; lia).
  apply only_ok with K; auto.
  - by apply set_generation_only.
  - intros b E. rewrite Eg in E. simplify_eq. unfold counter in Hlt. split; [eexists; split; [done | lia]|].
    unfold db'. by rewrite r_deadline_set, decide_True.
  - intros b E. rewrite Eo in E. destruct (do_owner _ _ _ Hdb K b HK E) as (o1 & -> & []). exists o1. split; [done|].
    split; [done|lia|by rewrite Et| |by rewrite Ep].
    unfold db'. by rewrite r_deadline_set, decide_False.
  - intros f e. rewrite Eo, Ep, Et by done. by apply (do_absent _ _ _ Hdb).
  - intros f e. rewrite Ep by done. intros E. pose proof (do_promise _ _ _ Hdb K f e HK E). lia.
  - intros _ Hrt. by destruct (rt_pins _ _ (do_retired _ _ _ Hdb K HK Hrt) o Hwf).
  - intros _. split; [left; lia| | |].
    + intros o' Ho' Hwf'. rewrite Eo in Ho'. left. eauto.
    + intros o' Ho' Hwf'. rewrite Eo in Ho'. by left.
    + intros f e f' e'. rewrite Ep by done. intros E E'. rewrite E in E'. simplify_eq. by left.
Qed.

Lemma delete_ok holder K db pr rt :
  ow_valid K → db_ok db pr rt →
  (∀ b, r_get (ow_key K) db = Some b → ∃ cur, b = ow_bytes cur ∧ ow_wf K cur ∧ (ow_fence cur).1 = holder) →
  serve_result holder db (r_del (ow_key K) db) pr (drop_promise holder (ow_key K) pr) rt.
Proof.
  intros HK Hdb Hcur. set (db' := r_del _ _). set (pr' := drop_promise _ _ _).
  pose proof (ow_keys_ne K K HK HK) as Hne.
  assert (r_time db' = r_time db) as Et by apply r_time_del.
  assert (r_get (ow_key K) db' = None) as Eo by (unfold db'; by rewrite r_get_del, decide_True).
  assert (r_get (ow_generation_key K) db' = r_get (ow_generation_key K) db) as Eg.
  { unfold db'. by rewrite r_get_del, decide_False. }
  assert (counter K db' = counter K db) as Ec by (unfold counter; by rewrite Eg).
  assert (∀ f e, pr' K = Some (f, e) → pr K = Some (f, e) ∧ f.1 ≠ holder) as Ep.
  { unfold pr', drop_promise. rewrite decide_True by done. intros f e. destruct (pr K) as [[f0 e0]|]; [|done].
    case_decide as Hd; [done|]. intros [= <- <-]. split; [done|]. intros E. apply Hd. by left. }
  apply only_ok with K; auto.
  - by apply del_owner_only.
  - intros K' Hn HK'. apply drop_promise_other. intros E. apply Hn. by apply ow_key_inj in E.
  - intros b E. rewrite Eg in E. unfold db'. rewrite r_deadline_del by done. by apply (do_gen _ _ _ Hdb).
  - intros b E. by rewrite Eo in E.
  - intros f e _ E. apply Ep in E as [E Hh]. rewrite Et. destruct (r_get (ow_key K) db) as [b|] eqn:Eb.
    + destruct (Hcur b eq_refl) as (cur & -> & Hwf & Hm). exfalso.
      destruct (so_promise _ _ _ _ (stored_unique _ _ _ _ _ Hdb Hwf Eb) _ _ E) as [-> _]. done.
    + by apply (do_absent _ _ _ Hdb K f).
  - intros f e E. apply Ep in E as [E _]. rewrite Ec. by apply (do_promise _ _ _ Hdb K f e).
  - intros _ Hrt. split; [done|]. rewrite Eg. apply (do_retired _ _ _ Hdb K HK Hrt).
  - intros _. split; [left; lia| | |].
    + intros o' Ho'. by rewrite Eo in Ho'.
    + intros o' Ho'. by rewrite Eo in Ho'.
    + intros f e f' e' E E'. apply Ep in E' as [E' _]. rewrite E in E'. simplify_eq. by left.
Qed.

(** Writes of other components. *)
Lemma foreign_get ws (db : Db) K : Forall foreign_write ws → ow_valid K →
  (r_get (ow_key K) (apply_writes ws db) = r_get (ow_key K) db ∧
   r_deadline (ow_key K) (apply_writes ws db) = r_deadline (ow_key K) db) ∧
  (r_get (ow_generation_key K) (apply_writes ws db) = r_get (ow_generation_key K) db ∧
   r_deadline (ow_generation_key K) (apply_writes ws db) = r_deadline (ow_generation_key K) db).
Proof.
  intros H HK. revert db. induction H as [|w ws Hw _ IH]; intros db; [done|].
  unfold apply_writes in *. cbn [fold_left]. destruct (IH (apply_write db w)) as [[-> ->] [-> ->]].
  destruct w as [k v ttl|k]; cbn [apply_write foreign_write] in *.
  - destruct Hw as [Hk Ht]. destruct (Hk K HK). rewrite !r_get_set, !r_deadline_set, !decide_False by done. done.
  - destruct (Hw K HK). rewrite !r_get_del, !decide_False, !r_deadline_del by done. done.
Qed.

Lemma foreign_promise holder ws pr K : Forall foreign_write ws → ow_valid K →
  fold_left (note_write holder) ws pr K = pr K.
Proof.
  intros H HK. revert pr. induction H as [|w ws Hw _ IH]; intros pr; [done|]. cbn [fold_left]. rewrite IH.
  destruct w as [k v ttl|k]; cbn [note_write foreign_write] in *.
  - apply record_promise_other. by destruct Hw as [Hk _], (Hk K HK).
  - apply drop_promise_other. by destruct (Hw K HK).
Qed.

Lemma foreign_pin ws k v : Forall write_ok ws → (∀ ttl, WSet k v ttl ∉ ws) → ∀ db : Db,
  r_get k (apply_writes ws db) = Some v → r_get k db = Some v.
Proof.
  induction 1 as [|w ws Hw _ IH]; intros Hn db H; [done|]. unfold apply_writes in *. cbn [fold_left] in H.
  apply IH in H; [|intros ttl Hin; apply (Hn ttl); by right]. destruct w as [k' v' ttl|k']; cbn [apply_write] in H.
  - rewrite r_get_set in H by done. case_decide; [|done]. simplify_eq. destruct (Hn ttl). by left.
  - rewrite r_get_del in H. by case_decide.
Qed.

Lemma deleted_key ws k (db : Db) : Forall write_ok ws → WDel k ∈ ws → (∀ v ttl, WSet k v ttl ∉ ws) →
  r_get k (apply_writes ws db) = None.
Proof.
  intros Hws Hd Hs. destruct (r_get k (apply_writes ws db)) as [v|] eqn:E; [|done].
  revert db E. induction Hws as [|w ws Hw Hws IH]; intros db E; [by apply elem_of_nil in Hd|].
  assert (∀ v ttl, WSet k v ttl ∉ ws) as Hs' by (intros v' ttl Hin; apply (Hs v' ttl); by right).
  unfold apply_writes in *. cbn [fold_left] in E. apply elem_of_cons in Hd as [<-|Hd]; [|by eapply IH].
  cbn [apply_write] in E. apply (foreign_pin ws k v) in E; [|done|by intros ttl].
  by rewrite r_get_del, decide_True in E.
Qed.

Definition fresh_writes (ws : list write) (rt : jstr → Prop) : Prop :=
  ∀ K o k P v ttl, rt K → ow_wf K o → (k, P) ∈ ow_pins o → P v → WSet k v ttl ∉ ws.

Lemma fresh_pins ws (db : Db) rt K o : Forall write_ok ws → fresh_writes ws rt → rt K → ow_wf K o →
  pins_hold (apply_writes ws db) o → pins_hold db o.
Proof.
  intros Hws Hf Hrt Hwf. unfold pins_hold. rewrite !Forall_forall. intros H [k P] Hin.
  destruct (H (k, P) Hin) as (v & Hv & HP). exists v. split; [|done]. eapply foreign_pin; [done| |exact Hv]. intros ttl. by eapply Hf.
Qed.

Lemma foreign_ok holder ws db pr rt : db_ok db pr rt → Forall foreign_write ws → fresh_writes ws rt →
  serve_result holder db (apply_writes ws db) pr (fold_left (note_write holder) ws pr) rt.
Proof.
  intros Hdb Hws Hf. pose proof (apply_writes_time ws db) as Et. pose proof (foreign_promise holder ws pr) as Ep.
  assert (∀ K, ow_valid K → counter K (apply_writes ws db) = counter K db) as Ec.
  { intros K HK. unfold counter. by destruct (foreign_get ws db K Hws HK) as [_ [-> _]]. }
  split; [split|].
  - intros K b HK. destruct (foreign_get ws db K Hws HK) as [_ [-> ->]]. by apply (do_gen _ _ _ Hdb).
  - intros K b HK. destruct (foreign_get ws db K Hws HK) as [[E1 E2] _]. rewrite E1. intros Hb.
    destruct (do_owner _ _ _ Hdb K b HK Hb) as (o & -> & []). exists o. split; [done|].
    split; rewrite ?Ec, ?Et, ?E2, ?Ep by done; done.
  - intros K f e HK. destruct (foreign_get ws db K Hws HK) as [[-> _] _]. rewrite Ep, Et by done.
    by apply (do_absent _ _ _ Hdb).
  - intros K f e HK. rewrite Ep, Ec by done. by apply (do_promise _ _ _ Hdb).
  - intros K HK Hrt. destruct (do_retired _ _ _ Hdb K HK Hrt) as [R1 R2 R3].
    destruct (foreign_get ws db K Hws HK) as [[E1 _] [E2 _]]. split; [by rewrite E1 | by rewrite E2|].
    intros o Hwf Hpin. apply (R3 o Hwf). by apply (fresh_pins ws db rt K o (foreign_writes_ok _ Hws) Hf Hrt Hwf).
  - intros K HK. destruct (foreign_get ws db K Hws HK) as [[E1 _] [E2 _]]. apply effect_same; auto.
Qed.

(** *** Retirement *)

Lemma retire_cons K Ks (db : Db) :
  apply_writes (retire_writes (K :: Ks)) db =
  apply_writes (retire_writes Ks) (r_del (ow_generation_key K) (r_del (ow_key K) db)).
Proof. done. Qed.

Lemma retire_note_cons K Ks pr :
  fold_left (note_write []) (retire_writes (K :: Ks)) pr =
  fold_left (note_write []) (retire_writes Ks) (drop_promise [] (ow_generation_key K) (drop_promise [] (ow_key K) pr)).
Proof. done. Qed.

Lemma retire_other Ks k : (∀ K, K ∈ Ks → k ≠ ow_key K ∧ k ≠ ow_generation_key K) → ∀ db : Db,
  r_get k (apply_writes (retire_writes Ks) db) = r_get k db ∧
  r_deadline k (apply_writes (retire_writes Ks) db) = r_deadline k db.
Proof.
  induction Ks as [|K Ks IH]; intros Hk db; [done|]. rewrite retire_cons.
  destruct (Hk K ltac:(by left)) as [H1 H2].
  destruct (IH (λ K' HK', Hk K' ltac:(by right)) (r_del (ow_generation_key K) (r_del (ow_key K) db))) as [-> ->].
  rewrite !r_get_del, !decide_False, !r_deadline_del by done. done.
Qed.

Lemma retire_absent Ks k (db : Db) : r_get k db = None → r_get k (apply_writes (retire_writes Ks) db) = None.
Proof.
  revert db. induction Ks as [|K Ks IH]; intros db H; [done|]. rewrite retire_cons.
  apply IH. rewrite !r_get_del. by repeat case_decide.
Qed.

Lemma retire_gone Ks K (db : Db) : K ∈ Ks →
  r_get (ow_key K) (apply_writes (retire_writes Ks) db) = None ∧
  r_get (ow_generation_key K) (apply_writes (retire_writes Ks) db) = None.
Proof.
  intros HK. revert db. induction HK as [K Ks|K K' Ks _ IH]; intros db; rewrite retire_cons; [|by apply IH].
  split; apply retire_absent; rewrite !r_get_del; by repeat case_decide.
Qed.

Lemma drop_promise_none h k pr K : pr K = None → drop_promise h k pr K = None.
Proof. intros H. unfold drop_promise. rewrite H. by case_decide. Qed.

Lemma retire_promise Ks K pr : ow_valid K → Forall ow_valid Ks →
  fold_left (note_write []) (retire_writes Ks) pr K = if decide (K ∈ Ks) then None else pr K.
Proof.
  intros HK HKs.
  assert (∀ Ks' pr', pr' K = None → fold_left (note_write []) (retire_writes Ks') pr' K = None) as Hnone.
  { induction Ks' as [|K' Ks' IH]; intros pr' H; [done|].
    rewrite retire_note_cons. apply IH. by do 2 apply drop_promise_none. }
  revert pr. induction HKs as [|K' Ks HK' _ IH]; intros pr; [by rewrite decide_False by apply not_elem_of_nil|].
  rewrite retire_note_cons. destruct (decide (K = K')) as [<-|Hne].
  - rewrite decide_True by by left. apply Hnone, drop_promise_none. unfold drop_promise. rewrite decide_True by done.
    destruct (pr K) as [[f e]|]; [|done]. by rewrite decide_True by by right.
  - rewrite IH, !drop_promise_other.
    + destruct (decide (K ∈ Ks)) as [H|H]; [by rewrite decide_True by by right|].
      rewrite decide_False; [done|]. by intros [?|?]%elem_of_cons.
    + intros E. apply Hne. by apply ow_key_inj in E.
    + intros E. by apply (ow_keys_ne K K').
Qed.

Lemma retire_ok Ks ws db pr rt :
  db_ok db pr rt → Forall foreign_write ws → fresh_writes ws rt → Forall (unpinned ws) Ks →
  db_ok (apply_writes (ws ++ retire_writes Ks) db) (fold_left (note_write []) (ws ++ retire_writes Ks) pr) (λ K, rt K ∨ K ∈ Ks) ∧
  ∀ K, ow_valid K → effect (K ∈ Ks) [] K db (apply_writes (ws ++ retire_writes Ks) db) pr
                      (fold_left (note_write []) (ws ++ retire_writes Ks) pr).
Proof.
  intros Hdb Hws Hf Hun. destruct (foreign_ok [] ws db pr rt Hdb Hws Hf) as [Hdb1 Hef1].
  assert (Forall ow_valid Ks) as HKs by (eapply Forall_impl; [exact Hun|]; by intros K [? _]).
  rewrite fold_left_app. unfold apply_writes at 1 2. rewrite fold_left_app.
  fold (apply_writes ws db). set (db1 := apply_writes ws db) in *.
  fold (apply_writes (retire_writes Ks) db1). set (db2 := apply_writes (retire_writes Ks) db1).
  set (pr1 := fold_left (note_write []) ws pr) in *. set (pr2 := fold_left _ (retire_writes Ks) pr1).
  assert (r_time db2 = r_time db1) as Et by apply apply_writes_time.
  assert (∀ K, ow_valid K → K ∉ Ks →
    r_get (ow_key K) db2 = r_get (ow_key K) db1 ∧ r_deadline (ow_key K) db2 = r_deadline (ow_key K) db1 ∧
    r_get (ow_generation_key K) db2 = r_get (ow_generation_key K) db1 ∧
    r_deadline (ow_generation_key K) db2 = r_deadline (ow_generation_key K) db1 ∧ pr2 K = pr1 K) as Hout.
  { intros K HK Hn. rewrite Forall_forall in HKs.
    destruct (retire_other Ks (ow_key K)) with (db := db1) as [E1 E2].
    { intros K' HK'. split; [|by apply ow_keys_ne; auto]. intros E. apply ow_key_inj in E; [by subst | done | by apply HKs]. }
    destruct (retire_other Ks (ow_generation_key K)) with (db := db1) as [E3 E4].
    { intros K' HK'. split; [by intros E; apply (ow_keys_ne K' K); auto|]. intros E.
      apply ow_generation_key_inj in E; [by subst | done | by apply HKs]. }
    split_and!; try done. unfold pr2. rewrite retire_promise by (done || by apply Forall_forall). by rewrite decide_False. }
  assert (∀ K, ow_valid K → K ∈ Ks →
    r_get (ow_key K) db2 = None ∧ r_get (ow_generation_key K) db2 = None ∧ pr2 K = None) as Hin.
  { intros K HK H. destruct (retire_gone Ks K db1 H) as [E1 E2]. split_and!; try done.
    unfold pr2. rewrite retire_promise by done. by rewrite decide_True. }
  assert (∀ o K, ow_wf K o → pins_hold db2 o → pins_hold db1 o) as Hpins.
  { intros o K Hwf. apply (pins_foreign _ _ K); [done|]. intros k Hk.
    apply (retire_other Ks k). intros K' HK'. apply Hk. rewrite Forall_forall in HKs. auto. }
  split; [split|].
  - intros K b HK Hb. destruct (decide (K ∈ Ks)) as [H|H]; [destruct (Hin K HK H) as (_ & E & _); congruence|].
    destruct (Hout K HK H) as (_ & _ & E3 & E4 & _). rewrite E4. rewrite E3 in Hb. by apply (do_gen _ _ _ Hdb1).
  - intros K b HK Hb. destruct (decide (K ∈ Ks)) as [H|H]; [destruct (Hin K HK H) as (E & _ & _); congruence|].
    destruct (Hout K HK H) as (E1 & E2 & E3 & _ & E5). rewrite E1 in Hb.
    destruct (do_owner _ _ _ Hdb1 K b HK Hb) as (o & -> & []). exists o. split; [done|].
    split; try done; rewrite ?Et, ?E2, ?E5; try done. unfold counter. by rewrite E3.
  - intros K f e HK Hn Hp. destruct (decide (K ∈ Ks)) as [H|H]; [destruct (Hin K HK H) as (_ & _ & E); congruence|].
    destruct (Hout K HK H) as (E1 & _ & _ & _ & E5). rewrite Et. apply (do_absent _ _ _ Hdb1 K f); congruence.
  - intros K f e HK Hp. destruct (decide (K ∈ Ks)) as [H|H]; [destruct (Hin K HK H) as (_ & _ & E); congruence|].
    destruct (Hout K HK H) as (_ & _ & E3 & _ & E5). unfold counter. rewrite E3.
    apply (do_promise _ _ _ Hdb1 K f e HK). congruence.
  - intros K HK Hr. destruct (decide (K ∈ Ks)) as [H|H].
    + destruct (Hin K HK H) as (E1 & E2 & _). split; [done..|]. intros o Hwf Hpin. apply (Hpins o K Hwf) in Hpin.
      rewrite Forall_forall in Hun. destruct (Hun K H) as [_ Hu]. destruct (Hu o Hwf) as (k & P & Hkv & Hdel & Hset).
      unfold pins_hold in Hpin. rewrite Forall_forall in Hpin. destruct (Hpin (k, P) Hkv) as (v & Hv & _). simpl in Hv.
      pose proof (deleted_key ws k db (foreign_writes_ok _ Hws) Hdel Hset) as E. fold db1 in E. congruence.
    + destruct Hr as [Hr|?]; [|done]. destruct (do_retired _ _ _ Hdb1 K HK Hr) as [R1 R2 R3].
      destruct (Hout K HK H) as (E1 & _ & E3 & _ & _). split; [congruence..|]. intros o Hwf Hpin. by apply (R3 o Hwf), (Hpins o K).
  - intros K HK. destruct (decide (K ∈ Ks)) as [H|H].
    + destruct (Hin K HK H) as (E1 & E2 & E3). split; [by right|congruence..].
    + destruct (Hout K HK H) as (E1 & _ & E3 & _ & E5). destruct (foreign_get ws db K Hws HK) as [[F1 _] [F2 _]].
      pose proof (foreign_promise [] ws pr K Hws HK) as F3. fold pr1 in F3. fold db1 in F1, F2. apply effect_same; congruence.
Qed.

(** *** Every command *)

Lemma serve_result_refl holder db pr rt : db_ok db pr rt → serve_result holder db db pr pr rt.
Proof. intros H. split; [done|]. intros K HK. by apply effect_same. Qed.

Lemma watched_holds db writes pw g k P :
  knows db writes pw g → watch_valid pw writes → watched g k P → P (r_get k db).
Proof. intros Hk Hv (Hw & v & Hs & HP). by rewrite (kn_seen _ _ _ _ Hk Hv k v Hs Hw). Qed.

Lemma pins_now db writes pw g o : knows db writes pw g → watch_valid pw writes → pins_seen g o → pins_hold db o.
Proof.
  intros Hk Hv H. eapply Forall_impl; [exact H|]. intros kp.
  by apply (watched_holds _ _ _ _ _ (λ v, ∃ b, v = Some b ∧ kp.2 b) Hk Hv).
Qed.

Lemma guards_now db writes pw g o : knows db writes pw g → watch_valid pw writes → guards_seen g o → guards_hold db o.
Proof. intros Hk Hv H. eapply Forall_impl; [exact H|]. intros kp. by apply (watched_holds _ _ _ _ _ kp.2 Hk Hv). Qed.

(** What a step does to the scopes that are not retired by it. *)
Definition step_result (holder : jstr) (db db' : Db) (pr pr' : promises) (rt : jstr → Prop) : Prop :=
  db_ok db' pr' rt ∧ ∀ K, ow_valid K → effect (rt K) holder K db db' pr pr'.

Lemma effect_weaken (P Q : Prop) holder K db db' pr pr' :
  (P → Q) → effect P holder K db db' pr pr' → effect Q holder K db db' pr pr'.
Proof. intros HPQ [H1 H2 H3 H4]. split; [|done..]. destruct H1; auto. Qed.

Lemma result_step holder db db' pr pr' (rt rt' : jstr → Prop) :
  (∀ K, ow_valid K → rt' K → rt K) → serve_result holder db db' pr pr' rt → step_result holder db db' pr pr' rt'.
Proof.
  intros Hrt [[H1 H2 H3 H4 H5] Hef]. split; [split; auto|]. intros K HK. eapply effect_weaken; [|by apply Hef]. done.
Qed.

(** Only a retirement retires. *)
Lemma keeps_retired t c r (rt : jstr → Prop) :
  match c, r with CExec ws, ROk => ∀ K, ow_valid K → WDel (ow_key K) ∉ ws ∨ names t ≠ [] | _, _ => True end →
  ∀ K, ow_valid K → retire_step (Some (t, c, r)) rt K → rt K.
Proof.
  intros Hc K HK [?|H]; [done|]. destruct c; try done. destruct r; try done.
  destruct H as [Ht Hin]. destruct (Hc K HK); done.
Qed.

Lemma foreign_keeps ws K : Forall foreign_write ws → ow_valid K → WDel (ow_key K) ∉ ws.
Proof. rewrite Forall_forall. intros H HK Hin. by destruct (H _ Hin K HK). Qed.

Lemma serve_ok t db c db' ms r writes pw g pr rt :
  db_ok db pr rt → knows db writes pw g → cmd_ok (names t) g c → serve db c db' ms r →
  (is_exec_ok c r = true → watch_valid pw writes) → fresh (Some (t, c, r)) rt →
  step_result (names t) db db' pr (promise_step (Some (t, c, r)) pr) (retire_step (Some (t, c, r)) rt).
Proof.
  intros Hdb Hk Hok Hs Hv Hfr. pose proof (kn_time _ _ _ _ Hk) as Ht.
  destruct Hs as [k| |k v ttl e Hb|k v ttl e Hb|k e Hb|k e Hb|k fk e f v ttl Hb Hf|k fk e f v ttl Hb|k fk e f v ttl Hb Hf|ks| |ws|ws];
    cbn [promise_step]; try (eapply result_step; [by apply keeps_retired | by apply serve_result_refl]).
  - eapply result_step; [by apply keeps_retired|]. inversion Hok as [| | | | | | | | |K cur o Hc Hp| | | |]; subst.
    eapply renew_ok; [done..|]. unfold pins_hold. rewrite Hp. constructor.
  - eapply result_step; [by apply keeps_retired|]. inversion Hok as [| | | | | | | | | | |K cur Hwf Hm| |]; subst.
    apply delete_ok; [by eapply ow_wf_valid|done|]. intros b Hb'. rewrite Hb in Hb'. simplify_eq. eauto.
  - eapply result_step; [by apply keeps_retired|]. inversion Hok as [| | | | | | | | | |K cur o fk' P f' Hc Hp HP| | |]; subst.
    eapply renew_ok; [done..|]. unfold pins_hold. rewrite Hp. constructor; [by exists f | constructor].
  - pose proof (kn_seen _ _ _ _ Hk (Hv eq_refl)) as Hseen.
    inversion Hok as [| | | |K o vg vo Hwf Hwo Hwg Hsg Hso Hlt Hl Hr Hpi Hgu|K cur o Hc Hwo Hso Hpi
      |K cur o vg Hc Hwo Hso Hwg Hsg Hlt Hpi|K o vg Hwf Hwg Hsg Hlt Hpi|K cur Hwf Hwo Hso Hm Hme| | | |ws' Hws|Ks ws' Hme Hws Hun]; subst.
    + eapply result_step; [apply keeps_retired; intros K' _; left; by intros [?|[?|?%elem_of_nil]%elem_of_cons]%elem_of_cons|].
      eapply claim_ok with (vg := vg) (vo := vo); eauto using pins_now, guards_now.
    + eapply result_step; [apply keeps_retired; intros K' _; left; by intros [?|?%elem_of_nil]%elem_of_cons|].
      by eapply renew_ok; eauto using pins_now.
    + exfalso. destruct Hc as (Hwf & _ & Hf & _).
      pose proof (so_generation _ _ _ _ (stored_unique _ _ _ _ _ Hdb Hwf (Hseen _ _ Hso Hwo))) as Hg.
      unfold counter in Hg. rewrite (Hseen _ _ Hsg Hwg), <- Hf in Hg. lia.
    + eapply result_step; [apply keeps_retired; intros K' _; left; by intros [?|?%elem_of_nil]%elem_of_cons|].
      apply repair_ok; eauto using pins_now. unfold counter. by rewrite (Hseen _ _ Hsg Hwg).
    + eapply result_step; [apply keeps_retired; intros K' _; by right|].
      apply delete_ok; [by eapply ow_wf_valid|done|]. intros b Hb.
      rewrite (Hseen _ _ Hso Hwo) in Hb. simplify_eq. eauto.
    + eapply result_step; [apply keeps_retired; intros K' HK'; left; by apply foreign_keeps|].
      by apply foreign_ok.
    + rewrite Hme. destruct (retire_ok Ks ws' db pr rt Hdb Hws) as [[H1 H2 H3 H4 H5] H6]; [|done|].
      { intros K o k P v ttl HK Hwf Hin HP Hset. apply (Hfr K o k P v ttl); try done. apply elem_of_app. by left. }
      assert (∀ K, ow_valid K → retire_step (Some (t, CExec (ws' ++ retire_writes Ks), ROk)) rt K → rt K ∨ K ∈ Ks) as Hrt.
      { intros K HK [?|[_ Hin]]; [by left|right]. apply elem_of_app in Hin as [Hin|Hin]; [by destruct (foreign_keeps ws' K Hws HK)|].
        apply list_elem_of_In, in_flat_map in Hin as (K' & HK'%list_elem_of_In & Hin). rewrite Forall_forall in Hun.
        destruct (Hun K' HK') as [Hv' _]. destruct Hin as [E|[E|[]]]; injection E as E.
        - by apply ow_key_inj in E as ->.
        - symmetry in E. by apply (ow_keys_ne K K') in E. }
      split; [split; auto|]. intros K HK. eapply effect_weaken; [|by apply H6]. intros HKs. right. split; [done|].
      apply elem_of_app. right. apply list_elem_of_In, in_flat_map. exists K. split; [by apply list_elem_of_In | by left].
Qed.

Lemma wait_ok db db' pr rt : r_wait db db' → db_ok db pr rt → serve_result [] db db' pr pr rt.
Proof.
  intros Hw Hdb. pose proof (r_wait_time _ _ Hw) as Ht.
  assert (∀ K, ow_valid K → r_get (ow_generation_key K) db' = r_get (ow_generation_key K) db ∧
    (∀ b, r_get (ow_generation_key K) db = Some b → r_deadline (ow_generation_key K) db' = None)) as Hg.
  { intros K HK. destruct (r_wait_get _ _ (ow_generation_key K) Hw) as [[E1 E2]|(E1 & t & E2 & _)].
    - split; [done|]. intros b Hb. rewrite E2. by apply (do_gen _ _ _ Hdb K b).
    - destruct (r_get (ow_generation_key K) db) as [b|] eqn:Eb; [|by rewrite E1].
      destruct (do_gen _ _ _ Hdb K b HK Eb) as [_ Hd]. congruence. }
  assert (∀ K, ow_valid K → counter K db' = counter K db) as Hc.
  { intros K HK. unfold counter. by rewrite (proj1 (Hg K HK)). }
  split; [split|].
  - intros K b HK. destruct (Hg K HK) as [-> Hd]. intros Hb.
    destruct (do_gen _ _ _ Hdb K b HK Hb) as [? _]. split; [done | by eapply Hd].
  - intros K b HK Hb. destruct (r_wait_get _ _ (ow_key K) Hw) as [[E1 E2]|[E1 _]]; [|congruence].
    rewrite E1 in Hb. destruct (do_owner _ _ _ Hdb K b HK Hb) as (o & -> & []). exists o. split; [done|].
    split; [done|by rewrite Hc| |by rewrite E2|done]. etransitivity; [done | by apply lease_until_mono].
  - intros K f e HK Hn Hp. destruct (r_wait_get _ _ (ow_key K) Hw) as [[E1 E2]|(E1 & t & Hd & Hle)].
    + rewrite E1 in Hn. pose proof (do_absent _ _ _ Hdb K f e HK Hn Hp). lia.
    + destruct (r_get (ow_key K) db) as [b|] eqn:Eb.
      * destruct (do_owner _ _ _ Hdb K b HK Eb) as (o & -> & Hs). destruct (so_deadline _ _ _ _ Hs) as (dl & Hdl & Hcov).
        destruct (so_promise _ _ _ _ Hs _ _ Hp) as [_ He]. rewrite Hd in Hdl. simplify_eq. lia.
      * pose proof (do_absent _ _ _ Hdb K f e HK Eb Hp). lia.
  - intros K f e HK Hp. rewrite Hc by done. by apply (do_promise _ _ _ Hdb K f e).
  - intros K HK Hrt. destruct (do_retired _ _ _ Hdb K HK Hrt) as [R1 R2 R3]. split.
    + destruct (r_wait_get _ _ (ow_key K) Hw) as [[E _]|[E _]]; congruence.
    + by rewrite (proj1 (Hg K HK)).
    + intros o Hwf Hpin. apply (R3 o Hwf). eapply Forall_impl; [exact Hpin|]. intros [k P] (v & E & HP). simpl in *. exists v. split; [|done].
      destruct (r_wait_get _ _ k Hw) as [[E' _]|[E' _]]; congruence.
  - intros K HK.
    assert (∀ o', r_get (ow_key K) db' = Some (ow_bytes o') → r_get (ow_key K) db = Some (ow_bytes o')) as Hback.
    { intros o' Ho'. destruct (r_wait_get _ _ (ow_key K) Hw) as [[E1 _]|[E1 _]]; congruence. }
    split; [left; by rewrite Hc| | |].
    + intros o' Ho' Hwf'. left. exists o'. split_and!; try done. by apply Hback.
    + intros o' Ho' Hwf'. left. by apply Hback.
    + intros f e f' e' E E'. rewrite E in E'. simplify_eq. by left.
Qed.

(** *** Every step *)

Definition label_task (lbl : option (nat * cmd * reply)) : jstr :=
  match lbl with Some (t, _, _) => names t | None => [] end.

Lemma set_task_ok t l ts :
  (∀ t, local_ok (names t) (ts t)) → local_ok (names t) l →
  ∀ t', local_ok (names t') (set_task t l ts t').
Proof. intros H Hl t'. unfold set_task. case_decide; [by subst | done]. Qed.

Lemma world_step_ok w pr rt lbl w' : world_ok w pr rt → step w lbl w' → fresh lbl rt →
  recorded (w_db w) → recorded (w_db w') → (∀ pid, w_procs w !! pid = None → began pid (r_time (w_db w))) →
  world_ok w' (promise_step lbl pr) (retire_step lbl rt) ∧
  step_result (label_task lbl) (w_db w) (w_db w') pr (promise_step lbl pr) (retire_step lbl rt).
Proof.
  intros [Hdb Hts Hps] Hs Hfr Hrec Hrec' Hbeg. assert (∀ K, ow_valid K → retire_step None rt K → rt K) as Hnone by by intros K _ [?|?].
  assert (step_result [] (w_db w) (w_db w) pr pr (retire_step None rt)) as Hsame
    by (by eapply result_step; [|apply serve_result_refl]).
  assert (∀ pid (p : proc), proc_ok (w_db w) (w_writes w) pid p → ∀ pid' p',
    <[pid := p]> (w_procs w) !! pid' = Some p' → proc_ok (w_db w) (w_writes w) pid' p') as Hput.
  { intros pid p Hp pid' p' Hl. apply lookup_insert_Some in Hl as [[<- <-]|[_ Hl]]; eauto. }
  destruct Hs as [pid t p Hn Ha|pid t pw c k db ms r Hp Hserve Hv|pid t pw r k Hp|pid t pw c k Hp
    |pid t pw r k l p Hp Hr|pid t pw q l p Hp Hr|db Hw|t l Ht]; cbn [promise_step label_task].
  - split; [split; simpl; [apply Hsame|done|]|exact Hsame]. apply Hput.
    exists (unwatched (r_time (w_db w))). split; [|by apply api_ok; [apply Hbeg|]].
    split; simpl; [done|done|done|]. intros _ x v Hin. by apply elem_of_nil in Hin.
  - destruct (Hps _ _ Hp) as (g & Hk & [Hok Hwp]). simpl in *.
    pose proof (serve_ok t _ _ _ _ _ _ _ _ _ _ Hdb Hk Hok Hserve Hv Hfr) as Hres. split; [|exact Hres].
    destruct (knows_serve _ _ _ _ _ _ _ _ _ _ _ Hdb Hrec Hrec' Hk Hok Hserve) as (g' & Hrep & Hk' & Hg').
    split; simpl; [by destruct Hres|done|]. intros pid' p' Hl.
    apply lookup_insert_Some in Hl as [[<- <-]|[_ Hl]].
    + exists g'. split; [done|]. simpl. split; [by apply Hwp|].
      exists (unwatched (g_time g)). split; [by eapply knows_fail|]. apply Hwp. constructor.
    + destruct (Hps _ _ Hl) as (g2 & Hk2 & Hw2). exists g2. split; [by eapply knows_serve_other|].
      destruct (p_run p'); [done|]. destruct Hw2 as [Hw2 (gf & Hkf & Hwf)]. split; [done|].
      exists gf. split; [by eapply knows_serve_other | done].
  - destruct (Hps _ _ Hp) as (g & Hk & [_ (gf & Hkf & Hwp)]). simpl in *.
    split; [split; simpl; [apply Hsame|done|]|exact Hsame]. apply Hput.
    exists gf. split; [done|]. simpl. split; [done|]. by exists gf.
  - destruct (Hps _ _ Hp) as (g & Hk & [_ Hwp]). simpl in *.
    assert (wp t (unwatched (g_time g)) (k RFail) (answer_ok pid t)) by (apply Hwp; constructor).
    assert (knows (w_db w) (w_writes w) pw (unwatched (g_time g))) by by eapply knows_fail.
    split; [split; simpl; [apply Hsame|done|]|exact Hsame]. apply Hput.
    exists (unwatched (g_time g)). split; [done|]. simpl. split; [done|]. by exists (unwatched (g_time g)).
  - destruct (Hps _ _ Hp) as (g & Hk & [Hwp _]). simpl in *.
    destruct (run_local_ok _ _ _ _ _ _ _ Hr (Hts t) Hwp) as [Hl Hwp'].
    split; [split; simpl; [apply Hsame|by apply set_task_ok|]|exact Hsame]. apply Hput. by exists g.
  - destruct (Hps _ _ Hp) as (g & Hk & Hwp). simpl in *.
    destruct (run_local_ok _ _ _ _ _ _ _ Hr (Hts t) Hwp) as [Hl Hwp'].
    split; [split; simpl; [apply Hsame|by apply set_task_ok|]|exact Hsame]. apply Hput. by exists g.
  - pose proof (result_step _ _ _ _ _ _ _ Hnone (wait_ok _ _ _ _ Hw Hdb)) as Hres. split; [|exact Hres].
    split; simpl; [by destruct Hres|done|]. intros pid p Hp. destruct (Hps _ _ Hp) as (g & Hk & Hwp).
    exists g. split; [by apply knows_wait|]. destruct (p_run p); [done|].
    destruct Hwp as [Hwp (gf & Hkf & Hwf)]. split; [done|]. exists gf. split; [by apply knows_wait | done].
  - split; [split; simpl; [apply Hsame| |done]|exact Hsame]. apply set_task_ok; [done|].
    by eapply tick_ok.
Qed.

Lemma world_initial_ok w : initial w → world_ok w (λ _, None) (λ _, False).
Proof.
  intros [Hp Ht Ho Hg]. split.
  - split; try done.
    + intros K b _. by rewrite Hg.
    + intros K b _. by rewrite Ho.
  - done.
  - intros pid p. by rewrite Hp.
Qed.

(** Handlers stay, so one that has not begun had not begun before. *)
Lemma step_procs w lbl w' pid : step w lbl w' → w_procs w' !! pid = None → w_procs w !! pid = None.
Proof.
  destruct 1 as [pid' t p Hn _|pid' t pw c k db ms r Hp _ _|pid' t pw r k Hp|pid' t pw c k Hp|pid' t pw r k l p Hp _|pid' t pw q l p Hp _|db _|t l _];
    cbn; try done; by intros [H _]%lookup_insert_None.
Qed.

Lemma step_time w lbl w' : step w lbl w' → r_time (w_db w) <= r_time (w_db w').
Proof.
  destruct 1 as [pid' t p Hn _|pid' t pw c k db ms r Hp Hs _|pid' t pw r k Hp|pid' t pw c k Hp|pid' t pw r k l p Hp _|pid' t pw q l p Hp _|db Hw|t l _];
    cbn; try done; [by rewrite (serve_time_eq _ _ _ _ _ Hs)|by apply r_wait_time].
Qed.

(** A run from one world to another. *)
Definition leads : relation world := rtc (λ w w', ∃ lbl, step w lbl w').

Lemma leads_time w w' : leads w w' → r_time (w_db w) <= r_time (w_db w').
Proof. induction 1 as [|w1 w2 w3 [lbl Hs] _ IH]; [done|]. apply step_time in Hs. lia. Qed.

Lemma leads_procs w w' pid : leads w w' → w_procs w' !! pid = None → w_procs w !! pid = None.
Proof. induction 1 as [|w1 w2 w3 [lbl Hs] _ IH]; [done|]. intros H. by eapply step_procs; [|apply IH]. Qed.

End world.

(** ** Consequences *)

Section consequences.
Context {Db : Type} `{!RedisServer Db} {Owner L A : Type} `{!OwnerScheme Owner}.
Context (names : nat → jstr) (api : nat → prog L A → Prop) (tick : L → L → Prop).
Context (local_ok : jstr → L → Prop) (answer_ok : ghost → result jserr A → Prop).
Abbreviation world := (world Db L A).
Abbreviation step := (wstep (Db := Db) api tick).
Abbreviation reachable := (reachable (Db := Db) names api tick local_ok).
Abbreviation promise_step := (promise_step names).
Abbreviation retire_step := (retire_step names).
Abbreviation label_task := (label_task names).
Abbreviation world_ok := (world_ok (Hist := no_history) names local_ok (λ _ _, answer_ok)).

Hypothesis api_ok : ∀ t p g, api t p → wp (Hist := no_history) (local_ok (names t)) (names t) g p answer_ok.
Hypothesis tick_ok : ∀ t l l', tick l l' → local_ok (names t) l → local_ok (names t) l'.

Lemma plain_step_ok (w : world) pr rt lbl w' : world_ok w pr rt → step w lbl w' → fresh lbl rt →
  world_ok w' (promise_step lbl pr) (retire_step lbl rt) ∧
  step_result (label_task lbl) (w_db w) (w_db w') pr (promise_step lbl pr) (retire_step lbl rt).
Proof.
  intros Hw Hs Hf. apply (world_step_ok (Hist := no_history) names api tick local_ok (λ _ _, answer_ok) (λ _ _, True)); auto; done.
Qed.

Lemma world_reachable_ok (w : world) pr rt : reachable w pr rt → world_ok w pr rt.
Proof.
  induction 1 as [w H|w pr rt lbl w' _ IH Hs Hf]; [by apply world_initial_ok|]. by destruct (plain_step_ok _ _ _ _ _ IH Hs Hf).
Qed.

Lemma reachable_step_ok (w : world) pr rt lbl w' : reachable w pr rt → step w lbl w' → fresh lbl rt →
  world_ok w' (promise_step lbl pr) (retire_step lbl rt) ∧
  step_result (label_task lbl) (w_db w) (w_db w') pr (promise_step lbl pr) (retire_step lbl rt).
Proof. intros Hr. by apply plain_step_ok, world_reachable_ok. Qed.

(** Leases are exclusive. *)
Lemma lease_step (w w' : world) pr rt lbl K f f' e e' :
  reachable w pr rt → step w lbl w' → fresh lbl rt → ow_valid K →
  pr K = Some (f, e) → promise_step lbl pr K = Some (f', e') →
  (f' = f → e <= e') ∧ (f' ≠ f → e <= r_time (w_db w) ∨ f.1 = label_task lbl).
Proof.
  intros Hr Hs Hf HK Hp Hp'. destruct (reachable_step_ok _ _ _ _ _ Hr Hs Hf) as [_ [_ Hef]].
  destruct (ef_promise _ _ _ _ _ _ _ (Hef K HK) _ _ _ _ Hp Hp') as [[-> ?]|[? ?]]; split; done.
Qed.

(** Generations fence. *)
Lemma generation_step w w' pr rt lbl K :
  reachable w pr rt → step w lbl w' → fresh lbl rt → ow_valid K →
  (counter K (w_db w) <= counter K (w_db w') ∨ retire_step lbl rt K) ∧
  (∀ o, r_get (ow_key K) (w_db w) = Some (ow_bytes o) → ow_wf K o → (ow_fence o).2 <= counter K (w_db w)) ∧
  ∀ o', r_get (ow_key K) (w_db w') = Some (ow_bytes o') → ow_wf K o' →
    (∃ o, r_get (ow_key K) (w_db w) = Some (ow_bytes o) ∧ ow_fence o = ow_fence o') ∨
    (counter K (w_db w) < (ow_fence o').2 ∧ (ow_fence o').2 = counter K (w_db w') ∧ guards_hold (w_db w) o').
Proof.
  intros Hr Hs Hf HK. destruct (reachable_step_ok _ _ _ _ _ Hr Hs Hf) as [_ [_ Hef]]. apply world_reachable_ok in Hr.
  destruct (Hef K HK) as [H1 H2 _ _]. split; [done|]. split.
  - intros o Ho Hwf. apply (so_generation _ _ pr). eapply stored_unique; [apply Hr | done..].
  - intros o' Ho' Hwf'. destruct (H2 o' Ho' Hwf') as [(o & ? & _ & ?)|?]; [left; eauto | by right].
Qed.

(** Records are written while their pins hold. *)
Lemma pins_step w w' pr rt lbl K o' :
  reachable w pr rt → step w lbl w' → fresh lbl rt →
  r_get (ow_key K) (w_db w') = Some (ow_bytes o') → ow_wf K o' →
  r_get (ow_key K) (w_db w) = Some (ow_bytes o') ∨ pins_hold (w_db w) o'.
Proof.
  intros Hr Hs Hf Ho Hwf. destruct (reachable_step_ok _ _ _ _ _ Hr Hs Hf) as [_ [_ Hef]].
  by apply (ef_pins _ _ _ _ _ _ _ (Hef K (ow_wf_valid _ _ Hwf))).
Qed.

(** Nothing is stored for a retired scope. *)
Lemma retired_absent w pr rt K : reachable w pr rt → ow_valid K → rt K → r_get (ow_key K) (w_db w) = None.
Proof. intros Hr HK Hrt. apply world_reachable_ok in Hr. apply (do_retired _ _ _ (wo_db _ _ _ _ _ _ Hr) K HK Hrt). Qed.

Lemma stored_readable w pr rt K b : reachable w pr rt → ow_valid K → r_get (ow_key K) (w_db w) = Some b →
  ∃ o, b = ow_bytes o ∧ ow_wf K o ∧ ow_lease o <= lease_until (r_time (w_db w)) ∧
       ∃ dl, r_deadline (ow_key K) (w_db w) = Some dl ∧ ow_lease o <= dl.
Proof.
  intros Hr HK Hb. apply world_reachable_ok in Hr. destruct (do_owner _ _ _ (wo_db _ _ _ _ _ _ Hr) K b HK Hb) as (o & -> & []).
  exists o. by split_and!.
Qed.

Lemma answers_ok w pr rt pid t pw r : reachable w pr rt →
  w_procs w !! pid = Some (Proc t pw (Run (PRet r))) → ∃ g, answer_ok g r.
Proof.
  intros Hr Hp. apply world_reachable_ok in Hr. destruct (wo_procs _ _ _ _ _ _ Hr _ _ Hp) as (g & _ & Hw). by exists g.
Qed.

(** ** What a handler saw

    A run from a world in which the handler has not begun: what its replies told it was so in
    a world of that run. *)

(** A run from [w0], with the promises and retirements it makes. *)
Inductive run (w0 : world) (pr0 : promises) (rt0 : jstr → Prop) : world → promises → (jstr → Prop) → Prop :=
| run_here : run w0 pr0 rt0 w0 pr0 rt0
| run_step w pr rt lbl w' : run w0 pr0 rt0 w pr rt → step w lbl w' → fresh lbl rt →
    run w0 pr0 rt0 w' (promise_step lbl pr) (retire_step lbl rt).

Lemma run_leads w0 pr0 rt0 w pr rt : run w0 pr0 rt0 w pr rt → leads api tick w0 w.
Proof. induction 1 as [|w pr rt lbl w' _ IH Hs _]; [apply rtc_refl|]. eapply rtc_r; [exact IH|by exists lbl]. Qed.

Lemma run_keeps_reachable w0 pr0 rt0 w pr rt : reachable w0 pr0 rt0 → run w0 pr0 rt0 w pr rt → reachable w pr rt.
Proof. intros Hr. induction 1 as [|w pr rt lbl w' _ IH Hs Hf]; [done|]. by eapply reach_step. Qed.

(** What held in some world between [w0] and [w]. *)
Definition between (w0 w : world) (P : Db → Prop) : Prop := ∃ w1, leads api tick w0 w1 ∧ leads api tick w1 w ∧ P (w_db w1).

Definition history (w0 w : world) : History := {|
  was_stored t k b := between w0 w (λ db, r_time db = t ∧ r_get k db = Some b);
  was_time t := between w0 w (λ db, r_time db = t) |}.

Lemma between_recorded w0 w1 w : leads api tick w0 w1 → leads api tick w1 w → recorded (Hist := history w0 w) (w_db w1).
Proof. intros H1 H2. split; [by exists w1|]. intros k b Hb. by exists w1. Qed.

Section handler.
Context (w0 : world) (pr0 : promises) (rt0 : jstr → Prop) (w : world) (good : nat → result jserr A → Prop).
Hypothesis Hr0 : reachable w0 pr0 rt0.
Hypothesis good_ok : ∀ t p g, r_time (w_db w0) <= g_time g → api t p →
  wp (Hist := history w0 w) (local_ok (names t)) (names t) g p (λ _, good t).

(** The handlers of [w0] may answer anything. *)
Definition expected (pid t : nat) (_ : ghost) (r : result jserr A) : Prop :=
  match w_procs w0 !! pid with None => good t r | Some _ => True end.

Lemma run_ok w1 pr rt : run w0 pr0 rt0 w1 pr rt → leads api tick w1 w →
  OwnerWorld.world_ok (Hist := history w0 w) names local_ok expected w1 pr rt.
Proof.
  induction 1 as [|w1 pr rt lbl w2 Hrun IH Hs Hf]; intros Hl.
  - apply world_reachable_ok in Hr0 as [Hdb Hts Hps]. split; [done|done|]. intros pid p Hp. destruct (Hps pid p Hp) as (g & Hk & Hw).
    assert (∀ g q, wp (Hist := no_history) (local_ok (names (p_task p))) (names (p_task p)) g q answer_ok →
      wp (Hist := history w0 w) (local_ok (names (p_task p))) (names (p_task p)) g q (expected pid (p_task p))) as Hany.
    { intros g' q Hq. eapply wp_mono; [by eapply (wp_history no_history)|]. intros g2 r _. unfold expected. by rewrite Hp. }
    exists g. split; [done|]. destruct (p_run p) as [q|r k]; [by apply Hany|]. destruct Hw as [Hw (gf & Hkf & Hwf)].
    split; [by apply Hany|]. exists gf. split; [done|]. by apply Hany.
  - assert (leads api tick w1 w) as Hl1 by (eapply rtc_l; [by exists lbl|done]). pose proof (run_leads _ _ _ _ _ _ Hrun) as Hl0.
    eapply (world_step_ok (Hist := history w0 w) names api tick local_ok expected (λ pid t, w_procs w0 !! pid = None ∧ r_time (w_db w0) <= t));
      [|done|by apply IH|done|done|by apply between_recorded|apply between_recorded; [|done]|].
    + intros pid t p g [Hn Ht] Hp. unfold expected. rewrite Hn. by apply good_ok.
    + eapply rtc_r; [done|by exists lbl].
    + intros pid Hn. split; [by eapply leads_procs|by eapply leads_time].
Qed.

Lemma handler_answers pr rt pid t pw r : run w0 pr0 rt0 w pr rt → w_procs w0 !! pid = None →
  w_procs w !! pid = Some (Proc t pw (Run (PRet r))) → good t r.
Proof.
  intros Hrun Hn Hp. destruct (wo_procs _ _ _ _ _ _ (run_ok _ _ _ Hrun (rtc_refl _ _)) _ _ Hp) as (g & _ & Hw).
  cbn in Hw. unfold expected in Hw. by rewrite Hn in Hw.
Qed.
End handler.
End consequences.
