(* ===== verification/D1Owner.v ===== *)
(** * D1 database ownership

    Models src/d1-runtime/owner-registry.js on top of src/shared/owner-protocol.js, with the
    process state of src/d1-runtime/state.js, [dbKeyOf] and [slotOf] of
    src/d1-runtime/protocol.js.

    A handler is a program over Redis ([prog]). Metrics and log lines have no part in the
    state. The environment, the identity of the task and the [URL] parser are section
    variables; [performance.now()] is the field [l_now] of the local state. *)

From stdpp Require Import base list strings gmap.
From Stdlib Require Import ZArith Lia.
From S2P Require Import Prelude JsMap NsPattern WorkerContract Utf8 Json JsNumber OwnerLease Hash Redis OwnerProtocol.

#[local] Open Scope Z_scope.
#[local] Open Scope wdl_scope.

(** ** Keys of databases (src/d1-runtime/protocol.js) *)

Definition SLOT_COUNT : Z := 4096.

Definition D1ProtocolError (status : Z) (code : string) : jserr := ProtocolError status (js code).

Definition dbKeyOf (namespace databaseId : jsval) : result jserr jstr :=
  match namespace with
  | JStr ns =>
      if negb (isValidRuntimeLoadNs namespace) then Err (D1ProtocolError 400 "invalid-namespace")
      else match databaseId with
           | JStr id =>
               if negb (D1_DATABASE_ID_RE id) then Err (D1ProtocolError 400 "invalid-database-id")
               else Ok (ns ++ [58] ++ id)
           | _ => Err (D1ProtocolError 400 "invalid-database-id")
           end
  | _ => Err (D1ProtocolError 400 "invalid-namespace")
  end.

Definition slotOf (namespace databaseId : jsval) : result jserr Z :=
  let! key := dbKeyOf namespace databaseId in Ok (fnv1a32CodeUnits key mod SLOT_COUNT).

(** ** Records *)

Record identity := Identity {
  i_namespace : jstr; i_databaseId : jstr; i_dbKey : jstr; i_slot : Z }.

Record target := Target { t_taskId : jstr; t_endpoint : jstr }.

Record D1Owner := MkOwner {
  namespace : jstr; databaseId : jstr; dbKey : jstr; slot : Z;
  taskId : jstr; endpoint : jstr; generation : Z; leaseExpiresAt : jsval }.

Definition owner_identity (o : D1Owner) : identity :=
  Identity (namespace o) (databaseId o) (dbKey o) (slot o).

Definition owner_fence (o : D1Owner) : fence := (taskId o, generation o).

(** The object literal of [ownerRecordFor], in its field order. *)
Definition owner_json (o : D1Owner) : jsval :=
  JObj [(js "namespace", JStr (namespace o)); (js "databaseId", JStr (databaseId o));
        (js "dbKey", JStr (dbKey o)); (js "slot", JNum (NInt (slot o)));
        (js "taskId", JStr (taskId o)); (js "endpoint", JStr (endpoint o));
        (js "generation", JNum (NInt (generation o))); (js "leaseExpiresAt", leaseExpiresAt o)].

(** The bytes stored for a record: [JSON.stringify(owner)] sent as UTF-8. *)
Definition owner_bytes (o : D1Owner) : bytes := utf8_encode (default [] (stringify (owner_json o))).

(** ** Configuration *)

Definition DEFAULT_OWNER_TTL_SECONDS : Z := 120.
Definition DEFAULT_OBSERVED_OWNER_TTL_MS : Z := 30000.
Definition DEFAULT_OBSERVED_OWNER_MAX_ENTRIES : Z := 10000.
Definition DEFAULT_OWNER_LEASE_GUARD_MS : Z := 1000.
Definition OWNER_PREFIX : jstr := js "d1:owner:db:".
Definition OWNER_CLAIM_RETRIES : nat := 3.
Definition OWNER_CLAIM_WINNER_READ_DELAYS_MS : list Z := [0; 10; 25; 50; 100].
Definition D1_OWNER_PORT : Z := 8787.

(** [Number(envValueOr(env[name], fallback))] *)
Definition env_number (env : fields) (name : string) (fallback : Z) : jnum :=
  Number_of (envValueOr (obj_get (js name) env) (JNum (NInt fallback))).

(** The least integer not below a finite number. *)
Definition num_ceil (n : jnum) : Z :=
  match n with NInt z => z | NFrac a b => - ((- a) / Z.pos b) | _ => 0 end.

Definition ownerTtlSeconds (env : fields) : Z :=
  ownerTtlSecondsEnv env (js "D1_OWNER_TTL_SECONDS") DEFAULT_OWNER_TTL_SECONDS.

Definition ownerLeaseGuardMs (env : fields) : Z :=
  let raw := env_number env "D1_OWNER_LEASE_GUARD_MS" DEFAULT_OWNER_LEASE_GUARD_MS in
  if num_is_finite raw && num_leb (NInt 0) raw
  then match num_trunc raw with NInt n => n | _ => DEFAULT_OWNER_LEASE_GUARD_MS end
  else DEFAULT_OWNER_LEASE_GUARD_MS.

(** Rounded up: the clock it is compared with ticks in whole units. *)
Definition observedOwnerTtlMs (env : fields) : Z :=
  let raw := env_number env "D1_OBSERVED_OWNER_TTL_MS" DEFAULT_OBSERVED_OWNER_TTL_MS in
  if num_is_finite raw && num_leb (NInt 0) raw then num_ceil raw else DEFAULT_OBSERVED_OWNER_TTL_MS.

Definition observedOwnerMaxEntries (env : fields) : Z :=
  match env_number env "D1_OBSERVED_OWNER_MAX_ENTRIES" DEFAULT_OBSERVED_OWNER_MAX_ENTRIES with
  | NInt n => if 0 <=? n then n else DEFAULT_OBSERVED_OWNER_MAX_ENTRIES
  | _ => DEFAULT_OBSERVED_OWNER_MAX_ENTRIES
  end.

Definition ownerKeyOf (dbKey : jstr) : jstr := ownerKey (ownerProtocolKeys OWNER_PREFIX dbKey).
Definition ownerGenerationKeyOf (dbKey : jstr) : jstr := generationKey (ownerProtocolKeys OWNER_PREFIX dbKey).

(** ** Process state (src/d1-runtime/state.js) *)

Record observed := Observed { ob_owner : D1Owner; ob_expiresAt : Z }.

Record local := Local {
  ownedDbs : jmap jstr D1Owner;
  observedD1Owners : jmap jstr observed;
  storageSizeByDb : jmap jstr jnum;
  draining : bool;
  pendingQueries : Z;
  l_now : Z }.

Definition initial_local (now : Z) : local := Local [] [] [] false 0 now.

Definition set_owned (f : jmap jstr D1Owner → jmap jstr D1Owner) (l : local) : local :=
  Local (f (ownedDbs l)) (observedD1Owners l) (storageSizeByDb l) (draining l) (pendingQueries l) (l_now l).
Definition set_observed (f : jmap jstr observed → jmap jstr observed) (l : local) : local :=
  Local (ownedDbs l) (f (observedD1Owners l)) (storageSizeByDb l) (draining l) (pendingQueries l) (l_now l).

Definition setDraining (value : bool) (l : local) : local :=
  Local (ownedDbs l) (observedD1Owners l) (storageSizeByDb l) value (pendingQueries l) (l_now l).
Definition beginPendingQuery (l : local) : local :=
  Local (ownedDbs l) (observedD1Owners l) (storageSizeByDb l) (draining l) (pendingQueries l + 1) (l_now l).
Definition endPendingQuery (l : local) : local :=
  Local (ownedDbs l) (observedD1Owners l) (storageSizeByDb l) (draining l)
    (Z.max 0 (pendingQueries l - 1)) (l_now l).
Definition recordStorageSizeForDb (dbKey : jstr) (size : jsval) (l : local) : local :=
  match dbKey, size with
  | [], _ => l
  | _, JNum n =>
      if num_is_finite n then
        Local (ownedDbs l) (observedD1Owners l) (jm_set dbKey n (storageSizeByDb l))
          (draining l) (pendingQueries l) (l_now l)
      else l
  | _, _ => l
  end.
Definition forgetStorageSize (dbKey : jstr) (l : local) : local :=
  Local (ownedDbs l) (observedD1Owners l) (jm_delete dbKey (storageSizeByDb l))
    (draining l) (pendingQueries l) (l_now l).

Definition rememberOwner (owner : D1Owner) (l : local) : local :=
  set_owned (jm_set (dbKey owner) owner) l.
Definition forgetOwnedDb (dbKey : jstr) (l : local) : local :=
  forgetStorageSize dbKey (set_owned (jm_delete dbKey) l).
Definition forgetObservedOwner (dbKey : jstr) (l : local) : local :=
  set_observed (jm_delete dbKey) l.

Definition withWatchRetries {A} (operation : prog local A) (exhaustedCode : string) : prog local A :=
  withOwnerWatchRetries OWNER_CLAIM_RETRIES operation (D1ProtocolError 503 exhaustedCode).

Section registry.
Variable env : fields.
Variable IntrinsicURL : jstr → option url_parts.
Variable localTask : target.

Definition validEndpoint (endpoint : jsval) : bool :=
  validOwnerEndpointForService IntrinsicURL endpoint D1_OWNER_PORT D1Runtime.

(** ** Parsing *)

(** The scope fields of a record, when they belong to [expectedDbKey]. *)
Definition ownerMatchesScope (record : fields) (expectedDbKey : jstr) : option (jstr * jstr * jstr * Z) :=
  match obj_get (js "namespace") record, obj_get (js "databaseId") record,
        obj_get (js "dbKey") record, safe_integer_of (obj_get (js "slot") record) with
  | JStr ns, JStr id, JStr key, Some slot =>
      if slot <? 0 then None
      else if negb (jeqb key expectedDbKey) then None
      else match dbKeyOf (JStr ns) (JStr id) with
           | Ok k => if jeqb k expectedDbKey then Some (ns, id, key, slot) else None
           | Err _ => None
           end
  | _, _, _, _ => None
  end.

Definition parseOwner (raw : jsval) (expectedDbKey : jstr) : result jserr (option D1Owner) :=
  match raw with
  | JNull | JUndef => Ok None
  | _ =>
      let invalid := Err (D1ProtocolError 503 "owner-record-invalid") in
      match parseOwnerRecord raw with
      | None => invalid
      | Some record =>
          match ownerMatchesScope record expectedDbKey, obj_get (js "taskId") record,
                obj_get (js "endpoint") record, safe_integer_of (obj_get (js "generation") record) with
          | Some (ns, id, key, slot), JStr ((_ :: _) as task), JStr ep, Some gen =>
              if validEndpoint (JStr ep)
              then Ok (Some (MkOwner ns id key slot task ep gen (obj_get (js "leaseExpiresAt") record)))
              else invalid
          | _, _, _, _ => invalid
          end
      end
  end.

Definition readOwnerWithTimeFromClient (dbKey : jstr) : prog local (option D1Owner * option bytes * Z) :=
  readOwnerRecordWithRedisTime (λ raw, parseOwner raw dbKey) (ownerKeyOf dbKey).

(** The record and its generation counter, as the transactions read them. *)
Definition readOwnerSnapshot (dbKey : jstr) : prog local (option D1Owner * option bytes * list (option bytes) * Z) :=
  readOwnerSnapshotWithRedisTime (λ raw, parseOwner raw dbKey) (ownerKeyOf dbKey) [ownerGenerationKeyOf dbKey].

(** [readOwner]: the record alone. *)
Definition readOwner (dbKey : jstr) : prog local (option D1Owner) :=
  readOwnerRecord (λ raw, parseOwner raw dbKey) (ownerKeyOf dbKey).

Fixpoint readAfterDelays (delays : list Z) (dbKey : jstr) : prog local (option (D1Owner * Z)) :=
  match delays with
  | [] => pret None
  | _ :: r =>
      let* read := readOwnerWithTimeFromClient dbKey in
      match read with
      | (Some owner, _, now) => pret (Some (owner, now))
      | _ => readAfterDelays r dbKey
      end
  end.

Definition readOwnerWithTimeAfterClaimRace (dbKey : jstr) : prog local (option (D1Owner * Z)) :=
  readAfterDelays OWNER_CLAIM_WINNER_READ_DELAYS_MS dbKey.

Definition ownerRecordFor (id : identity) (generation : Z) (target : target) (nowMs : Z)
    : prog local D1Owner :=
  if negb (validEndpoint (JStr (t_endpoint target))) then
    pthrow (D1ProtocolError 503 "owner-record-invalid")
  else
    let* lease := lift_lease (ownerLeaseExpiresAt nowMs (ownerTtlSeconds env)) in
    pret (MkOwner (i_namespace id) (i_databaseId id) (i_dbKey id) (i_slot id)
            (t_taskId target) (t_endpoint target) generation (JNum (NInt lease))).

(** ** The observed-owner cache *)

Definition expired (owner : D1Owner) (now : Z) : bool := ownerLeaseExpired (leaseExpiresAt owner) now.

(** [Number(owner.leaseExpiresAt ?? 0)], rounded up. *)
Definition lease_ms (owner : D1Owner) : Z :=
  match leaseExpiresAt owner with
  | JUndef | JNull => 0
  | v => num_ceil (Number_of v)
  end.

(** The same rounded down: what matters when it is compared from above. *)
Definition lease_floor_ms (owner : D1Owner) : Z :=
  match leaseExpiresAt owner with
  | JUndef | JNull => 0
  | v => match Number_of v with NInt z => z | NFrac a b => a / Z.pos b | _ => 0 end
  end.

Definition rememberObservedOwner (owner : D1Owner) (redisNowMs : option Z) (l : local) : local :=
  match dbKey owner with
  | [] => l
  | _ =>
      let ttlMs := observedOwnerTtlMs env in
      let maxEntries := observedOwnerMaxEntries env in
      let now := l_now l in
      match redisNowMs with
      | Some redisNow =>
          if (ttlMs <=? 0) || (maxEntries <=? 0) || negb (is_safe_integer redisNow) || (redisNow <? 0)
             || expired owner redisNow
          then forgetObservedOwner (dbKey owner) l
          else
            let ttlExpiresAt := now + ttlMs in
            let leaseRemainingMs := Z.max 0 (lease_ms owner - redisNow) in
            let expiresAt := Z.min ttlExpiresAt (now + leaseRemainingMs) in
            set_observed (λ m, jm_trim (Z.to_nat maxEntries)
                                 (jm_touch (dbKey owner) (Observed owner expiresAt) m)) l
      | None => forgetObservedOwner (dbKey owner) l
      end
  end.

Definition cachedObservedOwner (id : identity) (refresh : bool) : prog local (option D1Owner) :=
  if refresh || (observedOwnerTtlMs env <=? 0) || (observedOwnerMaxEntries env <=? 0) then pret None
  else
    PGet (λ l,
      match jm_get (i_dbKey id) (observedD1Owners l) with
      | Some entry =>
          if ob_expiresAt entry <=? l_now l then
            PPut (forgetObservedOwner (i_dbKey id) l) (pret None)
          else if jeqb (taskId (ob_owner entry)) (t_taskId localTask) then
            if draining l then pthrow (D1ProtocolError 503 "task-draining")
            else
              PPut (set_observed (jm_touch (i_dbKey id) entry) (rememberOwner (ob_owner entry) l))
                (pret (Some (ob_owner entry)))
          else
            PPut (set_observed (jm_touch (i_dbKey id) entry) (forgetOwnedDb (i_dbKey id) l))
              (pret (Some (ob_owner entry)))
      | None => PPut (forgetObservedOwner (i_dbKey id) l) (pret None)
      end).

(** ** Claims, renewals, releases *)

Definition stageClaim (dbKey : jstr) (owner : D1Owner) : list write :=
  stageOwnerClaim (ownerProtocolKeys OWNER_PREFIX dbKey) (generation owner) (owner_bytes owner) (ownerTtlSeconds env).

Definition repairGenerationCounterIfStale (owner : D1Owner) : prog local D1Owner :=
  let generationKey := ownerGenerationKeyOf (dbKey owner) in
  withWatchRetries
    (let* _ := session_watch [generationKey] in
     let* raw := redis_get generationKey in
     let* currentCounter := lift_lease (parseOwnerGenerationCounter (decodeBulk raw)) in
     if generation owner <=? currentCounter then
       let* _ := session_unwatch in pret owner
     else
       let* _ := session_exec [WSet generationKey (generation_bytes (generation owner)) None] in
       pret owner)
    "owner-claim-raced".

Record renewal := Renewal { rn_renewed : bool; rn_owner : option D1Owner; rn_nowMs : Z }.

Definition fence_of (o : option D1Owner) : option fence := owner_fence <$> o.

Fixpoint renewAttempts (attempts : nat) (owner : D1Owner) : prog local renewal :=
  match attempts with
  | O => pthrow (D1ProtocolError 409 "owner-renew-raced")
  | S n =>
      let* read := readOwnerWithTimeFromClient (dbKey owner) in
      let '(current, rawOwner, nowMs) := read in
      match current with
      | Some cur =>
          if negb (ownerFenceMatches (fence_of current) (Some (owner_fence owner))) then
            let* _ := pmodify (λ l, rememberObservedOwner cur None (forgetOwnedDb (dbKey owner) l)) in
            pret (Renewal false current nowMs)
          else if expired cur nowMs then
            let* _ := pmodify (λ l, forgetObservedOwner (dbKey owner) (forgetOwnedDb (dbKey owner) l)) in
            pret (Renewal false current nowMs)
          else
            let* renewed := ownerRecordFor (owner_identity owner) (generation owner) localTask nowMs in
            match rawOwner with
            | None => pthrow (D1ProtocolError 409 "owner-renew-raced")
            | Some expected =>
                let* result := redis_set_ifeq (ownerKeyOf (dbKey owner)) (owner_bytes renewed)
                                 (ownerTtlSeconds env) expected in
                if (result : bool) then
                  let* _ := pmodify (λ l, rememberObservedOwner renewed (Some nowMs)
                                            (set_owned (jm_set (dbKey owner) renewed) l)) in
                  pret (Renewal true (Some renewed) nowMs)
                else renewAttempts n owner
            end
      | None =>
          let* _ := pmodify (λ l, forgetObservedOwner (dbKey owner) (forgetOwnedDb (dbKey owner) l)) in
          pret (Renewal false None nowMs)
      end
  end.

Definition renewOwner (owner : D1Owner) : prog local renewal := renewAttempts OWNER_CLAIM_RETRIES owner.

(** *** Release *)

Definition forgetReleased (expected : D1Owner) (o : release_outcome D1Owner) (l : local) : local :=
  match o with
  | ReleaseError _ => l
  | Released => forgetObservedOwner (dbKey expected) (forgetOwnedDb (dbKey expected) l)
  | NotReleased (Some owner) => rememberObservedOwner owner None (forgetOwnedDb (dbKey expected) l)
  | NotReleased None => forgetObservedOwner (dbKey expected) (forgetOwnedDb (dbKey expected) l)
  end.

Definition releaseOwners (owners : list D1Owner) : prog local (list (release_outcome D1Owner)) :=
  let* results := releaseOwnerRecords (λ raw expected, parseOwner raw (dbKey expected)) owner_fence
                    (map (λ o, (ownerKeyOf (dbKey o), o)) owners) in
  let* _ := pmodify (λ l, fold_left (λ l p, forgetReleased p.1 p.2 l) (zip owners results) l) in
  pret results.

(** [drainOwnedDbs]: the wait for idle actors is outside the model, [ready] tells which of the
    owned databases became idle. The counts are released, already lost and failed. *)
Definition drainOwnedDbs (ready : D1Owner → bool) : prog local (nat * nat * nat) :=
  let* _ := pmodify (setDraining true) in
  let* entries := pread (λ l, map snd (ownedDbs l)) in
  let* outcomes := releaseOwners (filter (λ o, ready o = true) entries) in
  let count (f : release_outcome D1Owner → bool) := length (filter (λ o, f o = true) outcomes) in
  pret (count (λ o, match o with Released => true | _ => false end),
        count (λ o, match o with NotReleased _ => true | _ => false end),
        count (λ o, match o with ReleaseError _ => true | _ => false end)).

(** *** Resolution, takeover *)

Definition throwIfDraining : prog local unit :=
  PGet (λ l, if draining l then pthrow (D1ProtocolError 503 "task-draining") else pret tt).

(** [resolveDbOwner] and [takeoverExpiredOwner] call each other; [fuel] bounds the depth. *)
Fixpoint resolveDbOwner (fuel : nat) (id : identity) (refresh : bool) : prog local D1Owner :=
  match fuel with
  | O => pthrow OutOfFuel
  | S fuel =>
      let takeover owner :=
        let* _ := pmodify (λ l, forgetObservedOwner (i_dbKey id) (forgetOwnedDb (i_dbKey id) l)) in
        takeoverExpiredOwner fuel owner in
      let accept owner nowMs :=
        let* _ := pmodify (λ l,
          rememberObservedOwner owner (Some nowMs)
            (if jeqb (taskId owner) (t_taskId localTask) then rememberOwner owner l else l)) in
        pret owner in
      let* observed := cachedObservedOwner id refresh in
      match observed with
      | Some owner => pret owner
      | None =>
          let* read := readOwnerWithTimeFromClient (i_dbKey id) in
          let '(existing, _, existingNowMs) := read in
          match existing with
          | Some owner =>
              if expired owner existingNowMs then takeover owner
              else if negb (jeqb (taskId owner) (t_taskId localTask)) then
                let* _ := pmodify (λ l, rememberObservedOwner owner (Some existingNowMs)
                                          (forgetOwnedDb (i_dbKey id) l)) in
                pret owner
              else
                let* _ := throwIfDraining in
                let* alreadyLocal := pread (λ l, jm_has (i_dbKey id) (ownedDbs l)) in
                let* _ := pmodify (λ l, rememberObservedOwner owner (Some existingNowMs) (rememberOwner owner l)) in
                if (alreadyLocal : bool) then pret owner
                else pcatch (repairGenerationCounterIfStale owner) (λ _, pret owner)
          | None =>
              let* _ := throwIfDraining in
              pcatch
                (withWatchRetries
                   (let* _ := session_watch [ownerKeyOf (i_dbKey id); ownerGenerationKeyOf (i_dbKey id)] in
                    let* read := readOwnerSnapshot (i_dbKey id) in
                    let '(racedOwner, _, relatedValues, nowMs) := read in
                    match racedOwner with
                    | Some owner =>
                        let* _ := session_unwatch in
                        if expired owner nowMs then takeover owner else accept owner nowMs
                    | None =>
                        let* generation := lift_lease (nextOwnerGenerationFromSnapshot (related relatedValues 0) 0) in
                        let* owner := ownerRecordFor id generation localTask nowMs in
                        let* _ := session_exec (stageClaim (i_dbKey id) owner) in
                        let* _ := pmodify (λ l, rememberObservedOwner owner (Some nowMs) (rememberOwner owner l)) in
                        pret owner
                    end)
                   "owner-claim-raced")
                (λ e,
                   if bool_decide (e = D1ProtocolError 503 "owner-claim-raced") then
                     let* race := readOwnerWithTimeAfterClaimRace (i_dbKey id) in
                     match race with
                     | Some (owner, nowMs) =>
                         if expired owner nowMs then takeover owner else accept owner nowMs
                     | None => pthrow e
                     end
                   else pthrow e)
          end
      end
  end
with takeoverExpiredOwner (fuel : nat) (staleOwner : D1Owner) : prog local D1Owner :=
  match fuel with
  | O => pthrow OutOfFuel
  | S fuel =>
      let key := dbKey staleOwner in
      let* _ := throwIfDraining in
      withWatchRetries
        (let* _ := session_watch [ownerKeyOf key; ownerGenerationKeyOf key] in
         let* read := readOwnerSnapshot key in
         let '(current, _, relatedValues, nowMs) := read in
         match current with
         | None =>
             let* _ := session_unwatch in
             let* _ := pmodify (forgetObservedOwner key) in
             resolveDbOwner fuel (owner_identity staleOwner) true
         | Some cur =>
             if negb (ownerFenceMatches (fence_of current) (Some (owner_fence staleOwner))) then
               let* _ := session_unwatch in
               let* _ := pmodify (λ l,
                 rememberObservedOwner cur None
                   (if jeqb (taskId cur) (t_taskId localTask) then rememberOwner cur l else l)) in
               pret cur
             else if negb (expired cur nowMs) then
               let* _ := session_unwatch in
               let* _ := pmodify (rememberObservedOwner cur (Some nowMs)) in
               pret cur
             else
               let* generation := lift_lease
                 (nextOwnerGenerationFromSnapshot (related relatedValues 0) (generation cur)) in
               let* owner := ownerRecordFor (owner_identity cur) generation localTask nowMs in
               let* _ := session_exec (stageClaim key owner) in
               let* _ := pmodify (λ l, rememberObservedOwner owner (Some nowMs) (rememberOwner owner l)) in
               pret owner
         end)
        "owner-takeover-raced"
  end.

(** *** Rebalancing *)

Inductive rebalance_outcome := RbNotOwner (o : option D1Owner) | RbReleased | RbUnchanged (o : D1Owner) | RbMoved (o : D1Owner).

Definition rebalanceDatabase (database : identity) (target : option target) : prog local rebalance_outcome :=
  let key := i_dbKey database in
  withWatchRetries
    (let* _ := session_watch [ownerKeyOf key; ownerGenerationKeyOf key] in
     let* read := readOwnerSnapshot key in
     let '(current, _, relatedValues, nowMs) := read in
     let notOwner :=
       let* _ := session_unwatch in
       let* _ := pmodify (λ l,
         match current with
         | Some cur => rememberObservedOwner cur None (forgetOwnedDb key l)
         | None => forgetObservedOwner key (forgetOwnedDb key l)
         end) in
       pret (RbNotOwner current) in
     match current with
     | None => notOwner
     | Some cur =>
         if negb (jeqb (taskId cur) (t_taskId localTask)) then notOwner
         else
           match target with
           | None =>
               let* _ := session_exec (stageOwnerRelease (ownerKeyOf key)) in
               let* _ := pmodify (λ l, forgetObservedOwner key (forgetOwnedDb key l)) in
               pret RbReleased
           | Some target =>
               if jeqb (t_taskId target) (taskId cur) && jeqb (t_endpoint target) (endpoint cur) then
                 let* _ := session_unwatch in
                 let* _ := pmodify (λ l, rememberObservedOwner cur None (set_owned (jm_set key cur) l)) in
                 pret (RbUnchanged cur)
               else
                 let* generation := lift_lease
                   (nextOwnerGenerationFromSnapshot (related relatedValues 0) (generation cur)) in
                 let* nextOwner := ownerRecordFor database generation target nowMs in
                 let* _ := session_exec (stageClaim key nextOwner) in
                 let* _ := pmodify (λ l, rememberObservedOwner nextOwner (Some nowMs) (forgetOwnedDb key l)) in
                 pret (RbMoved nextOwner)
           end
     end)
    "owner-rebalance-raced".

(** *** The lease-budget assertion *)

Record assertion := Assertion { as_owner : D1Owner; as_leaseRemainingMs : Z; as_guardMs : Z }.

Definition ownerAssertionWithBudget (owner : D1Owner) (redisNowMs guardMs : Z) : assertion :=
  Assertion owner (lease_floor_ms owner - redisNowMs) guardMs.

Definition assertCurrentOwnerWithLeaseBudget (owner : D1Owner) : prog local assertion :=
  let* read := readOwnerWithTimeFromClient (dbKey owner) in
  let '(current, _, nowMs) := read in
  match current with
  | None => pthrow (D1ProtocolError 409 "not-owner")
  | Some currentOwner =>
      if negb (ownerFenceMatches (fence_of current) (Some (owner_fence owner))) then
        pthrow (D1ProtocolError 409 "not-owner")
      else if expired currentOwner nowMs then
        let* _ := pmodify (λ l, forgetObservedOwner (dbKey owner) (forgetOwnedDb (dbKey owner) l)) in
        pthrow (D1ProtocolError 503 "owner-lease-expired")
      else
        let remainingMs := lease_floor_ms currentOwner - nowMs in
        let guardMs := ownerLeaseGuardMs env in
        if remainingMs <? guardMs then
          let* renewed := renewOwner currentOwner in
          let tooShort :=
            let* _ := pmodify (λ l, forgetObservedOwner (dbKey owner) (forgetOwnedDb (dbKey owner) l)) in
            pthrow (D1ProtocolError 503 "owner-lease-too-short") in
          match rn_owner renewed with
          | Some renewedOwner =>
              if rn_renewed renewed
                 && ownerFenceMatches (rn_owner renewed ≫= λ o, Some (owner_fence o)) (Some (owner_fence owner))
                 && (guardMs <=? lease_floor_ms renewedOwner - rn_nowMs renewed)
              then pret (ownerAssertionWithBudget renewedOwner (rn_nowMs renewed) guardMs)
              else tooShort
          | None => tooShort
          end
        else pret (ownerAssertionWithBudget currentOwner nowMs guardMs)
  end.
End registry.
