(* ===== verification/D1OwnerSafety.v ===== *)
(** * Safety of the D1 owner protocol

    The records of src/d1-runtime/owner-registry.js form an [OwnerScheme] and its handlers are
    verified one by one against the logic of OwnerLogic; the theorems then hold in every
    interleaving of any number of tasks, with lost commands, lost replies, expiring keys and
    refused transactions. *)

From stdpp Require Import base list strings gmap.
From Stdlib Require Import ZArith Lia.
From S2P Require Import Prelude JsMap NsPattern WorkerContract Utf8 Json JsNumber OwnerLease Redis OwnerProtocol OwnerLogic D1Owner.

#[local] Open Scope Z_scope.
#[local] Open Scope wdl_scope.

(** ** Stored records *)

Section records.
Context (env : fields) (IntrinsicURL : jstr → option url_parts).

Definition valid_key (K : jstr) : Prop := ∃ ns id, dbKeyOf (JStr ns) (JStr id) = Ok K.

(** A record as the protocol writes it for database [K]. *)
Record owner_wf (K : jstr) (o : D1Owner) : Prop := {
  wf_dbKey : dbKey o = K;
  wf_scope : dbKeyOf (JStr (namespace o)) (JStr (databaseId o)) = Ok K;
  wf_slot : 0 <= slot o <= MAX_SAFE_INTEGER;
  wf_task : taskId o ≠ [];
  wf_task_units : Forall is_unit (taskId o);
  wf_endpoint_units : Forall is_unit (endpoint o);
  wf_endpoint : validEndpoint IntrinsicURL (JStr (endpoint o)) = true;
  wf_generation : 0 < generation o <= MAX_SAFE_INTEGER;
  wf_lease : ∃ e, leaseExpiresAt o = JNum (NInt e) ∧ 0 <= e <= MAX_SAFE_INTEGER }.

Definition ascii (s : jstr) : Prop := Forall (λ c, 0 <= c < 0x80) s.

Lemma dbKey_ascii ns id K : dbKeyOf (JStr ns) (JStr id) = Ok K →
  K = ns ++ [58] ++ id ∧ ascii ns ∧ ascii id ∧ ns ≠ [].
Proof.
  unfold dbKeyOf. destruct (isValidRuntimeLoadNs (JStr ns)) eqn:En; [|done]. cbn [negb].
  destruct (D1_DATABASE_ID_RE id) eqn:Ei; [|done]. cbn [negb]. intros <-%Ok_inj. split; [done|].
  apply runtime_load_ns_units in En as [En Hne]. apply head_tail_re_inv in Ei as [Ei _].
  split; [|split; [|done]]; (eapply Forall_impl; [eassumption|]);
    unfold alnum_dash_us, is_alnum, is_alpha, is_lower_alnum, is_lower, is_upper, is_digit, is_dash,
      is_underscore; intros c Hc; simpl in Hc; to_prop;
    repeat match goal with H : _ ∨ _ |- _ => destruct H end; to_prop;
    repeat match goal with H : _ ∨ _ |- _ => destruct H end; to_prop;
    repeat match goal with H : _ ∨ _ |- _ => destruct H end; to_prop; lia.
Qed.

Lemma valid_key_ascii K : valid_key K → ascii K ∧ K ≠ [].
Proof.
  intros (ns & id & H). apply dbKey_ascii in H as (-> & Hn & Hi & Hne). split; [|by destruct ns].
  apply Forall_app. split; [done|]. apply Forall_app. split; [repeat constructor; lia | done].
Qed.

Lemma owner_plain K o : owner_wf K o → plain (owner_json o).
Proof.
  intros []. destruct (dbKey_ascii _ _ _ wf_scope0) as (E & Hn & Hi & _).
  assert (ascii K) as HK by (apply valid_key_ascii; by eexists _, _).
  destruct wf_lease0 as (e & El & He).
  assert (∀ z, 0 <= z <= MAX_SAFE_INTEGER → is_safe_integer z = true) as Hs.
  { intros z Hz. unfold is_safe_integer. rewrite (proj2 (Z.leb_le _ _)), (proj2 (Z.leb_le _ _)) by lia. done. }
  subst K. unfold owner_json. rewrite El. unfold plain.
  split_and!; auto using ascii_units, js_units with lia.
  apply (bool_decide_unpack _). vm_compute. exact I.
Qed.

(** A stored record is read back as itself. *)
Lemma parse_stored K o : owner_wf K o →
  parseOwner IntrinsicURL (decodeBulk (Some (owner_bytes o))) K = Ok (Some o).
Proof.
  intros Hwf. destruct (json_roundtrip _ (owner_plain _ _ Hwf)) as (text & Ht & _ & Hp).
  unfold parseOwner, decodeBulk, owner_bytes. rewrite Ht. cbn [default option_map from_option id].
  unfold parseOwnerRecord.
  assert (raw_text (JStr (utf8_decode (utf8_encode text))) = Some (utf8_decode (utf8_encode text))) as ->.
  { destruct (utf8_decode (utf8_encode text)) as [|c r] eqn:E; [|done]. vm_compute in Hp. done. }
  rewrite Hp. unfold owner_json. cbv beta iota.
  assert (∀ z, 0 <= z <= MAX_SAFE_INTEGER → is_safe_integer z = true) as Hs.
  { intros z Hz. unfold is_safe_integer. rewrite (proj2 (Z.leb_le _ _)), (proj2 (Z.leb_le _ _)) by lia. done. }
  destruct Hwf. destruct wf_lease0 as (e & He & Her).
  match goal with |- context [obj_get _ ?l] => set (fs := l) end.
  assert (obj_get (js "generation") fs = JNum (NInt (generation o))) as G by reflexivity.
  assert (obj_get (js "leaseExpiresAt") fs = leaseExpiresAt o) as -> by reflexivity.
  rewrite G, He. cbn [safe_integer_of num_is_finite]. rewrite Hs by lia.
  rewrite (proj2 (Z.leb_gt _ _)) by lia. unfold ownerMatchesScope.
  assert (obj_get (js "namespace") fs = JStr (namespace o)) as -> by reflexivity.
  assert (obj_get (js "databaseId") fs = JStr (databaseId o)) as -> by reflexivity.
  assert (obj_get (js "dbKey") fs = JStr (dbKey o)) as -> by reflexivity.
  assert (obj_get (js "slot") fs = JNum (NInt (slot o))) as -> by reflexivity.
  assert (obj_get (js "taskId") fs = JStr (taskId o)) as -> by reflexivity.
  assert (obj_get (js "endpoint") fs = JStr (endpoint o)) as -> by reflexivity.
  assert (obj_get (js "leaseExpiresAt") fs = leaseExpiresAt o) as -> by reflexivity.
  rewrite G. cbn [safe_integer_of]. rewrite !Hs by lia. rewrite (proj2 (Z.ltb_ge _ _)) by lia.
  rewrite wf_dbKey0, jeqb_refl, wf_scope0, jeqb_refl. cbn [negb].
  rewrite wf_endpoint0. destruct (taskId o) as [|c r] eqn:Et; [done|].
  rewrite <- Et, <- wf_dbKey0. by destruct o.
Qed.

Lemma owner_bytes_inj K o o' : owner_wf K o → owner_wf K o' → owner_bytes o = owner_bytes o' → o = o'.
Proof.
  intros H H' E. apply parse_stored in H, H'. rewrite E, H' in H. by injection H.
Qed.

(** *** Keys *)

Lemma owner_key_inj K K' : valid_key K → valid_key K' → ownerKeyOf K = ownerKeyOf K' → K = K'.
Proof.
  intros H H' E. apply valid_key_ascii in H as [H _], H' as [H' _].
  apply app_inv_head in E. by apply encodeURIComponent_inj.
Qed.

Lemma generation_key_inj K K' :
  valid_key K → valid_key K' → ownerGenerationKeyOf K = ownerGenerationKeyOf K' → K = K'.
Proof.
  intros H H' E. apply valid_key_ascii in H as [H _], H' as [H' _].
  apply app_inv_tail, app_inv_head in E. by apply encodeURIComponent_inj.
Qed.

Lemma owner_generation_key_ne K K' : valid_key K → valid_key K' → ownerKeyOf K ≠ ownerGenerationKeyOf K'.
Proof.
  intros H H'. apply valid_key_ascii in H as [H _], H' as [H' _].
  apply generation_key_not_owner_key; by apply ascii_units.
Qed.

(** *** Leases *)

Definition lease_end (o : D1Owner) : Z := lease_ms o.

Lemma expired_wf K o now : owner_wf K o → expired o now = (lease_end o <=? now).
Proof.
  intros []. destruct wf_lease0 as (e & He & _). unfold expired, ownerLeaseExpired, lease_end, lease_ms.
  by rewrite He.
Qed.

Lemma ttl_positive : 0 < ownerTtlSeconds env.
Proof. by apply ttl_env_positive. Qed.
End records.

(** ** The scheme *)

#[export] Program Instance d1_scheme (env : fields) (IntrinsicURL : jstr → option url_parts) : OwnerScheme D1Owner := {
  ow_ttl := ownerTtlSeconds env;
  ow_valid := valid_key;
  ow_key := ownerKeyOf;
  ow_generation_key := ownerGenerationKeyOf;
  ow_wf := owner_wf IntrinsicURL;
  ow_bytes := owner_bytes;
  ow_parse K b := match parseOwner IntrinsicURL (decodeBulk (Some b)) K with Ok o => o | Err _ => None end;
  ow_fence := owner_fence;
  ow_lease := lease_end;
  ow_pins _ := [];
  ow_guards _ := [] }.
Next Obligation. intros. apply ttl_positive. Qed.
Next Obligation. intros env url K o []. by eexists _, _. Qed.
Next Obligation. intros env url K o []. done. Qed.
Next Obligation. intros env url K o Hwf. cbv beta. by rewrite (parse_stored _ _ _ Hwf). Qed.
Next Obligation. intros. by apply owner_key_inj. Qed.
Next Obligation. intros. by apply generation_key_inj. Qed.
Next Obligation. intros. by apply owner_generation_key_ne. Qed.
Next Obligation. intros env url K o k v K' _ []%elem_of_nil. Qed.

(** The local state of task [me]. *)
Record local_ok (env : fields) (IntrinsicURL : jstr → option url_parts) (me : jstr) (l : local) : Prop := {
  lo_owned : Forall (λ kv, owner_wf IntrinsicURL kv.1 kv.2 ∧ taskId kv.2 = me) (ownedDbs l);
  lo_observed : Forall (λ kv, owner_wf IntrinsicURL kv.1 (ob_owner kv.2)) (observedD1Owners l);
  lo_wf : jm_wf (observedD1Owners l);
  lo_bound : (jm_size (observedD1Owners l) <= Z.to_nat (observedOwnerMaxEntries env))%nat }.

Section logic.
Context (env : fields) (IntrinsicURL : jstr → option url_parts).
Abbreviation owner_wf := (owner_wf IntrinsicURL).
Abbreviation local_ok := (local_ok env IntrinsicURL).

(** *** Local state *)

Lemma lo_set_owned me l f :
  local_ok me l →
  Forall (λ kv, owner_wf kv.1 kv.2 ∧ taskId kv.2 = me) (f (ownedDbs l)) → local_ok me (set_owned f l).
Proof. intros [] H. by split. Qed.

Lemma lo_remember me l o :
  owner_wf (dbKey o) o → taskId o = me → local_ok me l → local_ok me (rememberOwner o l).
Proof. intros Ho Ht Hl. apply lo_set_owned; [done|]. destruct Hl. auto with wdl. Qed.

Lemma lo_forget_owned me l K : local_ok me l → local_ok me (forgetOwnedDb K l).
Proof. intros []. split; simpl; auto with wdl. Qed.

Lemma lo_forget_observed me l K : local_ok me l → local_ok me (forgetObservedOwner K l).
Proof.
  intros []. split; simpl; auto with wdl. etransitivity; [apply jm_delete_length | done].
Qed.

Lemma lo_remember_observed me l o now :
  owner_wf (dbKey o) o → local_ok me l → local_ok me (rememberObservedOwner env o now l).
Proof.
  intros Ho Hl. unfold rememberObservedOwner. destruct (dbKey o) eqn:Ek; [done|]. rewrite <- Ek in *.
  destruct now as [n|]; [|by apply lo_forget_observed].
  destruct (_ || _); [by apply lo_forget_observed|]. destruct Hl. split; simpl; auto with wdl.
  apply jm_trim_size. auto with wdl.
Qed.
End logic.

(** ** The handlers satisfy the logic *)

Section handlers.
Context (env : fields) (IntrinsicURL : jstr → option url_parts) (localTask : target).
Abbreviation owner_wf := (owner_wf IntrinsicURL).
Abbreviation me := (t_taskId localTask).
Abbreviation local_ok := (local_ok env IntrinsicURL me).
#[local] Existing Instance d1_scheme.
#[local] Existing Instance no_history.
Abbreviation scheme := (d1_scheme env IntrinsicURL).
Abbreviation lease_until := (@lease_until D1Owner scheme).
Abbreviation wp := (@wp D1Owner local scheme no_history local_ok me _).

Record target_ok (t : target) : Prop := {
  tg_task : t_taskId t ≠ [];
  tg_task_units : Forall is_unit (t_taskId t);
  tg_endpoint_units : Forall is_unit (t_endpoint t) }.

Record identity_ok (K : jstr) (id : identity) : Prop := {
  id_dbKey : i_dbKey id = K;
  id_scope : dbKeyOf (JStr (i_namespace id)) (JStr (i_databaseId id)) = Ok K;
  id_slot : 0 <= i_slot id <= MAX_SAFE_INTEGER }.

Hypothesis Htask : target_ok localTask.

Lemma owner_identity_ok K o : owner_wf K o → identity_ok K (owner_identity o).
Proof. intros []. by split. Qed.

Lemma wf_valid K o : owner_wf K o → valid_key K.
Proof. intros []. by eexists _, _. Qed.

Lemma identity_valid K id : identity_ok K id → valid_key K.
Proof. intros []. by eexists _, _. Qed.

Lemma wf_self K o : owner_wf K o → owner_wf (dbKey o) o.
Proof. intros H. by rewrite (wf_dbKey _ _ _ H). Qed.

(** [parseOwner] reads stored records back. *)
Lemma reads_stored K : @reads_owner _ scheme K (λ raw, parseOwner IntrinsicURL raw K) (λ _, True).
Proof.
  split; [done|]. intros o Hwf. cbn [ow_bytes d1_scheme]. cbv beta. by rewrite (parse_stored _ _ _ Hwf).
Qed.

(** A read of the owner key: nothing, or a record whose lease ends as if it were granted no
    later than the time read. *)
Lemma wp_readOwnerWithTime g K Q :
  valid_key K →
  (∀ n, g_time g <= n → Q (Ghost (g_watch g) ((ownerKeyOf K, None) :: g_seen g) n) (Ok (None, None, n))) →
  (∀ o n, owner_wf K o → lease_end o <= lease_until n → g_time g <= n → 0 <= n →
     Q (Ghost (g_watch g) ((ownerKeyOf K, Some (owner_bytes o)) :: g_seen g) n)
       (Ok (Some o, Some (owner_bytes o), n))) →
  (∀ g' e, g_time g <= g_time g' → Q g' (Err e)) →
  wp g (readOwnerWithTimeFromClient IntrinsicURL K) Q.
Proof.
  intros HK HN HS HE. apply (@wp_timed_read _ _ scheme no_history local_ok me g K (λ raw, parseOwner IntrinsicURL raw K) (λ _, True) Q); [done|apply reads_stored| |done].
  intros v o n Hn H0 [[-> ->]|(cur & -> & -> & Hwf & _ & Hl)]; [by apply HN | by apply HS].
Qed.

Lemma wp_readOwnerSnapshot g K Q :
  valid_key K →
  (∀ vo vg o n, counter_raw vg → g_time g <= n → 0 <= n →
     (vo = None ∧ o = None ∨
      ∃ cur, o = Some cur ∧ vo = Some (owner_bytes cur) ∧ owner_wf K cur ∧ lease_end cur <= lease_until n) →
     Q (Ghost (g_watch g) ((ownerGenerationKeyOf K, vg) :: (ownerKeyOf K, vo) :: g_seen g) n)
       (Ok (o, vo, [vg], n))) →
  (∀ g' e, g_time g <= g_time g' → Q g' (Err e)) →
  wp g (readOwnerSnapshot IntrinsicURL K) Q.
Proof.
  intros HK HQ HE. apply (@wp_snapshot _ _ scheme no_history local_ok me g K (λ raw, parseOwner IntrinsicURL raw K) (λ _, True) _ Q); [done|apply reads_stored| |done].
  intros vo vs o n Hn H0 Hvs Hf _. apply Forall2_cons_inv_l in Hvs as (vg & r & Hvg & ->%Forall2_nil_inv_l & ->).
  apply (HQ vo vg o n); [|done..|].
  - destruct vg as [b|]; [|done]. by apply (Hvg b eq_refl K HK).
  - destruct Hf as [?|(cur & ? & ? & ? & _ & ?)]; [by left | right; by exists cur].
Qed.

Lemma wp_ownerRecordFor g K id gen tgt n Q :
  identity_ok K id → target_ok tgt → 0 < gen <= MAX_SAFE_INTEGER →
  (∀ o, owner_wf K o → generation o = gen → taskId o = t_taskId tgt → lease_end o = lease_until n →
        Q g (Ok o)) →
  (∀ e, Q g (Err e)) →
  wp g (ownerRecordFor env IntrinsicURL id gen tgt n) Q.
Proof.
  intros [Hk Hs Hsl] [] Hg HQ HE. unfold ownerRecordFor. destruct (validEndpoint _ _) eqn:Ev; [|apply HE].
  cbn [negb]. apply wp_bind, wp_lift_lease; [|done]. intros lease Hl.
  apply lease_expires_spec in Hl as (-> & Hn & Ht & Hpos). apply HQ; try done. split; try done.
  eexists. split; [done|]. lia.
Qed.

Lemma wp_withWatchRetries {A} g t (op : prog local A) code P :
  t <= g_time g → (∀ g0, t <= g_time g0 → wp g0 op (post t P)) →
  wp g (withWatchRetries op code) (post t P).
Proof. apply wp_retries. Qed.

Lemma wp_throwIfDraining g (Q : ghost → result jserr unit → Prop) :
  Q g (Ok tt) → (∀ e, Q g (Err e)) → wp g throwIfDraining Q.
Proof. intros HQ HE l Hl. destruct (draining l); [apply HE | apply HQ]. Qed.

(** *** Repair of the generation counter *)

Lemma wp_repair K g o : owner_wf K o →
  wp g (repairGenerationCounterIfStale o) (post (g_time g) (owner_wf K)).
Proof.
  intros Hwf. pose proof (wf_valid _ _ Hwf) as HK. unfold repairGenerationCounterIfStale.
  rewrite (wf_dbKey _ _ _ Hwf). apply wp_withWatchRetries; [done|]. intros g0 Hg0.
  apply wp_bind, wp_watch; simpl; [|intros; apply post_err; lia].
  apply wp_bind, wp_redis_get; simpl; [|intros; apply post_err; lia]. intros v t Ht Hv _.
  apply wp_bind, wp_lift_lease; simpl; [|intros; apply post_err; simpl; lia]. intros c Hc.
  destruct (Z.leb_spec (generation o) c).
  - apply wp_bind, wp_unwatch; simpl; [|intros; apply post_err; lia]. split; [simpl; lia | done].
  - apply wp_bind, wp_exec; simpl.
    + apply (@ok_repair _ scheme me _ K o v); simpl; [done | by left | by left | |constructor].
      unfold counter_of. by rewrite Hc.
    + split; [simpl; lia | done].
    + intros. apply post_err. lia.
Qed.

(** *** Renewal *)

Definition renewal_ok (K : jstr) (fence : fence) (r : renewal) : Prop :=
  match rn_owner r with Some o => owner_wf K o ∧ (rn_renewed r = true → owner_fence o = fence) | None => True end.

Lemma wp_renewAttempts K n : ∀ g o, owner_wf K o → taskId o = me →
  wp g (renewAttempts env IntrinsicURL localTask n o) (post (g_time g) (renewal_ok K (owner_fence o))).
Proof.
  induction n as [|n IH]; intros g o Hwf Hme; cbn [renewAttempts]; [by apply post_err|].
  pose proof (wf_valid _ _ Hwf) as HK. rewrite (wf_dbKey _ _ _ Hwf).
  apply wp_bind, wp_readOwnerWithTime; [done| | |intros; by apply post_err].
  - intros t Ht. apply wp_bind, wp_modify; [auto using lo_forget_owned, lo_forget_observed|]. by split.
  - intros cur t Hcur Hl Ht Ht0. cbn [fence_of fmap option_fmap option_map].
    destruct (ownerFenceMatches _ _) eqn:Ef; cbn [negb].
    2:{ apply wp_bind, wp_modify; [|by split].
        intros l Hlo. apply lo_remember_observed; [by eapply wf_self|]. by apply lo_forget_owned. }
    apply fence_match_spec in Ef. destruct (expired cur t) eqn:Ee.
    { apply wp_bind, wp_modify; [auto using lo_forget_owned, lo_forget_observed|]. by split. }
    apply wp_bind, wp_ownerRecordFor with K; auto using owner_identity_ok.
    + apply (wf_generation _ _ _ Hwf).
    + intros o' Hwf' Hg' Ht' Hl'.
      assert (owner_fence o' = owner_fence cur) as Hff.
      { rewrite Ef. unfold owner_fence. by rewrite Hg', Ht', Hme. }
      apply wp_bind, wp_redis_set.
      * apply (@ok_renew _ scheme me _ K cur o'); [|done]. split_and!; try done; cbn [ow_fence ow_lease d1_scheme g_time].
        -- rewrite Ef. exact Hme.
        -- by rewrite Hl'.
        -- by rewrite Hl'.
      * intros [].
        -- apply wp_bind, wp_modify.
           ++ intros l Hlo. apply lo_remember_observed; [by eapply wf_self|].
              apply lo_set_owned; [done|]. destruct Hlo. apply jm_Forall_set; [|done].
              simpl. split; [done|]. congruence.
           ++ split; [done|]. cbn. split; [done|]. congruence.
        -- eapply wp_mono; [by apply IH|]. intros g' r [Hg0 Hp]. split; [simpl in *; lia | done].
      * intros g' e Hg0. apply post_err. simpl in *. lia.
    + intros e. by apply post_err.
Qed.

(** *** Resolution and takeover *)

Lemma wp_cached K id g refresh (Q : ghost → result jserr (option D1Owner) → Prop) :
  identity_ok K id → (∀ o, owner_wf K o → Q g (Ok (Some o))) → Q g (Ok None) → (∀ e, Q g (Err e)) →
  wp g (cachedObservedOwner env localTask id refresh) Q.
Proof.
  intros Hid HS HN HE. unfold cachedObservedOwner. destruct (_ || _ || _); [by apply wp_ret|].
  rewrite (id_dbKey _ _ Hid). intros l Hl. destruct (jm_get K (observedD1Owners l)) as [e|] eqn:Eg;
    [|split; [by apply lo_forget_observed | done]].
  assert (owner_wf K (ob_owner e)) as Hwf.
  { pose proof (lo_observed _ _ _ _ Hl) as HF. rewrite Forall_forall in HF. by apply (HF _ (jm_get_elem _ _ _ Eg)). }
  assert (∀ l', local_ok l' → observedD1Owners l' = observedD1Owners l →
    local_ok (set_observed (jm_touch K e) l')) as Htouch.
  { intros l' [] Heq. rewrite Heq in *. split; simpl; rewrite ?Heq; auto with wdl.
    by rewrite (jm_size_touch_present _ _ _ _ lo_wf0 Eg). }
  destruct (_ <=? _); [split; [by apply lo_forget_observed | done]|].
  destruct (jeqb _ _) eqn:Et; [destruct (draining l); [apply HE|]|].
  - apply jeqb_eq in Et. split; [|by apply HS].
    apply Htouch; [apply lo_remember; [by eapply wf_self | done | done] | done].
  - split; [|by apply HS]. apply Htouch; [by apply lo_forget_owned | done].
Qed.

Lemma wp_accept K g t o n :
  owner_wf K o → t <= g_time g →
  wp g (let* _ := pmodify (λ l, rememberObservedOwner env o (Some n)
                    (if jeqb (taskId o) me then rememberOwner o l else l)) in pret o)
     (post t (owner_wf K)).
Proof.
  intros Hwf Ht. apply wp_bind, wp_modify; [|by split].
  intros l Hl. apply lo_remember_observed; [by eapply wf_self|].
  destruct (jeqb _ _) eqn:E; [|done]. apply jeqb_eq in E. apply lo_remember; [by eapply wf_self | done | done].
Qed.

(** The claim of a fresh record after a snapshot under WATCH. *)
Lemma wp_claim {B} K g t cur vg vo n tgt id (after : D1Owner → local → local) (f : D1Owner → B) P :
  identity_ok K id → target_ok tgt → counter_raw vg → 0 <= cur →
  g_watch g = [ownerKeyOf K; ownerGenerationKeyOf K] → g_time g = n → t <= n →
  (ownerGenerationKeyOf K, vg) ∈ g_seen g → (ownerKeyOf K, vo) ∈ g_seen g →
  @may_replace _ scheme me n K vo →
  (∀ o l, owner_wf K o → taskId o = t_taskId tgt →
     local_ok l → local_ok (after o l)) →
  (∀ o, owner_wf K o → P (f o)) →
  wp g (let* generation := lift_lease (nextOwnerGenerationFromSnapshot (related [vg] 0) cur) in
        let* owner := ownerRecordFor env IntrinsicURL id generation tgt n in
        let* _ := session_exec (stageClaim env K owner) in
        let* _ := pmodify (after owner) in
        pret (f owner))
     (post t P).
Proof.
  intros Hid Htg Hc Hcur Hw Hn Ht Hg Ho Hr Ha HP.
  apply wp_bind, wp_lift_lease; [|intros; apply post_err; lia]. intros gen Hgen.
  apply next_generation_spec in Hgen as (c & Hp & -> & Hrange); [|done].
  change (related [vg] 0) with (decodeBulk vg) in Hp. rewrite (counter_raw_spec _ Hc) in Hp. apply Ok_inj in Hp as <-.
  apply wp_bind, wp_ownerRecordFor with K; auto; [|intros; apply post_err; lia].
  intros o Hwf Hog Hot Hol. apply wp_bind, wp_exec.
  - apply (@ok_claim _ scheme me _ K o vg vo); auto.
    + rewrite Hw. by left.
    + rewrite Hw. right. by left.
    + cbn [ow_fence d1_scheme owner_fence snd]. rewrite Hog. lia.
    + cbn [ow_lease d1_scheme]. by rewrite Hol, Hn.
    + by rewrite Hn.
    + constructor.
    + constructor.
  - apply wp_bind, wp_modify; [by auto|]. split; [simpl; lia | auto].
  - intros g' e Hg'. apply post_err. lia.
Qed.

Lemma wp_readAfterDelays K delays : ∀ g, valid_key K →
  wp g (readAfterDelays IntrinsicURL delays K)
     (post (g_time g) (λ r, match r with Some (o, _) => owner_wf K o | None => True end)).
Proof.
  induction delays as [|d r IH]; intros g HK; cbn [readAfterDelays]; [by split|].
  apply wp_bind, wp_readOwnerWithTime; [done| | |intros; by apply post_err].
  - intros n Hn. eapply wp_mono; [by apply IH|]. intros g' r' [H1 H2]. split; [simpl in *; lia | done].
  - intros o n Hwf Hl Hn Hn0. by split.
Qed.

Lemma remember_both K o now l :
  owner_wf K o → taskId o = me → local_ok l →
  local_ok (rememberObservedOwner env o now (rememberOwner o l)).
Proof.
  intros Hwf Ht Hl. apply lo_remember_observed; [by eapply wf_self|].
  apply lo_remember; [by eapply wf_self | done | done].
Qed.

Lemma wp_resolve_takeover fuel :
  (∀ K id g refresh, identity_ok K id →
     wp g (resolveDbOwner env IntrinsicURL localTask fuel id refresh) (post (g_time g) (owner_wf K))) ∧
  (∀ K o g, owner_wf K o →
     wp g (takeoverExpiredOwner env IntrinsicURL localTask fuel o) (post (g_time g) (owner_wf K))).
Proof.
  induction fuel as [|fuel [IHr IHt]]; [split; intros; by apply post_err|].
  assert (∀ K g t o, owner_wf K o → t <= g_time g →
    wp g (let* _ := pmodify (λ l, forgetObservedOwner K (forgetOwnedDb K l)) in
          takeoverExpiredOwner env IntrinsicURL localTask fuel o) (post t (owner_wf K))) as Htake.
  { intros K g t o Hwf Ht. apply wp_bind, wp_modify; [auto using lo_forget_owned, lo_forget_observed|].
    eapply wp_mono; [by apply IHt|]. intros g' r. by apply post_weaken. }
  split.
  - intros K id g refresh Hid. pose proof (identity_valid _ _ Hid) as HK. cbn [resolveDbOwner].
    rewrite (id_dbKey _ _ Hid).
    apply wp_bind, wp_cached with K; [done|by split| |intros; by apply post_err].
    apply wp_bind, wp_readOwnerWithTime; [done| | |intros; by apply post_err].
    + (* nothing stored *)
      intros n Hn. apply wp_bind, wp_throwIfDraining; [|intros; by apply post_err].
      apply wp_catch. eapply wp_mono with (Q := post (g_time g) (owner_wf K)).
      * apply wp_withWatchRetries; [done|]. intros g0 Hg0.
        apply wp_bind, wp_watch; [|intros; apply post_err; lia].
        apply wp_bind, wp_readOwnerSnapshot; [done| |intros; apply post_err; simpl in *; lia].
        intros vo vg o m Hvg Hm Hm0 [[-> ->]|(cur & -> & -> & Hwf & Hl)]; cbv beta iota; simpl in Hm.
        -- apply wp_claim with (vo := None) (f := λ o, o); simpl; auto; try lia.
           ++ by left.
           ++ right. by left.
           ++ intros b [=].
           ++ intros. by apply remember_both with K.
        -- apply wp_bind, wp_unwatch; [|intros; apply post_err; simpl in *; lia].
           destruct (expired cur m); [apply Htake; [done | simpl; lia] | apply wp_accept; [done | simpl; lia]].
      * intros g' [o|e] [Hg' Hp]; [by split|]. case_bool_decide; [|by apply post_err].
        apply wp_bind. eapply wp_mono; [by apply (wp_readAfterDelays K)|].
        intros g2 [[[o m]|]|e2] [Hg2 Hp2]; [|apply post_err; lia..].
        destruct (expired o m); [apply Htake; [done | lia] | apply wp_accept; [done | lia]].
    + (* a record *)
      intros o n Hwf Hl Hn Hn0. destruct (expired o n); [by apply Htake|].
      destruct (jeqb (taskId o) me) eqn:Et; cbn [negb].
      * apply jeqb_eq in Et. apply wp_bind, wp_throwIfDraining; [|intros; by apply post_err].
        apply wp_bind. intros l Hlo. apply wp_ret.
        apply wp_bind, wp_modify; [intros; by apply remember_both with K|].
        destruct (jm_has _ _); [by split|]. apply wp_catch.
        eapply wp_mono; [by apply wp_repair|]. intros g' [o'|e] [Hg' Hp]; (split; [simpl in *; lia | done]).
      * apply wp_bind, wp_modify; [|by split]. intros l Hlo.
        apply lo_remember_observed; [by eapply wf_self | by apply lo_forget_owned].
  - intros K o g Hwf. pose proof (wf_valid _ _ Hwf) as HK. cbn [takeoverExpiredOwner].
    rewrite (wf_dbKey _ _ _ Hwf). apply wp_bind, wp_throwIfDraining; [|intros; by apply post_err].
    apply wp_withWatchRetries; [done|]. intros g0 Hg0.
    apply wp_bind, wp_watch; [|intros; apply post_err; lia].
    apply wp_bind, wp_readOwnerSnapshot; [done| |intros; apply post_err; simpl in *; lia].
    intros vo vg c m Hvg Hm Hm0 [[-> ->]|(cur & -> & -> & Hcur & Hl)]; cbv beta iota; simpl in Hm.
    + apply wp_bind, wp_unwatch; [|intros; apply post_err; simpl in *; lia].
      apply wp_bind, wp_modify; [auto using lo_forget_observed|].
      eapply wp_mono; [apply IHr; by apply owner_identity_ok|]. intros g' r. apply post_weaken. simpl. lia.
    + cbn [fence_of fmap option_fmap option_map].
      destruct (ownerFenceMatches _ _) eqn:Ef; cbn [negb].
      2:{ apply wp_bind, wp_unwatch; [|intros; apply post_err; simpl in *; lia].
          apply wp_bind, wp_modify; [|split; [simpl; lia | done]].
          intros l Hlo. apply lo_remember_observed; [by eapply wf_self|].
          destruct (jeqb _ _) eqn:E; [|done]. apply jeqb_eq in E.
          apply lo_remember; [by eapply wf_self | done | done]. }
      destruct (expired cur m) eqn:Ee; cbn [negb].
      2:{ apply wp_bind, wp_unwatch; [|intros; apply post_err; simpl in *; lia].
          apply wp_bind, wp_modify; [|split; [simpl; lia | done]].
          intros l Hlo. apply lo_remember_observed; [by eapply wf_self | done]. }
      apply wp_claim with (vo := Some (owner_bytes cur)) (f := λ o, o); simpl; auto using owner_identity_ok; try lia.
      * pose proof (wf_generation _ _ _ Hcur). lia.
      * by left.
      * right. by left.
      * intros b [= <-]. exists cur. split_and!; try done. left. rewrite (expired_wf _ _ _ _ Hcur) in Ee. to_prop. done.
      * intros. by apply remember_both with K.
Qed.

(** *** Rebalancing *)

Lemma wp_rebalance K g database tgt :
  identity_ok K database → (∀ t, tgt = Some t → target_ok t) →
  wp g (rebalanceDatabase env IntrinsicURL localTask database tgt) (post (g_time g) (λ _, True)).
Proof.
  intros Hid Htg. pose proof (identity_valid _ _ Hid) as HK. unfold rebalanceDatabase.
  rewrite (id_dbKey _ _ Hid). apply wp_withWatchRetries; [done|]. intros g0 Hg0.
  apply wp_bind, wp_watch; [|intros; apply post_err; lia].
  apply wp_bind, wp_readOwnerSnapshot; [done| |intros; apply post_err; simpl in *; lia].
  intros vo vg c m Hvg Hm Hm0 Hread; cbv beta iota; simpl in Hm.
  assert (wp (Ghost [ownerKeyOf K; ownerGenerationKeyOf K]
                [(ownerGenerationKeyOf K, vg); (ownerKeyOf K, vo)] m)
    (let* _ := session_unwatch in
     let* _ := pmodify (λ l, match c with
                             | Some cur => rememberObservedOwner env cur None (forgetOwnedDb K l)
                             | None => forgetObservedOwner K (forgetOwnedDb K l)
                             end) in
     pret (RbNotOwner c)) (post (g_time g) (λ _, True))) as Hnot.
  { apply wp_bind, wp_unwatch; [|intros; apply post_err; simpl in *; lia].
    apply wp_bind, wp_modify; [|split; [simpl; lia | done]]. intros l Hl.
    destruct Hread as [[_ ->]|(cur & -> & _ & Hwf & _)]; [auto using lo_forget_owned, lo_forget_observed|].
    apply lo_remember_observed; [by eapply wf_self | by apply lo_forget_owned]. }
  destruct Hread as [[-> ->]|(cur & -> & -> & Hwf & Hl)]; [done|].
  destruct (jeqb (taskId cur) me) eqn:Et; cbn [negb]; [|done]. apply jeqb_eq in Et.
  destruct tgt as [tgt|].
  - destruct (_ && _) eqn:Es.
    + apply wp_bind, wp_unwatch; [|intros; apply post_err; simpl in *; lia].
      apply wp_bind, wp_modify; [|split; [simpl; lia | done]]. intros l Hlo.
      apply lo_remember_observed; [by eapply wf_self|]. apply lo_set_owned; [done|].
      destruct Hlo. apply jm_Forall_set; done.
    + apply wp_claim with (vo := Some (owner_bytes cur)); simpl; auto; try lia.
      * pose proof (wf_generation _ _ _ Hwf). lia.
      * by left.
      * right. by left.
      * intros b [= <-]. exists cur. split_and!; try done. by right.
      * intros o l Hwo _ Hlo. apply lo_remember_observed; [by eapply wf_self | by apply lo_forget_owned].
  - apply wp_bind, wp_exec.
    + apply (@ok_release _ scheme me _ K cur); simpl; [done | by left | right; by left | done | apply Htask].
    + apply wp_bind, wp_modify; [auto using lo_forget_owned, lo_forget_observed|]. split; [simpl; lia | done].
    + intros. apply post_err. simpl in *. lia.
Qed.

(** *** Release *)

(** An owner this task may release. *)
Definition mine (o : D1Owner) : Prop := owner_wf (dbKey o) o ∧ taskId o = me.

Lemma lo_forgetReleased o r l : @outcome_ok _ scheme r → local_ok l →
  local_ok (forgetReleased env o r l).
Proof.
  intros Hr Hl. destruct r as [|[c|]|]; cbn [forgetReleased]; auto using lo_forget_owned, lo_forget_observed.
  destruct Hr as [K Hr]. apply lo_remember_observed; [by eapply wf_self | by apply lo_forget_owned].
Qed.

Lemma mine_entries owners : Forall mine owners →
  Forall (@entry_ok _ scheme me (λ raw expected, parseOwner IntrinsicURL raw (dbKey expected)))
    (map (λ o, (ownerKeyOf (dbKey o), o)) owners).
Proof.
  intros H. apply Forall_map. eapply Forall_impl; [exact H|]. intros o [Hwf Ht].
  exists (dbKey o). simpl. split_and!; try done. apply reads_stored.
Qed.

Lemma wp_releaseOwners owners g : Forall mine owners →
  wp g (releaseOwners env IntrinsicURL owners) (post (g_time g) (λ _, True)).
Proof.
  intros Ho. unfold releaseOwners. apply wp_bind. eapply wp_mono; [by apply (@wp_releaseBatches _ _ scheme no_history), mine_entries|].
  intros g1 [rs|e] [Hg1 Hrs]; [|by apply post_err]. apply wp_bind, wp_modify; [|by split].
  intros l Hl. revert l Hl. clear Ho. revert owners.
  induction Hrs as [|r rs Hr _ IH]; intros [|o os] l Hl; cbn; try done.
  apply IH. by apply lo_forgetReleased.
Qed.

Lemma wp_drain ready g : wp g (drainOwnedDbs env IntrinsicURL ready) (post (g_time g) (λ _, True)).
Proof.
  unfold drainOwnedDbs. apply wp_bind, wp_modify; [by intros l []; split|].
  apply wp_bind. intros l Hl. apply wp_ret. apply wp_bind. eapply wp_mono.
  - apply wp_releaseOwners, Forall_forall. intros o Ho. apply list_elem_of_filter in Ho as [_ Ho].
    apply list_elem_of_fmap in Ho as ([k o'] & -> & Ho). pose proof (lo_owned _ _ _ _ Hl) as HF.
    rewrite Forall_forall in HF. destruct (HF _ Ho) as [Hwf Ht]. split; [by eapply wf_self | done].
  - intros g1 [rs|e] [Hg1 _]; by split.
Qed.

(** *** The lease-budget assertion *)

Lemma lease_floor_wf K o : owner_wf K o → lease_floor_ms o = lease_end o.
Proof. intros []. destruct wf_lease0 as (e & He & _). unfold lease_floor_ms, lease_end, lease_ms. by rewrite He. Qed.

Definition assertion_ok (K : jstr) (f : fence) (a : assertion) : Prop :=
  owner_wf K (as_owner a) ∧ owner_fence (as_owner a) = f ∧ as_guardMs a <= as_leaseRemainingMs a.

Lemma wp_assert K g o : owner_wf K o → taskId o = me →
  wp g (assertCurrentOwnerWithLeaseBudget env IntrinsicURL localTask o)
     (post (g_time g) (assertion_ok K (owner_fence o))).
Proof.
  intros Hwf Ht. unfold assertCurrentOwnerWithLeaseBudget. rewrite (wf_dbKey _ _ _ Hwf).
  apply wp_bind, wp_readOwnerWithTime; [by eapply wf_valid|intros; by apply post_err| |intros; by apply post_err].
  intros cur n Hcur Hl Hn Hn0. cbn [fence_of fmap option_fmap option_map].
  destruct (ownerFenceMatches _ _) eqn:Ef; cbn [negb]; [|by apply post_err]. apply fence_match_spec in Ef.
  destruct (expired cur n).
  { apply wp_bind, wp_modify; [auto using lo_forget_owned, lo_forget_observed | by apply post_err]. }
  destruct (Z.ltb_spec (lease_floor_ms cur - n) (ownerLeaseGuardMs env)).
  - apply wp_bind. eapply wp_mono; [apply (wp_renewAttempts K); [done | injection Ef as -> _; done]|].
    intros g1 [r|e] [Hg1 Hr]; [|apply post_err; simpl in *; lia]. cbv zeta.
    assert (wp g1 (let* _ := pmodify (λ l, forgetObservedOwner K (forgetOwnedDb K l)) in
      pthrow (D1ProtocolError 503 "owner-lease-too-short")) (post (g_time g) (assertion_ok K (owner_fence o)))) as Hshort.
    { apply wp_bind, wp_modify; [auto using lo_forget_owned, lo_forget_observed | apply post_err; simpl in *; lia]. }
    unfold renewal_ok in Hr. destruct (rn_owner r) as [ro|]; [|done]. destruct Hr as [Hro Hrf].
    destruct (_ && _ && _) eqn:Eb; [|done]. to_prop. split; [simpl in *; lia|].
    split_and!; [done| |done]. rewrite <- Ef. by apply Hrf.
  - split; [done|]. by split_and!.
Qed.
End handlers.
