(* ===== verification/D1OwnerWorld.v ===== *)
(** * The D1 owner protocol in every interleaving

    Worlds of any number of D1 tasks over one Redis server. The promise of a database is the
    lease its last stored record granted; a holder that deletes its own record gives the
    promise up. *)

From stdpp Require Import base list strings gmap.
From Stdlib Require Import ZArith Lia.
From S2P Require Import Prelude JsMap NsPattern WorkerContract Utf8 Json JsNumber OwnerLease Redis OwnerProtocol OwnerLogic OwnerWorld D1Owner D1OwnerSafety.

#[local] Open Scope Z_scope.
#[local] Open Scope wdl_scope.

Inductive answer :=
| AnsOwner (o : D1Owner)
| AnsRenewal (r : renewal)
| AnsAssertion (a : assertion)
| AnsDone.

Section world.
Context (env : fields) (IntrinsicURL : jstr → option url_parts) (tasks : nat → target).

Abbreviation owner_wf := (owner_wf IntrinsicURL).
Abbreviation me t := (t_taskId (tasks t)).
Abbreviation scheme := (d1_scheme env IntrinsicURL).

(** The handlers the HTTP layer of task [t] starts, and the writes of other components. The
    record given to a renewal or an assertion is one this task owns; a takeover is given a
    record read from Redis. *)
Inductive api (t : nat) : prog local answer → Prop :=
| api_resolve fuel K id refresh : identity_ok K id →
    api t (let* o := resolveDbOwner env IntrinsicURL (tasks t) fuel id refresh in pret (AnsOwner o))
| api_takeover fuel K o : owner_wf K o →
    api t (let* o := takeoverExpiredOwner env IntrinsicURL (tasks t) fuel o in pret (AnsOwner o))
| api_renew K o : owner_wf K o → taskId o = me t →
    api t (let* r := renewOwner env IntrinsicURL (tasks t) o in pret (AnsRenewal r))
| api_rebalance K database tgt : identity_ok K database → (∀ x, tgt = Some x → target_ok x) →
    api t (let* _ := rebalanceDatabase env IntrinsicURL (tasks t) database tgt in pret AnsDone)
| api_drain ready : api t (let* _ := drainOwnedDbs env IntrinsicURL ready in pret AnsDone)
| api_assert K o : owner_wf K o → taskId o = me t →
    api t (let* a := assertCurrentOwnerWithLeaseBudget env IntrinsicURL (tasks t) o in pret (AnsAssertion a))
| api_other ws : Forall (@foreign_write _ scheme) ws → api t (let* _ := session_exec ws in pret AnsDone).

(** What else happens to a task's state: its clock advances, queries start and end. *)
Inductive tick (l : local) : local → Prop :=
| tick_clock now : l_now l <= now →
    tick l (Local (ownedDbs l) (observedD1Owners l) (storageSizeByDb l) (draining l) (pendingQueries l) now)
| tick_begin : tick l (beginPendingQuery l)
| tick_end : tick l (endPendingQuery l)
| tick_size k v : tick l (recordStorageSizeForDb k v l).

Definition answer_ok (_ : ghost) (r : result jserr answer) : Prop :=
  match r with Ok (AnsAssertion a) => as_guardMs a <= as_leaseRemainingMs a | _ => True end.

Hypothesis Htasks : ∀ t, target_ok (tasks t).

Lemma api_ok t p g : api t p → @wp _ _ scheme no_history (local_ok env IntrinsicURL (me t)) (me t) _ g p answer_ok.
Proof.
  destruct 1; apply wp_bind; (eapply wp_mono; [|]).
  - by apply wp_resolve_takeover.
  - by intros g' [?|?] _.
  - by apply (proj2 (wp_resolve_takeover env IntrinsicURL (tasks t) (Htasks t) fuel)).
  - by intros g' [?|?] _.
  - by apply (wp_renewAttempts env IntrinsicURL (tasks t) (Htasks t) K).
  - by intros g' [?|?] _.
  - by eapply wp_rebalance.
  - by intros g' [?|?] _.
  - apply wp_drain.
  - by intros g' [?|?] _.
  - by apply (wp_assert env IntrinsicURL (tasks t) (Htasks t) K).
  - intros g' [a|?] [_ Ha]; [|done]. by apply Ha.
  - apply (wp_exec _ _ _ _ (λ _ _, True)); [by apply ok_foreign | done..].
  - by intros g' [?|?] _.
Qed.

Lemma tick_ok t l l' : tick l l' → local_ok env IntrinsicURL (me t) l → local_ok env IntrinsicURL (me t) l'.
Proof.
  destruct 1; intros []; split; try done; unfold recordStorageSizeForDb;
    repeat (case_match; simpl; try done).
Qed.

Lemma initial_local_ok m now : local_ok env IntrinsicURL m (initial_local now).
Proof. split; simpl; [constructor|constructor|apply jm_wf_nil|]. unfold jm_size. simpl. lia. Qed.
End world.

(** ** Reachable worlds *)

Section reachability.
Context {Db : Type} `{!RedisServer Db}.
Context (env : fields) (IntrinsicURL : jstr → option url_parts) (tasks : nat → target).
Abbreviation scheme := (d1_scheme env IntrinsicURL).

Definition names (t : nat) : jstr := t_taskId (tasks t).
Definition promise_step := OwnerWorld.promise_step (OwnerScheme0 := scheme) names.
Definition counter := OwnerWorld.counter (Db := Db) (OwnerScheme0 := scheme).
Abbreviation dstep := (wstep (Db := Db) (api env IntrinsicURL tasks) tick).
Abbreviation initial := (OwnerWorld.initial (Db := Db) (A := answer) (OwnerScheme0 := scheme) names (local_ok env IntrinsicURL)).
Abbreviation reaches :=
  (OwnerWorld.reachable (Db := Db) (OwnerScheme0 := scheme) names (api env IntrinsicURL tasks) tick (local_ok env IntrinsicURL)).

(** The control plane never takes a database from its owner, so nothing is ever retired. *)
Definition reachable (w : world Db local answer) (pr : promises) : Prop := ∃ rt, reaches w pr rt.

Lemma reachable_initial w : initial w → reachable w (λ _, None).
Proof. intros H. eexists. by apply reach_init. Qed.

Lemma d1_fresh lbl rt : OwnerWorld.fresh (OwnerScheme0 := scheme) lbl rt.
Proof.
  destruct lbl as [[[t c] r]|]; [|done]. destruct c; try done. destruct r; try done.
  intros K o k P v ttl _ _ []%elem_of_nil.
Qed.

Lemma reachable_step w pr lbl w' : reachable w pr → dstep w lbl w' → reachable w' (promise_step lbl pr).
Proof. intros [rt Hr] Hs. eexists. eapply reach_step; [done..|]. apply d1_fresh. Qed.

Hypothesis Htasks : ∀ t, target_ok (tasks t).

Lemma never_retired lbl rt K : (∀ K, ¬ rt K) → ¬ OwnerWorld.retire_step (OwnerScheme0 := scheme) names lbl rt K.
Proof.
  intros H [?|Hl]; [by eapply H|]. destruct lbl as [[[t c] r]|]; [|done]. destruct c; try done. destruct r; try done.
  destruct Hl as [Hn _]. by apply (tg_task _ (Htasks t)).
Qed.

Lemma reaches_none w pr rt : reaches w pr rt → ∀ K, ¬ rt K.
Proof. induction 1; [by intros ? []|]. intros K0. by apply never_retired. Qed.
End reachability.

(** ** Properties *)

Section properties.
Context {Db : Type} `{!RedisServer Db}.
Context (env : fields) (IntrinsicURL : jstr → option url_parts) (tasks : nat → target).
Context (Htasks : ∀ t, target_ok (tasks t)).
Abbreviation scheme := (d1_scheme env IntrinsicURL).
Abbreviation names := (names tasks).
Abbreviation reachable := (reachable (Db := Db) env IntrinsicURL tasks).
Abbreviation dstep := (wstep (Db := Db) (api env IntrinsicURL tasks) tick).
Abbreviation promise_step := (promise_step env IntrinsicURL tasks).
Abbreviation counter := (counter (Db := Db) env IntrinsicURL).

(** C10. Leases are exclusive. In every interleaving of any number of tasks, with lost
    commands and replies, when the record of a database is replaced by one of another fence,
    the lease last promised to the old fence has ended by the server's clock, or the task
    that replaces it is the holder itself; and a rewrite under the same fence never shortens
    the lease. *)
Theorem lease_exclusive (w w' : world Db local answer) (pr : promises)
    (lbl : option (nat * cmd * reply)) (K : jstr) (f f' : fence) (e e' : Z)
    (Hr : reachable w pr) (Hs : dstep w lbl w') (HK : valid_key K)
    (Hp : pr K = Some (f, e)) (Hp' : promise_step lbl pr K = Some (f', e')) :
  (f' = f → e <= e') ∧
  (f' ≠ f → e <= r_time (w_db w) ∨ f.1 = label_task names lbl).
Proof.
  destruct Hr as [rt Hr].
  exact (lease_step (OwnerScheme0 := scheme) names (api env IntrinsicURL tasks) tick (local_ok env IntrinsicURL)
    answer_ok (api_ok _ _ _ Htasks) (tick_ok _ _ _) w w' pr rt lbl K f f' e e' Hr Hs (d1_fresh _ _ _ _) HK Hp Hp').
Qed.

(** C11. Generations fence: no step ever lowers the generation counter of a database, and a
    record that appears with a new fence has a generation above every counter value and
    every record the database had before, namely the new value of the counter. *)
Theorem generations_fence (w w' : world Db local answer) (pr : promises)
    (lbl : option (nat * cmd * reply)) (K : jstr)
    (Hr : reachable w pr) (Hs : dstep w lbl w') (HK : valid_key K) :
  counter K (w_db w) <= counter K (w_db w') ∧
  (∀ o, r_get (ownerKeyOf K) (w_db w) = Some (owner_bytes o) → owner_wf IntrinsicURL K o →
        generation o <= counter K (w_db w)) ∧
  ∀ o', r_get (ownerKeyOf K) (w_db w') = Some (owner_bytes o') → owner_wf IntrinsicURL K o' →
    (∃ o, r_get (ownerKeyOf K) (w_db w) = Some (owner_bytes o) ∧ owner_fence o = owner_fence o') ∨
    (counter K (w_db w) < generation o' ∧ generation o' = counter K (w_db w')).
Proof.
  destruct Hr as [rt Hr].
  destruct (generation_step (OwnerScheme0 := scheme) names (api env IntrinsicURL tasks) tick (local_ok env IntrinsicURL)
    answer_ok (api_ok _ _ _ Htasks) (tick_ok _ _ _) w w' pr rt lbl K Hr Hs (d1_fresh _ _ _ _) HK) as ([H1|H1] & H2 & H3).
  2:{ by apply never_retired in H1; [|done|eapply reaches_none]. }
  split_and!; [done | exact H2|]. intros o' Ho Hwf. destruct (H3 o' Ho Hwf) as [?|(? & ? & _)]; [by left | by right].
Qed.

(** Every owner record in Redis is one [parseOwner] reads: whatever is stored under the
    owner key of a database parses to a record of that database, so no task ever fails with
    owner-record-invalid, and Redis keeps the record until its lease has ended. *)
Lemma stored_records_readable (w : world Db local answer) (pr : promises) (K : jstr) (b : bytes)
    (Hr : reachable w pr) (HK : valid_key K) (Hb : r_get (ownerKeyOf K) (w_db w) = Some b) :
  ∃ o, parseOwner IntrinsicURL (decodeBulk (Some b)) K = Ok (Some o) ∧ dbKey o = K ∧
       ∃ deadline, r_deadline (ownerKeyOf K) (w_db w) = Some deadline ∧ lease_end o <= deadline.
Proof.
  destruct Hr as [rt Hr]. destruct (stored_readable (OwnerScheme0 := scheme) names (api env IntrinsicURL tasks) tick (local_ok env IntrinsicURL)
    answer_ok (api_ok _ _ _ Htasks) (tick_ok _ _ _) w pr rt K b Hr HK Hb) as (o & -> & Hwf & _ & Hd).
  exists o. cbn [ow_bytes d1_scheme]. rewrite (parse_stored _ _ _ Hwf). split; [done|].
  split; [apply (wf_dbKey _ _ _ Hwf) | done].
Qed.

(** A query is only admitted with its lease budget: when the assertion an actor makes
    before running a query succeeds, the lease it saw had at least the guard time left by
    the server's clock. *)
Lemma assertion_has_budget (w : world Db local answer) (pr : promises) (pid t : nat)
    (pw : option (list (jstr * nat))) (a : assertion)
    (Hr : reachable w pr)
    (Hp : w_procs w !! pid = Some (Proc t pw (Run (PRet (Ok (AnsAssertion a)))))) :
  as_guardMs a <= as_leaseRemainingMs a.
Proof.
  destruct Hr as [rt Hr]. by destruct (answers_ok (OwnerScheme0 := scheme) names (api env IntrinsicURL tasks) tick (local_ok env IntrinsicURL)
    answer_ok (api_ok _ _ _ Htasks) (tick_ok _ _ _) w pr rt pid t pw _ Hr Hp).
Qed.

(** The local view of every task is sound: the databases it believes it owns are recorded
    under its own task id and their own key, and its cache of observed owners never exceeds
    the configured bound. *)
Lemma local_view_sound (w : world Db local answer) (pr : promises) (t : nat) (Hr : reachable w pr) :
  (∀ K o, jm_get K (ownedDbs (w_tasks w t)) = Some o → dbKey o = K ∧ taskId o = t_taskId (tasks t)) ∧
  (jm_size (observedD1Owners (w_tasks w t)) <= Z.to_nat (observedOwnerMaxEntries env))%nat.
Proof.
  destruct Hr as [rt Hr]. apply (world_reachable_ok (OwnerScheme0 := scheme) names _ _ _ answer_ok (api_ok _ _ _ Htasks) (tick_ok _ _ _)) in Hr.
  destruct (wo_tasks _ _ _ _ _ _ Hr t) as [Ho _ _ Hb]. split; [|done].
  intros K o Hg. rewrite Forall_forall in Ho. destruct (Ho _ (jm_get_elem _ _ _ Hg)) as [Hwf Ht].
  split; [apply (wf_dbKey _ _ _ Hwf) | done].
Qed.
End properties.

(** ** A run: task A claims a database, its lease runs out, task B takes it over *)

Section demo.

Definition demo_url (s : jstr) : option url_parts :=
  if jeqb s (js "http://10.0.0.1:8787")
  then Some (UrlParts (js "10.0.0.1:8787") (js "10.0.0.1") (js "8787") [] [] (js "/") [] [])
  else None.

Definition demo_tasks (t : nat) : target :=
  Target (match t with O => js "task-a" | _ => js "task-b" end) (js "10.0.0.1:8787").

Definition demo_id : identity := Identity (js "acme") (js "main") (js "acme:main") 7.
Definition demo_key : jstr := js "acme:main".

Abbreviation demo_world := (world redis_store local answer).
Abbreviation demo_reachable := (reachable (Db := redis_store) [] demo_url demo_tasks).
Abbreviation demo_promise_step := (promise_step [] demo_url demo_tasks).
Abbreviation demo_counter := (counter (Db := redis_store) [] demo_url).

Definition demo_init : demo_world * promises :=
  (World (RedisStore 1000000 ∅) (λ _, 0%nat) (λ _, initial_local 0) ∅, λ _, None).

Inductive action :=
| Start (pid t : nat)
| Assert (pid t : nat) (o : D1Owner)
| Serve (pid : nat)
| Reply (pid : nat)
| Wait (until : Z).

Definition start_prog (pid t : nat) (p : prog local answer) (s : demo_world * promises) : demo_world * promises :=
  match w_procs s.1 !! pid with
  | None => (World (w_db s.1) (w_writes s.1) (w_tasks s.1) (<[pid := Proc t None (Run p)]> (w_procs s.1)), s.2)
  | Some _ => s
  end.

Definition advance (o : option (option (nat * cmd * reply) * demo_world)) (s : demo_world * promises) :=
  match o with Some (lbl, w) => (w, demo_promise_step lbl s.2) | None => s end.

Definition act (s : demo_world * promises) (a : action) : demo_world * promises :=
  match a with
  | Start pid t =>
      start_prog pid t (let* o := resolveDbOwner [] demo_url (demo_tasks t) 4 demo_id false in pret (AnsOwner o)) s
  | Assert pid t o =>
      start_prog pid t
        (let* a := assertCurrentOwnerWithLeaseBudget [] demo_url (demo_tasks t) o in pret (AnsAssertion a)) s
  | Serve pid => advance (exec_serve pid s.1) s
  | Reply pid => advance (exec_reply pid s.1) s
  | Wait t =>
      if rs_now (w_db s.1) <=? t
      then (World (rs_advance t (w_db s.1)) (bump_expired (w_db s.1) (rs_advance t (w_db s.1)) (w_writes s.1))
              (w_tasks s.1) (w_procs s.1), s.2) else s
  end.

Definition run_schedule (l : list action) : demo_world * promises := fold_left act l demo_init.

Definition legal (a : action) : Prop :=
  match a with
  | Assert pid t o => owner_wf demo_url (dbKey o) o ∧ taskId o = t_taskId (demo_tasks t)
  | _ => True
  end.

Lemma demo_id_ok : identity_ok demo_key demo_id.
Proof. split; [done | vm_compute; reflexivity | unfold MAX_SAFE_INTEGER; simpl; lia]. Defined.

Lemma demo_valid : valid_key demo_key.
Proof. exists (js "acme"), (js "main"). vm_compute. reflexivity. Defined.

Lemma demo_tasks_ok t : target_ok (demo_tasks t).
Proof.
  split; destruct t; try done; apply ascii_units; apply (bool_decide_unpack _); vm_compute; exact I.
Defined.

Lemma act_reachable s a : legal a → demo_reachable s.1 s.2 → demo_reachable (act s a).1 (act s a).2.
Proof.
  intros Hl Hr. assert (∀ lbl w', wstep (api [] demo_url demo_tasks) tick s.1 lbl w' →
    demo_reachable w' (demo_promise_step lbl s.2)) as Hstep by (intros; by eapply reachable_step).
  assert (∀ pid t p, api [] demo_url demo_tasks t p →
    demo_reachable (start_prog pid t p s).1 (start_prog pid t p s).2) as Hstart.
  { intros pid t p Ha. unfold start_prog. destruct (w_procs s.1 !! pid) eqn:E; [done|].
    apply (Hstep None). by apply step_start. }
  destruct a as [pid t|pid t o|pid|pid|t]; cbn [act].
  - apply Hstart. eapply api_resolve. apply demo_id_ok.
  - apply Hstart. destruct Hl. by eapply api_assert.
  - unfold advance. destruct (exec_serve pid s.1) as [[lbl w']|] eqn:E; [|done].
    apply Hstep. by eapply exec_serve_sound.
  - unfold advance. destruct (exec_reply pid s.1) as [[lbl w']|] eqn:E; [|done].
    apply Hstep. by eapply exec_reply_sound.
  - destruct (Z.leb_spec (rs_now (w_db s.1)) t); [|done]. apply (Hstep None), step_wait. simpl. eauto.
Qed.

Lemma run_reachable l : Forall legal l → demo_reachable (run_schedule l).1 (run_schedule l).2.
Proof.
  intros Hl. unfold run_schedule.
  assert (demo_reachable demo_init.1 demo_init.2) as H0.
  { apply reachable_initial. split; try done. intros t. apply initial_local_ok. }
  revert H0. generalize demo_init as s. induction Hl as [|a l Ha _ IH]; intros s H0; [done|].
  cbn [fold_left]. apply IH. by apply act_reachable.
Qed.

Definition rounds (pid n : nat) : list action := concat (repeat [Serve pid; Reply pid] n).

(** Task A resolves the database: six replies later its claim is pending. *)
Definition claimed : list action :=
  Start 0 0 :: Reply 0 :: rounds 0 6 ++ [Wait 1000005; Serve 0; Reply 0].

(** The lease ends at 1120000; task B reads the record at 1120002 and its takeover is pending. *)
Definition expired_run : list action :=
  claimed ++ Wait 1120002 :: Start 1 1 :: Reply 1 :: rounds 1 6.

Definition demo_owner : D1Owner :=
  MkOwner (js "acme") (js "main") demo_key 7 (js "task-a") (js "10.0.0.1:8787") 1 (JNum (NInt 1120000)).

(** Task A asserts its ownership just after the claim. *)
Definition asserted : list action := claimed ++ Assert 2 0 demo_owner :: Reply 2 :: rounds 2 2.

Example demo_promises :
  (run_schedule expired_run).2 demo_key = Some ((js "task-a", 1), 1120000) ∧
  match exec_serve 1 (run_schedule expired_run).1 with
  | Some (lbl, _) => demo_promise_step lbl (run_schedule expired_run).2 demo_key
  | None => None
  end = Some ((js "task-b", 2), 1240002).
Proof. vm_compute. done. Qed.

Lemma demo_step_label : ∃ ws w', exec_serve 1 (run_schedule expired_run).1 = Some (Some (1%nat, CExec ws, ROk), w').
Proof.
  assert (match exec_serve 1 (run_schedule expired_run).1 with Some (Some (1%nat, CExec _, ROk), _) => true | _ => false end = true) as H
    by (vm_compute; reflexivity).
  revert H. generalize (exec_serve 1 (run_schedule expired_run).1). intros [[[[[t c] r]|] w']|] H; try discriminate H.
  destruct t as [|[|t]]; try discriminate H. destruct c; try discriminate H. destruct r; try discriminate H.
  by eexists _, _.
Defined.

Lemma expired_run_legal : Forall legal expired_run.
Proof. apply (Forall_forall legal). intros a Ha. repeat (apply elem_of_cons in Ha as [->|Ha]; [exact I|]). by apply elem_of_nil in Ha. Defined.

Lemma demo_owner_wf : owner_wf demo_url demo_key demo_owner.
Proof.
  split.
  - reflexivity.
  - vm_compute. reflexivity.
  - unfold MAX_SAFE_INTEGER. cbn. lia.
  - discriminate.
  - apply ascii_units, (bool_decide_unpack _). vm_compute. exact I.
  - apply ascii_units, (bool_decide_unpack _). vm_compute. exact I.
  - vm_compute. reflexivity.
  - unfold MAX_SAFE_INTEGER. cbn. lia.
  - exists 1120000. split; [reflexivity|]. unfold MAX_SAFE_INTEGER. lia.
Defined.

Lemma asserted_legal : Forall legal asserted.
Proof.
  apply Forall_app. split.
  - apply (Forall_forall legal). intros a Ha.
    repeat (apply elem_of_cons in Ha as [->|Ha]; [exact I|]). by apply elem_of_nil in Ha.
  - constructor; [split; [apply demo_owner_wf | done]|]. apply (Forall_forall legal). intros a Ha.
    repeat (apply elem_of_cons in Ha as [->|Ha]; [exact I|]). by apply elem_of_nil in Ha.
Defined.

Lemma lease_exclusive_witness :
  1120000 <= r_time (w_db (run_schedule expired_run).1) ∨ js "task-a" = js "task-b".
Proof.
  destruct demo_step_label as (ws & w' & Hs).
  pose proof (proj1 demo_promises) as Hp. pose proof (proj2 demo_promises) as Hp'. rewrite Hs in Hp'.
  pose proof (run_reachable _ expired_run_legal) as Hr. revert Hs Hp Hp' Hr.
  generalize (run_schedule expired_run). intros s Hs Hp Hp' Hr.
  refine (proj2 (lease_exclusive [] demo_url demo_tasks demo_tasks_ok s.1 w' s.2 _ demo_key
    (js "task-a", 1) (js "task-b", 2) 1120000 1240002 Hr (exec_serve_sound _ _ _ _ _ _ Hs) demo_valid Hp Hp') _).
  discriminate.
Defined.

Lemma generations_fence_witness :
  ∃ w' : demo_world, demo_counter demo_key (w_db (run_schedule expired_run).1) <= demo_counter demo_key (w_db w').
Proof.
  destruct demo_step_label as (ws & w' & Hs). exists w'.
  pose proof (run_reachable _ expired_run_legal) as Hr. revert Hs Hr.
  generalize (run_schedule expired_run). intros s Hs Hr.
  exact (proj1 (generations_fence [] demo_url demo_tasks demo_tasks_ok s.1 w' s.2 _ demo_key
    Hr (exec_serve_sound _ _ _ _ _ _ Hs) demo_valid)).
Defined.
End demo.
