(* ===== verification/JsDate.v ===== *)
(** * Dates of the language

    [Date.parse], [Date.prototype.toISOString] and the UTC getters, for the strict form
    [YYYY-MM-DDTHH:MM:SS[.fff]Z] the sources require before they parse. A day of the month
    past its end rolls into the next month and [24:00:00] is the next midnight. *)

From stdpp Require Import base list strings.
From Stdlib Require Import ZArith Lia.
From S2P Require Import Prelude.

#[local] Open Scope Z_scope.

(** ** Calendar *)

Definition is_leap (y : Z) : bool := ((y mod 4 =? 0) && negb (y mod 100 =? 0)) || (y mod 400 =? 0).

(** The number of the first day of a year, 1970-01-01 being day 0. *)
Definition day_from_year (y : Z) : Z :=
  365 * (y - 1970) + (y - 1969) / 4 - (y - 1901) / 100 + (y - 1601) / 400.

Definition days_before_month (leap : bool) (m : Z) : Z :=
  let l := if leap then 1 else 0 in
  if m =? 1 then 0 else if m =? 2 then 31 else if m =? 3 then 59 + l else if m =? 4 then 90 + l
  else if m =? 5 then 120 + l else if m =? 6 then 151 + l else if m =? 7 then 181 + l
  else if m =? 8 then 212 + l else if m =? 9 then 243 + l else if m =? 10 then 273 + l
  else if m =? 11 then 304 + l else 334 + l.

Definition make_day (y m d : Z) : Z := day_from_year y + days_before_month (is_leap y) m + (d - 1).

Definition year_of_day (d : Z) : Z :=
  let y := 1970 + d * 400 / 146097 in
  if d <? day_from_year y then y - 1
  else if day_from_year (y + 1) <=? d then y + 1 else y.

Definition month_of (leap : bool) (doy : Z) : Z :=
  let l := if leap then 1 else 0 in
  if doy <? 31 then 1 else if doy <? 59 + l then 2 else if doy <? 90 + l then 3
  else if doy <? 120 + l then 4 else if doy <? 151 + l then 5 else if doy <? 181 + l then 6
  else if doy <? 212 + l then 7 else if doy <? 243 + l then 8 else if doy <? 273 + l then 9
  else if doy <? 304 + l then 10 else if doy <? 334 + l then 11 else 12.

Record date_parts := DateParts {
  dp_year : Z; dp_month : Z; dp_day : Z; dp_hour : Z; dp_minute : Z; dp_second : Z; dp_ms : Z }.

Definition ms_per_day : Z := 86400000.

Definition make_time (p : date_parts) : Z :=
  make_day (dp_year p) (dp_month p) (dp_day p) * ms_per_day
  + dp_hour p * 3600000 + dp_minute p * 60000 + dp_second p * 1000 + dp_ms p.

(** The UTC getters of [new Date(ms)]. *)
Definition utc_parts (ms : Z) : date_parts :=
  let day := ms / ms_per_day in
  let t := ms mod ms_per_day in
  let y := year_of_day day in
  let doy := day - day_from_year y in
  let m := month_of (is_leap y) doy in
  DateParts y m (doy - days_before_month (is_leap y) m + 1)
    (t / 3600000) (t / 60000 mod 60) (t / 1000 mod 60) (t mod 1000).

(** ** The strict text form *)

Definition digit2 (a b : Z) : option Z :=
  if is_digit a && is_digit b then Some ((a - 48) * 10 + (b - 48)) else None.

(** [(?:\.\d{1,3})?Z$], as milliseconds. *)
Definition iso_tail (s : jstr) : option Z :=
  match s with
  | [z] => if z =? 90 then Some 0 else None
  | [dot; a; z] =>
      if (dot =? 46) && is_digit a && (z =? 90) then Some ((a - 48) * 100) else None
  | [dot; a; b; z] =>
      if (dot =? 46) && is_digit a && is_digit b && (z =? 90)
      then Some ((a - 48) * 100 + (b - 48) * 10) else None
  | [dot; a; b; c; z] =>
      if (dot =? 46) && is_digit a && is_digit b && is_digit c && (z =? 90)
      then Some ((a - 48) * 100 + (b - 48) * 10 + (c - 48)) else None
  | _ => None
  end.

(** The components of a text of the strict form. *)
Definition iso_match (s : jstr) : option date_parts :=
  match s with
  | y1 :: y2 :: y3 :: y4 :: s1 :: m1 :: m2 :: s2 :: d1 :: d2 :: t :: h1 :: h2 :: c1
      :: n1 :: n2 :: c2 :: e1 :: e2 :: tail =>
      if (s1 =? 45) && (s2 =? 45) && (t =? 84) && (c1 =? 58) && (c2 =? 58) then
        yh ← digit2 y1 y2; yl ← digit2 y3 y4; m ← digit2 m1 m2; d ← digit2 d1 d2;
        h ← digit2 h1 h2; n ← digit2 n1 n2; e ← digit2 e1 e2; f ← iso_tail tail;
        Some (DateParts (yh * 100 + yl) m d h n e f)
      else None
  | _ => None
  end.

(** The ranges [Date.parse] accepts. *)
Definition parts_in_range (p : date_parts) : bool :=
  (1 <=? dp_month p) && (dp_month p <=? 12) && (1 <=? dp_day p) && (dp_day p <=? 31)
  && ((dp_hour p <=? 23) && (dp_minute p <=? 59) && (dp_second p <=? 59)
      || ((dp_hour p =? 24) && (dp_minute p =? 0) && (dp_second p =? 0) && (dp_ms p =? 0))).

(** [Date.parse] of a text of the strict form; [None] is [NaN]. *)
Definition iso_parse (s : jstr) : option Z :=
  p ← iso_match s; if parts_in_range p then Some (make_time p) else None.

Definition pad2 (n : Z) : jstr := [48 + n / 10 mod 10; 48 + n mod 10].
Definition pad3 (n : Z) : jstr := (48 + n / 100 mod 10) :: pad2 n.
Definition pad4 (n : Z) : jstr := pad2 (n / 100) ++ pad2 n.

(** A year of four digits, or a sign and six digits. *)
Definition year_text (y : Z) : jstr :=
  if (0 <=? y) && (y <=? 9999) then pad4 y
  else (if y <? 0 then 45 else 43) :: pad2 (Z.abs y / 10000) ++ pad4 (Z.abs y).

Definition to_iso (ms : Z) : jstr :=
  let p := utc_parts ms in
  year_text (dp_year p) ++ 45 :: pad2 (dp_month p) ++ 45 :: pad2 (dp_day p) ++ 84 :: pad2 (dp_hour p)
  ++ 58 :: pad2 (dp_minute p) ++ 58 :: pad2 (dp_second p) ++ 46 :: pad3 (dp_ms p) ++ [90].

(** ** The calendar is consistent *)

Ltac Zify.zify_post_hook ::= Z.div_mod_to_equations.

Lemma day_from_year_next y : day_from_year (y + 1) = day_from_year y + (if is_leap y then 366 else 365).
Proof.
  unfold day_from_year, is_leap.
  destruct (Z.eqb_spec (y mod 4) 0), (Z.eqb_spec (y mod 100) 0), (Z.eqb_spec (y mod 400) 0); simpl; lia.
Qed.

Lemma year_of_day_spec d : day_from_year (year_of_day d) <= d < day_from_year (year_of_day d + 1).
Proof.
  unfold year_of_day. set (y := 1970 + d * 400 / 146097).
  assert (day_from_year (y - 1) <= d < day_from_year (y + 2)) as H.
  { subst y. unfold day_from_year. lia. }
  destruct (Z.ltb_spec d (day_from_year y)).
  - replace (y - 1 + 1) with y by lia. lia.
  - destruct (Z.leb_spec (day_from_year (y + 1)) d); [|lia].
    replace (y + 1 + 1) with (y + 2) by lia. lia.
Qed.

Lemma month_of_spec (leap : bool) doy : 0 <= doy < (if leap then 366 else 365) →
  1 <= month_of leap doy <= 12 ∧ 0 <= doy - days_before_month leap (month_of leap doy) <= 30.
Proof.
  intros H. unfold month_of.
  repeat match goal with
  | |- context [if ?a <? ?b then _ else _] => destruct (Z.ltb_spec a b)
  end; destruct leap;
    match goal with
    | |- context [days_before_month ?l ?m] =>
        let n := eval vm_compute in (days_before_month l m) in change (days_before_month l m) with n
    end; lia.
Qed.

Lemma utc_parts_ranges ms : let p := utc_parts ms in
  1 <= dp_month p <= 12 ∧ 1 <= dp_day p <= 31 ∧ 0 <= dp_hour p <= 23 ∧ 0 <= dp_minute p <= 59
  ∧ 0 <= dp_second p <= 59 ∧ 0 <= dp_ms p <= 999.
Proof.
  intros p. subst p. unfold utc_parts. cbn [dp_month dp_day dp_hour dp_minute dp_second dp_ms].
  set (day := ms / ms_per_day). pose proof (year_of_day_spec day) as Hy. rewrite day_from_year_next in Hy.
  destruct (month_of_spec (is_leap (year_of_day day)) (day - day_from_year (year_of_day day))) as [Hm Hd]; [lia|].
  unfold ms_per_day. repeat split; lia.
Qed.

Lemma make_utc_parts ms : make_time (utc_parts ms) = ms.
Proof.
  unfold make_time, utc_parts, make_day. cbn [dp_year dp_month dp_day dp_hour dp_minute dp_second dp_ms].
  generalize (days_before_month (is_leap (year_of_day (ms / ms_per_day)))
                (month_of (is_leap (year_of_day (ms / ms_per_day)))
                   (ms / ms_per_day - day_from_year (year_of_day (ms / ms_per_day))))).
  generalize (day_from_year (year_of_day (ms / ms_per_day))).
  unfold ms_per_day. intros. lia.
Qed.

Lemma digit2_pad n : digit2 (48 + n / 10 mod 10) (48 + n mod 10) = Some (n mod 100).
Proof. unfold digit2, is_digit. rewrite (proj2 (andb_true_iff _ _)) by lia. f_equal. lia. Qed.

Lemma iso_tail_pad n : 0 <= n <= 999 → iso_tail (46 :: pad3 n ++ [90]) = Some n.
Proof.
  intros H. cbn [pad3 pad2 app iso_tail]. unfold is_digit. change (46 =? 46) with true.
  change (90 =? 90) with true. rewrite !(proj2 (andb_true_iff _ _)) by lia. f_equal. lia.
Qed.

(** Printing and reading back an instant of the years 0 to 9999. *)
Lemma iso_match_print ms : 0 <= dp_year (utc_parts ms) <= 9999 → iso_match (to_iso ms) = Some (utc_parts ms).
Proof.
  intros Hy. pose proof (utc_parts_ranges ms) as (H1 & H2 & H3 & H4 & H5 & H6).
  unfold to_iso, year_text. rewrite (proj2 (andb_true_iff _ _)) by lia.
  set (p := utc_parts ms) in *. unfold pad4, pad2 at 1 2 3 4 5 6 7. cbn [app iso_match].
  rewrite !digit2_pad. change (45 =? 45) with true. change (84 =? 84) with true. change (58 =? 58) with true.
  cbn [andb mbind option_bind]. rewrite iso_tail_pad by done. cbn [mbind option_bind].
  f_equal. destruct p. cbn in *. f_equal; lia.
Qed.

Lemma iso_parse_print ms : 0 <= dp_year (utc_parts ms) <= 9999 → iso_parse (to_iso ms) = Some ms.
Proof.
  intros Hy. unfold iso_parse. rewrite iso_match_print by done. cbn [mbind option_bind].
  pose proof (utc_parts_ranges ms) as (H1 & H2 & H3 & H4 & H5 & H6).
  assert (parts_in_range (utc_parts ms) = true) as ->; [|by rewrite make_utc_parts].
  unfold parts_in_range. rewrite !andb_true_iff, orb_true_iff, !andb_true_iff. repeat split; try lia.
Qed.

Ltac Zify.zify_post_hook ::= idtac.

Lemma iso_match_ranges s p : iso_match s = Some p →
  0 <= dp_year p <= 9999 ∧ 0 <= dp_ms p <= 999.
Proof.
  assert (∀ a b n, digit2 a b = Some n → 0 <= n <= 99) as Hd.
  { intros a b n. unfold digit2, is_digit. intros H. break_hyp H; [|done]. injection H as <-. to_prop. lia. }
  assert (∀ t n, iso_tail t = Some n → 0 <= n <= 999) as Ht.
  { intros t n H. unfold iso_tail in H.
    repeat (break_hyp H; try discriminate); injection H as <-; unfold is_digit in *; to_prop; lia. }
  intros H. unfold iso_match in H. do 19 (destruct s as [|? s]; [done|]).
  break_hyp H; [|done].
  repeat (apply bind_Some in H as (? & ?%Hd & H)). apply bind_Some in H as (? & ?%Ht & H).
  injection H as <-. cbn. lia.
Qed.

Example iso_examples :
  iso_parse (js "2026-12-31T23:59:59Z") = Some 1798761599000
  ∧ to_iso 1798761599000 = js "2026-12-31T23:59:59.000Z"
  ∧ (to_iso <$> iso_parse (js "2099-04-31T24:00:00Z")) = Some (js "2099-05-02T00:00:00.000Z")
  ∧ (to_iso <$> iso_parse (js "2024-02-29T01:02:03.4Z")) = Some (js "2024-02-29T01:02:03.400Z")
  ∧ iso_parse (js "2026-13-01T00:00:00Z") = None ∧ iso_match (js "2026-12-31T23:59:59") = None.
Proof. vm_compute. repeat split. Qed.
