(* ===== verification/Auth.v ===== *)
(** * Roles, tokens and the access decision

    Models src/shared/auth-roles.js and src/auth/lib.js. Errors are [AuthPolicyError] values
    with their status and reason, an access decision is [Allow] or [Deny reason]. Random
    token material and its SHA-256 are outside the model. *)

From stdpp Require Import base list strings gmap.
From Stdlib Require Import ZArith Lia.
From S2P Require Import Prelude NsPattern WorkerContract Utf8 Json JsDate.

#[local] Open Scope Z_scope.
#[local] Open Scope wdl_scope.

(** ** Roles (src/shared/auth-roles.js) *)

Inductive BoundNsKind := TenantBound | PlatformTierBound | NoneBound.

Record Role := MkRole { actions : list jstr; namespaces : list jstr; boundNsKind : BoundNsKind }.

Definition PRINCIPAL_NS_PLACEHOLDER : jstr := js "$bound".

Definition OPS_KINDS : list jstr := [js "ops"; js "ops-observer"].

Definition KNOWN_ACTIONS : list jstr :=
  map js
  ["diagnostic.whoami";
   "worker.deploy"; "worker.promote"; "worker.delete";
   "worker.versions.read"; "worker.versions.delete"; "worker.list";
   "worker.logs.tail";
   "workflow.list"; "workflow.read"; "workflow.write";
   "secret.read"; "secret.write"; "secret.delete";
   "d1.list"; "d1.create"; "d1.delete";
   "d1.migrate.read"; "d1.migrate.write"; "d1.execute";
   "r2.bucket.list"; "r2.object.list"; "r2.object.head"; "r2.object.get"; "r2.object.delete";
   "ai.provider.read"; "ai.provider.write"; "ai.model.list";
   "host.read"; "host.write";
   "auth.token.issue"; "auth.token.revoke"; "auth.token.list";
   "auth.delegated_token.issue";
   "system.reload"].

Definition matchesAction (pattern action : jsval) : bool :=
  match pattern, action with
  | JStr pattern, JStr action =>
      if jeqb pattern (js "*") then true
      else if ends_with (js ".*") pattern then
        let prefix := take (length pattern - 2) pattern in
        if negb (starts_with (prefix ++ js ".") action) then false
        else negb (includes_unit 46 (drop (length prefix + 1) action))
      else jeqb pattern action
  | _, _ => false
  end.

Definition ROLES : list (jstr * Role) :=
  [(js "ops", MkRole [js "*"] [js "*"] NoneBound);
   (js "ops-observer",
     MkRole (map js ["worker.list"; "worker.versions.read"; "workflow.list"; "d1.list";
                     "d1.migrate.read"; "r2.bucket.list"; "r2.object.list"; "ai.provider.read";
                     "ai.model.list"; "host.read"])
       [js "*"] NoneBound);
   (js "platform",
     MkRole (map js ["worker.deploy"; "worker.promote"; "worker.delete"; "worker.versions.read";
                     "worker.versions.delete"; "worker.list"; "worker.logs.tail"; "workflow.list";
                     "workflow.read"; "workflow.write"; "secret.read"; "secret.write"; "secret.delete";
                     "d1.list"; "d1.create"; "d1.delete"; "d1.migrate.read"; "d1.migrate.write";
                     "d1.execute"; "r2.bucket.list"; "r2.object.list"; "r2.object.head";
                     "r2.object.get"; "r2.object.delete"; "ai.provider.read"; "ai.provider.write";
                     "ai.model.list"])
       [PRINCIPAL_NS_PLACEHOLDER] PlatformTierBound);
   (js "platform-observer",
     MkRole (map js ["worker.versions.read"; "worker.list"; "worker.logs.tail"; "workflow.list";
                     "secret.read"; "d1.list"; "d1.migrate.read"; "r2.bucket.list"; "r2.object.list";
                     "ai.provider.read"; "ai.model.list"])
       [PRINCIPAL_NS_PLACEHOLDER] PlatformTierBound);
   (js "ns",
     MkRole (map js ["worker.deploy"; "worker.promote"; "worker.delete"; "worker.versions.read";
                     "worker.versions.delete"; "worker.list"; "worker.logs.tail"; "workflow.list";
                     "workflow.read"; "workflow.write"; "secret.read"; "secret.write"; "secret.delete";
                     "d1.list"; "d1.create"; "d1.delete"; "d1.migrate.read"; "d1.migrate.write";
                     "d1.execute"; "r2.bucket.list"; "r2.object.list"; "r2.object.head";
                     "r2.object.get"; "r2.object.delete"; "ai.provider.read"; "ai.provider.write";
                     "ai.model.list"; "host.read"])
       [PRINCIPAL_NS_PLACEHOLDER] TenantBound);
   (js "token-issuer", MkRole [js "auth.delegated_token.issue"] [js "*"] NoneBound)].

(** The names every object inherits: [ROLES[name]] is then a function or an object without
    a [boundNsKind]. *)
Definition object_prototype_names : list jstr :=
  map js ["constructor"; "__defineGetter__"; "__defineSetter__"; "hasOwnProperty"; "__lookupGetter__";
          "__lookupSetter__"; "isPrototypeOf"; "propertyIsEnumerable"; "toString"; "valueOf";
          "__proto__"; "toLocaleString"].

Inductive role_lookup := OwnRole (r : Role) | Inherited | NoRole.

Fixpoint own_role (kind : jstr) (roles : list (jstr * Role)) : option Role :=
  match roles with
  | [] => None
  | (k, r) :: rest => if jeqb kind k then Some r else own_role kind rest
  end.

(** [ROLES[kind]] *)
Definition roles_get (kind : jstr) : role_lookup :=
  match own_role kind ROLES with
  | Some r => OwnRole r
  | None => if set_has object_prototype_names kind then Inherited else NoRole
  end.

Definition action_categories : list jstr :=
  map js ["diagnostic"; "worker"; "workflow"; "secret"; "d1"; "r2"; "ai"; "host"; "system"].

Definition actionCategory (action : jsval) : jstr :=
  match action with
  | JStr action =>
      if starts_with (js "auth.token.") action then js "auth_token"
      else if starts_with (js "auth.delegated_token.") action then js "auth_delegated_token"
      else
        let dot := index_of 46 action in
        if dot <? 0 then js "unknown"
        else
          let prefix := take (Z.to_nat dot) action in
          if set_has action_categories prefix then prefix else js "unknown"
  | _ => js "unknown"
  end.

(** The members of an object value; an array or a buffer has none of the names read here. *)
Definition object_fields (v : jsval) : option (list (jstr * jsval)) :=
  match v with
  | JObj f => Some f
  | JArr _ | JBytes _ => Some []
  | _ => None
  end.

Definition validatePrincipalShape (principal : jsval) : bool :=
  match object_fields principal with
  | None => false
  | Some record =>
      match obj_get (js "kind") record with
      | JStr kind =>
          match roles_get kind with
          | NoRole | Inherited => false
          | OwnRole role =>
              match boundNsKind role with
              | TenantBound => isValidTenantNs (obj_get (js "ns") record)
              | PlatformTierBound =>
                  match obj_get (js "ns") record with
                  | JStr ns => set_has PLATFORM_TIER_RESERVED_NS ns
                  | _ => false
                  end
              | NoneBound => negb (has_own (js "ns") record)
              end
          end
      | _ => false
      end
  end.

(** ** Policy errors and decisions (src/auth/lib.js) *)

Record AuthPolicyError := PolicyError { pe_status : Z; pe_reason : jstr }.

Definition policy {A} (status : Z) (reason : string) : result AuthPolicyError A :=
  Err (PolicyError status (js reason)).

Inductive AccessDecision := Allow | Deny (reason : jstr).

Definition BOOTSTRAP_TOKEN_ID : jstr := js "bootstrap".

(** ** Timestamps *)

Definition STRICT_ISO_UTC_RE (s : jstr) : bool := bool_decide (is_Some (iso_match s)).

Definition is_lower_hex (c : Z) : bool := is_digit c || ((97 <=? c) && (c <=? 102)).

Definition SHA256_HEX_RE (s : jstr) : bool := (jlen s =? 64) && forallb is_lower_hex s.

Definition ISSUE_TEMPLATE_ID_RE : jstr → bool := head_tail_re is_lower lower_dash 63.

Definition STORED_TIMESTAMP_FIELDS : list jstr :=
  [js "created_at"; js "expires_at"; js "revoked_at"; js "expired_at"].

Definition isCanonicalStoredTimestamp (value : jstr) : bool :=
  if negb (STRICT_ISO_UTC_RE value) then false
  else match iso_parse value with
       | None => false
       | Some ms => jeqb (to_iso ms) value
       end.

Definition validateExpiresAt (value : jsval) (now : Z) : result AuthPolicyError (option jstr) :=
  match value with
  | JUndef | JNull => Ok None
  | JStr value =>
      match iso_match value with
      | None => policy 400 "invalid_expires_at"
      | Some m =>
          match iso_parse value with
          | None => policy 400 "invalid_expires_at"
          | Some ms =>
              let d := utc_parts ms in
              if negb (dp_year d =? dp_year m) || negb (dp_month d =? dp_month m)
                 || negb (dp_day d =? dp_day m) || negb (dp_hour d =? dp_hour m)
                 || negb (dp_minute d =? dp_minute m) || negb (dp_second d =? dp_second m)
              then policy 400 "invalid_expires_at"
              else if ms <=? now then policy 400 "expired_at_in_past"
              else Ok (Some (to_iso ms))
          end
      end
  | _ => policy 400 "invalid_expires_at"
  end.

(** ** Issue templates *)

Record DelegatedIssueTemplate := Template {
  template_id : jstr; targetKind : jstr; ns_prefix : jstr; randomHexBytes : Z;
  labelTemplate : jstr; ttlSeconds : Z; activeQuota : Z; template_version : jstr }.

Definition DELEGATED_ISSUE_TEMPLATES : list DelegatedIssueTemplate :=
  [Template (js "wdl-chat-ns-pool") (js "ns") (js "tmp-") 4 (js "workshop-pool {ns}") (6 * 60 * 60) 100 (js "1");
   Template (js "wdl-cli-integration") (js "ns") (js "cli-it-") 4 (js "cli live integration {ns}") (60 * 60) 50 (js "1")].

Definition isIssueTemplateId (id : jsval) : bool := on_string ISSUE_TEMPLATE_ID_RE id.

Definition assertIssueTemplateId (id : jsval) : result AuthPolicyError jstr :=
  match id with
  | JStr s => if ISSUE_TEMPLATE_ID_RE s then Ok s else policy 400 "invalid_template_request"
  | _ => policy 400 "invalid_template_request"
  end.

(** The loop of [validateIssueTemplatesInput]: the ids seen so far, in order. *)
Fixpoint collectTemplateIds (ids : list jstr) (value : list jsval) : result AuthPolicyError (list jstr) :=
  match value with
  | [] => Ok ids
  | item :: rest =>
      let! id := assertIssueTemplateId item in
      collectTemplateIds (if set_has ids id then ids else ids ++ [id]) rest
  end.

Definition validateIssueTemplatesInput (value : jsval) : result AuthPolicyError (list jstr) :=
  match value with
  | JArr [] => policy 400 "invalid_template_request"
  | JArr l => if 32 <? Z.of_nat (length l) then policy 400 "invalid_template_request" else collectTemplateIds [] l
  | _ => policy 400 "invalid_template_request"
  end.

Definition parseStoredIssueTemplates (stored : jsval) : result AuthPolicyError (list jstr) :=
  match stored with
  | JStr [] => policy 503 "invalid_issue_templates"
  | JStr text =>
      match json_parse text with
      | None => policy 503 "invalid_issue_templates"
      | Some parsed =>
          match validateIssueTemplatesInput parsed with
          | Ok ids => Ok ids
          | Err _ => policy 503 "invalid_issue_templates"
          end
      end
  | _ => policy 503 "invalid_issue_templates"
  end.

Definition resolveDelegatedIssueTemplate (templateId : jstr) : result AuthPolicyError DelegatedIssueTemplate :=
  match find (λ t, jeqb (template_id t) templateId) DELEGATED_ISSUE_TEMPLATES with
  | Some template => Ok template
  | None => policy 400 "invalid_template"
  end.

(** ** Token records *)

Record TokenRecord := MkTokenRecord {
  hash : jstr; kind : jstr; ns : option jstr; label : option jstr; created_at : option jstr;
  created_by : option jstr; expires_at : option jstr; revoked_at : option jstr;
  expired_at : option jstr; issue_templates : option jstr; issue_template : option jstr;
  issue_template_version : option jstr }.

Definition opt_val (o : option jstr) : jsval := match o with Some s => JStr s | None => JUndef end.

(** The record as the object the code passes on; an absent member reads [undefined]. *)
Definition record_obj (r : TokenRecord) : jsval :=
  JObj [(js "hash", JStr (hash r)); (js "kind", JStr (kind r)); (js "ns", opt_val (ns r));
        (js "label", opt_val (label r)); (js "created_at", opt_val (created_at r));
        (js "created_by", opt_val (created_by r)); (js "expires_at", opt_val (expires_at r));
        (js "revoked_at", opt_val (revoked_at r)); (js "expired_at", opt_val (expired_at r));
        (js "issue_templates", opt_val (issue_templates r));
        (js "issue_template", opt_val (issue_template r));
        (js "issue_template_version", opt_val (issue_template_version r))].

(** [typeof v === "string" && v ? v : undefined] *)
Definition nonempty_string (v : jsval) : option jstr :=
  match v with JStr ((_ :: _) as s) => Some s | _ => None end.

(** [Boolean(v)] *)
Definition truthy (v : jsval) : bool :=
  match v with
  | JUndef | JNull | JBool false | JNum (NInt 0) | JNum NNaN | JStr [] => false
  | _ => true
  end.

Section records.
(** [String(v)] for a value that is not a string; [Date.parse] for a text that is not of the
    strict form, where the result depends on the implementation. *)
Variable StringOf : jsval → jstr.
Variable lenient_parse : jstr → option Z.

Definition Date_parse (s : jstr) : option Z :=
  if STRICT_ISO_UTC_RE s then iso_parse s else lenient_parse s.

Definition parseTokenRecord (value : jsval) : option TokenRecord :=
  match object_fields value with
  | None => None
  | Some record =>
      let kindv := obj_get (js "kind") record in
      if negb (truthy kindv) then None
      else
        let get f := nonempty_string (obj_get (js f) record) in
        Some (MkTokenRecord
          match obj_get (js "hash") record with JStr s => s | _ => [] end
          match kindv with JStr s => s | v => StringOf v end
          (get "ns") (get "label") (get "created_at") (get "created_by") (get "expires_at")
          (get "revoked_at") (get "expired_at") (get "issue_templates") (get "issue_template")
          (get "issue_template_version"))
  end.

Definition isExpired (record : option TokenRecord) (now : Z) : bool :=
  match record with
  | None => false
  | Some r =>
      match expires_at r with
      | None | Some [] => false
      | Some text => match Date_parse text with None => false | Some ms => ms <=? now end
      end
  end.
End records.

Definition isRevoked (record : option TokenRecord) : bool :=
  match record with
  | Some r => match revoked_at r with Some (_ :: _) => true | _ => false end
  | None => false
  end.

(** ** The access decision *)

(** [allowedNs.includes(text)] *)
Definition includes_text (text : jstr) (l : list jsval) : bool :=
  existsb (λ v, match v with JStr s => jeqb s text | _ => false end) l.

Definition evaluateAccess (action ns kind principalNs : jsval) : AccessDecision :=
  let deny reason := Deny (js reason) in
  match kind with
  | JStr kind =>
      match own_role kind ROLES with
      | None => deny "unknown_role"
      | Some role =>
          let ops := jeqb kind (js "ops") in
          let reserved := match ns with
                          | JStr n => isReservedNs ns && negb (set_has PLATFORM_TIER_RESERVED_NS n)
                          | _ => false end in
          if reserved && ops then Allow
          else if reserved && negb (set_has OPS_KINDS kind) then deny "reserved_ns_requires_ops"
          else if match ns with JStr n => set_has RESERVED_TENANT_NS n | _ => false end then
            if ops then Allow else deny "reserved_tenant_ns_requires_ops"
          else
            match action with
            | JStr act =>
                if negb (set_has KNOWN_ACTIONS act) then
                  if ops then Allow else deny "unknown_action_requires_ops"
                else if jeqb act (js "diagnostic.whoami") then Allow
                else if starts_with (js "auth.token.") act then
                  if ops then Allow else deny "auth_lifecycle_requires_ops"
                else if starts_with (js "system.") act then
                  if ops then Allow else deny "system_action_requires_ops"
                else
                  let allowedNs := map (λ s, if jeqb s PRINCIPAL_NS_PLACEHOLDER then principalNs else JStr s)
                                     (namespaces role) in
                  let nsOk := includes_text (js "*") allowedNs
                              || match ns with JStr n => includes_text n allowedNs | _ => false end in
                  if negb nsOk then deny "ns_not_in_scope"
                  else if negb (existsb (λ pat, matchesAction (JStr pat) action) (actions role))
                  then deny "action_not_in_scope"
                  else Allow
            | _ => if ops then Allow else deny "unknown_action_requires_ops"
            end
      end
  | _ => deny "unknown_role"
  end.

Definition assertTenantNs (ns : jsval) : result AuthPolicyError unit :=
  if isValidTenantNs ns then Ok tt
  else match ns with
       | JUndef | JNull | JStr [] => policy 400 "missing_ns"
       | JStr n =>
           if isReservedNs ns then policy 400 "reserved_ns"
           else if set_has RESERVED_TENANT_NS n then policy 400 "reserved_tenant_ns"
           else policy 400 "invalid_ns"
       | _ => policy 400 "invalid_ns"
       end.

Definition validateIssueInput (kind ns : jsval) : result AuthPolicyError (jstr * option jstr) :=
  let effectiveKind := match kind with JUndef => JStr (js "ns") | k => k end in
  match effectiveKind with
  | JStr k =>
      if jeqb k (js "ops") then policy 400 "ops_not_issuable"
      else match own_role k ROLES with
           | None => policy 400 "unknown_role"
           | Some role =>
               match boundNsKind role with
               | TenantBound =>
                   let! _ := assertTenantNs ns in
                   Ok (k, match ns with JStr n => Some n | _ => None end)
               | PlatformTierBound =>
                   match ns with
                   | JStr n => if set_has PLATFORM_TIER_RESERVED_NS n then Ok (k, Some n)
                               else policy 400 "invalid_bound_ns"
                   | _ => policy 400 "invalid_bound_ns"
                   end
               | NoneBound =>
                   match ns with JUndef => Ok (k, None) | _ => policy 400 "role_no_ns" end
               end
           end
  | _ => policy 400 "unknown_role"
  end.

(** A timestamp member is absent or canonical. *)
Definition stored_timestamp_ok (v : jsval) : bool :=
  match v with JUndef => true | JStr s => isCanonicalStoredTimestamp s | _ => false end.

(** [None] is the plain error thrown for a role without a [boundNsKind]. *)
Definition validateRecordShape (record : jsval) : option AccessDecision :=
  match object_fields record with
  | None => Some (Deny (js "unknown_role"))
  | Some persisted =>
      let lookup := match obj_get (js "kind") persisted with
                    | JStr k => roles_get k | _ => NoRole end in
      match lookup with
      | NoRole => Some (Deny (js "unknown_role"))
      | _ =>
          if negb (on_string SHA256_HEX_RE (obj_get (js "hash") persisted)) then
            Some (Deny (js "invalid_record_hash"))
          else if negb (forallb (λ field, stored_timestamp_ok (obj_get field persisted)) STORED_TIMESTAMP_FIELDS) then
            Some (Deny (js "invalid_record_timestamp"))
          else
            let ns := obj_get (js "ns") persisted in
            match lookup with
            | OwnRole role =>
                match boundNsKind role with
                | TenantBound => Some (if isValidTenantNs ns then Allow else Deny (js "invalid_record_ns"))
                | PlatformTierBound =>
                    Some match ns with
                         | JStr n => if set_has PLATFORM_TIER_RESERVED_NS n then Allow
                                     else Deny (js "invalid_record_ns")
                         | _ => Deny (js "invalid_record_ns")
                         end
                | NoneBound =>
                    Some match ns with
                         | JUndef =>
                             match obj_get (js "kind") persisted with
                             | JStr k =>
                                 if jeqb k (js "token-issuer") then
                                   match parseStoredIssueTemplates (obj_get (js "issue_templates") persisted) with
                                   | Ok _ => Allow
                                   | Err _ => Deny (js "invalid_issue_templates")
                                   end
                                 else Allow
                             | _ => Allow
                             end
                         | _ => Deny (js "invalid_record_ns")
                         end
                end
            | _ => None
            end
      end
  end.

(** The members [recordToListEntry] adds when they are set. *)
Definition set_member (name : string) (o : option jstr) : list (jstr * jsval) :=
  match o with Some ((_ :: _) as s) => [(js name, JStr s)] | _ => [] end.

Definition recordToListEntry (tokenId : jstr) (record : TokenRecord) : jsval :=
  JObj ([(js "tokenId", JStr tokenId); (js "kind", JStr (kind record));
         (js "createdAt", match created_at record with Some ((_ :: _) as s) => JStr s | _ => JNull end)]
        ++ set_member "ns" (ns record) ++ set_member "label" (label record)
        ++ set_member "createdBy" (created_by record) ++ set_member "expiresAt" (expires_at record)
        ++ set_member "revokedAt" (revoked_at record) ++ set_member "expiredAt" (expired_at record)
        ++ (if jeqb (kind record) (js "token-issuer") then
              match parseStoredIssueTemplates (opt_val (issue_templates record)) with
              | Ok ids => [(js "issueTemplates", JArr (map JStr ids))]
              | Err _ => [(js "issueTemplatesInvalid", JBool true)]
              end
            else [])
        ++ set_member "issueTemplate" (issue_template record)
        ++ set_member "issueTemplateVersion" (issue_template_version record)).

(** ** Lemmas *)

Lemma own_role_elem k r : own_role k ROLES = Some r → (k, r) ∈ ROLES.
Proof.
  generalize ROLES. intros l. induction l as [|[k' r'] l IH]; simpl; [done|].
  destruct (jeqb k k') eqn:E.
  - intros [= ->]. apply jeqb_eq in E as ->. by left.
  - intros H. right. auto.
Qed.

(** A pattern without a wild card matches itself only. *)
Definition literal_pattern (p : jstr) : bool := negb (jeqb p (js "*")) && negb (ends_with (js ".*") p).

Lemma matches_literals l act : forallb literal_pattern l = true →
  existsb (λ pat, matchesAction (JStr pat) (JStr act)) l = set_has l act.
Proof.
  induction l as [|p l IH]; [done|]. cbn [forallb]. intros H. unfold literal_pattern in H. to_prop.
  change (set_has (p :: l) act) with (jeqb act p || set_has l act). cbn [existsb]. rewrite IH by done.
  f_equal. unfold matchesAction. rewrite H, H1. unfold jeqb. apply bool_decide_ext. naive_solver.
Qed.

Lemma ops_cases k : own_role k ROLES = None ∨ k = js "ops" ∨
  ∃ role, own_role k ROLES = Some role ∧ forallb literal_pattern (actions role) = true ∧
    forallb (λ a, set_has KNOWN_ACTIONS a && negb (starts_with (js "auth.token.") a)
                  && negb (starts_with (js "system.") a) && negb (jeqb a (js "host.write"))) (actions role) = true ∧
    (namespaces role = [js "*"] ∧ boundNsKind role = NoneBound ∨
     namespaces role = [PRINCIPAL_NS_PLACEHOLDER] ∧ boundNsKind role ≠ NoneBound ∧ k ≠ js "ops-observer").
Proof.
  destruct (own_role k ROLES) as [role|] eqn:E; [|by left]. right.
  pose proof (own_role_elem _ _ E) as H. unfold ROLES in H.
  repeat (apply elem_of_cons in H as [[= -> ->]|H];
    [ first [ left; reflexivity
            | right; eexists; split_and!;
              [reflexivity | vm_compute; reflexivity | vm_compute; reflexivity
              | first [left; split; reflexivity | right; split_and!; [reflexivity | done | by vm_compute]]]] |]).
  by apply not_elem_of_nil in H.
Qed.

(** What the red lines ask of the namespace of a caller that is not [ops]. *)
Definition ns_open (kind : jstr) (ns : jsval) : Prop :=
  match ns with
  | JStr n => n ∉ RESERVED_TENANT_NS ∧
              (n ∈ RESERVED_NS → n ∈ PLATFORM_TIER_RESERVED_NS ∨ kind = js "ops-observer")
  | _ => True
  end.

(** The namespaces a role covers. *)
Definition ns_in_scope (role : Role) (ns principalNs : jsval) : Prop :=
  namespaces role = [js "*"] ∨ principalNs = JStr (js "*") ∨ (ns = principalNs ∧ ∃ n, ns = JStr n).

Lemma includes_text_cons t v l :
  includes_text t (v :: l) = match v with JStr s => jeqb s t | _ => false end || includes_text t l.
Proof. done. Qed.

Lemma evaluate_non_ops kind role action ns principalNs :
  own_role kind ROLES = Some role → kind ≠ js "ops" →
  evaluateAccess action ns (JStr kind) principalNs = Allow ↔
  ∃ act, action = JStr act ∧ act ∈ KNOWN_ACTIONS ∧ ns_open kind ns ∧
    (act = js "diagnostic.whoami" ∨ (act ∈ actions role ∧ ns_in_scope role ns principalNs)).
Proof.
  intros E Hk. destruct (ops_cases kind) as [?|[?|(role' & E' & Hlit & Hacts & Hns)]]; [congruence|congruence|].
  rewrite E in E'. injection E' as <-. unfold evaluateAccess. rewrite E.
  rewrite (proj2 (jeqb_neq kind (js "ops")) Hk). cbn zeta. rewrite andb_false_r.
  set (reserved := match ns with JStr _ => _ | _ => false end).
  set (tenant := match ns with JStr n => set_has RESERVED_TENANT_NS n | _ => false end).
  assert (ns_open kind ns ↔ reserved && negb (set_has OPS_KINDS kind) = false ∧ tenant = false) as Hopen.
  { subst reserved tenant. destruct ns; simpl; try tauto. unfold isReservedNs.
    rewrite <- !set_has_spec. destruct (set_has RESERVED_TENANT_NS s); [split; [tauto|naive_solver]|].
    assert (set_has OPS_KINDS kind = true ↔ kind = js "ops-observer") as Ho.
    { unfold OPS_KINDS. rewrite set_has_spec, !elem_of_cons, elem_of_nil. tauto. }
    clear -Ho. destruct (set_has RESERVED_NS s), (set_has PLATFORM_TIER_RESERVED_NS s), (set_has OPS_KINDS kind);
      simpl; naive_solver. }
  destruct (reserved && negb (set_has OPS_KINDS kind)) eqn:Er; [naive_solver|].
  destruct tenant eqn:Et; [naive_solver|]. assert (ns_open kind ns) as Hop by tauto. clear Hopen.
  destruct action as [| | | |act| | |]; try (split; [discriminate|by intros (? & [=] & _)]).
  assert ((∃ act0, JStr act = JStr act0 ∧ act0 ∈ KNOWN_ACTIONS ∧ ns_open kind ns ∧
     (act0 = js "diagnostic.whoami" ∨ act0 ∈ actions role ∧ ns_in_scope role ns principalNs)) ↔
     set_has KNOWN_ACTIONS act = true ∧ (act = js "diagnostic.whoami" ∨ act ∈ actions role ∧ ns_in_scope role ns principalNs)) as ->
     by (rewrite set_has_spec; split; [by intros (? & [= <-] & ? & _ & ?) | by intros [? ?]; exists act]).
  destruct (set_has KNOWN_ACTIONS act) eqn:Eknown; cbn [negb]; [|naive_solver].
  destruct (jeqb act (js "diagnostic.whoami")) eqn:Ew.
  { apply jeqb_eq in Ew. naive_solver. }
  apply jeqb_neq in Ew.
  assert (act ∈ actions role → starts_with (js "auth.token.") act = false ∧ starts_with (js "system.") act = false) as Hno.
  { intros Hin. apply forallb_Forall in Hacts. rewrite Forall_forall in Hacts. apply Hacts in Hin. by to_prop. }
  destruct (starts_with (js "auth.token.") act); [naive_solver|].
  destruct (starts_with (js "system.") act); [naive_solver|].
  set (nsOk := _ || _). assert (nsOk = true ↔ ns_in_scope role ns principalNs) as Hsc.
  { subst nsOk. unfold ns_in_scope. destruct Hns as [[Hn _]|[Hn _]]; rewrite Hn.
    - change (jeqb (js "*") PRINCIPAL_NS_PLACEHOLDER) with false. cbn [map].
      change (jeqb (js "*") PRINCIPAL_NS_PLACEHOLDER) with false.
      rewrite includes_text_cons, jeqb_refl. simpl. tauto.
    - cbn [map]. rewrite jeqb_refl, !includes_text_cons, orb_true_iff, orb_false_r.
      assert ([PRINCIPAL_NS_PLACEHOLDER] ≠ [js "*"]) as Hne by (vm_compute; discriminate).
      clear -Hne. destruct principalNs, ns; rewrite ?includes_text_cons, ?orb_false_r, ?jeqb_eq; naive_solver. }
  rewrite (matches_literals _ act Hlit), <- (set_has_spec (actions role)).
  clear -Hsc Ew. destruct nsOk, (set_has (actions role) act); cbn [negb]; naive_solver.
Qed.

Lemma ops_unrestricted action ns principalNs : evaluateAccess action ns (JStr (js "ops")) principalNs = Allow.
Proof.
  unfold evaluateAccess. change (own_role (js "ops") ROLES) with (Some (MkRole [js "*"] [js "*"] NoneBound)).
  rewrite jeqb_refl. cbn zeta. destruct (_ && true); [done|].
  change (set_has OPS_KINDS (js "ops")) with true. rewrite andb_false_r.
  destruct (match ns with JStr n => set_has RESERVED_TENANT_NS n | _ => false end); [done|].
  destruct action as [| | | |act| | |]; try done.
  destruct (negb (set_has KNOWN_ACTIONS act)); [done|]. destruct (jeqb act _); [done|].
  destruct (starts_with (js "auth.token.") act); [done|]. destruct (starts_with (js "system.") act); [done|].
  cbn [map namespaces actions existsb]. change (jeqb (js "*") PRINCIPAL_NS_PLACEHOLDER) with false.
  rewrite includes_text_cons, jeqb_refl. unfold matchesAction. by rewrite jeqb_refl.
Qed.

(** The namespace of a record that passes the shape check, by the binding of its role. *)
Lemma record_shape_ns r role : validateRecordShape (record_obj r) = Some Allow →
  own_role (kind r) ROLES = Some role →
  match boundNsKind role with
  | TenantBound => isValidTenantNs (opt_val (ns r)) = true
  | PlatformTierBound => ∃ n, ns r = Some n ∧ n ∈ PLATFORM_TIER_RESERVED_NS
  | NoneBound => ns r = None
  end.
Proof.
  intros H E. unfold validateRecordShape in H. cbn [object_fields record_obj] in H.
  change (obj_get (js "kind") _) with (JStr (kind r)) in H. cbn iota in H.
  unfold roles_get in H. rewrite E in H. cbn iota in H.
  do 2 (match type of H with (if ?b then _ else _) = _ => destruct b; [discriminate|] end).
  change (obj_get (js "ns") _) with (opt_val (ns r)) in H.
  destruct (boundNsKind role).
  - by destruct (isValidTenantNs _).
  - destruct (ns r) as [n|]; simpl in *; [|discriminate].
    destruct (set_has _ n) eqn:En; [|discriminate]. apply set_has_spec in En. eauto.
  - destruct (ns r); [discriminate|done].
Qed.

(** The namespaces a bound role may hold pass the red lines and are not the wild card. *)
Lemma bound_ns_open k n :
  isValidTenantNs (JStr n) = true ∨ n ∈ PLATFORM_TIER_RESERVED_NS → ns_open k (JStr n) ∧ n ≠ js "*".
Proof.
  intros [H|H].
  - unfold isValidTenantNs, isReservedNs in H. to_prop. split.
    + split; rewrite <- set_has_spec; congruence.
    + intros ->. vm_compute in H0. done.
  - apply list_elem_of_singleton in H as ->. split; [split|]; [by vm_compute; set_solver| |by vm_compute].
    intros _. left. by apply list_elem_of_singleton.
Qed.

(** ** Properties *)

(** The roles bound to a namespace. *)
Lemma bound_roles k role : own_role k ROLES = Some role →
  boundNsKind role = TenantBound ∧ k = js "ns" ∨
  boundNsKind role = PlatformTierBound ∧ k ∈ [js "platform"; js "platform-observer"] ∨ boundNsKind role = NoneBound.
Proof.
  intros H%own_role_elem. unfold ROLES in H.
  repeat (apply elem_of_cons in H as [[= -> ->]|H];
    [first [right; right; reflexivity | left; split; reflexivity | right; left; split; [reflexivity|rewrite <- set_has_spec; by vm_compute]]|]).
  by apply not_elem_of_nil in H.
Qed.

(** C28. A token of a role that is bound to a namespace, once its stored record passes the
    shape check, holds a namespace of the kind its role is bound to: a valid tenant namespace
    for the role [ns], a namespace of the platform tier for [platform] and [platform-observer].
    It reaches nothing else: an access is allowed exactly when it asks for one of the actions
    listed for the role on the token's own namespace, or asks who the caller is and names no
    namespace that is closed to the token, that is no reserved tenant name and no reserved
    namespace outside the platform tier. *)
Theorem bound_token_scope r role :
  validateRecordShape (record_obj r) = Some Allow →
  own_role (kind r) ROLES = Some role → boundNsKind role ≠ NoneBound →
  ∃ n, ns r = Some n ∧
  (kind r = js "ns" ∧ isValidTenantNs (JStr n) = true ∨
   kind r ∈ [js "platform"; js "platform-observer"] ∧ n ∈ PLATFORM_TIER_RESERVED_NS) ∧
  ∀ action target, evaluateAccess action target (JStr (kind r)) (opt_val (ns r)) = Allow ↔
    ∃ act, action = JStr act ∧
      (act ∈ actions role ∧ target = JStr n ∨
       act = js "diagnostic.whoami" ∧
       ∀ m, target = JStr m → m ∉ RESERVED_TENANT_NS ∧ (m ∈ RESERVED_NS → m ∈ PLATFORM_TIER_RESERVED_NS)).
Proof.
  intros Hs E Hb. pose proof (record_shape_ns _ _ Hs E) as Hn.
  assert (∃ n, ns r = Some n ∧ (kind r = js "ns" ∧ isValidTenantNs (JStr n) = true ∨
    kind r ∈ [js "platform"; js "platform-observer"] ∧ n ∈ PLATFORM_TIER_RESERVED_NS)) as (n & En & Hkind).
  { destruct (bound_roles _ _ E) as [[Eb Ek]|[[Eb Ek]|Eb]]; rewrite Eb in Hn; [|naive_solver|done].
    destruct (ns r) as [n|]; [|done]. exists n. auto. }
  assert (isValidTenantNs (JStr n) = true ∨ n ∈ PLATFORM_TIER_RESERVED_NS) as Hv by tauto.
  exists n. split; [done|]. split; [done|]. intros action target. rewrite En. cbn [opt_val].
  destruct (bound_ns_open (kind r) n Hv) as [Hop Hstar].
  destruct (ops_cases (kind r)) as [?|[Hk|(role' & E' & _ & Hacts & Hns)]]; [congruence| |].
  { rewrite Hk in E. vm_compute in E. injection E as <-. done. }
  rewrite E in E'. injection E' as <-.
  assert (namespaces role ≠ [js "*"] ∧ kind r ≠ js "ops") as [Hns' Hko].
  { split; [destruct Hns as [[_ ?]|[-> _]]; [done|by vm_compute]|]. intros Hk. rewrite Hk in E. vm_compute in E.
    injection E as <-. done. }
  assert (kind r ≠ js "ops-observer") as Hob by (intros Hk; rewrite Hk in E; vm_compute in E; injection E as <-; done).
  assert (ns_open (kind r) target ↔ ∀ m, target = JStr m → m ∉ RESERVED_TENANT_NS ∧ (m ∈ RESERVED_NS → m ∈ PLATFORM_TIER_RESERVED_NS)) as Hopen.
  { unfold ns_open. destruct target; naive_solver. }
  rewrite (evaluate_non_ops _ _ _ _ _ E Hko). unfold ns_in_scope.
  apply forallb_Forall in Hacts. rewrite Forall_forall in Hacts. split.
  - intros (act & -> & _ & Ho & [->|[Hin [?|[[= ?]|[-> _]]]]]); [|done|congruence|eauto]. exists (js "diagnostic.whoami"). tauto.
  - intros (act & -> & [[Hin ->]|[-> Ho]]).
    + exists act. apply Hacts in Hin as Ha. to_prop. split_and!; [done|by apply set_has_spec|done|].
      right. split; [done|]. right. right. eauto.
    + exists (js "diagnostic.whoami"). split_and!; [done|by left|tauto|by left].
Qed.

Definition demo_hash : jstr := repeat 97 64.

Definition demo_record : TokenRecord :=
  MkTokenRecord demo_hash (js "ns") (Some (js "acme")) None (Some (js "2026-01-01T00:00:00.000Z"))
    (Some (js "bootstrap")) None None None None None None.

Lemma bound_token_scope_witness :
  evaluateAccess (JStr (js "secret.read")) (JStr (js "acme")) (JStr (js "ns")) (JStr (js "acme")) = Allow ∧
  evaluateAccess (JStr (js "secret.read")) (JStr (js "other")) (JStr (js "ns")) (JStr (js "acme")) ≠ Allow.
Proof.
  destruct (bound_token_scope demo_record
              (match own_role (js "ns") ROLES with Some r => r | None => MkRole [] [] NoneBound end))
    as (n & En & _ & H); [vm_compute; reflexivity | vm_compute; reflexivity | vm_compute; discriminate |].
  injection En as <-. split.
  - apply (H (JStr (js "secret.read")) (JStr (js "acme"))). exists (js "secret.read"). split; [reflexivity|].
    left. split; [|reflexivity]. apply set_has_spec. vm_compute. reflexivity.
  - intros Ha. apply (H (JStr (js "secret.read")) (JStr (js "other"))) in Ha.
    destruct Ha as (act & Ea & [[_ Et]|[-> _]]); [clear -Et; revert Et|clear -Ea; revert Ea]; vm_compute; discriminate.
Defined.

(** C29. The operator role is never refused, and whoever else is let through asks for a known
    action of its own role (or who it is), never for the token lifecycle, the platform's
    [system.] actions or [host.write], never on a reserved tenant name, and on a reserved
    namespace only when it is the platform tier's or the caller is the read-only observer. *)
Theorem privileged_actions_need_ops kind action target principalNs :
  (∀ action target principalNs, evaluateAccess action target (JStr (js "ops")) principalNs = Allow) ∧
  (kind ≠ js "ops" → evaluateAccess action target (JStr kind) principalNs = Allow →
   ∃ act role, action = JStr act ∧ own_role kind ROLES = Some role ∧ act ∈ KNOWN_ACTIONS ∧
     (act = js "diagnostic.whoami" ∨ act ∈ actions role) ∧
     starts_with (js "auth.token.") act = false ∧ starts_with (js "system.") act = false ∧
     act ≠ js "host.write" ∧ ns_open kind target).
Proof.
  split; [apply ops_unrestricted|]. intros Hk H.
  destruct (ops_cases kind) as [E|[?|(role & E & _ & Hacts & _)]]; [|done|].
  { unfold evaluateAccess in H. rewrite E in H. discriminate. }
  destruct (proj1 (evaluate_non_ops _ _ _ _ _ E Hk) H) as (act & -> & Hin & Ho & Hact).
  exists act, role. split; [done|]. split; [done|]. split; [done|].
  split; [tauto|]. rewrite forallb_Forall, Forall_forall in Hacts.
  destruct Hact as [->|[Ha _]]; [split_and!; done|]. apply Hacts in Ha. to_prop. split_and!; try done.
  by apply jeqb_neq.
Qed.

Lemma privileged_actions_need_ops_witness :
  ∃ act role, JStr (js "worker.list") = JStr act ∧ own_role (js "ops-observer") ROLES = Some role ∧
    act ∈ KNOWN_ACTIONS ∧ (act = js "diagnostic.whoami" ∨ act ∈ actions role) ∧
    starts_with (js "auth.token.") act = false ∧ starts_with (js "system.") act = false ∧
    act ≠ js "host.write" ∧ ns_open (js "ops-observer") (JStr (js "__system__")).
Proof.
  apply (privileged_actions_need_ops (js "ops-observer") (JStr (js "worker.list")) (JStr (js "__system__")) JUndef);
    [vm_compute; discriminate | vm_compute; reflexivity].
Defined.

(** An accepted expiry is stored in the canonical form that the shape check of stored
    records requires, it denotes the instant the caller wrote, which is in the future, and a
    token with it is expired exactly from that instant on. *)
Lemma accepted_expiry_canonical value now text :
  validateExpiresAt value now = Ok (Some text) →
  isCanonicalStoredTimestamp text = true ∧
  ∃ written ms, value = JStr written ∧ iso_parse written = Some ms ∧ iso_parse text = Some ms ∧ now < ms ∧
    ∀ lenient r t, expires_at r = Some text → isExpired lenient (Some r) t = (ms <=? t).
Proof.
  unfold validateExpiresAt. destruct value as [| | | |written| | |]; try discriminate.
  destruct (iso_match written) as [m|] eqn:Em; [|discriminate].
  destruct (iso_parse written) as [ms|] eqn:Ems; [|discriminate].
  destruct (_ || _) eqn:Eb; [discriminate|]. to_prop. destruct (ms <=? now) eqn:Enow; [discriminate|].
  intros E. apply Ok_inj in E. injection E as <-. to_prop.
  pose proof (iso_match_ranges _ _ Em) as [Hy _].
  assert (0 <= dp_year (utc_parts ms) <= 9999) as Hyear by lia.
  pose proof (iso_match_print ms Hyear) as Hm. pose proof (iso_parse_print ms Hyear) as Hp.
  assert (STRICT_ISO_UTC_RE (to_iso ms) = true) as Hre.
  { unfold STRICT_ISO_UTC_RE. apply bool_decide_eq_true. rewrite Hm. eauto. }
  split.
  { unfold isCanonicalStoredTimestamp. by rewrite Hre, Hp, jeqb_refl. }
  exists written, ms. split_and!; [done..|lia|]. intros lenient r t Er. unfold isExpired. rewrite Er.
  unfold Date_parse. rewrite Hre, Hp.
  by destruct (to_iso ms).
Qed.
