(* ===== verification/RespEncode.v ===== *)
(** * RESP commands

    The encoding half of src/shared/redis-resp.js: command plans, the exact buffer each
    group of plans is written into, the batched writer, and the argument builders of SET and
    HSET. Typed-array stores past the end do nothing, [set] past the end throws. *)

From stdpp Require Import base list strings gmap.
From Stdlib Require Import ZArith Lia.
From S2P Require Import Prelude Utf8 Json.

#[local] Open Scope Z_scope.
#[local] Open Scope wdl_scope.

Abbreviation bytes := (list Z).

Definition RESP_CR : Z := 13.
Definition RESP_LF : Z := 10.
Definition REDIS_WRITE_BATCH_BYTES : Z := 256 * 1024.
Definition SHORT_UTF8_ARG_MAX_CODE_UNITS : Z := 512.

(** A command argument; the numbers the callers pass are integers. *)
Inductive RedisArg :=
| ArgStr (s : jstr)
| ArgInt (n : Z)
| ArgBool (b : bool)
| ArgBytes (b : bytes).

Abbreviation RedisCommand := (list RedisArg).

(** [String(arg)] for an argument that is not a buffer. *)
Definition arg_text (a : RedisArg) : jstr :=
  match a with
  | ArgStr s => s
  | ArgInt n => string_of_Z n
  | ArgBool b => if b then js "true" else js "false"
  | ArgBytes _ => []
  end.

(** [utf8Encoder.encodeInto(s, target)]: the code units read and the bytes written into a
    target of [cap] bytes. *)
Fixpoint encode_into (s : jstr) (cap : Z) : Z * bytes :=
  match s with
  | [] => (0, [])
  | c :: t =>
      let put units cp rest :=
        let e := encode_scalar cp in
        let n := Z.of_nat (length e) in
        if n <=? cap then let '(r, b) := rest (cap - n) in (units + r, e ++ b) else (0, []) in
      if is_high c then
        match t with
        | d :: t' => if is_low d then put 2 (surrogate_pair c d) (encode_into t')
                     else put 1 REPLACEMENT (encode_into t)
        | [] => put 1 REPLACEMENT (encode_into t)
        end
      else if is_low c then put 1 REPLACEMENT (encode_into t)
      else put 1 c (encode_into t)
  end.

Inductive resp_write_error := RangeError | EncodeFailed.

(** [for (i) target[offset + i] = text.charCodeAt(i)], with the next offset. *)
Fixpoint writeAscii (target : bytes) (offset : nat) (text : jstr) : bytes * nat :=
  match text with
  | [] => (target, offset)
  | c :: t => writeAscii (<[offset := c mod 256]> target) (S offset) t
  end.

(** [target.set(b, offset)] *)
Definition typed_set (target : bytes) (offset : nat) (b : bytes) : result resp_write_error bytes :=
  if (offset + length b <=? length target)%nat
  then Ok (take offset target ++ b ++ drop (offset + length b) target)
  else Err RangeError.

Record RedisCommandPlan := Plan { p_args : RedisCommand; p_byteLength : Z; p_longUtf8 : list (option bytes) }.

(** The byte length of one argument and its encoding when it is kept. *)
Definition plan_arg (arg : RedisArg) : Z * option bytes :=
  match arg with
  | ArgBytes b => (Z.of_nat (length b), None)
  | _ =>
      let value := arg_text arg in
      if jlen value <=? SHORT_UTF8_ARG_MAX_CODE_UNITS then (utf8ByteLength value, None)
      else let b := utf8_encode value in (Z.of_nat (length b), Some b)
  end.

Definition planCommand (args : RedisCommand) : RedisCommandPlan :=
  let total0 := 1 + jlen (string_of_Z (Z.of_nat (length args))) + 2 in
  let total := fold_left (λ total arg,
                 let n := (plan_arg arg).1 in total + (1 + jlen (string_of_Z n) + 2 + n + 2)) args total0 in
  Plan args total (map (λ arg, (plan_arg arg).2) args).

(** One argument of [encodeCommandPlans]. *)
Definition encodeArg (out : bytes) (off : nat) (arg : RedisArg) (long : option bytes)
    : result resp_write_error (bytes * nat) :=
  let value := arg_text arg in
  let kept := match arg with ArgBytes b => Some b | _ => long end in
  let byteLength := match kept with Some b => Z.of_nat (length b) | None => utf8ByteLength value end in
  let '(out, off) := writeAscii out off (js "$") in
  let '(out, off) := writeAscii out off (string_of_Z byteLength) in
  let '(out, off) := writeAscii out off [RESP_CR; RESP_LF] in
  let! out :=
    match kept with
    | Some b => typed_set out off b
    | None =>
        let cap := Z.min byteLength (Z.max 0 (Z.of_nat (length out) - Z.of_nat off)) in
        let '(read, written) := encode_into value cap in
        if negb (read =? jlen value) || negb (Z.of_nat (length written) =? byteLength) then Err EncodeFailed
        else typed_set out off written
    end in
  Ok (writeAscii out (off + Z.to_nat byteLength) [RESP_CR; RESP_LF]).

Fixpoint encodeArgs (out : bytes) (off : nat) (args : list (RedisArg * option bytes))
    : result resp_write_error (bytes * nat) :=
  match args with
  | [] => Ok (out, off)
  | (arg, long) :: rest =>
      let! r := encodeArg out off arg long in
      encodeArgs r.1 r.2 rest
  end.

Fixpoint encodePlansFrom (out : bytes) (off : nat) (plans : list RedisCommandPlan)
    : result resp_write_error bytes :=
  match plans with
  | [] => Ok out
  | plan :: rest =>
      let '(out, off) := writeAscii out off (js "*") in
      let '(out, off) := writeAscii out off (string_of_Z (Z.of_nat (length (p_args plan)))) in
      let '(out, off) := writeAscii out off [RESP_CR; RESP_LF] in
      let! r := encodeArgs out off (zip (p_args plan) (p_longUtf8 plan)) in
      encodePlansFrom r.1 r.2 rest
  end.

Definition encodeCommandPlans (plans : list RedisCommandPlan) (total : Z) : result resp_write_error bytes :=
  encodePlansFrom (repeat 0 (Z.to_nat total)) 0 plans.

Definition encodeCommands (commands : list RedisCommand) : result resp_write_error bytes :=
  let plans := map planCommand commands in
  encodeCommandPlans plans (fold_left (λ sum plan, sum + p_byteLength plan) plans 0).

Definition encodeCommand (args : RedisCommand) : result resp_write_error bytes := encodeCommands [args].

(** Writes the plans held back and resets them, or keeps them. *)
Definition flushIf (now : bool) (plans : list RedisCommandPlan) (total : Z)
    : result resp_write_error (list bytes * list RedisCommandPlan * Z) :=
  if now then let! w := encodeCommandPlans plans total in Ok ([w], [], 0) else Ok ([], plans, total).

Definition nonempty {A} (l : list A) : bool := match l with [] => false | _ => true end.

(** The loop of [writeRedisCommands], from the plans held back and their length. *)
Fixpoint writeLoop (commands : list RedisCommand) (plans : list RedisCommandPlan) (total : Z)
    : result resp_write_error (list bytes) :=
  match commands with
  | [] => let! r := flushIf (nonempty plans) plans total in Ok r.1.1
  | command :: rest =>
      let plan := planCommand command in
      let! r := flushIf (nonempty plans && (REDIS_WRITE_BATCH_BYTES <? total + p_byteLength plan)) plans total in
      let '(w1, plans, total) := r in
      let plans := plans ++ [plan] in
      let total := total + p_byteLength plan in
      let! r := flushIf (REDIS_WRITE_BATCH_BYTES <=? total) plans total in
      let '(w2, plans, total) := r in
      let! ws := writeLoop rest plans total in
      Ok (w1 ++ w2 ++ ws)
  end.

Definition writeRedisCommands (commands : list RedisCommand) : result resp_write_error (list bytes) :=
  writeLoop commands [] 0.

(** ** Argument builders *)

Definition positiveIntegerSetOption (value : jsval) : option Z :=
  match safe_integer_of value with
  | Some n => if n <=? 0 then None else Some n
  | None => None
  end.

Record RedisSetOptions := SetOptions {
  o_ttl : jsval; o_exat : jsval; o_nx : bool; o_xx : bool; o_ifeq : option RedisArg }.

(** [None] is the error of a bad [ttl] or [exat]. *)
Definition buildSetArgs (key : jstr) (value : RedisArg) (opts : RedisSetOptions) : option RedisCommand :=
  let present v := match v with JUndef | JNull => false | _ => true end in
  expiry ← (if present (o_ttl opts) then
              n ← positiveIntegerSetOption (o_ttl opts); Some [ArgStr (js "EX"); ArgStr (string_of_Z n)]
            else if present (o_exat opts) then
              n ← positiveIntegerSetOption (o_exat opts); Some [ArgStr (js "EXAT"); ArgStr (string_of_Z n)]
            else Some []);
  Some ([ArgStr (js "SET"); ArgStr key; value] ++ expiry
        ++ (if o_nx opts then [ArgStr (js "NX")] else [])
        ++ (if o_xx opts then [ArgStr (js "XX")] else [])
        ++ match o_ifeq opts with Some e => [ArgStr (js "IFEQ"); e] | None => [] end).

(** [rest]: a field and a value, or an object; [None] is the error. *)
Inductive hset_arg := HArg (a : RedisArg) | HObject (fields : list (jstr * RedisArg)).

Definition buildHSetArgs (key : jstr) (rest : list hset_arg) : option RedisCommand :=
  let head := [ArgStr (js "HSET"); ArgStr key] in
  match rest with
  | [HArg f; HArg v] => Some (head ++ [f; v])
  | [HObject fields] => Some (head ++ flat_map (λ kv, [ArgStr kv.1; kv.2]) fields)
  | _ => None
  end.

(** ** The wire format of a command *)

Definition crlf : bytes := [13; 10].

Definition arg_bytes (a : RedisArg) : bytes :=
  match a with ArgBytes b => b | _ => utf8_encode (arg_text a) end.

Definition resp_bulk (b : bytes) : bytes := js "$" ++ string_of_Z (Z.of_nat (length b)) ++ crlf ++ b ++ crlf.

Definition resp_command (args : RedisCommand) : bytes :=
  js "*" ++ string_of_Z (Z.of_nat (length args)) ++ crlf ++ flat_map (λ a, resp_bulk (arg_bytes a)) args.

Definition arg_ok (a : RedisArg) : Prop :=
  match a with ArgStr s => Forall is_unit s | ArgBytes b => Forall is_byte b | _ => True end.

(** ** Lemmas *)

Lemma writeAscii_fresh text : ∀ d k, Forall is_byte text →
  writeAscii (d ++ repeat 0 (length text + k)) (length d) text =
  (d ++ text ++ repeat 0 k, (length d + length text)%nat).
Proof.
  induction text as [|c t IH]; intros d k H; [by rewrite Nat.add_0_r|].
  apply Forall_cons in H as [Hc Ht]. cbn [writeAscii length app repeat Nat.add].
  rewrite insert_app_r_alt, Nat.sub_diag by done. cbn [insert list_insert].
  unfold is_byte in Hc. rewrite Z.mod_small by lia.
  change (c :: repeat 0 (length t + k)) with ([c] ++ repeat 0 (length t + k)). rewrite app_assoc.
  replace (S (length d)) with (length (d ++ [c])) by (rewrite length_app; simpl; lia).
  rewrite IH by done. f_equal; [by rewrite <- app_assoc | rewrite length_app; simpl; lia].
Qed.

Lemma typed_set_fresh d b k :
  typed_set (d ++ repeat 0 (length b + k)) (length d) b = Ok (d ++ b ++ repeat 0 k).
Proof.
  unfold typed_set. rewrite length_app, repeat_length.
  destruct (Nat.leb_spec (length d + length b) (length d + (length b + k))); [|lia]. f_equal.
  rewrite take_app_length. do 2 f_equal. rewrite drop_app_add, repeat_app, drop_app_length'; [done|].
  by rewrite repeat_length.
Qed.

Lemma encode_into_full s : ∀ cap, Z.of_nat (length (utf8_encode s)) <= cap →
  encode_into s cap = (jlen s, utf8_encode s).
Proof.
  unfold jlen. induction s as [|c t IH1 IH2] using pair_induction; intros cap H; [done|].
  assert (∀ u s', (∀ cap, Z.of_nat (length (utf8_encode s')) <= cap → encode_into s' cap = (Z.of_nat (length s'), utf8_encode s')) →
     ∀ n cp, Z.of_nat (length (encode_scalar cp ++ utf8_encode s')) <= cap →
     n = Z.of_nat (length s') + u →
     (if Z.of_nat (length (encode_scalar cp)) <=? cap
      then let '(r, b) := encode_into s' (cap - Z.of_nat (length (encode_scalar cp))) in (u + r, encode_scalar cp ++ b)
      else (0, [])) = (n, encode_scalar cp ++ utf8_encode s')) as Hput.
  { intros u s' IH n cp Hl ->. rewrite length_app in Hl.
    rewrite (proj2 (Z.leb_le _ _)) by lia. rewrite IH by lia. f_equal. lia. }
  unfold utf8_encode in *. cbn [scalars encode_into] in *.
  destruct (is_high c).
  - destruct t as [|d t']; [|destruct (is_low d)]; cbn [flat_map] in *.
    + apply (Hput 1 []); [by intros|done|simpl; lia].
    + apply (Hput 2 t'); [by apply (IH2 d)|done|simpl; lia].
    + apply (Hput 1 (d :: t')); [apply IH1|done|simpl; lia].
  - destruct (is_low c); cbn [flat_map] in *; apply (Hput 1 t); try apply IH1; try done; simpl; lia.
Qed.

Lemma string_of_Z_bytes n : Forall is_byte (string_of_Z n).
Proof. eapply Forall_impl; [apply string_of_Z_ascii|]. unfold is_byte. lia. Qed.

Lemma arg_text_units a : arg_ok a → Forall is_unit (arg_text a).
Proof.
  destruct a as [s|n|[]|b]; simpl; intros H; [done|..|constructor].
  - eapply Forall_impl; [apply string_of_Z_ascii|]. unfold is_unit. lia.
  - by repeat constructor.
  - by repeat constructor.
Qed.

Lemma utf8_length s : Forall is_unit s → utf8ByteLength s = Z.of_nat (length (utf8_encode s)).
Proof. intros H. unfold utf8ByteLength. destruct (_ <? _); [done|]. by rewrite utf8ByteLengthLoop_spec. Qed.

Lemma plan_arg_length a : arg_ok a → (plan_arg a).1 = Z.of_nat (length (arg_bytes a)).
Proof.
  intros H. destruct a; simpl; try done; case_match; simpl; auto;
    apply utf8_length; by apply (arg_text_units _ H).
Qed.

(** The bytes an argument is written from: the kept ones or the encoding of its text. *)
Lemma plan_arg_kept a : arg_ok a →
  match a with ArgBytes b => Some b | _ => (plan_arg a).2 end = Some (arg_bytes a) ∨
  match a with ArgBytes b => Some b | _ => (plan_arg a).2 end = None ∧ arg_bytes a = utf8_encode (arg_text a)
    ∧ utf8ByteLength (arg_text a) = Z.of_nat (length (arg_bytes a)).
Proof.
  intros H. pose proof (utf8_length _ (arg_text_units _ H)).
  destruct a; simpl in *; auto; case_match; auto.
Qed.

Lemma encodeArg_fresh a d k : arg_ok a →
  encodeArg (d ++ repeat 0 (length (resp_bulk (arg_bytes a)) + k)) (length d) a (plan_arg a).2 =
  Ok (d ++ resp_bulk (arg_bytes a) ++ repeat 0 k, (length d + length (resp_bulk (arg_bytes a)))%nat).
Proof.
  intros Ha. unfold encodeArg. cbn zeta. set (kept := match a with ArgBytes b => Some b | _ => _ end).
  set (b := arg_bytes a). set (n := match kept with Some b => _ | None => _ end).
  assert (n = Z.of_nat (length b)) as ->.
  { subst n kept b. destruct (plan_arg_kept a Ha) as [->|(-> & _ & ->)]; done. }
  set (len := string_of_Z (Z.of_nat (length b))).
  assert (length (resp_bulk b) = 1 + (length len + (2 + (length b + 2))))%nat as Hlen.
  { unfold resp_bulk. fold len. rewrite !length_app. change (length (js "$")) with 1%nat.
    change (length crlf) with 2%nat. lia. }
  rewrite Hlen. rewrite <- !Nat.add_assoc.
  rewrite (writeAscii_fresh (js "$")) by by repeat constructor.
  change (length (js "$")) with 1%nat. rewrite app_assoc.
  replace (length d + 1)%nat with (length (d ++ js "$")) by by rewrite length_app.
  rewrite writeAscii_fresh by apply string_of_Z_bytes. rewrite app_assoc, <- length_app.
  rewrite (writeAscii_fresh [RESP_CR; RESP_LF]) by by repeat constructor. rewrite app_assoc.
  change [RESP_CR; RESP_LF] with crlf. rewrite <- length_app.
  set (d' := ((d ++ js "$") ++ len) ++ crlf).
  assert (match kept with Some b0 => typed_set (d' ++ repeat 0 (length b + (2 + k))) (length d') b0
          | None =>
              let '(read, written) := encode_into (arg_text a)
                (Z.min (Z.of_nat (length b)) (Z.max 0 (Z.of_nat (length (d' ++ repeat 0 (length b + (2 + k)))) - Z.of_nat (length d')))) in
              if negb (read =? jlen (arg_text a)) || negb (Z.of_nat (length written) =? Z.of_nat (length b)) then Err EncodeFailed
              else typed_set (d' ++ repeat 0 (length b + (2 + k))) (length d') written
          end = Ok (d' ++ b ++ repeat 0 (2 + k))) as ->.
  { destruct (plan_arg_kept a Ha) as [E|(E & Eb & _)]; subst kept; rewrite E; [apply typed_set_fresh|].
    fold b in Eb. rewrite Eb. rewrite encode_into_full.
    - rewrite !Z.eqb_refl. cbn [negb orb]. apply typed_set_fresh.
    - rewrite length_app, repeat_length. lia. }
  cbn [rbind]. rewrite app_assoc, Nat2Z.id, <- length_app.
  rewrite (writeAscii_fresh [RESP_CR; RESP_LF]) by by repeat constructor.
  change [RESP_CR; RESP_LF] with crlf. f_equal. unfold resp_bulk. subst d'. f_equal.
  - by rewrite <- !app_assoc.
  - fold len. rewrite !length_app. change (length (js "$")) with 1%nat. change (length crlf) with 2%nat. lia.
Qed.

Lemma encodeArgs_fresh args : ∀ d k, Forall arg_ok args →
  let w := flat_map (λ a, resp_bulk (arg_bytes a)) args in
  encodeArgs (d ++ repeat 0 (length w + k)) (length d) (zip args (map (λ a, (plan_arg a).2) args)) =
  Ok (d ++ w ++ repeat 0 k, (length d + length w)%nat).
Proof.
  induction args as [|a args IH]; intros d k H w; [by rewrite Nat.add_0_r|].
  apply Forall_cons in H as [Ha Hargs]. subst w. cbn [flat_map map zip zip_with encodeArgs].
  rewrite length_app, <- Nat.add_assoc, encodeArg_fresh by done. cbn [rbind fst snd].
  rewrite app_assoc, <- length_app, IH by done. by rewrite !length_app, Nat.add_assoc, <- !app_assoc.
Qed.

Lemma plan_length args : Forall arg_ok args → p_byteLength (planCommand args) = Z.of_nat (length (resp_command args)).
Proof.
  intros H. unfold planCommand, resp_command, jlen. cbn [p_byteLength].
  set (n := string_of_Z _). rewrite !length_app. change (length (js "*")) with 1%nat.
  change (length crlf) with 2%nat.
  replace (Z.of_nat (1 + (length n + (2 + _)))) with
    (1 + Z.of_nat (length n) + 2 + Z.of_nat (length (flat_map (λ a, resp_bulk (arg_bytes a)) args))) by lia.
  generalize (1 + Z.of_nat (length n) + 2). clear n.
  induction H as [|a args Ha Hargs IH]; intros t; cbn [fold_left flat_map]; [simpl; lia|].
  rewrite IH, length_app, plan_arg_length by done. unfold resp_bulk. rewrite !length_app.
  change (length (js "$")) with 1%nat. change (length crlf) with 2%nat. lia.
Qed.

Lemma encodePlans_fresh commands : ∀ d k, Forall (Forall arg_ok) commands →
  encodePlansFrom (d ++ repeat 0 (length (flat_map resp_command commands) + k)) (length d) (map planCommand commands) =
  Ok (d ++ flat_map resp_command commands ++ repeat 0 k).
Proof.
  induction commands as [|args commands IH]; intros d k H; [done|].
  apply Forall_cons in H as [Ha Hc]. cbn [flat_map map encodePlansFrom].
  change (p_args (planCommand args)) with args.
  change (p_longUtf8 (planCommand args)) with (map (λ a, (plan_arg a).2) args).
  set (n := string_of_Z (Z.of_nat (length args))). set (w := flat_map (λ a, resp_bulk (arg_bytes a)) args).
  assert (length (resp_command args ++ flat_map resp_command commands) + k =
    1 + (length n + (2 + (length w + (length (flat_map resp_command commands) + k)))))%nat as ->.
  { unfold resp_command at 1. fold n w. rewrite !length_app. change (length (js "*")) with 1%nat.
    change (length crlf) with 2%nat. lia. }
  rewrite (writeAscii_fresh (js "*")) by by repeat constructor. rewrite app_assoc, <- length_app.
  rewrite writeAscii_fresh by apply string_of_Z_bytes. rewrite app_assoc, <- length_app.
  rewrite (writeAscii_fresh [RESP_CR; RESP_LF]) by by repeat constructor.
  change [RESP_CR; RESP_LF] with crlf. rewrite app_assoc, <- length_app.
  pose proof (encodeArgs_fresh args (((d ++ js "*") ++ n) ++ crlf)
                (length (flat_map resp_command commands) + k) Ha) as E.
  cbn zeta in E. fold w in E. rewrite E. cbn [rbind fst snd]. rewrite app_assoc, <- length_app, IH by done.
  f_equal. unfold resp_command at 2. fold n w. by rewrite <- !app_assoc.
Qed.

Lemma encodeCommandPlans_ok commands : Forall (Forall arg_ok) commands →
  encodeCommandPlans (map planCommand commands) (Z.of_nat (length (flat_map resp_command commands))) =
  Ok (flat_map resp_command commands).
Proof.
  intros H. unfold encodeCommandPlans. rewrite Nat2Z.id.
  pose proof (encodePlans_fresh commands [] 0 H) as E. rewrite Nat.add_0_r, app_nil_r in E. apply E.
Qed.

(** A group of commands written at once: within the batch size, or one command alone. *)
Definition write_group_ok (g : list RedisCommand) : Prop :=
  Z.of_nat (length (flat_map resp_command g)) <= REDIS_WRITE_BATCH_BYTES ∨ ∃ c, g = [c].

(** The wire length of a list of commands. *)
Definition wire_len (cs : list RedisCommand) : Z := Z.of_nat (length (flat_map resp_command cs)).

Lemma wire_len_snoc cs c : wire_len (cs ++ [c]) = wire_len cs + Z.of_nat (length (resp_command c)).
Proof. unfold wire_len. rewrite flat_map_app, length_app. cbn [flat_map]. rewrite app_nil_r. lia. Qed.

Lemma flushIf_ok (now : bool) held : Forall (Forall arg_ok) held →
  let held' := if now then [] else held in
  flushIf now (map planCommand held) (wire_len held) =
  Ok (map (flat_map resp_command) (if now then [held] else []), map planCommand held', wire_len held').
Proof.
  intros H. unfold flushIf, wire_len. destruct now; [|done]. by rewrite encodeCommandPlans_ok.
Qed.

Lemma writeLoop_ok commands : ∀ held, Forall (Forall arg_ok) commands → Forall (Forall arg_ok) held →
  wire_len held < REDIS_WRITE_BATCH_BYTES →
  ∃ groups, concat groups = held ++ commands ∧ Forall (λ g, g ≠ [] ∧ write_group_ok g) groups ∧
    writeLoop commands (map planCommand held) (wire_len held) = Ok (map (flat_map resp_command) groups).
Proof.
  induction commands as [|c commands IH]; intros held Hc Hh Hl; cbn [writeLoop].
  { rewrite flushIf_ok by done. cbn [rbind fst]. destruct held as [|h held]; [by exists []|].
    exists [h :: held]. split_and!; [done| |done]. constructor; [|done]. split; [done|]. left. unfold wire_len in Hl. lia. }
  apply Forall_cons in Hc as [Hc Hcs]. rewrite plan_length by done.
  set (f1 := nonempty _ && _). rewrite flushIf_ok by done. cbn [rbind]. cbn zeta.
  set (held' := if f1 then [] else held). set (g1 := if f1 then [held] else []).
  assert (concat g1 ++ held' = held ∧ Forall (λ g, g ≠ [] ∧ write_group_ok g) g1 ∧ Forall (Forall arg_ok) held' ∧
    (held' = [] ∨ wire_len (held' ++ [c]) <= REDIS_WRITE_BATCH_BYTES)) as (Ecat & Hg1 & Hh' & Hsize).
  { subst g1 held'. destruct f1 eqn:Ef; subst f1.
    - split_and!; [cbn [concat]; by rewrite !app_nil_r | | done | by left]. to_prop.
      constructor; [|done]. split; [by destruct held|]. left. unfold wire_len in Hl. lia.
    - split_and!; [done..|]. rewrite wire_len_snoc. destruct held; [by left|right]. cbn in Ef. to_prop. lia. }
  set (now := held' ++ [c]). rewrite <- wire_len_snoc. fold now.
  replace (map planCommand held' ++ [planCommand c]) with (map planCommand now) by by subst now; rewrite map_app.
  assert (Forall (Forall arg_ok) now) as Hnow by (apply Forall_app; auto).
  set (f2 := _ <=? _). rewrite flushIf_ok by done. cbn [rbind]. cbn zeta.
  set (held2 := if f2 then [] else now). set (g2 := if f2 then [now] else []).
  assert (concat g2 ++ held2 = now ∧ Forall (λ g, g ≠ [] ∧ write_group_ok g) g2 ∧ Forall (Forall arg_ok) held2 ∧
    wire_len held2 < REDIS_WRITE_BATCH_BYTES) as (Ecat2 & Hg2 & Hh2 & Hl2).
  { subst g2 held2. destruct f2 eqn:Ef; subst f2; to_prop; [|split_and!; [done..|lia]].
    split_and!; [cbn [concat]; by rewrite !app_nil_r | | done | unfold wire_len, REDIS_WRITE_BATCH_BYTES; simpl; lia].
    constructor; [|done]. split; [by destruct held'|]. destruct Hsize as [E|Hs]; [right | left; exact Hs].
    exists c. subst now. by rewrite E. }
  destruct (IH held2 Hcs Hh2 Hl2) as (gs & Eg & Hg & ->). cbn [rbind].
  exists (g1 ++ g2 ++ gs). split_and!.
  - rewrite !concat_app, Eg, <- Ecat. subst now. by rewrite (app_assoc (concat g2)), Ecat2, <- !app_assoc.
  - by repeat (apply Forall_app; split).
  - by rewrite !map_app.
Qed.

(** ** Properties *)

(** C36. Encoding commands never fails and fills its buffer exactly: the planned length of
    every command, counted without encoding its short strings, is the length of its wire
    form, and the buffer holds the wire forms one after the other. *)
Theorem encode_commands_exact commands : Forall (Forall arg_ok) commands →
  encodeCommands commands = Ok (flat_map resp_command commands).
Proof.
  intros H. unfold encodeCommands. rewrite <- encodeCommandPlans_ok by done. f_equal.
  assert (∀ t, fold_left (λ sum plan, sum + p_byteLength plan) (map planCommand commands) t =
            t + Z.of_nat (length (flat_map resp_command commands))) as E; [|by rewrite E].
  induction H as [|c cs Hc _ IH]; intros t; cbn [map fold_left flat_map]; [simpl; lia|].
  rewrite IH, length_app, plan_length by done. lia.
Qed.

Lemma encode_commands_exact_witness :
  encodeCommands [[ArgStr (js "GET"); ArgStr [0x20ac]]] = Ok (js "*2" ++ crlf ++ js "$3" ++ crlf ++ js "GET" ++ crlf
    ++ js "$3" ++ crlf ++ [226; 130; 172] ++ crlf).
Proof.
  rewrite (encode_commands_exact [[ArgStr (js "GET"); ArgStr [0x20ac]]]).
  - vm_compute. reflexivity.
  - repeat constructor; vm_compute; done.
Defined.

(** Batched writing keeps command frames whole and in order: every write is the wire
    form of a non-empty group of consecutive commands, the groups make up the input, and a
    write is larger than the batch size only when it is one command. *)
Lemma batched_writes_keep_frames commands : Forall (Forall arg_ok) commands →
  ∃ groups, writeRedisCommands commands = Ok (map (flat_map resp_command) groups) ∧
    concat groups = commands ∧ Forall (λ g, g ≠ [] ∧ write_group_ok g) groups.
Proof.
  intros H. destruct (writeLoop_ok commands [] H) as (groups & E & Hg & Hw); [done|done|].
  exists groups. done.
Qed.
