(* ===== verification/RespReader.v ===== *)
(** * RESP replies

    The reading half of src/shared/redis-resp.js: the buffered reader over a stream of
    chunks and the reply decoders. A method takes the reader's state and returns the new
    state with its result, because a reply error leaves the stream usable. *)

From stdpp Require Import base list strings gmap.
From Stdlib Require Import ZArith Lia.
From S2P Require Import Prelude Utf8 Json JsNumber RespEncode.

#[local] Open Scope Z_scope.
#[local] Open Scope wdl_scope.

Definition ASCII_ZERO : Z := 48.
Definition ASCII_NINE : Z := 57.
Definition ASCII_MINUS : Z := 45.
Definition RESP_RETAINED_BUFFER_LIMIT : Z := 64 * 1024.

(** A reply error, a broken stream or reply, and the model's own fuel. *)
Inductive resp_error :=
| RedisReplyError (message : jstr)
| ConnectionClosed
| InvalidResp
| ReadFuel.

(** ** Integers *)

(** The digits of [parseRespIntegerBytes]. [value > (MAX_SAFE_INTEGER - d) / 10] is a test on
    doubles; the quotient is at least a tenth away from any integer it is not equal to, so
    it is the test on integers here. *)
Fixpoint respDigits (value : Z) (l : bytes) : result resp_error Z :=
  match l with
  | [] => Ok value
  | digit :: rest =>
      if (digit <? ASCII_ZERO) || (ASCII_NINE <? digit) then Err InvalidResp
      else
        let numericDigit := digit - ASCII_ZERO in
        if MAX_SAFE_INTEGER - numericDigit <? value * 10 then Err InvalidResp
        else respDigits (value * 10 + numericDigit) rest
  end.

Definition parseRespIntegerBytes (line : bytes) : result resp_error Z :=
  match line with
  | [] => Err InvalidResp
  | c :: rest =>
      let negative := c =? ASCII_MINUS in
      match (if negative then rest else line) with
      | [] => Err InvalidResp
      | first :: more =>
          if (first <? ASCII_ZERO) || (ASCII_NINE <? first) then Err InvalidResp
          else if (first =? ASCII_ZERO) && (negative || nonempty more) then Err InvalidResp
          else
            let! value := respDigits 0 (first :: more) in
            Ok (if negative then - value else value)
      end
  end.

(** ** The reader *)

(** The chunks still to come, the buffered bytes, the position of the next unread one and the
    capacity of the storage behind the buffer. *)
Record RespReader := Reader { r_chunks : list bytes; r_buf : bytes; r_pos : nat; r_storage : nat }.

Definition newReader (chunks : list bytes) : RespReader := Reader chunks [] 0 0.

Abbreviation reading A := (RespReader → RespReader * result resp_error A).

Definition rd_ret {A} (a : A) : reading A := λ st, (st, Ok a).
Definition rd_fail {A} (e : resp_error) : reading A := λ st, (st, Err e).
Definition rd_bind {A B} (m : reading A) (f : A → reading B) : reading B :=
  λ st, let '(st', r) := m st in match r with Ok a => f a st' | Err e => (st', Err e) end.

Notation "'rd!' x ':=' m 'in' k" := (rd_bind m (λ x, k)) (at level 10, x pattern, k at level 200) : wdl_scope.

(** The bytes dropped from the front of the buffer. *)
Definition _compactConsumed (releaseOversized : bool) (st : RespReader) : RespReader * nat :=
  let '(Reader chunks buf pos storage) := st in
  if (pos =? 0)%nat then (st, 0%nat)
  else
    let oversized := releaseOversized && (RESP_RETAINED_BUFFER_LIMIT <? Z.of_nat storage) in
    if (length buf <=? pos)%nat then (Reader chunks [] 0 (if oversized then 0 else storage)%nat, pos)
    else
      let remaining := drop pos buf in
      (Reader chunks remaining 0 (if oversized then length remaining else storage)%nat, pos).

Definition _ensureCapacity (needed : nat) (st : RespReader) : RespReader :=
  if (needed <=? r_storage st)%nat then st
  else Reader (r_chunks st) (r_buf st) (r_pos st) (Nat.max (Nat.max needed (r_storage st * 2)) 1024).

Definition _readMore : reading nat := λ st,
  match r_chunks st with
  | [] => (st, Err ConnectionClosed)
  | value :: chunks =>
      let '(st, consumed) := _compactConsumed false (Reader chunks (r_buf st) (r_pos st) (r_storage st)) in
      let st := _ensureCapacity (length (r_buf st) + length value) st in
      (Reader (r_chunks st) (r_buf st ++ value) (r_pos st) (r_storage st), Ok consumed)
  end.

(** Where a scan from an index of the buffer ends: at a CRLF, at a CR in the last place, or
    at the end. *)
Inductive scan_end := ScanFound (cr : nat) | ScanTrailing (cr : nat) | ScanEnd.

Fixpoint scanCRLF (l : bytes) (i : nat) : scan_end :=
  match l with
  | [] => ScanEnd
  | c :: rest =>
      if c =? RESP_CR then
        match rest with
        | [] => ScanTrailing i
        | d :: _ => if d =? RESP_LF then ScanFound i else scanCRLF rest (S i)
        end
      else scanCRLF rest (S i)
  end.

(** Every round past the first reads a chunk, so one more than the chunks is enough. *)
Fixpoint findCRLFLoop (fuel : nat) (scanFrom : nat) : reading nat := λ st,
  match fuel with
  | O => (st, Err ReadFuel)
  | S fuel =>
      match scanCRLF (drop scanFrom (r_buf st)) scanFrom with
      | ScanFound cr => (st, Ok cr)
      | ScanTrailing cr => (rd! consumed := _readMore in findCRLFLoop fuel (cr - consumed)) st
      | ScanEnd =>
          let previousLength := length (r_buf st) in
          (rd! consumed := _readMore in findCRLFLoop fuel (previousLength - 1 - consumed)) st
      end
  end.

Definition _findCRLF (from : nat) : reading nat := λ st,
  findCRLFLoop (S (length (r_chunks st))) from st.

Fixpoint ensureLoop (fuel : nat) (target : Z) : reading unit := λ st,
  if target <=? Z.of_nat (length (r_buf st)) then (st, Ok tt)
  else match fuel with
       | O => (st, Err ReadFuel)
       | S fuel => (rd! consumed := _readMore in ensureLoop fuel (Z.max 0 (target - Z.of_nat consumed))) st
       end.

Definition _ensureBufferedLength (targetLength : Z) : reading unit := λ st,
  ensureLoop (S (length (r_chunks st))) targetLength st.

Definition rd_pos : reading nat := λ st, (st, Ok (r_pos st)).
Definition rd_setpos (pos : nat) : reading unit := λ st, (Reader (r_chunks st) (r_buf st) pos (r_storage st), Ok tt).
(** [this.buf.slice(start, end)] *)
Definition rd_slice (start len : nat) : reading bytes := λ st, (st, Ok (take len (drop start (r_buf st)))).

Definition requireCrlfAt (pos : nat) : reading unit := λ st,
  (st, if bool_decide (r_buf st !! pos = Some RESP_CR ∧ r_buf st !! S pos = Some RESP_LF) then Ok tt else Err InvalidResp).

(** What [_parseOne] returns: a reply, or a reply error that is deferred. *)
Inductive resp_item := ItemValue (v : jsval) | ItemError (message : jstr).

Definition raise_or_defer (deferErrors : bool) (message : jstr) : reading resp_item :=
  if deferErrors then rd_ret (ItemError message) else rd_fail (RedisReplyError message).

(** The head of a reply: its type and its line. *)
Definition parse_head : reading (bytes * bytes) :=
  rd! pos := rd_pos in
  rd! _ := _ensureBufferedLength (Z.of_nat pos + 1) in
  rd! pos := rd_pos in
  rd! type := rd_slice pos 1 in
  rd! _ := rd_setpos (S pos) in
  rd! lineEnd := _findCRLF (S pos) in
  rd! lineStart := rd_pos in
  rd! _ := rd_setpos (lineEnd + 2) in
  rd! line := rd_slice lineStart (lineEnd - lineStart) in
  rd_ret (type, line).

(** The rest of [_parseOne], once the head is read; [items] reads the items of an array. *)
Definition parse_body (items : Z → reading (list jsval * option jstr)) (deferErrors : bool) (type line : bytes) : reading resp_item :=
  let lift {A} (r : result resp_error A) : reading A := λ st, (st, r) in
  if bool_decide (type = js "+") then rd_ret (ItemValue (JStr (utf8_decode line)))
  else if bool_decide (type = js "-") then raise_or_defer deferErrors (utf8_decode line)
  else if bool_decide (type = js ":") then
    rd! n := lift (parseRespIntegerBytes line) in rd_ret (ItemValue (JNum (NInt n)))
  else if bool_decide (type = js "$") then
    rd! len := lift (parseRespIntegerBytes line) in
    if len =? -1 then rd_ret (ItemValue JNull)
    else if len <? 0 then rd_fail InvalidResp
    else
      rd! pos := rd_pos in
      rd! _ := _ensureBufferedLength (Z.of_nat pos + len + 2) in
      rd! pos := rd_pos in
      rd! value := rd_slice pos (Z.to_nat len) in
      rd! _ := requireCrlfAt (pos + Z.to_nat len) in
      rd! _ := rd_setpos (pos + (Z.to_nat len + 2)) in
      rd_ret (ItemValue (JBytes value))
  else if bool_decide (type = js "*") then
    rd! count := lift (parseRespIntegerBytes line) in
    if count =? -1 then rd_ret (ItemValue JNull)
    else if count <? 0 then rd_fail InvalidResp
    else
      rd! r := items count in
      match r with
      | (_, Some firstError) => raise_or_defer deferErrors firstError
      | (arr, None) => rd_ret (ItemValue (JArr arr))
      end
  else rd_fail InvalidResp.

Fixpoint _parseOne (fuel : nat) (deferErrors : bool) : reading resp_item :=
  match fuel with
  | O => rd_fail ReadFuel
  | S fuel =>
      rd! head := parse_head in
      parse_body (λ count, parseItems fuel count [] None) deferErrors head.1 head.2
  end
with parseItems (fuel : nat) (count : Z) (arr : list jsval) (firstError : option jstr)
    : reading (list jsval * option jstr) :=
  if count <=? 0 then rd_ret (arr, firstError)
  else match fuel with
  | O => rd_fail ReadFuel
  | S fuel =>
      rd! item := _parseOne fuel true in
      match item with
      | ItemError message =>
          parseItems fuel (count - 1) arr (match firstError with None => Some message | e => e end)
      | ItemValue v => parseItems fuel (count - 1) (arr ++ [v]) firstError
      end
  end.

(** The bytes of the stream not yet consumed. *)
Definition pending (st : RespReader) : bytes := drop (r_pos st) (r_buf st) ++ concat (r_chunks st).

(** Every item of an array takes at least three bytes. *)
Definition parseOne : reading jsval := λ st,
  (rd! r := _parseOne (2 * length (pending st) + 1) false in
   match r with ItemValue v => rd_ret v | ItemError message => rd_fail (RedisReplyError message) end) st.

Definition compact (st : RespReader) : RespReader := (_compactConsumed true st).1.

(** [count] replies off the same stream, as a pipelined call reads them. *)
Fixpoint parseReplies (count : nat) : RespReader → RespReader * list (result resp_error jsval) := λ st,
  match count with
  | O => (st, [])
  | S n => let '(st, r) := parseOne st in let '(st, rs) := parseReplies n (compact st) in (st, r :: rs)
  end.

(** ** Reply decoders *)

(** [None] is the [TypeError]. *)
Definition normalizeRedisDb (value : jsval) (fallback : Z) : option Z :=
  match value with
  | JUndef | JNull | JStr [] => Some fallback
  | _ => match Number_of value with
         | NInt n => if n <? 0 then None else Some n
         | _ => None
         end
  end.

(** On the values a reply decodes to: null, text, bytes or an integer. *)
Definition decodeBulk (v : jsval) : jsval :=
  match v with
  | JBytes b => JStr (utf8_decode b)
  | JNum (NInt n) => JStr (string_of_Z n)
  | _ => v
  end.

Fixpoint timeDigits (value : Z) (text : jstr) : option Z :=
  match text with
  | [] => Some value
  | digit :: rest =>
      if (digit <? ASCII_ZERO) || (ASCII_NINE <? digit) then None
      else
        let numericDigit := digit - ASCII_ZERO in
        if MAX_SAFE_INTEGER - numericDigit <? value * 10 then None
        else timeDigits (value * 10 + numericDigit) rest
  end.

Definition parseRedisTimeInteger (text : jstr) : option Z :=
  match text with
  | [] => None
  | c :: rest => if nonempty rest && (c =? ASCII_ZERO) then None else timeDigits 0 text
  end.

Definition decodeRedisTimePart (value : jsval) : option Z :=
  match decodeBulk value with JStr text => parseRedisTimeInteger text | _ => None end.

Definition decodeRedisTimeMs (reply : jsval) : option Z :=
  match reply with
  | JArr [s; u] =>
      seconds ← decodeRedisTimePart s;
      microseconds ← decodeRedisTimePart u;
      if 999999 <? microseconds then None
      else
        let nowMs := seconds * 1000 + microseconds / 1000 in
        if is_safe_integer nowMs then Some nowMs else None
  | _ => None
  end.

Definition decodeStringArray (arr : list jsval) : list jstr :=
  omap (λ v, match decodeBulk v with JStr s => Some s | _ => None end) arr.

Fixpoint decodePairs (arr : list jsval) (out : list (jstr * jsval)) : list (jstr * jsval) :=
  let put f v := match decodeBulk f with JStr field => obj_put field (decodeBulk v) out | _ => out end in
  match arr with
  | [] => out
  | [f] => put f JUndef
  | f :: v :: rest => decodePairs rest (put f v)
  end.

Definition decodeHashObject (arr : list jsval) : list (jstr * jsval) := decodePairs arr [].

(** ** The wire format of a reply *)

Inductive reply :=
| RSimple (line : bytes)
| RError (line : bytes)
| RInteger (n : Z)
| RBulk (b : option bytes)
| RArray (a : option (list reply)).

Fixpoint resp_reply (v : reply) : bytes :=
  match v with
  | RSimple line => js "+" ++ line ++ crlf
  | RError line => js "-" ++ line ++ crlf
  | RInteger n => js ":" ++ string_of_Z n ++ crlf
  | RBulk None => js "$-1" ++ crlf
  | RBulk (Some b) => js "$" ++ string_of_Z (Z.of_nat (length b)) ++ crlf ++ b ++ crlf
  | RArray None => js "*-1" ++ crlf
  | RArray (Some l) => js "*" ++ string_of_Z (Z.of_nat (length l)) ++ crlf ++ concat (map resp_reply l)
  end.

(** A line holds no line feed; integers and lengths are safe. *)
Fixpoint reply_ok (v : reply) : Prop :=
  match v with
  | RSimple line | RError line => RESP_LF ∉ line
  | RInteger n => is_safe_integer n = true
  | RBulk None | RArray None => True
  | RBulk (Some b) => Z.of_nat (length b) <= MAX_SAFE_INTEGER
  | RArray (Some l) => Z.of_nat (length l) <= MAX_SAFE_INTEGER ∧ Forall id (map reply_ok l)
  end.

(** An item with an error among its own items is its first one. *)
Definition collect_item (acc : list jsval * option jstr) (item : resp_item) : list jsval * option jstr :=
  match item with
  | ItemValue v => (acc.1 ++ [v], acc.2)
  | ItemError m => (acc.1, match acc.2 with None => Some m | e => e end)
  end.

Definition array_item (r : list jsval * option jstr) : resp_item :=
  match r.2 with Some m => ItemError m | None => ItemValue (JArr r.1) end.

Fixpoint item_of (v : reply) : resp_item :=
  match v with
  | RSimple line => ItemValue (JStr (utf8_decode line))
  | RError line => ItemError (utf8_decode line)
  | RInteger n => ItemValue (JNum (NInt n))
  | RBulk None | RArray None => ItemValue JNull
  | RBulk (Some b) => ItemValue (JBytes b)
  | RArray (Some l) => array_item (fold_left collect_item (map item_of l) ([], None))
  end.

(** What a caller of [parseOne] gets for a reply. *)
Definition outcome_of (v : reply) : result resp_error jsval :=
  match item_of v with ItemValue x => Ok x | ItemError m => Err (RedisReplyError m) end.

Example split_reply :
  let wire := resp_reply (RArray (Some [RBulk (Some (js "a")); RError (js "ERR x"); RInteger (-7)])) ++ resp_reply (RSimple (js "OK")) in
  (parseReplies 2 (newReader (map (λ c, [c]) wire))).2 =
  [Err (RedisReplyError (js "ERR x")); Ok (JStr (js "OK"))].
Proof. vm_compute. reflexivity. Qed.

(** ** Lemmas on integers *)

Lemma respDigits_ok l : ∀ value, Forall (λ c, is_digit c = true) l → 0 <= value →
  dec_value value l <= MAX_SAFE_INTEGER → respDigits value l = Ok (dec_value value l).
Proof.
  assert (∀ l v, Forall (λ c, is_digit c = true) l → 0 <= v → v <= dec_value v l) as Hmono.
  { clear l. induction l as [|c l IH]; intros v H Hv; cbn [dec_value]; [lia|].
    apply Forall_cons in H as [Hc Hl]. unfold is_digit in Hc. to_prop.
    specialize (IH (v * 10 + (c - 48)) Hl). lia. }
  induction l as [|c l IH]; intros value H Hv Hb; cbn [respDigits dec_value] in *; [done|].
  apply Forall_cons in H as [Hc Hl]. unfold is_digit in Hc. to_prop. unfold ASCII_ZERO, ASCII_NINE.
  rewrite (proj2 (Z.ltb_ge c 48)), (proj2 (Z.ltb_ge 57 c)) by lia. cbn [orb].
  pose proof (Hmono l (value * 10 + (c - 48)) Hl).
  rewrite (proj2 (Z.ltb_ge _ _)) by lia. apply IH; [done|lia|done].
Qed.

Lemma parse_nonneg n : 0 <= n <= MAX_SAFE_INTEGER →
  ∃ first more, string_of_nonneg n = first :: more ∧ first ≠ 45 ∧ 48 <= first <= 57 ∧
    (first = 48 → n = 0) ∧ (n = 0 → more = []) ∧ respDigits 0 (first :: more) = Ok n.
Proof.
  intros Hn. pose proof (string_of_nonneg_digits n ltac:(lia)) as Hd.
  pose proof (dec_value_string_of_nonneg n ltac:(lia)) as Hv.
  assert (respDigits 0 (string_of_nonneg n) = Ok n) as Hr by (rewrite <- Hv at 2; apply respDigits_ok; [done|lia|lia]).
  destruct (decide (n = 0)) as [->|Hne].
  { exists 48, []. repeat split; try done; lia. }
  destruct (string_of_nonneg_head n) as (d & rest & E & Hh); [lia|].
  exists d, rest. rewrite E in Hr. repeat split; try done; lia.
Qed.

Lemma parse_printed_integer n : is_safe_integer n = true → parseRespIntegerBytes (string_of_Z n) = Ok n.
Proof.
  unfold is_safe_integer. intros H. to_prop. unfold string_of_Z. destruct (Z.ltb_spec n 0) as [Hneg|Hpos].
  - destruct (parse_nonneg (- n)) as (f & m & E & _ & Hf & H48 & _ & Hr); [lia|]. rewrite E.
    cbn [parseRespIntegerBytes]. change (45 =? ASCII_MINUS) with true. cbn iota. unfold ASCII_ZERO, ASCII_NINE.
    rewrite (proj2 (Z.ltb_ge f 48)), (proj2 (Z.ltb_ge 57 f)) by lia. cbn [orb].
    rewrite (proj2 (Z.eqb_neq f 48)) by lia. cbn [andb]. rewrite Hr. cbn [rbind]. f_equal. lia.
  - destruct (parse_nonneg n) as (f & m & E & Hm & Hf & H48 & Hz & Hr); [lia|]. rewrite E.
    cbn [parseRespIntegerBytes]. unfold ASCII_ZERO, ASCII_NINE, ASCII_MINUS.
    rewrite (proj2 (Z.eqb_neq f 45)) by lia. rewrite (proj2 (Z.ltb_ge f 48)), (proj2 (Z.ltb_ge 57 f)) by lia.
    cbn [orb]. rewrite Hr. cbn [rbind].
    destruct (Z.eqb_spec f 48); [|done]. rewrite Hz by auto. done.
Qed.

(** ** Lemmas on the reader *)

(** The index of the first CRLF. *)
Fixpoint first_crlf (l : bytes) : option nat :=
  match l with
  | [] => None
  | c :: rest =>
      if (c =? RESP_CR) && match rest with d :: _ => d =? RESP_LF | [] => false end then Some 0%nat
      else S <$> first_crlf rest
  end.

Lemma scan_first l : ∀ i,
  match first_crlf l with
  | Some j => scanCRLF l i = ScanFound (i + j)
  | None => scanCRLF l i = ScanEnd ∨ l ≠ [] ∧ scanCRLF l i = ScanTrailing (i + (length l - 1))
  end.
Proof.
  induction l as [|c rest IH]; intros i; cbn [first_crlf scanCRLF]; [by left|].
  specialize (IH (S i)). destruct (c =? RESP_CR); cbn [andb].
  - destruct rest as [|d r].
    + right. simpl. by rewrite Nat.add_0_r.
    + destruct (d =? RESP_LF); [by rewrite Nat.add_0_r|].
      destruct (first_crlf (d :: r)) as [j|]; cbn [fmap option_fmap option_map].
      * by rewrite IH, <- Nat.add_succ_comm.
      * destruct IH as [->|[_ ->]]; [by left|right]. split; [done|]. f_equal. simpl. lia.
  - destruct (first_crlf rest) as [j|]; cbn [fmap option_fmap option_map].
    + by rewrite IH, <- Nat.add_succ_comm.
    + destruct IH as [->|[Hne ->]]; [by left|right]. split; [done|]. f_equal. destruct rest; [done|]. simpl. lia.
Qed.

Lemma first_crlf_app l m j : first_crlf (l ++ m) = Some j →
  (first_crlf l = Some j ∧ j + 2 <= length l)%nat ∨ (first_crlf l = None ∧ length l <= j + 1)%nat.
Proof.
  revert j. induction l as [|c l IH]; intros j H; [right; split; [done|simpl; lia]|].
  cbn [first_crlf app] in *. destruct l as [|d l].
  - right. rewrite andb_false_r. cbn [first_crlf fmap option_fmap option_map length]. split; [done|lia].
  - cbn [app] in *. destruct ((c =? RESP_CR) && (d =? RESP_LF)).
    + injection H as <-. left. cbn. split; [done|lia].
    + destruct (first_crlf (d :: l ++ m)) as [k|]; [|done]. injection H as <-.
      destruct (IH k eq_refl) as [[-> Hk]|[-> Hk]]; [left|right]; cbn in *; (split; [done|lia]).
Qed.

Lemma first_crlf_drop s : ∀ j k, first_crlf s = Some j → (k <= j)%nat → first_crlf (drop k s) = Some (j - k)%nat.
Proof.
  induction s as [|c s IH]; intros j [|k] H Hk; [done..|by rewrite Nat.sub_0_r|].
  cbn [first_crlf drop] in *. destruct (_ && _); [injection H as <-; lia|].
  destruct (first_crlf s) as [i|]; [|done]. injection H as <-. rewrite (IH i k); [done|done|lia].
Qed.

Lemma first_crlf_line line rest : RESP_LF ∉ line → first_crlf (line ++ crlf ++ rest) = Some (length line).
Proof.
  induction line as [|c line IH]; intros H; [done|]. apply not_elem_of_cons in H as [Hc Hl].
  cbn [app first_crlf length]. rewrite IH by done.
  assert (match line ++ crlf ++ rest with d :: _ => d =? RESP_LF | [] => false end = false) as ->.
  { destruct line as [|d line]; [done|]. apply not_elem_of_cons in Hl as [Hd _]. apply Z.eqb_neq. done. }
  by rewrite andb_false_r.
Qed.

Definition reader_ok (st : RespReader) : Prop := (r_pos st <= length (r_buf st))%nat.

(** The unread part of the buffer. *)
Definition avail (st : RespReader) : bytes := drop (r_pos st) (r_buf st).

Lemma avail_length st : reader_ok st → length (r_buf st) = (r_pos st + length (avail st))%nat.
Proof. unfold reader_ok, avail. rewrite length_drop. lia. Qed.

Lemma compact_spec b st st' n : reader_ok st → _compactConsumed b st = (st', n) →
  n = r_pos st ∧ r_pos st' = 0%nat ∧ r_buf st' = avail st ∧ r_chunks st' = r_chunks st.
Proof.
  unfold _compactConsumed, reader_ok, avail. destruct st as [cs buf pos sto]. cbn. intros Hok H.
  destruct (Nat.eqb_spec pos 0) as [->|]; [injection H as <- <-; by rewrite drop_0|].
  destruct (Nat.leb_spec (length buf) pos); injection H as <- <-; cbn; [|done].
  by rewrite drop_ge by lia.
Qed.

Lemma readMore_spec st c cs : reader_ok st → r_chunks st = c :: cs →
  ∃ st', _readMore st = (st', Ok (r_pos st)) ∧ r_pos st' = 0%nat ∧ r_buf st' = avail st ++ c ∧ r_chunks st' = cs.
Proof.
  intros Hok E. unfold _readMore. rewrite E.
  destruct (_compactConsumed false _) as [st1 n] eqn:Ec.
  apply compact_spec in Ec as (-> & Hp & Hb & Hc); [|done]. cbn in *.
  eexists. split; [done|]. cbn. unfold _ensureCapacity.
  destruct (_ <=? _)%nat; cbn; by rewrite Hb, Hp, Hc.
Qed.

Lemma readMore_pending st st' n : reader_ok st → _readMore st = (st', Ok n) →
  pending st' = pending st ∧ reader_ok st' ∧ n = r_pos st ∧ r_pos st' = 0%nat ∧
  length (r_chunks st) = S (length (r_chunks st')) ∧ ∃ c, avail st' = avail st ++ c.
Proof.
  intros Hok H. destruct (r_chunks st) as [|c cs] eqn:E.
  { unfold _readMore in H. rewrite E in H. discriminate. }
  destruct (readMore_spec st c cs Hok E) as (st1 & E1 & Hp & Hb & Hc). rewrite E1 in H. injection H as <- <-.
  assert (avail st1 = avail st ++ c) as Ha by (unfold avail at 1; by rewrite Hp, drop_0).
  split_and!; eauto.
  - unfold pending. fold (avail st1) (avail st). rewrite Ha, Hc, E. cbn [concat]. by rewrite app_assoc.
  - unfold reader_ok. lia.
  - by rewrite Hc.
Qed.

(** Reading on succeeds while the pending bytes are more than the buffered ones. *)
Lemma readMore_more st : reader_ok st → (length (avail st) < length (pending st))%nat →
  ∃ st', _readMore st = (st', Ok (r_pos st)).
Proof.
  intros Hok H. destruct (r_chunks st) as [|c cs] eqn:E.
  - unfold pending in H. rewrite E in H. cbn [concat] in H. rewrite app_nil_r in H. fold (avail st) in H. lia.
  - destruct (readMore_spec st c cs Hok E) as (st1 & E1 & _). eauto.
Qed.

Lemma findCRLF_loop fuel : ∀ st k j, reader_ok st → first_crlf (pending st) = Some j →
  (j + 2 <= length (pending st))%nat → (k <= j)%nat → (k <= length (avail st))%nat → (length (r_chunks st) < fuel)%nat →
  ∃ st', findCRLFLoop fuel (r_pos st + k) st = (st', Ok (r_pos st' + j)%nat) ∧ pending st' = pending st ∧
    reader_ok st' ∧ (j + 2 <= length (avail st'))%nat.
Proof.
  induction fuel as [|fuel IH]; intros st k j Hok Hf Hlen Hk Ha Hfuel; [lia|]. cbn [findCRLFLoop].
  assert (drop (r_pos st + k) (r_buf st) = drop k (avail st)) as -> by (unfold avail; by rewrite drop_drop).
  assert (first_crlf (drop k (avail st) ++ concat (r_chunks st)) = Some (j - k)%nat) as Hd.
  { rewrite <- drop_app_le by done. apply first_crlf_drop; done. }
  pose proof (scan_first (drop k (avail st)) (r_pos st + k)) as Hscan.
  apply first_crlf_app in Hd as [[Hd Hj]|[Hd Hj]]; rewrite Hd in Hscan.
  { rewrite Hscan. rewrite length_drop in Hj. exists st. split_and!; [|done|done|lia].
    do 2 f_equal. lia. }
  rewrite length_drop in Hj.
  (* more bytes are needed; the scan resumes at the last buffered byte *)
  assert (∀ i, (i - r_pos st = length (avail st) - 1)%nat →
    ∃ st', rd_bind _readMore (λ consumed, findCRLFLoop fuel (i - consumed)) st = (st', Ok (r_pos st' + j)%nat) ∧
      pending st' = pending st ∧ reader_ok st' ∧ (j + 2 <= length (avail st'))%nat) as Hmore.
  { intros i Hi. destruct (readMore_more st Hok) as [st1 E1]; [lia|]. unfold rd_bind. rewrite E1.
    apply readMore_pending in E1 as (Ep & Hok1 & _ & Hp1 & Hc1 & [c Hav]); [|done]. rewrite Hi.
    destruct (IH st1 (length (avail st) - 1)%nat j) as (st2 & E2 & Ep2 & Hok2 & Hl2);
      rewrite ?Ep; try done; [lia|rewrite Hav, length_app; lia|lia|].
    rewrite Hp1 in E2. cbn [Nat.add] in E2. exists st2. rewrite E2. by rewrite <- Ep. }
  destruct Hscan as [->|[Hne ->]].
  - apply Hmore. rewrite avail_length by done. lia.
  - apply Hmore. rewrite length_drop. assert (length (drop k (avail st)) ≠ 0%nat) as Hz by by destruct (drop k (avail st)).
    rewrite length_drop in Hz. lia.
Qed.

Lemma findCRLF_spec st j : reader_ok st → first_crlf (pending st) = Some j → (j + 2 <= length (pending st))%nat →
  ∃ st', _findCRLF (r_pos st) st = (st', Ok (r_pos st' + j)%nat) ∧ pending st' = pending st ∧ reader_ok st' ∧
    (j + 2 <= length (avail st'))%nat.
Proof.
  intros Hok Hf Hl. unfold _findCRLF.
  destruct (findCRLF_loop (S (length (r_chunks st))) st 0 j) as (st' & E & H); try done; [lia..|].
  rewrite Nat.add_0_r in E. eauto.
Qed.

Lemma ensure_loop fuel : ∀ st n, reader_ok st → (n <= length (pending st))%nat → (length (r_chunks st) < fuel)%nat →
  ∃ st', ensureLoop fuel (Z.of_nat (r_pos st + n)) st = (st', Ok tt) ∧ pending st' = pending st ∧ reader_ok st' ∧
    (n <= length (avail st'))%nat.
Proof.
  induction fuel as [|fuel IH]; intros st n Hok Hn Hf; [lia|]. cbn [ensureLoop].
  pose proof (avail_length st Hok) as Hl.
  destruct (Z.leb_spec (Z.of_nat (r_pos st + n)) (Z.of_nat (length (r_buf st)))).
  { exists st. split_and!; [done..|lia]. }
  destruct (readMore_more st Hok) as [st1 E1]; [lia|]. unfold rd_bind. rewrite E1.
  apply readMore_pending in E1 as (Ep & Hok1 & _ & Hp1 & Hc1 & _); [|done].
  destruct (IH st1 n) as (st2 & E2 & Ep2 & H2); [done|by rewrite Ep|lia|].
  replace (Z.max 0 (Z.of_nat (r_pos st + n) - Z.of_nat (r_pos st))) with (Z.of_nat (r_pos st1 + n)) by lia.
  exists st2. rewrite E2, <- Ep. done.
Qed.

Lemma ensure_spec st n : reader_ok st → (n <= length (pending st))%nat →
  ∃ st', _ensureBufferedLength (Z.of_nat (r_pos st + n)) st = (st', Ok tt) ∧ pending st' = pending st ∧
    reader_ok st' ∧ (n <= length (avail st'))%nat.
Proof. intros. apply ensure_loop; [done|done|lia]. Qed.

(** Moving the position over buffered bytes. *)
Lemma setpos_spec st n a rest : reader_ok st → (n <= length (avail st))%nat → pending st = a ++ rest → length a = n →
  ∃ st', rd_setpos (r_pos st + n) st = (st', Ok tt) ∧ pending st' = rest ∧ reader_ok st' ∧
    avail st' = drop n (avail st) ∧ r_pos st' = (r_pos st + n)%nat.
Proof.
  intros Hok Hn Ep Hl. eexists. split; [done|]. unfold pending, avail, reader_ok in *. cbn. split_and!.
  - rewrite <- drop_drop, <- (drop_app_le (drop _ _)) by done. rewrite Ep, drop_app_length' by done. done.
  - rewrite length_drop in Hn. lia.
  - by rewrite drop_drop.
  - done.
Qed.

(** Reading buffered bytes. *)
Lemma slice_spec st n a rest : (n <= length (avail st))%nat → pending st = a ++ rest → length a = n →
  rd_slice (r_pos st) n st = (st, Ok a).
Proof.
  intros Hn Ep Hl. unfold rd_slice. fold (avail st). do 2 f_equal.
  rewrite <- (take_app_le (avail st) (concat (r_chunks st))) by done.
  change (avail st ++ concat (r_chunks st)) with (pending st). rewrite Ep, take_app_length'; done.
Qed.

Lemma rd_bind_ok {A B} (m : reading A) (f : A → reading B) st st' a :
  m st = (st', Ok a) → rd_bind m f st = f a st'.
Proof. intros H. unfold rd_bind. by rewrite H. Qed.

Lemma parse_head_spec st t line rest : reader_ok st → RESP_LF ∉ line → pending st = t :: line ++ crlf ++ rest →
  ∃ st', parse_head st = (st', Ok ([t], line)) ∧ pending st' = rest ∧ reader_ok st'.
Proof.
  intros Hok Hline Ep. unfold parse_head. unfold rd_pos at 1. rewrite (rd_bind_ok _ _ st st (r_pos st)) by done.
  destruct (ensure_spec st 1) as (s1 & E1 & Ep1 & Hok1 & Hl1); [done|rewrite Ep; simpl; lia|].
  replace (Z.of_nat (r_pos st) + 1) with (Z.of_nat (r_pos st + 1)) by lia.
  rewrite (rd_bind_ok _ _ _ _ _ E1), (rd_bind_ok rd_pos _ s1 s1 (r_pos s1)) by done. rewrite Ep in Ep1.
  rewrite (rd_bind_ok _ _ _ _ [t] (slice_spec s1 1 [t] _ Hl1 Ep1 eq_refl)).
  destruct (setpos_spec s1 1 [t] (line ++ crlf ++ rest) Hok1 Hl1 Ep1 eq_refl) as (s2 & E2 & Ep2 & Hok2 & Hav2 & Hp2).
  rewrite <- (Nat.add_1_r (r_pos s1)), (rd_bind_ok _ _ _ _ _ E2), <- Hp2.
  destruct (findCRLF_spec s2 (length line)) as (s3 & E3 & Ep3 & Hok3 & Hl3); [done|..].
  { rewrite Ep2. by apply first_crlf_line. }
  { rewrite Ep2, !length_app. simpl. lia. }
  rewrite (rd_bind_ok _ _ _ _ _ E3), (rd_bind_ok rd_pos _ s3 s3 (r_pos s3)) by done. rewrite Ep2 in Ep3.
  assert (pending s3 = (line ++ crlf) ++ rest) as Ep3' by by rewrite Ep3, <- app_assoc.
  destruct (setpos_spec s3 (length line + 2) (line ++ crlf) rest Hok3 Hl3 Ep3') as (s4 & E4 & Ep4 & Hok4 & _);
    [by rewrite length_app|].
  rewrite <- Nat.add_assoc, (rd_bind_ok _ _ _ _ _ E4).
  assert (rd_slice (r_pos s3) (r_pos s3 + length line - r_pos s3) s4 = (s4, Ok line)) as E5.
  { injection E4 as <-. unfold rd_slice. cbn [r_buf]. do 2 f_equal.
    rewrite Nat.add_comm, Nat.add_sub. fold (avail s3).
    pose proof (slice_spec s3 (length line) line (crlf ++ rest)) as Hs. unfold rd_slice in Hs.
    fold (avail s3) in Hs. assert (length line <= length (avail s3))%nat as Hle by lia.
    specialize (Hs Hle Ep3 eq_refl). by injection Hs. }
  rewrite (rd_bind_ok _ _ _ _ _ E5). by exists s4.
Qed.


(** What the reader does with an item. *)
Definition finish (deferErrors : bool) (item : resp_item) : result resp_error resp_item :=
  match item with
  | ItemError m => if deferErrors then Ok item else Err (RedisReplyError m)
  | ItemValue _ => Ok item
  end.

Lemma raise_or_defer_spec deferErrors m st :
  raise_or_defer deferErrors m st = (st, finish deferErrors (ItemError m)).
Proof. by destruct deferErrors. Qed.

Lemma integer_line n : RESP_LF ∉ string_of_Z n.
Proof.
  intros H. unfold string_of_Z in H. destruct (Z.ltb_spec n 0).
  - apply elem_of_cons in H as [?|H]; [done|].
    pose proof (string_of_nonneg_digits (- n) ltac:(lia)) as Hd. rewrite Forall_forall in Hd. by apply Hd in H.
  - pose proof (string_of_nonneg_digits n ltac:(lia)) as Hd. rewrite Forall_forall in Hd. by apply Hd in H.
Qed.

Lemma bulk_body items d st b tail line :
  parseRespIntegerBytes line = Ok (Z.of_nat (length b)) → reader_ok st → pending st = b ++ crlf ++ tail →
  ∃ st', parse_body items d (js "$") line st = (st', Ok (ItemValue (JBytes b))) ∧ pending st' = tail ∧ reader_ok st'.
Proof.
  intros Hlen Hok Ep. unfold parse_body. cbn zeta.
  rewrite (bool_decide_eq_false_2 (js "$" = js "+")), (bool_decide_eq_false_2 (js "$" = js "-")),
    (bool_decide_eq_false_2 (js "$" = js ":")), bool_decide_eq_true_2 by done.
  rewrite Hlen. rewrite (rd_bind_ok _ _ st st (Z.of_nat (length b))) by done.
  rewrite (proj2 (Z.eqb_neq _ _)), (proj2 (Z.ltb_ge _ _)) by lia.
  rewrite (rd_bind_ok rd_pos _ st st (r_pos st)) by done.
  destruct (ensure_spec st (length b + 2)) as (s1 & E1 & Ep1 & Hok1 & Hl1); [done|rewrite Ep, !length_app; simpl; lia|].
  replace (Z.of_nat (r_pos st) + Z.of_nat (length b) + 2) with (Z.of_nat (r_pos st + (length b + 2))) by lia.
  rewrite (rd_bind_ok _ _ _ _ _ E1), (rd_bind_ok rd_pos _ s1 s1 (r_pos s1)) by done. rewrite Nat2Z.id. rewrite Ep in Ep1.
  rewrite (rd_bind_ok _ _ s1 s1 b) by (apply (slice_spec s1 _ b (crlf ++ tail)); [lia|done|done]).
  assert (requireCrlfAt (r_pos s1 + length b) s1 = (s1, Ok tt)) as E2.
  { unfold requireCrlfAt. rewrite bool_decide_eq_true_2; [done|].
    rewrite <- Nat.add_succ_r, <- !lookup_drop. fold (avail s1).
    assert (∀ i, (i < length b + 2)%nat → avail s1 !! i = pending s1 !! i) as Hlook.
    { intros i Hi. unfold pending. fold (avail s1). rewrite lookup_app_l; [done|lia]. }
    rewrite !Hlook by lia. rewrite Ep1. split.
    - rewrite lookup_app_r, Nat.sub_diag by lia. done.
    - rewrite lookup_app_r by lia. replace (S (length b) - length b)%nat with 1%nat by lia. done. }
  rewrite (rd_bind_ok _ _ _ _ _ E2).
  destruct (setpos_spec s1 (length b + 2) (b ++ crlf) tail Hok1 Hl1) as (s3 & E3 & Ep3 & Hok3 & _);
    [by rewrite Ep1, <- app_assoc|by rewrite length_app|].
  rewrite (rd_bind_ok _ _ _ _ _ E3). by exists s3.
Qed.

(** The bodies that read nothing further. *)
Lemma line_body items d st v t line : resp_reply v = t :: line ++ crlf →
  reply_ok v → parse_body items d [t] line st = (st, finish d (item_of v)) ∨ (∃ b, v = RBulk (Some b)) ∨ (∃ l, v = RArray (Some l)).
Proof.
  intros E Hok.
  assert (∀ (p : string) l, js p ++ l ++ crlf = t :: line ++ crlf → ∀ c, js p = [c] → t = c ∧ line = l) as Hsplit.
  { intros p l El c Ec. rewrite Ec in El. injection El as -> El. by apply app_inv_tail in El as ->. }
  destruct v as [l|l|n|[b|]|[l|]]; cbn [resp_reply] in E; try (by eauto).
  - apply (Hsplit "+") with (c := 43) in E as [-> ->]; [|done]. by left.
  - apply (Hsplit "-") with (c := 45) in E as [-> ->]; [|done]. left. apply raise_or_defer_spec.
  - apply (Hsplit ":") with (c := 58) in E as [-> ->]; [|done]. left. unfold parse_body. cbn zeta.
    change [58] with (js ":"). rewrite (bool_decide_eq_false_2 (js ":" = js "+")), (bool_decide_eq_false_2 (js ":" = js "-")),
      bool_decide_eq_true_2 by done. by rewrite parse_printed_integer.
  - change (js "$-1" ++ crlf) with (js "$" ++ js "-1" ++ crlf) in E.
    apply (Hsplit "$") with (c := 36) in E as [-> ->]; [|done]. by left.
  - change (js "*-1" ++ crlf) with (js "*" ++ js "-1" ++ crlf) in E.
    apply (Hsplit "*") with (c := 42) in E as [-> ->]; [|done]. by left.
Qed.

(** The first line of a reply, and what follows it. *)
Lemma reply_head v : reply_ok v →
  ∃ t line rest, resp_reply v = t :: line ++ crlf ++ rest ∧ RESP_LF ∉ line ∧
    match v with
    | RBulk (Some b) => t = 36 ∧ line = string_of_Z (Z.of_nat (length b)) ∧ rest = b ++ crlf
    | RArray (Some l) => t = 42 ∧ line = string_of_Z (Z.of_nat (length l)) ∧ rest = concat (map resp_reply l)
    | _ => rest = []
    end.
Proof.
  intros H. destruct v as [l|l|n|[b|]|[l|]]; cbn [resp_reply reply_ok] in *.
  - exists 43, l, []. rewrite app_nil_r. done.
  - exists 45, l, []. rewrite app_nil_r. done.
  - exists 58, (string_of_Z n), []. rewrite app_nil_r. split; [done|]. split; [apply integer_line|done].
  - exists 36, (string_of_Z (Z.of_nat (length b))), (b ++ crlf). split; [done|]. split; [apply integer_line|done].
  - exists 36, (js "-1"), []. split; [done|]. split; [|done]. by apply includes_unit_false.
  - exists 42, (string_of_Z (Z.of_nat (length l))), (concat (map resp_reply l)). split; [done|].
    split; [apply integer_line|done].
  - exists 42, (js "-1"), []. split; [done|]. split; [|done]. by apply includes_unit_false.
Qed.

Lemma array_body items d st line l res st' :
  parseRespIntegerBytes line = Ok (Z.of_nat (length l)) → items (Z.of_nat (length l)) st = (st', Ok res) →
  res = fold_left collect_item (map item_of l) ([], None) →
  parse_body items d (js "*") line st = (st', finish d (item_of (RArray (Some l)))).
Proof.
  intros Hlen Hit Hres. unfold parse_body. cbn zeta.
  rewrite (bool_decide_eq_false_2 (js "*" = js "+")), (bool_decide_eq_false_2 (js "*" = js "-")),
    (bool_decide_eq_false_2 (js "*" = js ":")), (bool_decide_eq_false_2 (js "*" = js "$")), bool_decide_eq_true_2 by done.
  rewrite Hlen. rewrite (rd_bind_ok _ _ st st (Z.of_nat (length l))) by done.
  rewrite (proj2 (Z.eqb_neq _ _)), (proj2 (Z.ltb_ge _ _)) by lia.
  rewrite (rd_bind_ok _ _ _ _ _ Hit). cbn [item_of]. rewrite <- Hres. unfold array_item.
  destruct res as [arr [m|]]; [apply raise_or_defer_spec|done].
Qed.

Lemma parse_spec n :
  (∀ v st tail d, reply_ok v → reader_ok st → pending st = resp_reply v ++ tail →
     (2 * length (resp_reply v) <= n + 3)%nat →
     ∃ st', _parseOne n d st = (st', finish d (item_of v)) ∧ pending st' = tail ∧ reader_ok st') ∧
  (∀ vs st tail arr err, Forall reply_ok vs → reader_ok st → pending st = concat (map resp_reply vs) ++ tail →
     (2 * length (concat (map resp_reply vs)) <= n)%nat →
     ∃ st', parseItems n (Z.of_nat (length vs)) arr err st =
       (st', Ok (fold_left collect_item (map item_of vs) (arr, err))) ∧ pending st' = tail ∧ reader_ok st').
Proof.
  assert (∀ v, reply_ok v → 3 <= length (resp_reply v))%nat as Hmin.
  { intros v Hv. destruct (reply_head v Hv) as (t & line & rest & -> & _). cbn [length]. rewrite !length_app. simpl. lia. }
  induction n as [|n [IH1 IH2]].
  { split.
    - intros v st tail d Hv _ _ Hn. specialize (Hmin v Hv). lia.
    - intros [|v vs] st tail arr err Hvs Hok Ep Hn; [by exists st|]. apply Forall_cons in Hvs as [Hv _].
      specialize (Hmin v Hv). cbn [map concat] in Hn. rewrite length_app in Hn. lia. }
  split.
  - intros v st tail d Hv Hok Ep Hn. destruct (reply_head v Hv) as (t & line & rest & E & Hline & Hshape).
    rewrite E in Ep. cbn [app] in Ep. rewrite <- app_assoc, <- app_assoc in Ep. change (crlf ++ rest ++ tail) with (crlf ++ (rest ++ tail)) in Ep.
    destruct (parse_head_spec st t line (rest ++ tail) Hok Hline Ep) as (s1 & E1 & Ep1 & Hok1).
    cbn [_parseOne]. rewrite (rd_bind_ok _ _ _ _ _ E1). cbn [fst snd].
    destruct (decide (rest = [])) as [->|Hrest].
    + rewrite app_nil_r in E. destruct (line_body (λ count, parseItems n count [] None) d s1 v t line E Hv) as [Eb|[[b ->]|[l ->]]].
      * exists s1. by rewrite Eb.
      * destruct Hshape as (_ & _ & Hb). by destruct b.
      * destruct Hshape as (-> & -> & Hb). cbn [reply_ok] in Hv. destruct Hv as [Hlen Hl].
        exists s1. split; [|done]. destruct l as [|v l]; [|exfalso].
        -- apply (array_body _ _ _ _ [] ([], None)); [done| |done]. by destruct n.
        -- apply Forall_cons in Hl as [Hv _]. specialize (Hmin v Hv). cbn [map concat] in Hb.
           apply (f_equal length) in Hb. rewrite length_app in Hb. simpl in Hb. lia.
    + destruct v as [l|l|k|[b|]|[l|]]; try done.
      * destruct Hshape as (-> & -> & ->). rewrite <- app_assoc in Ep1.
        apply bulk_body with (tail := tail); [|done|done]. apply parse_printed_integer.
        cbn [reply_ok] in Hv. unfold is_safe_integer. apply andb_true_iff. unfold MAX_SAFE_INTEGER in *. lia.
      * destruct Hshape as (-> & -> & ->). cbn [reply_ok] in Hv. destruct Hv as [Hlen Hl].
        destruct (IH2 l s1 tail [] None) as (s2 & E2 & Ep2 & Hok2); [by apply (proj1 (List.Forall_map reply_ok id l) Hl)|done|done| |].
        { rewrite E in Hn. cbn [length] in Hn. rewrite !length_app in Hn. change (length crlf) with 2%nat in Hn. lia. }
        exists s2. split; [|done]. eapply array_body; [|exact E2|done]. apply parse_printed_integer.
        unfold is_safe_integer. apply andb_true_iff. unfold MAX_SAFE_INTEGER in *. lia.
  - intros [|v vs] st tail arr err Hvs Hok Ep Hn; [by exists st|].
    apply Forall_cons in Hvs as [Hv Hvs]. cbn [map concat] in *. rewrite length_app in Hn. specialize (Hmin v Hv).
    rewrite <- app_assoc in Ep. destruct (IH1 v st (concat (map resp_reply vs) ++ tail) true Hv Hok Ep) as (s1 & E1 & Ep1 & Hok1); [lia|].
    cbn [parseItems]. rewrite (proj2 (Z.leb_gt _ _)) by (simpl; lia). rewrite (rd_bind_ok _ _ st s1 (item_of v)).
    2:{ rewrite E1. by destruct (item_of v). }
    destruct (IH2 vs s1 tail (collect_item (arr, err) (item_of v)).1 (collect_item (arr, err) (item_of v)).2 Hvs Hok1 Ep1) as (s2 & E2 & H2); [lia|].
    exists s2. split; [|done]. rewrite <- surjective_pairing in E2. cbn [fold_left].
    replace (Z.of_nat (length (v :: vs)) - 1) with (Z.of_nat (length vs)) by (cbn [length]; lia).
    rewrite <- E2. by destruct (item_of v), err.
Qed.

Lemma compact_pending st : reader_ok st → pending (compact st) = pending st ∧ reader_ok (compact st).
Proof.
  intros Hok. unfold compact. destruct (_compactConsumed true st) as [st' n] eqn:E.
  apply compact_spec in E as (_ & Hp & Hb & Hc); [|done]. cbn [fst]. unfold pending, reader_ok.
  rewrite Hp, Hb, Hc, drop_0. split; [done|lia].
Qed.

Lemma parseOne_reply v st tail : reply_ok v → reader_ok st → pending st = resp_reply v ++ tail →
  ∃ st', parseOne st = (st', outcome_of v) ∧ pending st' = tail ∧ reader_ok st'.
Proof.
  intros Hv Hok Ep. unfold parseOne.
  destruct (proj1 (parse_spec (2 * length (pending st) + 1)) v st tail false Hv Hok Ep) as (s1 & E1 & H1).
  { rewrite Ep, length_app. lia. }
  exists s1. split; [|done]. unfold rd_bind, outcome_of. rewrite E1. by destruct (item_of v).
Qed.

(** ** Properties *)

(** C35. However the stream is cut into chunks, reading one reply after the other off it
    returns each reply's value, or throws its first error, and consumes exactly its bytes:
    an error reply, even one nested in an array, leaves the reader at the start of the next
    reply. *)
Theorem replies_independent_of_chunks vs tail chunks : Forall reply_ok vs →
  concat chunks = concat (map resp_reply vs) ++ tail →
  ∃ st, parseReplies (length vs) (newReader chunks) = (st, map outcome_of vs) ∧ pending st = tail.
Proof.
  intros Hvs Ec. assert (pending (newReader chunks) = concat (map resp_reply vs) ++ tail) as Ep by done.
  assert (reader_ok (newReader chunks)) as Hok by (unfold reader_ok; simpl; lia).
  revert Ep Hok. generalize (newReader chunks). clear Ec. induction Hvs as [|v vs Hv Hvs IH]; intros st Ep Hok.
  { by exists st. }
  cbn [map concat length parseReplies] in *. rewrite <- app_assoc in Ep.
  destruct (parseOne_reply v st _ Hv Hok Ep) as (s1 & -> & Ep1 & Hok1).
  destruct (compact_pending s1 Hok1) as [Ep2 Hok2]. rewrite <- Ep2 in Ep1.
  destruct (IH (compact s1) Ep1 Hok2) as (s2 & -> & H2). by exists s2.
Qed.

Lemma replies_independent_of_chunks_witness :
  ∃ st, parseReplies 2 (newReader [[45; 69]; [82]; [82; 13]; [10; 58; 49]; []; [13; 10; 43]]) =
          (st, [Err (RedisReplyError (js "ERR")); Ok (JNum (NInt 1))]) ∧ pending st = [43].
Proof.
  apply (replies_independent_of_chunks [RError (js "ERR"); RInteger 1] [43]
           [[45; 69]; [82]; [82; 13]; [10; 58; 49]; []; [13; 10; 43]]).
  - constructor; [by apply includes_unit_false; vm_compute | constructor; [by vm_compute | constructor]].
  - vm_compute. reflexivity.
Defined.
