(* ===== verification/SqlSplitter.v ===== *)
(** * Splitting SQL text into statements

    Models src/shared/sql-splitter.js: the scan over the characters with its quoting and
    comment states, and the tracker that keeps the semicolons inside the body of a
    CREATE TRIGGER. The theorems relate the scan to a token-level description of SQL text. *)

From stdpp Require Import base list strings.
From Stdlib Require Import ZArith Lia.
From S2P Require Import Prelude NsPattern.

#[local] Open Scope Z_scope.

Definition isSqlWordStart (ch : Z) : bool := is_alpha ch || is_underscore ch.
Definition isSqlWordPart (ch : Z) : bool := is_alnum ch || is_underscore ch.

Record tracker := Tracker {
  triggerPrefix : list jstr; triggerPrefixRejected : bool; isTrigger : bool; triggerBodyStarted : bool;
  triggerNestedDepth : Z; triggerEndMayClose : bool; triggerEndSeen : bool }.

Definition createStatementTracker : tracker := Tracker [] false false false 0 false false.

(** The first part of [observeWord]: does the statement start as a CREATE TRIGGER? *)
Definition observePrefix (t : tracker) (lower : jstr) : tracker :=
  let '(Tracker prefix rejected trig started depth mayClose seen) := t in
  if negb trig && negb rejected then
    match prefix with
    | [] => if jeqb lower (js "create") then Tracker [lower] rejected trig started depth mayClose seen
            else Tracker prefix true trig started depth mayClose seen
    | [_] => if jeqb lower (js "trigger") then Tracker prefix rejected true started depth mayClose seen
             else if jeqb lower (js "temp") || jeqb lower (js "temporary")
             then Tracker (prefix ++ [lower]) rejected trig started depth mayClose seen
             else Tracker prefix true trig started depth mayClose seen
    | [_; _] => if jeqb lower (js "trigger") then Tracker prefix rejected true started depth mayClose seen
                else Tracker prefix true trig started depth mayClose seen
    | _ => t
    end
  else t.

Definition observeWord (t : tracker) (word : jstr) : tracker :=
  let lower := to_lower word in
  let t := observePrefix t lower in
  let '(Tracker prefix rejected trig started depth mayClose seen) := t in
  if negb trig then t
  else if negb started then
    if jeqb lower (js "begin") then Tracker prefix rejected trig true depth true seen else t
  else if jeqb lower (js "case") || jeqb lower (js "begin") then
    Tracker prefix rejected trig started (depth + 1) false false
  else if jeqb lower (js "end") then
    if 0 <? depth then Tracker prefix rejected trig started (depth - 1) false seen
    else Tracker prefix rejected trig started depth false mayClose
  else Tracker prefix rejected trig started depth false false.

(** At a semicolon: is it part of a trigger's body, given the statement so far? *)
Definition semicolonInTrigger (t : tracker) (statement : jstr) : bool :=
  negb (jeqb statement []) && isTrigger t && triggerBodyStarted t && negb (triggerEndSeen t).

Definition allowClose (t : tracker) : tracker :=
  Tracker (triggerPrefix t) (triggerPrefixRejected t) (isTrigger t) (triggerBodyStarted t)
    (triggerNestedDepth t) true (triggerEndSeen t).

Inductive scan_state := Normal | LineComment | BlockComment | SingleQuote | DoubleQuote | Backtick | Bracket.

Definition statement_of (text : jstr) : list jstr := match trim text with [] => [] | s => [s] end.

Fixpoint take_while (p : Z → bool) (s : jstr) : jstr :=
  match s with [] => [] | c :: r => if p c then c :: take_while p r else [] end.

(** The quote of a quoting state. *)
Definition quote_of (state : scan_state) : option Z :=
  match state with SingleQuote => Some 39 | DoubleQuote => Some 34 | Backtick => Some 96 | _ => None end.

(** The scan at the rest of the text, [cur] being [sql.slice(start, i)]. Every round takes a
    character, so the length of the text is enough fuel. *)
Fixpoint splitFrom (fuel : nat) (state : scan_state) (t : tracker) (cur rest : jstr) : list jstr :=
  match fuel, rest with
  | _, [] => statement_of cur
  | O, _ => []
  | S fuel, ch :: more =>
      let next := head more in
      let advance state t := splitFrom fuel state t (cur ++ [ch]) more in
      let advance2 state t := splitFrom fuel state t (cur ++ take 2 rest) (drop 2 rest) in
      match state with
      | LineComment => advance (if (ch =? 10) || (ch =? 13) then Normal else LineComment) t
      | BlockComment =>
          if (ch =? 42) && bool_decide (next = Some 47) then advance2 Normal t else advance BlockComment t
      | SingleQuote | DoubleQuote | Backtick =>
          match quote_of state with
          | Some q =>
              if (ch =? q) && bool_decide (next = Some q) then advance2 state t
              else if ch =? q then advance Normal t else advance state t
          | None => advance state t
          end
      | Bracket => advance (if ch =? 93 then Normal else Bracket) t
      | Normal =>
          if (ch =? 45) && bool_decide (next = Some 45) then advance2 LineComment t
          else if (ch =? 47) && bool_decide (next = Some 42) then advance2 BlockComment t
          else if ch =? 39 then advance SingleQuote t
          else if ch =? 34 then advance DoubleQuote t
          else if ch =? 96 then advance Backtick t
          else if ch =? 91 then advance Bracket t
          else if isSqlWordStart ch then
            let word := ch :: take_while isSqlWordPart more in
            splitFrom fuel Normal (observeWord t word) (cur ++ word) (drop (length word) rest)
          else if ch =? 59 then
            let statement := trim cur in
            if semicolonInTrigger t statement then advance Normal (allowClose t)
            else statement_of cur ++ splitFrom fuel Normal createStatementTracker [] more
          else advance Normal t
      end
  end.

Definition splitSqlStatements (sql : jstr) : list jstr :=
  splitFrom (length sql) Normal createStatementTracker [] sql.

(** ** SQL text as tokens *)

Inductive token :=
| TQuote (state : scan_state) (q : Z) (body : jstr)
| TBracket (body : jstr)
| TLine (body : jstr) (eol : Z)
| TBlock (body : jstr)
| TWord (word : jstr)
| TSemi
| TOther (c : Z).

Fixpoint double (q : Z) (s : jstr) : jstr :=
  match s with [] => [] | c :: r => if c =? q then q :: q :: double q r else c :: double q r end.

Definition print (t : token) : jstr :=
  match t with
  | TQuote _ q body => q :: double q body ++ [q]
  | TBracket body => 91 :: body ++ [93]
  | TLine body eol => 45 :: 45 :: body ++ [eol]
  | TBlock body => 47 :: 42 :: body ++ [42; 47]
  | TWord word => word
  | TSemi => [59]
  | TOther c => [c]
  end.

Definition print_all (ts : list token) : jstr := flat_map print ts.

(** No [*/] inside. *)
Fixpoint no_close (s : jstr) : bool :=
  match s with
  | [] => true
  | c :: r => negb ((c =? 42) && bool_decide (head r = Some 47)) && no_close r
  end.

Definition plain_char (c : Z) : bool :=
  negb ((c =? 39) || (c =? 34) || (c =? 96) || (c =? 91) || (c =? 59)) && negb (isSqlWordStart c).

(** A token that cannot be read differently given the character that follows it. *)
Definition token_ok (t : token) (next : option Z) : bool :=
  match t with
  | TQuote state q _ => bool_decide (quote_of state = Some q) && negb (bool_decide (next = Some q))
  | TBracket body => negb (includes_unit 93 body)
  | TLine body eol => forallb (λ c, negb ((c =? 10) || (c =? 13))) body && ((eol =? 10) || (eol =? 13))
  | TBlock body => no_close body
  | TWord word => head_star_re isSqlWordStart isSqlWordPart word
                  && match next with Some c => negb (isSqlWordPart c) | None => true end
  | TSemi => true
  | TOther c => plain_char c && negb ((c =? 45) && bool_decide (next = Some 45))
                && negb ((c =? 47) && bool_decide (next = Some 42))
  end.

Fixpoint tokens_ok (ts : list token) : bool :=
  match ts with
  | [] => true
  | t :: rest => token_ok t (head (print_all rest)) && tokens_ok rest
  end.

(** The statements of a token list. *)
Fixpoint splitTokens (t : tracker) (cur : jstr) (ts : list token) : list jstr :=
  match ts with
  | [] => statement_of cur
  | TWord word :: rest => splitTokens (observeWord t word) (cur ++ word) rest
  | TSemi :: rest =>
      if semicolonInTrigger t (trim cur) then splitTokens (allowClose t) (cur ++ [59]) rest
      else statement_of cur ++ splitTokens createStatementTracker [] rest
  | tok :: rest => splitTokens t (cur ++ print tok) rest
  end.

Example split_examples :
  splitSqlStatements (js "SELECT ';' ; -- a;b") = [js "SELECT ';'"; js "-- a;b"] ∧
  splitSqlStatements (js "create temp trigger t after insert on x begin update y set a = case when 1 then 2 end; delete from z; end; select 1")
  = [js "create temp trigger t after insert on x begin update y set a = case when 1 then 2 end; delete from z; end"; js "select 1"].
Proof. vm_compute. split; reflexivity. Qed.

(** ** Lemmas *)

(** The scan from one place continues at another, with enough fuel left. *)
Definition reaches (fuel : nat) (s : scan_state) (t : tracker) (cur rest : jstr)
    (s' : scan_state) (t' : tracker) (cur' rest' : jstr) : Prop :=
  (length rest <= fuel)%nat →
  ∃ fuel', (length rest' <= fuel')%nat ∧ splitFrom fuel s t cur rest = splitFrom fuel' s' t' cur' rest'.

Lemma step_one s s' t cur c rest fuel : (∀ f, splitFrom (S f) s t cur (c :: rest) = splitFrom f s' t (cur ++ [c]) rest) →
  reaches fuel s t cur (c :: rest) s' t (cur ++ [c]) rest.
Proof. intros H Hf. destruct fuel as [|f]; [simpl in Hf; lia|]. exists f. split; [simpl in Hf; lia|apply H]. Qed.

Lemma step_two s s' t cur c d rest fuel :
  (∀ f, splitFrom (S f) s t cur (c :: d :: rest) = splitFrom f s' t (cur ++ [c; d]) rest) →
  reaches fuel s t cur (c :: d :: rest) s' t (cur ++ [c; d]) rest.
Proof. intros H Hf. destruct fuel as [|f]; [simpl in Hf; lia|]. exists f. split; [simpl in Hf; lia|apply H]. Qed.

Lemma reaches_trans fuel s t cur rest s1 t1 cur1 rest1 s2 t2 cur2 rest2 :
  reaches fuel s t cur rest s1 t1 cur1 rest1 → (∀ f, reaches f s1 t1 cur1 rest1 s2 t2 cur2 rest2) →
  reaches fuel s t cur rest s2 t2 cur2 rest2.
Proof.
  intros H1 H2 Hf. destruct (H1 Hf) as (f1 & Hf1 & E1). destruct (H2 f1 Hf1) as (f2 & Hf2 & E2).
  exists f2. split; [done|]. by rewrite E1.
Qed.

Lemma quoted_reaches state q body : quote_of state = Some q → ∀ fuel t cur rest, head rest ≠ Some q →
  reaches fuel state t cur (double q body ++ q :: rest) Normal t (cur ++ double q body ++ [q]) rest.
Proof.
  intros Hq. induction body as [|c body IH]; intros fuel t cur rest Hn.
  - cbn [double app]. apply step_one. intros f. destruct state; try done; injection Hq as <-;
      cbn [splitFrom quote_of]; rewrite Z.eqb_refl, bool_decide_eq_false_2 by done; done.
  - cbn [double]. destruct (Z.eqb_spec c q) as [->|Hc].
    + cbn [app]. eapply reaches_trans; [apply (step_two state state)|].
      * intros f. destruct state; try done; injection Hq as <-;
          cbn [splitFrom quote_of]; rewrite Z.eqb_refl, bool_decide_eq_true_2 by done; done.
      * intros f. replace (cur ++ q :: q :: double q body ++ [q]) with ((cur ++ [q; q]) ++ double q body ++ [q])
          by by rewrite <- app_assoc. by apply IH.
    + cbn [app]. eapply reaches_trans; [apply (step_one state state)|].
      * intros f. apply Z.eqb_neq in Hc. destruct state; try done; injection Hq as <-;
          cbn [splitFrom quote_of]; rewrite Hc; done.
      * intros f. replace (cur ++ c :: double q body ++ [q]) with ((cur ++ [c]) ++ double q body ++ [q])
          by by rewrite <- app_assoc. by apply IH.
Qed.

Lemma bracket_reaches body : 93 ∉ body → ∀ fuel t cur rest,
  reaches fuel Bracket t cur (body ++ 93 :: rest) Normal t (cur ++ body ++ [93]) rest.
Proof.
  induction body as [|c body IH]; intros Hb fuel t cur rest; cbn [app]; [by apply step_one|].
  apply not_elem_of_cons in Hb as [Hc Hb]. eapply reaches_trans; [apply (step_one Bracket Bracket)|].
  - intros f. cbn [splitFrom]. by rewrite (proj2 (Z.eqb_neq c 93)) by done.
  - intros f. replace (cur ++ c :: body ++ [93]) with ((cur ++ [c]) ++ body ++ [93]) by by rewrite <- app_assoc.
    by apply IH.
Qed.

Lemma line_reaches body eol : forallb (λ c, negb ((c =? 10) || (c =? 13))) body = true → (eol =? 10) || (eol =? 13) = true →
  ∀ fuel t cur rest, reaches fuel LineComment t cur (body ++ eol :: rest) Normal t (cur ++ body ++ [eol]) rest.
Proof.
  intros Hb He. induction body as [|c body IH]; intros fuel t cur rest; cbn [app].
  - apply step_one. intros f. cbn [splitFrom]. by rewrite He.
  - cbn [forallb] in Hb. apply andb_prop in Hb as [Hc Hb]. apply negb_true_iff in Hc.
    eapply reaches_trans; [apply (step_one LineComment LineComment); intros f; cbn [splitFrom]; by rewrite Hc|].
    intros f. replace (cur ++ c :: body ++ [eol]) with ((cur ++ [c]) ++ body ++ [eol]) by by rewrite <- app_assoc.
    by apply IH.
Qed.

Lemma block_reaches body : no_close body = true → ∀ fuel t cur rest,
  reaches fuel BlockComment t cur (body ++ 42 :: 47 :: rest) Normal t (cur ++ body ++ [42; 47]) rest.
Proof.
  induction body as [|c body IH]; intros Hb fuel t cur rest; cbn [app]; [by apply step_two|].
  cbn [no_close] in Hb. apply andb_prop in Hb as [Hc Hb]. apply negb_true_iff in Hc.
  eapply reaches_trans; [apply (step_one BlockComment BlockComment)|].
  - intros f. cbn [splitFrom]. replace (head (body ++ 42 :: 47 :: rest)) with (match body with [] => Some 42 | d :: _ => Some d end) by by destruct body.
    destruct body; [by rewrite andb_false_r|]. cbn [head] in Hc. by rewrite Hc.
  - intros f. replace (cur ++ c :: body ++ [42; 47]) with ((cur ++ [c]) ++ body ++ [42; 47]) by by rewrite <- app_assoc.
    by apply IH.
Qed.

Lemma take_while_app p w rest : forallb p w = true → match head rest with Some c => p c = false | None => True end →
  take_while p (w ++ rest) = w.
Proof.
  intros Hw Hr. induction w as [|c w IH]; cbn [app take_while].
  - destruct rest as [|d rest]; [done|]. cbn [head take_while] in *. by rewrite Hr.
  - cbn [forallb] in Hw. apply andb_prop in Hw as [-> Hw]. by rewrite IH.
Qed.

(** In the normal state a token is consumed as a whole. *)
Lemma token_reaches tok rest fuel t cur : tok ≠ TSemi → token_ok tok (head rest) = true →
  reaches fuel Normal t cur (print tok ++ rest) Normal
    (match tok with TWord w => observeWord t w | _ => t end) (cur ++ print tok) rest.
Proof.
  intros Hs Hok. destruct tok as [state q body|body|body eol|body|word| |c]; cbn [print token_ok] in *; [..|done|].
  - to_prop. cbn [app]. rewrite <- app_assoc. cbn [app].
    eapply reaches_trans; [apply (step_one Normal state)|].
    + intros f. destruct state; try done; injection H as <-; reflexivity.
    + intros f. replace (cur ++ q :: double q body ++ [q]) with ((cur ++ [q]) ++ double q body ++ [q]) by by rewrite <- app_assoc.
      by apply quoted_reaches.
  - to_prop. cbn [app]. rewrite <- app_assoc. cbn [app]. eapply reaches_trans; [by apply (step_one Normal Bracket)|].
    intros f. replace (cur ++ 91 :: body ++ [93]) with ((cur ++ [91]) ++ body ++ [93]) by by rewrite <- app_assoc.
    apply bracket_reaches. by apply includes_unit_false.
  - apply andb_prop in Hok as [Hb He]. cbn [app]. rewrite <- app_assoc. cbn [app].
    eapply reaches_trans; [by apply (step_two Normal LineComment)|].
    intros f. replace (cur ++ 45 :: 45 :: body ++ [eol]) with ((cur ++ [45; 45]) ++ body ++ [eol]) by by rewrite <- app_assoc.
    by apply line_reaches.
  - cbn [app]. rewrite <- app_assoc. cbn [app]. eapply reaches_trans; [by apply (step_two Normal BlockComment)|].
    intros f. replace (cur ++ 47 :: 42 :: body ++ [42; 47]) with ((cur ++ [47; 42]) ++ body ++ [42; 47]) by by rewrite <- app_assoc.
    by apply block_reaches.
  - apply andb_prop in Hok as [Hw Hn]. destruct word as [|c w]; [done|]. cbn [head_star_re] in Hw.
    apply andb_prop in Hw as [Hc Hw]. intros Hf. destruct fuel as [|f]; [simpl in Hf; lia|].
    exists f. cbn [app length] in Hf. rewrite length_app in Hf. split; [lia|]. cbn [app splitFrom].
    assert (take_while isSqlWordPart (w ++ rest) = w) as ->.
    { apply take_while_app; [done|]. destruct (head rest); [by apply negb_true_iff|done]. }
    unfold isSqlWordStart, is_alpha, is_lower, is_upper, is_underscore in Hc.
    assert (∀ k, k = 45 ∨ k = 47 ∨ k = 39 ∨ k = 34 ∨ k = 96 ∨ k = 91 → (c =? k) = false) as Hk.
    { intros k Hk. apply Z.eqb_neq. intros ->.
      repeat destruct Hk as [Hk|Hk]; subst; done. }
    rewrite !Hk by tauto. cbn [andb]. fold (is_lower c) (is_upper c) in Hc. unfold isSqlWordStart, is_alpha, is_lower, is_upper, is_underscore.
    unfold is_lower, is_upper in Hc. rewrite Hc. do 2 f_equal.
    cbn [length drop]. by rewrite drop_app_length.
  - apply andb_prop in Hok as [Hok H2]. apply andb_prop in Hok as [Hp H1]. apply negb_true_iff in H1, H2.
    unfold plain_char in Hp. apply andb_prop in Hp as [Hq Hw]. apply negb_true_iff in Hq, Hw.
    apply (step_one Normal Normal). intros f. cbn [splitFrom]. rewrite H1, H2, Hw. to_prop.
    rewrite !(proj2 (Z.eqb_neq c _)) by done. done.
Qed.

Lemma splitFrom_tokens ts : ∀ fuel t cur, tokens_ok ts = true → (length (print_all ts) <= fuel)%nat →
  splitFrom fuel Normal t cur (print_all ts) = splitTokens t cur ts.
Proof.
  induction ts as [|tok ts IH]; intros fuel t cur Hok Hf; [by destruct fuel|].
  cbn [tokens_ok] in Hok. apply andb_prop in Hok as [Ht Hts].
  assert (tok = TSemi ∨ tok ≠ TSemi) as [->|Hne] by (destruct tok; auto).
  { destruct fuel as [|f]; [simpl in Hf; lia|]. change (print_all (TSemi :: ts)) with (59 :: print_all ts) in *.
    cbn [splitFrom splitTokens length] in *. change (isSqlWordStart 59) with false.
    change (59 =? 45) with false. change (59 =? 47) with false. change (59 =? 39) with false. change (59 =? 34) with false.
    change (59 =? 96) with false. change (59 =? 91) with false. change (59 =? 59) with true. cbn [andb].
    destruct (semicolonInTrigger _ _); [apply IH; [done|lia]|]. f_equal. apply IH; [done|lia]. }
  change (print_all (tok :: ts)) with (print tok ++ print_all ts) in *.
  destruct (token_reaches tok (print_all ts) fuel t cur Hne Ht Hf) as (f & Hf' & ->).
  rewrite IH by done. by destruct tok.
Qed.

(** The words of a token list, and what the tracker makes of them. *)
Definition words (ts : list token) : list jstr := omap (λ t, match t with TWord w => Some w | _ => None end) ts.
Definition track (t : tracker) (ts : list token) : tracker := fold_left observeWord (words ts) t.
Definition no_semi (ts : list token) : Prop := Forall (λ t, t ≠ TSemi) ts.

Lemma track_cons t tok ts : track t (tok :: ts) = track (match tok with TWord w => observeWord t w | _ => t end) ts.
Proof. by destruct tok. Qed.

Lemma splitTokens_plain ts rest : ∀ t cur, no_semi ts →
  splitTokens t cur (ts ++ rest) = splitTokens (track t ts) (cur ++ print_all ts) rest.
Proof.
  induction ts as [|tok ts IH]; intros t cur H; [by rewrite app_nil_r|].
  apply Forall_cons in H as [Ht Hts]. rewrite track_cons.
  change (print_all (tok :: ts)) with (print tok ++ print_all ts). rewrite app_assoc.
  destruct tok; try done; cbn [app splitTokens]; by rewrite IH.
Qed.

Definition join_semi (stmts : list (list token)) : list token := concat (map (λ s, s ++ [TSemi]) stmts).

(** The words of a trigger's inner statement: every END closes a CASE or BEGIN of its own. *)
Fixpoint balanced (depth : Z) (ws : list jstr) : bool :=
  match ws with
  | [] => depth =? 0
  | w :: rest =>
      let lower := to_lower w in
      if jeqb lower (js "case") || jeqb lower (js "begin") then balanced (depth + 1) rest
      else if jeqb lower (js "end") then (0 <? depth) && balanced (depth - 1) rest
      else balanced depth rest
  end.

(** A tracker inside the body of a trigger. *)
Definition in_body (t : tracker) (depth : Z) : Prop :=
  isTrigger t = true ∧ triggerBodyStarted t = true ∧ triggerNestedDepth t = depth ∧ triggerEndSeen t = false.

Lemma observe_in_body t depth w : in_body t depth →
  let lower := to_lower w in
  if jeqb lower (js "case") || jeqb lower (js "begin") then in_body (observeWord t w) (depth + 1)
  else if jeqb lower (js "end") then
    if 0 <? depth then in_body (observeWord t w) (depth - 1)
    else isTrigger (observeWord t w) = true ∧ triggerEndSeen (observeWord t w) = triggerEndMayClose t
  else in_body (observeWord t w) depth.
Proof.
  intros (Ht & Hs & Hd & He) lower. destruct t as [p r tr st d mc se]. cbn in Ht, Hs, Hd, He. subst.
  unfold observeWord, observePrefix. fold lower. cbn [negb andb].
  destruct (_ || _); [done|]. destruct (jeqb lower (js "end")); [|done]. destruct (0 <? depth); done.
Qed.

Lemma track_balanced ts : ∀ t depth, in_body t depth → balanced depth (words ts) = true → in_body (track t ts) 0.
Proof.
  unfold track. generalize (words ts). clear ts. intros ws.
  induction ws as [|w ws IH]; intros t depth Hin Hb; cbn [balanced fold_left] in *.
  { to_prop. by subst. }
  pose proof (observe_in_body t depth w Hin) as Ho. cbn zeta in Ho.
  destruct (_ || _); [by eapply IH|]. destruct (jeqb _ _); [|by eapply IH]. to_prop.
  rewrite (proj2 (Z.ltb_lt _ _)) in Ho by done. by eapply IH.
Qed.

Lemma drop_while_nil p s : drop_while p s = [] ↔ Forall (λ c, p c = true) s.
Proof.
  induction s as [|c s IH]; cbn [drop_while]; [done|]. rewrite Forall_cons. destruct (p c); [tauto|naive_solver].
Qed.

(** Only white space trims to nothing. *)
Lemma trim_nil s : trim s = [] ↔ Forall (λ c, is_space c = true) s.
Proof.
  unfold trim, trim_end. split.
  - intros H. apply (f_equal (@rev Z)) in H. rewrite rev_involutive in H. apply drop_while_nil in H.
    apply Forall_rev in H. rewrite rev_involutive in H. revert H.
    induction s as [|c s IH]; [done|]. cbn [drop_while]. destruct (is_space c) eqn:E; [|done].
    intros H. constructor; auto.
  - intros H. rewrite (proj2 (drop_while_nil _ _) H). done.
Qed.

Lemma trim_app_nonempty a b : trim a ≠ [] → trim (a ++ b) ≠ [].
Proof. rewrite !trim_nil, Forall_app. tauto. Qed.

Lemma body_kept inner : ∀ t cur rest, in_body t 0 → trim cur ≠ [] →
  Forall (λ s, no_semi s ∧ balanced 0 (words s) = true) inner →
  ∃ t', in_body t' 0 ∧ (triggerEndMayClose t = true → triggerEndMayClose t' = true) ∧
    splitTokens t cur (join_semi inner ++ rest) = splitTokens t' (cur ++ print_all (join_semi inner)) rest.
Proof.
  induction inner as [|s inner IH]; intros t cur rest Hin Hcur Hall.
  { exists t. rewrite app_nil_r. done. }
  apply Forall_cons in Hall as [[Hsemi Hbal] Hall].
  change (join_semi (s :: inner)) with ((s ++ [TSemi]) ++ join_semi inner). rewrite <- !app_assoc.
  rewrite splitTokens_plain by done. cbn [app splitTokens].
  pose proof (track_balanced s t 0 Hin Hbal) as Hin'.
  assert (semicolonInTrigger (track t s) (trim (cur ++ print_all s)) = true) as ->.
  { destruct Hin' as (H1 & H2 & _ & H4). unfold semicolonInTrigger. rewrite H1, H2, H4.
    by rewrite (proj2 (jeqb_neq _ _)) by by apply trim_app_nonempty. }
  assert (in_body (allowClose (track t s)) 0) as Hin2 by apply Hin'.
  destruct (IH (allowClose (track t s)) ((cur ++ print_all s) ++ [59]) rest Hin2) as (t' & H1 & H2 & H3);
    [by rewrite <- app_assoc; apply trim_app_nonempty|done|].
  exists t'. split_and!; [done|auto|]. rewrite H3. f_equal. unfold print_all. by rewrite !flat_map_app, <- !app_assoc.
Qed.

(** The tracker of a statement that has just entered the body of a trigger. *)
Definition enters_body (ts : list token) : Prop :=
  let t := track createStatementTracker ts in in_body t 0 ∧ triggerEndMayClose t = true.

(** ** Properties *)

(** C37. The scan over characters splits SQL text as its tokens say: text printed from any
    sequence of quoted strings and identifiers (with doubled quotes), bracketed names, line
    and block comments, words and other characters is cut exactly where the token-level
    description puts a statement's end, so never inside a quotation or a comment. *)
Theorem split_follows_tokens ts : tokens_ok ts = true →
  splitSqlStatements (print_all ts) = splitTokens createStatementTracker [] ts.
Proof. intros H. unfold splitSqlStatements. by apply splitFrom_tokens. Qed.

Lemma split_follows_tokens_witness :
  splitSqlStatements (js "SELECT 'a;''b';/*;*/x") = [js "SELECT 'a;''b'"; js "/*;*/x"].
Proof.
  apply (split_follows_tokens [TWord (js "SELECT"); TOther 32; TQuote SingleQuote 39 (js "a;'b"); TSemi;
           TBlock (js ";"); TWord (js "x")]).
  vm_compute. reflexivity.
Defined.

(** Statements that do not start as a CREATE TRIGGER are split at every semicolon between
    them: each comes out trimmed, in order, and blank ones are dropped. *)
Lemma split_at_semicolons stmts last :
  Forall (λ s, no_semi s ∧ isTrigger (track createStatementTracker s) = false) stmts → no_semi last →
  tokens_ok (join_semi stmts ++ last) = true →
  splitSqlStatements (print_all (join_semi stmts ++ last)) = flat_map (λ s, statement_of (print_all s)) (stmts ++ [last]).
Proof.
  intros Hs Hl Hok. unfold splitSqlStatements. rewrite splitFrom_tokens by done. clear Hok.
  induction Hs as [|s stmts [Hn Ht] Hs IH].
  - cbn [join_semi map concat app flat_map]. rewrite <- (app_nil_r last) at 1. rewrite splitTokens_plain by done.
    by rewrite app_nil_r.
  - change (join_semi (s :: stmts)) with ((s ++ [TSemi]) ++ join_semi stmts). rewrite <- !app_assoc.
    rewrite splitTokens_plain by done. cbn [app splitTokens].
    assert (semicolonInTrigger (track createStatementTracker s) (trim (print_all s)) = false) as ->.
    { unfold semicolonInTrigger. rewrite Ht. by rewrite andb_false_r. }
    by rewrite IH.
Qed.

(** A CREATE TRIGGER is one statement: from its BEGIN on, the semicolons of its inner
    statements, with nested CASE ... END inside them, do not split it; it ends with the
    semicolon after its own END. *)
Lemma trigger_body_not_split head inner last rest :
  no_semi head → enters_body head → trim (print_all head) ≠ [] →
  Forall (λ s, no_semi s ∧ balanced 0 (words s) = true) inner → no_semi last → words last = [js "END"] →
  let ts := head ++ join_semi inner ++ last in
  tokens_ok (ts ++ TSemi :: rest) = true →
  splitSqlStatements (print_all (ts ++ TSemi :: rest)) =
  trim (print_all ts) :: splitTokens createStatementTracker [] rest.
Proof.
  intros Hh [Hin Hmc] Htrim Hinner Hlast Hend ts Hok. unfold splitSqlStatements. rewrite splitFrom_tokens by done.
  subst ts. rewrite <- !app_assoc, splitTokens_plain by done. cbn [app].
  destruct (body_kept inner (track createStatementTracker head) (print_all head) (last ++ TSemi :: rest) Hin Htrim Hinner)
    as (t' & Hin' & Hmc' & ->).
  rewrite splitTokens_plain by done. cbn [splitTokens].
  assert (triggerEndSeen (track t' last) = true) as Hseen.
  { unfold track. rewrite Hend. cbn [fold_left]. pose proof (observe_in_body t' 0 (js "END") Hin') as Ho.
    change (jeqb (to_lower (js "END")) (js "case") || jeqb (to_lower (js "END")) (js "begin")) with false in Ho.
    change (jeqb (to_lower (js "END")) (js "end")) with true in Ho. cbn in Ho. destruct Ho as [_ ->]. auto. }
  set (text := (print_all head ++ print_all (join_semi inner)) ++ print_all last).
  assert (semicolonInTrigger (track t' last) (trim text) = false) as ->.
  { unfold semicolonInTrigger. rewrite Hseen. by rewrite andb_false_r. }
  assert (print_all (head ++ join_semi inner ++ last) = text) as ->.
  { unfold text, print_all. by rewrite !flat_map_app, app_assoc. }
  unfold statement_of. assert (trim text ≠ []) as Hne by (unfold text; rewrite <- app_assoc; by apply trim_app_nonempty).
  by destruct (trim text).
Qed.
