(* ===== verification/D1ReadCache.v ===== *)
(** * The D1 read cache

    Models src/d1-runtime/read-cache.js: which queries may be cached, the cache key, and the
    operations of [D1ReadCache] on a cache value. [Date.now()] is an argument, a [Symbol] is
    a number that is never used twice, metrics have no state here. [JSON.stringify] is a
    parameter because a bound parameter may be any double. *)

From stdpp Require Import base list strings gmap.
From Stdlib Require Import ZArith Lia.
From S2P Require Import Prelude JsMap NsPattern Utf8 Json JsNumber.

#[local] Open Scope Z_scope.

Definition DEFAULT_READ_CACHE_TTL_MS : Z := 10000.
Definition DEFAULT_READ_CACHE_MAX_ENTRIES : Z := 128.
Definition DEFAULT_READ_CACHE_MAX_BYTES : Z := 64 * 1024 * 1024.
Definition MAX_JSON_KEY_RETAINED_BYTES_PER_CODE_UNIT : Z := 12.

(** ** Regular expressions over words

    [\b(?:a|b)\b] finds a keyword exactly when it is one of the maximal runs of word
    characters; the comparison ignores the case of ASCII letters. *)

Definition is_word (c : Z) : bool := is_alnum c || is_underscore c.

(** The maximal runs of word characters, each with the text that follows it. *)
Fixpoint word_runs (s : jstr) : list (jstr * jstr) :=
  match s with
  | [] => []
  | c :: r =>
      if is_word c then
        match r with
        | d :: _ =>
            if is_word d then
              match word_runs r with (w, after) :: ws => (c :: w, after) :: ws | [] => [([c], r)] end
            else ([c], r) :: word_runs r
        | [] => [([c], [])]
        end
      else word_runs r
  end.

Definition has_keyword (keywords : list jstr) (s : jstr) : bool :=
  existsb (λ p : jstr * jstr, set_has keywords (to_lower p.1)) (word_runs s).

Definition write_keywords : list jstr :=
  map js ["insert"; "update"; "delete"; "replace"; "create"; "drop"; "alter"; "pragma"; "vacuum"; "attach";
          "detach"; "reindex"; "begin"; "commit"; "rollback"; "savepoint"; "release"; "analyze"].

Definition WRITE_SQL_RE (s : jstr) : bool := has_keyword write_keywords s.

Definition volatile_functions : list jstr :=
  map js ["random"; "randomblob"; "changes"; "total_changes"; "last_insert_rowid"; "date"; "time"; "datetime";
          "julianday"; "strftime"; "unixepoch"].

(** [\s*\(] at the start. *)
Definition opens_call (s : jstr) : bool :=
  match drop_while is_space s with c :: _ => c =? 40 | [] => false end.

Definition VOLATILE_READ_SQL_RE (s : jstr) : bool :=
  existsb (λ p : jstr * jstr, set_has volatile_functions (to_lower p.1) && opens_call p.2) (word_runs s)
  || has_keyword (map js ["current_timestamp"; "current_date"; "current_time"]) s.

(** [^(?:select|with)\b] on trimmed text. *)
Definition starts_as_read (trimmed : jstr) : bool :=
  match trimmed, word_runs trimmed with
  | c :: _, (w, _) :: _ => is_word c && set_has (map js ["select"; "with"]) (to_lower w)
  | _, _ => false
  end.

Definition statementMayChangeDb (sql : jstr) : bool := WRITE_SQL_RE (trim sql).

(** ** Idempotent schema statements *)

Definition hasNonTrailingStatementSeparator (sql : jstr) : bool :=
  let trimmed := trim_end is_space sql in
  let body := if ends_with (js ";") trimmed then take (length trimmed - 1) trimmed else trimmed in
  includes_unit 59 body.

(** [\s+], a keyword in any case: what is left of the text after a match. *)
Definition skip_spaces (s : jstr) : option jstr :=
  match s with c :: _ => if is_space c then Some (drop_while is_space s) else None | [] => None end.
Definition skip_keyword (w : string) (s : jstr) : option jstr :=
  if starts_with (js w) (to_lower s) then Some (drop (length (js w)) s) else None.

(** [(?:qq|[^q])+q]: the text up to the closing quote and what follows it. A quote that is
    followed by another one cannot be the closing one, because white space, a parenthesis or
    the end must follow the name. *)
Fixpoint quoted_rest (q : Z) (s : jstr) : option (jstr * jstr) :=
  match s with
  | [] => None
  | c :: r =>
      if c =? q then
        match r with
        | d :: r' => if d =? q then p ← quoted_rest q r'; Some (c :: d :: p.1, p.2) else Some ([], r)
        | [] => Some ([], [])
        end
      else p ← quoted_rest q r; Some (c :: p.1, p.2)
  end.

(** The name of the second group and what follows it. *)
Definition sql_name (s : jstr) : option (jstr * jstr) :=
  let quoted open close rest :=
    p ← quoted_rest close rest; if jeqb p.1 [] then None else Some (open :: p.1 ++ [close], p.2) in
  match s with
  | [] => None
  | c :: rest =>
      if c =? 34 then quoted 34 34 rest
      else if c =? 96 then quoted 96 96 rest
      else if c =? 91 then quoted 91 93 rest
      else if is_alpha c || is_underscore c then
        let part c := is_alnum c || is_underscore c || is_dollar c in
        let after := drop_while part rest in
        Some (take (length s - length after) s, after)
      else None
  end.

(** The groups of [IDEMPOTENT_SCHEMA_DDL_RE]: is it an index, and the name. *)
Definition IDEMPOTENT_SCHEMA_DDL_RE (sql : jstr) : option (bool * jstr) :=
  s ← skip_keyword "create" (drop_while is_space sql);
  s ← skip_spaces s;
  '(index, s) ←
    match skip_keyword "table" s with
    | Some s => Some (false, s)
    | None =>
        let unique := s ← skip_keyword "unique" s; skip_spaces s in
        s ← skip_keyword "index" (default s unique); Some (true, s)
    end;
  s ← skip_spaces s; s ← skip_keyword "if" s;
  s ← skip_spaces s; s ← skip_keyword "not" s;
  s ← skip_spaces s; s ← skip_keyword "exists" s;
  s ← skip_spaces s;
  '(name, after) ← sql_name s;
  match after with
  | c :: _ => if is_space c || (c =? 40) then Some (index, name) else None
  | [] => Some (index, name)
  end.

(** [text.replaceAll(qq, q)] *)
Fixpoint undouble (q : Z) (s : jstr) : jstr :=
  match s with
  | c :: ((d :: r) as t) => if (c =? q) && (d =? q) then q :: undouble q r else c :: undouble q t
  | _ => s
  end.

Definition unquoteSqlIdentifier (identifier : jstr) : jstr :=
  let inner := take (length identifier - 2) (drop 1 identifier) in
  let is_quoted open close := starts_with [open] identifier && ends_with [close] identifier in
  if is_quoted 34 34 then undouble 34 inner
  else if is_quoted 96 96 then undouble 96 inner
  else if is_quoted 91 93 then undouble 93 inner
  else identifier.

(** Is it an index, and its name. *)
Definition parseIdempotentSchemaDdl (sql : jstr) : option (bool * jstr) :=
  if hasNonTrailingStatementSeparator sql then None
  else '(index, name) ← IDEMPOTENT_SCHEMA_DDL_RE sql; Some (index, unquoteSqlIdentifier name).

Definition statementMayBeIdempotentSchemaDdl (sql : jstr) : bool :=
  match parseIdempotentSchemaDdl sql with Some _ => true | None => false end.

(** ** Configuration *)

Record ReadCacheConfig := Config { ttlMs : Z; maxEntries : Z; maxBytes : Z }.

Definition nonNegativeIntOr (value : jsval) (fallback : Z) : Z :=
  match value with
  | JUndef | JNull | JStr [] => fallback
  | _ => match Number_of value with
         | NInt n => if 0 <=? n then n else fallback
         | _ => fallback
         end
  end.

(** [Number.isInteger(v)] *)
Definition integer_of (v : jsval) : option Z := match v with JNum (NInt n) => Some n | _ => None end.

Definition readCacheConfig (env : list (jstr * jsval)) : ReadCacheConfig :=
  match integer_of (obj_get (js "ttlMs") env), integer_of (obj_get (js "maxEntries") env) with
  | Some ttl, Some entries =>
      Config ttl entries
        match integer_of (obj_get (js "maxBytes") env) with Some n => n | None => DEFAULT_READ_CACHE_MAX_BYTES end
  | _, _ =>
      Config (nonNegativeIntOr (obj_get (js "D1_READ_CACHE_TTL_MS") env) DEFAULT_READ_CACHE_TTL_MS)
        (nonNegativeIntOr (obj_get (js "D1_READ_CACHE_MAX_ENTRIES") env) DEFAULT_READ_CACHE_MAX_ENTRIES)
        (nonNegativeIntOr (obj_get (js "D1_READ_CACHE_MAX_BYTES") env) DEFAULT_READ_CACHE_MAX_BYTES)
  end.

(** ** Queries and keys *)

Record statement := Statement { s_sql : jstr; s_params : list jsval }.
Record ReadCacheQuery := Query { q_dbKey : jstr; q_mode : jstr; q_statements : list statement }.
Record ReadCacheOwner := Owner { o_taskId : jstr; o_dbKey : jstr; o_generation : Z }.

Definition is_bytes (v : jsval) : bool := match v with JBytes _ => true | _ => false end.

Definition isReadCacheableQuery (query : ReadCacheQuery) (config : ReadCacheConfig) : bool :=
  if (ttlMs config <=? 0) || (maxEntries config <=? 0) || (maxBytes config <=? 0) then false
  else if negb (jeqb (q_mode query) (js "all")) && negb (jeqb (q_mode query) (js "raw")) then false
  else match q_statements query with
       | [st] =>
           if existsb is_bytes (s_params st) then false
           else
             let trimmed := trim (s_sql st) in
             if negb (starts_as_read trimmed) then false
             else negb (statementMayChangeDb trimmed || VOLATILE_READ_SQL_RE trimmed)
       | _ => false
       end.

Definition statement_json (s : statement) : jsval :=
  JObj [(js "sql", JStr (s_sql s)); (js "params", JArr (s_params s))].

(** [owner.dbKey || query.dbKey] *)
Definition key_scope (query : ReadCacheQuery) (owner : ReadCacheOwner) : jstr :=
  match o_dbKey owner with [] => q_dbKey query | k => k end.

Definition key_json (query : ReadCacheQuery) (owner : ReadCacheOwner) : jsval :=
  JObj [(js "dbKey", match key_scope query owner with [] => JNull | k => JStr k end);
        (js "generation", JNum (NInt (o_generation owner)));
        (js "mode", JStr (q_mode query));
        (js "statements", JArr (map statement_json (q_statements query)))].

(** What [consume] takes off for a value; [None] once the budget is gone. *)
Definition consume (remaining : option Z) (value : jsval) : option Z :=
  r ← remaining;
  match value with
  | JStr s => let r := r - jlen s in if 0 <=? r then Some r else None
  | _ => Some r
  end.

Definition cacheKeyStringsCouldFit (query : ReadCacheQuery) (owner : ReadCacheOwner) (maxBytes : Z) : bool :=
  let remaining := Some (maxBytes / MAX_JSON_KEY_RETAINED_BYTES_PER_CODE_UNIT) in
  let remaining := consume (consume remaining (JStr (key_scope query owner))) (JStr (q_mode query)) in
  let remaining := fold_left (λ r st, fold_left consume (s_params st) (consume r (JStr (s_sql st))))
                     (q_statements query) remaining in
  match remaining with Some _ => true | None => false end.

(** ** The cache *)

Record ReadCacheEntry := Entry { e_expiresAt : Z; e_bytes : list Z; e_size : Z; e_valueEncoding : option jstr }.
Record ReadCacheToken := Token { t_epoch : nat; t_version : Z; t_expiresAt : Z }.

Record D1ReadCache := Cache {
  config : ReadCacheConfig; entries : jmap jstr ReadCacheEntry; retainedBytes : Z;
  mutationVersion : Z; epoch : nat }.

Definition newCache (config : ReadCacheConfig) (symbol : nat) : D1ReadCache := Cache config [] 0 0 symbol.

Definition with_entries (c : D1ReadCache) (es : jmap jstr ReadCacheEntry) (retained : Z) : D1ReadCache :=
  Cache (config c) es retained (mutationVersion c) (epoch c).

Definition deleteEntry (key : jstr) (c : D1ReadCache) : D1ReadCache :=
  match jm_get key (entries c) with
  | None => c
  | Some entry => with_entries c (jm_delete key (entries c)) (retainedBytes c - e_size entry)
  end.

(** The iteration of [purgeExpired]; a [Map] iterator goes on past deleted entries. *)
Definition purgeExpired (now : Z) (c : D1ReadCache) : D1ReadCache :=
  fold_left (λ c ke, if e_expiresAt ke.2 <=? now then deleteEntry ke.1 c else c) (entries c) c.

Record ReadCacheBegin := Begun { b_hit : option ReadCacheEntry; b_token : option ReadCacheToken }.
Definition bypass : ReadCacheBegin := Begun None None.

Section keys.
Variable JSON_stringify : jsval → jstr.

Definition readCacheKey (query : ReadCacheQuery) (owner : ReadCacheOwner) : jstr :=
  JSON_stringify (key_json query owner).

Definition beginRead (query : ReadCacheQuery) (owner : ReadCacheOwner) (now : Z) (c : D1ReadCache)
    : D1ReadCache * ReadCacheBegin :=
  if negb (isReadCacheableQuery query (config c)) then (c, bypass)
  else
    let c := purgeExpired now c in
    if negb (cacheKeyStringsCouldFit query owner (maxBytes (config c))) then (c, bypass)
    else
      let key := readCacheKey query owner in
      if maxBytes (config c) <? jlen key * 2 then (c, bypass)
      else match jm_get key (entries c) with
           | None => (c, Begun None (Some (Token (epoch c) (mutationVersion c) (now + ttlMs (config c)))))
           | Some entry =>
               (with_entries c (jm_touch key entry (entries c)) (retainedBytes c), Begun (Some entry) None)
           end.

(** The eviction loop: the oldest entry goes while a bound is exceeded. *)
Fixpoint evict (config : ReadCacheConfig) (es : jmap jstr ReadCacheEntry) (retained : Z)
    : jmap jstr ReadCacheEntry * Z :=
  match es with
  | [] => (es, retained)
  | (_, e) :: rest =>
      if (maxEntries config <? Z.of_nat (length es)) || (maxBytes config <? retained)
      then evict config rest (retained - e_size e)
      else (es, retained)
  end.

Definition finishRead (token : option ReadCacheToken) (query : ReadCacheQuery) (owner : ReadCacheOwner)
    (bytes : list Z) (valueEncoding : option jstr) (c : D1ReadCache) : D1ReadCache * bool :=
  match token with
  | None => (c, false)
  | Some token =>
      if negb (t_epoch token =? epoch c)%nat || negb (t_version token =? mutationVersion c)
         || negb (cacheKeyStringsCouldFit query owner (maxBytes (config c)))
      then (c, false)
      else
        let key := readCacheKey query owner in
        let size := jlen key * 2 + Z.of_nat (length bytes) in
        if maxBytes (config c) <? size then (c, false)
        else
          let c := deleteEntry key c in
          let '(es, retained) := evict (config c)
                                   (jm_set key (Entry (t_expiresAt token) bytes size valueEncoding) (entries c))
                                   (retainedBytes c + size) in
          (with_entries c es retained, true)
  end.
End keys.

Definition retire (symbol : nat) (c : D1ReadCache) : D1ReadCache :=
  Cache (config c) [] 0 (mutationVersion c) symbol.

Definition invalidate (c : D1ReadCache) : D1ReadCache :=
  Cache (config c) [] 0 (mutationVersion c + 1) (epoch c).

Example classification :
  let query sql := Query (js "acme:db") (js "all") [Statement (js sql) []] in
  let cfg := readCacheConfig [] in
  map (λ s, isReadCacheableQuery (query s) cfg)
    ["  SELECT updated FROM t"; "select update from t"; "select DateTime ('now')"; "select datetimes(1)";
     "with x as (select 1) select * from x"; "selects"; "select CURRENT_TIME"; "insert into t values (1)"]
  = [true; false; false; true; true; false; false; false].
Proof. vm_compute. reflexivity. Qed.

Example schema_ddl :
  map (λ s, parseIdempotentSchemaDdl (dq s))
    [" CREATE TABLE if not exists t(a);"; "create unique  index IF NOT EXISTS 'my ''i' on t (a)";
     "create table if not exists [a]]b] (x)"; "create table t (a)"; "create table if not exists 't'x"; "create table if not exists t (a); drop table t"]
  = [Some (false, js "t"); Some (true, dq "my 'i"); Some (false, js "a]b"); None; None; None].
Proof. vm_compute. reflexivity. Qed.

(** ** The cache keeps its bounds *)

Definition sizes (es : jmap jstr ReadCacheEntry) : Z := foldr (λ ke n, e_size ke.2 + n) 0 es.

Record cache_ok (c : D1ReadCache) : Prop := {
  co_keys : jm_wf (entries c);
  co_bytes : retainedBytes c = sizes (entries c);
  co_sizes : Forall (λ ke, 0 <= e_size ke.2) (entries c);
  co_count : Z.of_nat (length (entries c)) <= Z.max 0 (maxEntries (config c));
  co_budget : retainedBytes c <= Z.max 0 (maxBytes (config c)) }.

Lemma sizes_app a b : sizes (a ++ b) = sizes a + sizes b.
Proof. unfold sizes. induction a as [|ke a IH]; simpl; [done|]. rewrite IH. lia. Qed.

Lemma sizes_nonneg es : Forall (λ ke, 0 <= e_size ke.2) es → 0 <= sizes es.
Proof. unfold sizes. induction 1; simpl; lia. Qed.

Lemma sizes_delete k es : jm_wf es →
  sizes (jm_delete k es) = sizes es - match jm_get k es with Some e => e_size e | None => 0 end.
Proof.
  induction es as [|[k' e] es IH]; intros Hwf; [done|]. cbn [jm_delete jm_get].
  apply NoDup_cons in Hwf as Hwf'. destruct Hwf' as [Hn Hwf']. case_decide as E.
  - subst k'. rewrite jm_delete_absent by done. unfold sizes. cbn [foldr snd]. lia.
  - change (e_size e + sizes (jm_delete k es) = e_size e + sizes es - match jm_get k es with Some e => e_size e | None => 0 end).
    rewrite IH by done. lia.
Qed.

Lemma deleteEntry_ok k c : cache_ok c → cache_ok (deleteEntry k c).
Proof.
  intros [H1 H2 H3 H4 H5]. unfold deleteEntry. destruct (jm_get k (entries c)) as [e|] eqn:E; [|done].
  assert (0 <= e_size e) as He.
  { apply jm_get_elem in E. rewrite Forall_forall in H3. by apply (H3 (k, e)). }
  split; cbn [with_entries entries retainedBytes config].
  - by apply jm_wf_delete.
  - rewrite sizes_delete, E by done. lia.
  - by apply jm_Forall_delete.
  - pose proof (jm_delete_length k (entries c)). unfold jm_size in *. lia.
  - lia.
Qed.

Lemma deleteEntry_get k k' c : jm_get k (entries (deleteEntry k' c)) = if decide (k = k') then None else jm_get k (entries c).
Proof.
  unfold deleteEntry. destruct (jm_get k' (entries c)) eqn:E.
  - cbn [with_entries entries]. apply jm_get_delete.
  - case_decide; [by subst|done].
Qed.

Lemma deleteEntry_frame k c : config (deleteEntry k c) = config c ∧ mutationVersion (deleteEntry k c) = mutationVersion c
  ∧ epoch (deleteEntry k c) = epoch c.
Proof. unfold deleteEntry. by destruct (jm_get k (entries c)). Qed.

(** Purging only deletes, and what is left has not expired. *)
Lemma purge_spec now c : cache_ok c → let c' := purgeExpired now c in
  cache_ok c' ∧ config c' = config c ∧ mutationVersion c' = mutationVersion c ∧ epoch c' = epoch c ∧
  ∀ k e, jm_get k (entries c') = Some e → jm_get k (entries c) = Some e ∧ now < e_expiresAt e.
Proof.
  intros Hok. cbn zeta. unfold purgeExpired.
  set (f := λ c ke, if e_expiresAt ke.2 <=? now then deleteEntry ke.1 c else c).
  assert (∀ l c0, cache_ok c0 → let c' := fold_left f l c0 in
    cache_ok c' ∧ config c' = config c0 ∧ mutationVersion c' = mutationVersion c0 ∧ epoch c' = epoch c0 ∧
    ∀ k e, jm_get k (entries c') = Some e → jm_get k (entries c0) = Some e ∧ (∀ e', (k, e') ∈ l → now < e_expiresAt e')) as H.
  { induction l as [|[k0 e0] l IH]; intros c0 Hc0; cbn [fold_left].
    { split_and!; [done..|]. intros k e He. split; [done|]. intros e' Hin. by apply not_elem_of_nil in Hin. }
    set (c1 := f c0 (k0, e0)). assert (cache_ok c1) as Hc1.
    { subst c1 f. cbn. destruct (_ <=? _); [by apply deleteEntry_ok|done]. }
    destruct (IH c1 Hc1) as (I1 & I2 & I3 & I4 & I5).
    assert (config c1 = config c0 ∧ mutationVersion c1 = mutationVersion c0 ∧ epoch c1 = epoch c0) as (F1 & F2 & F3).
    { subst c1 f. cbn. destruct (_ <=? _); [apply deleteEntry_frame|done]. }
    split_and!; [done|congruence..|]. intros k e He. apply I5 in He as [He Hl].
    assert (jm_get k (entries c0) = Some e ∧ (k = k0 → now < e_expiresAt e0)) as [Hk Hexp].
    { subst c1 f. cbn in He. destruct (Z.leb_spec (e_expiresAt e0) now); [|by split].
      rewrite deleteEntry_get in He. case_decide; [done|]. by split. }
    split; [done|]. intros e' Hin. apply elem_of_cons in Hin as [[= -> ->]|Hin]; auto. }
  destruct (H (entries c) c Hok) as (I1 & I2 & I3 & I4 & I5). split_and!; try done.
  intros k e He. apply I5 in He as [He Hl]. split; [done|]. apply Hl. by apply jm_get_elem.
Qed.

Lemma evict_spec cfg es retained : retained = sizes es → Forall (λ ke, 0 <= e_size ke.2) es →
  ∃ gone kept, es = gone ++ kept ∧ evict cfg es retained = (kept, sizes kept) ∧
    Z.of_nat (length kept) <= Z.max 0 (maxEntries cfg) ∧ sizes kept <= Z.max 0 (maxBytes cfg).
Proof.
  revert retained. induction es as [|[k e] es IH]; intros retained Hr Hs.
  { exists [], []. cbn. subst. split_and!; [done..|lia|lia]. }
  cbn [evict]. destruct (_ || _) eqn:E.
  - apply Forall_cons in Hs as [_ Hs]. destruct (IH (retained - e_size e)) as (g & kp & -> & -> & H); [subst; unfold sizes; cbn [foldr snd]; lia|done|].
    exists ((k, e) :: g), kp. by split_and!; try apply H.
  - to_prop. exists [], ((k, e) :: es). subst retained. split_and!; [done|done|lia|lia].
Qed.

(** What an operation leaves unchanged. *)
Definition same_frame (c c' : D1ReadCache) : Prop :=
  config c' = config c ∧ mutationVersion c' = mutationVersion c ∧ epoch c' = epoch c.

Section specs.
Variable JSON_stringify : jsval → jstr.
Local Abbreviation readCacheKey := (readCacheKey JSON_stringify).

Lemma beginRead_spec q o now c c' b : cache_ok c → beginRead JSON_stringify q o now c = (c', b) →
  cache_ok c' ∧ same_frame c c' ∧
  (∀ k e, jm_get k (entries c') = Some e → jm_get k (entries c) = Some e) ∧
  (∀ e, b_hit b = Some e → isReadCacheableQuery q (config c) = true ∧
        jm_get (readCacheKey q o) (entries c) = Some e ∧ now < e_expiresAt e) ∧
  (∀ t, b_token b = Some t → isReadCacheableQuery q (config c) = true ∧
        t = Token (epoch c) (mutationVersion c) (now + ttlMs (config c))).
Proof.
  intros Hok. unfold beginRead.
  destruct (isReadCacheableQuery q (config c)) eqn:Eq; cbn [negb]; [|by intros [= <- <-]].
  destruct (purge_spec now c Hok) as (Pok & Pc & Pv & Pe & Pget). set (c1 := purgeExpired now c) in *.
  assert (same_frame c c1) as Hf by done.
  assert (∀ k e, jm_get k (entries c1) = Some e → jm_get k (entries c) = Some e) as Hsub by (intros k e He; by apply Pget).
  destruct (negb _); [intros [= <- <-]; by split_and!|].
  destruct (_ <? _); [intros [= <- <-]; by split_and!|].
  destruct (jm_get (readCacheKey q o) (entries c1)) as [e|] eqn:Ee.
  - intros [= <- <-]. destruct (Pget _ _ Ee) as [Eold Hexp]. split_and!.
    + destruct Pok as [H1 H2 H3 H4 H5]. split; cbn [with_entries entries retainedBytes config]; try done.
      * by apply jm_wf_touch.
      * rewrite jm_touch_eq, sizes_app, sizes_delete, Ee by done. rewrite H2. unfold sizes at 3. cbn [foldr snd]. lia.
      * apply jm_Forall_touch; [|done]. rewrite Forall_forall in H3. apply (H3 (_, e)). by apply jm_get_elem.
      * pose proof (jm_size_touch_present (readCacheKey q o) e e (entries c1)) as Hsz. unfold jm_size in Hsz.
        by rewrite Hsz.
    + done.
    + intros k e' He. cbn [with_entries entries] in He. rewrite jm_get_touch in He. case_decide; [|auto]. by simplify_eq.
    + intros e' [= <-]. done.
    + done.
  - intros [= <- <-]. split_and!; try done. intros t [= <-]. split; [done|]. by rewrite Pc, Pv, Pe.
Qed.

Lemma finishRead_spec tok q o bytes enc c c' b : cache_ok c →
  finishRead JSON_stringify tok q o bytes enc c = (c', b) →
  cache_ok c' ∧ same_frame c c' ∧ (b = false → c' = c) ∧
  (∀ k e, jm_get k (entries c') = Some e → jm_get k (entries c) = Some e ∨
     k = readCacheKey q o ∧ e_bytes e = bytes ∧ e_valueEncoding e = enc ∧
     ∃ t, tok = Some t ∧ t_epoch t = epoch c ∧ t_version t = mutationVersion c ∧ e_expiresAt e = t_expiresAt t).
Proof.
  intros Hok. unfold finishRead. destruct tok as [t|]; [|intros [= <- <-]; split_and!; [done|done|done|auto]].
  destruct (_ || _) eqn:Eb; [intros [= <- <-]; split_and!; [done|done|done|auto]|]. to_prop.
  match goal with H : (t_epoch t =? epoch c)%nat = true |- _ => apply Nat.eqb_eq in H; rename H into Hepoch end.
  set (key := readCacheKey q o). set (size := jlen key * 2 + Z.of_nat (length bytes)).
  destruct (_ <? _); [intros [= <- <-]; split_and!; [done|done|done|auto]|].
  pose proof (deleteEntry_ok key c Hok) as Hd. pose proof (deleteEntry_frame key c) as (Fc & Fv & Fe).
  set (e := Entry (t_expiresAt t) bytes size enc). set (c1 := deleteEntry key c) in *.
  assert (0 <= size) as Hsize by (unfold size, jlen; lia).
  assert (jm_set key e (entries c1) = entries c1 ++ [(key, e)]) as Eset.
  { apply jm_set_absent, jm_get_None. subst c1. rewrite deleteEntry_get. by case_decide. }
  destruct (evict_spec (config c1) (jm_set key e (entries c1)) (retainedBytes c1 + size)) as (gone & kept & Ekept & -> & Hn & Hb).
  { rewrite Eset, sizes_app, (co_bytes _ Hd). unfold sizes at 3. cbn [foldr snd]. subst e. cbn. lia. }
  { apply jm_Forall_set; [done|]. apply (co_sizes _ Hd). }
  intros [= <- <-]. split_and!; [|done|done|].
  - pose proof (jm_wf_set key e _ (co_keys _ Hd)) as Hwf. rewrite Ekept in Hwf.
    assert (Forall (λ ke : jstr * ReadCacheEntry, 0 <= e_size ke.2) (gone ++ kept)) as Hs.
    { rewrite <- Ekept. apply jm_Forall_set; [done|]. apply (co_sizes _ Hd). }
    split; cbn [with_entries entries retainedBytes config]; [|done| |done|done].
    + rewrite <- (drop_app_length gone kept). by apply jm_wf_drop.
    + by apply Forall_app in Hs as [_ ?].
  - intros k e' He. cbn [with_entries entries] in He.
    assert (jm_get k (jm_set key e (entries c1)) = Some e') as Hg.
    { rewrite Ekept. rewrite <- (drop_app_length gone kept) in He. eapply jm_get_drop; [|exact He].
      rewrite <- Ekept. by apply jm_wf_set, (co_keys _ Hd). }
    rewrite jm_get_set in Hg. case_decide as Ek.
    + injection Hg as <-. right. subst k. split_and!; [done..|]. by exists t.
    + left. subst c1. rewrite deleteEntry_get in Hg. by case_decide.
Qed.

(** ** Properties *)

(** C40. The cache stays within its bounds through every operation: at most [maxEntries]
    entries, at most [maxBytes] retained bytes, and the retained byte count is the sum of
    the sizes of the entries. A hit is an entry stored under the key of the query that has
    not expired, for a query that may be cached. *)
Theorem read_cache_bounded q o now tok bytes enc symbol c : cache_ok c →
  (∀ c' b, beginRead JSON_stringify q o now c = (c', b) → cache_ok c' ∧
     ∀ e, b_hit b = Some e → isReadCacheableQuery q (config c) = true ∧
       jm_get (readCacheKey q o) (entries c) = Some e ∧ now < e_expiresAt e) ∧
  cache_ok (finishRead JSON_stringify tok q o bytes enc c).1 ∧
  cache_ok (invalidate c) ∧ entries (invalidate c) = [] ∧ cache_ok (retire symbol c) ∧ cache_ok (newCache (config c) symbol).
Proof.
  intros Hok. split_and!.
  - intros c' b E. apply beginRead_spec in E as (H1 & _ & _ & H2 & _); done.
  - destruct (finishRead JSON_stringify tok q o bytes enc c) as [c' b] eqn:E.
    by apply finishRead_spec in E as (H1 & _).
  - split; cbn; [apply jm_wf_nil|done|constructor|lia|lia].
  - done.
  - split; cbn; [apply jm_wf_nil|done|constructor|lia|lia].
  - split; cbn; [apply jm_wf_nil|done|constructor|lia|lia].
Qed.
End specs.

Lemma read_cache_bounded_witness :
  let JSON v := default [] (stringify v) in
  let q := Query (js "acme:db") (js "all") [Statement (js "select 1") []] in
  let o := Owner (js "t1") (js "acme:db") 3 in
  let c0 := newCache (Config 10000 1 200) 0 in
  cache_ok (finishRead JSON (Some (Token 0 0 10000)) q o [1; 2; 3] None c0).1.
Proof.
  apply (read_cache_bounded (λ v, default [] (stringify v)) (Query (js "acme:db") (js "all") [Statement (js "select 1") []])
           (Owner (js "t1") (js "acme:db") 3) 0 (Some (Token 0 0 10000)) [1; 2; 3] None 1 (newCache (Config 10000 1 200) 0)).
  split; cbn; [apply jm_wf_nil | reflexivity | constructor | lia | lia].
Defined.
