(* ===== verification/D1Wire.v ===== *)
(** * The D1 query wire format

    Models src/shared/d1-query-wire.js, [normalizeD1WireParam] of src/shared/d1-params.js and
    [setDataField] of src/shared/d1-data-field.js: the encoder, which plans its parts and
    patches the length of a message when it ends, and the decoder of requests and responses.

    A number is the bit pattern of its double. A reader is the bytes between its offset and
    its end. The fields of a request that the encoder passes through [String] are strings or
    missing. *)

From stdpp Require Import base list strings sets.
From Stdlib Require Import ZArith Lia.
From S2P Require Import Prelude Utf8.

#[local] Open Scope Z_scope.
#[local] Open Scope wdl_scope.

Inductive wire_error :=
| InvalidVarint | SizeMismatch | ArrayTooLong
| D1TypeError | D1LimitError | NonFinite | UnsupportedValue
| TruncatedVarint | TruncatedField | UnsupportedWireType | EmptyParam | MixedKinds | EmptyValue | OutOfFuel.

(** ** Values *)

(** [VBig]: a BigInt; [VOther]: a value of any other type (a function, a symbol, an object
    that is not plain). *)
Inductive d1value :=
| VUndef
| VNull
| VBool (b : bool)
| VNum (bits : Z)
| VBig (z : Z)
| VStr (s : jstr)
| VBytes (b : list Z)
| VArr (l : list d1value)
| VObj (fields : list (jstr * d1value))
| VOther.

(** ** Doubles as bit patterns *)

Definition exponent_bits (bits : Z) : Z := bits / 2 ^ 52 mod 2 ^ 11.
Definition mantissa_bits (bits : Z) : Z := bits mod 2 ^ 52.

(** [Number.isFinite] *)
Definition is_finite (bits : Z) : bool := negb (exponent_bits bits =? 2047).

Definition NEGATIVE_ZERO : Z := 2 ^ 63.

(** The double of an integer of at most 53 bits. *)
Definition double_of_Z (n : Z) : Z :=
  if n =? 0 then 0
  else
    let m := Z.abs n in
    let e := Z.log2 m in
    (if n <? 0 then 2 ^ 63 else 0) + (e + 1023) * 2 ^ 52 + (m - 2 ^ e) * 2 ^ (52 - e).

(** The integer a finite double stands for, if it is one. *)
Definition integer_of_double (bits : Z) : option Z :=
  let e := exponent_bits bits in
  let m := mantissa_bits bits in
  let sign := if 2 ^ 63 <=? bits then -1 else 1 in
  if e <? 1023 then (if (e =? 0) && (m =? 0) then Some 0 else None)
  else if e =? 2047 then None
  else
    let sh := e - 1023 in
    let full := 2 ^ 52 + m in
    if 52 <=? sh then Some (sign * full * 2 ^ (sh - 52))
    else if full mod 2 ^ (52 - sh) =? 0 then Some (sign * (full / 2 ^ (52 - sh))) else None.

(** The eight bytes of a double, little-endian, and back. *)
Fixpoint le_bytes (n : nat) (z : Z) : list Z :=
  match n with O => [] | S n => z mod 256 :: le_bytes n (z / 256) end.
Fixpoint le_value (l : list Z) : Z :=
  match l with [] => 0 | b :: l => b + 256 * le_value l end.

(** ** Parameters (src/shared/d1-params.js) *)

Definition D1_MAX_VALUE_BYTES : Z := 2000000.

Definition assertValueBytes (bytes : Z) : result wire_error unit :=
  if D1_MAX_VALUE_BYTES <? bytes then Err D1LimitError else Ok tt.

(** An element of an array that [Uint8Array.from] is used on. *)
Definition byte_of_value (v : d1value) : option Z :=
  match v with
  | VNum bits => z ← integer_of_double bits; if (0 <=? z) && (z <=? 255) then Some z else None
  | _ => None
  end.

Definition normalizeD1WireParam (value : d1value) : result wire_error d1value :=
  match value with
  | VNum bits => if negb (is_finite bits) then Err D1TypeError else Ok (VNum (if bits =? NEGATIVE_ZERO then 0 else bits))
  | VBig z => if is_safe_integer z then Ok (VNum (double_of_Z z)) else Err D1TypeError
  | VStr s =>
      let! _ := if D1_MAX_VALUE_BYTES <? jlen s * 3 then assertValueBytes (utf8ByteLength s) else Ok tt in Ok (VStr s)
  | VBool b => Ok (VNum (double_of_Z (if b then 1 else 0)))
  | VNull => Ok VNull
  | VUndef => Ok VUndef
  | VArr l =>
      match mapM byte_of_value l with
      | Some bytes => let! _ := assertValueBytes (Z.of_nat (length l)) in Ok (VBytes bytes)
      | None => Err D1TypeError
      end
  | VBytes b => let! _ := assertValueBytes (Z.of_nat (length b)) in Ok (VBytes b)
  | VObj _ | VOther => Err D1TypeError
  end.

(** ** The planned parts *)

Definition WIRE_VARINT : Z := 0.
Definition WIRE_FIXED64 : Z := 1.
Definition WIRE_LEN : Z := 2.

Definition checkedVarint (value : Z) : result wire_error Z :=
  if negb (is_safe_integer value) || (value <? 0) then Err InvalidVarint else Ok value.

(** The loops on [n >= 0x80]; a safe integer has at most eight groups of seven bits. *)
Fixpoint varint_length_from (fuel : nat) (n length : Z) : Z :=
  match fuel with
  | O => length
  | S fuel => if 0x80 <=? n then varint_length_from fuel (n / 0x80) (length + 1) else length
  end.
Definition varintByteLength (value : Z) : Z := varint_length_from 8 value 1.

Fixpoint varint_bytes (fuel : nat) (n : Z) : list Z :=
  match fuel with
  | O => [n]
  | S fuel => if 0x80 <=? n then (n mod 0x80 + 0x80) :: varint_bytes fuel (n / 0x80) else [n]
  end.
Definition writeVarint (value : Z) : list Z := varint_bytes 8 value.

Inductive WirePart :=
| PVarint (n : Z)
| PBytes (b : list Z)
| PLength (value : Z)
| PDouble (bits : Z).

Record WirePlan := MkPlan { parts : list WirePart; byteLength : Z }.

(** A marker is the place of its part and the length of the plan when the message began. *)
Record WireMarker := MkMarker { mk_index : nat; mk_bodyStart : Z }.

Definition new_plan : WirePlan := MkPlan [] 0.

Definition appendVarint (plan : WirePlan) (value : Z) : result wire_error WirePlan :=
  let! n := checkedVarint value in
  Ok (MkPlan (parts plan ++ [PVarint n]) (byteLength plan + varintByteLength n)).

Definition appendBytes (plan : WirePlan) (bytes : list Z) : WirePlan :=
  MkPlan (parts plan ++ [PBytes bytes]) (byteLength plan + Z.of_nat (length bytes)).

Definition varintField (plan : WirePlan) (field value : Z) : result wire_error WirePlan :=
  let! plan := appendVarint plan (field * 8 + WIRE_VARINT) in appendVarint plan value.

Definition doubleField (plan : WirePlan) (field bits : Z) : result wire_error WirePlan :=
  let! plan := appendVarint plan (field * 8 + WIRE_FIXED64) in
  Ok (MkPlan (parts plan ++ [PDouble bits]) (byteLength plan + 8)).

Definition bytesField (plan : WirePlan) (field : Z) (bytes : list Z) : result wire_error WirePlan :=
  let! plan := appendVarint plan (field * 8 + WIRE_LEN) in
  let! plan := appendVarint plan (Z.of_nat (length bytes)) in
  Ok (appendBytes plan bytes).

Definition stringField (plan : WirePlan) (field : Z) (value : option jstr) : result wire_error WirePlan :=
  match value with None => Ok plan | Some s => bytesField plan field (utf8_encode s) end.

Definition nonEmptyStringField (plan : WirePlan) (field : Z) (value : option jstr) : result wire_error WirePlan :=
  match value with None | Some [] => Ok plan | Some s => stringField plan field (Some s) end.

Definition beginMessage (plan : WirePlan) (field : Z) : result wire_error (WirePlan * WireMarker) :=
  let! plan := appendVarint plan (field * 8 + WIRE_LEN) in
  Ok (MkPlan (parts plan ++ [PLength 0]) (byteLength plan), MkMarker (length (parts plan)) (byteLength plan)).

Definition endMessage (plan : WirePlan) (marker : WireMarker) : WirePlan :=
  let value := byteLength plan - mk_bodyStart marker in
  MkPlan (<[mk_index marker := PLength value]> (parts plan)) (byteLength plan + varintByteLength value).

Definition part_bytes (p : WirePart) : list Z :=
  match p with
  | PVarint n | PLength n => writeVarint n
  | PBytes b => b
  | PDouble bits => le_bytes 8 bits
  end.

(** [new Uint8Array] throws on a length that is not a safe integer; parts that do not fit
    exactly are an error. *)
Definition finish (plan : WirePlan) : result wire_error (list Z) :=
  let output := flat_map part_bytes (parts plan) in
  if negb (is_safe_integer (byteLength plan)) then Err ArrayTooLong
  else if Z.of_nat (length output) =? byteLength plan then Ok output else Err SizeMismatch.

(** ** Encoding requests *)

Definition appendParam (plan : WirePlan) (value : d1value) : result wire_error WirePlan :=
  let! normalized := normalizeD1WireParam value in
  match normalized with
  | VNull | VUndef => varintField plan 1 1
  | VNum bits => doubleField plan 2 bits
  | VStr s => stringField plan 3 (Some s)
  | VBytes b => bytesField plan 4 b
  | _ => Err D1TypeError
  end.

(** [for (const x of l) { begin; append(x); end }] *)
Fixpoint appendMessages {X} (field : Z) (append : WirePlan → X → result wire_error WirePlan) (plan : WirePlan) (l : list X)
    : result wire_error WirePlan :=
  match l with
  | [] => Ok plan
  | x :: l =>
      let! begun := beginMessage plan field in
      let! body := append begun.1 x in
      appendMessages field append (endMessage body begun.2) l
  end.

Record D1QueryStatementInput := MkStatementInput { si_sql : option jstr; si_params : list d1value }.
Record D1QueryRequestInput := MkRequestInput {
  ri_namespace : option jstr; ri_databaseId : option jstr; ri_binding : option jstr; ri_mode : option jstr;
  ri_statements : list D1QueryStatementInput }.

Definition appendStatement (plan : WirePlan) (statement : D1QueryStatementInput) : result wire_error WirePlan :=
  let! plan := nonEmptyStringField plan 1 (si_sql statement) in
  appendMessages 2 appendParam plan (si_params statement).

Definition encodeD1QueryRequest (input : D1QueryRequestInput) : result wire_error (list Z) :=
  let! plan := nonEmptyStringField new_plan 1 (ri_namespace input) in
  let! plan := nonEmptyStringField plan 2 (ri_databaseId input) in
  let! plan := nonEmptyStringField plan 3 (ri_binding input) in
  let! plan := nonEmptyStringField plan 4 (ri_mode input) in
  let! plan := appendMessages 5 appendStatement plan (ri_statements input) in
  finish plan.

(** ** Encoding responses *)

Definition is_undefined (v : d1value) : bool := match v with VUndef => true | _ => false end.

Fixpoint appendValue (value : d1value) (plan : WirePlan) : result wire_error WirePlan :=
  match value with
  | VNull | VUndef => varintField plan 1 1
  | VBool b => varintField plan 2 (if b then 1 else 0)
  | VNum bits => if negb (is_finite bits) then Err NonFinite else doubleField plan 3 bits
  | VStr s => stringField plan 4 (Some s)
  | VBytes b => bytesField plan 5 b
  | VArr l =>
      let! plan := varintField plan 8 1 in
      (fix items (l : list d1value) (plan : WirePlan) : result wire_error WirePlan :=
         match l with
         | [] => Ok plan
         | item :: l =>
             let! begun := beginMessage plan 6 in
             let! body := appendValue item begun.1 in
             items l (endMessage body begun.2)
         end) l plan
  | VObj fields =>
      let! plan := varintField plan 9 1 in
      (fix entries (fields : list (jstr * d1value)) (plan : WirePlan) : result wire_error WirePlan :=
         match fields with
         | [] => Ok plan
         | (key, item) :: fields =>
             if is_undefined item then entries fields plan
             else
               let! entry := beginMessage plan 7 in
               let! named := stringField entry.1 1 (Some key) in
               let! begun := beginMessage named 2 in
               let! body := appendValue item begun.1 in
               entries fields (endMessage (endMessage body begun.2) entry.2)
         end) fields plan
  | VBig _ | VOther => Err UnsupportedValue
  end.

Definition encodeD1QueryResponse (payload : d1value) : result wire_error (list Z) :=
  let! plan := appendValue payload new_plan in finish plan.

(** ** The reader *)

(** The double nearest to a non-negative integer below [2^56], ties to even. *)
Definition round_double (n : Z) : Z :=
  if n <? 2 ^ 53 then n
  else
    let u := 2 ^ (Z.log2 n - 52) in
    let q := n / u in
    let rest := n mod u in
    (if (u <? 2 * rest) || ((2 * rest =? u) && Z.odd q) then q + 1 else q) * u.

Fixpoint read_varint_from (shift out : Z) (r : list Z) : result wire_error (Z * list Z) :=
  match r with
  | [] => Err TruncatedVarint
  | byte :: r =>
      if 49 <? shift then Err TruncatedVarint
      else
        let out := round_double (out + Z.land byte 0x7f * 2 ^ shift) in
        if Z.land byte 0x80 =? 0 then Ok (out, r) else read_varint_from (shift + 7) out r
  end.

Definition readVarint (r : list Z) : result wire_error (Z * list Z) := read_varint_from 0 0 r.

Definition readTag (r : list Z) : result wire_error (Z * Z * list Z) :=
  let! v := readVarint r in Ok (v.1 / 8, v.1 mod 8, v.2).

Definition readBytes (r : list Z) (n : Z) : result wire_error (list Z * list Z) :=
  if (n <? 0) || (Z.of_nat (length r) <? n) then Err TruncatedField
  else Ok (take (Z.to_nat n) r, drop (Z.to_nat n) r).

(** The bytes of a length-delimited field, which is also the reader of a message, and what
    follows. *)
Definition readLengthDelimited (r : list Z) : result wire_error (list Z * list Z) :=
  let! len := readVarint r in
  if Z.of_nat (length len.2) <? len.1 then Err TruncatedField else readBytes len.2 len.1.

Definition readString (r : list Z) : result wire_error (jstr * list Z) :=
  let! b := readLengthDelimited r in Ok (utf8_decode b.1, b.2).

Definition readDouble (r : list Z) : result wire_error (Z * list Z) :=
  let! b := readBytes r 8 in Ok (le_value b.1, b.2).

Definition skip (r : list Z) (wireType : Z) : result wire_error (list Z) :=
  if wireType =? WIRE_VARINT then let! v := readVarint r in Ok v.2
  else if wireType =? WIRE_FIXED64 then let! b := readBytes r 8 in Ok b.2
  else if wireType =? WIRE_LEN then let! b := readLengthDelimited r in Ok b.2
  else Err UnsupportedWireType.

(** ** Decoding requests

    Every turn of a loop reads at least one byte: a loop has at most as many as bytes. *)

Definition is_field (field wireType f w : Z) : bool := (field =? f) && (wireType =? w).

Fixpoint decode_param_from (fuel : nat) (value : option d1value) (r : list Z) : result wire_error d1value :=
  match r, fuel with
  | [], _ => match value with Some v => Ok v | None => Err EmptyParam end
  | _, O => Err OutOfFuel
  | _, S fuel =>
      let! tag := readTag r in
      let '(field, wireType, r) := tag in
      let at_ := is_field field wireType in
      if at_ 1 WIRE_VARINT then let! v := readVarint r in decode_param_from fuel (Some VNull) v.2
      else if at_ 2 WIRE_FIXED64 then let! v := readDouble r in decode_param_from fuel (Some (VNum v.1)) v.2
      else if at_ 3 WIRE_LEN then let! v := readString r in decode_param_from fuel (Some (VStr v.1)) v.2
      else if at_ 4 WIRE_LEN then let! v := readLengthDelimited r in decode_param_from fuel (Some (VBytes v.1)) v.2
      else let! r := skip r wireType in decode_param_from fuel (Some (default VNull value)) r
  end.

Definition decodeParam (r : list Z) : result wire_error d1value := decode_param_from (length r) None r.

Record D1QueryStatement := MkStatement { st_sql : jstr; st_params : list d1value }.

Fixpoint decode_statement_from (fuel : nat) (statement : D1QueryStatement) (r : list Z) : result wire_error D1QueryStatement :=
  match r, fuel with
  | [], _ => Ok statement
  | _, O => Err OutOfFuel
  | _, S fuel =>
      let! tag := readTag r in
      let '(field, wireType, r) := tag in
      let at_ := is_field field wireType in
      if at_ 1 WIRE_LEN then
        let! v := readString r in decode_statement_from fuel (MkStatement v.1 (st_params statement)) v.2
      else if at_ 2 WIRE_LEN then
        let! m := readLengthDelimited r in
        let! p := decodeParam m.1 in
        decode_statement_from fuel (MkStatement (st_sql statement) (st_params statement ++ [p])) m.2
      else let! r := skip r wireType in decode_statement_from fuel statement r
  end.

Definition decodeStatement (r : list Z) : result wire_error D1QueryStatement :=
  decode_statement_from (length r) (MkStatement [] []) r.

Record D1QueryRequest := MkRequest {
  rq_namespace : jstr; rq_databaseId : jstr; rq_binding : option jstr; rq_mode : option jstr;
  rq_statements : list D1QueryStatement }.

Fixpoint decode_request_from (fuel : nat) (out : D1QueryRequest) (r : list Z) : result wire_error D1QueryRequest :=
  match r, fuel with
  | [], _ => Ok out
  | _, O => Err OutOfFuel
  | _, S fuel =>
      let! tag := readTag r in
      let '(field, wireType, r) := tag in
      let at_ := is_field field wireType in
      let '(MkRequest namespace databaseId binding mode statements) := out in
      if at_ 1 WIRE_LEN then
        let! v := readString r in decode_request_from fuel (MkRequest v.1 databaseId binding mode statements) v.2
      else if at_ 2 WIRE_LEN then
        let! v := readString r in decode_request_from fuel (MkRequest namespace v.1 binding mode statements) v.2
      else if at_ 3 WIRE_LEN then
        let! v := readString r in decode_request_from fuel (MkRequest namespace databaseId (Some v.1) mode statements) v.2
      else if at_ 4 WIRE_LEN then
        let! v := readString r in decode_request_from fuel (MkRequest namespace databaseId binding (Some v.1) statements) v.2
      else if at_ 5 WIRE_LEN then
        let! m := readLengthDelimited r in
        let! st := decodeStatement m.1 in
        decode_request_from fuel (MkRequest namespace databaseId binding mode (statements ++ [st])) m.2
      else let! r := skip r wireType in decode_request_from fuel out r
  end.

Definition decodeD1QueryRequest (bytes : list Z) : result wire_error D1QueryRequest :=
  decode_request_from (length bytes) (MkRequest [] [] None None []) bytes.

(** ** Decoding responses *)

(** [target[key] = value] on own data properties. *)
Fixpoint setDataField (target : list (jstr * d1value)) (key : jstr) (value : d1value) : list (jstr * d1value) :=
  match target with
  | [] => [(key, value)]
  | (k, v) :: target => if jeqb k key then (k, value) :: target else (k, v) :: setDataField target key value
  end.

(** The pair of [kind] and [value]: unset, a scalar, an array or an object. *)
Inductive partial_value :=
| KUnset
| KScalar (v : d1value)
| KArray (l : list d1value)
| KObject (fields : list (jstr * d1value)).

(** [assertScalarCompatible], then the scalar. *)
Definition to_scalar (k : partial_value) (v : d1value) : result wire_error partial_value :=
  match k with KUnset | KScalar _ => Ok (KScalar v) | _ => Err MixedKinds end.
Definition to_array (k : partial_value) : result wire_error (list d1value) :=
  match k with KUnset => Ok [] | KArray l => Ok l | _ => Err MixedKinds end.
Definition to_object (k : partial_value) : result wire_error (list (jstr * d1value)) :=
  match k with KUnset => Ok [] | KObject fields => Ok fields | _ => Err MixedKinds end.

Definition decoded_value (k : partial_value) : result wire_error d1value :=
  match k with
  | KUnset => Err EmptyValue
  | KScalar v => Ok v
  | KArray l => Ok (VArr l)
  | KObject fields => Ok (VObj fields)
  end.

(** The scalar fields of a value: what [field] holds, for the fields that hold a scalar. *)
Definition readScalar (field wireType : Z) (r : list Z) : option (result wire_error (d1value * list Z)) :=
  let at_ := is_field field wireType in
  if at_ 1 WIRE_VARINT then Some (let! v := readVarint r in Ok (VNull, v.2))
  else if at_ 2 WIRE_VARINT then Some (let! v := readVarint r in Ok (VBool (negb (v.1 =? 0)), v.2))
  else if at_ 3 WIRE_FIXED64 then Some (let! v := readDouble r in Ok (VNum v.1, v.2))
  else if at_ 4 WIRE_LEN then Some (let! v := readString r in Ok (VStr v.1, v.2))
  else if at_ 5 WIRE_LEN then Some (let! v := readLengthDelimited r in Ok (VBytes v.1, v.2))
  else None.

Fixpoint decode_value_from (fuel : nat) (k : partial_value) (r : list Z) : result wire_error d1value :=
  match r, fuel with
  | [], _ => decoded_value k
  | _, O => Err OutOfFuel
  | _, S fuel =>
      let! tag := readTag r in
      let '(field, wireType, r) := tag in
      let at_ := is_field field wireType in
      match readScalar field wireType r with
      | Some read =>
          let! _ := to_scalar k VNull in
          let! v := read in decode_value_from fuel (KScalar v.1) v.2
      | None =>
          if at_ 6 WIRE_LEN then
            let! l := to_array k in
            let! m := readLengthDelimited r in
            let! v := decode_value_from fuel KUnset m.1 in
            decode_value_from fuel (KArray (l ++ [v])) m.2
          else if at_ 7 WIRE_LEN then
            let! fields := to_object k in
            let! m := readLengthDelimited r in
            let! e := decode_entry_from fuel [] VNull m.1 in
            decode_value_from fuel (KObject (setDataField fields e.1 e.2)) m.2
          else if at_ 8 WIRE_VARINT then
            let! v := readVarint r in
            let! l := to_array k in decode_value_from fuel (KArray l) v.2
          else if at_ 9 WIRE_VARINT then
            let! v := readVarint r in
            let! fields := to_object k in decode_value_from fuel (KObject fields) v.2
          else let! r := skip r wireType in decode_value_from fuel k r
      end
  end
with decode_entry_from (fuel : nat) (key : jstr) (value : d1value) (r : list Z) : result wire_error (jstr * d1value) :=
  match r, fuel with
  | [], _ => Ok (key, value)
  | _, O => Err OutOfFuel
  | _, S fuel =>
      let! tag := readTag r in
      let '(field, wireType, r) := tag in
      let at_ := is_field field wireType in
      if at_ 1 WIRE_LEN then let! v := readString r in decode_entry_from fuel v.1 value v.2
      else if at_ 2 WIRE_LEN then
        let! m := readLengthDelimited r in
        let! v := decode_value_from fuel KUnset m.1 in decode_entry_from fuel key v m.2
      else let! r := skip r wireType in decode_entry_from fuel key value r
  end.

Definition decodeD1QueryResponse (bytes : list Z) : result wire_error d1value :=
  decode_value_from (length bytes) KUnset bytes.

(** ** Result headers *)

Definition D1_QUERY_RESULT_OK : jstr := js "ok".
Definition OUTCOME_HEADER : jstr := js "x-wdl-d1-result".
Definition CHANGED_DB_HEADER : jstr := js "x-wdl-d1-changed-db".
Definition VALUE_ENCODING_HEADER : jstr := js "x-wdl-d1-value-encoding".
Definition D1_QUERY_NATIVE_VALUE_ENCODING : jstr := js "native-bytes-v1".

Definition d1QuerySuccessHeaders (changedDb : bool) (valueEncoding : option jstr) : list (jstr * jstr) :=
  [(OUTCOME_HEADER, D1_QUERY_RESULT_OK); (CHANGED_DB_HEADER, js (if changedDb then "1" else "0"))]
  ++ match valueEncoding with None => [] | Some e => [(VALUE_ENCODING_HEADER, e)] end.

(** [headers.get] of these names, which are in lower case and occur once. *)
Definition header_get (headers : list (jstr * jstr)) (name : jstr) : option jstr :=
  option_map snd (find (λ h, jeqb h.1 name) headers).

Definition readD1QuerySuccessHeaders (headers : list (jstr * jstr)) : option (bool * option jstr) :=
  let get := header_get headers in
  if negb (bool_decide (get OUTCOME_HEADER = Some D1_QUERY_RESULT_OK)) then None
  else
    let changedDb := get CHANGED_DB_HEADER in
    let valueEncoding := get VALUE_ENCODING_HEADER in
    if negb (bool_decide (valueEncoding = None)) && negb (bool_decide (valueEncoding = Some D1_QUERY_NATIVE_VALUE_ENCODING))
    then None
    else if bool_decide (changedDb = Some (js "0")) then Some (false, valueEncoding)
    else if bool_decide (changedDb = Some (js "1")) then Some (true, valueEncoding)
    else None.

(** The router reads what the owner says of a query, and no encoding it does not know. *)
Lemma read_success_headers changedDb valueEncoding :
  readD1QuerySuccessHeaders (d1QuerySuccessHeaders changedDb valueEncoding) =
  if bool_decide (valueEncoding = None ∨ valueEncoding = Some D1_QUERY_NATIVE_VALUE_ENCODING)
  then Some (changedDb, valueEncoding) else None.
Proof.
  unfold readD1QuerySuccessHeaders, d1QuerySuccessHeaders.
  destruct valueEncoding as [e|]; cbn [app].
  - replace (header_get _ VALUE_ENCODING_HEADER) with (Some e) by by destruct changedDb.
    replace (header_get _ OUTCOME_HEADER) with (Some D1_QUERY_RESULT_OK) by by destruct changedDb.
    replace (header_get _ CHANGED_DB_HEADER) with (Some (js (if changedDb then "1" else "0"))) by by destruct changedDb.
    destruct (decide (e = D1_QUERY_NATIVE_VALUE_ENCODING)) as [->|Hne]; [by destruct changedDb|].
    rewrite !(bool_decide_eq_false_2 (Some e = _)) by congruence.
    rewrite (bool_decide_eq_false_2 (_ ∨ _)) by naive_solver. done.
  - by destruct changedDb.
Qed.
