(* ===== verification/D1WireRoundtrip.v ===== *)
(** * The D1 wire format: what is written is what is read

    Theorems on the encoder and the decoder of D1Wire.v. A plan is related to the bytes it
    adds, a message to its tag, its length and its body, and the decoder to the encoder one
    field at a time. *)

From stdpp Require Import base list strings sets.
From Stdlib Require Import ZArith Lia.
From S2P Require Import Prelude Utf8 D1Wire.

#[local] Open Scope Z_scope.
#[local] Open Scope wdl_scope.

(** ** Plans *)

(** [p'] is [p] with parts that stand for [bs]. *)
Definition adds (bs : list Z) (p p' : WirePlan) : Prop :=
  ∃ new, parts p' = parts p ++ new ∧ flat_map part_bytes new = bs ∧
         byteLength p' = byteLength p + Z.of_nat (length bs).

Definition tag_bytes (field wireType : Z) : list Z := writeVarint (field * 8 + wireType).

(** A length-delimited field. *)
Definition field_bytes (field : Z) (body : list Z) : list Z :=
  tag_bytes field WIRE_LEN ++ writeVarint (Z.of_nat (length body)) ++ body.

Lemma varint_length_from_add fuel : ∀ n len, varint_length_from fuel n len = len + varint_length_from fuel n 0.
Proof.
  induction fuel as [|fuel IH]; intros n len; simpl; [lia|]. destruct (0x80 <=? n); [|lia].
  rewrite IH, (IH _ 1). lia.
Qed.

Lemma varint_bytes_length fuel : ∀ n, Z.of_nat (length (varint_bytes fuel n)) = varint_length_from fuel n 1.
Proof.
  induction fuel as [|fuel IH]; intros n; simpl; [done|]. destruct (0x80 <=? n); [|done].
  cbn [length]. rewrite Nat2Z.inj_succ, IH, (varint_length_from_add _ _ 2), (varint_length_from_add _ _ 1). lia.
Qed.

Lemma writeVarint_length n : Z.of_nat (length (writeVarint n)) = varintByteLength n.
Proof. apply varint_bytes_length. Qed.

Lemma le_bytes_length n z : length (le_bytes n z) = n.
Proof. revert z. induction n; simpl; auto. Qed.

Lemma adds_nil p : adds [] p p.
Proof. exists []. rewrite app_nil_r. simpl. repeat split; lia. Qed.

Lemma adds_app a b p q r : adds a p q → adds b q r → adds (a ++ b) p r.
Proof.
  intros (n1 & P1 & <- & L1) (n2 & P2 & <- & L2). exists (n1 ++ n2).
  rewrite P2, P1, L2, L1, flat_map_app, length_app, <- app_assoc. repeat split; lia.
Qed.

Lemma adds_part part p len :
  len = Z.of_nat (length (part_bytes part)) →
  adds (part_bytes part) p (MkPlan (parts p ++ [part]) (byteLength p + len)).
Proof. intros ->. exists [part]. simpl. by rewrite app_nil_r. Qed.

Lemma appendVarint_adds p v p' : appendVarint p v = Ok p' → adds (writeVarint v) p p'.
Proof.
  unfold appendVarint, checkedVarint. destruct (_ || _); [done|]. cbn [rbind]. intros [= <-].
  apply (adds_part (PVarint v)). symmetry. apply writeVarint_length.
Qed.

Lemma varintField_adds p f v p' : varintField p f v = Ok p' → adds (tag_bytes f WIRE_VARINT ++ writeVarint v) p p'.
Proof. intros (q & E1 & E2)%rbind_Ok_inv. eapply adds_app; eauto using appendVarint_adds. Qed.

Lemma doubleField_adds p f bits p' : doubleField p f bits = Ok p' → adds (tag_bytes f WIRE_FIXED64 ++ le_bytes 8 bits) p p'.
Proof.
  intros (q & E1 & [= <-])%rbind_Ok_inv. eapply adds_app; [by eapply appendVarint_adds|].
  by apply (adds_part (PDouble bits)).
Qed.

Lemma bytesField_adds p f b p' : bytesField p f b = Ok p' → adds (field_bytes f b) p p'.
Proof.
  intros (q & E1 & (q' & E2 & [= <-])%rbind_Ok_inv)%rbind_Ok_inv.
  eapply adds_app; [by eapply appendVarint_adds|]. eapply adds_app; [by eapply appendVarint_adds|].
  by apply (adds_part (PBytes b)).
Qed.

(** A message that was begun, filled and ended is a length-delimited field. *)
Lemma message_adds p f begun body bs :
  beginMessage p f = Ok begun → adds bs begun.1 body → adds (field_bytes f bs) p (endMessage body begun.2).
Proof.
  intros (q & E1 & [= <-])%rbind_Ok_inv (new & P & <- & L). cbn [fst snd parts byteLength] in *.
  apply appendVarint_adds in E1 as (tag & PT & BT & LT). unfold endMessage. cbn [mk_index mk_bodyStart].
  rewrite L. replace (byteLength q + _ - byteLength q) with (Z.of_nat (length (flat_map part_bytes new))) by lia.
  exists (tag ++ PLength (Z.of_nat (length (flat_map part_bytes new))) :: new). cbn [parts byteLength].
  rewrite P, <- app_assoc, (insert_app_r_alt _ _ (length (parts q))), Nat.sub_diag by lia. cbn [app]. split_and!.
  - rewrite PT. cbn [insert list_insert]. by rewrite <- app_assoc.
  - rewrite flat_map_app, BT. unfold field_bytes. done.
  - rewrite LT. unfold field_bytes. rewrite !length_app, !Nat2Z.inj_add, (writeVarint_length (Z.of_nat _)). unfold tag_bytes. lia.
Qed.

Lemma finish_Ok p bytes bs :
  adds bs new_plan p → finish p = Ok bytes → bytes = bs ∧ Z.of_nat (length bs) <= MAX_SAFE_INTEGER.
Proof.
  intros (new & P & <- & L). unfold finish. rewrite P. cbn [parts new_plan app].
  destruct (is_safe_integer _) eqn:Es; [|done]. cbn [negb]. destruct (_ =? _); [|done]. intros [= <-].
  split; [done|]. rewrite L in Es. unfold is_safe_integer in Es. cbn [byteLength new_plan] in Es. to_prop. lia.
Qed.

(** ** Numbers read back *)

#[local] Ltac Zify.zify_post_hook ::= Z.div_mod_to_equations.

Lemma le_value_bytes n : ∀ z, 0 <= z < 256 ^ Z.of_nat n → le_value (le_bytes n z) = z.
Proof.
  induction n as [|n IH]; intros z Hz; simpl; [simpl in Hz; lia|].
  rewrite Nat2Z.inj_succ, Z.pow_succ_r in Hz by lia. rewrite IH; lia.
Qed.

Lemma round_double_small n : n < 2 ^ 53 → round_double n = n.
Proof. intros H. unfold round_double. by rewrite (proj2 (Z.ltb_lt _ _)). Qed.

Lemma low_bits b : 0 <= b < 256 → Z.land b 0x7f = b mod 0x80 ∧ (Z.land b 0x80 =? 0) = (b <? 0x80).
Proof.
  intros Hb. split; [apply (Z.land_ones b 7); lia|].
  rewrite <- (Z2Nat.id b) by lia. assert (Z.to_nat b < 256)%nat as Hn by lia. revert Hn. generalize (Z.to_nat b). clear.
  intros n Hn. do 256 (destruct n as [|n]; [vm_compute; reflexivity|]). lia.
Qed.

(** The reader's loop takes the groups of a number off the front, adding them to what it has
    read; a safe number ends before the reader gives up. *)
Lemma read_varint_bytes fuel : ∀ n out r,
  (1 <= fuel <= 8)%nat → 0 <= n → 0 <= out → out + n * 2 ^ (56 - 7 * Z.of_nat fuel) < 2 ^ 53 →
  read_varint_from (56 - 7 * Z.of_nat fuel) out (varint_bytes fuel n ++ r) = Ok (out + n * 2 ^ (56 - 7 * Z.of_nat fuel), r).
Proof.
  induction fuel as [|fuel IH]; intros n out r Hf Hn Ho Hs; [lia|].
  set (sh := 56 - 7 * Z.of_nat (S fuel)) in *. assert (0 <= sh <= 49) as Hsh by lia.
  assert (0 < 2 ^ sh) as Hp by (apply Z.pow_pos_nonneg; lia). cbn [varint_bytes].
  destruct (Z.leb_spec 0x80 n) as [Hge|Hlt]; cbn [app read_varint_from];
    rewrite (proj2 (Z.ltb_ge 49 sh)) by lia.
  - destruct (low_bits (n mod 0x80 + 0x80)) as [-> ->]; [lia|]. rewrite (proj2 (Z.ltb_ge _ _)) by lia.
    replace ((n mod 0x80 + 0x80) mod 0x80) with (n mod 0x80) by lia.
    rewrite round_double_small by nia.
    assert (2 ^ (sh + 7) = 2 ^ sh * 0x80) as Hp7 by (rewrite Z.pow_add_r by lia; done).
    assert (n * 2 ^ sh = n mod 0x80 * 2 ^ sh + n / 0x80 * 2 ^ (sh + 7)) as Hn7 by (rewrite Hp7; nia).
    assert (fuel ≠ 0)%nat as Hf0 by (intros ->; subst sh; change (56 - 7 * Z.of_nat 1 + 7) with 56 in *; nia).
    replace (sh + 7) with (56 - 7 * Z.of_nat fuel) in * by lia.
    rewrite IH by (try lia; nia). do 2 f_equal. lia.
  - destruct (low_bits n) as [-> ->]; [lia|]. rewrite (proj2 (Z.ltb_lt _ _)) by lia.
    rewrite Z.mod_small, round_double_small by lia. done.
Qed.

Lemma read_writeVarint n r : 0 <= n <= MAX_SAFE_INTEGER → readVarint (writeVarint n ++ r) = Ok (n, r).
Proof.
  intros Hn. unfold readVarint, writeVarint. rewrite (read_varint_bytes 8); unfold MAX_SAFE_INTEGER in *; try lia.
  do 2 f_equal. simpl. lia.
Qed.

(** ** Fields read back *)

Lemma read_tag f w r : 0 <= f < 100 → 0 <= w < 8 → readTag (tag_bytes f w ++ r) = Ok (f, w, r).
Proof.
  intros Hf Hw. unfold readTag, tag_bytes. rewrite read_writeVarint by (unfold MAX_SAFE_INTEGER; lia). cbn [rbind fst snd].
  do 3 f_equal; lia.
Qed.

Lemma readBytes_app b r n : n = Z.of_nat (length b) → readBytes (b ++ r) n = Ok (b, r).
Proof.
  intros ->. unfold readBytes. rewrite length_app.
  rewrite !(proj2 (Z.ltb_ge _ _)) by lia. cbn [orb]. by rewrite Nat2Z.id, take_app_length, drop_app_length.
Qed.

(** What fits in an array. *)
Definition fits (b : list Z) : Prop := Z.of_nat (length b) <= MAX_SAFE_INTEGER.

Lemma read_field b r : fits b → readLengthDelimited (writeVarint (Z.of_nat (length b)) ++ b ++ r) = Ok (b, r).
Proof.
  unfold fits. intros Hb. unfold readLengthDelimited. rewrite read_writeVarint by lia. cbn [rbind fst snd].
  rewrite (proj2 (Z.ltb_ge _ _)) by (rewrite length_app; lia). by apply readBytes_app.
Qed.

Lemma read_string s r : fits (utf8_encode s) →
  readString (writeVarint (Z.of_nat (length (utf8_encode s))) ++ utf8_encode s ++ r) = Ok (utf8_decode (utf8_encode s), r).
Proof. intros Hs. unfold readString. by rewrite read_field. Qed.

Definition is_double (bits : Z) : Prop := 0 <= bits < 2 ^ 64.

Lemma read_double bits r : is_double bits → readDouble (le_bytes 8 bits ++ r) = Ok (bits, r).
Proof.
  intros Hb. unfold readDouble. rewrite readBytes_app by (by rewrite le_bytes_length). cbn [rbind fst snd].
  by rewrite le_value_bytes.
Qed.

Lemma fits_app a b : fits (a ++ b) → fits a ∧ fits b.
Proof. unfold fits. rewrite length_app. lia. Qed.

Lemma fits_field f b : fits (field_bytes f b) → fits b.
Proof. unfold field_bytes. by intros [_ [_ ?]%fits_app]%fits_app. Qed.

(** ** Values *)

(** Induction on values that reaches the items of arrays and the members of objects. *)
Section value_induction.
  Context (P : d1value → Prop).
  Context (Hundef : P VUndef) (Hnull : P VNull) (Hbool : ∀ b, P (VBool b)) (Hnum : ∀ bits, P (VNum bits))
    (Hbig : ∀ z, P (VBig z)) (Hstr : ∀ s, P (VStr s)) (Hbytes : ∀ b, P (VBytes b)) (Hother : P VOther)
    (Harr : ∀ l, Forall P l → P (VArr l)) (Hobj : ∀ fields, Forall (λ e, P e.2) fields → P (VObj fields)).

Fixpoint value_induction (v : d1value) : P v :=
  match v with
  | VUndef => Hundef | VNull => Hnull | VBool b => Hbool b | VNum bits => Hnum bits | VBig z => Hbig z
  | VStr s => Hstr s | VBytes b => Hbytes b | VOther => Hother
  | VArr l =>
      Harr l ((fix items l : Forall P l :=
        match l with [] => Forall_nil_2 _ | v :: l => Forall_cons_2 _ v l (value_induction v) (items l) end) l)
  | VObj fields =>
      Hobj fields ((fix entries fields : Forall (λ e, P e.2) fields :=
        match fields with
        | [] => Forall_nil_2 _
        | e :: fields => Forall_cons_2 (λ e, P e.2) e fields (value_induction e.2) (entries fields)
        end) fields)
  end.
End value_induction.

(** The bytes of a value. *)
Fixpoint value_bytes (v : d1value) : list Z :=
  match v with
  | VNull | VUndef => tag_bytes 1 WIRE_VARINT ++ writeVarint 1
  | VBool b => tag_bytes 2 WIRE_VARINT ++ writeVarint (if b then 1 else 0)
  | VNum bits => tag_bytes 3 WIRE_FIXED64 ++ le_bytes 8 bits
  | VStr s => field_bytes 4 (utf8_encode s)
  | VBytes b => field_bytes 5 b
  | VArr l => (tag_bytes 8 WIRE_VARINT ++ writeVarint 1) ++ flat_map (λ x, field_bytes 6 (value_bytes x)) l
  | VObj fields =>
      (tag_bytes 9 WIRE_VARINT ++ writeVarint 1) ++
      flat_map (λ e, if is_undefined e.2 then []
                     else field_bytes 7 (field_bytes 1 (utf8_encode e.1) ++ field_bytes 2 (value_bytes e.2))) fields
  | VBig _ | VOther => []
  end.

Lemma appendValue_adds v : ∀ p p', appendValue v p = Ok p' → adds (value_bytes v) p p'.
Proof.
  induction v as [| |b|bits|z|s|b| |l IH|fields IH] using value_induction; intros p p'; cbn [appendValue value_bytes];
    try discriminate; try (by apply varintField_adds); try (by apply bytesField_adds).
  - destruct (negb _); [done|]. apply doubleField_adds.
  - intros (q & E & H)%rbind_Ok_inv. eapply adds_app; [by eapply varintField_adds|]. clear E p. revert q H.
    induction IH as [|x l Hx _ IHl]; cbn [flat_map]; intros q; [intros [= <-]; apply adds_nil|].
    intros (begun & E1 & (body & E2 & H)%rbind_Ok_inv)%rbind_Ok_inv.
    eapply adds_app; [|by apply IHl]. eapply message_adds; eauto.
  - intros (q & E & H)%rbind_Ok_inv. eapply adds_app; [by eapply varintField_adds|]. clear E p. revert q H.
    induction IH as [|[k x] l Hx _ IHl]; cbn [flat_map fst snd]; intros q; [intros [= <-]; apply adds_nil|].
    destruct (is_undefined x); [apply IHl|].
    intros (e & E1 & (named & E2 & (begun & E3 & (body & E4 & H)%rbind_Ok_inv)%rbind_Ok_inv)%rbind_Ok_inv)%rbind_Ok_inv.
    eapply adds_app; [|by apply IHl]. eapply message_adds; [done|]. eapply adds_app; [by apply bytesField_adds|].
    eapply message_adds; eauto.
Qed.

(** ** Values read back *)

(** The text a string is read back as. *)
Definition text (s : jstr) : jstr := utf8_decode (utf8_encode s).

Definition set_fields (target : list (jstr * d1value)) (entries : list (jstr * d1value)) : list (jstr * d1value) :=
  foldl (λ target e, setDataField target e.1 e.2) target entries.

(** The value the reader has: [undefined] is [null], a member that is [undefined] is absent,
    strings are what their UTF-8 says. *)
Fixpoint received (v : d1value) : d1value :=
  match v with
  | VUndef => VNull
  | VStr s => VStr (text s)
  | VArr l => VArr (map received l)
  | VObj fields =>
      VObj (set_fields [] (flat_map (λ e, if is_undefined e.2 then [] else [(text e.1, received e.2)]) fields))
  | _ => v
  end.

(** What [appendValue] takes: finite doubles, and no BigInt or other value. *)
Fixpoint encodable (v : d1value) : bool :=
  match v with
  | VNum bits => is_finite bits && (0 <=? bits) && (bits <? 2 ^ 64)
  | VArr l => forallb encodable l
  | VObj fields => forallb (λ e, encodable e.2) fields
  | VBig _ | VOther => false
  | _ => true
  end.

(** One turn of a decoding loop on a field that starts with [tag_bytes f w]. *)
Ltac turn :=
  match goal with
  | |- context [tag_bytes ?f ?w ++ ?rest] =>
      let H := fresh "Htag" in
      pose proof (read_tag f w rest ltac:(lia) ltac:(unfold WIRE_VARINT, WIRE_FIXED64, WIRE_LEN; lia)) as H;
      destruct (tag_bytes f w ++ rest) as [|? ?]; [discriminate H|];
      cbn [decode_value_from decode_entry_from decode_param_from decode_statement_from decode_request_from];
      rewrite H; clear H; cbn [rbind]; cbv [is_field readScalar WIRE_VARINT WIRE_FIXED64 WIRE_LEN Z.eqb Pos.eqb andb]
  end.

Lemma writeVarint_nonempty n : (1 <= length (writeVarint n))%nat.
Proof. unfold writeVarint. cbn [varint_bytes]. destruct (_ <=? _); cbn [length]; lia. Qed.

Lemma field_bytes_length f b : (2 + length b <= length (field_bytes f b))%nat.
Proof.
  unfold field_bytes, tag_bytes. rewrite !length_app.
  pose proof (writeVarint_nonempty (f * 8 + WIRE_LEN)). pose proof (writeVarint_nonempty (Z.of_nat (length b))). lia.
Qed.

(** The tag of a field, its length and its body, and what follows. *)
Lemma field_bytes_app f b r :
  field_bytes f b ++ r = tag_bytes f WIRE_LEN ++ writeVarint (Z.of_nat (length b)) ++ b ++ r.
Proof. unfold field_bytes. by rewrite <- !app_assoc. Qed.

Lemma decode_end fuel k : decode_value_from fuel k [] = decoded_value k.
Proof. by destruct fuel. Qed.

(** A value is decoded from its bytes with any fuel that covers them. *)
Definition decodes (v : d1value) : Prop :=
  encodable v = true → fits (value_bytes v) →
  ∀ fuel, (length (value_bytes v) <= fuel)%nat → decode_value_from fuel KUnset (value_bytes v) = Ok (received v).

Lemma decode_items l : Forall decodes l → forallb encodable l = true → ∀ acc fuel,
  fits (flat_map (λ x, field_bytes 6 (value_bytes x)) l) →
  (length (flat_map (λ x, field_bytes 6 (value_bytes x)) l) <= fuel)%nat →
  decode_value_from fuel (KArray acc) (flat_map (λ x, field_bytes 6 (value_bytes x)) l) = Ok (VArr (acc ++ map received l)).
Proof.
  induction 1 as [|x l Hx _ IH]; cbn [flat_map forallb map]; intros He acc fuel Hfit Hfuel.
  { by rewrite decode_end, app_nil_r. }
  to_prop. rewrite length_app in Hfuel. apply fits_app in Hfit as [Hf1%fits_field Hf2].
  pose proof (field_bytes_length 6 (value_bytes x)). destruct fuel as [|fuel]; [lia|].
  rewrite field_bytes_app. turn. cbn [to_array rbind]. rewrite read_field by done. cbn [rbind fst snd].
  rewrite Hx by (done || lia). cbn [rbind]. rewrite IH by (done || lia). by rewrite <- app_assoc.
Qed.

Lemma decode_entry k x fuel :
  decodes x → encodable x = true →
  fits (field_bytes 1 (utf8_encode k) ++ field_bytes 2 (value_bytes x)) →
  (length (field_bytes 1 (utf8_encode k) ++ field_bytes 2 (value_bytes x)) <= fuel)%nat →
  decode_entry_from fuel [] VNull (field_bytes 1 (utf8_encode k) ++ field_bytes 2 (value_bytes x)) = Ok (text k, received x).
Proof.
  intros Hx He [Hf1%fits_field Hf2%fits_field]%fits_app. rewrite length_app. intros Hfuel.
  pose proof (field_bytes_length 1 (utf8_encode k)). pose proof (field_bytes_length 2 (value_bytes x)).
  destruct fuel as [|[|fuel]]; [lia..|]. rewrite field_bytes_app. turn.
  rewrite read_string by done. cbn [rbind fst snd]. rewrite <- (app_nil_r (field_bytes 2 _)), field_bytes_app. turn.
  rewrite read_field by done. cbn [rbind fst snd]. rewrite Hx by (done || lia). cbn [rbind]. by destruct fuel.
Qed.

Notation entry_bytes :=
  (λ e : jstr * d1value, if is_undefined e.2 then []
           else field_bytes 7 (field_bytes 1 (utf8_encode e.1) ++ field_bytes 2 (value_bytes e.2))).
Notation received_entry :=
  (λ e : jstr * d1value, if is_undefined e.2 then [] else [(text e.1, received e.2)]).

Lemma decode_entries fields : Forall (λ e, decodes e.2) fields → forallb (λ e, encodable e.2) fields = true → ∀ acc fuel,
  fits (flat_map entry_bytes fields) → (length (flat_map entry_bytes fields) <= fuel)%nat →
  decode_value_from fuel (KObject acc) (flat_map entry_bytes fields) =
  Ok (VObj (set_fields acc (flat_map received_entry fields))).
Proof.
  induction 1 as [|[k x] l Hx _ IH]; cbn [flat_map forallb fst snd]; intros He acc fuel Hfit Hfuel.
  { by rewrite decode_end. }
  to_prop. rewrite length_app in Hfuel. destruct (is_undefined x); [by apply IH|]. cbn [snd fst] in *.
  apply fits_app in Hfit as [Hf1%fits_field Hf2].
  match type of Hf1 with fits ?b => pose proof (field_bytes_length 7 b) end. destruct fuel as [|fuel]; [lia|].
  rewrite field_bytes_app. turn. cbn [to_object rbind]. rewrite read_field by done. cbn [rbind fst snd].
  rewrite decode_entry by (done || lia). cbn [rbind fst snd]. by rewrite IH by (done || lia).
Qed.

Lemma decode_value_bytes v : decodes v.
Proof.
  induction v as [| |b|bits|z|s|b| |l IH|fields IH] using value_induction; unfold decodes; cbn [encodable value_bytes received];
    intros He Hfit fuel Hfuel; try discriminate;
    (destruct fuel as [|fuel]; [exfalso; revert Hfuel; unfold field_bytes, tag_bytes; rewrite !length_app;
       match goal with |- context [writeVarint ?n] => pose proof (writeVarint_nonempty n) end; lia|]).
  - rewrite <- (app_nil_r (writeVarint 1)). turn. cbn [to_scalar rbind]. rewrite read_writeVarint by (unfold MAX_SAFE_INTEGER; lia).
    apply decode_end.
  - rewrite <- (app_nil_r (writeVarint 1)). turn. cbn [to_scalar rbind]. rewrite read_writeVarint by (unfold MAX_SAFE_INTEGER; lia).
    apply decode_end.
  - rewrite <- (app_nil_r (writeVarint _)). turn. cbn [to_scalar rbind].
    rewrite read_writeVarint by (unfold MAX_SAFE_INTEGER; destruct b; lia). cbn [rbind fst snd]. rewrite decode_end. by destruct b.
  - to_prop. rewrite <- (app_nil_r (le_bytes _ _)). turn. cbn [to_scalar rbind]. rewrite read_double by (split; lia).
    apply decode_end.
  - apply fits_field in Hfit. rewrite <- (app_nil_r (field_bytes _ _)), field_bytes_app. turn. cbn [to_scalar rbind].
    rewrite read_string by done. apply decode_end.
  - apply fits_field in Hfit. rewrite <- (app_nil_r (field_bytes _ _)), field_bytes_app. turn. cbn [to_scalar rbind].
    rewrite read_field by done. apply decode_end.
  - rewrite !length_app in Hfuel. apply fits_app in Hfit as [_ Hfit]. pose proof (writeVarint_nonempty 1).
    rewrite <- app_assoc. turn. rewrite read_writeVarint by (unfold MAX_SAFE_INTEGER; lia). cbn [rbind fst snd to_array].
    rewrite decode_items by (done || lia). done.
  - rewrite !length_app in Hfuel. apply fits_app in Hfit as [_ Hfit]. pose proof (writeVarint_nonempty 1).
    rewrite <- app_assoc. turn. rewrite read_writeVarint by (unfold MAX_SAFE_INTEGER; lia). cbn [rbind fst snd to_object].
    rewrite decode_entries by (done || lia). done.
Qed.

(** ** Encoding succeeds *)

Lemma appendVarint_Ok p n : 0 <= n <= MAX_SAFE_INTEGER → ∃ p', appendVarint p n = Ok p'.
Proof.
  intros Hn. unfold appendVarint, checkedVarint, is_safe_integer.
  rewrite !(proj2 (Z.leb_le _ _)), (proj2 (Z.ltb_ge _ _)) by (unfold MAX_SAFE_INTEGER in *; lia). by eexists.
Qed.

Lemma small_tag f w : 0 <= f < 100 → 0 <= w < 8 → 0 <= f * 8 + w <= MAX_SAFE_INTEGER.
Proof. unfold MAX_SAFE_INTEGER. lia. Qed.

Lemma varintField_Ok p f v : 0 <= f < 100 → 0 <= v <= MAX_SAFE_INTEGER → ∃ p', varintField p f v = Ok p'.
Proof.
  intros Hf Hv. unfold varintField. destruct (appendVarint_Ok p (f * 8 + WIRE_VARINT)) as [q ->]; [by apply small_tag|].
  by apply appendVarint_Ok.
Qed.

Lemma doubleField_Ok p f bits : 0 <= f < 100 → ∃ p', doubleField p f bits = Ok p'.
Proof.
  intros Hf. unfold doubleField. destruct (appendVarint_Ok p (f * 8 + WIRE_FIXED64)) as [q ->]; [by apply small_tag|].
  by eexists.
Qed.

Lemma bytesField_Ok p f b : 0 <= f < 100 → fits b → ∃ p', bytesField p f b = Ok p'.
Proof.
  intros Hf Hb. unfold bytesField. destruct (appendVarint_Ok p (f * 8 + WIRE_LEN)) as [q ->]; [by apply small_tag|].
  cbn [rbind]. destruct (appendVarint_Ok q (Z.of_nat (length b))) as [q' ->]; [unfold fits in Hb; lia | by eexists].
Qed.

Lemma beginMessage_Ok p f : 0 <= f < 100 → ∃ begun, beginMessage p f = Ok begun.
Proof.
  intros Hf. unfold beginMessage. destruct (appendVarint_Ok p (f * 8 + WIRE_LEN)) as [q ->]; [by apply small_tag|].
  by eexists.
Qed.

Lemma appendValue_Ok v : encodable v = true → fits (value_bytes v) → ∀ p, ∃ p', appendValue v p = Ok p'.
Proof.
  induction v as [| |b|bits|z|s|b| |l IH|fields IH] using value_induction; cbn [encodable value_bytes appendValue];
    intros He Hfit p; try discriminate.
  1-3: apply varintField_Ok; unfold MAX_SAFE_INTEGER; try destruct b; lia.
  - to_prop. rewrite H. apply doubleField_Ok. lia.
  - apply bytesField_Ok; [lia | by eapply fits_field].
  - apply bytesField_Ok; [lia | by eapply fits_field].
  - destruct (varintField_Ok p 8 1) as [q ->]; [lia | unfold MAX_SAFE_INTEGER; lia |]. cbn [rbind].
    apply fits_app in Hfit as [_ Hfit]. clear p. revert He Hfit q.
    induction IH as [|x l Hx _ IHl]; cbn [forallb flat_map]; intros He Hfit q; [by eexists|]. to_prop.
    apply fits_app in Hfit as [Hf1%fits_field Hf2]. destruct (beginMessage_Ok q 6) as [begun ->]; [lia|]. cbn [rbind].
    destruct (Hx ltac:(done) Hf1 begun.1) as [body ->]. by apply IHl.
  - destruct (varintField_Ok p 9 1) as [q ->]; [lia | unfold MAX_SAFE_INTEGER; lia |]. cbn [rbind].
    apply fits_app in Hfit as [_ Hfit]. clear p. revert He Hfit q.
    induction IH as [|[k x] l Hx _ IHl]; cbn [forallb flat_map fst snd]; intros He Hfit q; [by eexists|]. to_prop.
    destruct (is_undefined x); [by apply IHl|]. apply fits_app in Hfit as [Hf1%fits_field Hf2].
    apply fits_app in Hf1 as [Hk%fits_field Hv%fits_field].
    destruct (beginMessage_Ok q 7) as [entry ->]; [lia|]. cbn [rbind stringField].
    destruct (bytesField_Ok entry.1 1 (utf8_encode k)) as [named ->]; [lia | done |]. cbn [rbind].
    destruct (beginMessage_Ok named 2) as [begun ->]; [lia|]. cbn [rbind].
    cbn [snd] in Hx. destruct (Hx ltac:(done) Hv begun.1) as [body ->]. by apply IHl.
Qed.

Lemma finish_adds p bs : adds bs new_plan p → fits bs → finish p = Ok bs.
Proof.
  intros (new & P & <- & L) Hfit. unfold finish. rewrite P, L. cbn [parts new_plan app byteLength]. unfold fits in Hfit.
  unfold is_safe_integer. rewrite !(proj2 (Z.leb_le _ _)) by lia. cbn [negb andb]. by rewrite Z.eqb_refl.
Qed.

Lemma encode_value_bytes v : encodable v = true → fits (value_bytes v) → encodeD1QueryResponse v = Ok (value_bytes v).
Proof.
  intros He Hfit. unfold encodeD1QueryResponse. destruct (appendValue_Ok v He Hfit new_plan) as [p Hp].
  rewrite Hp. apply finish_adds; [by apply appendValue_adds | done].
Qed.

(** ** Values that are read back unchanged *)

(** Text without an unpaired surrogate that does not begin with a byte-order mark. *)
Definition plain_text (s : jstr) : bool :=
  forallb (λ c, (0 <=? c) && (c <? 0x10000)) s && well_formed s && negb (bool_decide (head s = Some BOM)).

Fixpoint faithful (v : d1value) : bool :=
  match v with
  | VUndef => false
  | VStr s => plain_text s
  | VArr l => forallb faithful l
  | VObj fields => forallb (λ e, plain_text e.1 && faithful e.2) fields && bool_decide (NoDup (map fst fields))
  | _ => true
  end.

Lemma text_plain s : plain_text s = true → text s = s.
Proof.
  unfold plain_text. intros H. to_prop. apply utf8_roundtrip; [|done|done].
  apply Forall_forall. intros c Hc. rewrite forallb_forall in H. specialize (H c ltac:(by apply list_elem_of_In)).
  to_prop. split; lia.
Qed.

Lemma setDataField_new target key v : key ∉ map fst target → setDataField target key v = target ++ [(key, v)].
Proof.
  induction target as [|[k w] target IH]; cbn [setDataField map fst]; [done|]. rewrite not_elem_of_cons. intros [Hk Hr].
  rewrite (proj2 (jeqb_neq k key)) by congruence. by rewrite IH.
Qed.

Lemma set_fields_new entries : ∀ target, NoDup (map fst (target ++ entries)) → set_fields target entries = target ++ entries.
Proof.
  induction entries as [|[k v] entries IH]; intros target Hnd; cbn [set_fields foldl]; [by rewrite app_nil_r|].
  change (foldl _ ?t entries) with (set_fields t entries). cbn [fst snd].
  rewrite setDataField_new.
  - rewrite IH; rewrite <- app_assoc; done.
  - rewrite map_app, NoDup_app in Hnd. destruct Hnd as (_ & Hdisj & _). intros Hk. apply (Hdisj k Hk). by left.
Qed.

Lemma received_faithful v : faithful v = true → received v = v.
Proof.
  induction v as [| |b|bits|z|s|b| |l IH|fields IH] using value_induction; cbn [faithful received]; intros H; try done.
  - by rewrite text_plain.
  - f_equal. induction IH as [|x l Hx _ IHl]; [done|]. cbn [forallb map] in *. to_prop. by rewrite Hx, IHl.
  - f_equal. to_prop. assert (flat_map received_entry fields = fields) as ->.
    { clear H0. induction IH as [|[k x] l Hx _ IHl]; [done|]. cbn [forallb flat_map fst snd] in *. to_prop.
      rewrite IHl by done. destruct x; try discriminate; cbn [is_undefined app]; rewrite text_plain, Hx by done; done. }
    by apply set_fields_new.
Qed.

(** ** Requests *)

(** What a parameter is on the wire, once it is normalised. *)
Definition param_bytes (v : d1value) : list Z :=
  match normalizeD1WireParam v with
  | Ok (VNull | VUndef) => tag_bytes 1 WIRE_VARINT ++ writeVarint 1
  | Ok (VNum bits) => tag_bytes 2 WIRE_FIXED64 ++ le_bytes 8 bits
  | Ok (VStr s) => field_bytes 3 (utf8_encode s)
  | Ok (VBytes b) => field_bytes 4 b
  | _ => []
  end.

(** The value the owner binds. *)
Definition received_param (v : d1value) : d1value :=
  match normalizeD1WireParam v with
  | Ok (VStr s) => VStr (text s)
  | Ok VUndef | Err _ => VNull
  | Ok n => n
  end.

Definition opt_field (f : Z) (o : option jstr) : list Z :=
  match o with None | Some [] => [] | Some s => field_bytes f (utf8_encode s) end.

Definition statement_bytes (st : D1QueryStatementInput) : list Z :=
  opt_field 1 (si_sql st) ++ flat_map (λ v, field_bytes 2 (param_bytes v)) (si_params st).

Definition request_bytes (input : D1QueryRequestInput) : list Z :=
  opt_field 1 (ri_namespace input) ++ opt_field 2 (ri_databaseId input) ++ opt_field 3 (ri_binding input) ++
  opt_field 4 (ri_mode input) ++ flat_map (λ st, field_bytes 5 (statement_bytes st)) (ri_statements input).

(** A text that is there and not empty. *)
Definition received_text (o : option jstr) : option jstr :=
  match o with None | Some [] => None | Some s => Some (text s) end.

Definition received_statement (st : D1QueryStatementInput) : D1QueryStatement :=
  MkStatement (default [] (received_text (si_sql st))) (map received_param (si_params st)).

Definition received_request (input : D1QueryRequestInput) : D1QueryRequest :=
  MkRequest (default [] (received_text (ri_namespace input))) (default [] (received_text (ri_databaseId input)))
    (received_text (ri_binding input)) (received_text (ri_mode input)) (map received_statement (ri_statements input)).

(** A parameter that [normalizeD1WireParam] takes, its numbers doubles. *)
Definition sendable_param (v : d1value) : bool :=
  match v with VNum bits => (0 <=? bits) && (bits <? 2 ^ 64) | _ => true end && is_ok (normalizeD1WireParam v).
Definition sendable (input : D1QueryRequestInput) : bool :=
  forallb (λ st, forallb sendable_param (si_params st)) (ri_statements input).

Lemma double_of_safe_integer z : is_safe_integer z = true → is_double (double_of_Z z).
Proof.
  unfold is_safe_integer, MAX_SAFE_INTEGER, double_of_Z, is_double. intros H. to_prop.
  destruct (Z.eqb_spec z 0); [lia|]. set (m := Z.abs z). assert (0 < m < 2 ^ 53) as Hm by lia.
  pose proof (Z.log2_nonneg m). destruct (Z.log2_spec m) as [Hlo Hhi]; [lia|].
  assert (Z.log2 m < 53) as He by (apply Z.log2_lt_pow2; lia). rewrite Z.pow_succ_r in Hhi by lia.
  assert (2 ^ Z.log2 m * 2 ^ (52 - Z.log2 m) = 2 ^ 52) as Hp by (rewrite <- Z.pow_add_r by lia; f_equal; lia).
  assert (0 < 2 ^ (52 - Z.log2 m)) by (apply Z.pow_pos_nonneg; lia).
  assert (0 <= (m - 2 ^ Z.log2 m) * 2 ^ (52 - Z.log2 m) < 2 ^ 52) by nia.
  generalize dependent ((m - 2 ^ Z.log2 m) * 2 ^ (52 - Z.log2 m)). intros frac Hfrac. destruct (z <? 0); lia.
Qed.

Lemma normalize_double v bits : sendable_param v = true → normalizeD1WireParam v = Ok (VNum bits) → is_double bits.
Proof.
  unfold sendable_param. destruct v as [| |b|x|z|s|b|l| |]; cbn [normalizeD1WireParam]; intros Hs; try discriminate.
  - intros [= <-]. by destruct b.
  - destruct (is_finite x); [|done]. cbn [negb]. intros [= <-]. to_prop. unfold is_double. destruct (x =? _); lia.
  - destruct (is_safe_integer z) eqn:E; [|done]. intros [= <-]. by apply double_of_safe_integer.
  - by intros (? & _ & ?)%rbind_Ok_inv.
  - by intros (? & _ & ?)%rbind_Ok_inv.
  - destruct (mapM _ _); [|done]. by intros (? & _ & ?)%rbind_Ok_inv.
Qed.

(** The kinds of value a parameter is normalised to. *)
Lemma normalize_kinds v n :
  normalizeD1WireParam v = Ok n → match n with VNull | VUndef | VNum _ | VStr _ | VBytes _ => True | _ => False end.
Proof.
  destruct v as [| |b|x|z|s|b|l| |]; cbn [normalizeD1WireParam]; try discriminate; try (by intros [= <-]).
  - destruct (negb _); [done | by intros [= <-]].
  - destruct (is_safe_integer z); [by intros [= <-] | done].
  - by intros (? & _ & [= <-])%rbind_Ok_inv.
  - by intros (? & _ & [= <-])%rbind_Ok_inv.
  - destruct (mapM _ _); [|done]. by intros (? & _ & [= <-])%rbind_Ok_inv.
Qed.

Lemma appendParam_adds p v p' : appendParam p v = Ok p' → adds (param_bytes v) p p'.
Proof.
  unfold appendParam, param_bytes. destruct (normalizeD1WireParam v) as [n|]; [|done]. cbn [rbind].
  destruct n; try discriminate; eauto using varintField_adds, doubleField_adds, bytesField_adds.
Qed.

Lemma appendParam_Ok p v : sendable_param v = true → fits (param_bytes v) → ∃ p', appendParam p v = Ok p'.
Proof.
  unfold sendable_param, appendParam, param_bytes. intros Hs. to_prop.
  destruct (normalizeD1WireParam v) as [n|] eqn:En; [|done]. cbn [rbind]. apply normalize_kinds in En.
  destruct n; try done; intros Hf.
  1,2: apply varintField_Ok; unfold MAX_SAFE_INTEGER; lia.
  - apply doubleField_Ok. lia.
  - apply bytesField_Ok; [lia | by eapply fits_field].
  - apply bytesField_Ok; [lia | by eapply fits_field].
Qed.

(** Messages of one field number, one after another. *)
Section messages.
  Context {X : Type} (f : Z) (append : WirePlan → X → result wire_error WirePlan) (bytes : X → list Z).

Lemma appendMessages_adds l : (∀ x p p', append p x = Ok p' → adds (bytes x) p p') →
  ∀ p p', appendMessages f append p l = Ok p' → adds (flat_map (λ x, field_bytes f (bytes x)) l) p p'.
Proof.
  intros Hx. induction l as [|x l IH]; intros p p'; cbn [appendMessages flat_map]; [intros [= <-]; apply adds_nil|].
  intros (begun & E1 & (body & E2 & H)%rbind_Ok_inv)%rbind_Ok_inv.
  eapply adds_app; [|by apply IH]. eapply message_adds; eauto.
Qed.

Lemma appendMessages_Ok l : 0 <= f < 100 → Forall (λ x, fits (bytes x) → ∀ p, ∃ p', append p x = Ok p') l →
  fits (flat_map (λ x, field_bytes f (bytes x)) l) → ∀ p, ∃ p', appendMessages f append p l = Ok p'.
Proof.
  intros Hf. induction 1 as [|x l Hx _ IH]; cbn [flat_map appendMessages]; intros Hfit p; [by eexists|].
  apply fits_app in Hfit as [Hf1%fits_field Hf2]. destruct (beginMessage_Ok p f Hf) as [begun ->]. cbn [rbind].
  destruct (Hx Hf1 begun.1) as [body ->]. by apply IH.
Qed.
End messages.

Lemma optField_adds p f o p' : nonEmptyStringField p f o = Ok p' → adds (opt_field f o) p p'.
Proof.
  destruct o as [[|c s]|]; cbn [nonEmptyStringField opt_field stringField]; try (intros [= <-]; apply adds_nil).
  apply bytesField_adds.
Qed.

Lemma optField_Ok p f o : 0 <= f < 100 → fits (opt_field f o) → ∃ p', nonEmptyStringField p f o = Ok p'.
Proof.
  intros Hf. destruct o as [[|c s]|]; cbn [nonEmptyStringField opt_field stringField]; [by eexists | | by eexists].
  intros Hfit%fits_field. by apply bytesField_Ok.
Qed.

Lemma appendStatement_adds p st p' : appendStatement p st = Ok p' → adds (statement_bytes st) p p'.
Proof.
  intros (q & E1 & E2)%rbind_Ok_inv. eapply adds_app; [by apply optField_adds|].
  by eapply appendMessages_adds; eauto using appendParam_adds.
Qed.

Lemma appendStatement_Ok p st :
  forallb sendable_param (si_params st) = true → fits (statement_bytes st) → ∃ p', appendStatement p st = Ok p'.
Proof.
  intros Hs [Hf1 Hf2]%fits_app. unfold appendStatement. destruct (optField_Ok p 1 (si_sql st)) as [q ->]; [lia | done |].
  cbn [rbind]. apply (appendMessages_Ok 2 appendParam param_bytes); [lia | | done].
  apply Forall_forall. intros v Hv Hfit q'. apply appendParam_Ok; [|done].
  rewrite forallb_forall in Hs. apply Hs. by apply list_elem_of_In.
Qed.

Lemma encode_request_bytes input :
  sendable input = true → fits (request_bytes input) → encodeD1QueryRequest input = Ok (request_bytes input).
Proof.
  intros Hs Hfit. pose proof Hfit as [F1 [F2 [F3 [F4 F5]%fits_app]%fits_app]%fits_app]%fits_app.
  unfold encodeD1QueryRequest.
  destruct (optField_Ok new_plan 1 (ri_namespace input)) as [p1 E1]; [lia | done |]. rewrite E1. cbn [rbind].
  destruct (optField_Ok p1 2 (ri_databaseId input)) as [p2 E2]; [lia | done |]. rewrite E2. cbn [rbind].
  destruct (optField_Ok p2 3 (ri_binding input)) as [p3 E3]; [lia | done |]. rewrite E3. cbn [rbind].
  destruct (optField_Ok p3 4 (ri_mode input)) as [p4 E4]; [lia | done |]. rewrite E4. cbn [rbind].
  destruct (appendMessages_Ok 5 appendStatement statement_bytes (ri_statements input)) with (p := p4) as [p5 E5]; [lia | | done |].
  { apply Forall_forall. intros st Hst Hf q. apply appendStatement_Ok; [|done]. unfold sendable in Hs.
    rewrite forallb_forall in Hs. apply (Hs st). by apply list_elem_of_In. }
  rewrite E5. cbn [rbind]. apply finish_adds; [|done].
  repeat (eapply adds_app; [by apply optField_adds|]). eapply appendMessages_adds; eauto using appendStatement_adds.
Qed.

Lemma decode_param_bytes v : sendable_param v = true → fits (param_bytes v) → decodeParam (param_bytes v) = Ok (received_param v).
Proof.
  intros Hs. pose proof (normalize_double v) as Hd. pose proof (normalize_kinds v) as Hk.
  unfold decodeParam, param_bytes, received_param in *. pose proof Hs as Hs'. unfold sendable_param in Hs'. to_prop.
  destruct (normalizeD1WireParam v) as [n|]; [|done]. specialize (Hk n eq_refl).
  intros Hfit. destruct (length _) as [|fuel] eqn:El.
  { exfalso. destruct n; try done; revert El; unfold field_bytes, tag_bytes; rewrite !length_app;
      match goal with |- context [writeVarint ?n] => pose proof (writeVarint_nonempty n) end; lia. }
  clear El. destruct n as [| |b|bits|z|s|b|l| |]; try done.
  - rewrite <- (app_nil_r (writeVarint 1)). turn. rewrite read_writeVarint by (unfold MAX_SAFE_INTEGER; lia). by destruct fuel.
  - rewrite <- (app_nil_r (writeVarint 1)). turn. rewrite read_writeVarint by (unfold MAX_SAFE_INTEGER; lia). by destruct fuel.
  - rewrite <- (app_nil_r (le_bytes _ _)). turn. rewrite read_double by by apply Hd. by destruct fuel.
  - apply fits_field in Hfit. rewrite <- (app_nil_r (field_bytes _ _)), field_bytes_app. turn.
    rewrite read_string by done. by destruct fuel.
  - apply fits_field in Hfit. rewrite <- (app_nil_r (field_bytes _ _)), field_bytes_app. turn.
    rewrite read_field by done. by destruct fuel.
Qed.

Lemma decode_params sql l : forallb sendable_param l = true → ∀ acc fuel,
  fits (flat_map (λ v, field_bytes 2 (param_bytes v)) l) →
  (length (flat_map (λ v, field_bytes 2 (param_bytes v)) l) <= fuel)%nat →
  decode_statement_from fuel (MkStatement sql acc) (flat_map (λ v, field_bytes 2 (param_bytes v)) l) =
  Ok (MkStatement sql (acc ++ map received_param l)).
Proof.
  induction l as [|v l IH]; cbn [forallb flat_map map]; intros Hs acc fuel Hfit Hfuel; [rewrite app_nil_r; by destruct fuel|].
  to_prop. rewrite length_app in Hfuel. apply fits_app in Hfit as [Hf1%fits_field Hf2].
  pose proof (field_bytes_length 2 (param_bytes v)). destruct fuel as [|fuel]; [lia|].
  rewrite field_bytes_app. turn. rewrite read_field by done. cbn [rbind fst snd st_sql st_params].
  rewrite decode_param_bytes by done. cbn [rbind]. rewrite IH by (done || lia). by rewrite <- app_assoc.
Qed.

Lemma decode_statement_bytes st :
  forallb sendable_param (si_params st) = true → fits (statement_bytes st) →
  decodeStatement (statement_bytes st) = Ok (received_statement st).
Proof.
  unfold decodeStatement, statement_bytes, received_statement. intros Hs [Hf1 Hf2]%fits_app. rewrite length_app.
  destruct (si_sql st) as [[|c s]|]; cbn [opt_field received_text default] in *;
    [by apply decode_params | | by apply decode_params].
  pose proof (field_bytes_length 1 (utf8_encode (c :: s))). apply fits_field in Hf1.
  match goal with |- decode_statement_from ?n _ _ = _ => destruct n as [|fuel] eqn:El; [lia|] end.
  rewrite field_bytes_app. turn. rewrite read_string by done. cbn [rbind fst snd st_params]. rewrite decode_params by (done || lia). done.
Qed.

(** A text of the request, stored in its place when it was sent. *)
Definition set_text (f : Z) (o : option jstr) (out : D1QueryRequest) : D1QueryRequest :=
  let '(MkRequest namespace databaseId binding mode statements) := out in
  match o with
  | None => out
  | Some s =>
      if f =? 1 then MkRequest s databaseId binding mode statements
      else if f =? 2 then MkRequest namespace s binding mode statements
      else if f =? 3 then MkRequest namespace databaseId (Some s) mode statements
      else MkRequest namespace databaseId binding (Some s) statements
  end.

Lemma decode_text f o rest fuel out :
  f = 1 ∨ f = 2 ∨ f = 3 ∨ f = 4 → fits (opt_field f o) → (length (opt_field f o ++ rest) <= fuel)%nat →
  ∃ fuel', (length rest <= fuel')%nat ∧
    decode_request_from fuel out (opt_field f o ++ rest) = decode_request_from fuel' (set_text f (received_text o) out) rest.
Proof.
  intros Hf Hfit Hfuel. rewrite length_app in Hfuel. destruct out as [namespace databaseId binding mode statements].
  destruct o as [[|c s]|]; cbn [opt_field received_text] in *; [exists fuel; split; [lia | done] | | exists fuel; split; [lia | done]].
  pose proof (field_bytes_length f (utf8_encode (c :: s))). apply fits_field in Hfit.
  destruct fuel as [|fuel]; [lia|]. exists fuel. split; [lia|]. rewrite field_bytes_app.
  destruct Hf as [-> | [-> | [-> | ->]]]; turn; rewrite read_string by done; done.
Qed.

Lemma decode_statements l : forallb (λ st, forallb sendable_param (si_params st)) l = true →
  ∀ namespace databaseId binding mode acc fuel,
  fits (flat_map (λ st, field_bytes 5 (statement_bytes st)) l) →
  (length (flat_map (λ st, field_bytes 5 (statement_bytes st)) l) <= fuel)%nat →
  decode_request_from fuel (MkRequest namespace databaseId binding mode acc)
    (flat_map (λ st, field_bytes 5 (statement_bytes st)) l) =
  Ok (MkRequest namespace databaseId binding mode (acc ++ map received_statement l)).
Proof.
  induction l as [|st l IH]; cbn [forallb flat_map map]; intros Hs namespace databaseId binding mode acc fuel Hfit Hfuel;
    [rewrite app_nil_r; by destruct fuel|].
  to_prop. rewrite length_app in Hfuel. apply fits_app in Hfit as [Hf1%fits_field Hf2].
  pose proof (field_bytes_length 5 (statement_bytes st)). destruct fuel as [|fuel]; [lia|].
  rewrite field_bytes_app. turn. rewrite read_field by done. cbn [rbind fst snd].
  rewrite decode_statement_bytes by done. cbn [rbind]. rewrite IH by (done || lia). by rewrite <- app_assoc.
Qed.

Lemma decode_request_bytes input :
  sendable input = true → fits (request_bytes input) →
  decodeD1QueryRequest (request_bytes input) = Ok (received_request input).
Proof.
  intros Hs. unfold decodeD1QueryRequest, request_bytes. intros [F1 [F2 [F3 [F4 F5]%fits_app]%fits_app]%fits_app]%fits_app.
  edestruct (decode_text 1) as (n1 & L1 & ->); [lia | exact F1 | apply Nat.le_refl |].
  edestruct (decode_text 2) as (n2 & L2 & ->); [lia | exact F2 | exact L1 |].
  edestruct (decode_text 3) as (n3 & L3 & ->); [lia | exact F3 | exact L2 |].
  edestruct (decode_text 4) as (n4 & L4 & ->); [lia | exact F4 | exact L3 |].
  unfold received_request.
  destruct (received_text (ri_namespace input)), (received_text (ri_databaseId input)), (received_text (ri_binding input)),
    (received_text (ri_mode input)); cbv [set_text Z.eqb Pos.eqb]; rewrite decode_statements by (done || lia); done.
Qed.

(** ** Decoding ends

    Each read leaves fewer bytes, so the length of the input is enough fuel for any bytes. *)

Definition ends {A} (r : result wire_error A) : Prop := r ≠ Err OutOfFuel.

Lemma ends_bind {A B} (r : result wire_error A) (f : A → result wire_error B) :
  ends r → (∀ a, r = Ok a → ends (f a)) → ends (rbind r f).
Proof. unfold ends. destruct r; cbn [rbind]; [eauto | congruence]. Qed.

Lemma read_varint_ends r : ∀ sh out, ends (read_varint_from sh out r).
Proof.
  induction r as [|b r IH]; intros sh out; cbn [read_varint_from]; [done|].
  destruct (49 <? sh); [done|]. by destruct (Z.land b 0x80 =? 0).
Qed.

Lemma read_varint_shrinks r : ∀ sh out v r', read_varint_from sh out r = Ok (v, r') → (length r' < length r)%nat.
Proof.
  induction r as [|b r IH]; intros sh out v r'; cbn [read_varint_from length]; [done|].
  destruct (49 <? sh); [done|]. destruct (Z.land b 0x80 =? 0); [intros [= _ <-]; lia|]. intros H%IH. lia.
Qed.

Lemma readTag_ends r : ends (readTag r).
Proof. apply ends_bind; [apply read_varint_ends | done]. Qed.
Lemma readTag_shrinks r f w r' : readTag r = Ok (f, w, r') → (length r' < length r)%nat.
Proof. intros ([v q] & E & [= _ _ <-])%rbind_Ok_inv. by eapply read_varint_shrinks. Qed.

Lemma readBytes_ends r n : ends (readBytes r n).
Proof. unfold readBytes. by destruct (_ || _). Qed.
Lemma readBytes_shrinks r n b r' : readBytes r n = Ok (b, r') → (length b + length r' = length r)%nat.
Proof.
  unfold readBytes. destruct (_ || _) eqn:E; [done|]. to_prop. intros [= <- <-]. rewrite length_take, length_drop. lia.
Qed.

Lemma readLengthDelimited_ends r : ends (readLengthDelimited r).
Proof. apply ends_bind; [apply read_varint_ends|]. intros a _. destruct (_ <? _); [done | apply readBytes_ends]. Qed.
Lemma readLengthDelimited_shrinks r b r' : readLengthDelimited r = Ok (b, r') → (length b + length r' < length r)%nat.
Proof.
  intros ([v q] & E & H)%rbind_Ok_inv. apply read_varint_shrinks in E. cbn [fst snd] in H.
  destruct (_ <? _); [done|]. apply readBytes_shrinks in H. lia.
Qed.

Lemma skip_ends r w : ends (skip r w).
Proof.
  unfold skip. repeat case_match; try done;
    (apply ends_bind; [first [apply read_varint_ends | apply readBytes_ends | apply readLengthDelimited_ends] | done]).
Qed.
Lemma skip_shrinks r w r' : skip r w = Ok r' → (length r' <= length r)%nat.
Proof.
  unfold skip. repeat case_match; try done; intros ([v q] & E & [= <-])%rbind_Ok_inv; cbn [snd].
  - apply read_varint_shrinks in E. lia.
  - apply readBytes_shrinks in E. lia.
  - apply readLengthDelimited_shrinks in E. lia.
Qed.

Lemma readString_ends r : ends (readString r).
Proof. apply ends_bind; [apply readLengthDelimited_ends | done]. Qed.
Lemma readString_shrinks r s r' : readString r = Ok (s, r') → (length r' < length r)%nat.
Proof. intros ([b q] & E%readLengthDelimited_shrinks & [= _ <-])%rbind_Ok_inv. cbn [snd]. lia. Qed.
Lemma readDouble_ends r : ends (readDouble r).
Proof. apply ends_bind; [apply readBytes_ends | done]. Qed.
Lemma readDouble_shrinks r v r' : readDouble r = Ok (v, r') → (length r' <= length r)%nat.
Proof. intros ([b q] & E%readBytes_shrinks & [= _ <-])%rbind_Ok_inv. cbn [snd]. lia. Qed.

(** What is left after a read is shorter. *)
Ltac shrinks :=
  repeat match goal with
  | a : _ * _ |- _ => destruct a
  | H : _ ∧ _ |- _ => destruct H
  | H : readTag _ = Ok _ |- _ => apply readTag_shrinks in H
  | H : readVarint _ = Ok _ |- _ => apply read_varint_shrinks in H
  | H : readBytes _ _ = Ok _ |- _ => apply readBytes_shrinks in H
  | H : readLengthDelimited _ = Ok _ |- _ => apply readLengthDelimited_shrinks in H
  | H : skip _ _ = Ok _ |- _ => apply skip_shrinks in H
  | H : readString _ = Ok _ |- _ => apply readString_shrinks in H
  | H : readDouble _ = Ok _ |- _ => apply readDouble_shrinks in H
  end; cbn [fst snd length] in *; lia.

(** Walks through a turn of a decoding loop: reads end, and the loop goes on with less. *)
Ltac walk :=
  repeat match goal with
  | |- ends (rbind ?r _) => apply ends_bind; [|let a := fresh "a" in let H := fresh "Hread" in intros a H]
  | |- ends (if ?b then _ else _) => destruct b
  | |- ends (match ?a with (_, _) => _ end) => destruct a
  | |- ends (readVarint _) => apply read_varint_ends
  | |- ends (readBytes _ _) => apply readBytes_ends
  | |- ends (readLengthDelimited _) => apply readLengthDelimited_ends
  | |- ends (readTag _) => apply readTag_ends
  | |- ends (skip _ _) => apply skip_ends
  | |- ends (readString _) => apply readString_ends
  | |- ends (readDouble _) => apply readDouble_ends
  end.

Lemma readScalar_ends f w r read : readScalar f w r = Some read → ends read.
Proof.
  unfold readScalar. repeat case_match; intros [= <-];
    (apply ends_bind; [first [apply read_varint_ends | apply readDouble_ends | apply readString_ends | apply readLengthDelimited_ends] | done]).
Qed.
Lemma readScalar_shrinks f w r v r' : readScalar f w r = Some (Ok (v, r')) → (length r' <= length r)%nat.
Proof.
  unfold readScalar. repeat case_match; try done; intros [= (a & E & [= _ <-])%rbind_Ok_inv]; destruct a; cbn [snd].
  - apply read_varint_shrinks in E. lia.
  - apply read_varint_shrinks in E. lia.
  - by apply readDouble_shrinks in E.
  - apply readString_shrinks in E. lia.
  - shrinks.
Qed.

Lemma decode_value_ends fuel : ∀ r, (length r <= fuel)%nat →
  (∀ k, ends (decode_value_from fuel k r)) ∧ (∀ key v, ends (decode_entry_from fuel key v r)).
Proof.
  induction fuel as [|fuel IH]; intros r Hr.
  { destruct r as [|b r]; [|simpl in Hr; lia]. split; [|done]. intros k. rewrite decode_end. by destruct k. }
  assert (∀ k r', (length r' <= fuel)%nat → ends (decode_value_from fuel k r')) as IHv by (intros; by apply IH).
  assert (∀ key v r', (length r' <= fuel)%nat → ends (decode_entry_from fuel key v r')) as IHe by (intros; by apply IH). clear IH.
  destruct r as [|b r]; [split; [|done]; intros k; rewrite decode_end; by destruct k|]. split.
  - intros k. cbn [decode_value_from]. walk.
    destruct (readScalar _ _ _) as [read|] eqn:Er.
    + walk; [by destruct k | by eapply readScalar_ends |]. subst read. destruct a0 as [v q].
      apply readScalar_shrinks in Er. apply IHv. shrinks.
    + walk; try (apply IHv || apply IHe); try shrinks; by destruct k.
  - intros key v. cbn [decode_entry_from]. walk; try (apply IHv || apply IHe); shrinks.
Qed.

Lemma decode_param_ends fuel : ∀ r v, (length r <= fuel)%nat → ends (decode_param_from fuel v r).
Proof.
  induction fuel as [|fuel IH]; intros [|b r] v Hr; cbn [length] in Hr; try lia; try (by destruct v).
  cbn [decode_param_from]. walk; try apply IH; shrinks.
Qed.

Lemma decode_statement_ends fuel : ∀ r st, (length r <= fuel)%nat → ends (decode_statement_from fuel st r).
Proof.
  induction fuel as [|fuel IH]; intros [|b r] st Hr; cbn [length] in Hr; try lia; try done.
  cbn [decode_statement_from]. walk; try apply IH; try shrinks. by apply decode_param_ends.
Qed.

Lemma decode_request_ends fuel : ∀ r out, (length r <= fuel)%nat → ends (decode_request_from fuel out r).
Proof.
  induction fuel as [|fuel IH]; intros [|b r] out Hr; cbn [length] in Hr; try lia; try done.
  cbn [decode_request_from]. destruct out. walk; try apply IH; try shrinks. by apply decode_statement_ends.
Qed.

(** ** Requests that arrive as they were sent *)

Definition plain_opt (o : option jstr) : bool := match o with Some s => plain_text s | None => true end.

(** A text that [received_text] does not take for a missing one. *)
Definition given (o : option jstr) : bool := match o with Some [] => false | _ => true end.

Definition plain_param (v : d1value) : bool :=
  match normalizeD1WireParam v with Ok (VStr s) => plain_text s | _ => true end.

Definition plain_request (input : D1QueryRequestInput) : bool :=
  plain_opt (ri_namespace input) && plain_opt (ri_databaseId input) &&
  plain_opt (ri_binding input) && given (ri_binding input) && plain_opt (ri_mode input) && given (ri_mode input) &&
  forallb (λ st, plain_opt (si_sql st) && forallb plain_param (si_params st)) (ri_statements input).

(** The owner binds the normalised value; [undefined] is bound as [null]. *)
Definition bound_as (v v' : d1value) : Prop :=
  normalizeD1WireParam v = Ok v' ∨ (normalizeD1WireParam v = Ok VUndef ∧ v' = VNull).

Definition as_sent (input : D1QueryRequestInput) (r : D1QueryRequest) : Prop :=
  rq_namespace r = default [] (ri_namespace input) ∧ rq_databaseId r = default [] (ri_databaseId input) ∧
  rq_binding r = ri_binding input ∧ rq_mode r = ri_mode input ∧
  Forall2 (λ st st', st_sql st' = default [] (si_sql st) ∧ Forall2 bound_as (si_params st) (st_params st'))
    (ri_statements input) (rq_statements r).

Lemma received_text_plain o : plain_opt o = true → given o = true → received_text o = o.
Proof. destruct o as [[|c s]|]; try done. intros H _. unfold received_text. by rewrite text_plain. Qed.

Lemma received_text_default o : plain_opt o = true → default [] (received_text o) = default [] o.
Proof. destruct o as [[|c s]|] eqn:E; try done. intros H. by rewrite (received_text_plain (Some (c :: s))). Qed.

Lemma received_param_bound v : is_ok (normalizeD1WireParam v) = true → plain_param v = true → bound_as v (received_param v).
Proof.
  unfold plain_param, received_param, bound_as. destruct (normalizeD1WireParam v) as [[]|]; try done; auto.
  intros _ H. rewrite text_plain by done. auto.
Qed.

Lemma received_as_sent input : sendable input = true → plain_request input = true → as_sent input (received_request input).
Proof.
  unfold sendable, plain_request, as_sent, received_request. intros Hs Hp. to_prop.
  cbn [rq_namespace rq_databaseId rq_binding rq_mode rq_statements].
  rewrite !received_text_default, !received_text_plain by done. split_and!; try done.
  match goal with H : forallb (λ st, plain_opt _ && _) _ = true |- _ => revert H end. revert Hs.
  induction (ri_statements input) as [|st l IH]; cbn [forallb map]; [constructor|]. intros Hs Hst. to_prop.
  constructor; [|auto]. cbn [received_statement st_sql st_params]. rewrite received_text_default by done. split; [done|].
  repeat match goal with H : forallb _ (si_params st) = true |- _ => revert H end.
  induction (si_params st) as [|v vs IHv]; cbn [forallb map]; [constructor|]. intros Ha Hb. to_prop.
  constructor; [|auto]. apply received_param_bound; [|done]. unfold sendable_param in *. to_prop. done.
Qed.

(** Text that begins with a byte-order mark is read back without it. *)
Lemma text_bom s : Forall is_unit s → well_formed s = true → text (BOM :: s) = s.
Proof.
  intros Hu Hw. unfold text, utf8_decode, utf8_encode.
  assert (scalars (BOM :: s) = BOM :: scalars s) as -> by done.
  rewrite dec_encode by (constructor; [unfold is_scalar, BOM; lia | by apply scalars_scalar]).
  rewrite Z.eqb_refl. by apply units_scalars.
Qed.

(** ** Properties *)

(** C31. A response is what it was: a value whose numbers are finite and that holds no BigInt
    or other foreign value is encoded, and decoding its bytes gives the value with
    [undefined] as [null], [undefined] members dropped and strings through UTF-8; a value of
    plain text, distinct keys and no [undefined] comes back unchanged. *)
Theorem wire_response_roundtrip (payload : d1value) :
  encodable payload = true → fits (value_bytes payload) →
  (∃ bytes, encodeD1QueryResponse payload = Ok bytes ∧ decodeD1QueryResponse bytes = Ok (received payload)) ∧
  (faithful payload = true → received payload = payload).
Proof.
  intros He Hfit. split; [|apply received_faithful]. exists (value_bytes payload).
  split; [by apply encode_value_bytes | by apply decode_value_bytes].
Qed.

(** A row set: an array of objects with a number, a text, bytes and a null. *)
Definition sample_rows : d1value :=
  VArr [VObj [(js "id", VNum (double_of_Z 7)); (js "name", VStr (js "ada")); (js "blob", VBytes [0; 255; 128])];
        VObj [(js "id", VNum (double_of_Z (-3))); (js "ok", VBool true); (js "name", VNull); (js "tags", VArr [])]].

Lemma wire_response_roundtrip_witness :
  (∃ bytes, encodeD1QueryResponse sample_rows = Ok bytes ∧ decodeD1QueryResponse bytes = Ok (received sample_rows)) ∧
  (faithful sample_rows = true → received sample_rows = sample_rows).
Proof.
  apply wire_response_roundtrip; [vm_compute; reflexivity | unfold fits; vm_compute; discriminate].
Defined.

(** C32. A request is what was asked: with parameters that [normalizeD1WireParam] takes, the
    request is encoded, and what the owner decodes is [received_request]: the statements in
    order and, of each, the parameters in order, where every text has gone through UTF-8 (a
    leading byte-order mark is dropped, an unpaired surrogate replaced), a missing or empty
    text of a name or SQL is the empty text, an empty binding or mode is absent, and an
    [undefined] parameter is [null]. When the texts are well formed without a leading mark and
    binding and mode, if given, are not empty, the owner gets the very names, mode and SQL
    texts and of each parameter its normalised value. *)
Theorem wire_request_roundtrip (input : D1QueryRequestInput) :
  sendable input = true → fits (request_bytes input) →
  ∃ bytes, encodeD1QueryRequest input = Ok bytes ∧ decodeD1QueryRequest bytes = Ok (received_request input) ∧
    (plain_request input = true → as_sent input (received_request input)).
Proof.
  intros Hs Hfit. exists (request_bytes input).
  split_and!; [by apply encode_request_bytes | by apply decode_request_bytes | by apply received_as_sent].
Qed.

Definition sample_request : D1QueryRequestInput :=
  MkRequestInput (Some (js "acme")) (Some (js "db1")) None (Some (js "all"))
    [MkStatementInput (Some (js "insert into t values (?, ?)")) [VBig 41; VStr (js "x")];
     MkStatementInput (Some (js "select * from t where ok = ?")) [VBool true; VArr [VNum (double_of_Z 255)]; VUndef]].

Lemma wire_request_roundtrip_witness :
  ∃ bytes, encodeD1QueryRequest sample_request = Ok bytes ∧
           decodeD1QueryRequest bytes = Ok (received_request sample_request) ∧
           as_sent sample_request (received_request sample_request).
Proof.
  destruct (wire_request_roundtrip sample_request) as (bytes & He & Hd & Hs);
    [vm_compute; reflexivity | unfold fits; vm_compute; discriminate|].
  exists bytes. split; [done|]. split; [done|]. apply Hs. vm_compute. reflexivity.
Defined.

(** C33. Decoding ends on any bytes: every turn of the loops takes bytes off the reader, at every
    depth of nesting, so that malformed input is decoded or refused and never loops. *)
Theorem wire_decoding_ends (bytes : list Z) :
  decodeD1QueryRequest bytes ≠ Err OutOfFuel ∧ decodeD1QueryResponse bytes ≠ Err OutOfFuel.
Proof.
  split; [by apply decode_request_ends | by apply decode_value_ends].
Qed.

(** The decoder of the wire drops a leading byte-order mark: a string that begins with
    U+FEFF, sent as a result value, is read back without its first character. *)
Lemma wire_drops_byte_order_mark (s : jstr) :
  Forall is_unit s → well_formed s = true → fits (value_bytes (VStr (BOM :: s))) →
  ∃ bytes, encodeD1QueryResponse (VStr (BOM :: s)) = Ok bytes ∧ decodeD1QueryResponse bytes = Ok (VStr s).
Proof.
  intros Hu Hw Hfit. exists (value_bytes (VStr (BOM :: s))). split; [by apply encode_value_bytes|].
  unfold decodeD1QueryResponse. rewrite decode_value_bytes by done. cbn [received]. by rewrite text_bom.
Qed.
