(* ===== verification/D1Router.v ===== *)
(** * The read caches of the D1 router

    Models the cache handling of src/d1-runtime/router.js: the per-database caches with
    their common byte budget, [beginRouterRead], and what [handleQuery] does with the caches
    when the query comes back, fails or throws. The actor that executes queries is a
    parameter that keeps [ActorContract], which D1Actor.v proves of the modelled one; requests
    interleave at the points where the code awaits it. *)

From stdpp Require Import base list strings gmap.
From Stdlib Require Import ZArith Lia.
From S2P Require Import Prelude JsMap NsPattern Utf8 Json JsNumber D1ReadCache.

#[local] Open Scope Z_scope.

Definition ROUTER_READ_CACHE_MAX_DBS : Z := 10000.

(** [routerReadCaches], [routerReadCacheBytes] and the symbols made so far. *)
Record router := Router { routerReadCaches : jmap jstr D1ReadCache; routerReadCacheBytes : Z; symbols : nat }.

Definition initial_router : router := Router [] 0 0.

Definition accountRouterReadCacheBytes (cache : D1ReadCache) (previousBytes : Z) (r : router) : router :=
  Router (routerReadCaches r) (routerReadCacheBytes r + (retainedBytes cache - previousBytes)) (symbols r).

(** The removed cache object is invalidated or not and retired; nothing refers to it any
    more, what is left of it is that a new symbol was made. *)
Definition removeRouterReadCache (dbKey : jstr) (r : router) : router :=
  match jm_get dbKey (routerReadCaches r) with
  | None => r
  | Some cache =>
      Router (jm_delete dbKey (routerReadCaches r)) (routerReadCacheBytes r - retainedBytes cache) (S (symbols r))
  end.

(** Each round removes a cache: as many rounds as caches are enough. *)
Fixpoint enforceLoop (fuel : nat) (maxBytes : Z) (r : router) : router :=
  match fuel with
  | O => r
  | S fuel =>
      if maxBytes <? routerReadCacheBytes r then
        match jm_first_key (routerReadCaches r) with
        | None => r
        | Some oldestKey => enforceLoop fuel maxBytes (removeRouterReadCache oldestKey r)
        end
      else r
  end.

Definition enforceRouterReadCacheByteBudget (maxBytes : Z) (r : router) : router :=
  enforceLoop (length (routerReadCaches r)) maxBytes r.

Fixpoint makeRoomLoop (fuel : nat) (r : router) : router :=
  match fuel with
  | O => r
  | S fuel =>
      if ROUTER_READ_CACHE_MAX_DBS <=? Z.of_nat (jm_size (routerReadCaches r)) then
        match jm_first_key (routerReadCaches r) with
        | None => r
        | Some oldestKey => makeRoomLoop fuel (removeRouterReadCache oldestKey r)
        end
      else r
  end.

(** [present]: the cache is the one already kept for the database. *)
Definition retainRouterReadCache (dbKey : jstr) (cache : D1ReadCache) (present : bool) (r : router) : router :=
  if present then Router (jm_touch dbKey cache (routerReadCaches r)) (routerReadCacheBytes r) (symbols r)
  else
    let r := makeRoomLoop (length (routerReadCaches r)) r in
    Router (jm_set dbKey cache (routerReadCaches r)) (routerReadCacheBytes r) (symbols r).

Definition forgetRouterReadCache (dbKey : jstr) (r : router) : router := removeRouterReadCache dbKey r.

Definition put_cache (dbKey : jstr) (cache : D1ReadCache) (r : router) : router :=
  Router (jm_set dbKey cache (routerReadCaches r)) (routerReadCacheBytes r) (symbols r).

Definition invalidateRouterReadCache (dbKey : jstr) (r : router) : router :=
  match jm_get dbKey (routerReadCaches r) with
  | None => r
  | Some cache =>
      accountRouterReadCacheBytes (invalidate cache) (retainedBytes cache) (put_cache dbKey (invalidate cache) r)
  end.

(** ** Which queries may write *)

Definition mutatesDb (query : ReadCacheQuery) : bool :=
  set_has (map js ["exec"; "batch"; "run"]) (q_mode query).

Definition queryMayChangeDb (query : ReadCacheQuery) : bool :=
  existsb (λ s, statementMayChangeDb (s_sql s)) (q_statements query).

Definition queryMayMutateDb (query : ReadCacheQuery) : bool := mutatesDb query || queryMayChangeDb query.

Section router.
Variable JSON_stringify : jsval → jstr.
Variable localTask : jstr.
Variable cacheConfig : ReadCacheConfig.

Definition canDelayMutationInvalidation (query : ReadCacheQuery) : bool :=
  match q_statements query with
  | [] => false
  | l => forallb (λ s, statementMayBeIdempotentSchemaDdl (s_sql s)) l
  end.

(** ** Starting a query *)

Record RouterRead := MkRead {
  rr_token : option ReadCacheToken; rr_hit : option ReadCacheEntry; rr_preInvalidated : bool;
  rr_mayHaveWritten : bool }.

(** A cache object under its database: the kept one, or a new one with a new symbol. *)
Definition routerReadCacheCandidate (dbKey : jstr) (r : router) : D1ReadCache * bool * router :=
  match jm_get dbKey (routerReadCaches r) with
  | Some cache => (cache, true, r)
  | None => (newCache cacheConfig (symbols r), false,
             Router (routerReadCaches r) (routerReadCacheBytes r) (S (symbols r)))
  end.

Definition beginRouterRead (query : ReadCacheQuery) (owner : ReadCacheOwner) (now : Z) (r : router)
    : router * RouterRead :=
  let mayMutateDb := queryMayMutateDb query in
  let delayedMutationInvalidation := mayMutateDb && canDelayMutationInvalidation query in
  if negb (jeqb (o_taskId owner) localTask) then
    (forgetRouterReadCache (q_dbKey query) r, MkRead None None false mayMutateDb)
  else if mayMutateDb && negb delayedMutationInvalidation then
    (invalidateRouterReadCache (q_dbKey query) r, MkRead None None true false)
  else if negb (jeqb (q_mode query) (js "all")) && negb (jeqb (q_mode query) (js "raw")) then
    (r, MkRead None None false mayMutateDb)
  else if negb (isReadCacheableQuery query cacheConfig)
          || negb (cacheKeyStringsCouldFit query owner (maxBytes cacheConfig)) then
    (r, MkRead None None false mayMutateDb)
  else
    let '(cache, present, r) := routerReadCacheCandidate (q_dbKey query) r in
    let '(cache', read) := beginRead JSON_stringify query owner now cache in
    let r := accountRouterReadCacheBytes cache' (retainedBytes cache) r in
    (* a kept cache is updated in place *)
    let r := if present then put_cache (q_dbKey query) cache' r else r in
    let r := match b_hit read, b_token read with
             | None, None => r
             | _, _ => retainRouterReadCache (q_dbKey query) cache' present r
             end in
    (r, MkRead (match b_hit read with Some _ => None | None => b_token read end) (b_hit read) false mayMutateDb).

(** ** Finishing a query *)

(** What [handleQuery] reads off a response: the outcome, [responseChangedDb], the body, the
    value encoding of the success headers, and whether the response may be stored. *)
Record response := Response {
  rs_ok : bool; rs_changedDb : bool; rs_bytes : list Z; rs_valueEncoding : option jstr; rs_storable : bool }.

Inductive query_outcome := Responded (resp : response) | Threw.

Definition storeRead (query : ReadCacheQuery) (owner : ReadCacheOwner) (read : RouterRead) (resp : response)
    (r : router) : router :=
  match jm_get (q_dbKey query) (routerReadCaches r) with
  | None => r
  | Some cache =>
      let '(cache', stored) := finishRead JSON_stringify (rr_token read) query owner (rs_bytes resp)
                                 (rs_valueEncoding resp) cache in
      let r := accountRouterReadCacheBytes cache' (retainedBytes cache) (put_cache (q_dbKey query) cache' r) in
      if stored then
        enforceRouterReadCacheByteBudget (maxBytes (config cache'))
          (Router (jm_touch (q_dbKey query) cache' (routerReadCaches r)) (routerReadCacheBytes r) (symbols r))
      else r
  end.

(** The [try], [catch] and [finally] of [handleQuery] after the query was routed. *)
Definition settleQuery (query : ReadCacheQuery) (owner : ReadCacheOwner) (read : RouterRead)
    (outcome : query_outcome) (r : router) : router :=
  let invalidateIf (b : bool) r := if b then invalidateRouterReadCache (q_dbKey query) r else r in
  let r :=
    match outcome with
    | Responded resp =>
        if rs_ok resp then
          if rs_changedDb resp && negb (rr_preInvalidated read) then invalidateRouterReadCache (q_dbKey query) r
          else match rr_token read with
               | Some _ => if rs_storable resp then storeRead query owner read resp r else r
               | None => r
               end
        else invalidateIf (rr_mayHaveWritten read) r
    | Threw => invalidateIf (rr_mayHaveWritten read) r
    end in
  invalidateIf (rr_preInvalidated read) r.

(** ** Requests over time *)

Context {State Chance : Type}.
(** The actor of a database (D1Actor.v): its state with the database in it, what time and
    chance bring to a run, and the next state, the response and whether the database
    changed. *)
Variable execute : ReadCacheQuery → Chance → State → State * response * bool.
(** The queries the router is asked. *)
Variable asked : ReadCacheQuery → Prop.

(** [Executed]: the response, how many queries the actor had executed before, and whether
    this one changed the database. *)
Inductive phase :=
| Started (read : RouterRead)
| Executed (read : RouterRead) (resp : response) (before : nat) (changed : bool).

Record request := Request { rq_query : ReadCacheQuery; rq_owner : ReadCacheOwner; rq_phase : phase }.

(** [w_index]: how many queries the actor of a database executed; [w_history]: its state after
    so many; [w_acked]: the state after the last write, in the actor's order, whose request has
    finished since the actor executed it. *)
Record world := World {
  w_router : router;
  w_index : jstr → nat;
  w_history : jstr → nat → State;
  w_acked : jstr → nat;
  w_requests : list request }.

Definition upd {A} (k : jstr) (v : A) (f : jstr → A) : jstr → A := λ k', if jeqb k k' then v else f k'.
Definition upd_nat {A} (k : nat) (v : A) (f : nat → A) : nat → A := λ k', if (k =? k')%nat then v else f k'.

Definition initial_world (dbs : jstr → State) : world :=
  World initial_router (λ _, O) (λ k _, dbs k) (λ _, O) [].

(** A step, with the query and the entry when it is answered from the cache. *)
Inductive router_step : world → option (ReadCacheQuery * ReadCacheEntry) → world → Prop :=
| StepHit w q o now r read e :
    beginRouterRead q o now (w_router w) = (r, read) → rr_hit read = Some e → plain (key_json q o) →
    router_step w (Some (q, e)) (World r (w_index w) (w_history w) (w_acked w) (w_requests w))
| StepBegin w q o now r read :
    asked q → beginRouterRead q o now (w_router w) = (r, read) → rr_hit read = None →
    (is_Some (rr_token read) → plain (key_json q o)) →
    router_step w None (World r (w_index w) (w_history w) (w_acked w) (Request q o (Started read) :: w_requests w))
| StepExecute w q o read n rqs rqs' s' resp changed :
    w_requests w = rqs ++ Request q o (Started read) :: rqs' →
    let k := q_dbKey q in
    let i := w_index w k in
    execute q n (w_history w k i) = (s', resp, changed) →
    router_step w None
      (World (w_router w) (upd k (S i) (w_index w)) (upd k (upd_nat (S i) s' (w_history w k)) (w_history w)) (w_acked w)
         (rqs ++ Request q o (Executed read resp i changed) :: rqs'))
(** The request ends after the actor executed it, with the response or without. *)
| StepFinish w q o read resp i changed rqs rqs' outcome :
    w_requests w = rqs ++ Request q o (Executed read resp i changed) :: rqs' →
    (outcome = Responded resp ∨ outcome = Threw) →
    let k := q_dbKey q in
    router_step w None
      (World (settleQuery q o read outcome (w_router w)) (w_index w) (w_history w)
         (if changed then upd k (Nat.max (w_acked w k) (S i)) (w_acked w) else w_acked w) (rqs ++ rqs'))
(** The request ends before the actor executed it; the actor may still do so, and then the
    write belongs to no request any more. *)
| StepAbandon w q o read rqs rqs' :
    w_requests w = rqs ++ Request q o (Started read) :: rqs' →
    router_step w None
      (World (settleQuery q o read Threw (w_router w)) (w_index w) (w_history w) (w_acked w) (rqs ++ rqs'))
| StepOrphan w q n s' resp changed :
    asked q →
    let k := q_dbKey q in
    let i := w_index w k in
    execute q n (w_history w k i) = (s', resp, changed) →
    router_step w None
      (World (w_router w) (upd k (S i) (w_index w)) (upd k (upd_nat (S i) s' (w_history w k)) (w_history w))
         (w_acked w) (w_requests w)).
End router.

(** ** How the caches change *)

Record router_ok (r : router) : Prop := {
  ro_keys : jm_wf (routerReadCaches r);
  ro_cache : ∀ k c, jm_get k (routerReadCaches r) = Some c → cache_ok c ∧ (epoch c < symbols r)%nat;
  ro_epochs : ∀ k k' c c', jm_get k (routerReadCaches r) = Some c → jm_get k' (routerReadCaches r) = Some c' →
    epoch c = epoch c' → k = k' }.

(** Which entries an operation may add to the cache of a database. *)
Definition additions := jstr → jstr → ReadCacheEntry → Prop.
Definition nothing : additions := λ _ _ _, False.

(** A later state of the same cache object. *)
Record cache_le (P : additions) (k : jstr) (c c' : D1ReadCache) : Prop := {
  cl_ok : cache_ok c';
  cl_epoch : epoch c' = epoch c;
  cl_version : mutationVersion c <= mutationVersion c';
  cl_entries : ∀ key e, jm_get key (entries c') = Some e → jm_get key (entries c) = Some e ∨ P k key e }.

(** Caches may go, and those that stay gain only the additions. *)
Record keeps (P : additions) (r r' : router) : Prop := {
  kp_keys : jm_wf (routerReadCaches r');
  kp_symbols : (symbols r <= symbols r')%nat;
  kp_caches : ∀ k c', jm_get k (routerReadCaches r') = Some c' →
    ∃ c, jm_get k (routerReadCaches r) = Some c ∧ cache_le P k c c' }.

(** Besides, there may be a new cache; it is empty and has a symbol of its own. *)
Record evolves (P : additions) (r r' : router) : Prop := {
  ev_ok : router_ok r';
  ev_symbols : (symbols r <= symbols r')%nat;
  ev_caches : ∀ k c', jm_get k (routerReadCaches r') = Some c' →
    (∃ c, jm_get k (routerReadCaches r) = Some c ∧ cache_le P k c c') ∨
    (symbols r <= epoch c')%nat ∧ entries c' = [] }.

Lemma cache_le_refl P k c : cache_ok c → cache_le P k c c.
Proof. intros. split; [done|done|lia|auto]. Qed.

Lemma cache_le_trans P k c1 c2 c3 : cache_le P k c1 c2 → cache_le P k c2 c3 → cache_le P k c1 c3.
Proof.
  intros [A1 A2 A3 A4] [B1 B2 B3 B4]. split; [done|congruence|lia|].
  intros key e He. apply B4 in He as [He|]; auto.
Qed.

Lemma keeps_refl P r : router_ok r → keeps P r r.
Proof.
  intros H. split; [apply H|lia|]. intros k c E. exists c. split; [done|]. by apply cache_le_refl, (ro_cache _ H k).
Qed.

Lemma keeps_trans P r1 r2 r3 : keeps P r1 r2 → keeps P r2 r3 → keeps P r1 r3.
Proof.
  intros [A1 A2 A3] [B1 B2 B3]. split; [done|lia|]. intros k c3 E.
  destruct (B3 k c3 E) as (c2 & E2 & L2). destruct (A3 k c2 E2) as (c1 & E1 & L1).
  exists c1. split; [done|]. by eapply cache_le_trans.
Qed.

(** Caches that stay keep their symbols: the router stays well formed. *)
Lemma keeps_ok P r r' : router_ok r → keeps P r r' → router_ok r'.
Proof.
  intros Hr [B1 B2 B3]. split; [done| |].
  - intros k c E. destruct (B3 k c E) as (c0 & E0 & [L1 L2 _ _]). destruct (ro_cache _ Hr k c0 E0). split; [done|lia].
  - intros k k' c c' E E' Hep. destruct (B3 k c E) as (c0 & E0 & [_ L2 _ _]). destruct (B3 k' c' E') as (c0' & E0' & [_ L2' _ _]).
    eapply (ro_epochs _ Hr); eauto. congruence.
Qed.

Lemma keeps_evolves P r r' : router_ok r → keeps P r r' → evolves P r r'.
Proof.
  intros Hr Hk. split; [by eapply keeps_ok|apply Hk|]. intros k c E. left. by apply (kp_caches _ _ _ Hk).
Qed.

(** The bytes counted do not matter here. *)
Lemma keeps_bytes P r m n n' s : keeps P r (Router m n s) → keeps P r (Router m n' s).
Proof. intros [A B C]. by split. Qed.

Lemma remove_keeps P k r : router_ok r → keeps P r (removeRouterReadCache k r).
Proof.
  intros H. unfold removeRouterReadCache. destruct (jm_get k (routerReadCaches r)) as [c|]; [|by apply keeps_refl].
  split; cbn [routerReadCaches symbols]; [apply jm_wf_delete, H|lia|]. intros k' c' E. rewrite jm_get_delete in E.
  case_decide; [done|]. exists c'. split; [done|]. by apply cache_le_refl, (ro_cache _ H k').
Qed.

Lemma enforce_keeps P fuel maxBytes : ∀ r, router_ok r → keeps P r (enforceLoop fuel maxBytes r).
Proof.
  induction fuel as [|fuel IH]; intros r H; cbn [enforceLoop]; [by apply keeps_refl|].
  destruct (_ <? _); [|by apply keeps_refl]. destruct (jm_first_key _) as [k|]; [|by apply keeps_refl].
  pose proof (remove_keeps P k r H) as Hs. eapply keeps_trans; [done|]. apply IH. by eapply keeps_ok.
Qed.

Lemma makeRoom_keeps P fuel : ∀ r, router_ok r → keeps P r (makeRoomLoop fuel r).
Proof.
  induction fuel as [|fuel IH]; intros r H; cbn [makeRoomLoop]; [by apply keeps_refl|].
  destruct (_ <=? _); [|by apply keeps_refl]. destruct (jm_first_key _) as [k|]; [|by apply keeps_refl].
  pose proof (remove_keeps P k r H) as Hs. eapply keeps_trans; [done|]. apply IH. by eapply keeps_ok.
Qed.

(** Replacing a cache by a later state of it, in place or at the end. *)
Lemma replace_keeps P r k c c' m n : router_ok r → jm_get k (routerReadCaches r) = Some c → cache_le P k c c' →
  jm_wf m → (∀ k', jm_get k' m = if decide (k' = k) then Some c' else jm_get k' (routerReadCaches r)) →
  keeps P r (Router m n (symbols r)).
Proof.
  intros H E Hle Hwf Hm. split; cbn [routerReadCaches symbols]; [done|lia|]. intros k' c2 E2. rewrite Hm in E2.
  case_decide; [simplify_eq; by exists c|]. exists c2. split; [done|]. by apply cache_le_refl, (ro_cache _ H k').
Qed.

Lemma put_keeps P r k c c' n : router_ok r → jm_get k (routerReadCaches r) = Some c → cache_le P k c c' →
  keeps P r (Router (jm_set k c' (routerReadCaches r)) n (symbols r)).
Proof. intros H E Hle. eapply replace_keeps; eauto; [apply jm_wf_set, H|]. intros k'. apply jm_get_set. Qed.

Lemma touch_keeps P r k c c' n : router_ok r → jm_get k (routerReadCaches r) = Some c → cache_le P k c c' →
  keeps P r (Router (jm_touch k c' (routerReadCaches r)) n (symbols r)).
Proof. intros H E Hle. eapply replace_keeps; eauto; [apply jm_wf_touch, H|]. intros k'. apply jm_get_touch. Qed.

Lemma invalidate_le P k c : cache_ok c → cache_le P k c (invalidate c).
Proof. intros H. split; cbn; [|done|lia|done]. split; cbn; [apply jm_wf_nil|done|constructor|lia|lia]. Qed.

Lemma invalidate_keeps P k r : router_ok r → keeps P r (invalidateRouterReadCache k r).
Proof.
  intros H. unfold invalidateRouterReadCache. destruct (jm_get k (routerReadCaches r)) as [c|] eqn:E; [|by apply keeps_refl].
  apply (put_keeps P r k c); [done|done|]. by apply invalidate_le, (ro_cache _ H k).
Qed.

(** The cache of a database is gone, or it is empty and has a new version. *)
Definition cleared (k : jstr) (r r' : router) : Prop :=
  ∀ c', jm_get k (routerReadCaches r') = Some c' → entries c' = [] ∧
    ∃ c, jm_get k (routerReadCaches r) = Some c ∧ epoch c' = epoch c ∧ mutationVersion c < mutationVersion c'.

Lemma invalidate_cleared P k r r1 : keeps P r r1 → cleared k r (invalidateRouterReadCache k r1).
Proof.
  intros [_ _ Hs] c' E. unfold invalidateRouterReadCache in E.
  destruct (jm_get k (routerReadCaches r1)) as [c|] eqn:Ec; [|congruence].
  cbn [accountRouterReadCacheBytes put_cache routerReadCaches] in E. rewrite jm_get_set in E.
  rewrite decide_True in E by done. injection E as <-. split; [done|].
  destruct (Hs k c Ec) as (c0 & E0 & [_ He Hv _]). exists c0. cbn. split_and!; [done|done|lia].
Qed.

(** ** What a request does to the caches *)

Section steps.
Variable JSON_stringify : jsval → jstr.
Variable localTask : jstr.
Variable cacheConfig : ReadCacheConfig.
Local Abbreviation readCacheKey := (readCacheKey JSON_stringify).

(** A token is of a cache of its own database, and of no later version. *)
Definition token_ok (r : router) (k : jstr) (t : ReadCacheToken) : Prop :=
  (t_epoch t < symbols r)%nat ∧
  ∀ k' c, jm_get k' (routerReadCaches r) = Some c → epoch c = t_epoch t → k' = k ∧ t_version t <= mutationVersion c.

(** The token is the one the cache of the database gives out now. *)
Definition token_live (r : router) (k : jstr) (t : ReadCacheToken) : Prop :=
  ∃ c, jm_get k (routerReadCaches r) = Some c ∧ t_epoch t = epoch c ∧ t_version t = mutationVersion c.

Lemma token_ok_evolves P r r' k t : evolves P r r' → token_ok r k t → token_ok r' k t.
Proof.
  intros [_ Hs Hc] [Ht Hm]. split; [lia|]. intros k' c' E Ee.
  destruct (Hc k' c' E) as [(c & Ec & [_ Hep Hv _])|[Hf _]]; [|lia].
  destruct (Hm k' c Ec) as [-> ?]; [congruence|]. split; [done|lia].
Qed.

Lemma token_live_evolves P r r' k t : evolves P r r' → token_ok r k t → token_live r' k t → token_live r k t.
Proof.
  intros [_ Hs Hc] [Ht Hm] (c' & E & He & Hv). destruct (Hc k c' E) as [(c & Ec & [_ Hep Hle _])|[Hf _]]; [|lia].
  exists c. destruct (Hm k c Ec) as [_ ?]; [congruence|]. split_and!; [done|congruence|lia].
Qed.

Lemma token_cleared r r' k t : cleared k r r' → token_ok r k t → ¬ token_live r' k t.
Proof.
  intros Hcl [Ht Hm] (c' & E & He & Hv). destruct (Hcl c' E) as (_ & c & Ec & Hep & Hlt).
  destruct (Hm k c Ec) as [_ ?]; [congruence|]. lia.
Qed.

Lemma new_cache_ok symbol : cache_ok (newCache cacheConfig symbol).
Proof. split; cbn; [apply jm_wf_nil|done|constructor|lia|lia]. Qed.

(** A new cache under a database that has none, in a router that has lost some caches. *)
Lemma add_evolves r r1 k c n : router_ok r → jm_get k (routerReadCaches r) = None →
  keeps nothing (Router (routerReadCaches r) (routerReadCacheBytes r) (S (symbols r))) r1 →
  cache_ok c → epoch c = symbols r → entries c = [] →
  evolves nothing r (Router (jm_set k c (routerReadCaches r1)) n (symbols r1)).
Proof.
  intros Hr Hnone Hk Hc He Hempty. destruct Hk as [Hwf Hs Hcs]. cbn [symbols routerReadCaches] in *.
  assert (∀ k' c', jm_get k' (routerReadCaches r1) = Some c' → (epoch c' < symbols r)%nat ∧ k' ≠ k) as Hold.
  { intros k' c' E. destruct (Hcs k' c' E) as (c0 & E0 & [_ Hep _ _]). destruct (ro_cache _ Hr k' c0 E0).
    split; [lia|]. intros ->. congruence. }
  split; cbn [symbols routerReadCaches]; [|lia|].
  - split; cbn [symbols routerReadCaches]; [by apply jm_wf_set| |].
    + intros k' c' E. rewrite jm_get_set in E. case_decide; [simplify_eq; split; [done|lia]|].
      destruct (Hcs k' c' E) as (c0 & E0 & [? _ _ _]). split; [done|]. destruct (Hold k' c' E). lia.
    + intros k1 k2 c1 c2 E1 E2 Hep. rewrite jm_get_set in E1, E2.
      destruct (decide (k1 = k)) as [->|]; destruct (decide (k2 = k)) as [->|]; [done|..].
      * injection E1 as <-. destruct (Hold k2 c2 E2). lia.
      * injection E2 as <-. destruct (Hold k1 c1 E1). lia.
      * destruct (Hcs k1 c1 E1) as (d1 & F1 & [_ G1 _ _]). destruct (Hcs k2 c2 E2) as (d2 & F2 & [_ G2 _ _]).
        eapply (ro_epochs _ Hr); eauto. congruence.
  - intros k' c' E. rewrite jm_get_set in E. case_decide; [simplify_eq; right; split; [lia|done]|]. left. by apply Hcs.
Qed.

Lemma beginRead_le q o now c c' b k : cache_ok c → beginRead JSON_stringify q o now c = (c', b) → cache_le nothing k c c'.
Proof.
  intros Hok E. apply beginRead_spec in E as (H1 & (_ & H2 & H3) & H4 & _); [|done].
  split; [done|done|lia|]. intros key e He. left. auto.
Qed.

(** The token of a cache that the router keeps under the database. *)
Lemma kept_token_ok r k c c' exp : router_ok r → jm_get k (routerReadCaches r) = Some c' →
  epoch c' = epoch c → mutationVersion c' = mutationVersion c → token_ok r k (Token (epoch c) (mutationVersion c) exp).
Proof.
  intros Hr E He Hv. split; cbn; [rewrite <- He; by apply (ro_cache _ Hr k)|].
  intros k2 c2 E2 Hep. assert (k2 = k) as -> by (eapply (ro_epochs _ Hr); eauto; congruence). split; [done|].
  simplify_eq. lia.
Qed.

Lemma begin_spec q o now r r' read : router_ok r →
  beginRouterRead JSON_stringify localTask cacheConfig q o now r = (r', read) →
  evolves nothing r r' ∧
  (queryMayMutateDb q = true → rr_preInvalidated read = true ∨ rr_mayHaveWritten read = true) ∧
  (∀ e, rr_hit read = Some e → ∃ c, jm_get (q_dbKey q) (routerReadCaches r) = Some c ∧
     jm_get (readCacheKey q o) (entries c) = Some e) ∧
  (∀ t, rr_token read = Some t → token_ok r' (q_dbKey q) t).
Proof.
  intros Hr. unfold beginRouterRead. destruct (negb (jeqb (o_taskId o) localTask)).
  { intros [= <- <-]. split_and!; [|cbn; auto|done|done]. apply keeps_evolves; [done|]. by apply remove_keeps. }
  destruct (_ && _). { intros [= <- <-]. split_and!; [|cbn; auto|done|done]. apply keeps_evolves; [done|]. by apply invalidate_keeps. }
  assert (evolves nothing r r) as Hrefl by by apply keeps_evolves, keeps_refl.
  destruct (_ && _); [intros [= <- <-]; split_and!; cbn; [done|auto|done|done]|].
  destruct (_ || _); [intros [= <- <-]; split_and!; cbn; [done|auto|done|done]|].
  unfold routerReadCacheCandidate. set (k := q_dbKey q).
  destruct (jm_get k (routerReadCaches r)) as [c|] eqn:Ec;
    destruct (beginRead _ _ _ _ _) as [c' b] eqn:Eb; intros [= <- <-]; cbn [rr_hit rr_token rr_preInvalidated rr_mayHaveWritten].
  - destruct (ro_cache _ Hr k c Ec) as [Hc _]. pose proof (beginRead_le _ _ _ _ _ _ k Hc Eb) as Hle.
    apply beginRead_spec in Eb as (Hc' & (_ & Hv & He) & _ & Hhit & Htok); [|done].
    set (r1 := put_cache k c' _). assert (keeps nothing r r1) as H1 by by apply (put_keeps nothing r k c).
    assert (jm_get k (routerReadCaches r1) = Some c') as E1 by (cbn; by rewrite jm_get_set, decide_True by done).
    set (r2 := match b_hit b with None => _ | _ => _ end). assert (keeps nothing r r2 ∧ jm_get k (routerReadCaches r2) = Some c') as [H2 E2].
    { assert (keeps nothing r (retainRouterReadCache k c' true r1) ∧ jm_get k (routerReadCaches (retainRouterReadCache k c' true r1)) = Some c').
      { cbn [retainRouterReadCache routerReadCaches]. rewrite jm_get_touch, decide_True by done. split; [|done].
        eapply keeps_trans; [exact H1|]. eapply touch_keeps; [by eapply keeps_ok|done|by apply cache_le_refl]. }
      subst r2. by destruct (b_hit b), (b_token b). }
    split_and!; [by apply keeps_evolves|auto| |].
    + intros e He'. exists c. split; [done|]. by apply Hhit.
    + intros t Ht. destruct (b_hit b); [done|]. destruct (Htok t Ht) as [_ ->].
      by apply (kept_token_ok r2 k c c'); [eapply keeps_ok|..].
  - pose proof (new_cache_ok (symbols r)) as Hc.
    apply beginRead_spec in Eb as (Hc' & (_ & Hv & He) & Hsub & Hhit & Htok); [|done].
    assert (entries c' = []) as Hempty.
    { destruct (entries c') as [|[key e] es] eqn:Ees; [done|]. specialize (Hsub key e). cbn in Hsub.
      rewrite decide_True in Hsub by done. by specialize (Hsub eq_refl). }
    assert (b_hit b = None) as Hnone. { destruct (b_hit b) as [e|] eqn:Eh; [|done]. by destruct (Hhit e eq_refl) as (_ & ? & _). }
    rewrite Hnone in *. set (r0 := Router (routerReadCaches r) (routerReadCacheBytes r) (S (symbols r))).
    assert (router_ok r0) as Hr0.
    { destruct Hr as [A B C]. split; [done| |done]. intros k' c0 E0. destruct (B k' c0 E0). split; [done|cbn; lia]. }
    assert (∀ fuel, keeps nothing r0 (makeRoomLoop fuel (accountRouterReadCacheBytes c' 0 r0))) as Hroom.
    { intros fuel. eapply keeps_trans; [|apply makeRoom_keeps]; [|by destruct Hr0; split].
      by destruct (keeps_refl nothing r0 Hr0); split. }
    destruct (b_token b) as [t|] eqn:Et; (split_and!; [|auto|done|]).
    + cbn [retainRouterReadCache]. eapply (add_evolves r); [done|done| |done|done|done].
      apply Hroom.
    + intros t' [= <-]. destruct (Htok t eq_refl) as [_ ->]. set (r1 := makeRoomLoop _ _).
      apply (kept_token_ok _ k _ c'); [|cbn; by rewrite jm_get_set, decide_True by done|done|done].
      eapply ev_ok, (add_evolves r); [done|done| |done|done|done].
      apply Hroom.
    + split; [by destruct Hr0; split|cbn; lia|]. intros k' c0 E0. left. exists c0. split; [done|].
      by apply cache_le_refl, (ro_cache _ Hr k').
    + done.
Qed.

(** What [storeRead] may add: the response, under a live token. *)
Definition stored (q : ReadCacheQuery) (o : ReadCacheOwner) (read : RouterRead) (resp : response) (r : router) : additions :=
  λ k key e, k = q_dbKey q ∧ key = readCacheKey q o ∧ e_bytes e = rs_bytes resp ∧
    e_valueEncoding e = rs_valueEncoding resp ∧ ∃ t, rr_token read = Some t ∧ token_live r k t.

Lemma store_keeps q o read resp r : router_ok r →
  keeps (stored q o read resp r) r (storeRead JSON_stringify q o read resp r).
Proof.
  intros Hr. unfold storeRead. set (k := q_dbKey q).
  destruct (jm_get k (routerReadCaches r)) as [c|] eqn:Ec; [|by apply keeps_refl].
  destruct (ro_cache _ Hr k c Ec) as [Hc _].
  destruct (finishRead _ _ _ _ _ _ _) as [c' b] eqn:Ef. apply finishRead_spec in Ef as (Hc' & (_ & Hv & He) & _ & Hent); [|done].
  assert (cache_le (stored q o read resp r) k c c') as Hle.
  { split; [done|done|lia|]. intros key e Hke. destruct (Hent key e Hke) as [|(-> & Hb & Henc & t & Ht & Hte & Htv & _)]; [auto|].
    right. split_and!; try done. exists t. split; [done|]. by exists c. }
  set (r1 := accountRouterReadCacheBytes _ _ _). assert (keeps (stored q o read resp r) r r1) as H1 by by apply (put_keeps _ r k c).
  destruct b; [|done]. assert (jm_get k (routerReadCaches r1) = Some c') as E1 by (cbn; by rewrite jm_get_set, decide_True by done).
  assert (router_ok r1) as Hr1 by by eapply keeps_ok. set (r2 := Router (jm_touch _ _ _) _ _).
  assert (keeps (stored q o read resp r) r1 r2) as H2 by by apply (touch_keeps _ r1 k c' c'), cache_le_refl.
  eapply keeps_trans; [exact H1|]. eapply keeps_trans; [exact H2|]. apply enforce_keeps. by eapply keeps_ok.
Qed.

Definition settled (q : ReadCacheQuery) (o : ReadCacheOwner) (read : RouterRead) (outcome : query_outcome) (r : router) : additions :=
  λ k key e, ∃ resp, outcome = Responded resp ∧ rs_ok resp = true ∧ stored q o read resp r k key e.

Lemma keeps_mono (P Q : additions) r r' : (∀ k key e, P k key e → Q k key e) → keeps P r r' → keeps Q r r'.
Proof.
  intros HPQ [A B C]. split; [done|done|]. intros k c E. destruct (C k c E) as (c0 & E0 & [L1 L2 L3 L4]).
  exists c0. split; [done|]. split; [done..|]. intros key e He. destruct (L4 key e He); auto.
Qed.

Lemma invalidateIf_keeps P (b : bool) k r r' : router_ok r → keeps P r r' →
  keeps P r (if b then invalidateRouterReadCache k r' else r').
Proof. intros Hr H. destruct b; [|done]. eapply keeps_trans; [done|]. apply invalidate_keeps. by eapply keeps_ok. Qed.

Lemma settle_keeps q o read outcome r : router_ok r →
  keeps (settled q o read outcome r) r (settleQuery JSON_stringify q o read outcome r).
Proof.
  intros Hr. unfold settleQuery. pose proof (keeps_refl (settled q o read outcome r) r Hr) as Hrefl.
  apply (invalidateIf_keeps _ (rr_preInvalidated read)); [done|]. destruct outcome as [resp|].
  - destruct (rs_ok resp) eqn:Eok; [|by apply (invalidateIf_keeps _ (rr_mayHaveWritten read))].
    destruct (_ && _); [by apply (invalidateIf_keeps _ true)|]. destruct (rr_token read) as [t|] eqn:Et; [|done].
    destruct (rs_storable resp); [|done]. eapply keeps_mono; [|by apply store_keeps].
    intros k key e Hst. by exists resp.
  - by apply (invalidateIf_keeps _ (rr_mayHaveWritten read)).
Qed.

(** A request that may have written clears the cache of its database, unless it succeeded
    and its response says that nothing changed. *)
Lemma settle_cleared q o read outcome r : router_ok r →
  rr_preInvalidated read = true ∨ rr_mayHaveWritten read = true →
  (∀ resp, outcome = Responded resp → rs_ok resp = true → rs_changedDb resp = true) →
  cleared (q_dbKey q) r (settleQuery JSON_stringify q o read outcome r).
Proof.
  intros Hr Hread Hout. unfold settleQuery. pose proof (keeps_refl nothing r Hr) as Hrefl.
  destruct (rr_preInvalidated read) eqn:Epre.
  - set (r1 := match outcome with Responded _ => _ | Threw => _ end).
    apply (invalidate_cleared (settled q o read outcome r)).
    destruct outcome as [resp|]; [destruct (rs_ok resp) eqn:Eok|].
    + subst r1. rewrite (Hout resp eq_refl Eok). cbn [andb negb].
      destruct (rr_token read) as [t|] eqn:Et; [|by apply keeps_refl].
      destruct (rs_storable resp); [|by apply keeps_refl].
      eapply keeps_mono; [|by apply store_keeps]. intros k key e Hst. by exists resp.
    + apply invalidateIf_keeps; [done|]. by apply keeps_refl.
    + apply invalidateIf_keeps; [done|]. by apply keeps_refl.
  - destruct Hread as [|Hw]; [done|]. rewrite Hw. destruct outcome as [resp|].
    + destruct (rs_ok resp) eqn:Eok; [|by eapply invalidate_cleared].
      rewrite (Hout resp eq_refl Eok). by eapply invalidate_cleared.
    + by eapply invalidate_cleared.
Qed.
End steps.

(** ** Reads see finished writes *)

(** What the router relies on: while the queries are ones the actor is asked, its states stay
    good, a query that changes the database has a mutating mode or a write keyword, and a
    successful response to it says so. *)
Class ActorContract {State Chance : Type} (execute : ReadCacheQuery → Chance → State → State * response * bool)
    (asked : ReadCacheQuery → Prop) (good : State → Prop) : Prop := {
  actor_good : ∀ q n s s' resp changed, asked q → good s → execute q n s = (s', resp, changed) → good s';
  actor_reports : ∀ q n s s' resp, asked q → good s → execute q n s = (s', resp, true) →
    queryMayMutateDb q = true ∧ (rs_ok resp = true → rs_changedDb resp = true) }.

Section reads.
Context {State Chance : Type} (execute : ReadCacheQuery → Chance → State → State * response * bool)
  (asked : ReadCacheQuery → Prop) (good : State → Prop) `{!ActorContract execute asked good}.
Variable JSON_stringify : jsval → jstr.
Variable localTask : jstr.
Variable cacheConfig : ReadCacheConfig.

(** On strings, safe integers and records of them the printer is the modelled one. *)
Hypothesis JSON_plain : ∀ v, plain v → stringify v = Some (JSON_stringify v).

Local Abbreviation world := (@world State).
Local Abbreviation readCacheKey := (readCacheKey JSON_stringify).
Local Abbreviation step := (router_step JSON_stringify localTask cacheConfig execute asked).

(** A response to the query from a state of the actor after all finished writes. *)
Definition current_response (w : world) (q : ReadCacheQuery) (bytes : list Z) (encoding : option jstr) : Prop :=
  ∃ n i s' resp changed, (w_acked w (q_dbKey q) <= i <= w_index w (q_dbKey q))%nat ∧
    execute q n (w_history w (q_dbKey q) i) = (s', resp, changed) ∧
    rs_ok resp = true ∧ rs_bytes resp = bytes ∧ rs_valueEncoding resp = encoding.

Definition entry_ok (w : world) : additions := λ k key e,
  ∃ q o, key = readCacheKey q o ∧ q_dbKey q = k ∧ plain (key_json q o) ∧
    current_response w q (e_bytes e) (e_valueEncoding e).

Definition read_of (rq : request) : RouterRead :=
  match rq_phase rq with Started read => read | Executed read _ _ _ => read end.

Record request_ok (w : world) (rq : request) : Prop := {
  rq_asked : asked (rq_query rq);
  rq_writes : queryMayMutateDb (rq_query rq) = true →
    rr_preInvalidated (read_of rq) = true ∨ rr_mayHaveWritten (read_of rq) = true;
  rq_token : ∀ t, rr_token (read_of rq) = Some t →
    token_ok (w_router w) (q_dbKey (rq_query rq)) t ∧ plain (key_json (rq_query rq) (rq_owner rq));
  rq_executed : ∀ read resp i changed, rq_phase rq = Executed read resp i changed →
    let k := q_dbKey (rq_query rq) in
    (i < w_index w k)%nat ∧
    (∃ n s', execute (rq_query rq) n (w_history w k i) = (s', resp, changed)) ∧
    (∀ t, rr_token read = Some t → token_live (w_router w) k t → (w_acked w k <= i)%nat) }.

Record world_ok (w : world) : Prop := {
  wo_router : router_ok (w_router w);
  wo_acked : ∀ k, (w_acked w k <= w_index w k)%nat;
  wo_good : ∀ k i, (i <= w_index w k)%nat → good (w_history w k i);
  wo_entries : ∀ k c key e, jm_get k (routerReadCaches (w_router w)) = Some c →
    jm_get key (entries c) = Some e → entry_ok w k key e;
  wo_requests : Forall (request_ok w) (w_requests w) }.

Definition with_router (w : world) (r : router) : world := World r (w_index w) (w_history w) (w_acked w) (w_requests w).

Lemma request_evolves P w r rq : evolves P (w_router w) r → request_ok w rq → request_ok (with_router w r) rq.
Proof.
  intros He [H0 H1 H2 H3]. split; [done|done| |].
  - intros t Ht. destruct (H2 t Ht). split; [|done]. by eapply token_ok_evolves.
  - intros read resp i j Hp. destruct (H3 read resp i j Hp) as (? & ? & Hl). split; [done|split; [done|]].
    intros t Ht Hlive. apply (Hl t Ht). eapply token_live_evolves; [done| |done]. apply H2. unfold read_of. by rewrite Hp.
Qed.

Lemma world_evolves P w r : world_ok w → evolves P (w_router w) r →
  (∀ k key e, P k key e → entry_ok w k key e) → world_ok (with_router w r).
Proof.
  intros [A1 A2 A5 A3 A4] He HP. split; [apply He|done|done| |].
  - intros k c' key e Ec Ee. destruct (ev_caches _ _ _ He k c' Ec) as [(c & Ec0 & Hle)|[_ Hempty]].
    + destruct (cl_entries _ _ _ _ Hle key e Ee) as [Ee0|HPe]; [by eapply A3|by apply HP].
    + by rewrite Hempty in Ee.
  - eapply Forall_impl; [done|]. intros rq. by eapply request_evolves.
Qed.

#[local] Instance statement_json_inj : Inj (=) (=) statement_json.
Proof. intros [a b] [a' b'] Hs. unfold statement_json in Hs. cbn in Hs. by injection Hs as -> ->. Qed.

(** Equal keys of one database are of the same query. *)
Lemma key_query q o q' o' : plain (key_json q o) → plain (key_json q' o') → q_dbKey q = q_dbKey q' →
  readCacheKey q o = readCacheKey q' o' → q = q'.
Proof.
  intros Hp Hp' Hk Heq. pose proof (JSON_plain _ Hp) as E. pose proof (JSON_plain _ Hp') as E'.
  unfold D1ReadCache.readCacheKey in Heq. rewrite Heq in E.
  destruct (json_roundtrip _ Hp) as (t & Et & Ep & _). destruct (json_roundtrip _ Hp') as (t' & Et' & Ep' & _).
  assert (key_json q o = key_json q' o') as Hj by congruence. destruct q as [k m st], q' as [k' m' st'].
  cbn in Hk. subst k'. unfold key_json in Hj. cbn [q_mode q_statements] in Hj.
  assert (m = m' ∧ map statement_json st = map statement_json st') as [-> Hst] by (clear -Hj; injection Hj; auto).
  f_equal. by apply (inj (fmap (M := list) statement_json)) in Hst.
Qed.

(** Executing a query adds a state at the end. *)
Definition after_run (w : world) (k : jstr) (s' : State) (rqs : list request) : world :=
  World (w_router w) (upd k (S (w_index w k)) (w_index w))
    (upd k (upd_nat (S (w_index w k)) s' (w_history w k)) (w_history w)) (w_acked w) rqs.

Lemma upd_eq {A} k (v : A) f : upd k v f k = v.
Proof. unfold upd. by rewrite jeqb_refl. Qed.

Lemma run_index w k s' rqs k' : (w_index w k' <= w_index (after_run w k s' rqs) k')%nat.
Proof.
  cbn. unfold upd. destruct (jeqb k k') eqn:E; [|lia]. apply jeqb_eq in E as ->. lia.
Qed.

Lemma run_history w k s' rqs k' i : (i <= w_index w k')%nat →
  w_history (after_run w k s' rqs) k' i = w_history w k' i.
Proof.
  intros Hi. cbn. unfold upd, upd_nat. destruct (jeqb k k') eqn:E; [|done]. apply jeqb_eq in E as ->.
  destruct (Nat.eqb_spec (S (w_index w k')) i); [lia|done].
Qed.

Lemma run_good w k s' rqs : world_ok w → good s' →
  ∀ k' i, (i <= w_index (after_run w k s' rqs) k')%nat → good (w_history (after_run w k s' rqs) k' i).
Proof.
  intros Hw Hs k' i Hi. destruct (decide (i <= w_index w k')%nat) as [H|H].
  { rewrite run_history by done. by apply (wo_good _ Hw). }
  revert Hi. cbn. unfold upd, upd_nat. destruct (jeqb k k') eqn:E; [|lia]. apply jeqb_eq in E as ->.
  intros Hi. by rewrite (proj2 (Nat.eqb_eq (S (w_index w k')) i)) by lia.
Qed.

Lemma run_request w k s' rqs rq : request_ok w rq → request_ok (after_run w k s' rqs) rq.
Proof.
  intros [H0 H1 H2 H3]. split; [done|done|done|]. intros read resp i j Hp.
  destruct (H3 read resp i j Hp) as (Hij & Hex & Hl).
  pose proof (run_index w k s' rqs (q_dbKey (rq_query rq))). split; [lia|]. split; [|done].
  rewrite run_history by lia. done.
Qed.

Lemma state_ok w k s' rqs : world_ok w → good s' → Forall (request_ok w) rqs → world_ok (after_run w k s' rqs).
Proof.
  intros Hw Hs Hrqs. pose proof (run_good w k s' rqs Hw Hs). destruct Hw as [A1 A2 A5 A3 A4]. split; [done| |done| |].
  - intros k'. pose proof (A2 k'). pose proof (run_index w k s' rqs k'). cbn [w_acked after_run]. lia.
  - intros k' c key e Ec Ee. destruct (A3 k' c key e Ec Ee) as (q & o & -> & Hk & Hp & n & i & d & rs & ch & Hi & Hex & Hrest).
    exists q, o. split_and!; try done. exists n, i, d, rs, ch. pose proof (run_index w k s' rqs (q_dbKey q)).
    split; [cbn [w_acked after_run] in *; lia|]. rewrite run_history by lia. done.
  - eapply Forall_impl; [exact Hrqs|]. intros rq. apply run_request.
Qed.

Lemma with_requests_ok w rqs : world_ok w → Forall (request_ok w) rqs →
  world_ok (World (w_router w) (w_index w) (w_history w) (w_acked w) rqs).
Proof.
  intros [A1 A2 A5 A3 A4] H. split; try done. eapply Forall_impl; [exact H|]. by intros rq [? ? ? ?].
Qed.

Lemma begin_ok w q o now r read rqs : world_ok w → asked q →
  beginRouterRead JSON_stringify localTask cacheConfig q o now (w_router w) = (r, read) →
  (is_Some (rr_token read) → plain (key_json q o)) →
  rqs = Request q o (Started read) :: w_requests w →
  world_ok (World r (w_index w) (w_history w) (w_acked w) rqs).
Proof.
  intros Hw Hq E Hplain Hrqs. destruct (begin_spec _ _ _ _ _ _ _ _ _ (wo_router _ Hw) E) as (Hev & Hmut & _ & Htok).
  pose proof (world_evolves nothing w r Hw Hev (λ _ _ _ (H : False), False_ind _ H)) as Hw'.
  apply (with_requests_ok _ rqs) in Hw'; [done|]. pose proof (wo_requests _ Hw') as Hold.
  subst rqs. constructor; [|done]. split; [done|done| |done].
  intros t Ht. split; [by apply Htok|]. apply Hplain. by exists t.
Qed.

Lemma execute_ok w q o read n s' resp changed rqs rqs' : world_ok w →
  w_requests w = rqs ++ Request q o (Started read) :: rqs' →
  execute q n (w_history w (q_dbKey q) (w_index w (q_dbKey q))) = (s', resp, changed) →
  world_ok (after_run w (q_dbKey q) s' (rqs ++ Request q o (Executed read resp (w_index w (q_dbKey q)) changed) :: rqs')).
Proof.
  intros Hw Erq Hex. pose proof (wo_requests _ Hw) as Hrqs. rewrite Erq in Hrqs.
  apply Forall_app in Hrqs as [Hrqs1 Hrqs2]. apply Forall_cons in Hrqs2 as [[R0 R1 R2 _] Hrqs2].
  set (i := w_index w (q_dbKey q)) in *. set (rqs0 := rqs ++ rqs').
  assert (good s') as Hs by (eapply actor_good; [exact R0|by apply (wo_good _ Hw)|exact Hex]).
  assert (world_ok (after_run w (q_dbKey q) s' rqs0)) as Hc by (apply state_ok; [done|done|]; by apply Forall_app).
  pose proof (wo_requests _ Hc) as H0. cbn [after_run w_requests] in H0.
  apply (with_requests_ok _ (rqs ++ Request q o (Executed read resp i changed) :: rqs') Hc).
  apply Forall_app in H0 as [??]. apply Forall_app. split; [done|]. constructor; [|done].
  split; cbn [rq_query rq_owner rq_phase read_of] in *; [done|done|done|].
  intros ? ? ? ? [= <- <- <- <-]. cbn zeta. rewrite run_history by lia. split_and!; [|by exists n, s'|].
  - cbn [after_run w_index]. rewrite upd_eq. lia.
  - intros _ _ _. apply (wo_acked _ Hw).
Qed.

(** A settled request stores only the response it got. *)
Lemma settled_entry_ok w q o read resp i changed outcome : world_ok w →
  request_ok w (Request q o (Executed read resp i changed)) → outcome = Responded resp ∨ outcome = Threw →
  ∀ k key e, settled JSON_stringify q o read outcome (w_router w) k key e → entry_ok w k key e.
Proof.
  intros Hw [_ _ H2 H3] Hout k key e (rs & Hrs & Hok & -> & -> & Hb & Henc & t & Ht & Hlive).
  assert (rs = resp) as -> by (destruct Hout; congruence).
  destruct (H3 read resp i changed eq_refl) as (Hij & (n & s' & Hex) & Hl). cbn [rq_query rq_owner] in *.
  exists q, o. split_and!; [done|done|by apply (H2 t)|]. exists n, i, s', resp, changed.
  specialize (Hl t Ht Hlive). split_and!; [lia|lia|done|done|by rewrite Hb|by rewrite Henc].
Qed.

(** A finished write may be taken note of once the cache of its database is clear. *)
Lemma ack_ok w k j : world_ok w → (j <= w_index w k)%nat →
  (∀ c, jm_get k (routerReadCaches (w_router w)) = Some c → entries c = []) →
  Forall (λ rq, ∀ t, q_dbKey (rq_query rq) = k → rr_token (read_of rq) = Some t → ¬ token_live (w_router w) k t) (w_requests w) →
  world_ok (World (w_router w) (w_index w) (w_history w) (upd k (Nat.max (w_acked w k) j) (w_acked w)) (w_requests w)).
Proof.
  intros [A1 A2 A5 A3 A4] Hj Hempty Hdead. split; cbn; [done| |done| |].
  - intros k'. unfold upd. destruct (jeqb k k') eqn:E; [|done]. apply jeqb_eq in E as <-. pose proof (A2 k). lia.
  - intros k' c key e Ec Ee. destruct (decide (k' = k)) as [->|Hne]; [by rewrite (Hempty c Ec) in Ee|].
    destruct (A3 k' c key e Ec Ee) as (q & o & -> & Hk & Hp & n & i & d & rs & ch & Hi & Hrest).
    exists q, o. split_and!; try done. exists n, i, d, rs, ch. cbn. split; [|done].
    unfold upd. destruct (jeqb k (q_dbKey q)) eqn:E; [|done]. apply jeqb_eq in E. congruence.
  - rewrite Forall_forall in A4, Hdead |- *. intros rq Hin. destruct (A4 rq Hin) as [H0 H1 H2 H3]. split; [done|done|done|].
    intros read resp i j' Hp. destruct (H3 read resp i j' Hp) as (? & ? & Hl). split; [done|]. split; [done|].
    intros t Ht Hlive. cbn in Hlive |- *. unfold upd. destruct (jeqb k (q_dbKey (rq_query rq))) eqn:E; [|by apply (Hl t)].
    apply jeqb_eq in E. exfalso. apply (Hdead rq Hin t); [done| |by rewrite E]. unfold read_of. by rewrite Hp.
Qed.

Lemma finish_ok w q o read resp i changed rqs rqs' outcome : world_ok w →
  w_requests w = rqs ++ Request q o (Executed read resp i changed) :: rqs' → outcome = Responded resp ∨ outcome = Threw →
  world_ok (World (settleQuery JSON_stringify q o read outcome (w_router w)) (w_index w) (w_history w)
    (if changed then upd (q_dbKey q) (Nat.max (w_acked w (q_dbKey q)) (S i)) (w_acked w) else w_acked w) (rqs ++ rqs')).
Proof.
  intros Hw Erq Hout. pose proof (wo_requests _ Hw) as Hrqs. rewrite Erq in Hrqs.
  apply Forall_app in Hrqs as [Hrqs1 Hrqs2]. apply Forall_cons in Hrqs2 as [Hrq Hrqs2].
  pose proof (wo_router _ Hw) as Hr. set (r := settleQuery _ _ _ _ _ _).
  assert (Forall (request_ok w) (rqs ++ rqs')) as Hold by by apply Forall_app.
  apply (with_requests_ok w (rqs ++ rqs') Hw) in Hold as Hw1.
  assert (world_ok (with_router (World (w_router w) (w_index w) (w_history w) (w_acked w) (rqs ++ rqs')) r)) as Hw2.
  { eapply world_evolves; [done| |].
    - apply keeps_evolves; [done|]. by apply settle_keeps.
    - intros k key e He. eapply (settled_entry_ok w) in He; eauto. }
  destruct changed; [|done].
  destruct Hrq as [R0 R1 _ R3]. destruct (R3 read resp i true eq_refl) as (Hi & (n & s' & Hex) & _).
  cbn [rq_query read_of rq_phase] in *.
  apply actor_reports in Hex as [Hmut Hrep]; [|done|apply (wo_good _ Hw); lia].
  assert (cleared (q_dbKey q) (w_router w) r) as Hcl.
  { apply settle_cleared; [done|by apply R1|]. intros rs Hrs Hok. destruct Hout; [|congruence].
    assert (rs = resp) as -> by congruence. auto. }
  apply (ack_ok _ (q_dbKey q) (S i) Hw2); cbn; [lia| |].
  - intros c Ec. by apply Hcl.
  - rewrite Forall_forall in Hold |- *. intros rq Hin t Hk Ht. eapply token_cleared; [done|].
    rewrite <- Hk. by apply (rq_token _ _ (Hold rq Hin)).
Qed.

Lemma abandon_ok w q o read rqs rqs' : world_ok w → w_requests w = rqs ++ Request q o (Started read) :: rqs' →
  world_ok (World (settleQuery JSON_stringify q o read Threw (w_router w)) (w_index w) (w_history w) (w_acked w) (rqs ++ rqs')).
Proof.
  intros Hw Erq. pose proof (wo_requests _ Hw) as Hrqs. rewrite Erq in Hrqs.
  apply Forall_app in Hrqs as [Hrqs1 Hrqs2]. apply Forall_cons in Hrqs2 as [_ Hrqs2].
  assert (Forall (request_ok w) (rqs ++ rqs')) as Hold by by apply Forall_app.
  apply (world_evolves (settled JSON_stringify q o read Threw (w_router w)) _ _ (with_requests_ok w _ Hw Hold)).
  - apply keeps_evolves; [apply Hw|]. apply settle_keeps, Hw.
  - intros k key e (resp & [=] & _).
Qed.

Lemma hit_ok w q o now r read : world_ok w →
  beginRouterRead JSON_stringify localTask cacheConfig q o now (w_router w) = (r, read) → world_ok (with_router w r).
Proof.
  intros Hw E. destruct (begin_spec _ _ _ _ _ _ _ _ _ (wo_router _ Hw) E) as (Hev & _).
  exact (world_evolves nothing w r Hw Hev (λ _ _ _ (H : False), False_ind _ H)).
Qed.

Lemma router_step_ok w l w' : world_ok w → step w l w' → world_ok w'.
Proof.
  intros Hw Hs. destruct Hs.
  - by eapply hit_ok.
  - eapply begin_ok; [done|done|eassumption|done|done].
  - eapply execute_ok; eauto.
  - eapply finish_ok; eauto.
  - by apply abandon_ok.
  - apply state_ok; [done| |apply Hw]. eapply actor_good; [eassumption|by apply (wo_good _ Hw)|eassumption].
Qed.

(** The worlds a router gets into, from actors in any state. *)
Inductive router_reach (dbs : jstr → State) : world → Prop :=
| RouterStart : router_reach dbs (initial_world dbs)
| RouterStep w l w' : router_reach dbs w → step w l w' → router_reach dbs w'.

Lemma router_reach_ok dbs w : (∀ k, good (dbs k)) → router_reach dbs w → world_ok w.
Proof.
  intros Hgood. induction 1 as [|w l w' _ IH Hs]; [|by eapply router_step_ok].
  split; cbn; [|done|done|done|constructor]. split; cbn; [apply jm_wf_nil|done|done].
Qed.

(** An answer from the cache is one that the actor gives after all finished writes. *)
Lemma hits_current dbs w q e w' : (∀ k, good (dbs k)) → router_reach dbs w → step w (Some (q, e)) w' →
  current_response w q (e_bytes e) (e_valueEncoding e).
Proof.
  intros Hgood Hreach Hs. apply router_reach_ok in Hreach as Hw; [|done].
  inversion Hs as [w0 q0 o now r read e0 E Hhit Hp| | | | |]; subst.
  destruct (begin_spec _ _ _ _ _ _ _ _ _ (wo_router _ Hw) E) as (_ & _ & Hfound & _).
  destruct (Hfound e Hhit) as (c & Ec & Ee).
  destruct (wo_entries _ Hw _ _ _ _ Ec Ee) as (q' & o' & Hkey & Hk & Hp' & Hresp).
  by rewrite (key_query q o q' o' Hp Hp' (eq_sym Hk) Hkey).
Qed.
End reads.
