(* ===== verification/D1Actor.v ===== *)
(** * The D1 actor

    Models how src/d1-runtime/actor.js executes a query on its SQLite database: the lease
    budget, the result limits, single statements, [exec] and [batch] with their transactions,
    the memo of schema objects that exist, and what the response says about changes. It
    discharges the contract of D1Router.v and states what the two give together.

    SQLite is a parameter, [SqlEngine], with the laws [SqlLaws]. The query is the one the
    actor has decoded (C32 is about the envelope); [assertCurrentOwnerWithLeaseBudget] is
    D1Owner.v's and its answer part of [chance], like the clocks. Test hooks, the wait for an
    idle actor and the recorded sizes are left out. *)

From stdpp Require Import base list strings gmap.
From Stdlib Require Import ZArith Lia.
From S2P Require Import Prelude JsMap NsPattern Utf8 Json JsNumber Hash D1ReadCache D1Router D1Wire.

#[local] Open Scope Z_scope.
#[local] Open Scope wdl_scope.

Definition DEFAULT_D1_MAX_RESULT_ROWS : Z := 65536.
Definition DEFAULT_D1_MAX_RESULT_BYTES : Z := 16 * 1024 * 1024.
Definition D1_RESULT_VALUE_OVERHEAD_BYTES : Z := 8.
Definition D1_RESULT_CONTAINER_OVERHEAD_BYTES : Z := 16.
Definition SCHEMA_OBJECT_MEMO_MAX_ENTRIES : Z := 1024.
Definition SCHEMA_OBJECT_MEMO_MAX_CODE_UNITS : Z := 64 * 1024.

Definition SCHEMA_MUTATION_SQL_RE (s : jstr) : bool :=
  has_keyword (map js ["create"; "drop"; "alter"; "reindex"; "vacuum"; "attach"; "detach"]) s.

Definition positiveIntOr (value : jsval) (fallback : Z) : Z :=
  match value with
  | JUndef | JNull | JStr [] => fallback
  | _ => match Number_of value with
         | NInt n => if is_safe_integer n && (0 <? n) then n else fallback
         | _ => fallback
         end
  end.

Definition maxResultRows (env : list (jstr * jsval)) : Z :=
  positiveIntOr (obj_get (js "D1_MAX_RESULT_ROWS") env) DEFAULT_D1_MAX_RESULT_ROWS.
Definition maxResultBytes (env : list (jstr * jsval)) : Z :=
  positiveIntOr (obj_get (js "D1_MAX_RESULT_BYTES") env) DEFAULT_D1_MAX_RESULT_BYTES.

(** ** SQLite *)

(** The values SQLite has. *)
Inductive cell := CNull | CNum (bits : Z) | CText (s : jstr) | CBlob (bytes : list Z).

Definition cell_value (c : cell) : d1value :=
  match c with CNull => VNull | CNum bits => VNum bits | CText s => VStr s | CBlob b => VBytes b end.

Record cursor := Cursor { columnNames : list jstr; raw : list (list cell); rowsWritten : Z; rowsRead : Z }.

(** [state.storage.sql]: [sql_exec] runs a text with its parameters, where the number stands
    for time and randomness, and gives the database after it and a cursor, or none when it
    throws; [sqlite_master]: the schema table, a type and a name of each object. *)
Class SqlEngine (Db : Type) := {
  sql_exec : jstr → list jsval → nat → Db → Db * option cursor;
  databaseSize : Db → Z;
  sqlite_master : Db → list (jstr * jstr) }.

Definition ddl_type (index : bool) : jstr := if index then js "index" else js "table".
Definition schema_row (ddl : bool * jstr) : jstr * jstr := (ddl_type ddl.1, ddl.2).

Definition SCHEMA_OBJECT_SQL : jstr := js "select 1 as found from sqlite_master where type = ? and name = ? limit 1".
Definition LAST_ROW_SQL : jstr := js "SELECT last_insert_rowid() as last_row_id".

(** A text that may remove a schema object, and one that holds a single SQL statement. *)
Definition may_remove (sql : jstr) : bool := has_keyword (map js ["drop"; "alter"]) (trim sql).
Definition one_statement (sql : jstr) : bool := negb (hasNonTrailingStatementSeparator sql).

(** What SQLite promises. [law_read]: a text without any of the words that begin a statement
    that writes changes nothing. [law_schema], [law_last_row]: the two queries the actor adds
    are answered. [law_create]: CREATE ... IF NOT EXISTS changes the database only by adding
    the object it names. [law_remove]: an object goes away only by a text with the word DROP
    or ALTER, and such a statement, when it is alone in its text, returns an empty cursor
    (one that fails undoes what it did). *)
Class SqlLaws (Db : Type) `{!SqlEngine Db} : Prop := {
  law_read : ∀ sql params r db, has_keyword write_keywords (trim sql) = false → (sql_exec sql params r db).1 = db;
  law_schema : ∀ type name r db, ∃ c,
    sql_exec SCHEMA_OBJECT_SQL [JStr type; JStr name] r db = (db, Some c) ∧ (raw c ≠ [] ↔ (type, name) ∈ sqlite_master db);
  law_last_row : ∀ r db, ∃ c, sql_exec LAST_ROW_SQL [] r db = (db, Some c);
  law_create : ∀ sql ddl params r db, parseIdempotentSchemaDdl sql = Some ddl →
    let db' := (sql_exec sql params r db).1 in
    (∀ row, row ∈ sqlite_master db → row ∈ sqlite_master db') ∧
    (db' ≠ db → schema_row ddl ∉ sqlite_master db ∧ schema_row ddl ∈ sqlite_master db');
  law_remove : ∀ sql params r db db' out row, sql_exec sql params r db = (db', out) →
    row ∈ sqlite_master db → row ∉ sqlite_master db' →
    may_remove sql = true ∧
    (one_statement sql = true → ∃ c, out = Some c ∧ columnNames c = [] ∧ raw c = []) }.

(** ** Result limits *)

Inductive actor_error :=
| TaskDraining | NotOwner | LimitExceeded | LeaseBudgetExhausted | SqlFailed
| BatchStatementError (statementIndex : nat) (cause : actor_error).

(** [budget.remaining] after the bytes. *)
Definition consumeResultBudget (remaining bytes : Z) : result actor_error Z :=
  if remaining <? bytes then Err LimitExceeded else Ok (remaining - bytes).

Definition resultValueBytes (value : cell) : Z :=
  match value with
  | CNull => D1_RESULT_VALUE_OVERHEAD_BYTES
  | CNum _ => D1_RESULT_VALUE_OVERHEAD_BYTES + 8
  | CText s => D1_RESULT_VALUE_OVERHEAD_BYTES + utf8ByteLength s
  | CBlob b => D1_RESULT_VALUE_OVERHEAD_BYTES + Z.of_nat (length b)
  end.

Definition sum_bytes {A} (f : A → Z) (l : list A) : Z := fold_left (λ sum x, sum + f x) l 0.

Inductive ResultsFormat := NONE | ROWS_AND_COLUMNS.

Definition resultRowBytes (row : list cell) : Z := D1_RESULT_CONTAINER_OVERHEAD_BYTES + sum_bytes resultValueBytes row.

(** The loop over the rows, [taken] of them already pushed. *)
Fixpoint take_rows (rowLimit taken remaining : Z) (rows : list (list cell)) : result actor_error Z :=
  match rows with
  | [] => Ok remaining
  | row :: rows =>
      if rowLimit <=? taken then Err LimitExceeded
      else let! remaining := consumeResultBudget remaining (resultRowBytes row) in take_rows rowLimit (taken + 1) remaining rows
  end.

(** The results and the budget left. *)
Definition resultFromCursor (c : cursor) (resultsFormat : ResultsFormat) (rowLimit remaining : Z)
    : result actor_error (d1value * Z) :=
  match resultsFormat with
  | NONE => Ok (VArr [], remaining)
  | ROWS_AND_COLUMNS =>
      let! remaining := consumeResultBudget remaining
        (D1_RESULT_CONTAINER_OVERHEAD_BYTES + sum_bytes (λ column, resultValueBytes (CText column)) (columnNames c)) in
      let! remaining := take_rows rowLimit 0 remaining (raw c) in
      Ok (VObj [(js "columns", VArr (map VStr (columnNames c)));
                (js "rows", VArr (map (λ row, VArr (map cell_value row)) (raw c)))], remaining)
  end.

Definition num (n : Z) : d1value := VNum (double_of_Z n).

(** [taskId] hashes to 32 bits: eight hexadecimal digits. *)
Definition servedByLabel (taskId : jstr) : jstr :=
  match taskId with
  | [] => js "unknown"
  | _ => js "d1-" ++ map (λ i, hex_digit (Z.shiftr (fnv1a32Utf8 taskId) (4 * i) mod 16)) [7; 6; 5; 4; 3; 2; 1; 0]
  end.

Definition schemaObjectMemoKey (ddl : bool * jstr) : jstr := ddl_type ddl.1 ++ 0 :: ddl.2.

(** [record[field]] of an object *)
Definition field_of (key : jstr) (v : d1value) : d1value :=
  match v with
  | VObj fields => match find (λ e, jeqb e.1 key) fields with Some e => e.2 | None => VUndef end
  | _ => VUndef
  end.

Definition item_changed (item : d1value) : bool :=
  match field_of (js "changed_db") (field_of (js "meta") item) with VBool b => b | _ => false end.

Definition payloadChangedDb (payload : d1value) : bool :=
  let items := match payload with VArr l => l | v => [v] end in
  existsb item_changed items.

(** [value || 0] *)
Definition or_zero (c : cell) : d1value :=
  match c with
  | CNull | CText [] => num 0
  | CNum bits => if (bits =? 0) || (bits =? NEGATIVE_ZERO) || ((exponent_bits bits =? 2047) && negb (mantissa_bits bits =? 0))
                 then num 0 else VNum bits
  | c => cell_value c
  end.

(** ** The actor *)

Section actor.
Context {Db : Type} `{!EqDecision Db, !SqlEngine Db}.

(** [a_sql]: the database; the memo is a set in the order of insertion. *)
Record D1Actor := Actor {
  a_sql : Db; schemaObjectExistsMemo : list jstr; schemaObjectExistsMemoCodeUnits : Z }.

Definition new_actor (db : Db) : D1Actor := Actor db [] 0.

(** What time and chance bring to a query: was the actor evicted since its last query, is the
    task draining, what the owner assertion answered (lease left and guard, when they are
    numbers), the owner's task, the readings of the clocks and the chances of the database. *)
Record chance := Chance {
  evicted : bool;
  isDraining : bool;
  ownerAssertion : option (option Z * option Z);
  ownerTaskId : jstr;
  monotonicNowMs : nat → Z;
  date_now : nat → Z;
  random : nat → nat }.

Variable env : list (jstr * jsval).
Variable ch : chance.

(** A computation of the actor: its state and how often the clocks and the database were used
    so far; an error keeps what was done. *)
Definition act (A : Type) : Type := D1Actor * nat → (D1Actor * nat) * result actor_error A.

#[local] Instance act_ret : MRet act := λ A x s, (s, Ok x).
#[local] Instance act_bind : MBind act := λ A B f m s,
  match m s with (s', Ok x) => f x s' | (s', Err e) => (s', Err e) end.

Definition throw {A} (e : actor_error) : act A := λ s, (s, Err e).
Definition lift {A} (r : result actor_error A) : act A := λ s, (s, r).
Definition read_clock (clock : nat → Z) : act Z := λ s, ((s.1, S s.2), Ok (clock s.2)).
Definition get_actor : act D1Actor := λ s, (s, Ok s.1).
Definition modify (f : D1Actor → D1Actor) : act unit := λ s, ((f s.1, s.2), Ok tt).

(** [this.sql.exec] *)
Definition exec (sql : jstr) (params : list jsval) : act cursor := λ s,
  let '(db, out) := sql_exec sql params (random ch s.2) (a_sql s.1) in
  ((Actor db (schemaObjectExistsMemo s.1) (schemaObjectExistsMemoCodeUnits s.1), S s.2),
   match out with Some c => Ok c | None => Err SqlFailed end).

(** The guard is the deadline, if there is one. *)
Definition createLeaseBudgetGuard (assertion : option Z * option Z) : act (option Z) :=
  match assertion with
  | (Some remainingMs, Some guardMs) =>
      now ← read_clock (monotonicNowMs ch); mret (Some (now + Z.max 0 (remainingMs - guardMs)))
  | _ => mret None
  end.

Definition assertLeaseBudget (guard : option Z) : act unit :=
  match guard with
  | None => mret tt
  | Some deadlineMs =>
      now ← read_clock (monotonicNowMs ch); if now <? deadlineMs then mret tt else throw LeaseBudgetExhausted
  end.

Definition checkedSqlExec (sql : jstr) (params : list jsval) (leaseGuard : option Z) : act cursor :=
  _ ← assertLeaseBudget leaseGuard; exec sql params.

(** *** The memo of schema objects *)

Definition rememberSchemaObjectExists (key : jstr) (a : D1Actor) : D1Actor :=
  if set_has (schemaObjectExistsMemo a) key then a
  else if (SCHEMA_OBJECT_MEMO_MAX_ENTRIES <=? Z.of_nat (length (schemaObjectExistsMemo a)))
          || (SCHEMA_OBJECT_MEMO_MAX_CODE_UNITS <? schemaObjectExistsMemoCodeUnits a + jlen key) then a
  else Actor (a_sql a) (schemaObjectExistsMemo a ++ [key]) (schemaObjectExistsMemoCodeUnits a + jlen key).

Definition clearSchemaObjectExistsMemo (a : D1Actor) : D1Actor := Actor (a_sql a) [] 0.

Definition schemaObjectExists (ddl : bool * jstr) (leaseGuard : option Z) : act bool :=
  a ← get_actor;
  if set_has (schemaObjectExistsMemo a) (schemaObjectMemoKey ddl) then mret true
  else
    c ← checkedSqlExec SCHEMA_OBJECT_SQL [JStr (ddl_type ddl.1); JStr ddl.2] leaseGuard;
    match raw c with
    | [] => mret false
    | _ => _ ← modify (rememberSchemaObjectExists (schemaObjectMemoKey ddl)); mret true
    end.

Definition observeSchemaMutation (sql : jstr) (ddl : option (bool * jstr)) (a : D1Actor) : D1Actor :=
  match ddl with
  | None => if SCHEMA_MUTATION_SQL_RE (trim sql) then clearSchemaObjectExistsMemo a else a
  | Some _ => a
  end.

Definition statementChangedDb (sql : jstr) (changes : Z) (ddl : option (bool * jstr)) (existedBefore : option bool)
    : act bool :=
  _ ← modify (observeSchemaMutation sql ddl);
  if negb (changes =? 0) then mret true
  else match ddl, existedBefore with
       | Some d, Some existed => if existed then mret false else schemaObjectExists d None
       | _, _ => mret (statementMayChangeDb sql)
       end.

(** [ddl ? this.schemaObjectExists(ddl, leaseGuard) : null] *)
Definition existed_before (ddl : option (bool * jstr)) (leaseGuard : option Z) : act (option bool) :=
  match ddl with
  | Some d => b ← schemaObjectExists d leaseGuard; mret (Some b)
  | None => mret None
  end.

(** *** Statements *)

(** [changes > 0 ? ... : 0] *)
Definition last_row_id (changes : Z) : act d1value :=
  if 0 <? changes then
    row ← exec LAST_ROW_SQL [];
    mret (match raw row with (v :: _) :: _ => or_zero v | _ => num 0 end)
  else mret (num 0).

(** The result of a statement and the result budget after it. *)
Definition runStatement (resultsFormat : ResultsFormat) (leaseGuard : option Z) (st : statement) (remaining : Z)
    : act (d1value * Z) :=
  started ← read_clock (date_now ch);
  let ddl := parseIdempotentSchemaDdl (s_sql st) in
  existedBefore ← existed_before ddl leaseGuard;
  c ← checkedSqlExec (s_sql st) (s_params st) leaseGuard;
  '(results, remaining) ← lift (resultFromCursor c resultsFormat (maxResultRows env) remaining);
  let changes := rowsWritten c in
  lastRowId ← last_row_id changes;
  a ← get_actor;
  let sizeAfter := databaseSize (a_sql a) in
  changedDb ← statementChangedDb (s_sql st) changes ddl existedBefore;
  ended ← read_clock (date_now ch);
  let duration := num (ended - started) in
  mret (VObj [
    (js "success", VBool true);
    (js "results", results);
    (js "meta", VObj [
      (js "duration", duration);
      (js "served_by", VStr (servedByLabel (ownerTaskId ch)));
      (js "served_by_region", VStr (js "local"));
      (js "served_by_primary", VBool true);
      (js "timings", VObj [(js "sql_duration_ms", duration)]);
      (js "changes", num changes);
      (js "last_row_id", lastRowId);
      (js "changed_db", VBool changedDb);
      (js "size_after", num sizeAfter);
      (js "rows_read", num (rowsRead c));
      (js "rows_written", num changes);
      (js "total_attempts", num 1)])], remaining).

(** The statements in order, the results in a list. *)
Fixpoint runStatements (run : nat → statement → Z → act (d1value * Z)) (i : nat) (l : list statement) (remaining : Z)
    : act (list d1value) :=
  match l with
  | [] => mret []
  | st :: l =>
      '(v, remaining) ← run i st remaining;
      vs ← runStatements run (S i) l remaining;
      mret (v :: vs)
  end.

(** The loop of [execStatements]: has a statement changed the database. *)
Fixpoint exec_each (leaseGuard : option Z) (l : list statement) (changedDb : bool) : act bool :=
  match l with
  | [] => mret changedDb
  | st :: l =>
      let ddl := parseIdempotentSchemaDdl (s_sql st) in
      existedBefore ← existed_before ddl leaseGuard;
      _ ← checkedSqlExec (s_sql st) (s_params st) leaseGuard;
      statementChanged ← statementChangedDb (s_sql st) 0 ddl existedBefore;
      exec_each leaseGuard l (changedDb || statementChanged)
  end.

Definition execStatements (leaseGuard : option Z) (statements : list statement) : act (d1value * bool) :=
  started ← read_clock (date_now ch);
  changedDb ← exec_each leaseGuard statements false;
  ended ← read_clock (date_now ch);
  mret (VObj [(js "count", num (Z.of_nat (length statements))); (js "duration", num (ended - started))], changedDb).

(** [transactionSync] leaves the database as it was when the callback throws. *)
Definition transactionSyncWithSchemaMemoReset {A} (callback : act A) : act A := λ s,
  match callback s with
  | (s', Err e) => ((clearSchemaObjectExistsMemo (Actor (a_sql s.1) (schemaObjectExistsMemo s'.1)
                       (schemaObjectExistsMemoCodeUnits s'.1)), s'.2), Err e)
  | done => done
  end.

Definition execStatementsTransactionally (leaseGuard : option Z) (statements : list statement) : act (d1value * bool) :=
  if (length statements <=? 1)%nat then execStatements leaseGuard statements
  else transactionSyncWithSchemaMemoReset (execStatements leaseGuard statements).

(** A statement of a batch: other errors than of limits and lease carry its number. *)
Definition batch_statement (leaseGuard : option Z) (i : nat) (st : statement) (remaining : Z) : act (d1value * Z) := λ s,
  match runStatement ROWS_AND_COLUMNS leaseGuard st remaining s with
  | (s', Err LimitExceeded) => (s', Err LimitExceeded)
  | (s', Err LeaseBudgetExhausted) => (s', Err LeaseBudgetExhausted)
  | (s', Err e) => (s', Err (BatchStatementError i e))
  | done => done
  end.

(** The payload and the [changedDb] header of a successful query. *)
Definition run_query (query : ReadCacheQuery) : act (d1value * bool) :=
  if isDraining ch then throw TaskDraining
  else match ownerAssertion ch with
  | None => throw NotOwner
  | Some assertion =>
      leaseGuard ← createLeaseBudgetGuard assertion;
      let resultBudget := maxResultBytes env in
      if jeqb (q_mode query) (js "exec") then execStatementsTransactionally leaseGuard (q_statements query)
      else if jeqb (q_mode query) (js "batch") then
        batchResults ← transactionSyncWithSchemaMemoReset
          (runStatements (batch_statement leaseGuard) 0 (q_statements query) resultBudget);
        mret (VArr batchResults, payloadChangedDb (VArr batchResults))
      else
        let resultsFormat := if jeqb (q_mode query) (js "run") then NONE else ROWS_AND_COLUMNS in
        results ← runStatements (λ _, runStatement resultsFormat leaseGuard) 0 (q_statements query) resultBudget;
        let payload := match results with [result] => result | _ => VArr results end in
        mret (payload, payloadChangedDb payload)
  end.

Definition D1_QUERY_NATIVE_VALUE_ENCODING : jstr := js "native-bytes-v1".

(** The response as the router reads it (the body of an error is of no use to its caches), and
    whether the database is another one than before. *)
Definition fetch (query : ReadCacheQuery) (a : D1Actor) : D1Actor * response * bool :=
  let '(s, out) := run_query query (if evicted ch then new_actor (a_sql a) else a, O) in
  let error := Response false false [] None true in
  (s.1,
   match out with
   | Ok (payload, changedDb) =>
       match encodeD1QueryResponse payload with
       | Ok bytes => Response true changedDb bytes (Some D1_QUERY_NATIVE_VALUE_ENCODING) true
       | Err _ => error
       end
   | Err _ => error
   end,
   negb (bool_decide (a_sql s.1 = a_sql a))).
End actor.

(** ** Computations and what holds after them *)

Section contract.
Context {Db : Type} `{!EqDecision Db, !SqlEngine Db, !SqlLaws Db}.
Variable env : list (jstr * jsval).
Variable ch : chance.

Local Abbreviation act := (@act Db).
Local Abbreviation D1Actor := (@D1Actor Db).

Definition runs {A} (m : act A) (s : D1Actor * nat) (Q : result actor_error A → D1Actor → Prop) : Prop := Q (m s).2 (m s).1.1.

Lemma runs_mono {A} (m : act A) s (Q Q' : result actor_error A → D1Actor → Prop) :
  runs m s Q → (∀ r a, Q r a → Q' r a) → runs m s Q'.
Proof. unfold runs. auto. Qed.

Lemma runs_bind {A B} (m : act A) (f : A → act B) s (Q : result actor_error B → D1Actor → Prop) :
  runs m s (λ r a, match r with Ok x => ∀ t, runs (f x) (a, t) Q | Err e => Q (Err e) a end) →
  runs (act_bind A B f m) s Q.
Proof.
  unfold runs, act_bind. destruct (m s) as [[a t] [x|e]]; cbn; [|done]. intros H. apply H.
Qed.

Lemma runs_clock clock s (Q : result actor_error Z → D1Actor → Prop) : (∀ now, Q (Ok now) s.1) → runs (read_clock clock) s Q.
Proof. intros H. apply H. Qed.

(** *** The memo holds only objects that exist *)

Definition memo_at (db : Db) (memo : list jstr) : Prop :=
  Forall (λ key, ∃ ddl, key = schemaObjectMemoKey ddl ∧ schema_row ddl ∈ sqlite_master db) memo.
Definition memo_ok (a : D1Actor) : Prop := memo_at (a_sql a) (schemaObjectExistsMemo a).

#[local] Instance memo_key_inj : Inj (=) (=) schemaObjectMemoKey.
Proof. intros [[] n] [[] n'] H; vm_compute in H; congruence. Qed.

Lemma memo_has db memo ddl : memo_at db memo → set_has memo (schemaObjectMemoKey ddl) = true → schema_row ddl ∈ sqlite_master db.
Proof.
  intros Hm Hin. apply set_has_spec in Hin. unfold memo_at in Hm. rewrite Forall_forall in Hm. destruct (Hm _ Hin) as (d & Hk & Hd).
  by apply (inj schemaObjectMemoKey) in Hk as ->.
Qed.

Lemma remember_ok ddl a : memo_ok a → schema_row ddl ∈ sqlite_master (a_sql a) →
  memo_ok (rememberSchemaObjectExists (schemaObjectMemoKey ddl) a) ∧
  a_sql (rememberSchemaObjectExists (schemaObjectMemoKey ddl) a) = a_sql a.
Proof.
  intros Hm Hd. unfold rememberSchemaObjectExists. repeat case_match; [done..|]. split; [|done].
  apply Forall_app. split; [done|]. constructor; [|done]. by exists ddl.
Qed.

(** A text leaves the memo right unless it removes objects and hides it. *)
Lemma memo_kept sql params r db db' out memo : sql_exec sql params r db = (db', out) → memo_at db memo →
  (may_remove sql = true → one_statement sql = true ∧ ¬ (∃ c, out = Some c ∧ columnNames c = [] ∧ raw c = [])) →
  memo_at db' memo.
Proof.
  intros E Hm Hr. eapply Forall_impl; [exact Hm|]. intros key (ddl & -> & Hd). exists ddl. split; [done|].
  destruct (decide (schema_row ddl ∈ sqlite_master db')) as [|Hn]; [done|].
  destruct (law_remove _ _ _ _ _ _ _ E Hd Hn) as [Hmay Hone]. destruct (Hr Hmay) as [H1 []]. auto.
Qed.

Lemma guard_spec guard s (Q : result actor_error unit → D1Actor → Prop) :
  (∀ r, (guard = None → r = Ok tt) → Q r s.1) → runs (assertLeaseBudget ch guard) s Q.
Proof.
  intros H. unfold assertLeaseBudget. destruct guard as [d|]; [|by apply H].
  apply runs_bind, runs_clock. intros now t. destruct (now <? d); by apply H.
Qed.

Lemma exists_spec ddl guard s (Q : result actor_error bool → D1Actor → Prop) : memo_ok s.1 →
  (∀ r a, a_sql a = a_sql s.1 → memo_ok a → (guard = None → is_ok r = true) →
    (∀ b, r = Ok b → b = true ↔ schema_row ddl ∈ sqlite_master (a_sql s.1)) → Q r a) →
  runs (schemaObjectExists ch ddl guard) s Q.
Proof.
  destruct s as [[db memo units] t0]. cbn [fst a_sql] in *. intros Hm HQ. unfold schemaObjectExists. apply runs_bind. unfold runs at 1, get_actor. cbn [fst snd]. intros t.
  destruct (set_has _ _) eqn:Eh.
  { apply HQ; [done..|]. intros b [= <-]. split; [|done]. intros _. by eapply memo_has. }
  apply runs_bind, runs_bind, guard_spec. intros r Hr. destruct r as [[]|e]; [|by apply HQ; [done..|naive_solver|]].
  intros t'. unfold runs at 1, exec. cbn [fst snd a_sql schemaObjectExistsMemo schemaObjectExistsMemoCodeUnits].
  destruct (law_schema (ddl_type ddl.1) ddl.2 (random ch t') db) as (c & -> & Hc). cbn [fst snd].
  intros t''. fold (schema_row ddl) in Hc. destruct (raw c) as [|row rows] eqn:Er.
  - apply HQ; [done..|]. intros b [= <-]. split; [done|]. intros H. by apply Hc in H.
  - apply runs_bind. unfold runs at 1, modify. cbn [fst snd]. intros t3.
    destruct (remember_ok ddl _ Hm) as [Hm' Hs']; [by apply Hc|].
    apply HQ; [exact Hs'|exact Hm'|done|]. intros b [= <-]. split; [intros _; by apply Hc|done].
Qed.

Lemma keyword_mono l l' s : (∀ k, k ∈ l → k ∈ l') → has_keyword l s = true → has_keyword l' s = true.
Proof.
  unfold has_keyword. rewrite !existsb_exists. intros Hl (p & Hp & Hk). exists p. split; [done|].
  apply set_has_spec in Hk. apply set_has_spec. auto.
Qed.

Lemma remove_is_mutation sql : may_remove sql = true → SCHEMA_MUTATION_SQL_RE (trim sql) = true.
Proof. apply keyword_mono. intros k Hk. repeat (apply elem_of_cons in Hk as [->|Hk]); set_solver. Qed.

(** What is known of a statement that took the database from [db] to the one of [a]: the
    memo is still the one of [db]. *)
Record executed (sql : jstr) (db : Db) (out : option cursor) (a : D1Actor) : Prop := {
  ex_run : ∃ params r, sql_exec sql params r db = (a_sql a, out);
  ex_memo : memo_at db (schemaObjectExistsMemo a) }.

Lemma executed_writes sql db out a : executed sql db out a → a_sql a ≠ db → statementMayChangeDb sql = true.
Proof.
  intros [(params & r & E) _] Hne. unfold statementMayChangeDb, WRITE_SQL_RE. destruct (has_keyword _ _) eqn:Ek; [done|].
  apply (law_read sql params r db) in Ek. rewrite E in Ek. done.
Qed.

Lemma observe_ok sql db out a : executed sql db out a → memo_ok (observeSchemaMutation sql (parseIdempotentSchemaDdl sql) a).
Proof.
  intros [(params & r & E) Hm]. unfold observeSchemaMutation. destruct (parseIdempotentSchemaDdl sql) as [ddl|] eqn:Ed.
  - destruct (law_create sql ddl params r db Ed) as [Hkeep _]. rewrite E in Hkeep. cbn [fst] in Hkeep.
    eapply Forall_impl; [exact Hm|]. intros key (d & -> & Hd). exists d. auto.
  - destruct (SCHEMA_MUTATION_SQL_RE _) eqn:Es; [constructor|].
    eapply memo_kept; [exact E|exact Hm|]. intros Hr. apply remove_is_mutation in Hr. congruence.
Qed.

(** [existedBefore] tells of the object before the statement. *)
Definition existed_in (db : Db) (ddl : option (bool * jstr)) (existedBefore : option bool) : Prop :=
  match ddl, existedBefore with
  | Some d, Some b => b = true ↔ schema_row d ∈ sqlite_master db
  | None, None => True
  | _, _ => False
  end.

(** [statementChangedDb] answers, mends the memo and does not miss a change. *)
Lemma changed_spec sql db out changes existed s (Q : result actor_error bool → D1Actor → Prop) :
  executed sql db out s.1 → existed_in db (parseIdempotentSchemaDdl sql) existed →
  (∀ b a, a_sql a = a_sql s.1 → memo_ok a → (a_sql a ≠ db → b = true) → Q (Ok b) a) →
  runs (statementChangedDb ch sql changes (parseIdempotentSchemaDdl sql) existed) s Q.
Proof.
  intros He Hex HQ. pose proof (observe_ok _ _ _ _ He) as Hm. pose proof (executed_writes _ _ _ _ He) as Hw.
  unfold statementChangedDb. apply runs_bind. unfold runs at 1, modify. cbn [fst snd]. intros t.
  set (a1 := observeSchemaMutation _ _ _) in *.
  assert (a_sql a1 = a_sql s.1) as E1 by (subst a1; unfold observeSchemaMutation; repeat case_match; done).
  destruct (negb _); [by apply HQ|]. destruct (parseIdempotentSchemaDdl sql) as [d|] eqn:Ed, existed as [b|]; try done.
  - destruct He as [(params & r & E) _]. destruct (law_create sql d params r db Ed) as [_ Hc]. rewrite E in Hc. cbn [fst] in Hc.
    cbn [existed_in] in Hex. destruct b.
    + apply (HQ _ a1); [done|done|]. rewrite E1. intros Hne. destruct (Hc Hne) as [[] _]. by apply Hex.
    + apply exists_spec; [done|]. intros rr a Ea Hma Hok Hb. cbn [fst] in *. destruct rr as [b|e]; [|by specialize (Hok eq_refl)].
      apply HQ; [congruence|done|]. rewrite Ea, E1. intros Hne. apply Hb; [done|]. rewrite E1. apply (Hc Hne).
  - apply (HQ _ a1); [done|done|]. rewrite E1. auto.
Qed.

Lemma existed_spec ddl guard s (Q : result actor_error (option bool) → D1Actor → Prop) : memo_ok s.1 →
  (∀ r a, a_sql a = a_sql s.1 → memo_ok a → (∀ ex, r = Ok ex → existed_in (a_sql s.1) ddl ex) → Q r a) →
  runs (existed_before ch ddl guard) s Q.
Proof.
  intros Hm HQ. unfold existed_before. destruct ddl as [d|]; [|apply HQ; [done..|]; by intros ex [= <-]].
  apply runs_bind, exists_spec; [done|]. intros r a Ea Hma _ Hb. destruct r as [b|e]; [|by apply HQ].
  intros t. apply HQ; [done|done|]. intros ex [= <-]. cbn. auto.
Qed.

(** A checked statement is not run, or it is run and then succeeds or fails. *)
Lemma checked_spec sql params guard s (Q : result actor_error cursor → D1Actor → Prop) : memo_ok s.1 →
  (∀ e, Q (Err e) s.1) →
  (∀ a out, executed sql (a_sql s.1) out a → Q (match out with Some c => Ok c | None => Err SqlFailed end) a) →
  runs (checkedSqlExec ch sql params guard) s Q.
Proof.
  intros Hm H0 H1. unfold checkedSqlExec. apply runs_bind, guard_spec. intros r _. destruct r as [[]|e]; [|done].
  intros t. unfold runs, exec. cbn [fst snd]. destruct (sql_exec _ _ _ _) as [db out] eqn:E. cbn [fst snd].
  apply H1. split; [|exact Hm]. by exists params, (random ch t).
Qed.

(** *** Statements *)

(** A statement whose failure leaves the memo right. *)
Definition safe (fmt : ResultsFormat) (st : statement) (remaining : Z) : Prop :=
  may_remove (s_sql st) = true → one_statement (s_sql st) = true ∧ (fmt = NONE ∨ D1_RESULT_CONTAINER_OVERHEAD_BYTES <= remaining).

(** What a statement leaves behind. *)
Definition statement_post (fmt : ResultsFormat) (st : statement) (remaining : Z) (a0 : D1Actor)
    (r : result actor_error (d1value * Z)) (a : D1Actor) : Prop :=
  (a_sql a ≠ a_sql a0 → statementMayChangeDb (s_sql st) = true) ∧
  match r with
  | Ok (v, _) => memo_ok a ∧ (∃ fields, v = VObj fields) ∧ (a_sql a ≠ a_sql a0 → item_changed v = true)
  | Err _ => safe fmt st remaining → memo_ok a
  end.

(** A statement that fails after it was run. *)
Lemma failed_post fmt st remaining a0 out a e :
  executed (s_sql st) (a_sql a0) out a →
  (∀ c, out = Some c → columnNames c = [] → raw c = [] → fmt = NONE ∨ D1_RESULT_CONTAINER_OVERHEAD_BYTES <= remaining → False) →
  statement_post fmt st remaining a0 (Err e) a.
Proof.
  intros He Hc. split; [by eapply executed_writes|]. intros Hs. destruct He as [(params & r & E) Hm].
  eapply memo_kept; [exact E|exact Hm|]. intros Hr. destruct (Hs Hr) as [H1 H2]. split; [done|].
  intros (c & -> & Hcol & Hraw). by eapply Hc.
Qed.

Lemma empty_cursor_fits c fmt rowLimit remaining e : columnNames c = [] → raw c = [] →
  fmt = NONE ∨ D1_RESULT_CONTAINER_OVERHEAD_BYTES <= remaining → resultFromCursor c fmt rowLimit remaining ≠ Err e.
Proof.
  intros Hc Hr Hf. unfold resultFromCursor. destruct fmt; [done|]. destruct Hf as [|Hf]; [done|]. rewrite Hc, Hr.
  unfold consumeResultBudget, sum_bytes. cbn [fold_left]. unfold D1_RESULT_CONTAINER_OVERHEAD_BYTES in *.
  destruct (Z.ltb_spec remaining (16 + 0)); [lia|]. done.
Qed.

Lemma last_row_spec changes s (Q : result actor_error d1value → D1Actor → Prop) :
  (∀ v, Q (Ok v) s.1) → runs (last_row_id ch changes) s Q.
Proof.
  intros HQ. unfold last_row_id. destruct (0 <? changes); [|apply HQ]. apply runs_bind. unfold runs at 1, exec. cbn [fst snd].
  destruct (law_last_row (random ch s.2) (a_sql s.1)) as (row & ->). cbn [fst snd]. intros t.
  destruct s as [[db memo units] t0]. apply HQ.
Qed.

Lemma runStatement_spec fmt guard st remaining s : memo_ok s.1 →
  runs (runStatement env ch fmt guard st remaining) s (statement_post fmt st remaining s.1).
Proof.
  intros Hm. unfold runStatement. apply runs_bind, runs_clock. intros started t1.
  apply runs_bind, existed_spec; [done|]. intros r a Ea Hma Hex. cbn [fst] in *.
  assert (∀ e, statement_post fmt st remaining s.1 (Err e) a) as Hearly by (intros e; split; [congruence|done]).
  destruct r as [ex|e]; [|apply Hearly]. intros t2. specialize (Hex ex eq_refl). apply runs_bind, checked_spec; [done|apply Hearly|].
  cbn [fst]. rewrite Ea. intros a2 out He. destruct out as [c|]; [|by eapply failed_post].
  intros t3. apply runs_bind. unfold lift, runs at 1. cbn [fst snd].
  destruct (resultFromCursor c fmt (maxResultRows env) remaining) as [[results remaining']|e] eqn:Er;
    [|eapply failed_post; [exact He|]; intros c0 [= <-] H1 H2 H3; by eapply empty_cursor_fits in Er].
  intros t4. apply runs_bind.
  apply last_row_spec. intros last t5. apply runs_bind. unfold runs at 1, get_actor. cbn [fst snd]. intros t6.
  apply runs_bind. eapply changed_spec; [exact He|exact Hex|]. cbn [fst]. intros b a3 Ea3 Hm3 Hb t7.
  apply runs_bind, runs_clock. intros ended t8. cbn [fst]. split.
  - intros Hne. eapply executed_writes; [exact He|]. change (a_sql a3 ≠ a_sql s.1) in Hne. congruence.
  - split; [done|]. split; [by eexists|]. exact Hb.
Qed.

Definition writes (l : list statement) : bool := existsb (λ st, statementMayChangeDb (s_sql st)) l.

(** Statements in order: each may spend of the budget, so only the first can count on it. *)
Lemma runStatements_spec fmt run l : (∀ i st remaining s, memo_ok s.1 →
    runs (run i st remaining) s (statement_post fmt st remaining s.1)) →
  ∀ i remaining s, memo_ok s.1 →
  runs (runStatements run i l remaining) s (λ r a,
    (a_sql a ≠ a_sql s.1 → writes l = true) ∧
    match r with
    | Ok vs => memo_ok a ∧ Forall (λ v, ∃ fields, v = VObj fields) vs ∧ (a_sql a ≠ a_sql s.1 → existsb item_changed vs = true)
    | Err _ => (∀ st rest, st ∈ l → (l = [st] → rest = remaining) → safe fmt st rest) → memo_ok a
    end).
Proof.
  intros Hrun. induction l as [|st l IH]; intros i remaining s Hm.
  { split; [done|]. split; [done|]. split; [constructor|done]. }
  cbn [runStatements]. apply runs_bind. eapply runs_mono; [by apply Hrun|]. intros r a [Hw Hr].
  destruct r as [[v rest]|e].
  - destruct Hr as (Hma & Hv & Hch). intros t. apply runs_bind. eapply runs_mono; [by apply (IH (S i) rest (a, t))|].
    cbn [fst]. intros r a' [Hw' Hr']. assert (a_sql a' ≠ a_sql s.1 → a_sql a' ≠ a_sql a ∨ a_sql a ≠ a_sql s.1) as Hor.
    { intros Hne. destruct (decide (a_sql a' = a_sql a)); [right; congruence|by left]. }
    assert (a_sql a' ≠ a_sql s.1 → writes (st :: l) = true) as Hwrites.
    { intros Hne. unfold writes. cbn [existsb]. apply orb_true_iff. destruct (Hor Hne); auto. }
    destruct r as [vs|e].
    + destruct Hr' as (Hma' & Hvs & Hch'). intros t'. split; [done|]. split; [done|]. split; [by constructor|].
      intros Hne. cbn [existsb]. apply orb_true_iff. destruct (Hor Hne); auto.
    + split; [done|]. intros Hsafe. apply Hr'. intros st' rest' Hin _. apply Hsafe; [by right|].
      intros [= -> ->]. by apply not_elem_of_nil in Hin.
  - split; [|intros Hsafe; apply Hr, Hsafe; [by left|done]].
    intros Hne. unfold writes. cbn [existsb]. rewrite Hw by done. done.
Qed.

Lemma exec_each_spec guard l : ∀ b0 s, memo_ok s.1 →
  runs (exec_each ch guard l b0) s (λ r a,
    (a_sql a ≠ a_sql s.1 → writes l = true) ∧
    match r with
    | Ok b => memo_ok a ∧ (b0 = true → b = true) ∧ (a_sql a ≠ a_sql s.1 → b = true)
    | Err _ => (∀ st, st ∈ l → may_remove (s_sql st) = true → one_statement (s_sql st) = true) → memo_ok a
    end).
Proof.
  induction l as [|st l IH]; intros b0 s Hm; [done|].
  cbn [exec_each]. apply runs_bind, existed_spec; [done|]. intros r a Ea Hma Hex. cbn [fst] in *.
  destruct r as [ex|e]; [|split; [congruence|done]]. specialize (Hex ex eq_refl). intros t.
  apply runs_bind, checked_spec; [done|intros e; split; [done|done]|]. cbn [fst]. rewrite Ea. intros a2 out He.
  assert (a_sql a2 ≠ a_sql s.1 → writes (st :: l) = true) as Hw1.
  { intros Hne. unfold writes. cbn [existsb]. by rewrite (executed_writes _ _ _ _ He). }
  destruct out as [c|].
  - intros t2. apply runs_bind. eapply changed_spec; [exact He|exact Hex|]. cbn [fst]. intros b a3 Ea3 Hm3 Hb t3.
    eapply runs_mono; [by apply (IH (b0 || b) (a3, t3))|]. cbn [fst]. intros r a4 [Hw Hr].
    assert (a_sql a4 ≠ a_sql s.1 → a_sql a4 ≠ a_sql a3 ∨ a_sql a3 ≠ a_sql s.1) as Hor.
    { intros Hne. destruct (decide (a_sql a4 = a_sql a3)); [right; congruence|by left]. }
    split.
    { intros Hne. destruct (Hor Hne) as [Hc|Hc]; [|apply Hw1; congruence].
      unfold writes in *. cbn [existsb]. apply orb_true_iff. auto. }
    destruct r as [b'|e]; [|intros Hone; apply Hr; intros st' Hin; apply Hone; by right].
    destruct Hr as (Hm4 & Hb0 & Hch). split; [done|]. split; [intros ->; auto|].
    intros Hne. destruct (Hor Hne) as [Hc|Hc]; [by apply Hch|]. apply Hb0. rewrite (Hb Hc). apply orb_true_r.
  - split; [done|]. intros Hone. destruct He as [(params & r & E) Hm2].
    eapply memo_kept; [exact E|exact Hm2|]. intros Hr. split; [by apply Hone; [left|]|]. by intros (c & [=] & _).
Qed.

(** *** Queries *)

(** A text that may remove a schema object holds one statement, and in the modes that return
    rows it is alone in its query. *)
Definition orderly (q : ReadCacheQuery) : Prop :=
  ∀ st, st ∈ q_statements q → may_remove (s_sql st) = true →
    one_statement (s_sql st) = true ∧ (mutatesDb q = true ∨ q_statements q = [st]).

(** What a query leaves behind. *)
Definition query_post (q : ReadCacheQuery) (a0 : D1Actor) (r : result actor_error (d1value * bool)) (a : D1Actor) : Prop :=
  (a_sql a ≠ a_sql a0 → queryMayChangeDb q = true) ∧ memo_ok a ∧
  match r with Ok (_, changed) => a_sql a ≠ a_sql a0 → changed = true | Err _ => True end.

Lemma transaction_spec {A} (m : act A) s (Q : result actor_error A → D1Actor → Prop) :
  runs m s (λ r a, match r with Ok x => Q (Ok x) a | Err e => True end) →
  (∀ e a, a_sql a = a_sql s.1 → memo_ok a → Q (Err e) a) →
  runs (transactionSyncWithSchemaMemoReset m) s Q.
Proof.
  unfold runs, transactionSyncWithSchemaMemoReset. intros H1 H2. destruct (m s) as [s' [x|e]]; [exact H1|].
  apply H2; [done|constructor].
Qed.

Lemma exec_query_spec q guard s : memo_ok s.1 → orderly q →
  runs (execStatementsTransactionally ch guard (q_statements q)) s (query_post q s.1).
Proof.
  intros Hm Ho. set (l := q_statements q).
  assert (∀ Q : result actor_error (d1value * bool) → D1Actor → Prop,
    (∀ r a, (a_sql a ≠ a_sql s.1 → writes l = true) ∧
      match r with Ok (_, b) => memo_ok a ∧ (a_sql a ≠ a_sql s.1 → b = true) | Err _ => memo_ok a end → Q r a) →
    runs (execStatements ch guard l) s Q) as He.
  { intros Q HQ. unfold execStatements. apply runs_bind, runs_clock. intros now t. apply runs_bind.
    eapply runs_mono; [by apply exec_each_spec|]. cbn [fst]. intros r a [Hw Hr]. destruct r as [b|e].
    - intros t'. apply runs_bind, runs_clock. intros now' t''. apply HQ. split; [done|]. split; apply Hr.
    - apply HQ. split; [done|]. apply Hr. intros st Hin Hrem. by apply (Ho st Hin Hrem). }
  unfold execStatementsTransactionally. destruct (_ <=? 1)%nat; [|apply transaction_spec]; [apply He|apply He|].
  - intros r a [Hw Hr]. split; [done|]. destruct r as [[v b]|e]; [done|by split].
  - intros r a [Hw Hr]. destruct r as [[v b]|e]; [|done]. by split.
  - intros e a Ea Hma. split; [congruence|by split].
Qed.

Lemma batch_statement_spec guard i st remaining s : memo_ok s.1 →
  runs (batch_statement env ch guard i st remaining) s (statement_post ROWS_AND_COLUMNS st remaining s.1).
Proof.
  intros Hm. pose proof (runStatement_spec ROWS_AND_COLUMNS guard st remaining s Hm) as H.
  unfold runs, batch_statement in *. destruct (runStatement _ _ _ _ _ _ _) as [s' [x|[]]]; exact H.
Qed.

Lemma payload_of_results vs : Forall (λ v, ∃ fields, v = VObj fields) vs →
  payloadChangedDb (match vs with [v] => v | _ => VArr vs end) = existsb item_changed vs.
Proof. intros H. destruct vs as [|v [|v' vs]]; [done| |done]. apply Forall_cons in H as [[fields ->] _]. done. Qed.

Hypothesis room : D1_RESULT_CONTAINER_OVERHEAD_BYTES <= maxResultBytes env.

Lemma run_query_spec q s : memo_ok s.1 → orderly q → runs (run_query env ch q) s (query_post q s.1).
Proof.
  intros Hm Ho. unfold run_query. destruct (isDraining ch); [done|]. destruct (ownerAssertion ch) as [asrt|]; [|done].
  apply runs_bind. assert (∀ Q : result actor_error (option Z) → D1Actor → Prop,
    (∀ g, Q (Ok g) s.1) → runs (createLeaseBudgetGuard ch asrt) s Q) as Hg.
  { intros Q HQ. unfold createLeaseBudgetGuard. destruct asrt as [[rm|] [gm|]]; apply HQ. }
  apply Hg. intros g t. clear Hg. destruct (jeqb (q_mode q) (js "exec")) eqn:Eexec; [by apply (exec_query_spec q g (s.1, t))|].
  destruct (jeqb (q_mode q) (js "batch")) eqn:Ebatch.
  - apply runs_bind, transaction_spec; [|intros e a Ea Hma; cbn [fst] in Ea; split; [congruence|by split]].
    eapply runs_mono; [apply (runStatements_spec ROWS_AND_COLUMNS); [apply batch_statement_spec|done]|].
    cbn [fst]. intros r a [Hw Hr]. destruct r as [vs|e]; [|done]. destruct Hr as (Hma & _ & Hch). intros t'. by split.
  - set (fmt := if jeqb (q_mode q) (js "run") then NONE else ROWS_AND_COLUMNS).
    apply runs_bind. eapply runs_mono;
      [apply (runStatements_spec fmt); [intros i st rest s' Hm'; by apply runStatement_spec|done]|].
    cbn [fst]. intros r a [Hw Hr]. destruct r as [vs|e].
    + destruct Hr as (Hma & Hvs & Hch). intros t'. split; [done|]. split; [done|]. intros Hne.
      rewrite payload_of_results by done. auto.
    + split; [done|]. split; [|done]. apply Hr. intros st rest Hin Hrest Hrem. destruct (Ho st Hin Hrem) as [H1 H2].
      split; [done|]. destruct H2 as [Hmut|Hl]; [|right; rewrite Hrest by done; done]. left.
      unfold mutatesDb in Hmut. apply set_has_spec in Hmut. subst fmt.
      repeat (apply elem_of_cons in Hmut as [Heq|Hmut]); try (by apply not_elem_of_nil in Hmut); rewrite Heq in *; done.
Qed.
End contract.

(** *** The contract of D1Router.v *)

#[export] Instance actor_contract {Db} `{!EqDecision Db, !SqlEngine Db, !SqlLaws Db} (env : list (jstr * jsval)) :
  D1_RESULT_CONTAINER_OVERHEAD_BYTES <= maxResultBytes env → ActorContract (λ q ch, fetch (Db := Db) env ch q) orderly memo_ok.
Proof.
  intros Hroom.
  assert (∀ q ch a, orderly q → memo_ok a →
    query_post q a (run_query env ch q (if evicted ch then new_actor (a_sql a) else a, O)).2
      (run_query env ch q (if evicted ch then new_actor (a_sql a) else a, O)).1.1) as H.
  { intros q ch a Hq Ha. pose proof (run_query_spec env ch Hroom q (if evicted ch then new_actor (a_sql a) else a, O)) as H.
    destruct (evicted ch); apply H; auto; constructor. }
  split; unfold fetch; intros q ch a a' resp.
  - intros changed Hq Ha. specialize (H q ch a Hq Ha). destruct (run_query _ _ _ _) as [s out]. destruct H as (_ & Hm & _).
    by intros [= <- _ _].
  - intros Hq Ha. specialize (H q ch a Hq Ha). destruct (run_query _ _ _ _) as [s out]. cbn [fst snd] in H.
    destruct H as (Hw & _ & Hch). intros [= <- <- Hneq]. apply negb_true_iff, bool_decide_eq_false in Hneq.
    unfold queryMayMutateDb. rewrite (Hw Hneq), orb_true_r. split; [done|].
    destruct out as [[payload changed]|e]; [|done]. destruct (encodeD1QueryResponse payload); [|done]. auto.
Qed.

(** ** The router and the actor together *)


(** ** A run: a write and a read that is answered from the cache *)

Module Demo.
(** The database: the schema table and a number. A text with a write keyword adds one to the
    number, or creates the object it names, or drops all; any other text reads the number. *)
Record db := Base { objects : list (jstr * jstr); number : Z }.

#[export] Instance db_eq_dec : EqDecision db.
Proof. solve_decision. Defined.

Definition silent (written : Z) : option cursor := Some (Cursor [] [] written 0).

Definition engine_exec (sql : jstr) (params : list jsval) (_ : nat) (d : db) : db * option cursor :=
  if has_keyword write_keywords (trim sql) then
    match parseIdempotentSchemaDdl sql with
    | Some ddl =>
        if bool_decide (schema_row ddl ∈ objects d) then (d, silent 0)
        else (Base (objects d ++ [schema_row ddl]) (number d), silent 0)
    | None =>
        if may_remove sql && one_statement sql then (Base [] (number d + 1), silent 0)
        else (Base (objects d) (number d + 1), silent 1)
    end
  else (d, match params with
           | [JStr type; JStr name] =>
               Some (Cursor [js "found"] (if bool_decide ((type, name) ∈ objects d) then [[CNum (double_of_Z 1)]] else []) 0 1)
           | _ => Some (Cursor [js "n"] [[CNum (double_of_Z (number d))]] 0 1)
           end).

#[export] Instance engine : SqlEngine db := {| sql_exec := engine_exec; databaseSize := λ _, 4096; sqlite_master := objects |}.

#[export] Instance engine_laws : SqlLaws db.
Proof.
  split.
  - intros sql params r d H. cbn [sql_exec engine]. unfold engine_exec. by rewrite H.
  - intros type name r d. cbn [sql_exec engine sqlite_master]. unfold engine_exec.
    assert (has_keyword write_keywords (trim SCHEMA_OBJECT_SQL) = false) as -> by (vm_compute; reflexivity).
    eexists. split; [reflexivity|]. cbn [raw]. case_bool_decide; split; done.
  - intros r d. cbn [sql_exec engine]. unfold engine_exec.
    assert (has_keyword write_keywords (trim LAST_ROW_SQL) = false) as -> by (vm_compute; reflexivity). by eexists.
  - intros sql ddl params r d Hd. cbn [sql_exec engine sqlite_master]. unfold engine_exec. rewrite Hd.
    destruct (has_keyword _ _); [|done]. case_bool_decide; [done|]. cbn [fst objects].
    split; [set_solver|]. intros _. split; [done|]. set_solver.
  - intros sql params r d d' out row. cbn [sql_exec engine sqlite_master]. unfold engine_exec.
    destruct (has_keyword _ _); [|by intros [= <- <-]]. destruct (parseIdempotentSchemaDdl sql) as [ddl|].
    + case_bool_decide; intros [= <- <-]; cbn [objects]; set_solver.
    + destruct (may_remove sql && one_statement sql) eqn:E; intros [= <- <-]; [|done]. apply andb_true_iff in E as [??].
      intros _ _. split; [done|]. intros _. by eexists.
Qed.

Definition JSON (v : jsval) : jstr := default [] (stringify v).
Definition owner : ReadCacheOwner := Owner (js "t1") (js "acme:db") 3.
Definition query (mode sql : string) : ReadCacheQuery := Query (js "acme:db") (js mode) [Statement (js sql) []].
Definition write : ReadCacheQuery := query "run" "update t set n = n + 1".
Definition read : ReadCacheQuery := query "all" "select n from t".

(** A quiet second: nothing is evicted or draining and the lease has five seconds left. *)
Definition calm : chance := Chance false false (Some (Some 5000, Some 500)) (js "t1") Z.of_nat Z.of_nat (λ _, O).

Definition execute (q : ReadCacheQuery) (ch : chance) : @D1Actor db → @D1Actor db * response * bool := fetch [] ch q.

(** A request from its start to its end, with nothing in between. *)
Definition served (w : @world (@D1Actor db)) (q : ReadCacheQuery) (now : Z) : @world (@D1Actor db) :=
  let '(r, read) := beginRouterRead JSON (js "t1") (readCacheConfig []) q owner now (w_router w) in
  let k := q_dbKey q in
  let i := w_index w k in
  let '(s', resp, changed) := execute q calm (w_history w k i) in
  World (settleQuery JSON q owner read (Responded resp) r) (upd k (S i) (w_index w))
    (upd k (upd_nat (S i) s' (w_history w k)) (w_history w))
    (if changed then upd k (Nat.max (w_acked w k) (S i)) (w_acked w) else w_acked w) (w_requests w).

Lemma orderly_query mode sql : may_remove (js sql) = false → orderly (query mode sql).
Proof. intros H st Hin Hr. apply list_elem_of_singleton in Hin as ->. cbn [s_sql] in Hr. congruence. Qed.

Lemma plain_key m sql : plain (key_json (query m sql) owner).
Proof.
  unfold key_json. change (key_scope _ owner) with (js "acme:db"). cbn [o_generation owner q_mode q_statements map query].
  unfold statement_json, plain. cbn [s_sql s_params].
  split_and!; try apply js_units; try exact (js_units "acme:db"); try done; apply (bool_decide_unpack _); vm_compute; exact I.
Qed.

Lemma served_reach dbs w q now :
  router_reach execute orderly JSON (js "t1") (readCacheConfig []) dbs w → plain (key_json q owner) → orderly q →
  rr_hit (beginRouterRead JSON (js "t1") (readCacheConfig []) q owner now (w_router w)).2 = None →
  router_reach execute orderly JSON (js "t1") (readCacheConfig []) dbs (served w q now).
Proof.
  intros Hw Hp Hq Hhit. unfold served.
  destruct (beginRouterRead _ _ _ _ _ _ _) as [r rd] eqn:E. cbn [snd] in Hhit.
  pose proof (StepBegin JSON (js "t1") (readCacheConfig []) execute orderly w q owner now r rd Hq E Hhit (λ _, Hp)) as H1.
  destruct (execute q calm _) as [[s' resp] changed] eqn:Ea.
  set (w1 := World r (w_index w) (w_history w) (w_acked w) _) in H1.
  pose proof (StepExecute JSON (js "t1") (readCacheConfig []) execute orderly w1 q owner rd calm [] (w_requests w) s' resp changed
    eq_refl Ea) as H2.
  match type of H2 with router_step _ _ _ _ _ _ _ ?x => set (w2 := x) in H2 end.
  eapply RouterStep; [exact (RouterStep _ _ _ _ _ _ _ _ _ (RouterStep _ _ _ _ _ _ _ _ _ Hw H1) H2)|].
  exact (StepFinish _ _ _ _ _ w2 q owner rd resp (w_index w (q_dbKey q)) changed [] (w_requests w) (Responded resp)
    eq_refl (or_introl eq_refl)).
Qed.

(** The database begins with the number 41, which the write makes 42. *)
Definition start : @world (@D1Actor db) := initial_world (λ _, new_actor (Base [] 41)).
Definition after : @world (@D1Actor db) := served (served start write 1000) read 2000.

Lemma after_reach : router_reach execute orderly JSON (js "t1") (readCacheConfig []) (λ _, new_actor (Base [] 41)) after.
Proof.
  apply served_reach; [|apply plain_key|apply orderly_query; vm_compute; reflexivity|vm_compute; reflexivity].
  apply served_reach; [apply RouterStart|apply plain_key|apply orderly_query; vm_compute; reflexivity|vm_compute; reflexivity].
Qed.

(** The same query again is answered from the cache, with the number of after the write. *)
Lemma after_hit : ∃ e v,
  rr_hit (beginRouterRead JSON (js "t1") (readCacheConfig []) read owner 3000 (w_router after)).2 = Some e ∧
  decodeD1QueryResponse (e_bytes e) = Ok v ∧
  field_of (js "rows") (field_of (js "results") v) = VArr [VArr [VNum (double_of_Z 42)]].
Proof. eexists _, _. split; [vm_compute; reflexivity|]. split; vm_compute; reflexivity. Qed.
End Demo.


(** Why a query has to be [orderly]: outside of a transaction a DROP that succeeded and whose
    empty result no longer fits the result budget is reported as an error before
    [observeSchemaMutation] clears the memo. The table is gone, the memo still has it, and the
    CREATE TABLE IF NOT EXISTS that follows changes the database and says it did not. *)
Lemma dropped_table_stays_in_memo :
  let env := [(js "D1_MAX_RESULT_BYTES", JStr (js "60"))] in
  let run := @fetch Demo.db Demo.db_eq_dec Demo.engine env Demo.calm in
  let create := Demo.query "run" "create table if not exists t (n)" in
  let drop := Query (js "acme:db") (js "all") [Statement (js "select n from t") []; Statement (js "drop table t") []] in
  let '(a1, r1, changed1) := run create (new_actor (Demo.Base [] 0)) in
  let '(a2, r2, changed2) := run drop a1 in
  let '(a3, r3, changed3) := run create a2 in
  (rs_ok r1, rs_changedDb r1, changed1) = (true, true, true) ∧
  (rs_ok r2, changed2) = (false, true) ∧
  (rs_ok r3, rs_changedDb r3, changed3) = (true, false, true).
Proof. vm_compute. auto. Qed.
