(* ===== verification/SessionPolicy.v ===== *)
(** * Session policies and worker deletion events

    Models the JSON payloads of src/shared/worker-contract.js: the active session policy
    projection of a worker and the events that announce a restart or a deletion. *)

From stdpp Require Import base list strings.
From Stdlib Require Import ZArith Lia.
From S2P Require Import Prelude NsPattern WorkerContract Utf8 Json.

#[local] Open Scope Z_scope.
#[local] Open Scope wdl_scope.

Inductive policy_error := InvalidPolicyProjection | InvalidPolicyEvent | InvalidDeleteEvent.

Record policy_projection := PolicyProjection { sp_version : jstr; sp_mode : jstr; sp_restartSequence : Z }.
Record policy_event := PolicyEvent { ev_ns : jstr; ev_worker : jstr; ev_version : jstr; ev_restartSequence : Z }.

(** [JSON.stringify] of an object whose members are strings and safe integers. *)
Definition json_text {E} (e : E) (fields : list (jstr * jsval)) : result E jstr :=
  match stringify (JObj fields) with Some t => Ok t | None => Err e end.

Definition projection_fields (p : policy_projection) : list (jstr * jsval) :=
  [(js "version", JStr (sp_version p)); (js "mode", JStr (sp_mode p));
   (js "restartSequence", JNum (NInt (sp_restartSequence p)))].

Definition encodeSessionPolicyProjection (p : policy_projection) : result policy_error jstr :=
  if negb (isValidSessionPolicy (JStr (sp_version p)) (JStr (sp_mode p)) (JNum (NInt (sp_restartSequence p))))
  then Err InvalidPolicyProjection
  else json_text InvalidPolicyProjection (projection_fields p).

(** [typeof raw === "string" ? JSON.parse(raw) : null], with [null] when it throws, and then
    the members of an object that is not an array. *)
Definition parsed_object (raw : jsval) : option (list (jstr * jsval)) :=
  match raw with
  | JStr text => match json_parse text with Some (JObj fields) => Some fields | _ => None end
  | _ => None
  end.

Definition parseSessionPolicyProjection (raw : jsval) : result policy_error (option policy_projection) :=
  match raw with
  | JUndef | JNull => Ok None
  | _ =>
      match parsed_object raw with
      | None => Err InvalidPolicyProjection
      | Some value =>
          let version := obj_get (js "version") value in
          let mode := obj_get (js "mode") value in
          let sequence := obj_get (js "restartSequence") value in
          if isValidSessionPolicy version mode sequence then
            match version, mode, sequence with
            | JStr v, JStr m, JNum (NInt n) => Ok (Some (PolicyProjection v m n))
            | _, _, _ => Err InvalidPolicyProjection
            end
          else Err InvalidPolicyProjection
      end
  end.

Definition event_fields (e : policy_event) : list (jstr * jsval) :=
  [(js "ns", JStr (ev_ns e)); (js "worker", JStr (ev_worker e)); (js "version", JStr (ev_version e));
   (js "restartSequence", JNum (NInt (ev_restartSequence e)))].

Definition encodeSessionPolicyEvent (e : policy_event) : result policy_error jstr :=
  if jeqb (ev_ns e) [] || jeqb (ev_worker e) []
     || negb (isValidSessionPolicy (JStr (ev_version e)) (JStr SESSION_POLICY_RESTART) (JNum (NInt (ev_restartSequence e))))
  then Err InvalidPolicyEvent
  else json_text InvalidPolicyEvent (event_fields e).

(** A non-empty string. *)
Definition nonempty_text (v : jsval) : option jstr :=
  match v with JStr [] => None | JStr s => Some s | _ => None end.

Definition parseSessionPolicyEvent (raw : jsval) : result policy_error policy_event :=
  match parsed_object raw with
  | None => Err InvalidPolicyEvent
  | Some value =>
      match nonempty_text (obj_get (js "ns") value), nonempty_text (obj_get (js "worker") value) with
      | Some ns, Some worker =>
          let version := obj_get (js "version") value in
          let sequence := obj_get (js "restartSequence") value in
          if isValidSessionPolicy version (JStr SESSION_POLICY_RESTART) sequence then
            match version, sequence with
            | JStr v, JNum (NInt n) => Ok (PolicyEvent ns worker v n)
            | _, _ => Err InvalidPolicyEvent
            end
          else Err InvalidPolicyEvent
      | _, _ => Err InvalidPolicyEvent
      end
  end.

Definition encodeWorkerDeleteEvent (ns worker : jstr) : result policy_error jstr :=
  if jeqb ns [] || jeqb worker [] then Err InvalidDeleteEvent
  else json_text InvalidDeleteEvent [(js "ns", JStr ns); (js "worker", JStr worker)].

Definition parseWorkerDeleteEvent (raw : jsval) : result policy_error (jstr * jstr) :=
  match parsed_object raw with
  | None => Err InvalidDeleteEvent
  | Some value =>
      match nonempty_text (obj_get (js "ns") value), nonempty_text (obj_get (js "worker") value) with
      | Some ns, Some worker => Ok (ns, worker)
      | _, _ => Err InvalidDeleteEvent
      end
  end.

(** ** Round trips *)

Lemma version_units v : parseVersion (JStr v) ≠ None → Forall is_unit v.
Proof.
  destruct (parseVersion (JStr v)) as [n|] eqn:E; [|done]. intros _. apply parseVersion_inv in E as [Hn ->].
  apply Forall_app. split; [apply js_units|]. eapply Forall_impl; [apply string_of_Z_ascii|].
  intros c Hc. cbv beta in Hc. unfold is_unit. lia.
Qed.

Lemma valid_policy_plain v m n : isValidSessionPolicy (JStr v) (JStr m) (JNum (NInt n)) = true →
  Forall is_unit v ∧ Forall is_unit m ∧ is_safe_integer n = true.
Proof.
  unfold isValidSessionPolicy. destruct (parseVersion (JStr v)) eqn:Ev; [|done].
  destruct (safe_integer_of (JNum (NInt n))) as [k|] eqn:En; [|done]. intros H.
  apply andb_prop in H as [H _]. apply andb_prop in H as [Hm _]. split; [apply version_units; congruence|].
  split.
  - unfold isSessionPolicyMode in Hm. apply orb_prop in Hm as [Hm|Hm]; apply jeqb_eq in Hm as ->; apply js_units.
  - cbn in En. by destruct (is_safe_integer n).
Qed.

(** Printed members are read back. *)
Lemma json_text_parse {E} (e : E) fields text : plain (JObj fields) → json_text e fields = Ok text →
  parsed_object (JStr text) = Some fields.
Proof.
  intros Hp. unfold json_text. destruct (json_roundtrip _ Hp) as (t & -> & Ep & _). intros <-%Ok_inj.
  cbn [parsed_object]. by rewrite Ep.
Qed.

(** An object of strings and safe integers under distinct literal names. *)
Ltac solve_plain_fields :=
  unfold plain; split_and!; auto using js_units; apply (bool_decide_unpack _); vm_compute; exact I.

(** An encoded projection parses back to itself. *)
Lemma policy_projection_roundtrip p text : encodeSessionPolicyProjection p = Ok text →
  parseSessionPolicyProjection (JStr text) = Ok (Some p).
Proof.
  unfold encodeSessionPolicyProjection. destruct (isValidSessionPolicy _ _ _) eqn:Ev; [|done]. cbn [negb].
  intros Ht. apply valid_policy_plain in Ev as Hu. destruct Hu as (H1 & H2 & H3).
  unfold parseSessionPolicyProjection. assert (plain (JObj (projection_fields p))) as Hp by (unfold projection_fields; solve_plain_fields).
  rewrite (json_text_parse _ _ _ Hp Ht).
  unfold projection_fields. cbv zeta.
  change (obj_get (js "version") _) with (JStr (sp_version p)).
  change (obj_get (js "mode") _) with (JStr (sp_mode p)).
  change (obj_get (js "restartSequence") _) with (JNum (NInt (sp_restartSequence p))).
  rewrite Ev. by destruct p.
Qed.

Lemma nonempty_text_nonempty s : s ≠ [] → nonempty_text (JStr s) = Some s.
Proof. by destruct s. Qed.

Lemma policy_event_roundtrip e text : Forall is_unit (ev_ns e) → Forall is_unit (ev_worker e) →
  encodeSessionPolicyEvent e = Ok text → parseSessionPolicyEvent (JStr text) = Ok e.
Proof.
  intros Hns Hw. unfold encodeSessionPolicyEvent. destruct (jeqb (ev_ns e) []) eqn:E1; [done|].
  destruct (jeqb (ev_worker e) []) eqn:E2; [done|]. apply jeqb_neq in E1, E2. cbn [orb].
  destruct (isValidSessionPolicy _ _ _) eqn:Ev; [|done]. cbn [negb]. intros Ht.
  apply valid_policy_plain in Ev as Hu. destruct Hu as (H1 & _ & H3).
  unfold parseSessionPolicyEvent. assert (plain (JObj (event_fields e))) as Hp by (unfold event_fields; solve_plain_fields).
  rewrite (json_text_parse _ _ _ Hp Ht).
  unfold event_fields.
  change (obj_get (js "ns") _) with (JStr (ev_ns e)). change (obj_get (js "worker") _) with (JStr (ev_worker e)).
  change (obj_get (js "version") _) with (JStr (ev_version e)).
  change (obj_get (js "restartSequence") _) with (JNum (NInt (ev_restartSequence e))).
  rewrite !nonempty_text_nonempty by done. rewrite Ev. by destruct e.
Qed.

Lemma delete_event_roundtrip ns worker text : Forall is_unit ns → Forall is_unit worker →
  encodeWorkerDeleteEvent ns worker = Ok text → parseWorkerDeleteEvent (JStr text) = Ok (ns, worker).
Proof.
  intros Hns Hw. unfold encodeWorkerDeleteEvent. destruct (jeqb ns []) eqn:E1; [done|].
  destruct (jeqb worker []) eqn:E2; [done|]. apply jeqb_neq in E1, E2. cbn [orb]. intros Ht.
  unfold parseWorkerDeleteEvent. assert (plain (JObj [(js "ns", JStr ns); (js "worker", JStr worker)])) as Hp by solve_plain_fields.
  rewrite (json_text_parse _ _ _ Hp Ht).
  change (obj_get (js "ns") _) with (JStr ns). change (obj_get (js "worker") _) with (JStr worker).
  by rewrite !nonempty_text_nonempty.
Qed.
