(* ===== verification/Txn.v ===== *)
(** * Optimistic transactions of the control plane

    The control service keeps its state in Redis strings, hashes, sets and sorted sets and
    changes it in sessions: WATCH some keys, read, and EXEC a list of writes, which Redis
    refuses when a watched key has changed. Models [runOptimistic] of
    src/control/optimistic.js and the commands its callers stage; Redis itself is not part
    of the repository, [answer] and [apply_write] state the documented effect of the
    commands on the decoded text the client hands out.

    An attempt is a [txn]: reads and watches, then the writes it wants to commit. The world
    interleaves the commands of any number of sessions with changes made by others. A key
    counts as changed only when its value does, so every transaction the server would
    accept is accepted here. *)

From stdpp Require Import base list strings gmap sorting.
From Stdlib Require Import ZArith Lia.
From S2P Require Import Prelude.

#[local] Open Scope Z_scope.

(** ** The store *)

Record store := Store {
  strs : gmap jstr jstr;
  hashes : gmap jstr (gmap jstr jstr);
  sets : gmap jstr (gset jstr);
  zsets : gmap jstr (gmap jstr Z) }.

Definition str_at (k : jstr) (s : store) : option jstr := strs s !! k.
Definition hash_at (k : jstr) (s : store) : gmap jstr jstr := default ∅ (hashes s !! k).
Definition set_at (k : jstr) (s : store) : gset jstr := default ∅ (sets s !! k).
Definition zset_at (k : jstr) (s : store) : gmap jstr Z := default ∅ (zsets s !! k).

Definition empty_store : store := Store ∅ ∅ ∅ ∅.

(** Two stores agree on a key. *)
Definition same_at (k : jstr) (s s' : store) : Prop :=
  str_at k s = str_at k s' ∧ hash_at k s = hash_at k s' ∧ set_at k s = set_at k s' ∧ zset_at k s = zset_at k s'.

#[export] Instance same_at_dec k s s' : Decision (same_at k s s').
Proof. unfold same_at. apply _. Defined.

#[export] Instance same_at_equivalence k : Equivalence (same_at k).
Proof.
  split.
  - by intros s.
  - intros s s' (? & ? & ? & ?). by repeat split.
  - intros s1 s2 s3 (? & ? & ? & ?) (? & ? & ? & ?). repeat split; congruence.
Qed.

Definition blank (k : jstr) (s : store) : Prop := same_at k empty_store s.

(** ** Commands *)

Inductive write :=
| WSet (k v : jstr)
| WSetNx (k v : jstr)
| WDel (k : jstr)
| WHSet (k f v : jstr)
| WHDel (k f : jstr)
| WSAdd (k m : jstr)
| WSRem (k m : jstr)
| WZAdd (k : jstr) (score : Z) (m : jstr)
| WZRem (k m : jstr)
| WIncr (k : jstr)
| WCopy (src dst : jstr)
| WExpireAt (k : jstr) (seconds : Z)
| WPublish (channel message : jstr).

Definition set_str (k : jstr) (v : option jstr) (s : store) : store :=
  Store (partial_alter (λ _, v) k (strs s)) (hashes s) (sets s) (zsets s).
Definition set_hash (k : jstr) (h : gmap jstr jstr) (s : store) : store :=
  Store (strs s) (<[k := h]> (hashes s)) (sets s) (zsets s).
Definition set_set (k : jstr) (m : gset jstr) (s : store) : store :=
  Store (strs s) (hashes s) (<[k := m]> (sets s)) (zsets s).
Definition set_zset (k : jstr) (z : gmap jstr Z) (s : store) : store :=
  Store (strs s) (hashes s) (sets s) (<[k := z]> (zsets s)).

(** The decimal integer INCR works on; any other text is an error and leaves the key. *)
Definition incr_text (v : option jstr) : option jstr :=
  match v with
  | None => Some (js "1")
  | Some t => if negb (jeqb t []) && forallb is_digit t then Some (string_of_Z (dec_value 0 t + 1)) else Some t
  end.

(** SET with NX sets only a missing key; COPY of a missing key does nothing. Expiry times and published messages have no part in
    the store. *)
Definition apply_write (w : write) (s : store) : store :=
  match w with
  | WSet k v => set_str k (Some v) s
  | WSetNx k v => if bool_decide (blank k s) then set_str k (Some v) s else s
  | WDel k => set_str k None (set_hash k ∅ (set_set k ∅ (set_zset k ∅ s)))
  | WHSet k f v => set_hash k (<[f := v]> (hash_at k s)) s
  | WHDel k f => set_hash k (delete f (hash_at k s)) s
  | WSAdd k m => set_set k ({[m]} ∪ set_at k s) s
  | WSRem k m => set_set k (set_at k s ∖ {[m]}) s
  | WZAdd k score m => set_zset k (<[m := score]> (zset_at k s)) s
  | WZRem k m => set_zset k (delete m (zset_at k s)) s
  | WIncr k => set_str k (incr_text (str_at k s)) s
  | WCopy src dst =>
      if bool_decide (same_at src empty_store s) then s
      else set_str dst (str_at src s) (set_hash dst (hash_at src s) (set_set dst (set_at src s)
        (set_zset dst (zset_at src s) s)))
  | WExpireAt _ _ | WPublish _ _ => s
  end.

Definition apply_writes (ws : list write) (s : store) : store := fold_left (λ s w, apply_write w s) ws s.

(** The key a command may change. *)
Definition target (w : write) : option jstr :=
  match w with
  | WSet k _ | WSetNx k _ | WDel k | WHSet k _ _ | WHDel k _ | WSAdd k _ | WSRem k _ | WZAdd k _ _ | WZRem k _ | WIncr k => Some k
  | WCopy _ dst => Some dst
  | WExpireAt _ _ | WPublish _ _ => None
  end.

Definition targets (ws : list write) : list jstr := omap target ws.

(** ZRANGE 0 -1: the members by score, those of one score by their text. *)
Fixpoint text_le (a b : jstr) : bool :=
  match a, b with
  | [], _ => true
  | _, [] => false
  | x :: a, y :: b => (x <? y) || ((x =? y) && text_le a b)
  end.
Definition member_le (a b : jstr * Z) : Prop := (a.2 <? b.2) || ((a.2 =? b.2) && text_le a.1 b.1) = true.
#[export] Instance member_le_dec a b : Decision (member_le a b).
Proof. unfold member_le. apply _. Defined.
Definition zrange (z : gmap jstr Z) : list jstr := map fst (merge_sort member_le (map_to_list z)).

Lemma elem_of_zrange z m : m ∈ zrange z ↔ is_Some (z !! m).
Proof.
  unfold zrange. rewrite list_elem_of_fmap. setoid_rewrite merge_sort_Permutation. split.
  - intros ([m' n] & -> & H%elem_of_map_to_list). by exists n.
  - intros [n H]. exists (m, n). split; [done|]. by apply elem_of_map_to_list.
Qed.

(** Reads of one key; a pipelined read of many keys is a sequence of them. *)
Inductive query : Type → Type :=
| QGet (k : jstr) : query (option jstr)
| QHGet (k f : jstr) : query (option jstr)
| QHGetAll (k : jstr) : query (gmap jstr jstr)
| QSMembers (k : jstr) : query (gset jstr)
| QSIsMember (k m : jstr) : query bool
| QSCard (k : jstr) : query Z
| QZRange (k : jstr) : query (list jstr)
| QExists (k : jstr) : query bool
| QHStrLen (k f : jstr) : query Z.

Definition query_key {B} (q : query B) : jstr :=
  match q with
  | QGet k | QHGet k _ | QHGetAll k | QSMembers k | QSIsMember k _ | QSCard k | QZRange k | QExists k | QHStrLen k _ => k
  end.

Definition answer {B} (q : query B) (s : store) : B :=
  match q with
  | QGet k => str_at k s
  | QHGet k f => hash_at k s !! f
  | QHGetAll k => hash_at k s
  | QSMembers k => set_at k s
  | QSIsMember k m => bool_decide (m ∈ set_at k s)
  | QSCard k => Z.of_nat (size (set_at k s))
  | QZRange k => zrange (zset_at k s)
  | QExists k => negb (bool_decide (blank k s))
  | QHStrLen k f => match hash_at k s !! f with Some v => jlen v | None => 0 end
  end.

Lemma answer_same {B} (q : query B) s s' : same_at (query_key q) s s' → answer q s = answer q s'.
Proof.
  destruct q; cbn; intros (H1 & H2 & H3 & H4); rewrite ?H1, ?H2, ?H3, ?H4; try done.
  f_equal. apply bool_decide_ext. unfold blank. assert (same_at k s s') as H by by repeat split.
  split; intros Hb; [by rewrite <- H|by rewrite H].
Qed.

(** ** Effects of the writes *)

Lemma str_set_str k k' v s : str_at k (set_str k' v s) = if decide (k = k') then v else str_at k s.
Proof. unfold str_at, set_str. cbn. rewrite lookup_partial_alter. repeat case_decide; congruence. Qed.
Lemma hash_set_hash k k' h s : hash_at k (set_hash k' h s) = if decide (k = k') then h else hash_at k s.
Proof. unfold hash_at, set_hash. cbn. rewrite lookup_insert. by repeat case_decide. Qed.
Lemma set_set_set k k' m s : set_at k (set_set k' m s) = if decide (k = k') then m else set_at k s.
Proof. unfold set_at, set_set. cbn. rewrite lookup_insert. by repeat case_decide. Qed.
Lemma zset_set_zset k k' z s : zset_at k (set_zset k' z s) = if decide (k = k') then z else zset_at k s.
Proof. unfold zset_at, set_zset. cbn. rewrite lookup_insert. by repeat case_decide. Qed.

Lemma apply_write_other w s k : target w ≠ Some k → same_at k s (apply_write w s).
Proof.
  destruct w; cbn [target apply_write]; intros Hk;
    try (assert (k ≠ k0) as Hne by congruence); try (assert (k ≠ dst) as Hne by congruence); try done;
    try case_bool_decide; try done;
    unfold same_at, str_at, hash_at, set_at, zset_at, set_str, set_hash, set_set, set_zset; cbn;
    rewrite ?lookup_partial_alter_ne, ?lookup_insert_ne by done; done.
Qed.

Lemma apply_writes_other ws : ∀ s k, k ∉ targets ws → same_at k s (apply_writes ws s).
Proof.
  induction ws as [|w ws IH]; intros s k Hk; [done|]. cbn in Hk. unfold apply_writes. cbn [fold_left].
  transitivity (apply_write w s).
  - apply apply_write_other. intros E. rewrite E in Hk. set_solver.
  - apply IH. unfold targets. destruct (target w); set_solver.
Qed.

Lemma apply_writes_app ws ws' s : apply_writes (ws ++ ws') s = apply_writes ws' (apply_writes ws s).
Proof. apply fold_left_app. Qed.

(** ** Attempts *)

Inductive control_error := RoutingError (status : Z) (code : jstr) | WatchFailed | Thrown.

Inductive reads (A : Type) :=
| RRet (r : result control_error A)
| RWatch (ks : list jstr) (p : reads A)
| RRead {B} (q : query B) (k : B → reads A).
Arguments RRet {A} r.
Arguments RWatch {A} ks p.
Arguments RRead {A B} q k.

Fixpoint reads_bind {A B} (p : reads A) (f : A → reads B) : reads B :=
  match p with
  | RRet (Ok a) => f a
  | RRet (Err e) => RRet (Err e)
  | RWatch ks p => RWatch ks (reads_bind p f)
  | RRead q k => RRead q (λ b, reads_bind (k b) f)
  end.

Definition rd_ret {A} (a : A) : reads A := RRet (Ok a).
Definition rd_throw {A} (e : control_error) : reads A := RRet (Err e).
Definition rd_lift {A} (r : result control_error A) : reads A := RRet r.
Definition rd_ask {B} (q : query B) : reads B := RRead q rd_ret.
Definition rd_watch (ks : list jstr) : reads unit := RWatch ks (rd_ret tt).

(** [for (const x of l) await f(x)], and the same collecting the results. *)
Fixpoint rd_iter {X} (f : X → reads unit) (l : list X) : reads unit :=
  match l with [] => rd_ret tt | x :: l => reads_bind (f x) (λ _, rd_iter f l) end.
Fixpoint rd_map {X B} (f : X → reads B) (l : list X) : reads (list B) :=
  match l with
  | [] => rd_ret []
  | x :: l => reads_bind (f x) (λ b, reads_bind (rd_map f l) (λ bs, rd_ret (b :: bs)))
  end.

(** What an attempt ends with: the staged writes and the result once they are executed, or
    a result with nothing to write, after an UNWATCH. *)
Inductive plan (A : Type) := Commit (ws : list write) (a : A) | NoWrites (a : A).
Arguments Commit {A} ws a.
Arguments NoWrites {A} a.

Definition txn (A : Type) : Type := reads (plan A).

Declare Scope txn_scope.
Delimit Scope txn_scope with txn.
Notation "'let+' x ':=' p 'in' k" := (reads_bind p (λ x, k))
  (at level 10, x pattern, k at level 200) : txn_scope.

(** ** Sessions and worlds *)

Section worlds.
Context {A : Type}.

(** [s_body]: the callback, given [Date.now()]; [s_left]: attempts left after this one;
    [s_owned]: keys handed out to this session alone; [s_valid]: no watched key has changed. *)
Record session := Session {
  s_body : Z → txn A; s_left : nat; s_owned : gset jstr;
  s_watch : list jstr; s_valid : bool; s_run : txn A }.

(** [w_used]: the keys ever handed out. *)
Record world := World { w_store : store; w_used : gset jstr; w_sessions : gmap nat session }.

(** The first attempt of [runOptimistic], and the next one after a [WatchError]. *)
Definition runOptimistic (attempts : nat) (owned : gset jstr) (body : Z → txn A) (now : Z) : session :=
  Session body (attempts - 1) owned [] true (body now).

Definition next_attempt (now : Z) (x : session) : option session :=
  match s_left x with
  | O => None
  | S n => Some (Session (s_body x) n (s_owned x) [] true (s_body x now))
  end.

Definition run_to (p : txn A) (x : session) : session :=
  Session (s_body x) (s_left x) (s_owned x) (s_watch x) (s_valid x) p.

(** The watches of a session after a change of the store. *)
Definition observe_change (s s' : store) (x : session) : session :=
  Session (s_body x) (s_left x) (s_owned x) (s_watch x)
    (s_valid x && bool_decide (Forall (λ k, same_at k s s') (s_watch x))) (s_run x).

Definition change_store (s' : store) (used : gset jstr) (xs : gmap nat session) (w : world) : world :=
  World s' used (observe_change (w_store w) s' <$> xs).

(** [api owned body]: a request may run [body] with keys [owned] of its own. [env]: what
    everyone else may do to the store and to the keys in use. *)
Variable api : gset jstr → (Z → txn A) → Prop.
Variable env : gset jstr → store → gset jstr → store → Prop.

Inductive txn_step (w : world) : world → Prop :=
| ts_start id attempts owned body now :
    w_sessions w !! id = None → api owned body → owned ## w_used w → (∀ k, k ∈ owned → blank k (w_store w)) →
    txn_step w (World (w_store w) (owned ∪ w_used w) (<[id := runOptimistic attempts owned body now]> (w_sessions w)))
| ts_watch id x ks p :
    w_sessions w !! id = Some x → s_run x = RWatch ks p →
    txn_step w (World (w_store w) (w_used w)
      (<[id := Session (s_body x) (s_left x) (s_owned x) (ks ++ s_watch x) (s_valid x) p]> (w_sessions w)))
| ts_read id x B (q : query B) k :
    w_sessions w !! id = Some x → s_run x = RRead q k →
    txn_step w (World (w_store w) (w_used w) (<[id := run_to (k (answer q (w_store w))) x]> (w_sessions w)))
| ts_commit id x ws a :
    w_sessions w !! id = Some x → s_run x = RRet (Ok (Commit ws a)) → s_valid x = true →
    txn_step w (change_store (apply_writes ws (w_store w)) (w_used w) (delete id (w_sessions w)) w)
| ts_retry id x now x' :
    w_sessions w !! id = Some x →
    (∃ ws a, s_run x = RRet (Ok (Commit ws a))) ∨ s_run x = RRet (Err WatchFailed) →
    next_attempt now x = Some x' →
    txn_step w (World (w_store w) (w_used w) (<[id := x']> (w_sessions w)))
(** The session answers, throws, or loses its connection. *)
| ts_end id :
    txn_step w (World (w_store w) (w_used w) (delete id (w_sessions w)))
| ts_env used' s' :
    env (w_used w) (w_store w) used' s' →
    txn_step w (change_store s' used' (w_sessions w) w).

Inductive txn_reach (w0 : world) : world → Prop :=
| tr_start : txn_reach w0 w0
| tr_step w w' : txn_reach w0 w → txn_step w w' → txn_reach w0 w'.
End worlds.

(** ** An attempt that nobody disturbs *)

Section alone.
Context {A : Type}.

(** The result of an attempt whose reads all see one store. *)
Fixpoint run_reads {B} (s : store) (p : reads B) : result control_error B :=
  match p with
  | RRet r => r
  | RWatch _ p => run_reads s p
  | RRead q k => run_reads s (k (answer q s))
  end.

Variable api : gset jstr → (Z → txn A) → Prop.
Variable env : gset jstr → store → gset jstr → store → Prop.

Lemma txn_reach_trans w1 w2 w3 : txn_reach api env w1 w2 → txn_reach api env w2 w3 → txn_reach api env w1 w3.
Proof. intros H1. induction 1 as [|w w' _ IH Hs]; [done|]. by eapply tr_step. Qed.

Lemma alone_steps s used id body left owned (p : txn A) : ∀ watch, ∃ watch',
  txn_reach api env (World s used {[id := Session body left owned watch true p]})
    (World s used {[id := Session body left owned watch' true (RRet (run_reads s p))]}).
Proof.
  induction p as [r|ks p IH|B q k IH]; intros watch; cbn [run_reads].
  - exists watch. apply tr_start.
  - destruct (IH (ks ++ watch)) as [watch' H]. exists watch'. eapply txn_reach_trans; [|exact H].
    eapply tr_step; [apply tr_start|]. set (w := World s used _).
    pose proof (ts_watch api env w id _ ks p (lookup_singleton_eq _ _) eq_refl) as Hs. cbn in Hs. by rewrite insert_singleton_eq in Hs.
  - destruct (IH (answer q s) watch) as [watch' H]. exists watch'. eapply txn_reach_trans; [|exact H].
    eapply tr_step; [apply tr_start|]. set (w := World s used _).
    pose proof (ts_read api env w id _ B q k (lookup_singleton_eq _ _) eq_refl) as Hs. cbn in Hs. by rewrite insert_singleton_eq in Hs.
Qed.

(** It is ready to commit what it computes from the store it finds. *)
Lemma alone_ready s used (attempts : nat) owned body now ws (a : A) : api owned body → owned ## used →
  (∀ k, k ∈ owned → blank k s) → run_reads s (body now) = Ok (Commit ws a) → ∃ watch,
  txn_reach api env (World s used ∅)
    (World s (owned ∪ used) {[0%nat := Session body (attempts - 1) owned watch true (RRet (Ok (Commit ws a)))]}).
Proof.
  intros Ha Hd Hb Hr. destruct (alone_steps s (owned ∪ used) 0%nat body (attempts - 1) owned (body now) []) as [watch H].
  rewrite Hr in H. exists watch. eapply txn_reach_trans; [|exact H].
  eapply tr_step; [apply tr_start|]. exact (ts_start _ _ (World s used ∅) 0%nat attempts owned body now eq_refl Ha Hd Hb).
Qed.

Lemma alone_commits s used (attempts : nat) owned body now ws (a : A) : api owned body → owned ## used →
  (∀ k, k ∈ owned → blank k s) → run_reads s (body now) = Ok (Commit ws a) →
  txn_reach api env (World s used ∅) (World (apply_writes ws s) (owned ∪ used) ∅).
Proof.
  intros Ha Hd Hb Hr. destruct (alone_ready s used attempts owned body now ws a Ha Hd Hb Hr) as [watch H]. eapply tr_step; [exact H|].
  set (w := World s (owned ∪ used) _). pose proof (ts_commit api env w 0%nat _ ws a (lookup_singleton_eq _ _) eq_refl eq_refl) as Hc.
  unfold change_store in Hc. cbn in Hc. by rewrite delete_singleton_eq, fmap_empty in Hc.
Qed.

(** Other sessions do not stand in the way: an attempt that starts now and that nobody
    disturbs runs to its end. *)
Lemma undisturbed_steps (p : txn A) : ∀ (w : world) id x, w_sessions w !! id = Some x → s_run x = p → s_valid x = true →
  ∃ xs x', txn_reach api env w (World (w_store w) (w_used w) xs) ∧ xs !! id = Some x' ∧ s_run x' = RRet (run_reads (w_store w) p) ∧
    s_valid x' = true ∧ ∀ j, j ≠ id → xs !! j = w_sessions w !! j.
Proof.
  induction p as [r|ks p IH|B q k IH]; intros w id x Hx Hr Hv; cbn [run_reads].
  - exists (w_sessions w), x. split_and!; try done. destruct w. apply tr_start.
  - destruct (IH (World (w_store w) (w_used w)
      (<[id := Session (s_body x) (s_left x) (s_owned x) (ks ++ s_watch x) (s_valid x) p]> (w_sessions w))) id
      (Session (s_body x) (s_left x) (s_owned x) (ks ++ s_watch x) (s_valid x) p)) as (xs & x' & H1 & H2 & H3 & H4 & H5);
      [cbn; by rewrite lookup_insert_eq|done|done|].
    cbn in *. exists xs, x'. split_and!; [|done..|intros j Hj; rewrite H5 by done; by rewrite lookup_insert_ne].
    eapply txn_reach_trans; [|exact H1]. eapply tr_step; [apply tr_start|]. by apply ts_watch.
  - destruct (IH (answer q (w_store w)) (World (w_store w) (w_used w) (<[id := run_to (k (answer q (w_store w))) x]> (w_sessions w))) id
      (run_to (k (answer q (w_store w))) x)) as (xs & x' & H1 & H2 & H3 & H4 & H5);
      [cbn; by rewrite lookup_insert_eq|done|done|].
    cbn in *. exists xs, x'. split_and!; [|done..|intros j Hj; rewrite H5 by done; by rewrite lookup_insert_ne].
    eapply txn_reach_trans; [|exact H1]. eapply tr_step; [apply tr_start|]. by eapply ts_read.
Qed.

End alone.

(** C9. Optimistic transactions do not block each other: in any state of the world, a session
    with attempts left whose last attempt was refused, or which starts its first one, commits
    once it runs undisturbed, whatever the other sessions hold, provided its checks pass on the
    store it finds; no other session ends. *)
Theorem undisturbed_attempt_commits {A : Type} (api : gset jstr → (Z → txn A) → Prop) (env : gset jstr → store → gset jstr → store → Prop)
    (w : world) (id : nat) (x : session) (now : Z) (ws : list write) (a : A)
    (Hx : w_sessions w !! id = Some x)
    (Hstart : x = runOptimistic (S (s_left x)) (s_owned x) (s_body x) now ∨
      (s_left x ≠ 0%nat ∧ ((∃ ws' a', s_run x = RRet (Ok (Commit ws' a'))) ∨ s_run x = RRet (Err WatchFailed))))
    (Hchecks : run_reads (w_store w) (s_body x now) = Ok (Commit ws a)) :
  ∃ w', txn_reach api env w w' ∧ w_store w' = apply_writes ws (w_store w) ∧ w_sessions w' !! id = None ∧
    ∀ j, j ≠ id → is_Some (w_sessions w' !! j) ↔ is_Some (w_sessions w !! j).
Proof.
  assert (∃ xs x0, txn_reach api env w (World (w_store w) (w_used w) xs) ∧ xs !! id = Some x0 ∧ s_run x0 = s_body x now ∧ s_valid x0 = true ∧
    ∀ j, j ≠ id → xs !! j = w_sessions w !! j) as (xs & x0 & H1 & H2 & H3 & H4 & H5).
  { destruct Hstart as [Hs|[Hleft Hs]].
    - exists (w_sessions w), x. split_and!; [destruct w; apply tr_start|done|by rewrite Hs|by rewrite Hs|done].
    - destruct (s_left x) as [|n] eqn:El; [done|]. set (x' := Session (s_body x) n (s_owned x) [] true (s_body x now)).
      exists (<[id := x']> (w_sessions w)), x'. split_and!; [|by rewrite lookup_insert_eq|done|done|intros j Hj; by rewrite lookup_insert_ne].
      eapply tr_step; [apply tr_start|]. apply (ts_retry _ _ w id x now x'); [done|done|]. unfold next_attempt. by rewrite El. }
  destruct (undisturbed_steps api env (s_body x now) (World (w_store w) (w_used w) xs) id x0 H2 H3 H4) as (ys & y & G1 & G2 & G3 & G4 & G5).
  cbn in *. rewrite Hchecks in G3. set (w2 := World (w_store w) (w_used w) ys) in *.
  exists (change_store (apply_writes ws (w_store w2)) (w_used w2) (delete id (w_sessions w2)) w2). split_and!.
  - eapply tr_step; [by eapply txn_reach_trans|]. by eapply ts_commit.
  - done.
  - cbn. by rewrite lookup_fmap, lookup_delete_eq.
  - intros j Hj. cbn. rewrite lookup_fmap, lookup_delete_ne by done. rewrite fmap_is_Some. by rewrite G5, H5.
Qed.

(** Two sessions count up the same key; the first was refused once. *)
Definition count_up (now : Z) : txn jstr :=
  reads_bind (rd_watch [js "n"]) (λ _, reads_bind (rd_ask (QGet (js "n"))) (λ v, rd_ret (Commit [WIncr (js "n")] (default [] v)))).

Lemma undisturbed_attempt_commits_witness : ∃ w',
  txn_reach (λ _ _, True) (λ _ _ _ _, False)
    (World (set_str (js "n") (Some (js "41")) empty_store) ∅
      {[0%nat := Session count_up 2 ∅ [js "n"] false (RRet (Ok (Commit [WIncr (js "n")] (js "40"))));
        1%nat := runOptimistic 5 ∅ count_up 0]}) w' ∧
  str_at (js "n") (w_store w') = Some (js "42") ∧ is_Some (w_sessions w' !! 1%nat).
Proof.
  destruct (undisturbed_attempt_commits (λ _ _, True) (λ _ _ _ _, False)
    (World (set_str (js "n") (Some (js "41")) empty_store) ∅
      {[0%nat := Session count_up 2 ∅ [js "n"] false (RRet (Ok (Commit [WIncr (js "n")] (js "40"))));
        1%nat := runOptimistic 5 ∅ count_up 0]}) 0%nat
    (Session count_up 2 ∅ [js "n"] false (RRet (Ok (Commit [WIncr (js "n")] (js "40"))))) 7 [WIncr (js "n")] (js "41"))
    as (w' & H1 & H2 & H3 & H4).
  - reflexivity.
  - right. split; [discriminate|]. left. by eexists _, _.
  - vm_compute. reflexivity.
  - exists w'. split_and!; [exact H1|rewrite H2; vm_compute; reflexivity|]. apply H4; [discriminate|]. by eexists.
Defined.

Arguments session A : clear implicits.
Arguments world A : clear implicits.

(** ** An attempt as it looks from the store at its commit *)

Section atomic.
(** The stores there were before the commit, as far as the attempt may know them. *)
Context (past : store → Prop).

(** Every read of the attempt saw a past store that agrees with the store of the commit on
    all the keys watched before that read. *)
Fixpoint reads_at {A} (s : store) (W : list jstr) (p : reads A) (r : result control_error A) (W' : list jstr) : Prop :=
  match p with
  | RRet r0 => r = r0 ∧ W' = W
  | RWatch ks p => reads_at s (ks ++ W) p r W'
  | RRead q k =>
      ∃ s0, past s0 ∧ (∀ x, x ∈ W → same_at x s0 s) ∧ reads_at s W (k (answer q s0)) r W'
  end.

(** An attempt whose reads all see the store of the commit. *)
Lemma reads_at_run {A} (s : store) (p : reads A) : past s → ∀ W, ∃ W', reads_at s W p (run_reads s p) W'.
Proof.
  intros Hs. induction p as [r|ks p IH|B q k IH]; intros W; cbn [reads_at run_reads].
  - by exists W.
  - apply IH.
  - destruct (IH (answer q s) W) as [W' H]. exists W', s. split_and!; [done| |done]. by intros x _.
Qed.

(** [p], run with the keys [W] watched, only ends well with results of [Q]. *)
Definition rd_spec {A} (s : store) (W : list jstr) (p : reads A) (Q : A → list jstr → Prop) : Prop :=
  ∀ a W', reads_at s W p (Ok a) W' → Q a W'.

Lemma rd_spec_ret {A} s W (a : A) (Q : A → list jstr → Prop) : Q a W → rd_spec s W (rd_ret a) Q.
Proof. by intros H a' W' [[= ->] ->]. Qed.

Lemma rd_spec_throw {A} s W e (Q : A → list jstr → Prop) : rd_spec s W (rd_throw e) Q.
Proof. by intros a' W' [[=] _]. Qed.

Lemma rd_spec_lift {A} s W (r : result control_error A) (Q : A → list jstr → Prop) :
  (∀ a, r = Ok a → Q a W) → rd_spec s W (rd_lift r) Q.
Proof. intros H a' W' [<- ->]. by apply H. Qed.

Lemma rd_spec_watch s W ks (Q : unit → list jstr → Prop) : Q tt (ks ++ W) → rd_spec s W (rd_watch ks) Q.
Proof. by intros H a' W' [[= ->] ->]. Qed.

Lemma reads_at_bind {A B} s W (p : reads A) (f : A → reads B) b W2 :
  reads_at s W (reads_bind p f) (Ok b) W2 →
  ∃ a W1, reads_at s W p (Ok a) W1 ∧ reads_at s W1 (f a) (Ok b) W2.
Proof.
  revert W. induction p as [r|ks p IH|C q k IH]; intros W H; cbn in H |- *.
  - destruct r as [a|e]; [by exists a, W|]. by destruct H.
  - by apply IH.
  - destruct H as (s0 & H1 & H2 & H3). apply IH in H3 as (a & W1 & ? & ?). exists a, W1. eauto 10.
Qed.

Lemma rd_spec_bind {A B} s W (p : reads A) (f : A → reads B) Q :
  rd_spec s W p (λ a W1, rd_spec s W1 (f a) Q) → rd_spec s W (reads_bind p f) Q.
Proof. intros H b W2 Hr. apply reads_at_bind in Hr as (a & W1 & H1 & H2). by apply (H a W1 H1). Qed.

Lemma rd_spec_mono {A} s W (p : reads A) (Q Q' : A → list jstr → Prop) :
  rd_spec s W p Q → (∀ a W', Q a W' → Q' a W') → rd_spec s W p Q'.
Proof. intros H HQ a W' Hr. by apply HQ, H. Qed.

(** A read sees some earlier store; on a watched key it sees the store of the commit. *)
Lemma rd_spec_ask {B} s W (q : query B) (Q : B → list jstr → Prop) :
  (∀ s0, past s0 → (∀ x, x ∈ W → same_at x s0 s) → Q (answer q s0) W) → rd_spec s W (rd_ask q) Q.
Proof.
  intros H a' W' (s0 & H1 & H2 & [= ->] & ->). by apply H.
Qed.

Lemma rd_spec_ask_watched {B} s W (q : query B) (Q : B → list jstr → Prop) :
  query_key q ∈ W → Q (answer q s) W → rd_spec s W (rd_ask q) Q.
Proof. intros Hk H. apply rd_spec_ask. intros s0 _ Hs. by rewrite (answer_same q s0 s (Hs _ Hk)). Qed.

(** A part of an attempt whose result does not matter: it can only watch more. *)
Lemma reads_at_grows {A} s (p : reads A) r : ∀ W W', reads_at s W p r W' → W ⊆ W'.
Proof.
  induction p as [r0|ks p IH|C q k IH]; cbn; intros W W' H.
  - by destruct H as [_ ->].
  - apply IH in H. set_solver.
  - destruct H as (s0 & _ & _ & H). by eapply IH.
Qed.

Lemma rd_spec_skip {A} s W (p : reads A) (Q : A → list jstr → Prop) : (∀ a W', W ⊆ W' → Q a W') → rd_spec s W p Q.
Proof. intros H a W' Hr. apply H. by eapply reads_at_grows. Qed.

(** Reads of watched keys answer with the store of the commit. *)
Lemma rd_spec_map_watched {X B} s W (q : X → query B) l (Q : list B → list jstr → Prop) :
  (∀ x, x ∈ l → query_key (q x) ∈ W) → Q (map (λ x, answer (q x) s) l) W → rd_spec s W (rd_map (λ x, rd_ask (q x)) l) Q.
Proof.
  revert Q. induction l as [|x l IH]; intros Q Hk HQ; cbn [rd_map]; [by apply rd_spec_ret|].
  apply rd_spec_bind, rd_spec_ask_watched; [apply Hk; set_solver|]. apply rd_spec_bind, IH; [intros y Hy; apply Hk; set_solver|].
  by apply rd_spec_ret.
Qed.

(** Reads that may see different stores, one result each. *)
Lemma rd_spec_map {X B} s (f : X → reads B) (P : X → B → Prop) l (Q : list B → list jstr → Prop) :
  ∀ W, (∀ x W', x ∈ l → W ⊆ W' → rd_spec s W' (f x) (λ b _, P x b)) → (∀ bs W', W ⊆ W' → Forall2 P l bs → Q bs W') →
  rd_spec s W (rd_map f l) Q.
Proof.
  revert Q. induction l as [|x l IH]; intros Q W Hf HQ; cbn [rd_map]; [apply rd_spec_ret, HQ; [done|constructor]|].
  apply rd_spec_bind. intros b W1 H1. assert (W ⊆ W1) as HW by (by eapply reads_at_grows).
  assert (P x b) as HP by (eapply (Hf x W); [set_solver|done|exact H1]).
  apply rd_spec_bind, IH.
  - intros y W' Hy HW'. apply Hf; [set_solver|set_solver].
  - intros bs W' HW' Hbs. apply rd_spec_ret, HQ; [set_solver|]. by constructor.
Qed.

Lemma rd_spec_iter_lift {X} s W (f : X → result control_error unit) l (Q : unit → list jstr → Prop) :
  ((∀ x, x ∈ l → f x = Ok tt) → Q tt W) → rd_spec s W (rd_iter (λ x, rd_lift (f x)) l) Q.
Proof.
  revert Q. induction l as [|x l IH]; intros Q HQ; cbn [rd_iter].
  - apply rd_spec_ret, HQ. by intros x ?%elem_of_nil.
  - apply rd_spec_bind, rd_spec_lift. intros [] Hx. apply IH. intros Hl. apply HQ. intros y [->|Hy]%elem_of_cons; auto.
Qed.

Lemma rd_spec_intro {A} s W (p : reads A) (Q : A → list jstr → Prop) :
  (∀ a W', reads_at s W p (Ok a) W' → Q a W') → rd_spec s W p Q.
Proof. done. Qed.

Lemma rd_spec_elim {A} s W (p : reads A) (Q : A → list jstr → Prop) a W' :
  rd_spec s W p Q → reads_at s W p (Ok a) W' → Q a W'.
Proof. intros H. apply H. Qed.

End atomic.

(** ** Worlds of sessions *)

Section invariants.
(** [spent]: the keys whose one use is over. An invariant of the keys spent and the store,
    and a preorder between them and any later ones. *)
Context (I : gset jstr → store → Prop) (R : gset jstr → store → gset jstr → store → Prop).
Hypothesis R_refl : ∀ e s, R e s e s.
Hypothesis R_trans : ∀ e1 s1 e2 s2 e3 s3, R e1 s1 e2 s2 → R e2 s2 e3 s3 → R e1 s1 e3 s3.
Context {A : Type} (api : gset jstr → (Z → txn A) → Prop) (env : gset jstr → store → gset jstr → store → Prop).
(** Keys that only the session they were handed out to fills. *)
Context (exclusive : jstr → Prop).

(** The stores before [s]. *)
Definition before (e : gset jstr) (s s0 : store) : Prop := ∃ e0, I e0 s0 ∧ R e0 s0 e s.

(** What a request has to show: run with the store as it looks at its commit, it keeps the
    invariant, spends its own keys, and fills no exclusive key of others. *)
Definition keeps_invariant (owned : gset jstr) (body : Z → txn A) : Prop :=
  (∀ k, k ∈ owned → exclusive k) ∧
  ∀ now e s ws a W, I e s → owned ## e → (∀ k, k ∈ owned → blank k s) →
    reads_at (before e s) s [] (body now) (Ok (Commit ws a)) W →
    I (owned ∪ e) (apply_writes ws s) ∧ R e s (owned ∪ e) (apply_writes ws s) ∧
    ∀ k, exclusive k → k ∉ owned → blank k s → blank k (apply_writes ws s).

Definition env_keeps_invariant : Prop :=
  ∀ used s used' s' e, env used s used' s' → e ⊆ used → I e s →
    I ((used' ∖ used) ∪ e) s' ∧ R e s ((used' ∖ used) ∪ e) s' ∧ used ⊆ used' ∧
    ∀ k, exclusive k → k ∈ used → blank k s → blank k s'.

(** What is left of a session fits what it has done so far: any later store that agrees on
    the watched keys and on which the rest makes sense makes sense for the whole attempt. *)
Record session_ok (e : gset jstr) (s : store) (x : session A) : Prop := {
  so_api : api (s_owned x) (s_body x);
  so_owned : ∀ k, k ∈ s_owned x → blank k s;
  so_run : s_valid x = true → ∃ now, ∀ e' s' r W,
    I e' s' → R e s e' s' → (∀ k, k ∈ s_watch x → same_at k s s') →
    reads_at (before e' s') s' (s_watch x) (s_run x) r W → reads_at (before e' s') s' [] (s_body x now) r W }.

Record txn_world_ok (e : gset jstr) (w : world A) : Prop := {
  tw_inv : I e (w_store w);
  tw_spent : e ⊆ w_used w;
  tw_sessions : ∀ id x, w_sessions w !! id = Some x →
    session_ok e (w_store w) x ∧ s_owned x ⊆ w_used w ∧ s_owned x ## e;
  tw_owned : ∀ i j x y, w_sessions w !! i = Some x → w_sessions w !! j = Some y → i ≠ j → s_owned x ## s_owned y }.

Lemma blank_same k s s' : same_at k s s' → blank k s → blank k s'.
Proof. unfold blank. intros H Hb. by rewrite <- H. Qed.

(** The rest of a session still fits after a change of the store by someone else. *)
Lemma session_ok_change e s e' s' x : session_ok e s x → I e' s' → R e s e' s' → (∀ k, k ∈ s_owned x → blank k s') →
  session_ok e' s' (observe_change s s' x).
Proof.
  intros [H1 H2 H3] Hi HR Ho. split; cbn; [done|done|].
  intros Hv. apply andb_prop in Hv as [Hv Hw]. apply bool_decide_eq_true in Hw. rewrite Forall_forall in Hw.
  destruct (H3 Hv) as [now Hrun]. exists now. intros e'' s'' r W Hi'' HR' Hs Hr.
  apply Hrun; [done|by eapply R_trans| |done]. intros k Hk. etrans; [by apply Hw|by apply Hs].
Qed.

Lemma session_ok_start e s attempts owned body now : api owned body → (∀ k, k ∈ owned → blank k s) →
  session_ok e s (runOptimistic attempts owned body now).
Proof. intros Ha Hb. split; cbn; [done|done|]. intros _. by exists now. Qed.

(** One command of a session: it watches more keys, or reads. *)
Lemma session_ok_local e s x watch' run' : session_ok e s x → s_watch x ⊆ watch' →
  (∀ e' s' r W, R e s e' s' → (∀ k, k ∈ watch' → same_at k s s') →
     reads_at (before e' s') s' watch' run' r W → reads_at (before e' s') s' (s_watch x) (s_run x) r W) →
  session_ok e s (Session (s_body x) (s_left x) (s_owned x) watch' (s_valid x) run').
Proof.
  intros [H1 H2 H3] Hsub Hstep. split; cbn; [done|done|]. intros Hv. destruct (H3 Hv) as [now Hrun]. exists now.
  intros e' s' r W Hi' HR Hs Hr. apply Hrun; [done|done| |by apply Hstep]. intros k Hk. apply Hs. by apply Hsub.
Qed.

Definition sessions_ok (e : gset jstr) (s : store) (used : gset jstr) (xs : gmap nat (session A)) : Prop :=
  ∀ id x, xs !! id = Some x → session_ok e s x ∧ s_owned x ⊆ used ∧ s_owned x ## e.

Lemma insert_sessions_ok e s used (xs : gmap nat (session A)) id x :
  sessions_ok e s used xs → session_ok e s x → s_owned x ⊆ used → s_owned x ## e → sessions_ok e s used (<[id := x]> xs).
Proof. intros Hall Hx Hu He i y. rewrite lookup_insert. case_decide; [by intros [= <-]|]. apply Hall. Qed.

(** A session moves on and nothing else changes. *)
Lemma local_ok e w id x x' : txn_world_ok e w → w_sessions w !! id = Some x → session_ok e (w_store w) x' →
  s_owned x' = s_owned x → txn_world_ok e (World (w_store w) (w_used w) (<[id := x']> (w_sessions w))).
Proof.
  intros [H1 Hsp H2 H3] Hx Hx' Ho. destruct (H2 id x Hx) as (_ & Hu & He). split; cbn; [done|done| |].
  - apply insert_sessions_ok; [done|done|by rewrite Ho..].
  - intros i j y z Hy Hz Hne. rewrite lookup_insert in Hy, Hz. repeat case_decide; simplify_eq; rewrite ?Ho; eauto.
Qed.

Lemma change_store_ok e w e' s' used' (xs : gmap nat (session A)) : txn_world_ok e w → xs ⊆ w_sessions w → I e' s' →
  R e (w_store w) e' s' → w_used w ⊆ used' → e' ⊆ used' →
  (∀ id x, xs !! id = Some x → s_owned x ## e' ∧ ∀ k, k ∈ s_owned x → blank k s') →
  txn_world_ok e' (change_store s' used' xs w).
Proof.
  intros [H1 Hsp H2 H3] Hsub Hi HR Hu He Ho. split; cbn; [done|done| |].
  - intros id y Hy. rewrite lookup_fmap in Hy. destruct (xs !! id) as [x|] eqn:Ex; [|done]. injection Hy as <-.
    assert (w_sessions w !! id = Some x) as Ex' by (by eapply lookup_weaken). destruct (H2 id x Ex') as (Hok & Hown & _).
    destruct (Ho id x Ex) as [Hd Hb]. split_and!; [by eapply session_ok_change|cbn; set_solver|done].
  - intros i j y z Hy Hz Hne. rewrite lookup_fmap in Hy, Hz.
    destruct (xs !! i) as [xi|] eqn:Ei; [|done]. destruct (xs !! j) as [xj|] eqn:Ej; [|done].
    injection Hy as <-. injection Hz as <-. cbn.
    eapply H3; [by eapply lookup_weaken|by eapply lookup_weaken|done].
Qed.

Hypothesis api_ok : ∀ owned body, api owned body → keeps_invariant owned body.
Hypothesis env_ok : env_keeps_invariant.

(** The commit of a session, seen from the store it runs on. *)
Lemma commit_at e w id x ws a : txn_world_ok e w → w_sessions w !! id = Some x →
  s_run x = RRet (Ok (Commit ws a)) → s_valid x = true →
  ∃ now W, reads_at (before e (w_store w)) (w_store w) [] (s_body x now) (Ok (Commit ws a)) W.
Proof.
  intros [H1 Hsp H2 H3] Hx Hr Hv. destruct (H2 id x Hx) as [[_ _ Hrun] _]. destruct (Hrun Hv) as [now H].
  exists now, (s_watch x). apply H; [done|apply R_refl|done|]. rewrite Hr. done.
Qed.

Lemma txn_step_ok e w w' : txn_world_ok e w → txn_step api env w w' → ∃ e', txn_world_ok e' w'.
Proof.
  intros Hw Hs. pose proof Hw as [H1 Hsp H2 H3]. destruct Hs as
    [id attempts owned body now Hid Ha Hd Hb | id x ks p Hx Hr | id x B q k Hx Hr | id x ws a Hx Hr Hv
    |id x now x' Hx Hr Hn | id | used' s' He].
  - exists e. pose proof (session_ok_start e (w_store w) attempts owned body now Ha Hb) as Hok. split; cbn; [done|set_solver| |].
    + apply insert_sessions_ok; [|done|cbn; set_solver..]. intros i y Hy. destruct (H2 i y Hy) as (? & ? & ?). split_and!; [done|set_solver|done].
    + intros i j y z Hy Hz Hne. apply lookup_insert_Some in Hy as [[<- <-]|[Hi Hy]], Hz as [[<- <-]|[Hj Hz]]; cbn; [done| | |eauto].
      * destruct (H2 j z Hz) as (_ & ? & _). set_solver.
      * destruct (H2 i y Hy) as (_ & ? & _). set_solver.
  - exists e. destruct (H2 id x Hx) as [Hok _]. eapply local_ok; [done|done| |done].
    apply session_ok_local; [done|set_solver|]. intros e' s' r W _ _ Hra. by rewrite Hr.
  - exists e. destruct (H2 id x Hx) as [Hok _]. eapply local_ok; [done|done| |done].
    apply session_ok_local; [done|done|]. intros e' s' r W HR Hs Hra. rewrite Hr. cbn. exists (w_store w). split_and!; [by exists e|done|done].
  - destruct (commit_at e w id x ws a Hw Hx Hr Hv) as (now & W & Hra). destruct (H2 id x Hx) as ([Hapi Hown _] & Hou & Hoe).
    destruct (api_ok _ _ Hapi) as [Hex Hkeep]. destruct (Hkeep _ _ _ _ _ _ H1 Hoe Hown Hra) as (Hi & HR & Hexc).
    exists (s_owned x ∪ e). apply (change_store_ok e); [done|apply delete_subseteq|done|done|done|set_solver|].
    intros j y Hy. apply lookup_delete_Some in Hy as [Hne Hy]. specialize (H3 id j x y Hx Hy Hne).
    destruct (H2 j y Hy) as ([Hapi' Hown' _] & _ & Hye). split; [set_solver|]. intros k Hk. apply Hexc; [|set_solver|by apply Hown'].
    by apply (api_ok _ _ Hapi').
  - exists e. destruct (H2 id x Hx) as ([Hapi Hown _] & _). unfold next_attempt in Hn. destruct (s_left x) as [|n]; [done|].
    injection Hn as <-. eapply local_ok; [done|done| |done]. split; cbn; [done|done|]. intros _. by exists now.
  - exists e. split; cbn; [done|done| |].
    + intros i y Hy. apply lookup_delete_Some in Hy as [_ Hy]. by apply (H2 i y).
    + intros i j y z Hy Hz. apply lookup_delete_Some in Hy as [_ Hy]. apply lookup_delete_Some in Hz as [_ Hz]. eauto.
  - destruct (env_ok _ _ _ _ _ He Hsp H1) as (Hi & HR & Hu & Hex). exists ((used' ∖ w_used w) ∪ e).
    apply (change_store_ok e); [done|done|done|done|done|set_solver|].
    intros id x Hx. destruct (H2 id x Hx) as ([Hapi Hown _] & Hxu & Hxe). split; [set_solver|]. intros k Hk.
    apply Hex; [by apply (api_ok _ _ Hapi)|set_solver|by apply Hown].
Qed.

Lemma txn_reach_ok e0 s0 used0 w : I e0 s0 → e0 ⊆ used0 → txn_reach api env (World s0 used0 ∅) w → ∃ e, txn_world_ok e w.
Proof.
  intros Hi He. induction 1 as [|w w' _ [e IH] Hs]; [|by eapply txn_step_ok].
  exists e0. split; cbn; [done|done|by intros|by intros].
Qed.
End invariants.

#[global] Opaque rd_spec.

(** One step of a proof about an attempt: the head of a sequence, by a rule. *)
Ltac rd_step rule := apply rd_spec_bind; cbv beta; apply rule; cbv beta.
