(* ===== verification/Control.v ===== *)
(** * Control-plane metadata and indexes

    Models the parts of the control service that have no Redis reads of their own: bundle
    metadata, referrers and keys of src/control/lib.js, the staged index updates of
    src/control/lifecycle-indexes.js, the cron diff of src/control/cron-index.js, the queue
    keys of src/shared/queue-keys.js and the route plan of src/control/routing/route-plan.js.

    The entries of routes, crons and consumers in a bundle's metadata are read as records;
    [deploy] writes no others. [Object.entries] lists members in the order of the record. *)

From stdpp Require Import base list strings gmap.
From Stdlib Require Import ZArith Lia.
From S2P Require Import Prelude NsPattern WorkerContract Utf8 Json JsNumber Gateway Txn.

#[local] Open Scope Z_scope.
#[local] Open Scope wdl_scope.

Definition routing_error (status : Z) (code : string) : control_error := RoutingError status (js code).

(** ** Values *)

(** A non-empty string. *)
Definition filled_string (v : jsval) : option jstr :=
  match v with JStr [] => None | JStr s => Some s | _ => None end.

(** [new Set(l)] in insertion order. *)
Fixpoint unique (l : list jstr) : list jstr :=
  match l with
  | [] => []
  | x :: l => x :: filter (λ y, y ≠ x) (unique l)
  end.

(** [Object.entries] of an object or an array. *)
Fixpoint array_entries (i : Z) (l : list jsval) : list (jstr * jsval) :=
  match l with [] => [] | v :: l => (string_of_Z i, v) :: array_entries (i + 1) l end.

Definition entries_of (v : jsval) : list (jstr * jsval) :=
  match v with JObj fields => fields | JArr l => array_entries 0 l | _ => [] end.

(** A member of a value that is an object. *)
Definition member (k : string) (v : jsval) : jsval :=
  match v with JObj fields => obj_get (js k) fields | _ => JUndef end.

(** ** Bundle metadata *)

Definition parseBundleMeta (raw : jsval) : result control_error (list (jstr * jsval)) :=
  match raw with
  | JStr text =>
      match json_parse text with
      | Some (JObj fields) => Ok fields
      | _ => Err (routing_error 500 "corrupt_meta")
      end
  | _ => Err (routing_error 500 "corrupt_meta")
  end.

Record RoutePattern := MkRoute { r_host : jstr; r_slot : jstr; r_kind : jsval; r_value : jsval }.
Record CronSpec := MkCron { c_cron : jstr; c_timezone : jstr }.
Record QueueConsumer := MkConsumer {
  qc_queue : jstr; qc_maxBatchSize : Z; qc_maxBatchTimeoutMs : Z; qc_maxRetries : Z;
  qc_retryDelaySeconds : option Z; qc_deadLetterQueue : option jstr }.

Definition route_of (v : jsval) : option RoutePattern :=
  match member "host" v, member "slot" v with
  | JStr host, JStr slot => Some (MkRoute host slot (member "kind" v) (member "value" v))
  | _, _ => None
  end.

Definition cron_of (v : jsval) : option CronSpec :=
  match member "cron" v, member "timezone" v with
  | JStr cron, JStr timezone => Some (MkCron cron timezone)
  | _, _ => None
  end.

Definition integer_member (k : string) (v : jsval) : option Z :=
  match member k v with JNum (NInt n) => Some n | _ => None end.

Definition consumer_of (v : jsval) : option QueueConsumer :=
  match member "queue" v with
  | JStr queue =>
      size ← integer_member "maxBatchSize" v;
      timeout ← integer_member "maxBatchTimeoutMs" v;
      retries ← integer_member "maxRetries" v;
      Some (MkConsumer queue size timeout retries (integer_member "retryDelaySeconds" v)
              (filled_string (member "deadLetterQueue" v)))
  | _ => None
  end.

(** [Array.isArray(meta[field]) ? meta[field] : []], read as records. *)
Definition list_field {X} (field : string) (read : jsval → option X) (meta : list (jstr * jsval))
    : result control_error (list X) :=
  match obj_get (js field) meta with
  | JArr l => match mapM read l with Some xs => Ok xs | None => Err Thrown end
  | _ => Ok []
  end.

(** The [as] of an export, when it is there. *)
Definition export_as (v : jsval) : option jstr := filled_string (member "as" v).

Definition exports_field (meta : list (jstr * jsval)) : list jstr :=
  match obj_get (js "exports") meta with JArr l => omap export_as l | _ => [] end.

(** ** References to other resources *)

Record OutgoingRef := MkOutgoing { or_targetNs : jstr; or_targetWorker : jstr; or_targetVersion : jstr; or_binding : jstr }.
Record D1Ref := MkD1Ref { dr_binding : jstr; dr_databaseId : jstr }.

Definition is_type (t : string) (spec : jsval) : bool :=
  match member "type" spec with JStr s => jeqb s (js t) | _ => false end.

Definition extractOutgoingRefs (metaBindings : jsval) (callerNs : jstr) : list OutgoingRef :=
  omap (λ '(bindingName, spec),
    if is_type "service" spec then
      service ← filled_string (member "service" spec);
      version ← filled_string (member "version" spec);
      Some (MkOutgoing (default callerNs (filled_string (member "ns" spec))) service version bindingName)
    else None) (entries_of metaBindings).

Definition extractD1Refs (metaBindings : jsval) : list D1Ref :=
  omap (λ '(bindingName, spec),
    if is_type "d1" spec then
      databaseId ← filled_string (member "databaseId" spec);
      Some (MkD1Ref bindingName databaseId)
    else None) (entries_of metaBindings).

Definition encodeReferrerMember (callerNs callerWorker callerVersion binding : jstr) : result control_error jstr :=
  if jeqb callerNs [] || jeqb callerWorker [] || jeqb callerVersion [] || jeqb binding [] then Err Thrown
  else match stringify (JObj [(js "binding", JStr binding); (js "callerNs", JStr callerNs);
                              (js "callerVersion", JStr callerVersion); (js "callerWorker", JStr callerWorker)]) with
       | Some t => Ok t
       | None => Err Thrown
       end.

Record ReferrerMember := MkReferrer { rm_callerNs : jstr; rm_callerWorker : jstr; rm_callerVersion : jstr; rm_binding : jstr }.

Definition decodeReferrerMember (raw : jsval) : option ReferrerMember :=
  match raw with
  | JStr text =>
      obj ← json_parse text;
      match member "callerNs" obj, member "callerWorker" obj, member "callerVersion" obj, member "binding" obj with
      | JStr ns, JStr worker, JStr version, JStr binding => Some (MkReferrer ns worker version binding)
      | _, _, _, _ => None
      end
  | _ => None
  end.

(** ** Keys *)

Definition referrersKey (ns worker version : jstr) : jstr :=
  js "worker-version-referrers:" ++ ns ++ js ":" ++ worker ++ js ":" ++ version.
Definition workersIndexKey (ns : jstr) : jstr := js "workers:" ++ ns.
Definition d1DatabaseKey (ns databaseId : jstr) : jstr := js "d1:database:" ++ ns ++ js ":" ++ databaseId.
Definition d1DatabaseReferrersKey (ns databaseId : jstr) : jstr :=
  js "d1:database-referrers:" ++ ns ++ js ":" ++ databaseId.
Definition queueConsumerKey (ns queue : jstr) : jstr := js "queue-consumer:" ++ ns ++ js ":" ++ queue.
Definition QUEUE_CONSUMER_INDEX_KEY : jstr := js "queue:index:consumers".
Definition CRON_WORKER_INDEX_KEY : jstr := js "cron:index:workers".
Definition cronWorkerKey (ns worker : jstr) : jstr := js "crons:" ++ ns ++ js ":" ++ worker.
Definition cronSlotKey (slotMs : Z) : jstr := js "cron-slot:" ++ string_of_Z slotMs.
Definition cronSlotExpireAt (slotMs : Z) : Z := slotMs / 1000 + 600.
Definition cronRefMember (ns worker cronId : jstr) (gen : Z) : jstr :=
  ns ++ js ":" ++ worker ++ js ":" ++ cronId ++ js ":" ++ string_of_Z gen.

(** ** Staged index updates *)

(** The writes that each element stages, in order. *)
Fixpoint stage_all {X} (f : X → result control_error (list write)) (l : list X) : result control_error (list write) :=
  match l with
  | [] => Ok []
  | x :: l => let! ws := f x in let! rest := stage_all f l in Ok (ws ++ rest)
  end.

Definition callerReferrerMember (ns worker version binding : jstr) : result control_error jstr :=
  encodeReferrerMember ns worker version binding.

Definition stageWorkerVisible (ns worker : jstr) : list write := [WSAdd (workersIndexKey ns) worker].
Definition stageWorkerHidden (ns worker : jstr) : list write := [WSRem (workersIndexKey ns) worker].
Definition stageWorkerVersionIndexUpsert (ns worker version : jstr) (versionNumber : Z) : list write :=
  stageWorkerVisible ns worker ++ [WZAdd (workerVersionsKey ns worker) versionNumber version].
Definition stageWorkerVersionIndexRemove (ns worker version : jstr) : list write :=
  [WZRem (workerVersionsKey ns worker) version].
Definition stageWorkerVersionIndexDelete (ns worker : jstr) : list write := [WDel (workerVersionsKey ns worker)].

Record CronEntry := MkCronEntry { ce_id : jstr; ce_spec : CronSpec; ce_gen : Z; ce_slot : Z }.

Definition cronMetaJson (version : jstr) : option jstr := stringify (JObj [(js "version", JStr version)]).
Definition cronEntryJson (entry : CronEntry) : option jstr :=
  stringify (JObj [(js "cron", JStr (c_cron (ce_spec entry))); (js "timezone", JStr (c_timezone (ce_spec entry)));
                   (js "gen", JNum (NInt (ce_gen entry)))]).

Definition text_or_throw (t : option jstr) : result control_error jstr :=
  match t with Some t => Ok t | None => Err Thrown end.

Definition stageCronSlotRef (ns worker : jstr) (entry : CronEntry) : list write :=
  let key := cronSlotKey (ce_slot entry) in
  [WSAdd key (cronRefMember ns worker (ce_id entry) (ce_gen entry)); WExpireAt key (cronSlotExpireAt (ce_slot entry))].
Definition stageCronWorkerIndexed (ns worker : jstr) : list write := [WSAdd CRON_WORKER_INDEX_KEY (cronWorkerKey ns worker)].
Definition stageCronWorkerRemoved (ns worker : jstr) : list write := [WSRem CRON_WORKER_INDEX_KEY (cronWorkerKey ns worker)].
Definition stageCronSequence (ns worker : jstr) (seq : Z) : list write :=
  [WSet (cronSequenceKey ns worker) (string_of_Z seq)].
Definition stageCronProjectionMeta (ns worker version cronKey : jstr) : result control_error (list write) :=
  let! meta := text_or_throw (cronMetaJson version) in
  Ok (stageCronWorkerIndexed ns worker ++ [WHSet cronKey (js "__meta__") meta]).

Record CronPlan := MkCronPlan { cp_cronSeq : Z; cp_persistSequence : bool; cp_added : list CronEntry; cp_removed : list jstr }.

Definition stageCronProjection (ns worker version cronKey : jstr) (existingHash : gmap jstr jstr)
    (crons : list CronSpec) (plan : CronPlan) : result control_error (list write) :=
  let sequence := if cp_persistSequence plan then stageCronSequence ns worker (cp_cronSeq plan) else [] in
  match crons with
  | [] =>
      Ok (sequence ++ (if decide (existingHash = ∅) then [] else [WDel cronKey]) ++ stageCronWorkerRemoved ns worker)
  | _ =>
      let! meta := stageCronProjectionMeta ns worker version cronKey in
      let! added := stage_all (λ entry,
        let! text := text_or_throw (cronEntryJson entry) in
        Ok (WHSet cronKey (ce_id entry) text :: stageCronSlotRef ns worker entry)) (cp_added plan) in
      Ok (sequence ++ meta ++ added ++ map (WHDel cronKey) (cp_removed plan))
  end.

Definition stageOutgoingReferrerAdds (ns worker version : jstr) (refs : list OutgoingRef) : result control_error (list write) :=
  stage_all (λ ref,
    let! m := callerReferrerMember ns worker version (or_binding ref) in
    Ok [WSAdd (referrersKey (or_targetNs ref) (or_targetWorker ref) (or_targetVersion ref)) m]) refs.

Definition stageOutgoingReferrerRemovals (ns worker version : jstr) (refs : list OutgoingRef) : result control_error (list write) :=
  stage_all (λ ref,
    let! m := callerReferrerMember ns worker version (or_binding ref) in
    Ok [WSRem (referrersKey (or_targetNs ref) (or_targetWorker ref) (or_targetVersion ref)) m]) refs.

(** With [databaseIdFor] the [databaseId] of the reference. *)
Definition stageD1ReferrerAdds (ns worker version : jstr) (refs : list D1Ref) : result control_error (list write) :=
  stage_all (λ ref,
    let! m := callerReferrerMember ns worker version (dr_binding ref) in
    Ok [WSAdd (d1DatabaseReferrersKey ns (dr_databaseId ref)) m]) refs.

Definition stageD1ReferrerRemovals (ns worker version : jstr) (refs : list D1Ref) : result control_error (list write) :=
  stage_all (λ ref,
    let! m := callerReferrerMember ns worker version (dr_binding ref) in
    Ok [WSRem (d1DatabaseReferrersKey ns (dr_databaseId ref)) m]) refs.

Definition queueConsumerFields (worker version : jstr) (consumer : QueueConsumer) : list (jstr * jstr) :=
  [(js "worker", worker); (js "version", version);
   (js "max_batch_size", string_of_Z (qc_maxBatchSize consumer));
   (js "max_batch_timeout_ms", string_of_Z (qc_maxBatchTimeoutMs consumer));
   (js "max_retries", string_of_Z (qc_maxRetries consumer))]
  ++ match qc_deadLetterQueue consumer with Some q => [(js "dead_letter_queue", q)] | None => [] end
  ++ match qc_retryDelaySeconds consumer with Some n => [(js "retry_delay_secs", string_of_Z n)] | None => [] end.

Definition stageQueueConsumerProjection (ns worker version : jstr) (consumer : QueueConsumer) : list write :=
  let key := queueConsumerKey ns (qc_queue consumer) in
  WDel key :: map (λ fv, WHSet key fv.1 fv.2) (queueConsumerFields worker version consumer)
  ++ [WSAdd QUEUE_CONSUMER_INDEX_KEY key].

Definition stageQueueConsumerKeyRemoval (key : jstr) : list write := [WDel key; WSRem QUEUE_CONSUMER_INDEX_KEY key].
Definition stageQueueConsumerRemoval (ns queue : jstr) : list write :=
  stageQueueConsumerKeyRemoval (queueConsumerKey ns queue).

(** ** Cron diff *)

Section crons.
(** The SHA-1 of [cron|timezone], cut to ten hexadecimal digits. *)
Variable cronId : jstr → jstr → jstr.

(** [newById]: a later entry with the same id replaces the fields of an earlier one. *)
Fixpoint crons_by_id (acc : list (jstr * CronSpec)) (l : list CronSpec) : list (jstr * CronSpec) :=
  match l with
  | [] => acc
  | e :: l =>
      let id := cronId (c_cron e) (c_timezone e) in
      crons_by_id (if decide (id ∈ map fst acc) then map (λ p, if jeqb p.1 id then (id, e) else p) acc
                   else acc ++ [(id, e)]) l
  end.

(** The values [JSON.parse] answers that count as absent. *)
Definition json_falsy (v : jsval) : bool :=
  match v with
  | JUndef | JNull | JBool false | JStr [] | JNum (NInt 0) | JNum NNaN => true
  | _ => false
  end.

(** The added entries and the removed ids; [oldById] holds the parsed existing entries, and
    reading the [gen] of a stale [null] throws. *)
Definition diffCrons (oldById : list (jstr * jsval)) (newList : list CronSpec)
    : result control_error (list (jstr * CronSpec) * list jstr) :=
  let newById := crons_by_id [] newList in
  let removed := filter (λ p : jstr * jsval, p.1 ∉ map fst newById) oldById in
  if existsb (λ p : jstr * jsval, match p.2 with JNull => true | _ => false end) removed then Err Thrown
  else Ok (filter (λ p : jstr * CronSpec, json_falsy (obj_get p.1 oldById) = true) newById, map fst removed).
End crons.

(** ** The route plan *)

Definition routeKey (r : RoutePattern) : jstr := r_host r ++ js "|" ++ r_slot r.
Definition computeRouteKeySet (routes : list RoutePattern) : list jstr := unique (map routeKey routes).
Definition computeAffectedHosts (oldRoutes newRoutes : list RoutePattern) : list jstr :=
  unique (map r_host oldRoutes ++ map r_host newRoutes).

(** Does the namespace own a slot of the host, once the removed slots are gone and the new
    ones are there? *)
Definition ns_owns_host (ns h : jstr) (oldRoutes newRoutes : list RoutePattern) (newRouteKeys : list jstr)
    (state : gmap jstr jstr) : bool :=
  let removed := filter (λ r, routeKey r ∉ newRouteKeys ∧ r_host r = h) oldRoutes in
  let remaining := foldr (λ r m, delete (r_slot r) m) state removed in
  let own := filter (λ r, r_host r = h) newRoutes in
  negb (bool_decide (own = [])) ||
  existsb (λ kv : jstr * jstr,
    jeqb kv.2 (js "owned-by-self")
    || match decodePatternProjection (JStr kv.2) with Some p => jeqb (pp_ns p) ns | None => false end)
    (map_to_list remaining).

Definition computeNsHostDeltas (ns : jstr) (affectedHosts : list jstr) (oldRoutes newRoutes : list RoutePattern)
    (newRouteKeys : list jstr) (hostState : jstr → gmap jstr jstr) : list jstr * list jstr :=
  let owns h := ns_owns_host ns h oldRoutes newRoutes newRouteKeys (hostState h) in
  (filter (λ h, owns h = true) affectedHosts, filter (λ h, owns h = false) affectedHosts).
