(* ===== verification/JsonView.v ===== *)
(** * What a value keeps through JSON

    [json_view v] is what JSON.parse gives back for the text JSON.stringify prints for [v]:
    members that are [undefined] are gone, infinities and NaN are null, bytes are an object of
    their indices. [JsonPrinter] states that of a printer, which the files about bundles
    assume of JSON.stringify; the instance prints what Json.v can and checks the result. *)

From stdpp Require Import base list strings gmap.
From Stdlib Require Import ZArith Lia.
From S2P Require Import Prelude Utf8 Json Txn Control.

#[local] Open Scope Z_scope.
#[local] Open Scope wdl_scope.

(** [delete o[k]] *)
Definition obj_delete (k : jstr) (fields : list (jstr * jsval)) : list (jstr * jsval) :=
  filter (λ kv : jstr * jsval, kv.1 ≠ k) fields.

Fixpoint json_view (v : jsval) : jsval :=
  match v with
  | JNum (NInf _) | JNum NNaN => JNull
  | JBytes bytes => JObj (array_entries 0 (map (λ b, JNum (NInt b)) bytes))
  | JArr l => JArr (map (λ x, match x with JUndef => JNull | _ => json_view x end) l)
  | JObj fields =>
      JObj ((fix go (l : list (jstr * jsval)) := match l with
             | [] => []
             | (k, x) :: r => match x with JUndef => obj_delete k (go r) | _ => (k, json_view x) :: obj_delete k (go r) end
             end) fields)
  | v => v
  end.

Definition view_fields (fields : list (jstr * jsval)) : list (jstr * jsval) :=
  (fix go (l : list (jstr * jsval)) := match l with
   | [] => []
   | (k, x) :: r => match x with JUndef => obj_delete k (go r) | _ => (k, json_view x) :: obj_delete k (go r) end
   end) fields.

Class JsonPrinter (JSON : jsval → option jstr) : Prop := {
  printer_reads_back : ∀ v t, JSON v = Some t → json_parse t = Some (json_view v);
  printer_well_formed : ∀ v t, JSON v = Some t → utf8_decode (utf8_encode t) = t }.

(** ** Members *)

Lemma obj_get_delete k k' fields : obj_get k (obj_delete k' fields) = if decide (k = k') then JUndef else obj_get k fields.
Proof.
  unfold obj_delete. induction fields as [|[k0 v] fields IH]; [by case_decide|]. rewrite filter_cons.
  destruct (decide ((k0, v).1 ≠ k')) as [E|E]; cbn [obj_get fst] in *; destruct (jeqb k k0) eqn:Ej;
    rewrite ?jeqb_eq, ?jeqb_neq in Ej; rewrite ?IH; repeat case_decide; try done; subst; by destruct E.
Qed.

Lemma obj_get_put k k' v fields : obj_get k (obj_put k' v fields) = if decide (k = k') then v else obj_get k fields.
Proof.
  induction fields as [|[k0 v0] fields IH]; cbn [obj_put obj_get].
  - destruct (jeqb k k') eqn:Ej; [apply jeqb_eq in Ej; by rewrite decide_True|apply jeqb_neq in Ej; by rewrite decide_False].
  - destruct (jeqb k' k0) eqn:E0; cbn [obj_get]; destruct (jeqb k k') eqn:Ej, (jeqb k k0) eqn:Ek;
      rewrite ?jeqb_eq, ?jeqb_neq in *; subst; rewrite ?IH; repeat case_decide; congruence.
Qed.

Lemma obj_get_app k l l' : obj_get k (l ++ l') = if has_own k l then obj_get k l else obj_get k l'.
Proof.
  induction l as [|[k0 v] l IH]; [done|]. cbn [app obj_get has_own existsb fst]. destruct (jeqb k k0); [done|]. exact IH.
Qed.

Lemma view_get k fields : obj_get k (view_fields fields) = json_view (obj_get k fields).
Proof.
  unfold view_fields. induction fields as [|[k0 x] fields IH]; [done|]. cbn [obj_get].
  destruct (jeqb k k0) eqn:E.
  - apply jeqb_eq in E as ->. destruct x; cbn [obj_get]; rewrite ?jeqb_refl; try done. rewrite obj_get_delete. by rewrite decide_True.
  - apply jeqb_neq in E as E'. destruct x; cbn [obj_get]; rewrite ?E, obj_get_delete, decide_False by done; exact IH.
Qed.

Lemma view_member k fields : member k (json_view (JObj fields)) = json_view (obj_get (js k) fields).
Proof. exact (view_get (js k) fields). Qed.

(** ** The printer that checks its work *)

Fixpoint jsval_eqb (a b : jsval) : bool :=
  match a, b with
  | JUndef, JUndef | JNull, JNull => true
  | JBool x, JBool y => eqb x y
  | JNum x, JNum y => bool_decide (x = y)
  | JStr x, JStr y => jeqb x y
  | JBytes x, JBytes y => bool_decide (x = y)
  | JArr l, JArr l' =>
      (fix go l l' := match l, l' with
       | [], [] => true
       | x :: l, y :: l' => jsval_eqb x y && go l l'
       | _, _ => false
       end) l l'
  | JObj l, JObj l' =>
      (fix go (l l' : list (jstr * jsval)) := match l, l' with
       | [], [] => true
       | (k, x) :: l, (k', y) :: l' => jeqb k k' && jsval_eqb x y && go l l'
       | _, _ => false
       end) l l'
  | _, _ => false
  end.

Lemma jsval_eqb_eq a : ∀ b, jsval_eqb a b = true → a = b.
Proof.
  induction a as [| |x|x|x|x|l IH|l IH] using jsval_nested_ind; intros b H; destruct b as [| |y|y|y|y|l'|l']; try done; cbn in H.
  - by apply eqb_prop in H as ->.
  - by apply bool_decide_eq_true in H as ->.
  - by apply jeqb_eq in H as ->.
  - by apply bool_decide_eq_true in H as ->.
  - f_equal. revert l' H. induction IH as [|x l Hx _ IHl]; intros [|y l'] H; try done.
    apply andb_prop in H as [H1%Hx H2%IHl]. by subst.
  - f_equal. revert l' H. induction IH as [|[k x] l Hx _ IHl]; intros [|[k' y] l'] H; try done.
    apply andb_prop in H as [[H1%jeqb_eq H2%Hx]%andb_prop H3%IHl]. by subst.
Qed.

Definition checked_stringify (v : jsval) : option jstr :=
  t ← stringify v;
  v' ← json_parse t;
  if jsval_eqb v' (json_view v) && jeqb (utf8_decode (utf8_encode t)) t then Some t else None.

#[export] Instance checked_stringify_printer : JsonPrinter checked_stringify.
Proof.
  assert (∀ v t, checked_stringify v = Some t → json_parse t = Some (json_view v) ∧ utf8_decode (utf8_encode t) = t) as H.
  { intros v t. unfold checked_stringify. destruct (stringify v) as [t'|]; [|done]. cbn [mbind option_bind].
    destruct (json_parse t') as [v'|] eqn:E; [|done]. cbn [mbind option_bind].
    destruct (jsval_eqb v' (json_view v)) eqn:Ev; [|done]. destruct (jeqb _ t') eqn:Et; [|done]. cbn [andb]. intros [= <-].
    apply jsval_eqb_eq in Ev as ->. by apply jeqb_eq in Et. }
  split; intros v t Ht; by destruct (H v t Ht).
Qed.
