(* ===== verification/DoProtocol.v ===== *)
(** * The Durable Object invoke protocol

    Models src/do-runtime/protocol.js with its grammar, identity and error modules under
    src/do-runtime/protocol/: names and host ids, the normalisation of an invoke, and the
    envelope in which one task forwards an invoke to another.

    An invoke is read from JSON, so its values are JSON data. [new URL] is a parameter, and so
    is the text of JSON.stringify, with the law of [JsonPrinter]. *)

From stdpp Require Import base list strings gmap sorting.
From Stdlib Require Import ZArith Lia.
From S2P Require Import Prelude NsPattern WorkerContract Utf8 Json JsNumber Hash OwnerLease Redis Auth Control JsonView.

#[local] Open Scope Z_scope.
#[local] Open Scope wdl_scope.

(** ** Grammar (src/do-runtime/protocol/wire-grammar.js) *)

Definition MAX_ID_BYTES : Z := 512.
Definition DO_HOST_SHARD_COUNT : Z := 16.

Definition CLASS_NAME_RE : jstr → bool := head_star_re ident_start ident_part.
Definition METHOD_NAME_RE : jstr → bool := head_star_re ident_start ident_part.

Definition HEADER_NAME_RE (s : jstr) : bool :=
  negb (jeqb s []) && forallb (λ c, is_alnum c || includes_unit c (js "!#$%&'*+-.^_`|~")) s.

Definition STORAGE_ID_RE (s : jstr) : bool :=
  negb (jeqb s []) && forallb (λ c, is_lower_alnum c || is_underscore c || is_dash c) s.

(** [0|[1-9][0-9]*] *)
Definition shard_digits (s : jstr) : bool := jeqb s (js "0") || CANONICAL_POSITIVE_DECIMAL s.

(** No class of the pattern holds a colon, so it is matched part by part. *)
Definition HOST_ID_RE (s : jstr) : bool :=
  match split_on colon s with
  | [storage; class; shard] =>
      STORAGE_ID_RE storage && CLASS_NAME_RE class && starts_with (js "shard") shard && shard_digits (drop 5 shard)
  | _ => false
  end.

Definition DoRuntimeError (status : Z) (code : string) : jserr := ProtocolError status (js code).
Definition invalid_request : jserr := DoRuntimeError 400 "invalid_request".

Definition doHostShardForObjectName (objectName : jstr) (shardCount : Z) : Z := fnv1a32Utf8 objectName mod shardCount.

Definition formatDoOwnerShardKey (doStorageId className : jstr) (shard : Z) : jstr :=
  doStorageId ++ js ":" ++ className ++ js ":shard" ++ string_of_Z shard.

(** ** Identities (src/do-runtime/protocol/identity.js) *)

Definition control_free (s : jstr) : bool := forallb (λ c, negb ((c <? 0x20) || (c =? 0x7f))) s.

Definition requireIdentityString (value : jsval) (pattern : option (jstr → bool)) : result jserr jstr :=
  match value with
  | JStr ((_ :: _) as s) =>
      if negb (well_formed s) then Err invalid_request
      else if MAX_ID_BYTES <? utf8ByteLength s then Err invalid_request
      else if negb (control_free s) then Err invalid_request
      else if negb (from_option (λ re, re s) true pattern) then Err invalid_request
      else Ok s
  | _ => Err invalid_request
  end.

Definition shardForObjectName (objectName : jstr) : result jserr Z :=
  let! _ := requireIdentityString (JStr objectName) None in
  Ok (doHostShardForObjectName objectName DO_HOST_SHARD_COUNT).

Definition hostIdForShard (doStorageId className : jstr) (shard : jnum) : result jserr jstr :=
  match shard with
  | NInt parsed =>
      if (parsed <? 0) || (DO_HOST_SHARD_COUNT <=? parsed) then Err invalid_request
      else
        let! _ := requireIdentityString (JStr doStorageId) (Some STORAGE_ID_RE) in
        let! _ := requireIdentityString (JStr className) (Some CLASS_NAME_RE) in
        requireIdentityString (JStr (formatDoOwnerShardKey doStorageId className parsed)) (Some HOST_ID_RE)
  | _ => Err invalid_request
  end.

Definition hostIdForObject (doStorageId className objectName : jstr) : result jserr jstr :=
  let! shard := shardForObjectName objectName in
  hostIdForShard doStorageId className (NInt shard).

(** ** Values of an invoke *)

Definition MAX_REQUEST_BODY_BYTES : Z := 1024 * 1024.
Definition MAX_INVOKE_ENVELOPE_BYTES : Z := 2 * 1024 * 1024.
Definition MAX_REQUEST_HEADER_COUNT : Z := 128.
Definition MAX_REQUEST_HEADER_BYTES : Z := 128 * 1024.
Definition DO_INVOKE_CONTENT_TYPE : jstr := js "application/vnd.wdl.do-invoke".

Definition nullish (v : jsval) : bool := match v with JUndef | JNull => true | _ => false end.

Definition requireRecord (value : jsval) : result jserr fields :=
  match value with JObj fields => Ok fields | _ => Err invalid_request end.

Definition requireString (value : jsval) (maxBytes : Z) (pattern : option (jstr → bool)) : result jserr jstr :=
  match value with
  | JStr ((_ :: _) as s) =>
      if negb (well_formed s) then Err invalid_request
      else if maxBytes <? utf8ByteLength s then Err invalid_request
      else if negb (control_free s) then Err invalid_request
      else if negb (from_option (λ re, re s) true pattern) then Err invalid_request
      else Ok s
  | _ => Err invalid_request
  end.

(** [jsonDataError(value) === null]. A tree has no cycles, and its objects are plain. *)
Fixpoint json_data (value : jsval) : bool :=
  match value with
  | JNull | JStr _ | JBool _ => true
  | JNum n => num_is_finite n
  | JUndef | JBytes _ => false
  | JArr l => forallb json_data l
  | JObj fields => forallb (λ kv, json_data kv.2) fields
  end.

(** [String(v)] throws when an object of the text hides [toString]. *)
Fixpoint string_throws (v : jsval) : bool :=
  match v with
  | JObj fields => has_own (js "toString") fields
  | JArr l => existsb string_throws l
  | _ => false
  end.

(** [Number(v)], for arrays too: the number of the text of the elements. *)
Fixpoint element_number (v : jsval) : jnum :=
  match v with
  | JUndef | JNull => NInt 0
  | JBool _ | JBytes _ | JObj _ => NNaN
  | JNum n => n
  | JStr s => string_to_number s
  | JArr [] => NInt 0
  | JArr [x] => element_number x
  | JArr _ => NNaN
  end.

Definition ToNumber (v : jsval) : result jserr jnum :=
  if string_throws v then Err PlainError
  else Ok match v with JArr [] => NInt 0 | JArr [x] => element_number x | _ => Number_of v end.

(** [String(v)], unless the text has a digit, a bracket or a comma. *)
Fixpoint letters_text (v : jsval) : option jstr :=
  match v with
  | JStr s => Some s
  | JBool b => Some (if b then js "true" else js "false")
  | JNum (NInf false) => Some (js "Infinity")
  | JNum NNaN => Some (js "NaN")
  | JArr [x] => letters_text x
  | _ => None
  end.

(** [toUpperCase] of the characters whose upper case is of ASCII letters; the upper case of
    any other has a character outside A-Z, as it has itself. *)
Definition upper_unit (c : Z) : jstr :=
  if is_lower c then [c - 32]
  else if c =? 0x131 then js "I" else if c =? 0x17f then js "S" else if c =? 0xdf then js "SS"
  else if c =? 0xfb00 then js "FF" else if c =? 0xfb01 then js "FI" else if c =? 0xfb02 then js "FL"
  else if c =? 0xfb03 then js "FFI" else if c =? 0xfb04 then js "FFL"
  else if (c =? 0xfb05) || (c =? 0xfb06) then js "ST"
  else [c].

Definition to_upper (s : jstr) : jstr := flat_map upper_unit s.

(** [Object.entries]: array indices first, in order. *)
Definition is_array_index (k : jstr) : bool := shard_digits k && (dec_value 0 k <? 2 ^ 32 - 1).

Definition index_le (a b : jstr * jsval) : Prop := dec_value 0 a.1 <= dec_value 0 b.1.

#[export] Instance index_le_dec a b : Decision (index_le a b).
Proof. unfold index_le. apply _. Defined.

Definition Object_entries (fields : fields) : list (jstr * jsval) :=
  merge_sort index_le (filter (λ kv : jstr * jsval, is_array_index kv.1 = true) fields)
  ++ filter (λ kv : jstr * jsval, is_array_index kv.1 = false) fields.

(** ** The invoke *)

Record OwnerFence := MkOwnerFence { of_ownerKey : jstr; of_taskId : jstr; of_generation : Z }.
Record BundleSource := MkSource { bs_ns : jstr; bs_worker : jstr; bs_version : jstr; bs_doStorageId : jstr }.
Record RequestSpec := MkRequest { rs_method : jstr; rs_url : jstr; rs_headers : list (jstr * jstr); rs_bodyBytes : list Z }.
Record AlarmInfo := MkAlarm { ai_retryCount : Z; ai_isRetry : bool; ai_token : option jstr }.
Record RpcInfo := MkRpc { ri_method : jstr; ri_args : list jsval }.

(** The kind of an invoke with what it carries. *)
Inductive payload := Fetch (request : RequestSpec) | Alarm (alarm : AlarmInfo) | Rpc (rpc : RpcInfo).

(** [workerId] and [props] are projections of the source and the class name. *)
Record DoInvoke := MkInvoke {
  in_source : BundleSource; in_hostId : jstr; in_className : jstr; in_objectName : jstr;
  in_owner : option OwnerFence; in_sessionPolicy : jstr; in_restartSequence : Z; in_payload : payload }.

Definition workerId_of (s : BundleSource) : jstr := formatWorkerId (WorkerId (bs_ns s) (bs_worker s) (bs_version s)).

Inductive invoke_kind := KFetch | KAlarm | KRpc.

Definition kind_name (p : payload) : jstr :=
  match p with Fetch _ => js "fetch" | Alarm _ => js "alarm" | Rpc _ => js "rpc" end.

Definition normalizeInvokeKind (value : jsval) : result jserr invoke_kind :=
  match value with
  | JUndef | JNull => Ok KFetch
  | JStr s =>
      if jeqb s (js "fetch") then Ok KFetch
      else if jeqb s (js "alarm") then Ok KAlarm
      else if jeqb s (js "rpc") then Ok KRpc
      else Err invalid_request
  | _ => Err invalid_request
  end.

Definition normalizeHeaderPair (name value : jsval) : result jserr (jstr * jstr) :=
  let! headerName := requireString name 128 None in
  if negb (HEADER_NAME_RE headerName) then Err invalid_request
  else match value with
       | JStr v => if control_free v then Ok (headerName, v) else Err invalid_request
       | _ => Err invalid_request
       end.

Definition too_large : jserr := DoRuntimeError 413 "request_body_too_large".

(** The pairs in order, with the bytes counted so far. *)
Fixpoint normalize_pairs (totalBytes : Z) (entries : list (result jserr (jsval * jsval))) : result jserr (list (jstr * jstr)) :=
  match entries with
  | [] => Ok []
  | entry :: rest =>
      let! e := entry in
      let! p := normalizeHeaderPair e.1 e.2 in
      let totalBytes := totalBytes + (utf8ByteLength p.1 + utf8ByteLength p.2) in
      if MAX_REQUEST_HEADER_BYTES <? totalBytes then Err too_large
      else let! pairs := normalize_pairs totalBytes rest in Ok (p :: pairs)
  end.

Definition header_entry (entry : jsval) : result jserr (jsval * jsval) :=
  match entry with JArr [name; value] => Ok (name, value) | _ => Err invalid_request end.

Definition normalizeHeaders (value : jsval) : result jserr (list (jstr * jstr)) :=
  match value with
  | JUndef | JNull => Ok []
  | JArr l =>
      if MAX_REQUEST_HEADER_COUNT <? Z.of_nat (length l) then Err invalid_request
      else normalize_pairs 0 (map header_entry l)
  | _ =>
      let! record := requireRecord value in
      let entries := Object_entries record in
      if MAX_REQUEST_HEADER_COUNT <? Z.of_nat (length entries) then Err invalid_request
      else normalize_pairs 0 (map (λ kv, Ok (JStr kv.1, kv.2)) entries)
  end.

(** [value == null ? {} : requireRecord(value)] *)
Definition optional_record (value : jsval) : result jserr fields :=
  if nullish value then Ok [] else requireRecord value.

(** [String(input.method || "GET").toUpperCase()], checked against [^[A-Z]+$]. *)
Definition method_of (value : jsval) : result jserr jstr :=
  let v := if truthy value then value else JStr (js "GET") in
  if string_throws v then Err PlainError
  else match to_upper <$> letters_text v with
       | Some ((_ :: _) as m) => if forallb is_upper m then Ok m else Err invalid_request
       | _ => Err invalid_request
       end.

Definition normalizeAlarmInfo (value : jsval) : result jserr AlarmInfo :=
  let! input := optional_record value in
  let raw := obj_get (js "retryCount") input in
  let retryCount := if nullish raw then JNum (NInt 0) else raw in
  match retryCount with
  | JNum (NInt n) =>
      if n <? 0 then Err invalid_request
      else
        let token := obj_get (js "token") input in
        let! token := if nullish token then Ok None
                      else let! t := requireString token MAX_ID_BYTES None in Ok (Some t) in
        let isRetry := obj_get (js "isRetry") input in
        Ok (MkAlarm n (if nullish isRetry then 0 <? n else truthy isRetry) token)
  | _ => Err invalid_request
  end.

Definition normalizeOwnerFence (value : jsval) : result jserr (option OwnerFence) :=
  if nullish value then Ok None
  else
    let! input := requireRecord value in
    let! generation := ToNumber (obj_get (js "generation") input) in
    match safe_integer_of (JNum generation) with
    | None => Err invalid_request
    | Some generation =>
        if generation <=? 0 then Err invalid_request
        else
          let! ownerKey := requireString (obj_get (js "ownerKey") input) MAX_ID_BYTES None in
          let! taskId := requireString (obj_get (js "taskId") input) MAX_ID_BYTES None in
          Ok (Some (MkOwnerFence ownerKey taskId generation))
    end.

(** The text after the last [marker] of [s]: [s.slice(s.lastIndexOf(marker) + marker.length)]. *)
Fixpoint after_last (marker s : jstr) : option jstr :=
  match s with
  | [] => None
  | _ :: r =>
      match after_last marker r with
      | Some t => Some t
      | None => if starts_with marker s then Some (drop (length marker) s) else None
      end
  end.

Record HostId := MkHostId { hi_hostId : jstr; hi_doStorageId : jstr; hi_className : jstr; hi_shard : Z }.

Definition parseHostId (value : jsval) : result jserr HostId :=
  let! hostId := requireString value MAX_ID_BYTES (Some HOST_ID_RE) in
  match split_on colon hostId, string_to_number (default hostId (after_last (js ":shard") hostId)) with
  | storage :: class :: _, NInt shard =>
      if (shard <? 0) || (DO_HOST_SHARD_COUNT <=? shard) then Err invalid_request
      else Ok (MkHostId hostId storage class shard)
  | _, _ => Err invalid_request
  end.

Definition normalizeHostId (value : jsval) (source : BundleSource) (className objectName : jstr) : result jserr jstr :=
  let! parsed := parseHostId value in
  if negb (jeqb (hi_doStorageId parsed) (bs_doStorageId source)) || negb (jeqb (hi_className parsed) className)
  then Err invalid_request
  else
    let! shard := shardForObjectName objectName in
    if hi_shard parsed =? shard then Ok (hi_hostId parsed) else Err invalid_request.

Definition normalizeBundleSource (input : fields) : result jserr BundleSource :=
  let! ns := requireString (obj_get (js "ns") input) MAX_ID_BYTES None in
  if negb (isValidRuntimeLoadNs (JStr ns)) then Err invalid_request
  else
    let! worker := requireString (obj_get (js "worker") input) MAX_ID_BYTES (Some WORKER_NAME_RE) in
    let! version := requireString (obj_get (js "version") input) MAX_ID_BYTES None in
    match parseVersion (JStr version) with
    | None => Err invalid_request
    | Some _ =>
        let! doStorageId := requireString (obj_get (js "doStorageId") input) MAX_ID_BYTES (Some STORAGE_ID_RE) in
        Ok (MkSource ns worker version doStorageId)
    end.

Section invoke.
(** [new URL(url)]: [None] when it throws. *)
Variable IntrinsicURL : jstr → option url_parts.
(** [JSON.stringify]. *)
Variable JSON : jsval → option jstr.

Definition normalizeRequestSpec (value : jsval) : result jserr RequestSpec :=
  let! input := optional_record value in
  let! method := method_of (obj_get (js "method") input) in
  let raw := obj_get (js "url") input in
  let! url := if nullish raw then Ok (js "https://do.internal/") else requireString raw (16 * 1024) None in
  match IntrinsicURL url with
  | None => Err invalid_request
  | Some _ =>
      if existsb (λ field, negb (nullish (obj_get field input))) [js "bodyText"; js "bodyBase64"; js "bodyBytes"]
      then Err invalid_request
      else
        let! headers := normalizeHeaders (obj_get (js "headers") input) in
        Ok (MkRequest method url headers [])
  end.

Definition requireJsonSerializedSize (value : jsval) (maxBytes : Z) : result jserr unit :=
  match JSON value with
  | Some json => if maxBytes <? utf8ByteLength json then Err too_large else Ok tt
  | None => Err PlainError
  end.

Definition normalizeRpcInfo (value : jsval) : result jserr RpcInfo :=
  let! input := requireRecord value in
  let! method := requireString (obj_get (js "method") input) 256 (Some METHOD_NAME_RE) in
  if jeqb method (js "fetch") || jeqb method (js "alarm") then Err invalid_request
  else match obj_get (js "args") input with
       | JArr args =>
           if negb (json_data (JArr args)) then Err invalid_request
           else
             let! _ := requireJsonSerializedSize (JArr args) MAX_REQUEST_BODY_BYTES in
             Ok (MkRpc method args)
       | _ => Err invalid_request
       end.

Definition normalizeDoInvokeRequest (value : jsval) : result jserr DoInvoke :=
  let! input := requireRecord value in
  if negb (nullish (obj_get (js "workerCode") input)) then Err invalid_request
  else
    let! source := normalizeBundleSource input in
    let! kind := normalizeInvokeKind (obj_get (js "kind") input) in
    let! className := requireString (obj_get (js "className") input) MAX_ID_BYTES (Some CLASS_NAME_RE) in
    let! objectName := requireString (obj_get (js "objectName") input) MAX_ID_BYTES None in
    let! hostId :=
      if nullish (obj_get (js "hostId") input) then hostIdForObject (bs_doStorageId source) className objectName
      else normalizeHostId (obj_get (js "hostId") input) source className objectName in
    let! owner := normalizeOwnerFence (obj_get (js "owner") input) in
    let! what :=
      match kind with
      | KAlarm => let! a := normalizeAlarmInfo (obj_get (js "alarm") input) in Ok (Alarm a)
      | KRpc => let! r := normalizeRpcInfo (obj_get (js "rpc") input) in Ok (Rpc r)
      | KFetch => let! r := normalizeRequestSpec (obj_get (js "request") input) in Ok (Fetch r)
      end in
    Ok (MkInvoke source hostId className objectName owner SESSION_POLICY_PRESERVE 0 what).

Definition buildFacetName (invoke : DoInvoke) : jstr := in_className invoke ++ js ":" ++ in_objectName invoke.
Definition buildOwnerKey (hostId : jstr) : jstr := hostId.

(** ** The envelope *)

Definition fence_json (f : OwnerFence) : jsval :=
  JObj [(js "ownerKey", JStr (of_ownerKey f)); (js "taskId", JStr (of_taskId f)); (js "generation", JNum (NInt (of_generation f)))].

Definition alarm_json (a : AlarmInfo) : jsval :=
  JObj ([(js "retryCount", JNum (NInt (ai_retryCount a))); (js "isRetry", JBool (ai_isRetry a))]
        ++ match ai_token a with Some t => [(js "token", JStr t)] | None => [] end).

Definition rpc_json (r : RpcInfo) : jsval := JObj [(js "method", JStr (ri_method r)); (js "args", JArr (ri_args r))].

Definition request_json (r : RequestSpec) : jsval :=
  JObj [(js "method", JStr (rs_method r)); (js "url", JStr (rs_url r));
        (js "headers", JArr (map (λ h : jstr * jstr, JArr [JStr h.1; JStr h.2]) (rs_headers r)))].

Definition payload_json (p : payload) : jstr * jsval :=
  match p with
  | Fetch r => (js "request", request_json r)
  | Alarm a => (js "alarm", alarm_json a)
  | Rpc r => (js "rpc", rpc_json r)
  end.

Definition props_json (i : DoInvoke) : jsval :=
  let s := in_source i in
  JObj [(js "ns", JStr (bs_ns s)); (js "worker", JStr (bs_worker s)); (js "version", JStr (bs_version s));
        (js "doStorageId", JStr (bs_doStorageId s)); (js "className", JStr (in_className i))].

(** [invokeWithoutBodyBytes]: the metadata of the envelope and the body. *)
Definition invoke_json (i : DoInvoke) : jsval :=
  let s := in_source i in
  JObj ([(js "kind", JStr (kind_name (in_payload i))); (js "hostId", JStr (in_hostId i));
         (js "className", JStr (in_className i)); (js "objectName", JStr (in_objectName i)); (js "props", props_json i)]
        ++ match in_owner i with Some f => [(js "owner", fence_json f)] | None => [] end
        ++ [(js "ns", JStr (bs_ns s)); (js "worker", JStr (bs_worker s)); (js "version", JStr (bs_version s));
            (js "doStorageId", JStr (bs_doStorageId s)); (js "workerId", JStr (workerId_of s)); payload_json (in_payload i)]).

Definition invokeWithoutBodyBytes (i : DoInvoke) : jsval * list Z :=
  (invoke_json i, match in_payload i with Fetch r => rs_bodyBytes r | _ => [] end).

(** [setUint32(0, n, false)] and [getUint32(0, false)]. *)
Definition uint32_be (n : Z) : list Z := [n / 2 ^ 24 mod 256; n / 2 ^ 16 mod 256; n / 2 ^ 8 mod 256; n mod 256].
Definition get_uint32_be (b : list Z) : Z := fold_left (λ acc x, acc * 256 + x) (take 4 b) 0.

Definition encodeInvokeEnvelope (metadata : jsval) (body : list Z) (maxBytes : option Z) : result jserr (list Z) :=
  match JSON metadata with
  | None => Err PlainError
  | Some text =>
      let metadataBytes := utf8_encode text in
      let total := 4 + Z.of_nat (length metadataBytes) + Z.of_nat (length body) in
      if from_option (λ max, max <? total) false maxBytes then Err too_large
      else Ok (uint32_be (Z.of_nat (length metadataBytes)) ++ metadataBytes ++ body)
  end.

Definition decodeInvokeEnvelope (bytes : list Z) : result jserr (jsval * list Z) :=
  if (length bytes <? 4)%nat then Err invalid_request
  else
    let metadataLength := get_uint32_be bytes in
    if (metadataLength =? 0) || (Z.of_nat (length bytes) <? 4 + metadataLength) then Err invalid_request
    else
      let n := Z.to_nat metadataLength in
      match json_parse (utf8_decode (take n (drop 4 bytes))) with
      | None => Err (DoRuntimeError 400 "invalid_json")
      | Some metadata => Ok (metadata, drop (4 + n) bytes)
      end.

Definition invokeWithEnvelopeBody (metadata : jsval) (bodyBytes : list Z) : result jserr DoInvoke :=
  let! invoke := normalizeDoInvokeRequest metadata in
  match bodyBytes, in_payload invoke with
  | [], _ => Ok invoke
  | _, Fetch r =>
      Ok (MkInvoke (in_source invoke) (in_hostId invoke) (in_className invoke) (in_objectName invoke) (in_owner invoke)
            (in_sessionPolicy invoke) (in_restartSequence invoke)
            (Fetch (MkRequest (rs_method r) (rs_url r) (rs_headers r) bodyBytes)))
  | _, _ => Err invalid_request
  end.

Definition encodeDoInvokeRequest (invoke : DoInvoke) : result jserr (list Z) :=
  let '(metadata, bodyBytes) := invokeWithoutBodyBytes invoke in
  encodeInvokeEnvelope metadata bodyBytes (Some MAX_INVOKE_ENVELOPE_BYTES).

(** A request: its headers by name, its body. *)
Record Request := MkHttp { rq_header : jstr → option jstr; rq_body : list Z }.

(** [headers.get(name)] *)
Definition header_get (request : Request) (name : string) : jsval :=
  match rq_header request (js name) with Some v => JStr v | None => JNull end.

Definition readBoundedBytes (request : Request) (maxBytes : Z) : result jserr (list Z) :=
  if maxBytes <? Z.of_nat (length (rq_body request)) then Err too_large else Ok (rq_body request).

(** [contentTypeEssence] of src/shared/respond.js, lower-cased on ASCII. *)
Definition contentTypeEssence (value : jsval) : jstr :=
  match value with JStr s => to_lower (trim (default [] (head (split_on 59 s)))) | _ => [] end.

Definition ownerFenceFromHeaders (request : Request) : result jserr (option OwnerFence) :=
  let ownerKey := header_get request "x-wdl-do-owner-key" in
  let taskId := header_get request "x-wdl-do-owner-task-id" in
  let generation := header_get request "x-wdl-do-owner-generation" in
  if nullish ownerKey && nullish taskId && nullish generation then Ok None
  else normalizeOwnerFence (JObj [(js "ownerKey", ownerKey); (js "taskId", taskId); (js "generation", generation)]).

Definition ownerFencesEqual (left right : OwnerFence) : bool :=
  jeqb (of_ownerKey left) (of_ownerKey right) && jeqb (of_taskId left) (of_taskId right)
  && (of_generation left =? of_generation right).

Definition with_owner (owner : option OwnerFence) (i : DoInvoke) : DoInvoke :=
  MkInvoke (in_source i) (in_hostId i) (in_className i) (in_objectName i) owner (in_sessionPolicy i)
    (in_restartSequence i) (in_payload i).

Definition readDoInvokeRequest (request : Request) : result jserr DoInvoke :=
  if negb (jeqb (contentTypeEssence (header_get request "content-type")) DO_INVOKE_CONTENT_TYPE)
  then Err (DoRuntimeError 415 "unsupported_media_type")
  else
    let! bytes := readBoundedBytes request MAX_INVOKE_ENVELOPE_BYTES in
    let! decoded := decodeInvokeEnvelope bytes in
    let! invoke := invokeWithEnvelopeBody decoded.1 decoded.2 in
    let! headerOwner := ownerFenceFromHeaders request in
    match headerOwner, in_owner invoke with
    | None, _ => Ok invoke
    | Some h, Some o => if ownerFencesEqual o h then Ok (with_owner (Some h) invoke) else Err invalid_request
    | Some h, None => Ok (with_owner (Some h) invoke)
    end.

(** The local actor's envelope has the header of its own and no limit at the sender. *)
Definition readLocalActorInvokeRequest (request : Request) : result jserr DoInvoke :=
  if negb (bool_decide (rq_header request (js "x-wdl-do-local-envelope") = Some (js "binary")))
  then Err (DoRuntimeError 415 "unsupported_media_type")
  else
    let! bytes := readBoundedBytes request MAX_INVOKE_ENVELOPE_BYTES in
    let! decoded := decodeInvokeEnvelope bytes in
    invokeWithEnvelopeBody decoded.1 decoded.2.

Definition buildLocalActorBody (invoke : DoInvoke) : result jserr (list Z) :=
  let '(metadata, bodyBytes) := invokeWithoutBodyBytes invoke in
  encodeInvokeEnvelope metadata bodyBytes None.
End invoke.

(** ** Host ids *)

(** A double below 2^53 is the integer it was rounded from. *)
Lemma to_double_small z n : 0 <= z → to_double z 1 = NInt n → n <= MAX_SAFE_INTEGER → z = n.
Proof.
  intros Hz H Hn. destruct (Z.le_gt_cases z MAX_SAFE_INTEGER) as [|Hbig].
  { rewrite to_double_safe in H by lia. by injection H. }
  exfalso. unfold MAX_SAFE_INTEGER in *. revert H. unfold to_double. rewrite (proj2 (Z.eqb_neq z 0)) by lia.
  change (Z.log2 1) with 0. rewrite Z.sub_0_r. assert (53 <= Z.log2 z) as Hl.
  { change 53 with (Z.log2 (2 ^ 53)). apply Z.log2_le_mono. lia. }
  destruct (Z.log2_spec z) as [Hlo _]; [lia|].
  rewrite (Z.max_l 0 (- Z.log2 z)), (Z.max_r 0 (Z.log2 z)), Z.mul_1_r, Z.mul_1_l by lia.
  rewrite (proj2 (Z.ltb_ge _ _)) by lia.
  rewrite (Z.max_l (Z.log2 z - 52)), (Z.max_l 0 (- (Z.log2 z - 52))), (Z.max_r 0 (Z.log2 z - 52)), Z.mul_1_r by lia.
  set (e := Z.log2 z - 52) in *. assert (2 ^ 52 * 2 ^ e <= z) as Hze by (rewrite <- Z.pow_add_r by lia; by replace (52 + e) with (Z.log2 z) by lia).
  assert (2 ^ 52 <= round_half_even z (1 * 2 ^ e)) as Hm.
  { unfold round_half_even. rewrite Z.mul_1_l. assert (2 ^ 52 <= z / 2 ^ e) by (apply Z.div_le_lower_bound; lia).
    destruct (_ || _); lia. }
  rewrite Z.pow_0_r, Z.div_1_r. destruct (_ <=? _); [done|]. unfold num_of_quotient. rewrite Z.mod_1_r, Z.div_1_r. cbn [Z.eqb].
  intros [= <-]. assert (2 ^ 1 <= 2 ^ e) by (apply Z.pow_le_mono_r; lia). nia.
Qed.

Lemma requireString_Ok v max p s : requireString v max p = Ok s → v = JStr s.
Proof.
  unfold requireString. destruct v as [| | | |[|c r]| | |]; try done. destruct (negb (well_formed _)); [done|].
  destruct (_ <? _); [done|]. destruct (negb (control_free _)); [done|]. destruct (negb _); [done|].
  by intros <-%Ok_inj.
Qed.

Lemma requireString_pattern v max re s : requireString v max (Some re) = Ok s → re s = true.
Proof.
  intros H. pose proof (requireString_Ok _ _ _ _ H) as ->. revert H. unfold requireString. destruct s; [done|].
  destruct (negb (well_formed _)); [done|]. destruct (_ <? _); [done|]. destruct (negb (control_free _)); [done|].
  cbn [from_option]. by destruct (re _).
Qed.

Lemma after_last_skip m w s t : after_last m s = Some t → after_last m (w ++ s) = Some t.
Proof. intros H. induction w as [|c w IH]; [done|]. cbn [app after_last]. by rewrite IH. Qed.

Lemma after_last_none c m s : c ∉ s → after_last (c :: m) s = None.
Proof.
  induction s as [|x s IH]; [done|]. intros [Hx Hs]%not_elem_of_cons. cbn [after_last]. rewrite IH by done.
  cbn [starts_with]. by rewrite (proj2 (Z.eqb_neq c x)) by done.
Qed.

Lemma after_last_last c m t : c ∉ m → c ∉ t → after_last (c :: m) (c :: m ++ t) = Some t.
Proof.
  intros Hm Ht. cbn [after_last]. rewrite after_last_none by (rewrite elem_of_app; tauto).
  change (c :: m ++ t) with ((c :: m) ++ t). by rewrite starts_with_app, drop_app_length.
Qed.

Lemma storage_no_colon s : STORAGE_ID_RE s = true → colon ∉ s.
Proof.
  unfold STORAGE_ID_RE. intros [_ H%forallb_Forall]%andb_prop. eapply Forall_class_no_sep; [|exact H]. done.
Qed.

Lemma class_no_colon s : CLASS_NAME_RE s = true → colon ∉ s.
Proof.
  unfold CLASS_NAME_RE, head_star_re. destruct s as [|c r]; [done|]. intros [Hc H%forallb_Forall]%andb_prop.
  apply not_elem_of_cons. split; [by intros <-|]. eapply Forall_class_no_sep; [|exact H]. done.
Qed.

Lemma shard_digits_print s : shard_digits s = true →
  s = string_of_nonneg (dec_value 0 s) ∧ 0 <= dec_value 0 s ∧ Forall (λ c, is_digit c = true) s ∧ s ≠ [].
Proof.
  unfold shard_digits. intros H. assert (CANONICAL_POSITIVE_DECIMAL s = true ∨ s = js "0") as H'.
  { apply orb_true_iff in H as [->%jeqb_eq|]; auto. }
  destruct (canonical_decimal_print s H') as [E ?]. split_and!; try done.
  - destruct H' as [?| ->]; [by apply canonical_decimal_digits | by repeat constructor].
  - intros ->. by destruct H'.
Qed.

Lemma digits_no_colon s : Forall (λ c, is_digit c = true) s → colon ∉ s.
Proof. intros H. eapply Forall_class_no_sep; [|exact H]. done. Qed.

(** The host ids are the formatted keys. *)
Lemma parse_host_id v h : parseHostId v = Ok h →
  v = JStr (hi_hostId h) ∧ hi_hostId h = formatDoOwnerShardKey (hi_doStorageId h) (hi_className h) (hi_shard h) ∧
  0 <= hi_shard h < DO_HOST_SHARD_COUNT ∧ requireString v MAX_ID_BYTES (Some HOST_ID_RE) = Ok (hi_hostId h).
Proof.
  unfold parseHostId. intros (id & Hid & H)%rbind_Ok_inv. pose proof (requireString_pattern _ _ _ _ Hid) as Hre.
  pose proof (requireString_Ok _ _ _ _ Hid) as ->. revert H. unfold HOST_ID_RE in Hre. pose proof (join_split colon id) as Ej.
  destruct (split_on colon id) as [|storage [|class [|shard [|? ?]]]]; try done.
  apply andb_prop in Hre as [[[Hs Hc]%andb_prop Hp]%andb_prop Hd]. apply starts_with_spec in Hp as [digits ->].
  change (drop 5 (js "shard" ++ digits)) with digits in Hd. apply shard_digits_print in Hd as (Ed & Hpos & Hds & Hne).
  assert (id = storage ++ colon :: class ++ (colon :: js "shard" ++ digits)) as Eid.
  { rewrite <- Ej. cbn [join_with]. by rewrite <- ?app_assoc. }
  assert (after_last (js ":shard") id = Some digits) as ->.
  { rewrite Eid. apply after_last_skip. rewrite app_comm_cons. apply after_last_skip.
    apply (after_last_last colon (js "shard")); [|by apply digits_no_colon].
    apply (bool_decide_unpack _). vm_compute. exact I. }
  cbn [from_option]. rewrite string_to_number_digits by done.
  destruct (to_double _ 1) as [n| | |] eqn:En; try done. unfold DO_HOST_SHARD_COUNT.
  destruct ((n <? 0) || (16 <=? n)) eqn:Eb; [done|]. intros <-%Ok_inj. to_prop.
  apply to_double_small in En; [|done|unfold MAX_SAFE_INTEGER; lia]. cbn [hi_hostId hi_doStorageId hi_className hi_shard].
  split_and!; [done| |lia|lia|done]. rewrite Eid. unfold formatDoOwnerShardKey, string_of_Z.
  cbn in En. rewrite (proj2 (Z.ltb_ge n 0)), <- En, <- Ed by lia. done.
Qed.

Lemma requireIdentityString_eq v p : requireIdentityString v p = requireString v MAX_ID_BYTES p.
Proof. done. Qed.

Lemma shard_range name n : shardForObjectName name = Ok n → 0 <= n < DO_HOST_SHARD_COUNT.
Proof. unfold shardForObjectName. intros (? & _ & <-%Ok_inj)%rbind_Ok_inv. by apply Z.mod_pos_bound. Qed.

(** A host id names its storage, its class and its shard. *)
Lemma host_id_for_shard storage class n h : hostIdForShard storage class (NInt n) = Ok h →
  h = formatDoOwnerShardKey storage class n ∧ 0 <= n < DO_HOST_SHARD_COUNT ∧
  requireString (JStr storage) MAX_ID_BYTES (Some STORAGE_ID_RE) = Ok storage ∧
  requireString (JStr class) MAX_ID_BYTES (Some CLASS_NAME_RE) = Ok class ∧
  requireString (JStr h) MAX_ID_BYTES (Some HOST_ID_RE) = Ok h.
Proof.
  unfold hostIdForShard. destruct ((n <? 0) || _) eqn:En; [done|]. rewrite !requireIdentityString_eq.
  intros (s & Hs & (c & Hc & Hh)%rbind_Ok_inv)%rbind_Ok_inv. to_prop.
  pose proof (requireString_Ok _ _ _ _ Hs) as [= <-]. pose proof (requireString_Ok _ _ _ _ Hc) as [= <-].
  pose proof (requireString_Ok _ _ _ _ Hh) as [= E]. subst h. split_and!; done.
Qed.

Lemma format_split storage class n : STORAGE_ID_RE storage = true → CLASS_NAME_RE class = true → 0 <= n →
  split_on colon (formatDoOwnerShardKey storage class n) = [storage; class; js "shard" ++ string_of_nonneg n].
Proof.
  intros Hs Hc Hn. unfold formatDoOwnerShardKey, string_of_Z. rewrite (proj2 (Z.ltb_ge n 0)) by lia.
  change (js ":shard") with (colon :: js "shard"). change (js ":") with [colon]. cbn [app].
  rewrite !split_on_app_sep by auto using storage_no_colon, class_no_colon. rewrite split_on_no_sep; [done|].
  apply (not_elem_of_app (js "shard")). split; [apply (bool_decide_unpack _); vm_compute; exact I | by apply digits_no_colon, string_of_nonneg_digits].
Qed.

Lemma format_key_inj storage class n storage' class' n' :
  STORAGE_ID_RE storage = true → STORAGE_ID_RE storage' = true → CLASS_NAME_RE class = true → CLASS_NAME_RE class' = true →
  0 <= n → 0 <= n' → formatDoOwnerShardKey storage class n = formatDoOwnerShardKey storage' class' n' →
  storage = storage' ∧ class = class' ∧ n = n'.
Proof.
  intros Hs Hs' Hc Hc' Hn Hn' E. apply (f_equal (split_on colon)) in E. rewrite !format_split in E by done.
  injection E as -> -> E. split_and!; try done. by apply string_of_nonneg_inj.
Qed.

(** What [slice] reads after the last shard marker of a host id. *)
Lemma format_shard storage class n : 0 <= n <= MAX_SAFE_INTEGER →
  after_last (js ":shard") (formatDoOwnerShardKey storage class n) = Some (string_of_nonneg n) ∧
  string_to_number (string_of_nonneg n) = NInt n.
Proof.
  intros Hn. pose proof (string_of_nonneg_digits n ltac:(lia)) as Hd. split.
  - unfold formatDoOwnerShardKey, string_of_Z. rewrite (proj2 (Z.ltb_ge n 0)) by lia.
    apply after_last_skip, after_last_skip, after_last_skip.
    apply (after_last_last colon (js "shard")); [|by apply digits_no_colon]. apply (bool_decide_unpack _). vm_compute. exact I.
  - rewrite string_to_number_digits; [|by destruct (string_of_nonneg_cases n) as [[-> _]|[? _]]; [lia|..]; [|intros E; rewrite E in *]|done].
    by rewrite dec_value_string_of_nonneg, to_double_safe by lia.
Qed.

Lemma host_id_for_object storage class name h : hostIdForObject storage class name = Ok h →
  ∃ n, shardForObjectName name = Ok n ∧ hostIdForShard storage class (NInt n) = Ok h.
Proof. unfold hostIdForObject. by intros (n & Hn & H)%rbind_Ok_inv; eauto. Qed.

(** ** Normalised invokes *)

Section normalised.
Context (IntrinsicURL : jstr → option url_parts) (JSON : jsval → option jstr).
Abbreviation normalize := (normalizeDoInvokeRequest IntrinsicURL JSON).

Definition valid_text (max : Z) (re : option (jstr → bool)) (s : jstr) : Prop := requireString (JStr s) max re = Ok s.

Lemma required_text v max re s : requireString v max re = Ok s → v = JStr s ∧ valid_text max re s.
Proof. intros H. pose proof (requireString_Ok _ _ _ _ H) as ->. by split. Qed.

Record source_ok (s : BundleSource) : Prop := {
  so_ns : valid_text MAX_ID_BYTES None (bs_ns s);
  so_ns_valid : isValidRuntimeLoadNs (JStr (bs_ns s)) = true;
  so_worker : valid_text MAX_ID_BYTES (Some WORKER_NAME_RE) (bs_worker s);
  so_version : valid_text MAX_ID_BYTES None (bs_version s);
  so_version_valid : is_Some (parseVersion (JStr (bs_version s)));
  so_storage : valid_text MAX_ID_BYTES (Some STORAGE_ID_RE) (bs_doStorageId s) }.

Record fence_ok (f : OwnerFence) : Prop := {
  fo_key : valid_text MAX_ID_BYTES None (of_ownerKey f);
  fo_task : valid_text MAX_ID_BYTES None (of_taskId f);
  fo_generation : 0 < of_generation f <= MAX_SAFE_INTEGER }.

(** What a value carries is what it carries again through the wire. *)
Definition payload_ok (p : payload) : Prop :=
  match p with
  | Fetch r =>
      rs_bodyBytes r = [] ∧ method_of (JStr (rs_method r)) = Ok (rs_method r) ∧
      valid_text (16 * 1024) None (rs_url r) ∧ is_Some (IntrinsicURL (rs_url r)) ∧
      Z.of_nat (length (rs_headers r)) <= MAX_REQUEST_HEADER_COUNT ∧
      normalize_pairs 0 (map (λ h, Ok (JStr h.1, JStr h.2)) (rs_headers r)) = Ok (rs_headers r)
  | Alarm a => 0 <= ai_retryCount a ∧ ∀ t, ai_token a = Some t → valid_text MAX_ID_BYTES None t
  | Rpc r =>
      valid_text 256 (Some METHOD_NAME_RE) (ri_method r) ∧
      jeqb (ri_method r) (js "fetch") || jeqb (ri_method r) (js "alarm") = false ∧
      json_data (JArr (ri_args r)) = true ∧
      requireJsonSerializedSize JSON (JArr (ri_args r)) MAX_REQUEST_BODY_BYTES = Ok tt
  end.

Record invoke_ok (i : DoInvoke) : Prop := {
  io_source : source_ok (in_source i);
  io_class : valid_text MAX_ID_BYTES (Some CLASS_NAME_RE) (in_className i);
  io_object : valid_text MAX_ID_BYTES None (in_objectName i);
  io_host : hostIdForObject (bs_doStorageId (in_source i)) (in_className i) (in_objectName i) = Ok (in_hostId i);
  io_policy : in_sessionPolicy i = SESSION_POLICY_PRESERVE;
  io_sequence : in_restartSequence i = 0;
  io_owner : ∀ f, in_owner i = Some f → fence_ok f;
  io_payload : payload_ok (in_payload i) }.

Lemma source_normalised input s : normalizeBundleSource input = Ok s → source_ok s.
Proof.
  unfold normalizeBundleSource. intros (ns & [_ Hns]%required_text & H)%rbind_Ok_inv.
  destruct (isValidRuntimeLoadNs _) eqn:En; [|done]. cbn [negb] in H.
  apply rbind_Ok_inv in H as (w & [_ Hw]%required_text & H). apply rbind_Ok_inv in H as (ver & [_ Hv]%required_text & H).
  destruct (parseVersion _) eqn:Ev; [|done]. apply rbind_Ok_inv in H as (st & [_ Hs]%required_text & <-%Ok_inj).
  by split.
Qed.

Lemma fence_normalised v o f : normalizeOwnerFence v = Ok o → o = Some f → fence_ok f.
Proof.
  unfold normalizeOwnerFence. destruct (nullish v); [by intros <-%Ok_inj|].
  intros (input & _ & H)%rbind_Ok_inv Ho. apply rbind_Ok_inv in H as (n & _ & H).
  destruct (safe_integer_of _) as [g|] eqn:Eg; [|done]. destruct (Z.leb_spec g 0); [done|].
  apply rbind_Ok_inv in H as (k & [_ Hk]%required_text & H). apply rbind_Ok_inv in H as (t & [_ Ht]%required_text & H).
  apply Ok_inj in H as <-. injection Ho as <-. split; try done. cbn [of_generation]. split; [done|].
  unfold safe_integer_of in Eg. destruct n; try done. destruct (is_safe_integer z) eqn:Ez; [|done]. injection Eg as <-.
  unfold is_safe_integer in Ez. to_prop. done.
Qed.

Lemma host_normalised v source class name h :
  source_ok source → valid_text MAX_ID_BYTES (Some CLASS_NAME_RE) class →
  normalizeHostId v source class name = Ok h → hostIdForObject (bs_doStorageId source) class name = Ok h.
Proof.
  intros Hs Hc. unfold normalizeHostId. intros (p & Hp & H)%rbind_Ok_inv.
  apply parse_host_id in Hp as (-> & Eid & Hr & Hid). destruct (_ || _) eqn:Eb; [done|].
  apply orb_false_iff in Eb as [E1 E2]. apply negb_false_iff, jeqb_eq in E1, E2.
  apply rbind_Ok_inv in H as (n & Hn & H). destruct (Z.eqb_spec (hi_shard p) n) as [En|]; [|done]. apply Ok_inj in H as <-.
  unfold hostIdForObject. rewrite Hn. cbn [rbind]. unfold hostIdForShard.
  rewrite (proj2 (Z.ltb_ge n 0)), (proj2 (Z.leb_gt DO_HOST_SHARD_COUNT n)) by lia. cbn [orb].
  rewrite !requireIdentityString_eq, (so_storage _ Hs), Hc. cbn [rbind]. by rewrite <- E1, <- E2, <- En, <- Eid.
Qed.

Lemma host_reread source class name h :
  hostIdForObject (bs_doStorageId source) class name = Ok h → normalizeHostId (JStr h) source class name = Ok h.
Proof.
  intros (n & Hn & H)%host_id_for_object. apply host_id_for_shard in H as (-> & Hr & Hs & Hc & Hh).
  apply requireString_pattern in Hs, Hc. unfold DO_HOST_SHARD_COUNT in Hr. unfold normalizeHostId, parseHostId. rewrite Hh. cbn [rbind].
  destruct (format_shard (bs_doStorageId source) class n) as [-> E]; [unfold MAX_SAFE_INTEGER; lia|].
  rewrite format_split by (done || lia). cbn [default]. unfold id. rewrite E.
  rewrite (proj2 (Z.ltb_ge n 0)), (proj2 (Z.leb_gt DO_HOST_SHARD_COUNT n)) by (unfold DO_HOST_SHARD_COUNT; lia). cbn [orb rbind].
  cbn [hi_doStorageId hi_className hi_shard hi_hostId]. rewrite !jeqb_refl, Hn. cbn [negb orb rbind]. by rewrite Z.eqb_refl.
Qed.

Lemma pairs_normalised entries : ∀ total hs, normalize_pairs total entries = Ok hs →
  length hs = length entries ∧ normalize_pairs total (map (λ h, Ok (JStr h.1, JStr h.2)) hs) = Ok hs.
Proof.
  induction entries as [|e entries IH]; intros total hs H; cbn [normalize_pairs] in H; [by apply Ok_inj in H as <-|].
  apply rbind_Ok_inv in H as ([n v] & _ & H). apply rbind_Ok_inv in H as (h & Hh & H). cbn [fst snd] in Hh.
  destruct (_ <? _) eqn:El; [done|]. apply rbind_Ok_inv in H as (hs' & H & <-%Ok_inj).
  destruct (IH _ _ H) as [Hl Hr]. cbn [length map normalize_pairs]. split; [by rewrite Hl|]. cbn [rbind fst snd].
  assert (normalizeHeaderPair (JStr h.1) (JStr h.2) = Ok h) as ->.
  { revert Hh. unfold normalizeHeaderPair. intros (name & [_ Hn]%required_text & H2)%rbind_Ok_inv.
    destruct (HEADER_NAME_RE name) eqn:Ere; [|done]. destruct v; try done. destruct (control_free s) eqn:Ec; [|done].
    apply Ok_inj in H2 as <-. cbn [fst snd]. rewrite Hn. cbn [rbind]. by rewrite Ere, Ec. }
  cbn [rbind]. by rewrite El, Hr.
Qed.

Lemma headers_normalised v hs : normalizeHeaders v = Ok hs →
  Z.of_nat (length hs) <= MAX_REQUEST_HEADER_COUNT ∧
  normalize_pairs 0 (map (λ h, Ok (JStr h.1, JStr h.2)) hs) = Ok hs.
Proof.
  assert (∀ X (f : X → result jserr (jsval * jsval)) l, (if MAX_REQUEST_HEADER_COUNT <? Z.of_nat (length l) then Err invalid_request
      else normalize_pairs 0 (map f l)) = Ok hs → Z.of_nat (length hs) <= MAX_REQUEST_HEADER_COUNT ∧
      normalize_pairs 0 (map (λ h, Ok (JStr h.1, JStr h.2)) hs) = Ok hs) as Hl.
  { intros X f l. destruct (Z.ltb_spec MAX_REQUEST_HEADER_COUNT (Z.of_nat (length l))); [done|].
    intros [El Hr]%pairs_normalised. rewrite length_map in El. split; [lia|done]. }
  unfold normalizeHeaders. destruct v; try (by intros <-%Ok_inj); try done; [by apply Hl|]. cbn [requireRecord rbind]. apply Hl.
Qed.

Lemma upper_text m : forallb is_upper m = true → to_upper m = m.
Proof.
  intros H%forallb_Forall. unfold to_upper. induction H as [|c m Hc _ IH]; [done|]. cbn [flat_map]. rewrite IH.
  unfold upper_unit, is_upper, is_lower in *. to_prop.
  repeat (rewrite (proj2 (Z.eqb_neq c _)) by lia). by rewrite (proj2 (Z.leb_gt 97 c)) by lia.
Qed.

Lemma method_normalised v m : method_of v = Ok m → method_of (JStr m) = Ok m.
Proof.
  unfold method_of. destruct (string_throws _); [done|]. destruct (to_upper <$> _) as [[|c r]|]; [done| |done].
  destruct (forallb is_upper (c :: r)) eqn:E; [|done]. intros <-%Ok_inj. cbn [truthy string_throws letters_text fmap option_fmap option_map].
  by rewrite upper_text, E.
Qed.

Lemma request_normalised v r : normalizeRequestSpec IntrinsicURL v = Ok r → payload_ok (Fetch r).
Proof.
  unfold normalizeRequestSpec. intros (input & _ & H)%rbind_Ok_inv. apply rbind_Ok_inv in H as (m & Hm%method_normalised & H).
  apply rbind_Ok_inv in H as (url & Hu & H). destruct (IntrinsicURL url) eqn:Eu; [|done]. destruct (existsb _ _); [done|].
  apply rbind_Ok_inv in H as (hs & [Hc Hp]%headers_normalised & <-%Ok_inj). split_and!; try done.
  destruct (nullish _); [by apply Ok_inj in Hu as <-|]. by apply required_text in Hu as [_ ?].
Qed.

Lemma alarm_normalised v a : normalizeAlarmInfo v = Ok a → payload_ok (Alarm a).
Proof.
  unfold normalizeAlarmInfo. intros (input & _ & H)%rbind_Ok_inv. cbv zeta in H. destruct (if nullish _ then _ else _); try done.
  destruct n as [n| | |]; try done. destruct (Z.ltb_spec n 0); [done|]. apply rbind_Ok_inv in H as (t & Ht & <-%Ok_inj).
  split; [done|]. cbn [ai_token]. intros t' ->. destruct (nullish _); [done|].
  by apply rbind_Ok_inv in Ht as (t & [_ Ht]%required_text & [= <-]%Ok_inj).
Qed.

Lemma rpc_normalised v r : normalizeRpcInfo JSON v = Ok r → payload_ok (Rpc r).
Proof.
  unfold normalizeRpcInfo. intros (input & _ & H)%rbind_Ok_inv. apply rbind_Ok_inv in H as (m & [_ Hm]%required_text & H).
  destruct (_ || _) eqn:Ek; [done|]. destruct (obj_get _ _); try done. destruct (json_data _) eqn:Ed; [|done]. cbn [negb] in H.
  by apply rbind_Ok_inv in H as ([] & Hs & <-%Ok_inj).
Qed.

Lemma invoke_normalised v i : normalize v = Ok i → invoke_ok i.
Proof.
  unfold normalizeDoInvokeRequest. intros (input & _ & H)%rbind_Ok_inv. destruct (negb _); [done|].
  apply rbind_Ok_inv in H as (s & Hs%source_normalised & H). apply rbind_Ok_inv in H as (k & _ & H).
  apply rbind_Ok_inv in H as (c & [_ Hc]%required_text & H). apply rbind_Ok_inv in H as (n & [_ Hn]%required_text & H).
  apply rbind_Ok_inv in H as (h & Hh & H). apply rbind_Ok_inv in H as (o & Ho & H).
  apply rbind_Ok_inv in H as (p & Hp & <-%Ok_inj). split; try done; cbn [in_source in_className in_objectName in_hostId in_owner in_payload].
  - destruct (nullish _); [done|]. by eapply host_normalised.
  - intros f. by eapply fence_normalised.
  - destruct k; apply rbind_Ok_inv in Hp as (x & Hx & <-%Ok_inj);
      [by eapply request_normalised|by eapply alarm_normalised|by eapply rpc_normalised].
Qed.

(** *** Forwarding *)

Definition with_body (body : list Z) (p : payload) : payload :=
  match p with Fetch r => Fetch (MkRequest (rs_method r) (rs_url r) (rs_headers r) body) | _ => p end.

(** The invoke as [forwardToOwner] encodes it: with the fence of the owner, the body of the
    request and whatever policy the resolution attached. *)
Definition forwarded (policy : jstr) (sequence : Z) (f : OwnerFence) (body : list Z) (i : DoInvoke) : DoInvoke :=
  MkInvoke (in_source i) (in_hostId i) (in_className i) (in_objectName i) (Some f) policy sequence
    (with_body body (in_payload i)).

(** What the wire carries of a payload is JSON. *)
Definition payload_plain (p : payload) : Prop :=
  match p with Rpc r => json_view (JArr (ri_args r)) = JArr (ri_args r) | _ => True end.

Lemma source_reread fs s : source_ok s →
  obj_get (js "ns") fs = JStr (bs_ns s) → obj_get (js "worker") fs = JStr (bs_worker s) →
  obj_get (js "version") fs = JStr (bs_version s) → obj_get (js "doStorageId") fs = JStr (bs_doStorageId s) →
  normalizeBundleSource fs = Ok s.
Proof.
  intros [Hn Hnv Hw Hv [z Hvv] Hs] En Ew Ev Es. unfold normalizeBundleSource. rewrite En, Ew, Ev, Es, Hn. cbn [rbind].
  rewrite Hnv. cbn [negb]. rewrite Hw. cbn [rbind]. rewrite Hv. cbn [rbind]. rewrite Hvv, Hs. cbn [rbind]. by destruct s.
Qed.

Lemma fence_reread f : fence_ok f → normalizeOwnerFence (json_view (fence_json f)) = Ok (Some f).
Proof.
  intros [Hk Ht Hg]. unfold fence_json, normalizeOwnerFence. change (json_view (JObj ?l)) with (JObj (view_fields l)).
  cbn [nullish requireRecord rbind]. rewrite !view_get.
  match goal with |- context [obj_get (js "generation") ?l] => set (fs := l) end.
  assert (obj_get (js "generation") fs = JNum (NInt (of_generation f))) as -> by reflexivity.
  assert (obj_get (js "ownerKey") fs = JStr (of_ownerKey f)) as -> by reflexivity.
  assert (obj_get (js "taskId") fs = JStr (of_taskId f)) as -> by reflexivity.
  cbn [json_view]. unfold ToNumber. cbn [string_throws Number_of rbind safe_integer_of]. unfold is_safe_integer.
  rewrite (proj2 (Z.leb_le _ _)), (proj2 (Z.leb_le _ _)) by lia. cbn [andb]. rewrite (proj2 (Z.leb_gt _ _)) by lia.
  rewrite Hk. cbn [rbind]. rewrite Ht. cbn [rbind]. by destruct f.
Qed.

Lemma headers_view hs : json_view (JArr (map (λ h : jstr * jstr, JArr [JStr h.1; JStr h.2]) hs)) = JArr (map (λ h : jstr * jstr, JArr [JStr h.1; JStr h.2]) hs).
Proof. cbn [json_view]. f_equal. rewrite map_map. done. Qed.

Lemma request_reread r body : payload_ok (Fetch r) →
  normalizeRequestSpec IntrinsicURL (json_view (request_json (MkRequest (rs_method r) (rs_url r) (rs_headers r) body))) = Ok r.
Proof.
  intros (Hb & Hm & Hu & [p Hp] & Hl & Hh). unfold request_json, normalizeRequestSpec, optional_record.
  change (json_view (JObj ?l)) with (JObj (view_fields l)). cbn [nullish requireRecord rbind existsb]. rewrite !view_get.
  cbn [rs_method rs_url rs_headers]. match goal with |- context [obj_get (js "method") ?l] => set (fs := l) end.
  assert (obj_get (js "method") fs = JStr (rs_method r)) as -> by reflexivity.
  assert (obj_get (js "url") fs = JStr (rs_url r)) as -> by reflexivity.
  assert (obj_get (js "bodyText") fs = JUndef) as -> by reflexivity.
  assert (obj_get (js "bodyBase64") fs = JUndef) as -> by reflexivity.
  assert (obj_get (js "bodyBytes") fs = JUndef) as -> by reflexivity.
  assert (obj_get (js "headers") fs = JArr (map (λ h : jstr * jstr, JArr [JStr h.1; JStr h.2]) (rs_headers r))) as -> by reflexivity.
  rewrite headers_view. cbn [json_view nullish negb orb normalizeHeaders]. rewrite Hm. cbn [rbind]. rewrite Hu. cbn [rbind].
  rewrite Hp, length_map, (proj2 (Z.ltb_ge _ _)), map_map by done. change (λ x, header_entry _) with (λ h : jstr * jstr, Ok (E := jserr) (JStr h.1, JStr h.2)).
  rewrite Hh. cbn [rbind]. destruct r. cbn in Hb. by subst.
Qed.

Lemma alarm_reread a : payload_ok (Alarm a) → normalizeAlarmInfo (json_view (alarm_json a)) = Ok a.
Proof.
  intros [Hr Ht]. unfold alarm_json, normalizeAlarmInfo, optional_record. change (json_view (JObj ?l)) with (JObj (view_fields l)).
  cbn [nullish requireRecord rbind]. rewrite !view_get. match goal with |- context [obj_get (js "token") ?l] => set (fs := l) end.
  assert (obj_get (js "retryCount") fs = JNum (NInt (ai_retryCount a))) as -> by reflexivity.
  assert (obj_get (js "isRetry") fs = JBool (ai_isRetry a)) as -> by reflexivity.
  assert (obj_get (js "token") fs = match ai_token a with Some t => JStr t | None => JUndef end) as ->.
  { subst fs. by destruct (ai_token a). }
  cbn [json_view nullish]. rewrite (proj2 (Z.ltb_ge _ _)) by done. destruct a as [n b [t|]]; cbn [ai_token json_view nullish ai_isRetry ai_retryCount] in *.
  - rewrite (Ht t eq_refl). cbn [rbind]. by destruct b.
  - cbn [rbind]. by destruct b.
Qed.

Lemma rpc_reread r : payload_ok (Rpc r) → payload_plain (Rpc r) → normalizeRpcInfo JSON (json_view (rpc_json r)) = Ok r.
Proof.
  intros (Hm & Hk & Hd & Hs) Hv. unfold rpc_json, normalizeRpcInfo. change (json_view (JObj ?l)) with (JObj (view_fields l)).
  cbn [requireRecord rbind]. rewrite !view_get. match goal with |- context [obj_get (js "args") ?l] => set (fs := l) end.
  assert (obj_get (js "method") fs = JStr (ri_method r)) as -> by reflexivity.
  assert (obj_get (js "args") fs = JArr (ri_args r)) as -> by reflexivity.
  change (json_view (JStr (ri_method r))) with (JStr (ri_method r)). rewrite Hm. cbn [rbind]. rewrite Hk.
  unfold payload_plain in Hv. rewrite Hv, Hd. cbn [negb]. rewrite Hs. cbn [rbind]. by destruct r.
Qed.

Lemma invoke_reread policy sequence f body i : invoke_ok i → fence_ok f → payload_plain (in_payload i) →
  normalize (json_view (invoke_json (forwarded policy sequence f body i))) = Ok (forwarded SESSION_POLICY_PRESERVE 0 f [] i).
Proof.
  intros [Hs Hc Hn Hh _ _ _ Hp] Hf Hv. unfold invoke_json, normalizeDoInvokeRequest.
  change (json_view (JObj ?l)) with (JObj (view_fields l)). cbn [requireRecord rbind]. rewrite !view_get.
  cbn [forwarded in_source in_hostId in_className in_objectName in_owner in_payload app].
  match goal with |- context [obj_get (js "kind") ?l] => set (fs := l) end.
  assert (obj_get (js "workerCode") fs = JUndef) as -> by (subst fs; by destruct (in_payload i)).
  rewrite (source_reread (view_fields fs) (in_source i) Hs) by (rewrite view_get; reflexivity).
  cbn [json_view nullish negb rbind].
  assert (obj_get (js "kind") fs = JStr (kind_name (in_payload i))) as -> by (by destruct (in_payload i)).
  assert (obj_get (js "className") fs = JStr (in_className i)) as -> by reflexivity.
  assert (obj_get (js "objectName") fs = JStr (in_objectName i)) as -> by reflexivity.
  assert (obj_get (js "hostId") fs = JStr (in_hostId i)) as -> by reflexivity.
  assert (obj_get (js "owner") fs = fence_json f) as -> by reflexivity.
  cbn [json_view nullish].
  pose proof (host_reread _ _ _ _ Hh) as Ehost.
  rewrite fence_reread by done.
  destruct i as [s h c n o pol seq [r|a|r]]; cbn [in_source in_hostId in_className in_objectName in_owner in_payload kind_name with_body] in *.
  - assert (obj_get (js "request") fs = request_json (MkRequest (rs_method r) (rs_url r) (rs_headers r) body)) as -> by reflexivity.
    change (normalizeInvokeKind (JStr (js "fetch"))) with (Ok (E := jserr) KFetch). cbn [rbind]. rewrite Hc. cbn [rbind]. rewrite Hn. cbn [rbind].
    rewrite Ehost. cbn [rbind]. rewrite request_reread by done. cbn [rbind]. destruct r. by destruct Hp as [<- _].
  - assert (obj_get (js "alarm") fs = alarm_json a) as -> by reflexivity.
    change (normalizeInvokeKind (JStr (js "alarm"))) with (Ok (E := jserr) KAlarm). cbn [rbind]. rewrite Hc. cbn [rbind]. rewrite Hn. cbn [rbind].
    rewrite Ehost. cbn [rbind]. by rewrite alarm_reread.
  - assert (obj_get (js "rpc") fs = rpc_json r) as -> by reflexivity.
    change (normalizeInvokeKind (JStr (js "rpc"))) with (Ok (E := jserr) KRpc). cbn [rbind]. rewrite Hc. cbn [rbind]. rewrite Hn. cbn [rbind].
    rewrite Ehost. cbn [rbind]. by rewrite rpc_reread.
Qed.
End normalised.

(** *** The envelope *)

Lemma uint32_roundtrip n r : 0 <= n < 2 ^ 32 → get_uint32_be (uint32_be n ++ r) = n.
Proof.
  intros Hn. unfold get_uint32_be, uint32_be. cbn [app take fold_left]. rewrite Z.mul_0_l, Z.add_0_l.
  change (2 ^ 24) with (256 * (256 * 256)). change (2 ^ 16) with (256 * 256). change (2 ^ 8) with 256.
  change (2 ^ 32) with (256 * (256 * (256 * 256))) in Hn.
  rewrite <- !Z.div_div by lia. pose proof (Z.div_mod n 256 ltac:(lia)). pose proof (Z.div_mod (n / 256) 256 ltac:(lia)).
  pose proof (Z.div_mod (n / 256 / 256) 256 ltac:(lia)).
  assert ((n / 256 / 256 / 256) mod 256 = n / 256 / 256 / 256) as ->; [|change (take 0 r) with (@nil Z); cbn [fold_left]; lia].
  apply Z.mod_small. split; [repeat apply Z.div_pos; lia|]. repeat (apply Z.div_lt_upper_bound; [lia|]). lia.
Qed.

Lemma envelope_roundtrip JSON `{!JsonPrinter JSON} metadata body max bytes :
  encodeInvokeEnvelope JSON metadata body (Some max) = Ok bytes → max <= MAX_INVOKE_ENVELOPE_BYTES →
  json_view metadata ≠ JUndef →
  Z.of_nat (length bytes) <= max ∧ decodeInvokeEnvelope bytes = Ok (json_view metadata, body).
Proof.
  unfold encodeInvokeEnvelope, MAX_INVOKE_ENVELOPE_BYTES. intros H Hm Hu. destruct (JSON metadata) as [text|] eqn:Ej; [|done].
  pose proof (printer_reads_back _ _ Ej) as Hp. pose proof (printer_well_formed _ _ Ej) as Hw.
  cbn [from_option] in H. destruct (Z.ltb_spec max (4 + Z.of_nat (length (utf8_encode text)) + Z.of_nat (length body))); [done|].
  apply Ok_inj in H as <-. set (m := utf8_encode text) in *. set (n := Z.of_nat (length m)).
  assert (m ≠ []) as Hne by (intros E; rewrite E in Hw; by rewrite <- Hw in Hp).
  assert (0 < n) by (destruct m; [done|]; subst n; cbn [length]; lia).
  assert (length (uint32_be n ++ m ++ body) = (4 + (length m + length body))%nat) as El by (by rewrite !length_app).
  split; [rewrite El; lia|]. unfold decodeInvokeEnvelope. rewrite El. cbn [Nat.ltb Nat.leb Nat.add].
  rewrite uint32_roundtrip by lia. rewrite (proj2 (Z.eqb_neq n 0)), (proj2 (Z.ltb_ge _ _)) by lia. cbn [orb].
  change (drop 4 (uint32_be n ++ m ++ body)) with (m ++ body). replace (Z.to_nat n) with (length m) by lia.
  rewrite take_app_length. fold m. rewrite Hw, Hp. do 2 f_equal.
  change (drop (S (S (S (S (length m))))) (uint32_be n ++ m ++ body)) with (drop (length m) (m ++ body)). apply drop_app_length.
Qed.

(** The arguments of a call are JSON when the invoke is. *)
Lemma payload_normalised_plain IntrinsicURL JSON v i : json_view v = v →
  normalizeDoInvokeRequest IntrinsicURL JSON v = Ok i → payload_plain (in_payload i).
Proof.
  intros Hv. unfold normalizeDoInvokeRequest. intros (input & Hin & H)%rbind_Ok_inv. destruct v; try done. apply Ok_inj in Hin as ->.
  assert (∀ k fs, json_view (JObj fs) = JObj fs → json_view (obj_get k fs) = obj_get k fs) as Hget.
  { intros k fs [= E]. rewrite <- view_get. unfold view_fields. by rewrite E. }
  destruct (negb _); [done|].
  apply rbind_Ok_inv in H as (s & _ & H). apply rbind_Ok_inv in H as (k & _ & H). apply rbind_Ok_inv in H as (c & _ & H).
  apply rbind_Ok_inv in H as (n & _ & H). apply rbind_Ok_inv in H as (h & _ & H). apply rbind_Ok_inv in H as (o & _ & H).
  apply rbind_Ok_inv in H as (p & Hp & <-%Ok_inj). cbn [in_payload]. destruct k; apply rbind_Ok_inv in Hp as (x & Hx & <-%Ok_inj); try done.
  pose proof (Hget (js "rpc") _ Hv) as Hr. revert Hx Hr. unfold normalizeRpcInfo. intros (r & Hr & H)%rbind_Ok_inv Hv'.
  destruct (obj_get (js "rpc") input); try done. apply Ok_inj in Hr as ->.
  apply rbind_Ok_inv in H as (m & _ & H). destruct (_ || _); [done|]. pose proof (Hget (js "args") _ Hv') as Ha.
  destruct (obj_get (js "args") r); try done. destruct (negb _); [done|]. by apply rbind_Ok_inv in H as (? & _ & <-%Ok_inj).
Qed.

(** C17. An invoke names its host. Two invokes that the protocol accepts share an owner key only
    if they are for the same storage, the same class and the same shard, whether or not they
    brought a host id of their own, so an invoke cannot reach the host of another tenant's
    storage; and a host id that is brought is the one the object has. *)
Theorem invoke_hosts_separate (IntrinsicURL : jstr → option url_parts) (JSON : jsval → option jstr) (v v' : jsval) (i i' : DoInvoke)
    (Hi : normalizeDoInvokeRequest IntrinsicURL JSON v = Ok i) (Hi' : normalizeDoInvokeRequest IntrinsicURL JSON v' = Ok i')
    (He : buildOwnerKey (in_hostId i) = buildOwnerKey (in_hostId i')) :
  hostIdForObject (bs_doStorageId (in_source i)) (in_className i) (in_objectName i) = Ok (in_hostId i) ∧
  bs_doStorageId (in_source i) = bs_doStorageId (in_source i') ∧ in_className i = in_className i' ∧
  shardForObjectName (in_objectName i) = shardForObjectName (in_objectName i').
Proof.
  apply invoke_normalised, io_host in Hi, Hi'. split; [done|].
  apply host_id_for_object in Hi as (n & Hn & H), Hi' as (n' & Hn' & H').
  apply host_id_for_shard in H as (E & Hr & Hs & Hc & _), H' as (E' & Hr' & Hs' & Hc' & _).
  apply requireString_pattern in Hs, Hc, Hs', Hc'. unfold buildOwnerKey in He. rewrite E, E' in He.
  apply format_key_inj in He as (-> & -> & ->); try done; [|lia..]. by rewrite Hn, Hn'.
Qed.

(** C18. A forwarded invoke arrives as it was sent: the envelope one task encodes for the owner
    is decoded and normalised by the owner to the same source, object, kind, arguments, headers,
    body and fence. Only the session policy is not carried; the owner starts from "preserve"
    and reads it again. *)
Theorem forwarded_invoke_roundtrip (IntrinsicURL : jstr → option url_parts) (JSON : jsval → option jstr) (v : jsval) (i : DoInvoke)
    (f : OwnerFence) (policy : jstr) (sequence : Z) (body bytes : list Z) (header : jstr → option jstr)
    (HJ : JsonPrinter JSON) (Hv : json_view v = v) (Hi : normalizeDoInvokeRequest IntrinsicURL JSON v = Ok i) (Hf : fence_ok f)
    (He : encodeDoInvokeRequest JSON (forwarded policy sequence f body i) = Ok bytes)
    (Hc : header (js "content-type") = Some DO_INVOKE_CONTENT_TYPE)
    (Hh : Forall (λ name, header name = None) [js "x-wdl-do-owner-key"; js "x-wdl-do-owner-task-id"; js "x-wdl-do-owner-generation"]) :
  readDoInvokeRequest IntrinsicURL JSON (MkHttp header bytes) = Ok (forwarded SESSION_POLICY_PRESERVE 0 f body i).
Proof.
  pose proof (payload_normalised_plain _ _ _ _ Hv Hi) as Hp.
  apply invoke_normalised in Hi as Hok. unfold encodeDoInvokeRequest, invokeWithoutBodyBytes in He.
  apply envelope_roundtrip in He as [Hl Hd]; [|done..]. unfold readDoInvokeRequest, header_get. cbn [rq_header]. rewrite Hc.
  change (jeqb (contentTypeEssence (JStr DO_INVOKE_CONTENT_TYPE)) DO_INVOKE_CONTENT_TYPE) with true. cbn [negb].
  unfold readBoundedBytes. cbn [rq_body]. rewrite (proj2 (Z.ltb_ge _ _)) by done. cbn [rbind]. rewrite Hd. cbn [rbind fst snd].
  unfold invokeWithEnvelopeBody. rewrite invoke_reread by done. cbn [rbind].
  assert (ownerFenceFromHeaders (MkHttp header bytes) = Ok None) as ->.
  { apply Forall_cons in Hh as [H1 Hh]. apply Forall_cons in Hh as [H2 Hh]. apply Forall_cons in Hh as [H3 _].
    unfold ownerFenceFromHeaders, header_get. cbn [rq_header]. by rewrite H1, H2, H3. }
  unfold forwarded. cbn [in_payload]. destruct (in_payload i) as [r|a|r]; cbn [with_body rs_bodyBytes]; [destruct body|..]; done.
Qed.

(** ** An invoke with and without its host id *)

Definition demo_invoke (extra : fields) : jsval :=
  JObj ([(js "ns", JStr (js "acme")); (js "worker", JStr (js "chat")); (js "version", JStr (js "v3"));
         (js "doStorageId", JStr (js "st-1")); (js "className", JStr (js "Room")); (js "objectName", JStr (js "lobby"))] ++ extra).

Definition demo_rpc : fields :=
  [(js "kind", JStr (js "rpc")); (js "rpc", JObj [(js "method", JStr (js "join")); (js "args", JArr [JStr (js "ann"); JNum (NInt 7)])])].

Definition demo_host : jstr := js "st-1:Room:shard3".

Definition demo_source : BundleSource := MkSource (js "acme") (js "chat") (js "v3") (js "st-1").

Definition demo_normalised (p : payload) : DoInvoke :=
  MkInvoke demo_source demo_host (js "Room") (js "lobby") None SESSION_POLICY_PRESERVE 0 p.

Definition demo_call : DoInvoke := demo_normalised (Rpc (MkRpc (js "join") [JStr (js "ann"); JNum (NInt 7)])).

Lemma demo_call_ok : normalizeDoInvokeRequest (λ _, None) checked_stringify (demo_invoke demo_rpc) = Ok demo_call.
Proof. vm_compute. reflexivity. Defined.

Lemma invoke_hosts_separate_witness :
  shardForObjectName (js "lobby") = shardForObjectName (in_objectName demo_call).
Proof.
  assert (normalizeDoInvokeRequest (λ _, None) checked_stringify
    (demo_invoke [(js "hostId", JStr demo_host); (js "kind", JStr (js "alarm"))]) = Ok (demo_normalised (Alarm (MkAlarm 0 false None)))) as H
    by (vm_compute; reflexivity).
  exact (proj2 (proj2 (proj2 (invoke_hosts_separate _ _ _ _ _ _ H demo_call_ok eq_refl)))).
Defined.

Definition demo_fence : OwnerFence := MkOwnerFence demo_host (js "task-a") 4.

Definition demo_header (name : jstr) : option jstr :=
  if jeqb name (js "content-type") then Some DO_INVOKE_CONTENT_TYPE else None.

Lemma forwarded_invoke_roundtrip_witness :
  ∃ bytes, readDoInvokeRequest (λ _, None) checked_stringify (MkHttp demo_header bytes)
           = Ok (forwarded SESSION_POLICY_PRESERVE 0 demo_fence [] demo_call).
Proof.
  assert (is_ok (encodeDoInvokeRequest checked_stringify (forwarded SESSION_POLICY_RESTART 9 demo_fence [] demo_call)) = true) as H
    by (vm_compute; reflexivity).
  destruct (encodeDoInvokeRequest checked_stringify (forwarded SESSION_POLICY_RESTART 9 demo_fence [] demo_call)) as [bytes|] eqn:E; [|discriminate H].
  exists bytes. refine (forwarded_invoke_roundtrip _ _ (demo_invoke demo_rpc) demo_call demo_fence SESSION_POLICY_RESTART 9 [] bytes demo_header
    _ _ demo_call_ok _ E _ _).
  - vm_compute. reflexivity.
  - split; [vm_compute; reflexivity..|]. unfold MAX_SAFE_INTEGER. cbn. lia.
  - reflexivity.
  - repeat constructor.
Defined.
