(* ===== verification/DoOwner.v ===== *)
(** * Ownership of Durable Object hosts

    Models src/do-runtime/owner-registry.js with the process state of src/do-runtime/state.js,
    the local fast path of src/do-runtime/index.js and the fence an actor checks before it
    runs tenant code (src/do-runtime/actor.js). Logs and metrics are left out. A handler that
    attaches the session policy to its invoke returns the invoke.

    As the control plane writes it, the storage pointer of a worker names the storage its
    objects live in; a whole-worker delete holds the delete lock and then drops the pointer. *)

From stdpp Require Import base list strings gmap.
From Stdlib Require Import ZArith Lia.
From S2P Require Import Prelude JsMap NsPattern WorkerContract SessionPolicy Utf8 Json JsNumber OwnerLease Redis OwnerProtocol DoProtocol.

#[local] Open Scope Z_scope.
#[local] Open Scope wdl_scope.

(** ** Records *)

Record LocalTask := MkTask { lt_taskId : jstr; lt_endpoint : jstr }.

Record DoOwner := MkDoOwner {
  do_ownerKey : jstr; do_hostId : jstr; do_className : jstr; do_ns : jstr; do_worker : jstr; do_doStorageId : jstr;
  do_taskId : jstr; do_endpoint : jstr; do_generation : Z; do_leaseExpiresAt : jsval }.

Record InvokeScope := MkScope { sc_hostId : jstr; sc_className : jstr; sc_ns : jstr; sc_worker : jstr; sc_doStorageId : jstr }.

Definition owner_fence (o : DoOwner) : fence := (do_taskId o, do_generation o).

Definition owner_json (o : DoOwner) : jsval :=
  JObj [(js "ownerKey", JStr (do_ownerKey o)); (js "hostId", JStr (do_hostId o)); (js "className", JStr (do_className o));
        (js "ns", JStr (do_ns o)); (js "worker", JStr (do_worker o)); (js "doStorageId", JStr (do_doStorageId o));
        (js "taskId", JStr (do_taskId o)); (js "endpoint", JStr (do_endpoint o));
        (js "generation", JNum (NInt (do_generation o))); (js "leaseExpiresAt", do_leaseExpiresAt o)].

(** The bytes stored for a record: [JSON.stringify(owner)] sent as UTF-8. *)
Definition owner_bytes (o : DoOwner) : bytes := utf8_encode (default [] (stringify (owner_json o))).

(** ** Configuration *)

Definition DEFAULT_OWNER_TTL_SECONDS : Z := 120.
Definition DEFAULT_RENEW_CONCURRENCY : Z := 8.
Definition MAX_RENEW_CONCURRENCY : Z := 64.
Definition DEFAULT_OWNER_LEASE_GUARD_MS : Z := 1000.
Definition OWNER_CLAIM_RETRIES : nat := 3.
Definition DO_OWNER_PORT : Z := 8788.
Definition DO_OWNER_SCOPE_PREFIX : jstr := js "do:owner:scope:".

Definition ownerTtlSeconds (env : fields) : Z :=
  ownerTtlSecondsEnv env (js "DO_OWNER_TTL_SECONDS") DEFAULT_OWNER_TTL_SECONDS.

Definition ownerLeaseGuardMs (env : fields) : Z :=
  let raw := Number_of (envValueOr (obj_get (js "DO_OWNER_LEASE_GUARD_MS") env) (JNum (NInt DEFAULT_OWNER_LEASE_GUARD_MS))) in
  if num_is_finite raw && num_leb (NInt 0) raw
  then match num_trunc raw with NInt n => n | _ => DEFAULT_OWNER_LEASE_GUARD_MS end
  else DEFAULT_OWNER_LEASE_GUARD_MS.

Definition renewConcurrency (env : fields) : Z :=
  boundedPositiveIntEnv env (js "DO_RENEW_CONCURRENCY") DEFAULT_RENEW_CONCURRENCY MAX_RENEW_CONCURRENCY.

Definition ownerKeyOf (K : jstr) : jstr := ownerKey (ownerProtocolKeys DO_OWNER_SCOPE_PREFIX K).
Definition ownerGenerationKeyOf (K : jstr) : jstr := generationKey (ownerProtocolKeys DO_OWNER_SCOPE_PREFIX K).

(** ** Process state (src/do-runtime/state.js) *)

Record local := Local { ownedScopes : jmap jstr DoOwner; draining : bool; inFlightRequests : Z }.

Definition initial_local : local := Local [] false 0.

Definition setDraining (value : bool) (l : local) : local := Local (ownedScopes l) value (inFlightRequests l).

(** Whether the dispatch was admitted, and the state after. *)
Definition beginInFlightDispatch (l : local) : bool * local :=
  if draining l then (false, l) else (true, Local (ownedScopes l) (draining l) (inFlightRequests l + 1)).

Definition endInFlightDispatch (l : local) : local :=
  Local (ownedScopes l) (draining l) (if 0 <? inFlightRequests l then inFlightRequests l - 1 else inFlightRequests l).

Definition rememberOwner (owner : DoOwner) (l : local) : local :=
  Local (jm_set (do_ownerKey owner) owner (ownedScopes l)) (draining l) (inFlightRequests l).

Definition forgetOwnedScope (ownerKey : jstr) (l : local) : local :=
  Local (jm_delete ownerKey (ownedScopes l)) (draining l) (inFlightRequests l).

(** ** Scopes and parsing *)

Definition isValidBundleScope (ns worker : jstr) : bool := isValidRuntimeLoadNs (JStr ns) && WORKER_NAME_RE worker.

Definition isValidStorageScope (ns worker doStorageId : jstr) : bool :=
  isValidBundleScope ns worker && negb (jeqb doStorageId []).

Definition requireInvokeScope (invoke : DoInvoke) : result jserr InvokeScope :=
  let s := in_source invoke in
  if jeqb (in_hostId invoke) [] || negb (isValidBundleScope (bs_ns s) (bs_worker s)) || jeqb (bs_doStorageId s) []
  then Err (DoRuntimeError 400 "invalid_request")
  else Ok (MkScope (in_hostId invoke) (in_className invoke) (bs_ns s) (bs_worker s) (bs_doStorageId s)).

(** The scope fields of a record, when they belong to [expectedOwnerKey] and, if it is given,
    to the bundle [expectedBundleScope]: class name, namespace, worker and storage. *)
Definition ownerMatchesScope (record : fields) (expectedOwnerKey : jstr) (expectedBundleScope : option (jstr * jstr))
    : option (jstr * jstr * jstr * jstr) :=
  match obj_get (js "ownerKey") record, obj_get (js "hostId") record, obj_get (js "className") record,
        obj_get (js "ns") record, obj_get (js "worker") record, obj_get (js "doStorageId") record with
  | JStr key, JStr host, JStr ((_ :: _) as class), JStr ns, JStr worker, JStr ((_ :: _) as storage) =>
      if negb (jeqb key expectedOwnerKey) || negb (jeqb host expectedOwnerKey) || negb (isValidBundleScope ns worker) then None
      else if match expectedBundleScope with
              | Some (ns', worker') => negb (isValidBundleScope ns' worker') || negb (jeqb ns ns') || negb (jeqb worker worker')
              | None => false
              end then None
      else match after_last (js ":shard") expectedOwnerKey with
           | None => None
           | Some text =>
               match hostIdForShard storage class (string_to_number text) with
               | Ok id => if jeqb id expectedOwnerKey then Some (class, ns, worker, storage) else None
               | Err _ => None
               end
           end
  | _, _, _, _, _, _ => None
  end.

Section registry.
Variable env : fields.
Variable IntrinsicURL : jstr → option url_parts.
Variable localTask : LocalTask.

Definition validEndpoint (endpoint : jsval) : bool :=
  validOwnerEndpointForService IntrinsicURL endpoint DO_OWNER_PORT DoRuntime.

Definition parseOwner (raw : jsval) (expectedOwnerKey : jstr) (expectedBundleScope : option (jstr * jstr))
    : result jserr (option DoOwner) :=
  match raw with
  | JNull | JUndef => Ok None
  | _ =>
      let invalid := Err (DoRuntimeError 503 "owner_unavailable") in
      match parseOwnerRecord raw with
      | None => invalid
      | Some record =>
          match ownerMatchesScope record expectedOwnerKey expectedBundleScope, obj_get (js "taskId") record,
                obj_get (js "endpoint") record, safe_integer_of (obj_get (js "generation") record) with
          | Some (class, ns, worker, storage), JStr ((_ :: _) as task), JStr ep, Some gen =>
              if validEndpoint (JStr ep)
              then Ok (Some (MkDoOwner expectedOwnerKey expectedOwnerKey class ns worker storage task ep gen
                               (obj_get (js "leaseExpiresAt") record)))
              else invalid
          | _, _, _, _ => invalid
          end
      end
  end.

(** Attaches the active session policy and refuses a version a restart has superseded. *)
Definition applySessionPolicyFence (policyText : jsval) (invoke : DoInvoke) (allowSupersededVersion : bool) : result jserr DoInvoke :=
  match parseSessionPolicyProjection policyText with
  | Err _ => Err (DoRuntimeError 503 "session_policy_state_invalid")
  | Ok policy =>
      let mode := from_option sp_mode SESSION_POLICY_PRESERVE policy in
      let invoke := MkInvoke (in_source invoke) (in_hostId invoke) (in_className invoke) (in_objectName invoke) (in_owner invoke)
                      mode (from_option sp_restartSequence 0 policy) (in_payload invoke) in
      match policy with
      | Some p =>
          if negb allowSupersededVersion && jeqb (sp_mode p) SESSION_POLICY_RESTART && negb (jeqb (sp_version p) (bs_version (in_source invoke)))
          then Err (DoRuntimeError 503 "session_policy_version_stale") else Ok invoke
      | None => Ok invoke
      end
  end.

Definition ownerRecordFor (scope : InvokeScope) (generation nowMs : Z) : prog local DoOwner :=
  let* lease := lift_lease (ownerLeaseExpiresAt nowMs (ownerTtlSeconds env)) in
  pret (MkDoOwner (sc_hostId scope) (sc_hostId scope) (sc_className scope) (sc_ns scope) (sc_worker scope) (sc_doStorageId scope)
          (lt_taskId localTask) (lt_endpoint localTask) generation (JNum (NInt lease))).

(** A record the registry wrote has no other members than these. *)
Definition renewedOwnerRecordFor (current : DoOwner) (nowMs : Z) : prog local DoOwner :=
  let* lease := lift_lease (ownerLeaseExpiresAt nowMs (ownerTtlSeconds env)) in
  pret (MkDoOwner (do_ownerKey current) (do_hostId current) (do_className current) (do_ns current) (do_worker current) (do_doStorageId current)
          (lt_taskId localTask) (lt_endpoint localTask) (do_generation current) (JNum (NInt lease))).

(** [ownerStoragePointerMatches]; the pointer is decoded. *)
Definition ownerStoragePointerMatches (pointer : jsval) (doStorageId : jstr) : bool :=
  negb (jeqb doStorageId []) && match pointer with JStr s => jeqb s doStorageId | _ => false end.

Definition deleteLockAllowsActiveStorage (token : jsval) : bool :=
  match token with
  | JNull | JUndef => true
  | _ => bool_decide (parseDeleteLockKind token = Some VERSION_DELETE_LOCK_KIND)
  end.

Definition ownerHasStoragePointer (owner : DoOwner) : bool :=
  negb (jeqb (do_ns owner) []) && negb (jeqb (do_worker owner) []) && negb (jeqb (do_doStorageId owner) []).

Definition readOwner (K : jstr) : prog local (option DoOwner) := readOwnerRecord (λ raw, parseOwner raw K None) (ownerKeyOf K).

(** [Number(owner.leaseExpiresAt ?? 0)] *)
Definition lease_number (owner : DoOwner) : jnum :=
  match do_leaseExpiresAt owner with JUndef | JNull => NInt 0 | v => Number_of v end.

(** The lease time rounded down: it is compared with whole numbers from above. *)
Definition lease_ms (owner : DoOwner) : Z :=
  match lease_number owner with NInt z => z | NFrac a b => a / Z.pos b | _ => 0 end.

Definition expired (owner : DoOwner) (now : Z) : bool := ownerLeaseExpired (do_leaseExpiresAt owner) now.

(** [remainingMs <= ttlMs * 0.5], both sides doubled. *)
Definition shouldRenewOwnerLease (owner : DoOwner) (now : Z) : result jserr bool :=
  if negb (is_safe_integer now) || (now <? 0) then Err PlainError
  else Ok (num_leb (lease_number owner) (NFrac (ownerTtlSeconds env * 1000 + 2 * now) 2)).

Definition withWatchRetries {A} (operation : prog local A) (exhaustedCode : string) : prog local A :=
  withOwnerWatchRetries OWNER_CLAIM_RETRIES operation (DoRuntimeError 503 exhaustedCode).

Definition stageClaim (K : jstr) (owner : DoOwner) : list write :=
  stageOwnerClaim (ownerProtocolKeys DO_OWNER_SCOPE_PREFIX K) (do_generation owner) (owner_bytes owner) (ownerTtlSeconds env).

Definition throwIfDraining : prog local unit :=
  PGet (λ l, if draining l then pthrow (DoRuntimeError 503 "task_draining") else pret tt).

Definition forgetAndThrow {A} (K : jstr) (code : string) : prog local A :=
  let* _ := pmodify (forgetOwnedScope K) in pthrow (DoRuntimeError 503 code).

(** ** Resolution *)

(** The counter a local owner is compared with: not read again for a scope already owned. *)
Definition localCounter (K : jstr) (owner : DoOwner) (generationText : jsval) : prog local Z :=
  let* alreadyLocal := pread (λ l, jm_has K (ownedScopes l)) in
  if (alreadyLocal : bool) then pret (do_generation owner)
  else lift_lease (parseOwnerGenerationCounter generationText).

(** The transaction of [resolveDoOwner]. *)
Definition resolveInSession (scope : InvokeScope) (invoke : DoInvoke) (allowSupersededVersion : bool) : prog local (DoOwner * DoInvoke) :=
  let K := buildOwnerKey (sc_hostId scope) in
  let key := ownerKeyOf K in
  let generationKey := ownerGenerationKeyOf K in
  let related_keys := [generationKey; deleteLockKey (sc_ns scope) (sc_worker scope); doStorageIdKey (sc_ns scope) (sc_worker scope);
                       sessionPolicyKey (sc_ns scope) (sc_worker scope)] in
  let* _ := session_watch (key :: related_keys) in
  let* read := readOwnerSnapshotWithRedisTime (λ raw, parseOwner raw K (Some (sc_ns scope, sc_worker scope))) key related_keys in
  let '(current, _, relatedValues, nowMs) := read in
  let* invoke := plift (applySessionPolicyFence (related relatedValues 3) invoke allowSupersededVersion) in
  if negb (deleteLockAllowsActiveStorage (related relatedValues 1)) then
    let* _ := session_unwatch in forgetAndThrow K "stale_owner_storage"
  else
    let claim currentGeneration :=
      let* _ := throwIfDraining in
      if negb (ownerStoragePointerMatches (related relatedValues 2) (sc_doStorageId scope)) then
        let* _ := session_unwatch in forgetAndThrow K "stale_owner_storage"
      else
        let* generation := lift_lease (nextOwnerGenerationFromSnapshot (related relatedValues 0) currentGeneration) in
        let* owner := ownerRecordFor scope generation nowMs in
        let* _ := session_exec (stageClaim K owner) in
        let* _ := pmodify (rememberOwner owner) in
        pret (owner, invoke) in
    match current with
    | None => claim 0
    | Some cur =>
        if expired cur nowMs then claim (do_generation cur)
        else if negb (ownerStoragePointerMatches (related relatedValues 2) (do_doStorageId cur)) then
          let* _ := session_unwatch in forgetAndThrow K "stale_owner_storage"
        else if negb (jeqb (do_taskId cur) (lt_taskId localTask)) then
          let* _ := session_unwatch in
          let* _ := pmodify (forgetOwnedScope K) in
          pret (cur, invoke)
        else
          let* _ := throwIfDraining in
          let* counter := localCounter K cur (related relatedValues 0) in
          let repairGeneration := counter <? do_generation cur in
          let* renewLease := plift (shouldRenewOwnerLease cur nowMs) in
          if negb repairGeneration && negb renewLease then
            let* _ := session_unwatch in
            let* _ := pmodify (rememberOwner cur) in
            pret (cur, invoke)
          else
            let* renewed := if (renewLease : bool) then ownerRecordFor scope (do_generation cur) nowMs else pret cur in
            let* _ := session_exec
              ((if repairGeneration then [WSet generationKey (generation_bytes (do_generation cur)) None] else [])
               ++ (if renewLease then stageOwnerRenew key (owner_bytes renewed) (ownerTtlSeconds env) else [])) in
            let* _ := pmodify (rememberOwner renewed) in
            pret (renewed, invoke)
    end.

Definition resolveDoOwner (invoke : DoInvoke) (allowSupersededVersion : bool) : prog local (DoOwner * DoInvoke) :=
  let* scope := plift (requireInvokeScope invoke) in
  let K := buildOwnerKey (sc_hostId scope) in
  let key := ownerKeyOf K in
  let* read := readOwnerSnapshotWithRedisTime (λ raw, parseOwner raw K (Some (sc_ns scope, sc_worker scope))) key
    [ownerGenerationKeyOf K; deleteLockKey (sc_ns scope) (sc_worker scope); doStorageIdKey (sc_ns scope) (sc_worker scope);
     sessionPolicyKey (sc_ns scope) (sc_worker scope)] in
  let '(snapshotOwner, _, relatedValues, snapshotNowMs) := read in
  let* invoke := plift (applySessionPolicyFence (related relatedValues 3) invoke allowSupersededVersion) in
  let session := withWatchRetries (resolveInSession scope invoke allowSupersededVersion) "owner_claim_raced" in
  if negb (deleteLockAllowsActiveStorage (related relatedValues 1)) then forgetAndThrow K "stale_owner_storage"
  else
    match snapshotOwner with
    | None => let* _ := throwIfDraining in session
    | Some owner =>
        if expired owner snapshotNowMs then let* _ := throwIfDraining in session
        else if negb (ownerStoragePointerMatches (related relatedValues 2) (do_doStorageId owner)) then
          forgetAndThrow K "stale_owner_storage"
        else if negb (jeqb (do_taskId owner) (lt_taskId localTask)) then
          let* _ := pmodify (forgetOwnedScope K) in
          pret (owner, invoke)
        else
          let* _ := throwIfDraining in
          let* counter := localCounter K owner (related relatedValues 0) in
          if counter <? do_generation owner then session
          else
            let* renew := plift (shouldRenewOwnerLease owner snapshotNowMs) in
            if (renew : bool) then session
            else
              let* _ := pmodify (rememberOwner owner) in
              pret (owner, invoke)
    end.

(** ** Renewal *)

Record renewal := Renewal { rn_renewed : bool; rn_owner : option DoOwner; rn_nowMs : Z }.

Fixpoint renewAttempts (attempts : nat) (owner : DoOwner) : prog local renewal :=
  match attempts with
  | O => pthrow (DoRuntimeError 503 "owner_renew_raced")
  | S n =>
      let K := do_ownerKey owner in
      let storagePointerKey := doStorageIdKey (do_ns owner) (do_worker owner) in
      let* read := readOwnerSnapshotWithRedisTime (λ raw, parseOwner raw K (Some (do_ns owner, do_worker owner))) (ownerKeyOf K) [storagePointerKey] in
      let '(current, rawOwner, relatedValues, nowMs) := read in
      let lost := let* _ := pmodify (forgetOwnedScope K) in pret (Renewal false current nowMs) in
      match current with
      | None => lost
      | Some cur =>
          if negb (ownerFenceMatches (owner_fence <$> current) (Some (owner_fence owner))) then lost
          else if negb (ownerHasStoragePointer cur) then lost
          else if negb (ownerStoragePointerMatches (related relatedValues 0) (do_doStorageId cur)) then lost
          else if expired cur nowMs then lost
          else
            let* renewed := renewedOwnerRecordFor cur nowMs in
            match rawOwner with
            | None => pthrow (DoRuntimeError 503 "owner_renew_raced")
            | Some expected =>
                let* result := redis_renew_fenced (ownerKeyOf K) storagePointerKey expected (utf8_encode (do_doStorageId cur))
                                 (owner_bytes renewed) (ownerTtlSeconds env) in
                if result =? 1 then
                  let* _ := pmodify (rememberOwner renewed) in
                  pret (Renewal true (Some renewed) nowMs)
                else if result =? -1 then lost
                else renewAttempts n owner
            end
      end
  end.

Definition renewOwner (owner : DoOwner) : prog local renewal := renewAttempts OWNER_CLAIM_RETRIES owner.

(** The loop of one worker of [renewOwnedScopes] over the entries it takes: renewed, lost,
    failed. The other workers are other handlers of the task. *)
Fixpoint renewNextScope (entries : list DoOwner) (counts : nat * nat * nat) : prog local (nat * nat * nat) :=
  match entries with
  | [] => pret counts
  | owner :: rest =>
      let '(renewed, lost, errors) := counts in
      let* counts := pcatch
        (let* r := renewOwner owner in
         pret (if rn_renewed r then (S renewed, lost, errors) else (renewed, S lost, errors)))
        (λ _, pret (renewed, lost, S errors)) in
      renewNextScope rest counts
  end.

Definition renewOwnedScopes : prog local (bool * (nat * nat * nat)) :=
  PGet (λ l,
    if draining l then pret (true, (0%nat, 0%nat, 0%nat))
    else let* counts := renewNextScope (map snd (ownedScopes l)) (0%nat, 0%nat, 0%nat) in pret (false, counts)).

(** ** Release *)

Definition forgetReleased (expected : DoOwner) (o : release_outcome DoOwner) (l : local) : local :=
  match o with ReleaseError _ => l | _ => forgetOwnedScope (do_ownerKey expected) l end.

Definition releaseOwners (owners : list DoOwner) : prog local (list (release_outcome DoOwner)) :=
  let* results := releaseOwnerRecords (λ raw expected, parseOwner raw (do_ownerKey expected) None) owner_fence
                    (map (λ o, (ownerKeyOf (do_ownerKey o), o)) owners) in
  let* _ := pmodify (λ l, fold_left (λ l p, forgetReleased p.1 p.2 l) (zip owners results) l) in
  pret results.

(** The counts are released, already lost and failed. *)
Definition drainOwnedScopes : prog local (nat * nat * nat) :=
  let* entries := pread (λ l, map snd (ownedScopes l)) in
  let* outcomes := pcatch (releaseOwners entries) (λ e, pret (map (λ _, ReleaseError e) entries)) in
  let count (f : release_outcome DoOwner → bool) := length (filter (λ o, f o = true) outcomes) in
  pret (count (λ o, match o with Released => true | _ => false end),
        count (λ o, match o with NotReleased _ => true | _ => false end),
        count (λ o, match o with ReleaseError _ => true | _ => false end)).

(** ** The fence of a dispatch *)

Record fenced := Fenced { fn_owner : DoOwner; fn_leaseRemainingMs : Z }.

(** [storageScope] is the scope of [invoke]; [policy] asks for the session policy fence. *)
Definition assertCurrentOwnerWithLeaseBudget (owner : option OwnerFence) (invoke : DoInvoke) (policy renewNearExpiry : bool)
    : prog local (fenced * DoInvoke) :=
  match owner with
  | None => pthrow (DoRuntimeError 503 "owner_fence_missing")
  | Some f =>
      let K := of_ownerKey f in
      let s := in_source invoke in
      if jeqb K [] || jeqb (of_taskId f) [] then pthrow (DoRuntimeError 503 "owner_fence_missing")
      else if negb (isValidStorageScope (bs_ns s) (bs_worker s) (bs_doStorageId s)) then pthrow PlainError
      else
        let expected := (of_taskId f, of_generation f) in
        let* read := readOwnerSnapshotWithRedisTime (λ raw, parseOwner raw K (Some (bs_ns s, bs_worker s))) (ownerKeyOf K)
          ([doStorageIdKey (bs_ns s) (bs_worker s); deleteLockKey (bs_ns s) (bs_worker s)]
           ++ (if policy then [sessionPolicyKey (bs_ns s) (bs_worker s)] else [])) in
        let '(current, _, relatedValues, nowMs) := read in
        match current with
        | None => forgetAndThrow K "stale_owner_generation"
        | Some cur =>
            if negb (ownerFenceMatches (owner_fence <$> current) (Some expected)) then forgetAndThrow K "stale_owner_generation"
            else if expired cur nowMs then forgetAndThrow K "owner_lease_expired"
            else if negb (jeqb (do_doStorageId cur) (bs_doStorageId s)
                          && ownerStoragePointerMatches (related relatedValues 0) (do_doStorageId cur))
            then forgetAndThrow K "stale_owner_storage"
            else if negb (deleteLockAllowsActiveStorage (related relatedValues 1)) then forgetAndThrow K "stale_owner_storage"
            else
              let* invoke := if policy then plift (applySessionPolicyFence (related relatedValues 2) invoke false) else pret invoke in
              let leaseRemainingMs := lease_ms cur - nowMs in
              let guardMs := ownerLeaseGuardMs env in
              if leaseRemainingMs <? guardMs then
                if (renewNearExpiry : bool) then
                  let* renewed := renewOwner cur in
                  match rn_owner renewed with
                  | Some o =>
                      let remaining := lease_ms o - rn_nowMs renewed in
                      if rn_renewed renewed && ownerFenceMatches (Some (owner_fence o)) (Some expected) && (guardMs <=? remaining)
                      then pret (Fenced o remaining, invoke)
                      else forgetAndThrow K "owner_lease_too_short"
                  | None => forgetAndThrow K "owner_lease_too_short"
                  end
                else forgetAndThrow K "owner_lease_too_short"
              else pret (Fenced cur leaseRemainingMs, invoke)
        end
  end.

(** ** Dispatch (src/do-runtime/index.js, actor.js) *)

(** A trusted fence for a scope this task owns skips the resolution. *)
Definition localOwnerFromFence (invoke : DoInvoke) (l : local) : option OwnerFence :=
  match in_owner invoke with
  | None => None
  | Some owner =>
      match jm_get (of_ownerKey owner) (ownedScopes l) with
      | None => None
      | Some observed =>
          if negb (jeqb (of_ownerKey owner) (in_hostId invoke)) || negb (jeqb (of_taskId owner) (lt_taskId localTask))
             || negb (jeqb (do_taskId observed) (of_taskId owner)) || negb (do_generation observed =? of_generation owner)
             || negb (jeqb (do_doStorageId observed) (bs_doStorageId (in_source invoke)))
          then None else Some owner
      end
  end.

Inductive route := ToOwner (owner : DoOwner) | ToActor (invoke : DoInvoke).

Definition ownerFence (o : DoOwner) : OwnerFence := MkOwnerFence (do_ownerKey o) (do_taskId o) (do_generation o).

(** [dispatchToOwner] up to the request it sends: to the owner's task or to the local actor,
    with the fence the actor checks. *)
Definition dispatchToOwner (invoke : DoInvoke) (allowSupersededVersion : bool) : prog local route :=
  let* fast := pread (localOwnerFromFence invoke) in
  match fast with
  | Some f => pret (ToActor (with_owner (Some f) invoke))
  | None =>
      let* resolved := resolveDoOwner invoke allowSupersededVersion in
      let '(owner, invoke) := resolved in
      if negb (jeqb (do_taskId owner) (lt_taskId localTask)) then pret (ToOwner owner)
      else pret (ToActor (with_owner (Some (ownerFence owner)) invoke))
  end.

(** [dispatchWithFence] until tenant code runs: what the lease allows it. [remembered] tells
    whether the object registry was written, after which the fence is checked again. The
    in-flight count goes down when tenant code has returned ([endInFlightDispatch]) or
    here, when the fence refuses. *)
Definition dispatchWithFence (invoke : DoInvoke) (remembered : bool) : prog local (fenced * DoInvoke) :=
  let* admitted := PGet (λ l, let '(ok, l') := beginInFlightDispatch l in PPut l' (pret ok)) in
  if negb admitted then pthrow (DoRuntimeError 503 "task_draining")
  else
    pcatch
      (let* first := assertCurrentOwnerWithLeaseBudget (in_owner invoke) invoke true true in
       let* last := if remembered then assertCurrentOwnerWithLeaseBudget (in_owner invoke) first.2 true true else pret first in
       let remainingMs := fn_leaseRemainingMs last.1 in
       let K := do_ownerKey (fn_owner last.1) in
       if remainingMs <=? 0 then forgetAndThrow K "owner_lease_expired"
       else if remainingMs <? ownerLeaseGuardMs env then forgetAndThrow K "owner_lease_too_short"
       else pret last)
      (λ e, let* _ := pmodify endInFlightDispatch in pthrow e).
End registry.
