(* ===== verification/DoOwnerSafety.v ===== *)
(** * Safety of the Durable Object owner protocol

    The records of src/do-runtime/owner-registry.js form an [OwnerScheme]: a record is pinned
    to the storage pointer of its worker and a claim is guarded by its delete lock. The
    handlers are verified one by one against the logic of OwnerLogic. *)

From stdpp Require Import base list strings gmap.
From Stdlib Require Import ZArith Lia ZifyBool.
From S2P Require Import Prelude JsMap NsPattern WorkerContract SessionPolicy Utf8 Json JsNumber OwnerLease Redis OwnerProtocol OwnerLogic DoProtocol DoOwner.

#[local] Open Scope Z_scope.
#[local] Open Scope wdl_scope.

(** ** Stored records *)

Definition ascii (s : jstr) : Prop := Forall (λ c, 0 <= c < 0x80) s.

Section records.
Context (env : fields) (IntrinsicURL : jstr → option url_parts).
(** The worker a storage was made for: the control plane mints a storage id for one worker. *)
Context (home : jstr → jstr * jstr).

Definition valid_key (K : jstr) : Prop := ∃ storage class n, hostIdForShard storage class (NInt n) = Ok K.

(** A record as the protocol writes it for host [K]. *)
Record owner_wf (K : jstr) (o : DoOwner) : Prop := {
  wf_ownerKey : do_ownerKey o = K;
  wf_hostId : do_hostId o = K;
  wf_shard : ∃ n, hostIdForShard (do_doStorageId o) (do_className o) (NInt n) = Ok K;
  wf_scope : isValidBundleScope (do_ns o) (do_worker o) = true;
  wf_home : home (do_doStorageId o) = (do_ns o, do_worker o);
  wf_task : do_taskId o ≠ [];
  wf_task_units : Forall is_unit (do_taskId o);
  wf_endpoint_units : Forall is_unit (do_endpoint o);
  wf_endpoint : validEndpoint IntrinsicURL (JStr (do_endpoint o)) = true;
  wf_generation : 0 < do_generation o <= MAX_SAFE_INTEGER;
  wf_lease : ∃ e, do_leaseExpiresAt o = JNum (NInt e) ∧ 0 <= e <= MAX_SAFE_INTEGER }.

Lemma class_ascii s : CLASS_NAME_RE s = true → ascii s.
Proof.
  unfold CLASS_NAME_RE, head_star_re. destruct s as [|c r]; [done|]. intros [Hc H%forallb_Forall]%andb_prop.
  unfold ident_start, ident_part, is_alnum, is_alpha, is_lower, is_upper, is_digit, is_underscore, is_dollar in *.
  constructor; [lia|]. eapply Forall_impl; [exact H|]. cbv beta. lia.
Qed.

Lemma storage_ascii s : STORAGE_ID_RE s = true → ascii s ∧ s ≠ [].
Proof.
  unfold STORAGE_ID_RE. intros [Hn H%forallb_Forall]%andb_prop. split; [|intros ->; by rewrite jeqb_refl in Hn].
  eapply Forall_impl; [exact H|]. unfold is_lower_alnum, is_lower, is_digit, is_underscore, is_dash. cbv beta. lia.
Qed.

Lemma scope_ascii ns worker : isValidBundleScope ns worker = true → ascii ns ∧ ns ≠ [] ∧ ascii worker ∧ worker ≠ [].
Proof.
  unfold isValidBundleScope. intros [Hn Hw]%andb_prop. apply runtime_load_ns_units in Hn as [Hn Hne]. apply worker_name_units in Hw as [Hw Hwe].
  assert (worker ≠ []) by (intros ->; unfold jlen in Hwe; cbn in Hwe; lia). split_and!; try done; (eapply Forall_impl; [eassumption|]);
    unfold alnum_dash_us, is_alnum, is_alpha, is_lower_alnum, is_lower, is_upper, is_digit, is_underscore, is_dash; cbv beta; intros; lia.
Qed.

Lemma key_ascii K storage class n : hostIdForShard storage class (NInt n) = Ok K →
  ascii K ∧ K ≠ [] ∧ ascii storage ∧ storage ≠ [] ∧ ascii class ∧ class ≠ [].
Proof.
  intros (-> & Hn & Hs & Hc & _)%host_id_for_shard. apply requireString_pattern in Hs, Hc. apply storage_ascii in Hs as [Hs Hne].
  assert (class ≠ []) by (by destruct class). apply class_ascii in Hc. split_and!; try done; [|intros E; unfold formatDoOwnerShardKey in E; by destruct storage].
  unfold formatDoOwnerShardKey. apply Forall_app. split; [done|]. apply Forall_app. split; [by apply (bool_decide_unpack _); vm_compute|].
  apply Forall_app. split; [done|]. apply Forall_app. split; [by apply (bool_decide_unpack _); vm_compute|]. apply string_of_Z_ascii.
Qed.

Lemma do_valid_key_ascii K : valid_key K → ascii K.
Proof. intros (s & c & n & H). by apply key_ascii in H as (? & _). Qed.

Lemma do_owner_plain K o : owner_wf K o → plain (owner_json o).
Proof.
  intros []. destruct wf_shard0 as [n Hn]. apply key_ascii in Hn as (HK & _ & Hs & _ & Hc & _).
  apply scope_ascii in wf_scope0 as (Hns & _ & Hw & _). destruct wf_lease0 as (e & El & He).
  assert (∀ z, 0 <= z <= MAX_SAFE_INTEGER → is_safe_integer z = true) as Hz by (unfold is_safe_integer; lia).
  subst K. unfold owner_json. rewrite El, wf_hostId0. unfold plain.
  split_and!; auto using ascii_units, js_units with lia.
  apply (bool_decide_unpack _). vm_compute. exact I.
Qed.

(** A stored record is read back as itself, unless another bundle is asked for. *)
Lemma do_parse_stored K o scope : owner_wf K o →
  (∀ ns worker, scope = Some (ns, worker) → ns = do_ns o ∧ worker = do_worker o) →
  parseOwner IntrinsicURL (decodeBulk (Some (owner_bytes o))) K scope = Ok (Some o).
Proof.
  intros Hwf Hsc. destruct (json_roundtrip _ (do_owner_plain _ _ Hwf)) as (text & Ht & _ & Hp).
  unfold parseOwner, decodeBulk, owner_bytes. rewrite Ht. cbn [default option_map from_option id].
  unfold parseOwnerRecord.
  assert (raw_text (JStr (utf8_decode (utf8_encode text))) = Some (utf8_decode (utf8_encode text))) as ->.
  { destruct (utf8_decode (utf8_encode text)) as [|c r] eqn:E; [|done]. vm_compute in Hp. done. }
  rewrite Hp. unfold owner_json. cbv beta iota.
  assert (∀ z, 0 <= z <= MAX_SAFE_INTEGER → is_safe_integer z = true) as Hs by (unfold is_safe_integer; lia).
  destruct Hwf. destruct wf_lease0 as (e & He & Her). destruct wf_shard0 as [n Hn].
  pose proof (key_ascii _ _ _ _ Hn) as (_ & _ & _ & Hst & _ & Hcl).
  match goal with |- context [obj_get _ ?l] => set (fs := l) end.
  assert (obj_get (js "generation") fs = JNum (NInt (do_generation o))) as G by reflexivity.
  assert (obj_get (js "leaseExpiresAt") fs = do_leaseExpiresAt o) as -> by reflexivity.
  rewrite G, He. cbn [safe_integer_of num_is_finite]. rewrite Hs by lia.
  rewrite (proj2 (Z.leb_gt _ _)) by lia. cbv beta iota. unfold ownerMatchesScope.
  assert (obj_get (js "ownerKey") fs = JStr (do_ownerKey o)) as -> by reflexivity.
  assert (obj_get (js "hostId") fs = JStr (do_hostId o)) as -> by reflexivity.
  assert (obj_get (js "className") fs = JStr (do_className o)) as -> by reflexivity.
  assert (obj_get (js "ns") fs = JStr (do_ns o)) as -> by reflexivity.
  assert (obj_get (js "worker") fs = JStr (do_worker o)) as -> by reflexivity.
  assert (obj_get (js "doStorageId") fs = JStr (do_doStorageId o)) as -> by reflexivity.
  assert (obj_get (js "taskId") fs = JStr (do_taskId o)) as -> by reflexivity.
  assert (obj_get (js "endpoint") fs = JStr (do_endpoint o)) as -> by reflexivity.
  assert (obj_get (js "leaseExpiresAt") fs = do_leaseExpiresAt o) as -> by reflexivity.
  rewrite G. cbn [safe_integer_of]. rewrite !Hs by lia.
  destruct (do_className o) as [|c0 cr] eqn:Ec; [done|]. destruct (do_doStorageId o) as [|s0 sr] eqn:Est; [done|].
  rewrite <- Ec, <- Est in *. rewrite wf_ownerKey0, wf_hostId0, jeqb_refl, wf_scope0. cbn [negb orb].
  assert (match scope with Some (ns', worker') => negb (isValidBundleScope ns' worker') || negb (jeqb (do_ns o) ns') || negb (jeqb (do_worker o) worker')
          | None => false end = false) as ->.
  { destruct scope as [[ns w]|]; [|done]. destruct (Hsc ns w eq_refl) as [-> ->]. by rewrite wf_scope0, !jeqb_refl. }
  pose proof (host_id_for_shard _ _ _ _ Hn) as (EK & Hr & _).
  destruct (format_shard (do_doStorageId o) (do_className o) n) as [Ea En]; [unfold DO_HOST_SHARD_COUNT, MAX_SAFE_INTEGER in *; lia|].
  rewrite <- EK in Ea. rewrite Ea, En, Hn, jeqb_refl, wf_endpoint0.
  destruct (do_taskId o) as [|t0 tr] eqn:Et; [done|]. rewrite <- Et. destruct o. cbn in *. by subst.
Qed.

(** A reader that asks for a bundle accepts the records of that bundle. *)
Lemma matches_scope record K ns worker t : ownerMatchesScope record K (Some (ns, worker)) = Some t →
  ownerMatchesScope record K None = Some t ∧ t.1.1.2 = ns ∧ t.1.2 = worker.
Proof.
  unfold ownerMatchesScope. intros H. repeat (case_match; try done). simplify_eq. cbn [fst snd].
  match goal with H : (_ || negb (jeqb _ ns) || _) = false |- _ => apply orb_false_iff in H as [[_ Ha]%orb_false_iff Hb] end.
  apply negb_false_iff, jeqb_eq in Ha, Hb. by subst.
Qed.

Lemma parse_scope raw K ns worker :
  match parseOwner IntrinsicURL raw K (Some (ns, worker)) with
  | Ok (Some o) => parseOwner IntrinsicURL raw K None = Ok (Some o) ∧ do_ns o = ns ∧ do_worker o = worker
  | Ok None => parseOwner IntrinsicURL raw K None = Ok None
  | Err _ => True
  end.
Proof.
  unfold parseOwner. destruct raw; try done; destruct (parseOwnerRecord _) as [record|]; try done.
  all: destruct (ownerMatchesScope record K (Some (ns, worker))) as [[[[class n] w] storage]|] eqn:E; [|done].
  all: apply matches_scope in E as (-> & <- & <-); repeat (case_match; try done).
  all: simplify_eq; done.
Qed.

Lemma parse_stored_scope K o ns worker : owner_wf K o →
  match parseOwner IntrinsicURL (decodeBulk (Some (owner_bytes o))) K (Some (ns, worker)) with
  | Ok (Some o') => o' = o ∧ do_ns o = ns ∧ do_worker o = worker
  | Ok None => False
  | Err _ => True
  end.
Proof.
  intros Hwf. pose proof (parse_scope (decodeBulk (Some (owner_bytes o))) K ns worker) as H. revert H.
  rewrite (do_parse_stored K o None Hwf) by done. destruct (parseOwner _ _ _ (Some _)) as [[o'|]|]; [|done..].
  by intros ([= <-] & ? & ?).
Qed.

(** *** Keys *)

Lemma do_owner_key_inj K K' : valid_key K → valid_key K' → ownerKeyOf K = ownerKeyOf K' → K = K'.
Proof.
  intros H%do_valid_key_ascii H'%do_valid_key_ascii E. apply app_inv_head in E. by apply encodeURIComponent_inj.
Qed.

Lemma do_generation_key_inj K K' :
  valid_key K → valid_key K' → ownerGenerationKeyOf K = ownerGenerationKeyOf K' → K = K'.
Proof.
  intros H%do_valid_key_ascii H'%do_valid_key_ascii E. apply app_inv_tail, app_inv_head in E. by apply encodeURIComponent_inj.
Qed.

Lemma do_owner_generation_key_ne K K' : valid_key K → valid_key K' → ownerKeyOf K ≠ ownerGenerationKeyOf K'.
Proof. intros H%do_valid_key_ascii H'%do_valid_key_ascii. apply generation_key_not_owner_key; by apply ascii_units. Qed.

(** The pointer, the lock and the policy of a worker are not keys of the protocol. *)
Lemma worker_key_foreign k K : starts_with (js "worker:") k = true ∨ starts_with (js "worker-delete-lock:") k = true →
  k ≠ ownerKeyOf K ∧ k ≠ ownerGenerationKeyOf K.
Proof.
  intros H. split; intros ->; by destruct H.
Qed.

(** *** Leases *)

Lemma do_expired_wf K o now : owner_wf K o → expired o now = (lease_ms o <=? now).
Proof.
  intros []. destruct wf_lease0 as (e & He & _). unfold expired, ownerLeaseExpired, lease_ms, lease_number. by rewrite He.
Qed.
End records.

(** ** The scheme *)

(** The storage pointer reads as [storage]. *)
Definition points_to (storage : jstr) (b : bytes) : Prop := utf8_decode b = storage.

#[export] Program Instance do_scheme (env : fields) (IntrinsicURL : jstr → option url_parts) (home : jstr → jstr * jstr) : OwnerScheme DoOwner := {
  ow_ttl := ownerTtlSeconds env;
  ow_valid := valid_key;
  ow_key := ownerKeyOf;
  ow_generation_key := ownerGenerationKeyOf;
  ow_wf := owner_wf IntrinsicURL home;
  ow_bytes := owner_bytes;
  ow_parse K b := match parseOwner IntrinsicURL (decodeBulk (Some b)) K None with Ok o => o | Err _ => None end;
  ow_fence := owner_fence;
  ow_lease := lease_ms;
  ow_pins o := [(doStorageIdKey (do_ns o) (do_worker o), points_to (do_doStorageId o))];
  ow_guards o := [(deleteLockKey (do_ns o) (do_worker o), λ v, deleteLockAllowsActiveStorage (decodeBulk v) = true)] }.
Next Obligation. intros. by apply ttl_env_positive. Qed.
Next Obligation. intros env url home K o []. destruct wf_shard0 as [n Hn]. by eexists _, _, _. Qed.
Next Obligation. intros env url home K o []. done. Qed.
Next Obligation. intros env url home K o Hwf. cbv beta. by rewrite (do_parse_stored _ _ _ _ _ Hwf). Qed.
Next Obligation. intros. by apply do_owner_key_inj. Qed.
Next Obligation. intros. by apply do_generation_key_inj. Qed.
Next Obligation. intros. by apply do_owner_generation_key_ne. Qed.
Next Obligation.
  intros env url home K o k P K' Hwf Hin HK'. apply list_elem_of_singleton in Hin as [= -> ->]. apply worker_key_foreign. by left.
Qed.

(** The local state of task [me]. *)
Record local_ok (IntrinsicURL : jstr → option url_parts) (home : jstr → jstr * jstr) (me : jstr) (l : local) : Prop := {
  lo_owned : Forall (λ kv, owner_wf IntrinsicURL home kv.1 kv.2 ∧ do_taskId kv.2 = me) (ownedScopes l);
  lo_in_flight : 0 <= inFlightRequests l }.

(** ** The handlers satisfy the logic *)

Section handlers.
Context (env : fields) (IntrinsicURL : jstr → option url_parts) (home : jstr → jstr * jstr) (localTask : LocalTask).
Abbreviation owner_wf := (owner_wf IntrinsicURL home).
Abbreviation me := (lt_taskId localTask).
Abbreviation local_ok := (local_ok IntrinsicURL home me).
#[local] Existing Instance do_scheme.
Abbreviation scheme := (do_scheme env IntrinsicURL home).
Abbreviation lease_until := (@lease_until DoOwner scheme).
Context {Hist : History}.
Abbreviation wp := (@wp DoOwner local scheme Hist local_ok me _).

Record task_ok (t : LocalTask) : Prop := {
  tk_task : lt_taskId t ≠ [];
  tk_task_units : Forall is_unit (lt_taskId t);
  tk_endpoint_units : Forall is_unit (lt_endpoint t);
  tk_endpoint : validEndpoint IntrinsicURL (JStr (lt_endpoint t)) = true }.

Record scope_ok (K : jstr) (s : InvokeScope) : Prop := {
  sk_host : sc_hostId s = K;
  sk_shard : ∃ n, hostIdForShard (sc_doStorageId s) (sc_className s) (NInt n) = Ok K;
  sk_scope : isValidBundleScope (sc_ns s) (sc_worker s) = true;
  sk_home : home (sc_doStorageId s) = (sc_ns s, sc_worker s) }.

Hypothesis Htask : task_ok localTask.

Lemma do_wf_valid K o : owner_wf K o → valid_key K.
Proof. intros []. destruct wf_shard0 as [n ?]. by eexists _, _, _. Qed.

Lemma scope_valid K s : scope_ok K s → valid_key K.
Proof. intros []. destruct sk_shard0 as [n ?]. by eexists _, _, _. Qed.

Lemma do_wf_self K o : owner_wf K o → owner_wf (do_ownerKey o) o.
Proof. intros H. by rewrite (wf_ownerKey _ _ _ _ H). Qed.

(** The record and the scope of one host are of one storage. *)
Lemma same_storage K o s : owner_wf K o → scope_ok K s → do_doStorageId o = sc_doStorageId s.
Proof.
  intros [] []. destruct wf_shard0 as [n Hn], sk_shard0 as [m Hm].
  apply host_id_for_shard in Hn as (E & Hr & Hs & Hc & _), Hm as (E' & Hr' & Hs' & Hc' & _).
  apply requireString_pattern in Hs, Hc, Hs', Hc'. rewrite E in E'. apply format_key_inj in E' as (? & _ & _); try done; lia.
Qed.

(** *** Local state *)

Lemma do_remember l o : owner_wf (do_ownerKey o) o → do_taskId o = me → local_ok l → local_ok (rememberOwner o l).
Proof. intros Ho Ht []. split; [|done]. cbn [rememberOwner ownedScopes]. auto with wdl. Qed.

Lemma do_forget l K : local_ok l → local_ok (forgetOwnedScope K l).
Proof. intros []. split; [|done]. cbn [forgetOwnedScope ownedScopes]. auto with wdl. Qed.

(** *** Reads *)

Definition of_bundle (ns worker : jstr) (o : DoOwner) : Prop := do_ns o = ns ∧ do_worker o = worker.

Lemma reads_scope K ns worker :
  @reads_owner _ scheme K (λ raw, parseOwner IntrinsicURL raw K (Some (ns, worker))) (of_bundle ns worker).
Proof. split; [done|]. intros o Hwf. exact (parse_stored_scope IntrinsicURL home K o ns worker Hwf). Qed.

Lemma reads_any K : @reads_owner _ scheme K (λ raw, parseOwner IntrinsicURL raw K None) (λ _, True).
Proof. split; [done|]. intros o Hwf. cbn [ow_bytes do_scheme]. by rewrite (do_parse_stored _ _ _ _ None Hwf). Qed.

(** A snapshot of the owner key and related keys. *)
Lemma wp_snap g K ns worker ks Q :
  valid_key K →
  (∀ vo vs o n, g_time g <= n → 0 <= n → Forall2 (@value_ok _ scheme n) ks vs → @found _ scheme K (of_bundle ns worker) n o vo →
     @read_at _ scheme _ (g_time g) K n vo →
     Q (Ghost (g_watch g) (rev (zip ks vs) ++ (ownerKeyOf K, vo) :: g_seen g) n) (Ok (o, vo, vs, n))) →
  (∀ g' e, g_time g <= g_time g' → Q g' (Err e)) →
  wp g (readOwnerSnapshotWithRedisTime (λ raw, parseOwner IntrinsicURL raw K (Some (ns, worker))) (ownerKeyOf K) ks) Q.
Proof.
  intros HK HQ HE.
  by apply (@wp_snapshot _ _ scheme Hist local_ok me g K (λ raw, parseOwner IntrinsicURL raw K (Some (ns, worker))) (of_bundle ns worker) ks Q HK (reads_scope K ns worker)).
Qed.

Lemma generation_read n K vg : valid_key K → @value_ok _ scheme n (ownerGenerationKeyOf K) vg → counter_raw vg.
Proof. intros HK Hv. destruct vg as [b|]; [|done]. by apply (Hv b eq_refl K HK). Qed.

Lemma wp_draining g (Q : ghost → result jserr unit → Prop) :
  Q g (Ok tt) → (∀ e, Q g (Err e)) → wp g throwIfDraining Q.
Proof. intros HQ HE l Hl. destruct (draining l); [apply HE | apply HQ]. Qed.

Lemma wp_forget_throw {A} g t K code (P : A → Prop) : t <= g_time g → wp g (forgetAndThrow K code) (post t P).
Proof. intros Ht. apply wp_bind, wp_modify; [by intros; apply do_forget | by apply post_err]. Qed.

Lemma wp_unwatch_throw {A} g t K code (P : A → Prop) : t <= g_time g →
  wp g (let* _ := session_unwatch in forgetAndThrow K code) (post t P).
Proof.
  intros Ht. apply wp_bind, wp_unwatch; [by apply wp_forget_throw|]. intros. apply post_err. lia.
Qed.

Lemma wp_plift {A} g (r : result jserr A) (Q : ghost → result jserr A → Prop) :
  (∀ a, r = Ok a → Q g (Ok a)) → (∀ e, Q g (Err e)) → wp g (plift r) Q.
Proof. intros H He. destruct r; [by apply (H a)|apply He]. Qed.

Lemma wp_localCounter g K o v (Q : ghost → result jserr Z → Prop) : counter_raw v →
  (∀ c, c = do_generation o ∨ c = counter_of v → Q g (Ok c)) → wp g (localCounter K o (decodeBulk v)) Q.
Proof.
  intros Hc HQ. unfold localCounter. apply wp_bind. intros l Hl. apply wp_ret. destruct (jm_has _ _); [by apply wp_ret, HQ; left|].
  rewrite (counter_raw_spec _ Hc). apply wp_ret, HQ. by right.
Qed.

(** *** Records *)

Lemma wp_record g K s gen n Q :
  scope_ok K s → 0 < gen <= MAX_SAFE_INTEGER →
  (∀ o, owner_wf K o → do_generation o = gen → do_taskId o = me → lease_ms o = lease_until n →
        of_bundle (sc_ns s) (sc_worker s) o → do_doStorageId o = sc_doStorageId s → Q g (Ok o)) →
  (∀ e, Q g (Err e)) →
  wp g (ownerRecordFor env localTask s gen n) Q.
Proof.
  intros [Hk [m Hm] Hs Hh] Hg HQ HE. unfold ownerRecordFor. apply wp_bind, wp_lift_lease; [|done]. intros lease Hl.
  apply lease_expires_spec in Hl as (-> & Hn & Ht & Hpos). destruct Htask. apply wp_ret, HQ; try done.
  split; try done; [by exists m|]. eexists. split; [done|]. lia.
Qed.

Lemma wp_renewed_record g K cur n Q :
  owner_wf K cur → do_taskId cur = me →
  (∀ o, owner_wf K o → owner_fence o = owner_fence cur → lease_ms o = lease_until n →
        do_ns o = do_ns cur → do_worker o = do_worker cur → do_doStorageId o = do_doStorageId cur → Q g (Ok o)) →
  (∀ e, Q g (Err e)) →
  wp g (renewedOwnerRecordFor env localTask cur n) Q.
Proof.
  intros Hwf Ht HQ HE. unfold renewedOwnerRecordFor. apply wp_bind, wp_lift_lease; [|done]. intros lease Hl.
  apply lease_expires_spec in Hl as (-> & Hn & Httl & Hpos). destruct Hwf, Htask. apply wp_ret, HQ; try done.
  - split; try done. eexists. split; [done|]. lia.
  - unfold owner_fence. simpl. by rewrite Ht.
Qed.

Lemma pointer_matches v storage : ownerStoragePointerMatches (decodeBulk v) storage = true → ∃ b, v = Some b ∧ points_to storage b.
Proof.
  unfold ownerStoragePointerMatches. intros [_ H]%andb_prop. destruct v as [b|]; [|done]. cbn [decodeBulk] in H. apply jeqb_eq in H. by exists b.
Qed.

Lemma pins_of g o v : (doStorageIdKey (do_ns o) (do_worker o), v) ∈ g_seen g → doStorageIdKey (do_ns o) (do_worker o) ∈ g_watch g →
  ownerStoragePointerMatches (decodeBulk v) (do_doStorageId o) = true → @pins_seen _ scheme g o.
Proof. intros Hs Hw H%pointer_matches. apply Forall_singleton. split; [done|]. by exists v. Qed.

Lemma guards_of g o v : (deleteLockKey (do_ns o) (do_worker o), v) ∈ g_seen g → deleteLockKey (do_ns o) (do_worker o) ∈ g_watch g →
  deleteLockAllowsActiveStorage (decodeBulk v) = true → @guards_seen _ scheme g o.
Proof. intros Hs Hw H. apply Forall_singleton. split; [done|]. by exists v. Qed.

Lemma policy_keeps v i allow i' : applySessionPolicyFence v i allow = Ok i' →
  in_source i' = in_source i ∧ in_hostId i' = in_hostId i ∧ in_className i' = in_className i ∧ in_owner i' = in_owner i.
Proof.
  unfold applySessionPolicyFence. destruct (parseSessionPolicyProjection v) as [[p|]|]; [| |done]; [destruct (_ && _); [done|]|];
    by intros <-%Ok_inj.
Qed.

(** *** Resolution *)

(** What a resolution answers: a record of the host, and the invoke with its policy. *)
Definition resolved (K : jstr) (i : DoInvoke) (r : DoOwner * DoInvoke) : Prop :=
  owner_wf K r.1 ∧ in_source r.2 = in_source i ∧ in_hostId r.2 = in_hostId i ∧ in_className r.2 = in_className i.

(** The keys of a resolution. *)
Definition related_of (K : jstr) (s : InvokeScope) : list jstr :=
  [ownerGenerationKeyOf K; deleteLockKey (sc_ns s) (sc_worker s); doStorageIdKey (sc_ns s) (sc_worker s);
   sessionPolicyKey (sc_ns s) (sc_worker s)].

(** A claim of a fresh record after a snapshot under WATCH. *)
Lemma wp_do_claim K g t s cur vg vl vp vo n i i' :
  scope_ok K s → counter_raw vg → 0 <= cur → g_watch g = ownerKeyOf K :: related_of K s → g_time g = n → t <= n →
  (ownerGenerationKeyOf K, vg) ∈ g_seen g → (deleteLockKey (sc_ns s) (sc_worker s), vl) ∈ g_seen g →
  (doStorageIdKey (sc_ns s) (sc_worker s), vp) ∈ g_seen g → (ownerKeyOf K, vo) ∈ g_seen g →
  @may_replace _ scheme me n K vo → deleteLockAllowsActiveStorage (decodeBulk vl) = true →
  ownerStoragePointerMatches (decodeBulk vp) (sc_doStorageId s) = true →
  in_source i' = in_source i ∧ in_hostId i' = in_hostId i ∧ in_className i' = in_className i →
  wp g (let* generation := lift_lease (nextOwnerGenerationFromSnapshot (decodeBulk vg) cur) in
        let* owner := ownerRecordFor env localTask s generation n in
        let* _ := session_exec (stageClaim env K owner) in
        let* _ := pmodify (rememberOwner owner) in
        pret (owner, i'))
     (post t (resolved K i)).
Proof.
  intros Hs Hc Hcur Hw Hn Ht Hg Hl Hp Ho Hr Hlock Hpt Hi.
  apply wp_bind, wp_lift_lease; [|intros; apply post_err; lia]. intros gen Hgen.
  apply next_generation_spec in Hgen as (c & Hpc & -> & Hrange); [|done]. rewrite (counter_raw_spec _ Hc) in Hpc. apply Ok_inj in Hpc as <-.
  apply wp_bind, wp_record with K; auto; [|intros; apply post_err; lia].
  intros o Hwf Hog Hot Hol [Hon How] Hos. apply wp_bind, wp_exec.
  - apply (@ok_claim _ scheme me _ K o vg vo); auto.
    + rewrite Hw. by left.
    + rewrite Hw. right. by left.
    + cbn [ow_fence do_scheme owner_fence snd]. rewrite Hog. lia.
    + cbn [ow_lease do_scheme]. by rewrite Hol, Hn.
    + by rewrite Hn.
    + apply pins_of with vp; rewrite ?Hon, ?How, ?Hos; try done. rewrite Hw. do 3 right. by left.
    + apply guards_of with vl; rewrite ?Hon, ?How; try done. rewrite Hw. do 2 right. by left.
  - apply wp_bind, wp_modify; [intros; apply do_remember; [by eapply do_wf_self|done..]|]. split; [simpl; lia|]. by split.
  - intros g' e Hg'. apply post_err. lia.
Qed.

(** The holder rewrites its record, its counter or both. *)
Lemma wp_refresh K g t s cur vg vp n (repair renew : bool) i i' :
  scope_ok K s → owner_wf K cur → of_bundle (sc_ns s) (sc_worker s) cur → do_taskId cur = me →
  lease_ms cur <= lease_until n → g_watch g = ownerKeyOf K :: related_of K s → g_time g = n → t <= n →
  (ownerGenerationKeyOf K, vg) ∈ g_seen g → (doStorageIdKey (sc_ns s) (sc_worker s), vp) ∈ g_seen g →
  (ownerKeyOf K, Some (owner_bytes cur)) ∈ g_seen g →
  ownerStoragePointerMatches (decodeBulk vp) (do_doStorageId cur) = true →
  (repair = true → counter_of vg < do_generation cur) → repair || renew = true →
  in_source i' = in_source i ∧ in_hostId i' = in_hostId i ∧ in_className i' = in_className i →
  wp g (let* renewed := if renew then ownerRecordFor env localTask s (do_generation cur) n else pret cur in
        let* _ := session_exec
          ((if repair then [WSet (ownerGenerationKeyOf K) (generation_bytes (do_generation cur)) None] else [])
           ++ (if renew then stageOwnerRenew (ownerKeyOf K) (owner_bytes renewed) (ownerTtlSeconds env) else [])) in
        let* _ := pmodify (rememberOwner renewed) in
        pret (renewed, i')) (post t (resolved K i)).
Proof.
  intros Hs Hwf [Hns Hw] Htc Hl Hwt Hn Ht Sg Sp So Hpt Hrep Hany Hi.
  assert (∀ o, owner_wf K o → do_taskId o = me → wp (unwatched n) (let* _ := pmodify (rememberOwner o) in pret (o, i')) (post t (resolved K i))) as Hend.
  { intros o Ho Hto. apply wp_bind, wp_modify; [intros; apply do_remember; [by eapply do_wf_self|done..]|]. split; [simpl; lia | by split]. }
  assert (ownerKeyOf K ∈ g_watch g ∧ ownerGenerationKeyOf K ∈ g_watch g ∧ doStorageIdKey (sc_ns s) (sc_worker s) ∈ g_watch g) as (Wo & Wg & Wp)
    by (rewrite Hwt; split_and!; [by left|right; by left|do 3 right; by left]).
  destruct renew.
  - apply wp_bind, wp_record with K; [done|exact (wf_generation _ _ _ _ Hwf)| |intros; apply post_err; lia].
    intros o Ho Hog Hot Hol [Hon How] Hos.
    assert (@continues _ scheme me (g_time g) K cur o) as Hc.
    { split_and!; try done; cbn [ow_fence ow_lease do_scheme]; [|by rewrite Hol|by rewrite Hn, Hol]. unfold owner_fence. by rewrite Hog, Hot, Htc. }
    assert (@pins_seen _ scheme g o) as Hp.
    { apply pins_of with vp; rewrite ?Hon, ?How; try done. by rewrite Hos, <- (same_storage _ _ _ Hwf Hs). }
    apply wp_bind, wp_exec; [|rewrite Hn; by apply Hend|intros; apply post_err; lia]. destruct repair.
    + cbn [app]. rewrite <- Hog. apply (@ok_repair_refresh _ scheme me _ K cur o vg); try done.
      cbn [ow_fence do_scheme owner_fence snd]. rewrite Hog. by apply Hrep.
    + by apply (@ok_refresh _ scheme me _ K cur o).
  - destruct repair; [|done]. apply wp_bind, wp_ret, wp_bind, wp_exec; [|rewrite Hn; by apply Hend|intros; apply post_err; lia].
    apply (@ok_repair _ scheme me _ K cur vg); try done; [by apply Hrep|]. apply pins_of with vp; by rewrite ?Hns, ?Hw.
Qed.

Lemma wp_resolveInSession K s i i0 allow g :
  scope_ok K s → in_source i = in_source i0 → in_hostId i = in_hostId i0 → in_className i = in_className i0 →
  wp g (resolveInSession env IntrinsicURL localTask s i allow) (post (g_time g) (resolved K i0)).
Proof.
  intros Hs E1 E2 E3. pose proof (scope_valid _ _ Hs) as HK. unfold resolveInSession, buildOwnerKey. rewrite (sk_host _ _ Hs).
  fold (related_of K s). apply wp_bind, wp_watch; [|intros; by apply post_err].
  apply wp_bind, wp_snap; [done| |intros; apply post_err; simpl in *; lia]. simpl g_time. intros vo vs o n Hn Hn0 Hvs Hf _.
  apply Forall2_cons_inv_l in Hvs as (vg & r & Hvg & Hvs & ->). apply Forall2_cons_inv_l in Hvs as (vl & r' & _ & Hvs & ->).
  apply Forall2_cons_inv_l in Hvs as (vp & r & _ & Hvs & ->). apply Forall2_cons_inv_l in Hvs as (vs & r' & _ & ->%Forall2_nil_inv_l & ->).
  apply generation_read in Hvg; [|done]. cbv beta iota.
  change (related [vg; vl; vp; vs] 0) with (decodeBulk vg). change (related [vg; vl; vp; vs] 1) with (decodeBulk vl).
  change (related [vg; vl; vp; vs] 2) with (decodeBulk vp). change (related [vg; vl; vp; vs] 3) with (decodeBulk vs).
  change (rev (zip (related_of K s) [vg; vl; vp; vs]) ++ (ownerKeyOf K, vo) :: g_seen (Ghost (ownerKeyOf K :: related_of K s) [] (g_time g)))
    with [(sessionPolicyKey (sc_ns s) (sc_worker s), vs); (doStorageIdKey (sc_ns s) (sc_worker s), vp);
          (deleteLockKey (sc_ns s) (sc_worker s), vl); (ownerGenerationKeyOf K, vg); (ownerKeyOf K, vo)].
  cbn [g_watch]. set (seen := [_; _; _; _; _]). set (g1 := Ghost _ seen n).
  assert ((ownerKeyOf K, vo) ∈ seen) as So by (do 4 right; by left). assert ((ownerGenerationKeyOf K, vg) ∈ seen) as Sg by (do 3 right; by left).
  assert ((deleteLockKey (sc_ns s) (sc_worker s), vl) ∈ seen) as Sl by (do 2 right; by left).
  assert ((doStorageIdKey (sc_ns s) (sc_worker s), vp) ∈ seen) as Sp by (right; by left). clearbody seen.
  apply wp_bind, wp_plift; [|intros; by apply post_err]. intros i' (F1 & F2 & F3 & _)%policy_keeps.
  assert (in_source i' = in_source i0 ∧ in_hostId i' = in_hostId i0 ∧ in_className i' = in_className i0) as Hi by (split_and!; congruence).
  clear F1 F2 F3 E1 E2 E3. destruct (deleteLockAllowsActiveStorage (decodeBulk vl)) eqn:El; cbn [negb]; [|by apply wp_unwatch_throw].
  assert (∀ c, 0 <= c → @may_replace _ scheme me n K vo →
    wp g1 (let* _ := throwIfDraining in
           if negb (ownerStoragePointerMatches (decodeBulk vp) (sc_doStorageId s)) then
             let* _ := session_unwatch in forgetAndThrow K "stale_owner_storage"
           else
             let* generation := lift_lease (nextOwnerGenerationFromSnapshot (decodeBulk vg) c) in
             let* owner := ownerRecordFor env localTask s generation n in
             let* _ := session_exec (stageClaim env K owner) in
             let* _ := pmodify (rememberOwner owner) in
             pret (owner, i')) (post (g_time g) (resolved K i0))) as Hclaim.
  { intros c Hc Hr. apply wp_bind, wp_draining; [|intros; by apply post_err].
    destruct (ownerStoragePointerMatches _ _) eqn:Eptr; cbn [negb]; [|by apply wp_unwatch_throw].
    by eapply wp_do_claim with (vl := vl) (vp := vp) (vo := vo). }
  destruct Hf as [[-> ->]|(cur & -> & -> & Hwf & [Hns Hw] & Hl)]; [by apply Hclaim; [done|intros b [=]]|].
  change (@ow_wf _ scheme K cur) with (owner_wf K cur) in Hwf.
  destruct (expired cur n) eqn:Ee.
  { apply Hclaim; [pose proof (wf_generation _ _ _ _ Hwf); lia|]. intros b [= <-]. exists cur. split_and!; try done. left.
    rewrite (do_expired_wf _ _ _ _ _ Hwf) in Ee. to_prop. done. }
  destruct (ownerStoragePointerMatches (decodeBulk vp) (do_doStorageId cur)) eqn:Ept; cbn [negb]; [|by apply wp_unwatch_throw].
  destruct (jeqb (do_taskId cur) me) eqn:Et; cbn [negb].
  2:{ apply wp_bind, wp_unwatch; [|intros; apply post_err; simpl in *; lia].
      apply wp_bind, wp_modify; [by intros; apply do_forget|]. split; [simpl; lia | by split]. }
  apply jeqb_eq in Et. apply wp_bind, wp_draining; [|intros; by apply post_err].
  apply wp_bind, wp_localCounter; [done|]. intros c Hc. cbv zeta.
  apply wp_bind, wp_plift; [|intros; by apply post_err]. intros renew _.
  destruct (negb (c <? do_generation cur) && negb renew) eqn:Eb.
  { apply wp_bind, wp_unwatch; [|intros; apply post_err; simpl in *; lia].
    apply wp_bind, wp_modify; [intros; apply do_remember; [by eapply do_wf_self|done..]|]. split; [simpl; lia | by split]. }
  apply wp_refresh with (s := s) (vg := vg) (vp := vp); try done.
  - intros Hlt. destruct Hc as [->| ->]; lia.
  - destruct (c <? do_generation cur), renew; done.
Qed.

(** An invoke for host [K] that names the worker its storage was made for. *)
Record scoped (K : jstr) (i : DoInvoke) : Prop := {
  sd_host : in_hostId i = K;
  sd_shard : ∃ n, hostIdForShard (bs_doStorageId (in_source i)) (in_className i) (NInt n) = Ok K;
  sd_home : home (bs_doStorageId (in_source i)) = (bs_ns (in_source i), bs_worker (in_source i)) }.

Lemma scoped_valid K i : scoped K i → valid_key K.
Proof. intros []. destruct sd_shard0 as [n ?]. by eexists _, _, _. Qed.

Lemma scope_of K i s : scoped K i → requireInvokeScope i = Ok s → scope_ok K s.
Proof.
  intros [Hh [n Hn] Hm]. unfold requireInvokeScope. destruct (_ || _ || _) eqn:E; [done|]. intros <-%Ok_inj.
  apply orb_false_iff in E as [[_ E]%orb_false_iff _]. apply negb_false_iff in E. split; try done. by exists n.
Qed.

Lemma wp_do_retries {A} g t (op : prog local A) code P :
  t <= g_time g → (∀ g0, t <= g_time g0 → wp g0 op (post t P)) → wp g (withWatchRetries op code) (post t P).
Proof. apply wp_retries. Qed.

Lemma wp_resolveDoOwner K i allow g : scoped K i →
  wp g (resolveDoOwner env IntrinsicURL localTask i allow) (post (g_time g) (resolved K i)).
Proof.
  intros Hi. pose proof (scoped_valid _ _ Hi) as HK. unfold resolveDoOwner, buildOwnerKey.
  apply wp_bind, wp_plift; [|intros; by apply post_err]. intros s Hs%(scope_of K); [|done]. rewrite (sk_host _ _ Hs).
  fold (related_of K s). apply wp_bind, wp_snap; [done| |intros; by apply post_err]. intros vo vs o n Hn Hn0 Hvs Hf _.
  apply Forall2_cons_inv_l in Hvs as (vg & r & Hvg & Hvs & ->). apply Forall2_cons_inv_l in Hvs as (vl & r' & _ & Hvs & ->).
  apply Forall2_cons_inv_l in Hvs as (vp & r & _ & Hvs & ->). apply Forall2_cons_inv_l in Hvs as (vs & r' & _ & ->%Forall2_nil_inv_l & ->).
  apply generation_read in Hvg; [|done]. cbv beta iota. set (g1 := Ghost _ _ n).
  apply wp_bind, wp_plift; [|intros; by apply post_err]. intros i' (F1 & F2 & F3 & _)%policy_keeps. cbv zeta.
  assert (∀ g2, g_time g <= g_time g2 → wp g2 (withWatchRetries (resolveInSession env IntrinsicURL localTask s i' allow) "owner_claim_raced")
    (post (g_time g) (resolved K i))) as Hses.
  { intros g2 Hg2. apply wp_do_retries; [done|]. intros g0 Hg0. eapply wp_mono; [by apply (wp_resolveInSession K s i' i)|].
    intros g3 r. by apply post_weaken. }
  destruct (deleteLockAllowsActiveStorage _); cbn [negb]; [|by apply wp_forget_throw].
  destruct Hf as [[-> ->]|(cur & -> & -> & Hwf & _ & Hl)].
  { apply wp_bind, wp_draining; [by apply Hses|intros; by apply post_err]. }
  change (@ow_wf _ scheme K cur) with (owner_wf K cur) in Hwf.
  destruct (expired cur n); [apply wp_bind, wp_draining; [by apply Hses|intros; by apply post_err]|].
  destruct (ownerStoragePointerMatches _ _); cbn [negb]; [|by apply wp_forget_throw].
  destruct (jeqb (do_taskId cur) me) eqn:Et; cbn [negb].
  2:{ apply wp_bind, wp_modify; [by intros; apply do_forget|]. split; [done | by split]. }
  apply jeqb_eq in Et. apply wp_bind, wp_draining; [|intros; by apply post_err].
  change (related [vg; vl; vp; vs] 0) with (decodeBulk vg). apply wp_bind, wp_localCounter; [done|]. intros c _.
  destruct (_ <? _); [by apply Hses|]. apply wp_bind, wp_plift; [|intros; by apply post_err]. intros [|] _; [by apply Hses|].
  apply wp_bind, wp_modify; [intros; apply do_remember; [by eapply do_wf_self|done..]|]. split; [done | by split].
Qed.

(** *** Renewal *)

(** From [t0] on the clock showed [n], and the record stood under the key of its host, before
    the clock was read, or as a renewal granted at [n] and stored after that. *)
Definition seen_lease (t0 : Z) (K : jstr) (o : DoOwner) (n : Z) : Prop :=
  t0 <= n ∧ was_time n ∧
  ((∃ t, t0 <= t <= n ∧ was_stored t (ownerKeyOf K) (owner_bytes o)) ∨
   (lease_ms o = lease_until n ∧ ∃ t, n <= t ∧ was_stored t (ownerKeyOf K) (owner_bytes o))).

Lemma seen_lease_weaken t0 t1 K o n : t0 <= t1 → seen_lease t1 K o n → seen_lease t0 K o n.
Proof. intros Ht (H1 & H2 & H3). split_and!; [lia|done|]. destruct H3 as [(t & ? & ?)|?]; [left; exists t; split; [lia|done]|by right]. Qed.

Definition renewal_ok (t0 : Z) (K : jstr) (f : fence) (r : renewal) : Prop :=
  match rn_owner r with
  | Some o => owner_wf K o ∧ (rn_renewed r = true → owner_fence o = f ∧ seen_lease t0 K o (rn_nowMs r))
  | None => rn_renewed r = false
  end.

Lemma wp_do_renew K n : ∀ g o, owner_wf K o → do_taskId o = me →
  wp g (renewAttempts env IntrinsicURL localTask n o) (post (g_time g) (renewal_ok (g_time g) K (owner_fence o))).
Proof.
  induction n as [|n IH]; intros g o Hwf Ht; cbn [renewAttempts]; [by apply post_err|]. rewrite (wf_ownerKey _ _ _ _ Hwf).
  apply wp_bind, wp_snap; [by eapply do_wf_valid| |intros; by apply post_err]. intros vo vs c m Hm Hm0 Hvs Hf [Htime _].
  apply Forall2_cons_inv_l in Hvs as (vp & r & _ & ->%Forall2_nil_inv_l & ->). cbv beta iota zeta.
  set (g1 := Ghost _ _ m). change (related [vp] 0) with (decodeBulk vp).
  assert (∀ g2, g_time g <= g_time g2 → (∀ cur, c = Some cur → owner_wf K cur) →
    wp g2 (let* _ := pmodify (forgetOwnedScope K) in pret (Renewal false c m)) (post (g_time g) (renewal_ok (g_time g) K (owner_fence o)))) as Hlost.
  { intros g2 Hg2 Hc. apply wp_bind, wp_modify; [by intros; apply do_forget|]. split; [done|]. unfold renewal_ok. cbn [rn_owner rn_renewed].
    destruct c as [cur|]; [|done]. split; [by apply Hc|done]. }
  destruct Hf as [[-> ->]|(cur & -> & -> & Hcur & [Hns Hw] & Hl)]; [by apply Hlost|].
  change (@ow_wf _ scheme K cur) with (owner_wf K cur) in Hcur.
  assert (∀ g2, g_time g <= g_time g2 → wp g2 (let* _ := pmodify (forgetOwnedScope K) in pret (Renewal false (Some cur) m))
    (post (g_time g) (renewal_ok (g_time g) K (owner_fence o)))) as Hlost' by (intros; apply Hlost; [done|]; by intros ? [= <-]). clear Hlost.
  cbn [fmap option_fmap option_map]. destruct (ownerFenceMatches _ _) eqn:Ef; cbn [negb]; [|by apply Hlost']. apply fence_match_spec in Ef.
  destruct (ownerHasStoragePointer cur); cbn [negb]; [|by apply Hlost'].
  destruct (ownerStoragePointerMatches (decodeBulk vp) (do_doStorageId cur)); cbn [negb]; [|by apply Hlost'].
  destruct (expired cur m); [by apply Hlost'|].
  assert (do_taskId cur = me) as Htc by (injection Ef as -> _; done).
  apply wp_bind, wp_renewed_record with K; [done..| |intros; by apply post_err]. intros o' Ho' Hf' Hl' En Ew Es.
  apply wp_bind, wp_renew_fenced.
  - apply (@ok_renew_fenced _ scheme me _ K cur o' _ (points_to (do_doStorageId cur))).
    + split_and!; try done; cbn [ow_lease do_scheme]; by rewrite Hl'.
    + cbn [ow_pins do_scheme]. by rewrite En, Ew, Es, Hns, Hw.
    + unfold points_to. destruct (wf_shard _ _ _ _ Hcur) as [sh Hsh]. apply key_ascii in Hsh as (_ & _ & Ha & Hne & _).
      apply utf8_roundtrip; [by apply ascii_units|by apply text_ok_ascii|]. destruct (do_doStorageId cur) as [|c0 r0]; [done|].
      apply Forall_cons in Ha as [Ha _]. intros [= ->]. unfold BOM in Ha. lia.
  - intros res Hres. destruct (Z.eqb_spec res 1) as [Eres|].
    + apply wp_bind, wp_modify.
      { intros; apply do_remember; [by eapply do_wf_self| |done]. by injection Hf' as -> _. }
      split; [done|]. split; [done|]. intros _. split; [congruence|]. split_and!; [done|done|]. right. split; [done|].
      destruct (Hres Eres) as (t & Ht' & Hst). exists t. by split.
    + destruct (res =? -1); [by apply Hlost'|]. eapply wp_mono; [by apply IH|]. intros g2 [r|e] [Hg2 Hr]; (split; [simpl in Hg2; lia|]); [|done].
      unfold renewal_ok in *. destruct (rn_owner r) as [o2|]; [|done]. destruct Hr as [Ho2 Hr]. split; [done|]. intros E.
      destruct (Hr E) as [? ?]. split; [done|]. by eapply seen_lease_weaken.
  - intros g2 e Hg2. apply post_err. simpl in Hg2. lia.
Qed.

(** An owner this task may release or renew. *)
Definition mine (o : DoOwner) : Prop := owner_wf (do_ownerKey o) o ∧ do_taskId o = me.

Lemma mine_owned l : local_ok l → Forall mine (map snd (ownedScopes l)).
Proof.
  intros []. apply Forall_map. eapply Forall_impl; [exact lo_owned0|]. intros [k o] [Hwf Ht]. split; [by eapply do_wf_self|done].
Qed.

Lemma wp_renewNextScope entries : ∀ g counts, Forall mine entries →
  wp g (renewNextScope env IntrinsicURL localTask entries counts) (post (g_time g) (λ _, True)).
Proof.
  induction entries as [|o entries IH]; intros g [[a b] c] Ho; cbn [renewNextScope]; [by split|].
  apply Forall_cons in Ho as [[Hwf Ht] Ho]. apply wp_bind, wp_catch, wp_bind. eapply wp_mono; [by apply wp_do_renew|].
  assert (∀ g1 cs, g_time g <= g_time g1 → wp g1 (renewNextScope env IntrinsicURL localTask entries cs) (post (g_time g) (λ _, True))) as Hk.
  { intros g1 cs Hg1. eapply wp_mono; [by apply IH|]. intros g2 r. by apply post_weaken. }
  intros g1 [r|e] [Hg1 _]; apply wp_ret; by apply Hk.
Qed.

Lemma wp_renewOwnedScopes g : wp g (renewOwnedScopes env IntrinsicURL localTask) (post (g_time g) (λ _, True)).
Proof.
  intros l Hl. destruct (draining l); [by split|]. apply wp_bind. eapply wp_mono; [by apply wp_renewNextScope, mine_owned|].
  intros g1 [r|e] [Hg1 _]; by split.
Qed.

(** *** Release *)

Lemma do_entries owners : Forall mine owners →
  Forall (@entry_ok _ scheme me (λ raw expected, parseOwner IntrinsicURL raw (do_ownerKey expected) None))
    (map (λ o, (ownerKeyOf (do_ownerKey o), o)) owners).
Proof.
  intros H. apply Forall_map. eapply Forall_impl; [exact H|]. intros o [Hwf Ht].
  exists (do_ownerKey o). simpl. split_and!; try done. apply reads_any.
Qed.

Lemma wp_do_releaseOwners owners g : Forall mine owners →
  wp g (releaseOwners IntrinsicURL owners) (post (g_time g) (λ _, True)).
Proof.
  intros Ho. unfold releaseOwners. apply wp_bind. eapply wp_mono; [by apply (@wp_releaseBatches _ _ scheme Hist), do_entries|].
  intros g1 [rs|e] [Hg1 _]; [|by apply post_err]. apply wp_bind, wp_modify; [|by split].
  intros l Hl. revert l Hl. clear Ho. generalize (zip owners rs). induction l as [|[o r] ps IH]; intros l Hl; cbn [fold_left]; [done|].
  apply IH. destruct r; cbn [forgetReleased fst snd]; auto using do_forget.
Qed.

Lemma wp_drainOwnedScopes g : wp g (drainOwnedScopes IntrinsicURL) (post (g_time g) (λ _, True)).
Proof.
  unfold drainOwnedScopes. apply wp_bind. intros l Hl. apply wp_ret, wp_bind, wp_catch.
  eapply wp_mono; [by apply wp_do_releaseOwners, mine_owned|]. intros g1 [rs|e] [Hg1 _]; by split.
Qed.

(** *** Dispatch *)

(** What the fence of a dispatch grants: the record of the host under the fence asked for, of
    the storage of the invoke, with the guard time left on its lease at the time read. *)
Definition fenced_ok (t0 : Z) (K : jstr) (f : OwnerFence) (i : DoInvoke) (r : fenced * DoInvoke) : Prop :=
  (∃ n, seen_lease t0 K (fn_owner r.1) n ∧ fn_leaseRemainingMs r.1 = lease_ms (fn_owner r.1) - n) ∧
  owner_wf K (fn_owner r.1) ∧ owner_fence (fn_owner r.1) = (of_taskId f, of_generation f) ∧
  do_doStorageId (fn_owner r.1) = bs_doStorageId (in_source i) ∧
  ownerLeaseGuardMs env <= fn_leaseRemainingMs r.1 ∧
  in_source r.2 = in_source i ∧ in_hostId r.2 = in_hostId i ∧ in_className r.2 = in_className i.

Lemma wp_do_assert K f i policy renew g : scoped K i → of_ownerKey f = K → of_taskId f = me →
  wp g (assertCurrentOwnerWithLeaseBudget env IntrinsicURL localTask (Some f) i policy renew) (post (g_time g) (fenced_ok (g_time g) K f i)).
Proof.
  intros Hi HKf Htf. pose proof (scoped_valid _ _ Hi) as HK. unfold assertCurrentOwnerWithLeaseBudget. rewrite HKf.
  destruct (jeqb K [] || _); [by apply post_err|]. destruct (negb (isValidStorageScope _ _ _)); [by apply post_err|].
  apply wp_bind, wp_snap; [done| |intros; by apply post_err]. intros vo vs o n Hn Hn0 Hvs Hf [Htime (t1 & Ht1 & Hheld)]. clear Hvs. cbv beta iota zeta.
  set (g1 := Ghost _ _ n). destruct Hf as [[-> ->]|(cur & -> & -> & Hwf & _ & Hl)]; [by apply wp_forget_throw|].
  change (@ow_wf _ scheme K cur) with (owner_wf K cur) in Hwf.
  cbn [fmap option_fmap option_map]. destruct (ownerFenceMatches _ _) eqn:Ef; cbn [negb]; [|by apply wp_forget_throw]. apply fence_match_spec in Ef.
  destruct (expired cur n); [by apply wp_forget_throw|].
  destruct (jeqb (do_doStorageId cur) _ && _) eqn:Es; cbn [negb]; [|by apply wp_forget_throw]. apply andb_prop in Es as [Es%jeqb_eq _].
  destruct (negb (deleteLockAllowsActiveStorage _)); [by apply wp_forget_throw|]. apply wp_bind.
  assert (∀ i', in_source i' = in_source i → in_hostId i' = in_hostId i → in_className i' = in_className i →
    wp g1 (if lease_ms cur - n <? ownerLeaseGuardMs env then
             if renew then
               let* renewed := renewOwner env IntrinsicURL localTask cur in
               match rn_owner renewed with
               | Some o =>
                   if rn_renewed renewed && ownerFenceMatches (Some (owner_fence o)) (Some (of_taskId f, of_generation f))
                      && (ownerLeaseGuardMs env <=? lease_ms o - rn_nowMs renewed)
                   then pret (Fenced o (lease_ms o - rn_nowMs renewed), i')
                   else forgetAndThrow K "owner_lease_too_short"
               | None => forgetAndThrow K "owner_lease_too_short"
               end
             else forgetAndThrow K "owner_lease_too_short"
           else pret (Fenced cur (lease_ms cur - n), i')) (post (g_time g) (fenced_ok (g_time g) K f i))) as Hk.
  { intros i' E1 E2 E3. destruct (Z.ltb_spec (lease_ms cur - n) (ownerLeaseGuardMs env)).
    2: { split; [done|]. split; [|by split_and!]. exists n. split; [|done]. split_and!; [done|done|]. left. exists t1. split; [done|]. by apply Hheld. }
    destruct renew; [|by apply wp_forget_throw]. apply wp_bind.
    eapply wp_mono; [apply (wp_do_renew K); [done|injection Ef as -> _; done]|].
    intros g2 [r|e] [Hg2 Hr]; simpl in Hg2; [|apply post_err; lia]. unfold renewal_ok in Hr.
    destruct (rn_owner r) as [o|]; [|apply wp_forget_throw; lia]. destruct Hr as [Ho Hseen].
    destruct (rn_renewed r && _ && _) eqn:Eb; [|apply wp_forget_throw; lia].
    apply andb_prop in Eb as [[Er Eb%fence_match_spec]%andb_prop Hg%Z.leb_le]. split; [lia|]. destruct (Hseen Er) as [_ Hs].
    split; [exists (rn_nowMs r); split; [by eapply seen_lease_weaken|done]|]. split_and!; try done. cbn [fn_owner].
    rewrite <- Es. destruct (wf_shard _ _ _ _ Ho) as [n1 Hn1], (wf_shard _ _ _ _ Hwf) as [n2 Hn2].
    apply (same_storage K o (MkScope K (do_className cur) (do_ns cur) (do_worker cur) (do_doStorageId cur))); [done|].
    destruct Hwf. split; try done. }
  destruct policy.
  - apply wp_plift; [|intros; by apply post_err]. intros i' (F1 & F2 & F3 & _)%policy_keeps. by apply Hk.
  - apply wp_ret. by apply Hk.
Qed.

Lemma scoped_same K i i' : scoped K i → in_source i' = in_source i → in_hostId i' = in_hostId i → in_className i' = in_className i → scoped K i'.
Proof. intros [] E1 E2 E3. split; rewrite ?E1, ?E2, ?E3; done. Qed.

Lemma do_begin l ok l' : local_ok l → beginInFlightDispatch l = (ok, l') → local_ok l'.
Proof. unfold beginInFlightDispatch. intros [] E. destruct (draining l); simplify_eq; split; simpl; try done; lia. Qed.

Lemma do_end l : local_ok l → local_ok (endInFlightDispatch l).
Proof. intros []. split; [done|]. cbn [endInFlightDispatch inFlightRequests]. destruct (Z.ltb_spec 0 (inFlightRequests l)); lia. Qed.

Lemma wp_dispatchWithFence K f i remembered g : scoped K i → in_owner i = Some f → of_ownerKey f = K → of_taskId f = me →
  wp g (dispatchWithFence env IntrinsicURL localTask i remembered)
     (post (g_time g) (λ r, fenced_ok (g_time g) K f i r ∧ 0 < fn_leaseRemainingMs r.1)).
Proof.
  intros Hi Ho HKf Htf. unfold dispatchWithFence. rewrite Ho. apply wp_bind. intros l Hl.
  destruct (beginInFlightDispatch l) as [ok l'] eqn:Eb. split; [by eapply do_begin|]. apply wp_ret. destruct ok; cbn [negb]; [|by apply post_err].
  apply wp_catch, wp_bind. eapply wp_mono; [by apply (wp_do_assert K f i)|].
  assert (∀ g' e, g_time g <= g_time g' → wp g' (let* _ := pmodify endInFlightDispatch in pthrow e)
    (post (g_time g) (λ r, fenced_ok (g_time g) K f i r ∧ 0 < fn_leaseRemainingMs r.1))) as Hend.
  { intros g' e Hg'. apply wp_bind, wp_modify; [by intros; apply do_end|by apply post_err]. }
  intros g1 [r1|e] [Hg1 H1]; [|by apply Hend]. apply wp_bind.
  eapply wp_mono with (Q := post (g_time g1) (fenced_ok (g_time g) K f i)).
  { destruct remembered; [|by apply wp_ret]. destruct H1 as (_ & _ & _ & _ & _ & E1 & E2 & E3).
    eapply wp_mono; [by apply (wp_do_assert K f r1.2); [by eapply scoped_same|..]|]. intros g2 [r2|e] [Hg2 H2]; [|by apply post_err].
    split; [done|]. destruct H2 as ((n & Hn & Hrem) & H21 & H22 & H23 & H24 & H25 & H26 & H27).
    split; [exists n; split; [by eapply seen_lease_weaken|done]|]. split_and!; congruence. }
  intros g2 [r2|e] [Hg2 H2]; [|apply Hend; lia]. cbv zeta.
  destruct (Z.leb_spec (fn_leaseRemainingMs r2.1) 0).
  { apply wp_bind, wp_modify; [by intros; apply do_forget|]. apply wp_throw, Hend. lia. }
  destruct (_ <? _).
  { apply wp_bind, wp_modify; [by intros; apply do_forget|]. apply wp_throw, Hend. lia. }
  split; [lia|]. by split.
Qed.

(** A dispatch goes to the owner of the host or to the local actor, with a fence of this task. *)
Definition route_ok (K : jstr) (i : DoInvoke) (r : route) : Prop :=
  match r with
  | ToOwner o => owner_wf K o ∧ do_taskId o ≠ me
  | ToActor i' => scoped K i' ∧ in_source i' = in_source i ∧ ∃ f, in_owner i' = Some f ∧ of_ownerKey f = K ∧ of_taskId f = me
  end.

Lemma wp_dispatchToOwner K i allow g : scoped K i →
  wp g (dispatchToOwner env IntrinsicURL localTask i allow) (post (g_time g) (route_ok K i)).
Proof.
  intros Hi. unfold dispatchToOwner. apply wp_bind. intros l Hl. apply wp_ret.
  destruct (localOwnerFromFence localTask i l) as [f|] eqn:Ef.
  - unfold localOwnerFromFence in Ef. destruct (in_owner i) as [f'|] eqn:Eo; [|done].
    destruct (jm_get _ _); [|done]. destruct (_ || _) eqn:Eb; [done|]. simplify_eq.
    repeat (apply orb_false_iff in Eb as [Eb ?]). apply negb_false_iff, jeqb_eq in Eb. split; [done|].
    split; [by eapply scoped_same|]. split; [done|]. exists f. rewrite (sd_host _ _ Hi) in Eb. split_and!; try done.
    by match goal with H : negb (jeqb (of_taskId f) me) = false |- _ => apply negb_false_iff, jeqb_eq in H end.
  - apply wp_bind. eapply wp_mono; [by apply wp_resolveDoOwner|]. intros g1 [[o i']|e] [Hg Hr]; [|by apply post_err].
    destruct Hr as (Hwf & E1 & E2 & E3); cbn [fst snd] in *.
    destruct (negb _) eqn:Et; (split; [done|]).
    + split; [done|]. apply negb_true_iff in Et. intros E. by rewrite E, jeqb_refl in Et.
    + apply negb_false_iff, jeqb_eq in Et. split; [by eapply scoped_same|]. split; [done|].
      exists (ownerFence o). split_and!; try done. apply (wf_ownerKey _ _ _ _ Hwf).
Qed.
End handlers.
