(* ===== verification/DoOwnerWorld.v ===== *)
(** * The Durable Object owner protocol in every interleaving

    Worlds of any number of Durable Object tasks and the control plane over one Redis server.
    Index 0 is the control plane, which moves storage pointers and delete locks and ends the
    ownership of the hosts of a deleted worker; index [S t] is task [t]. *)

From stdpp Require Import base list strings gmap.
From Stdlib Require Import ZArith Lia.
From S2P Require Import Prelude JsMap NsPattern WorkerContract Utf8 Json JsNumber OwnerLease Redis OwnerProtocol OwnerLogic OwnerWorld JsonView DoProtocol DoOwner DoOwnerSafety.

#[local] Open Scope Z_scope.
#[local] Open Scope wdl_scope.

(** What a handler answers: the task to forward to, what the fence of a dispatch granted. *)
Inductive do_answer :=
| AnsForward (o : DoOwner)
| AnsDispatch (asked : DoInvoke) (granted : fenced * DoInvoke)
| AnsRenewed (r : renewal)
| AnsOk.

Section world.
Context (env : fields) (IntrinsicURL : jstr → option url_parts) (JSON : jsval → option jstr).
Context (home : jstr → jstr * jstr) (tasks : nat → LocalTask).

Abbreviation owner_wf := (owner_wf IntrinsicURL home).
Abbreviation scheme := (do_scheme env IntrinsicURL home).
Abbreviation scoped := (scoped home).

Definition do_names (t : nat) : jstr := match t with O => [] | S t => lt_taskId (tasks t) end.

(** [dispatchToOwner] with the local actor's dispatch. *)
Definition serveDispatch (task : LocalTask) (invoke : DoInvoke) (allowSupersededVersion remembered : bool) : prog local do_answer :=
  let* r := dispatchToOwner env IntrinsicURL task invoke allowSupersededVersion in
  match r with
  | ToOwner o => pret (AnsForward o)
  | ToActor i => let* f := dispatchWithFence env IntrinsicURL task i remembered in pret (AnsDispatch i f)
  end.

(** [handleInvoke] *)
Definition handleInvoke (task : LocalTask) (request : Request) (remembered : bool) : prog local do_answer :=
  let* invoke := plift (readDoInvokeRequest IntrinsicURL JSON request) in
  serveDispatch task invoke false remembered.

(** The invoke names the worker its storage was made for. *)
Definition at_home (i : DoInvoke) : Prop :=
  home (bs_doStorageId (in_source i)) = (bs_ns (in_source i), bs_worker (in_source i)).

(** The handlers of the HTTP layer, the timers of running dispatches, and the control plane. *)
Inductive do_api : nat → prog local do_answer → Prop :=
| api_invoke t request remembered :
    (∀ i, readDoInvokeRequest IntrinsicURL JSON request = Ok i → at_home i) →
    do_api (S t) (handleInvoke (tasks t) request remembered)
| api_dispatch t K i allow remembered : scoped K i →
    do_api (S t) (serveDispatch (tasks t) i allow remembered)
| api_budget t K f i policy renew : scoped K i → of_ownerKey f = K → of_taskId f = lt_taskId (tasks t) →
    do_api (S t) (let* _ := assertCurrentOwnerWithLeaseBudget env IntrinsicURL (tasks t) (Some f) i policy renew in pret AnsOk)
| api_do_renew t K o : owner_wf K o → do_taskId o = lt_taskId (tasks t) →
    do_api (S t) (let* r := renewOwner env IntrinsicURL (tasks t) o in pret (AnsRenewed r))
| api_renew_all t : do_api (S t) (let* _ := renewOwnedScopes env IntrinsicURL (tasks t) in pret AnsOk)
| api_do_drain t : do_api (S t) (let* _ := drainOwnedScopes IntrinsicURL in pret AnsOk)
| api_write t ws : Forall (@foreign_write _ scheme) ws → do_api t (let* _ := session_exec ws in pret AnsOk)
| api_retire Ks ws : Forall (@foreign_write _ scheme) ws → Forall (@unpinned _ scheme ws) Ks →
    do_api O (let* _ := session_exec (ws ++ @retire_writes _ scheme Ks) in pret AnsOk).

(** What else happens to a task's state: it drains, dispatches end. *)
Inductive do_tick (l : local) : local → Prop :=
| tick_draining b : do_tick l (setDraining b l)
| tick_done : do_tick l (endInFlightDispatch l).

Context {Hist : History}.

(** A dispatch begun at [t0] runs under the fence it was given, of this task, on the storage of
    its invoke, with the guard time left on the lease it saw. *)
Definition fence_granted (t0 : Z) (me : jstr) (i : DoInvoke) (r : fenced) : Prop :=
  ∃ f n, in_owner i = Some f ∧ of_taskId f = me ∧ owner_fence (fn_owner r) = (of_taskId f, of_generation f) ∧
  do_ownerKey (fn_owner r) = in_hostId i ∧ do_doStorageId (fn_owner r) = bs_doStorageId (in_source i) ∧
  seen_lease env IntrinsicURL home t0 (in_hostId i) (fn_owner r) n ∧ fn_leaseRemainingMs r = lease_ms (fn_owner r) - n ∧
  ownerLeaseGuardMs env <= fn_leaseRemainingMs r ∧ 0 < fn_leaseRemainingMs r.

Definition do_answer_ok (t0 : Z) (t : nat) (r : result jserr do_answer) : Prop :=
  match r with Ok (AnsDispatch i f) => fence_granted t0 (do_names t) i f.1 | _ => True end.

(** A request the protocol reads is of one host. *)
Lemma read_scoped request i : readDoInvokeRequest IntrinsicURL JSON request = Ok i → at_home i → scoped (in_hostId i) i.
Proof.
  intros H Hh. split; [done| |done].
  assert (∃ j, invoke_ok IntrinsicURL JSON j ∧ in_source i = in_source j ∧ in_hostId i = in_hostId j ∧ in_className i = in_className j)
    as (j & Hj & -> & -> & ->).
  { unfold readDoInvokeRequest in H. destruct (negb _); [done|]. apply rbind_Ok_inv in H as (b & _ & H).
    apply rbind_Ok_inv in H as (d & _ & H). apply rbind_Ok_inv in H as (i' & Hi & H). apply rbind_Ok_inv in H as (ho & _ & H).
    unfold invokeWithEnvelopeBody in Hi. apply rbind_Ok_inv in Hi as (j & Hj%invoke_normalised & Hi). exists j. split; [done|].
    assert (in_source i' = in_source j ∧ in_hostId i' = in_hostId j ∧ in_className i' = in_className j) as (<- & <- & <-).
    { destruct d.2; [by apply Ok_inj in Hi as ->|]. destruct (in_payload j); [|done..]. by apply Ok_inj in Hi as <-. }
    destruct ho as [h|], (in_owner i') as [o|]; repeat case_match; try done; apply Ok_inj in H as <-; done. }
  destruct (host_id_for_object _ _ _ _ (io_host _ _ _ Hj)) as (n & _ & Hn). by exists n.
Qed.

Hypothesis Htasks : ∀ t, task_ok IntrinsicURL (tasks t).

Abbreviation wp t := (@wp _ _ scheme Hist (local_ok IntrinsicURL home (lt_taskId (tasks t))) (lt_taskId (tasks t)) _).

Lemma wp_serve t K i allow remembered g : scoped K i →
  wp t g (serveDispatch (tasks t) i allow remembered) (λ _, do_answer_ok (g_time g) (S t)).
Proof.
  intros Hi. unfold serveDispatch. apply wp_bind. eapply wp_mono; [by apply (wp_dispatchToOwner env IntrinsicURL home (tasks t) (Htasks t) K)|].
  intros g1 [[o|i']|e] [Hg1 Hr]; [done| |done]. destruct Hr as (Hi' & _ & f & Ho & HK & Ht).
  apply wp_bind. eapply wp_mono; [by apply (wp_dispatchWithFence env IntrinsicURL home (tasks t) (Htasks t) K f i')|].
  intros g2 [[r j]|e] [_ Hd]; [|done]. destruct Hd as [((n & Hn & Hrem) & Hwf & Hf & Hs & Hg & _) Hp]. cbn [fst] in *.
  pose proof (sd_host _ _ _ Hi') as Eh. exists f, n. cbn [fst]. rewrite (wf_ownerKey _ _ _ _ Hwf), Eh. split_and!; try done.
  by eapply seen_lease_weaken.
Qed.

Lemma do_api_ok t p g t0 : t0 <= g_time g → do_api t p →
  @OwnerLogic.wp _ _ scheme Hist (local_ok IntrinsicURL home (do_names t)) (do_names t) _ g p (λ _, do_answer_ok t0 t).
Proof.
  intros Ht0 Hp. assert (∀ t' r, do_answer_ok (g_time g) t' r → do_answer_ok t0 t' r) as Hweak.
  { intros t' [[o|i [r j]|r|]|e]; cbn; try done. intros (f & n & H1 & H2 & H3 & H4 & H5 & H6 & H7). exists f, n. split_and!; [done..|by eapply seen_lease_weaken|apply H7|apply H7|apply H7]. }
  destruct Hp; cbn [do_names].
  - apply wp_mono with (Q := λ _, do_answer_ok (g_time g) (S t)); [|intros; by apply Hweak]. unfold handleInvoke. apply wp_bind, wp_plift; [|done]. intros i Hi.
    eapply wp_serve. by apply (read_scoped request); auto.
  - apply wp_mono with (Q := λ _, do_answer_ok (g_time g) (S t)); [by eapply wp_serve|intros; by apply Hweak].
  - apply wp_bind. eapply wp_mono; [by apply (wp_do_assert env IntrinsicURL home (tasks t) (Htasks t) K)|]. by intros g' [?|?] _.
  - apply wp_bind. eapply wp_mono; [by apply (wp_do_renew env IntrinsicURL home (tasks t) (Htasks t) K)|]. by intros g' [?|?] _.
  - apply wp_bind. eapply wp_mono; [by apply wp_renewOwnedScopes|]. by intros g' [?|?] _.
  - apply wp_bind. eapply wp_mono; [by apply wp_drainOwnedScopes|]. by intros g' [?|?] _.
  - apply wp_bind. eapply wp_mono; [apply (wp_exec _ _ _ _ (λ _ _, True)); [by apply ok_foreign | done..]|]. by intros g' [?|?] _.
  - apply wp_bind. eapply wp_mono; [apply (wp_exec _ _ _ _ (λ _ _, True)); [by apply ok_retire | done..]|]. by intros g' [?|?] _.
Qed.

Lemma do_tick_ok t l l' : do_tick l l' → local_ok IntrinsicURL home (do_names t) l → local_ok IntrinsicURL home (do_names t) l'.
Proof. destruct 1; [by intros []; split | exact (do_end IntrinsicURL home (MkTask (do_names t) []) l)]. Qed.
End world.

Definition any_answer (_ : ghost) (_ : result jserr do_answer) : Prop := True.

Lemma do_handlers_ok env IntrinsicURL JSON home tasks : (∀ t, task_ok IntrinsicURL (tasks t)) → ∀ t p g, do_api env IntrinsicURL JSON home tasks t p →
  @wp _ _ (do_scheme env IntrinsicURL home) no_history (local_ok IntrinsicURL home (do_names tasks t)) (do_names tasks t) _ g p any_answer.
Proof.
  intros Ht t p g Hp. eapply wp_mono; [by apply (do_api_ok env IntrinsicURL JSON home tasks (Hist := no_history) Ht t p g (g_time g))|]. done.
Qed.

(** ** Properties *)

Section properties.
Context {Db : Type} `{!RedisServer Db}.
Context (env : fields) (IntrinsicURL : jstr → option url_parts) (JSON : jsval → option jstr).
Context (home : jstr → jstr * jstr) (tasks : nat → LocalTask).
Context (Htasks : ∀ t, task_ok IntrinsicURL (tasks t)).
Abbreviation scheme := (do_scheme env IntrinsicURL home).
Abbreviation owner_wf := (owner_wf IntrinsicURL home).
Abbreviation world := (world Db local do_answer).

Definition do_counter := OwnerWorld.counter (Db := Db) (OwnerScheme0 := scheme).
Definition do_promise_step := OwnerWorld.promise_step (OwnerScheme0 := scheme) (do_names tasks).
Definition do_retire_step := OwnerWorld.retire_step (OwnerScheme0 := scheme) (do_names tasks).
Definition do_step := wstep (Db := Db) (do_api env IntrinsicURL JSON home tasks) do_tick.
Definition do_reachable :=
  OwnerWorld.reachable (Db := Db) (OwnerScheme0 := scheme) (do_names tasks) (do_api env IntrinsicURL JSON home tasks)
    do_tick (local_ok IntrinsicURL home).

(** A run from a reached world, and what held in some world of it. *)
Definition do_run := OwnerWorld.run (Db := Db) (OwnerScheme0 := scheme) (do_names tasks) (do_api env IntrinsicURL JSON home tasks) do_tick.
Definition do_between := OwnerWorld.between (Db := Db) (do_api env IntrinsicURL JSON home tasks) do_tick.

(** Storage ids are never reused: no transaction points a worker to the storage of a retired
    host. *)
Definition storage_unused := OwnerWorld.fresh (OwnerScheme0 := scheme).

Abbreviation api_ok := (do_handlers_ok env IntrinsicURL JSON home tasks Htasks).
Abbreviation tick_ok := (do_tick_ok IntrinsicURL home tasks).

(** C12. Leases of Durable Object hosts are exclusive. In every interleaving of any number of
    tasks and the control plane, with lost commands and replies, when the record of a host is
    replaced by one of another fence, the lease last promised to the old fence has ended by
    the server's clock, or the task that replaces it is the holder itself; and a rewrite under
    the same fence never shortens the lease. *)
Theorem do_lease_exclusive (w w' : world) (pr : promises) (rt : jstr → Prop)
    (lbl : option (nat * cmd * reply)) (K : jstr) (f f' : fence) (e e' : Z)
    (Hr : do_reachable w pr rt) (Hs : do_step w lbl w') (Hu : storage_unused lbl rt) (HK : valid_key K)
    (Hp : pr K = Some (f, e)) (Hp' : do_promise_step lbl pr K = Some (f', e')) :
  (f' = f → e <= e') ∧
  (f' ≠ f → e <= r_time (w_db w) ∨ f.1 = label_task (do_names tasks) lbl).
Proof.
  exact (lease_step (OwnerScheme0 := scheme) (do_names tasks) _ do_tick _ any_answer api_ok tick_ok
    w w' pr rt lbl K f f' e e' Hr Hs Hu HK Hp Hp').
Qed.

(** C13. Generations fence Durable Object hosts: only the end of a host's ownership resets its
    counter, no record is above the counter, and a record with a new fence has the new value
    of the counter, above every earlier one, and was claimed while no delete of the whole
    worker held the lock. *)
Theorem do_generations_fence (w w' : world) (pr : promises) (rt : jstr → Prop)
    (lbl : option (nat * cmd * reply)) (K : jstr)
    (Hr : do_reachable w pr rt) (Hs : do_step w lbl w') (Hu : storage_unused lbl rt) (HK : valid_key K) :
  (do_counter K (w_db w) <= do_counter K (w_db w') ∨ do_retire_step lbl rt K) ∧
  (∀ o, r_get (ownerKeyOf K) (w_db w) = Some (owner_bytes o) → owner_wf K o → do_generation o <= do_counter K (w_db w)) ∧
  ∀ o', r_get (ownerKeyOf K) (w_db w') = Some (owner_bytes o') → owner_wf K o' →
    (∃ o, r_get (ownerKeyOf K) (w_db w) = Some (owner_bytes o) ∧ owner_fence o = owner_fence o') ∨
    (do_counter K (w_db w) < do_generation o' ∧ do_generation o' = do_counter K (w_db w') ∧
     ∀ b, r_get (deleteLockKey (do_ns o') (do_worker o')) (w_db w) = Some b →
       parseDeleteLockKind (JStr (utf8_decode b)) = Some VERSION_DELETE_LOCK_KIND).
Proof.
  destruct (generation_step (OwnerScheme0 := scheme) (do_names tasks) _ do_tick _ any_answer api_ok tick_ok
    w w' pr rt lbl K Hr Hs Hu HK) as (H1 & H2 & H3).
  split_and!; [exact H1 | exact H2|]. intros o' Ho Hwf. destruct (H3 o' Ho Hwf) as [?|(Hl & He & Hg)]; [by left | right].
  split_and!; [exact Hl | exact He|]. intros b Hb.
  pose proof (proj1 (Forall_singleton _ _) Hg) as G. cbn [fst snd] in G. rewrite Hb in G. by apply bool_decide_eq_true_1 in G.
Qed.

(** C14. Writes of owner records are fenced by the storage pointer: whenever the record of a
    host changes, the pointer of the worker it names points to the storage of the host at
    that moment, so once a worker is redeployed to another storage or deleted, no task can
    claim or renew a host of the old storage. *)
Theorem storage_fenced (w w' : world) (pr : promises) (rt : jstr → Prop)
    (lbl : option (nat * cmd * reply)) (K : jstr) (o' : DoOwner)
    (Hr : do_reachable w pr rt) (Hs : do_step w lbl w') (Hu : storage_unused lbl rt)
    (Ho : r_get (ownerKeyOf K) (w_db w') = Some (owner_bytes o')) (Hwf : owner_wf K o') :
  r_get (ownerKeyOf K) (w_db w) = Some (owner_bytes o') ∨
  decodeBulk (r_get (doStorageIdKey (do_ns o') (do_worker o')) (w_db w)) = JStr (do_doStorageId o').
Proof.
  destruct (pins_step (OwnerScheme0 := scheme) (do_names tasks) _ do_tick _ any_answer api_ok tick_ok
    w w' pr rt lbl K o' Hr Hs Hu Ho Hwf) as [?|Hp]; [by left | right].
  destruct (proj1 (Forall_singleton _ _) Hp) as (b & Hb & Hd). cbn [fst snd] in *. rewrite Hb. cbn [decodeBulk]. f_equal. exact Hd.
Qed.

(** C15. A retired host stays retired: once the control plane has deleted the worker of a host,
    no owner record and no generation counter of the host is ever stored again, whatever
    handlers were still running. *)
Theorem retired_storage_stays_gone (w : world) (pr : promises) (rt : jstr → Prop) (K : jstr)
    (Hr : do_reachable w pr rt) (HK : valid_key K) (Hk : rt K) :
  r_get (ownerKeyOf K) (w_db w) = None ∧ r_get (ownerGenerationKeyOf K) (w_db w) = None ∧
  (∀ o, owner_wf K o → decodeBulk (r_get (doStorageIdKey (do_ns o) (do_worker o)) (w_db w)) ≠ JStr (do_doStorageId o)).
Proof.
  apply (world_reachable_ok (OwnerScheme0 := scheme) (do_names tasks) _ _ _ any_answer api_ok tick_ok) in Hr.
  destruct (do_retired _ _ _ (wo_db _ _ _ _ _ _ Hr) K HK Hk) as [H1 H2 H3]. split_and!; [exact H1 | exact H2|].
  intros o Hwf E. apply (H3 o Hwf). refine (proj2 (Forall_singleton _ _) _). cbn [fst snd].
  destruct (r_get (doStorageIdKey (do_ns o) (do_worker o)) (w_db w)) as [b|]; [|discriminate E].
  cbn [decodeBulk] in E. exists b. split; [done|]. unfold points_to. congruence.
Qed.

(** What a dispatch that began after [w0] has when its tenant code starts in [w]: task [t] runs
    it under a fence of its own; [n] is a time of the server's clock since [w0]; the record of
    the fence was stored under the key of the host since [w0], before [n] or as a renewal
    granted at [n]; and what the record's lease leaves at [n] is at least the guard time. *)
Definition dispatch_granted (w0 w : world) (t : nat) (i : DoInvoke) (r : fenced) : Prop :=
  ∃ f n, in_owner i = Some f ∧ of_taskId f = do_names tasks t ∧
  owner_fence (fn_owner r) = (of_taskId f, of_generation f) ∧
  do_ownerKey (fn_owner r) = in_hostId i ∧ do_doStorageId (fn_owner r) = bs_doStorageId (in_source i) ∧
  do_between w0 w (λ db, r_time db = n) ∧
  do_between w0 w (λ db, r_get (ownerKeyOf (in_hostId i)) db = Some (owner_bytes (fn_owner r)) ∧
    (r_time db <= n ∨ lease_ms (fn_owner r) = @lease_until _ scheme n)) ∧
  fn_leaseRemainingMs r = lease_ms (fn_owner r) - n ∧
  ownerLeaseGuardMs env <= fn_leaseRemainingMs r ∧ 0 < fn_leaseRemainingMs r.

(** C16. Tenant code runs under a live fence of its own task. When a dispatch reaches it, the
    invoke's fence names the task that runs it and the generation of its record, the record is
    of the host and the storage of the invoke, and it was stored under the host's key at some
    moment after the dispatch began. The time it may run is that record's lease minus a time
    the server's clock showed after the dispatch began, read no earlier than the record (or the
    time from which the task renewed it), and it is positive and at least the guard time. *)
Theorem dispatch_has_budget (w0 w : world) (pr0 pr : promises) (rt0 rt : jstr → Prop) (pid t : nat)
    (pw : option (list (jstr * nat))) (i : DoInvoke) (r : fenced * DoInvoke)
    (Hr : do_reachable w0 pr0 rt0) (Hn : w_procs w0 !! pid = None) (Hrun : do_run w0 pr0 rt0 w pr rt)
    (Hp : w_procs w !! pid = Some (Proc t pw (Run (PRet (Ok (AnsDispatch i r)))))) :
  dispatch_granted w0 w t i r.1.
Proof.
  pose proof (handler_answers (OwnerScheme0 := scheme) (do_names tasks) (do_api env IntrinsicURL JSON home tasks) do_tick (local_ok IntrinsicURL home)
    any_answer api_ok tick_ok w0 pr0 rt0 w
    (do_answer_ok env IntrinsicURL home tasks (Hist := history (do_api env IntrinsicURL JSON home tasks) do_tick w0 w) (r_time (w_db w0)))
    Hr) as Hans.
  destruct (Hans ltac:(intros; by eapply do_api_ok) pr rt pid t pw _ Hrun Hn Hp)
    as (f & n & H1 & H2 & H3 & H4 & H5 & (_ & Htime & Hst) & H7 & H8 & H9).
  exists f, n. split_and!; try done. destruct Hst as [(t1 & Ht1 & w1 & L1 & L2 & Et & Eg)|(El & t1 & Ht1 & w1 & L1 & L2 & Et & Eg)]; exists w1.
  - split_and!; [done|done|done|]. left. lia.
  - split_and!; [done|done|done|]. by right.
Qed.
End properties.

(** ** A run: task A claims a host and runs an invoke, its lease runs out, task B takes over,
    and the worker is deleted *)

Module Demo.

Definition url (s : jstr) : option url_parts :=
  if jeqb s (js "http://10.0.0.1:8788")
  then Some (UrlParts (js "10.0.0.1:8788") (js "10.0.0.1") (js "8788") [] [] (js "/") [] [])
  else None.

Definition tasks (t : nat) : LocalTask :=
  MkTask (match t with O => js "task-a" | _ => js "task-b" end) (js "10.0.0.1:8788").

Definition home (_ : jstr) : jstr * jstr := (js "acme", js "chat").

Abbreviation state := (world redis_store local do_answer * promises)%type.
Abbreviation api := (do_api [] url checked_stringify home tasks).
Abbreviation step := (do_step (Db := redis_store) [] url checked_stringify home tasks).

Definition pointer : jstr := doStorageIdKey (js "acme") (js "chat").

(** The control plane has pointed the worker to its storage. *)
Definition init : state :=
  (World (RedisStore 1000000 {[ pointer := (utf8_encode (js "st-1"), None) ]}) (λ _, 0%nat) (λ _, initial_local) ∅, λ _, None).

Inductive action :=
| Start (pid t : nat) (p : prog local do_answer)
| Serve (pid : nat)
| Reply (pid : nat)
| Wait (until : Z).

Definition advance (o : option (option (nat * cmd * reply) * world redis_store local do_answer)) (s : state) : state :=
  match o with Some (lbl, w) => (w, do_promise_step [] url home tasks lbl s.2) | None => s end.

Definition act (s : state) (a : action) : state :=
  match a with
  | Start pid t p =>
      match w_procs s.1 !! pid with
      | None => (World (w_db s.1) (w_writes s.1) (w_tasks s.1) (<[pid := Proc t None (Run p)]> (w_procs s.1)), s.2)
      | Some _ => s
      end
  | Serve pid => advance (exec_serve pid s.1) s
  | Reply pid => advance (exec_reply pid s.1) s
  | Wait t =>
      if rs_now (w_db s.1) <=? t
      then (World (rs_advance t (w_db s.1)) (bump_expired (w_db s.1) (rs_advance t (w_db s.1)) (w_writes s.1))
              (w_tasks s.1) (w_procs s.1), s.2) else s
  end.

Definition run (l : list action) : state := fold_left act l init.

Definition invoke (t : nat) : prog local do_answer := serveDispatch [] url (tasks t) demo_call false true.

Definition retire_ws : list write := [WDel pointer].

Definition retire_worker : prog local do_answer :=
  let* _ := session_exec (retire_ws ++ @retire_writes _ (do_scheme [] url home) [demo_host]) in pret AnsOk.

(** No transaction of the run writes a key of a worker. *)
Definition keeps_pointers (lbl : option (nat * cmd * reply)) : bool :=
  match lbl with
  | Some (_, CExec ws, ROk) => forallb (λ w, match w with WSet k _ _ => negb (starts_with (js "worker:") k) | WDel _ => true end) ws
  | _ => true
  end.

Fixpoint quiet (s : state) (l : list action) : bool :=
  match l with
  | [] => true
  | a :: r =>
      match a with
      | Serve pid => match exec_serve pid s.1 with Some (lbl, _) => keeps_pointers lbl | None => true end
      | _ => true
      end && quiet (act s a) r
  end.

Definition legal (a : action) : Prop := match a with Start _ t p => api t p | _ => True end.

Lemma do_demo_unused lbl rt : keeps_pointers lbl = true → storage_unused [] url home lbl rt.
Proof.
  destruct lbl as [[[t c] r]|]; [|done]. destruct c; try done. destruct r; try done. cbn [keeps_pointers]. intros H%forallb_Forall.
  intros K o k P v ttl _ _ Hin _ Hw. apply list_elem_of_singleton in Hin as [= -> ->]. rewrite Forall_forall in H. by specialize (H _ Hw).
Qed.

Definition reached (s : state) : Prop := ∃ rt, do_reachable (Db := redis_store) [] url checked_stringify home tasks s.1 s.2 rt.

(** What the run reaches. *)
Definition ran (s : state) : Prop :=
  ∃ rt, do_run (Db := redis_store) [] url checked_stringify home tasks init.1 init.2 (λ _, False) s.1 s.2 rt.

Lemma do_demo_act s a : legal a → quiet s [a] = true → ran s → ran (act s a).
Proof.
  intros Hl Hq [rt Hr]. assert (∀ lbl w', step s.1 lbl w' → keeps_pointers lbl = true →
    ran (w', do_promise_step [] url home tasks lbl s.2)) as Hstep.
  { intros lbl w' Hs Hk. eexists. eapply run_step; [exact Hr|exact Hs|]. by apply do_demo_unused. }
  cbn [quiet] in Hq. rewrite andb_true_r in Hq. destruct a as [pid t p|pid|pid|t]; cbn [act] in *.
  - destruct (w_procs s.1 !! pid) eqn:E; [by exists rt|]. apply (Hstep None); [|done]. by apply step_start.
  - unfold advance. destruct (exec_serve pid s.1) as [[lbl w']|] eqn:E; [|by exists rt].
    apply Hstep; [|done]. by eapply exec_serve_sound.
  - unfold advance. destruct (exec_reply pid s.1) as [[lbl w']|] eqn:E; [|by exists rt].
    assert (lbl = None) as ->; [|apply (Hstep None); [by eapply exec_reply_sound|done]].
    unfold exec_reply in E. destruct (w_procs s.1 !! pid) as [[? ? [?|? ?]]|]; [..|done]; destruct (run_local _ _); by simplify_eq.
  - destruct (Z.leb_spec (rs_now (w_db s.1)) t); [|by exists rt]. apply (Hstep None); [|done]. apply step_wait. simpl. eauto.
Qed.

Lemma do_demo_run l : Forall legal l → ∀ s, quiet s l = true → ran s → ran (fold_left act l s).
Proof.
  induction 1 as [|a l Ha _ IH]; intros s Hq Hs; [done|]. cbn [quiet] in Hq. apply andb_prop in Hq as [Hq Hq'].
  cbn [fold_left]. apply IH; [done|]. apply do_demo_act; [done| |done]. cbn [quiet]. by rewrite andb_true_r.
Qed.

Lemma do_demo_start : do_reachable (Db := redis_store) [] url checked_stringify home tasks init.1 init.2 (λ _, False).
Proof.
  apply reach_init. split; try done; intros K; cbn.
  - rewrite lookup_singleton_ne; [done|]. apply (worker_key_foreign pointer K). by left.
  - rewrite lookup_singleton_ne; [done|]. apply (worker_key_foreign pointer K). by left.
Qed.

Lemma do_demo_init : ran init.
Proof. exists (λ _, False). apply run_here. Qed.

Lemma ran_reached s : ran s → reached s.
Proof. intros [rt Hr]. exists rt. eapply run_keeps_reachable; [exact do_demo_start|exact Hr]. Qed.

Definition rounds (pid n : nat) : list action := concat (repeat [Serve pid; Reply pid] n).

(** Task A runs the invoke: thirteen replies later its claim is pending. *)
Definition claiming : list action := Start 1 1 (invoke 0) :: Reply 1 :: rounds 1 13.
Definition dispatched : list action := claiming ++ rounds 1 11.

(** The lease ends at 1120000; the claim of task B is pending. *)
Definition taking_over : list action := dispatched ++ Wait 1120002 :: Start 2 2 (invoke 1) :: Reply 2 :: rounds 2 13.

(** The worker is deleted. *)
Definition deleting : list action := dispatched ++ [Start 3 0 retire_worker; Reply 3].

Definition demo_record (t : jstr) (generation lease : Z) : DoOwner :=
  MkDoOwner demo_host demo_host (js "Room") (js "acme") (js "chat") (js "st-1") t (js "10.0.0.1:8788") generation (JNum (NInt lease)).

Lemma do_demo_shard : hostIdForShard (js "st-1") (js "Room") (NInt 3) = Ok demo_host.
Proof. vm_compute. reflexivity. Defined.

Lemma do_demo_valid : valid_key demo_host.
Proof. exists (js "st-1"), (js "Room"), 3. exact do_demo_shard. Defined.

Lemma do_demo_tasks t : task_ok url (tasks t).
Proof.
  split; destruct t; try done; apply ascii_units, (bool_decide_unpack _); vm_compute; exact I.
Defined.

Lemma do_demo_scoped : scoped home demo_host demo_call.
Proof. split; [done| |done]. exists 3. exact do_demo_shard. Qed.

Lemma do_demo_invoke t : api (S t) (invoke t).
Proof. apply (api_dispatch _ _ _ _ _ t demo_host), do_demo_scoped. Qed.

Lemma do_demo_record t generation lease : t ∈ [js "task-a"; js "task-b"] → 0 < generation <= MAX_SAFE_INTEGER → 0 <= lease <= MAX_SAFE_INTEGER →
  owner_wf url home demo_host (demo_record t generation lease).
Proof.
  intros Ht Hg Hl. split; try done.
  - exists 3. exact do_demo_shard.
  - cbn [do_taskId demo_record]. intros ->. repeat (apply elem_of_cons in Ht as [Ht|Ht]; [done|]). by apply elem_of_nil in Ht.
  - repeat (apply elem_of_cons in Ht as [->|Ht]; [apply ascii_units, (bool_decide_unpack _); vm_compute; exact I|]); by apply elem_of_nil in Ht.
  - apply ascii_units, (bool_decide_unpack _). vm_compute. exact I.
  - by exists lease.
Qed.

Lemma do_demo_pointer_foreign : @foreign _ (do_scheme [] url home) pointer.
Proof. intros K HK. apply (worker_key_foreign pointer K). by left. Qed.

Lemma do_demo_retire : api 0 retire_worker.
Proof.
  apply api_retire; apply Forall_singleton; [exact do_demo_pointer_foreign|]. split; [apply do_demo_valid|].
  intros o Hwf. eexists _, _. split; [by left|]. pose proof (wf_home _ _ _ _ Hwf) as [= <- <-].
  split; [by left|]. by intros v ttl [?|?%elem_of_nil]%elem_of_cons.
Qed.

Ltac legal_run := repeat (constructor; [first [exact I | apply do_demo_invoke | apply do_demo_retire]|]); constructor.

Lemma do_demo_taking_over : reached (run taking_over).
Proof. apply ran_reached, do_demo_run; [|vm_compute; reflexivity|apply do_demo_init]. legal_run. Qed.

Lemma do_demo_dispatched : ran (run dispatched).
Proof. apply do_demo_run; [|vm_compute; reflexivity|apply do_demo_init]. legal_run. Qed.

Lemma do_demo_deleting : reached (run deleting).
Proof. apply ran_reached, do_demo_run; [|vm_compute; reflexivity|apply do_demo_init]. legal_run. Qed.

(** The label of a pending transaction. *)
Lemma do_demo_exec pid (s : state) :
  match exec_serve pid s.1 with Some (Some (_, CExec _, ROk), _) => true | _ => false end = true →
  ∃ t ws w', exec_serve pid s.1 = Some (Some (t, CExec ws, ROk), w').
Proof.
  destruct (exec_serve pid s.1) as [[[[[t c] r]|] w']|]; try done. destruct c; try done. destruct r; try done. by eexists _, _, _.
Defined.

Example do_demo_promises :
  (run taking_over).2 demo_host = Some ((js "task-a", 1), 1120000) ∧
  match exec_serve 2 (run taking_over).1 with
  | Some (lbl, _) => (do_promise_step [] url home tasks lbl (run taking_over).2 demo_host, keeps_pointers lbl)
  | None => (None, false)
  end = (Some ((js "task-b", 2), 1240002), true).
Proof. vm_compute. done. Qed.

Lemma do_lease_exclusive_witness :
  1120000 <= r_time (w_db (run taking_over).1) ∨ js "task-a" = js "task-b".
Proof.
  pose proof (do_demo_exec 2 (run taking_over) ltac:(vm_compute; reflexivity)) as (t & ws & w' & Hs).
  pose proof do_demo_promises as [Hp Hp']. rewrite Hs in Hp'. apply pair_equal_spec in Hp' as [Hp' Hk].
  assert (label_task (do_names tasks) (Some (t, CExec ws, ROk)) = js "task-b") as Hl.
  { cut (match exec_serve 2 (run taking_over).1 with Some (lbl, _) => label_task (do_names tasks) lbl | None => [] end = js "task-b");
      [by rewrite Hs | vm_compute; reflexivity]. }
  destruct do_demo_taking_over as [rt Hr]. revert Hs Hp Hp' Hr. generalize (run taking_over). intros s Hs Hp Hp' Hr. rewrite <- Hl.
  refine (proj2 (do_lease_exclusive [] url checked_stringify home tasks do_demo_tasks s.1 w' s.2 rt _ demo_host
    (js "task-a", 1) (js "task-b", 2) 1120000 1240002 Hr (exec_serve_sound _ _ _ _ _ _ Hs) (do_demo_unused _ _ Hk) do_demo_valid Hp Hp') _).
  discriminate.
Defined.

Lemma do_generations_fence_witness :
  ∃ w' : world redis_store local do_answer, ∃ lbl rt,
    do_counter (Db := redis_store) [] url home demo_host (w_db (run taking_over).1)
      <= do_counter (Db := redis_store) [] url home demo_host (w_db w') ∨ do_retire_step [] url home tasks lbl rt demo_host.
Proof.
  pose proof (do_demo_exec 2 (run taking_over) ltac:(vm_compute; reflexivity)) as (t & ws & w' & Hs).
  pose proof do_demo_promises as [_ Hp']. rewrite Hs in Hp'. apply pair_equal_spec in Hp' as [_ Hk].
  destruct do_demo_taking_over as [rt Hr]. exists w', (Some (t, CExec ws, ROk)), rt.
  revert Hs Hr. generalize (run taking_over). intros s Hs Hr.
  exact (proj1 (do_generations_fence [] url checked_stringify home tasks do_demo_tasks s.1 w' s.2 rt _ demo_host
    Hr (exec_serve_sound _ _ _ _ _ _ Hs) (do_demo_unused _ _ Hk) do_demo_valid)).
Defined.

Lemma storage_fenced_witness :
  r_get (ownerKeyOf demo_host) (w_db (run taking_over).1) = Some (owner_bytes (demo_record (js "task-b") 2 1240002)) ∨
  decodeBulk (r_get pointer (w_db (run taking_over).1)) = JStr (js "st-1").
Proof.
  pose proof (do_demo_exec 2 (run taking_over) ltac:(vm_compute; reflexivity)) as (t & ws & w' & Hs).
  pose proof do_demo_promises as [_ Hp']. rewrite Hs in Hp'. apply pair_equal_spec in Hp' as [_ Hk].
  assert (r_get (ownerKeyOf demo_host) (w_db w') = Some (owner_bytes (demo_record (js "task-b") 2 1240002))) as Ho.
  { cut (match exec_serve 2 (run taking_over).1 with Some (_, w') => r_get (ownerKeyOf demo_host) (w_db w') | None => None end
         = Some (owner_bytes (demo_record (js "task-b") 2 1240002))); [by rewrite Hs | vm_compute; reflexivity]. }
  destruct do_demo_taking_over as [rt Hr]. revert Hs Hr. generalize (run taking_over). intros s Hs Hr.
  refine (storage_fenced [] url checked_stringify home tasks do_demo_tasks s.1 w' s.2 rt _ demo_host (demo_record (js "task-b") 2 1240002)
    Hr (exec_serve_sound _ _ _ _ _ _ Hs) (do_demo_unused _ _ Hk) Ho _).
  apply do_demo_record; [by right; left|unfold MAX_SAFE_INTEGER; lia..].
Defined.

Lemma retired_storage_stays_gone_witness :
  ∃ w' : world redis_store local do_answer, r_get (ownerKeyOf demo_host) (w_db (run deleting).1) ≠ None ∧
    r_get (ownerKeyOf demo_host) (w_db w') = None.
Proof.
  pose proof (do_demo_exec 3 (run deleting) ltac:(vm_compute; reflexivity)) as (t & ws & w' & Hs). exists w'.
  assert (r_get (ownerKeyOf demo_host) (w_db (run deleting).1) ≠ None) as Hn by (vm_compute; discriminate). split; [exact Hn|].
  assert (keeps_pointers (Some (t, CExec ws, ROk)) = true ∧ do_names tasks t = [] ∧ existsb (λ w, match w with WDel k => jeqb k (ownerKeyOf demo_host) | _ => false end) ws = true)
    as (Hk & Ht & He%existsb_exists).
  { cut (match exec_serve 3 (run deleting).1 with
         | Some (Some (t, CExec ws, r), _) => (keeps_pointers (Some (t, CExec ws, r)), do_names tasks t,
             existsb (λ w, match w with WDel k => jeqb k (ownerKeyOf demo_host) | _ => false end) ws)
         | _ => (false, [], false) end = (true, [], true)); [rewrite Hs; intros [[? ?]%pair_equal_spec ?]%pair_equal_spec; by split_and! | vm_compute; reflexivity]. }
  destruct He as (x & Hx%list_elem_of_In & E). destruct x as [|k]; [discriminate E|]. apply jeqb_eq in E as ->.
  destruct do_demo_deleting as [rt Hr]. revert Hs Hr. generalize (run deleting). intros s Hs Hr.
  refine (proj1 (retired_storage_stays_gone [] url checked_stringify home tasks do_demo_tasks w' _
    (do_retire_step [] url home tasks (Some (t, CExec ws, ROk)) rt) demo_host _ do_demo_valid _)).
  - eapply reach_step; [exact Hr | by eapply exec_serve_sound | by apply do_demo_unused].
  - right. by split.
Defined.

Lemma dispatch_has_budget_witness : ∃ t i r,
  dispatch_granted (Db := redis_store) [] url checked_stringify home tasks init.1 (run dispatched).1 t i r ∧ fn_leaseRemainingMs r = 120000.
Proof.
  assert (∃ t pw i r, w_procs (run dispatched).1 !! 1%nat = Some (Proc t pw (Run (PRet (Ok (AnsDispatch i r))))) ∧ fn_leaseRemainingMs r.1 = 120000)
    as (t & pw & i & r & Hp & Hm).
  { assert (match w_procs (run dispatched).1 !! 1%nat with
            | Some (Proc t pw (Run (PRet (Ok (AnsDispatch i r))))) => fn_leaseRemainingMs r.1 =? 120000 | _ => false end = true) as H
      by (vm_compute; reflexivity).
    revert H. generalize (w_procs (run dispatched).1 !! 1%nat). intros [[t pw [[[[| | |]|]| | |]|]]|] H; try discriminate H.
    apply Z.eqb_eq in H. by eexists _, _, _, _. }
  exists t, i, r.1. split; [|exact Hm]. destruct do_demo_dispatched as [rt Hr]. revert Hp Hr. generalize (run dispatched). intros s Hp Hr.
  exact (dispatch_has_budget [] url checked_stringify home tasks do_demo_tasks init.1 s.1 init.2 s.2 (λ _, False) rt 1 t pw i r
    do_demo_start eq_refl Hr Hp).
Defined.
End Demo.
