(* ===== verification/Topology.v ===== *)
(** * Deploy ingress: route patterns, host lists, crons, queue consumers

    Models src/control/topology.js and [parseCron] of src/shared/cron-time.js. The host of
    a parsed URL, the known time zones and the cron library are section variables. An error
    is the place that throws it; messages are left out. *)

From stdpp Require Import base list strings sets.
From Stdlib Require Import ZArith Lia.
From S2P Require Import Prelude NsPattern Gateway Txn Control.

#[local] Open Scope Z_scope.
#[local] Open Scope wdl_scope.

Inductive topology_error :=
| HostNotString | HostEmpty | HostEmptyNormalized | InvalidHost
| PatternNotString | PatternEmpty | PatternScheme | PatternQuery | PatternPathRequired | PatternHostMissing
| PatternWhitespace | PatternWildcardHost | PatternMidWildcard | PatternInPlatformDomain
| RoutesNotArray | DuplicatePattern
| HostsNotArray | HostInPlatformDomain
| CronsNotArray | CronEntryNotObject | CronMissing | CronTimezone | UnknownTimezone | InvalidCron | TooManyCrons
| ConsumersNotArray | ConsumerNotObject | ConsumerQueue | DuplicateConsumer | ConsumerBatchSize | ConsumerBatchTimeout
| ConsumerRetries | ConsumerRetryDelay | ConsumerDeadLetter | ConsumerDeadLetterSame.

#[export] Instance topology_error_eq_dec : EqDecision topology_error.
Proof. solve_decision. Defined.

(** ** Text *)

(** [s.lastIndexOf(c)]; [-1] when absent. *)
Definition last_index_of (c : Z) (s : jstr) : Z :=
  let r := index_of c (rev s) in if r <? 0 then -1 else jlen s - 1 - r.

(** [s.slice(0, i)] and [s.slice(i)] for [0 <= i]. *)
Definition slice_to (i : Z) (s : jstr) : jstr := take (Z.to_nat i) s.
Definition slice_from (i : Z) (s : jstr) : jstr := drop (Z.to_nat i) s.

(** [/^\d+$/.test(s)] *)
Definition all_digits (s : jstr) : bool := negb (jeqb s []) && forallb is_digit s.

(** [s.toLowerCase()] on the units that can become ASCII: the letters and the Kelvin sign.
    Any other unit stays outside ASCII. *)
Definition lower_ascii_unit (c : Z) : Z := if c =? 8490 then 107 else lower_unit c.
Definition to_lower_case (s : jstr) : jstr := map lower_ascii_unit s.

(** [==] [null] *)
Definition nullish (v : jsval) : bool := match v with JUndef | JNull => true | _ => false end.

Definition is_hex_lower (c : Z) : bool := is_digit c || ((97 <=? c) && (c <=? 102)).

(** Decimal digits, or [0x] and hexadecimal digits, in either case. *)
Definition potential_ipv4_label (s : jstr) : bool :=
  all_digits s || match to_lower s with 48 :: 120 :: rest => forallb is_hex_lower rest | _ => false end.

Definition isPreservedAsciiXnLabelHost (host : jstr) : bool :=
  let labels := split_on 46 host in
  existsb (starts_with (js "xn--")) labels && negb (potential_ipv4_label (default [] (last labels))).

(** ** Hosts and patterns *)

Section hosts.
(** [new URL("https://" + host + "/").host]; [None] when the constructor throws. *)
Variable urlHost : jstr → option jstr.

Definition strip_port (host : jstr) : jstr :=
  let colon := last_index_of 58 host in
  if (0 <=? colon) && all_digits (slice_from (colon + 1) host) then slice_to colon host else host.

Definition normalizeHost (raw : jsval) : result topology_error jstr :=
  match raw with
  | JStr raw =>
      let trimmed := trim raw in
      if jeqb trimmed [] then Err HostEmpty
      else
        let host := to_lower_case (trim_end is_dot (strip_port trimmed)) in
        if jeqb host [] then Err HostEmptyNormalized
        else if negb (isValidAsciiDnsHostname (JStr host)) then Err InvalidHost
        else
          let! canonicalHost := match urlHost host with
                                | Some h => Ok h
                                | None => if isPreservedAsciiXnLabelHost host then Ok host else Err InvalidHost
                                end in
          if jeqb canonicalHost host then Ok host else Err InvalidHost
  | _ => Err HostNotString
  end.

Definition isPlatformDomainHost (normalizedHost platformDomain : jstr) : bool :=
  let pd := to_lower_case platformDomain in
  jeqb normalizedHost pd || ends_with (js "." ++ pd) normalizedHost.

Definition route_at (host slot : jstr) : RoutePattern :=
  if ends_with (js "*") slot
  then MkRoute host slot (JStr (js "prefix")) (JStr (take (length slot - 1) slot))
  else MkRoute host slot (JStr (js "exact")) (JStr slot).

Definition parsePattern (raw : jsval) (platformDomain : jstr) : result topology_error RoutePattern :=
  match raw with
  | JStr raw =>
      let s := trim raw in
      if jeqb s [] then Err PatternEmpty
      else if starts_with (js "http://") (to_lower s) || starts_with (js "https://") (to_lower s) then Err PatternScheme
      else if includes_unit 63 s || includes_unit 35 s then Err PatternQuery
      else
        let slash := index_of 47 s in
        if slash <? 0 then Err PatternPathRequired
        else
          let hostRaw := slice_to slash s in
          let pathPart := slice_from slash s in
          if jeqb hostRaw [] then Err PatternHostMissing
          else if existsb is_space pathPart then Err PatternWhitespace
          else if includes_unit 42 hostRaw then Err PatternWildcardHost
          else
            let starIdx := index_of 42 pathPart in
            if negb (starIdx =? -1) && negb (starIdx =? jlen pathPart - 1) then Err PatternMidWildcard
            else
              let! host := normalizeHost (JStr hostRaw) in
              if isPlatformDomainHost host platformDomain then Err PatternInPlatformDomain
              else Ok (route_at host pathPart)
  | _ => Err PatternNotString
  end.

Fixpoint parse_routes_from (seen : list jstr) (l : list jsval) (platformDomain : jstr)
    : result topology_error (list RoutePattern) :=
  match l with
  | [] => Ok []
  | raw :: l =>
      let! parsed := parsePattern raw platformDomain in
      let key := routeKey parsed in
      if set_has seen key then Err DuplicatePattern
      else let! out := parse_routes_from (key :: seen) l platformDomain in Ok (parsed :: out)
  end.

Definition parseRoutes (rawList : jsval) (platformDomain : jstr) : result topology_error (list RoutePattern) :=
  match rawList with
  | JUndef | JNull => Ok []
  | JArr l => parse_routes_from [] l platformDomain
  | _ => Err RoutesNotArray
  end.

Fixpoint parse_hosts (l : list jsval) (platformDomain : jstr) : result topology_error (list jstr) :=
  match l with
  | [] => Ok []
  | raw :: l =>
      let! host := normalizeHost raw in
      if isPlatformDomainHost host platformDomain then Err HostInPlatformDomain
      else let! out := parse_hosts l platformDomain in Ok (host :: out)
  end.

Definition parseHostList (rawList : jsval) (platformDomain : jstr) : result topology_error (list jstr) :=
  match rawList with
  | JArr l => let! hosts := parse_hosts l platformDomain in Ok (unique hosts)
  | _ => Err HostsNotArray
  end.

End hosts.

(** ** Crons *)

Section crons.
(** The time zones [Intl.DateTimeFormat] knows, and the expressions the cron library reads. *)
Variable knownTimezone : jstr → bool.
Variable cronParses : jstr → jstr → bool.

Definition MAX_CRONS_PER_WORKER : Z := 10.

(** [s.split(/\s+/u)] *)
Fixpoint split_spaces (in_space : bool) (word : jstr) (s : jstr) : list jstr :=
  match s with
  | [] => [rev word]
  | c :: s =>
      if is_space c then (if in_space then split_spaces true word s else rev word :: split_spaces true [] s)
      else split_spaces false (c :: word) s
  end.

Definition parseCron (cron timezone : jstr) : bool :=
  let parts := split_spaces false [] (trim cron) in
  (Z.of_nat (length parts) =? 5) && negb (existsb (includes_unit 58) parts) && cronParses cron timezone.

Definition parse_cron_entry (entry : jsval) : result topology_error CronSpec :=
  match entry with
  | JObj fields =>
      match obj_get (js "cron") fields with
      | JStr raw =>
          let cron := trim raw in
          if jeqb cron [] then Err CronMissing
          else
            let tz := obj_get (js "timezone") fields in
            let! timezone := match (if nullish tz then JStr (js "UTC") else tz) with
                             | JStr ((_ :: _) as t) => Ok t
                             | _ => Err CronTimezone
                             end in
            if negb (knownTimezone timezone) then Err UnknownTimezone
            else if negb (parseCron cron timezone) then Err InvalidCron
            else Ok (MkCron cron timezone)
      | _ => Err CronMissing
      end
  | _ => Err CronEntryNotObject
  end.

Definition cron_key (c : CronSpec) : jstr := c_cron c ++ js "|" ++ c_timezone c.

Fixpoint parse_crons_from (seen : list jstr) (l : list jsval) : result topology_error (list CronSpec) :=
  match l with
  | [] => Ok []
  | entry :: l =>
      let! spec := parse_cron_entry entry in
      if set_has seen (cron_key spec) then parse_crons_from seen l
      else let! out := parse_crons_from (cron_key spec :: seen) l in Ok (spec :: out)
  end.

Definition parseCronList (raw : jsval) : result topology_error (list CronSpec) :=
  match raw with
  | JUndef | JNull => Ok []
  | JArr l =>
      let! out := parse_crons_from [] l in
      if MAX_CRONS_PER_WORKER <? Z.of_nat (length out) then Err TooManyCrons else Ok out
  | _ => Err CronsNotArray
  end.

End crons.

(** ** Queue consumers *)

Definition MAX_BATCH_SIZE : Z := 100.
Definition MAX_BATCH_TIMEOUT_MS : Z := 60000.
Definition MAX_RETRIES : Z := 100.
Definition MAX_QUEUE_DELAY_SECONDS : Z := 86400.

(** [Number.isInteger(v) && low <= v && v <= high] *)
Definition integer_in (low high : Z) (e : topology_error) (v : jsval) : result topology_error Z :=
  match v with
  | JNum (NInt n) => if (n <? low) || (high <? n) then Err e else Ok n
  | _ => Err e
  end.

Definition or_default (n : Z) (v : jsval) : jsval := if nullish v then JNum (NInt n) else v.

Definition optional {A} (v : jsval) (read : jsval → result topology_error A) : result topology_error (option A) :=
  if nullish v then Ok None else let! a := read v in Ok (Some a).

Definition parse_dead_letter (queue : jstr) (v : jsval) : result topology_error jstr :=
  match v with
  | JStr q => if negb (isValidQueueName v) then Err ConsumerDeadLetter
              else if jeqb q queue then Err ConsumerDeadLetterSame else Ok q
  | _ => Err ConsumerDeadLetter
  end.

Definition parse_consumer (seenQueues : list jstr) (entry : jsval) : result topology_error QueueConsumer :=
  match entry with
  | JObj fields =>
      let get k := obj_get (js k) fields in
      match get "queue" with
      | JStr queue =>
          if negb (isValidQueueName (JStr queue)) then Err ConsumerQueue
          else if set_has seenQueues queue then Err DuplicateConsumer
          else
            let! maxBatchSize := integer_in 1 MAX_BATCH_SIZE ConsumerBatchSize (or_default 10 (get "maxBatchSize")) in
            let! maxBatchTimeoutMs :=
              integer_in 0 MAX_BATCH_TIMEOUT_MS ConsumerBatchTimeout (or_default 5000 (get "maxBatchTimeoutMs")) in
            let! maxRetries := integer_in 0 MAX_RETRIES ConsumerRetries (or_default 3 (get "maxRetries")) in
            let! retryDelaySeconds :=
              optional (get "retryDelaySeconds") (integer_in 0 MAX_QUEUE_DELAY_SECONDS ConsumerRetryDelay) in
            let! deadLetterQueue := optional (get "deadLetterQueue") (parse_dead_letter queue) in
            Ok (MkConsumer queue maxBatchSize maxBatchTimeoutMs maxRetries retryDelaySeconds deadLetterQueue)
      | _ => Err ConsumerQueue
      end
  | _ => Err ConsumerNotObject
  end.

Fixpoint parse_consumers_from (seenQueues : list jstr) (l : list jsval) : result topology_error (list QueueConsumer) :=
  match l with
  | [] => Ok []
  | entry :: l =>
      let! consumer := parse_consumer seenQueues entry in
      let! out := parse_consumers_from (qc_queue consumer :: seenQueues) l in Ok (consumer :: out)
  end.

Definition parseQueueConsumers (raw : jsval) : result topology_error (list QueueConsumer) :=
  match raw with
  | JUndef | JNull => Ok []
  | JArr l => parse_consumers_from [] l
  | _ => Err ConsumersNotArray
  end.
(** ** Lemmas on positions and trimming *)

Lemma index_of_app c a b : c ∉ a → index_of c (a ++ c :: b) = jlen a.
Proof.
  unfold jlen. induction a as [|x a IH]; simpl; intros Hc.
  - by rewrite Z.eqb_refl.
  - apply not_elem_of_cons in Hc as [Hx Ha]. destruct (Z.eqb_spec x c); [congruence|]. rewrite (IH Ha).
    destruct (Z.ltb_spec (Z.of_nat (length a)) 0); lia.
Qed.

Lemma slice_at a b : slice_to (jlen a) (a ++ b) = a ∧ slice_from (jlen a) (a ++ b) = b.
Proof. unfold slice_to, slice_from, jlen. by rewrite Nat2Z.id, take_app_length, drop_app_length. Qed.

Lemma index_of_none c s : c ∉ s → index_of c s = -1.
Proof.
  induction s as [|x s IH]; simpl; intros Hc; [done|]. apply not_elem_of_cons in Hc as [Hx Hs].
  destruct (Z.eqb_spec x c); [congruence|]. by rewrite (IH Hs).
Qed.

(** Where a unit first is, the string splits around it. *)
Lemma index_of_split c s : 0 <= index_of c s →
  s = slice_to (index_of c s) s ++ c :: drop 1 (slice_from (index_of c s) s) ∧ c ∉ slice_to (index_of c s) s ∧
  slice_from (index_of c s) s = c :: drop 1 (slice_from (index_of c s) s).
Proof.
  intros H. assert (c ∈ s) as Hc.
  { destruct (decide (c ∈ s)); [done|]. rewrite index_of_none in H by done. lia. }
  apply list_elem_of_split in Hc as Hs. clear Hs.
  assert (∃ a b, s = a ++ c :: b ∧ c ∉ a) as (a & b & -> & Ha).
  { clear H. induction s as [|x s IH]; [by apply not_elem_of_nil in Hc|]. destruct (decide (c = x)) as [->|Hx].
    - exists [], s. split; [done|apply not_elem_of_nil].
    - apply elem_of_cons in Hc as [?|Hc]; [done|]. destruct (IH Hc) as (a & b & -> & Ha). exists (x :: a), b.
      split; [done|]. by apply not_elem_of_cons. }
  rewrite index_of_app by done. destruct (slice_at a (c :: b)) as [-> ->]. cbn. by rewrite drop_0.
Qed.

Lemma drop_while_none p s : Forall (λ c, p c = false) s → drop_while p s = s.
Proof. destruct 1 as [|c s Hc _]; [done|]. simpl. by rewrite Hc. Qed.

Lemma trim_end_last p s c : p c = false → trim_end p (s ++ [c]) = s ++ [c].
Proof. intros H. unfold trim_end. rewrite rev_app_distr. simpl. rewrite H. simpl. by rewrite rev_involutive. Qed.

(** A text whose first and last units are no space is trimmed. *)
Lemma trim_ends a s b : is_space a = false → is_space b = false → trim (a :: s ++ [b]) = a :: s ++ [b].
Proof. intros Ha Hb. unfold trim. simpl. rewrite Ha. apply (trim_end_last is_space (a :: s)). done. Qed.

Lemma trim_no_space s : Forall (λ c, is_space c = false) s → trim s = s.
Proof.
  intros H. unfold trim. rewrite drop_while_none by done. unfold trim_end.
  rewrite drop_while_none by (by apply Forall_rev). by rewrite rev_involutive.
Qed.

(** ** Normalized hosts *)

Section host_lemmas.
Variable urlHost : jstr → option jstr.
#[local] Abbreviation normalizeHost := (normalizeHost urlHost).
#[local] Abbreviation parsePattern := (parsePattern urlHost).
#[local] Abbreviation parse_routes_from := (parse_routes_from urlHost).

(** The units of a normalized host. *)
Definition host_unit (c : Z) : bool := is_lower c || is_digit c || is_dash c || is_dot c.

Lemma split_on_units (P : Z → Prop) c s : Forall (Forall P) (split_on c s) → Forall (λ x, x = c ∨ P x) s.
Proof.
  revert P. induction s as [|x s IH]; intros P H; simpl in *; [constructor|].
  destruct (Z.eqb_spec x c) as [->|Hx].
  - inversion H; subst. constructor; [by left|]. by apply IH.
  - destruct (split_on c s) as [|w ws] eqn:E; [by destruct (split_on_nonnil c s)|]. inversion H as [|? ? Hw Hws]; subst.
    inversion Hw; subst. constructor; [by right|]. apply IH. by constructor.
Qed.

Lemma hostname_units h : isValidAsciiDnsHostname (JStr h) = true → Forall (λ c, c = 46 ∨ is_alnum c || is_dash c = true) h.
Proof.
  unfold isValidAsciiDnsHostname. destruct (_ || _); [done|]. rewrite forallb_Forall. intros H.
  apply split_on_units. eapply Forall_impl; [exact H|]. intros w Hw. apply bracketed_re_inv in Hw as [Hw _].
  eapply Forall_impl; [exact Hw|]. cbn beta. intros c [Hc|Hc]; [by rewrite Hc|done].
Qed.

Lemma lower_ascii_idem c : lower_ascii_unit (lower_ascii_unit c) = lower_ascii_unit c.
Proof.
  unfold lower_ascii_unit, lower_unit, is_upper.
  repeat match goal with |- context [if ?b then _ else _] => destruct b eqn:? end; lia.
Qed.

Lemma to_lower_case_idem s : to_lower_case (to_lower_case s) = to_lower_case s.
Proof. unfold to_lower_case. rewrite map_map. apply map_ext. apply lower_ascii_idem. Qed.

Lemma lowered_host_unit c :
  c = 46 ∨ is_alnum c || is_dash c = true → lower_ascii_unit c = c → host_unit c = true.
Proof.
  unfold host_unit, lower_ascii_unit, lower_unit, is_alnum, is_alpha, is_lower, is_upper, is_digit, is_dash, is_dot.
  intros H. destruct (c =? 8490) eqn:E; [lia|]. break_goal; lia.
Qed.

Lemma normalizeHost_inv raw h : normalizeHost raw = Ok h →
  h ≠ [] ∧ isValidAsciiDnsHostname (JStr h) = true ∧ to_lower_case h = h ∧ trim_end is_dot h = h ∧
  match urlHost h with Some u => u = h | None => isPreservedAsciiXnLabelHost h = true end.
Proof.
  unfold normalizeHost. destruct raw; try done. destruct (jeqb (trim s) []); [done|].
  set (host := to_lower_case _). destruct (jeqb host []) eqn:En; [done|]. apply jeqb_neq in En.
  destruct (isValidAsciiDnsHostname (JStr host)) eqn:Ev; [|done]. cbn [negb]. intros H.
  apply rbind_Ok_inv in H as (u & Hu & H). destruct (jeqb u host) eqn:Eu; [|done]. apply jeqb_eq in Eu. subst u.
  apply Ok_inj in H. subst h. split_and!; [done|done|apply to_lower_case_idem| |].
  - assert (∀ t, to_lower_case (trim_end is_dot t) = trim_end is_dot (to_lower_case t)) as Hc.
    { intros t. unfold to_lower_case, trim_end. rewrite map_rev. f_equal. rewrite <- map_rev.
      generalize (rev t). clear. induction l as [|c l IH]; simpl; [done|].
      assert (is_dot (lower_ascii_unit c) = is_dot c) as ->.
      { unfold is_dot, lower_ascii_unit, lower_unit, is_upper. repeat case_match; lia. }
      destruct (is_dot c); [apply IH|done]. }
    unfold host. rewrite Hc. apply trim_end_idem.
  - destruct (urlHost host); [by injection Hu|]. by destruct (isPreservedAsciiXnLabelHost host).
Qed.

Lemma normalized_units raw h : normalizeHost raw = Ok h → h ≠ [] ∧ Forall (λ c, host_unit c = true) h.
Proof.
  intros (Hne & Hv & Hl & _)%normalizeHost_inv. split; [done|]. apply hostname_units in Hv.
  apply Forall_forall. intros c Hc. rewrite Forall_forall in Hv. apply lowered_host_unit; [by apply Hv|].
  clear -Hl Hc. unfold to_lower_case in Hl. apply list_elem_of_lookup in Hc as [i Hi].
  rewrite <- Hl in Hi at 1. rewrite list_lookup_fmap in Hi. apply fmap_Some in Hi as (c' & Hc' & ->).
  apply lower_ascii_idem.
Qed.

Lemma host_unit_not c d : host_unit d = false → Forall (λ x, host_unit x = true) c → d ∉ c.
Proof. intros Hd Hc Hin. rewrite Forall_forall in Hc. rewrite Hc in Hd; done. Qed.

Lemma host_unit_no_space c : host_unit c = true → is_space c = false.
Proof.
  unfold host_unit, is_space, is_lower, is_digit, is_dash, is_dot. intros H.
  repeat (apply orb_false_iff; split); try apply andb_false_iff; lia.
Qed.

(** A normalized host is left as it is. *)
Lemma normalizeHost_fixed raw h : normalizeHost raw = Ok h → normalizeHost (JStr h) = Ok h.
Proof.
  intros H. destruct (normalized_units _ _ H) as [_ Hu]. apply normalizeHost_inv in H as (Hne & Hv & Hl & Hd & Hurl).
  unfold normalizeHost. rewrite trim_no_space by (eapply Forall_impl; [exact Hu|apply host_unit_no_space]).
  apply jeqb_neq in Hne as Hn. rewrite Hn. unfold strip_port, last_index_of.
  rewrite index_of_none by (rewrite list_elem_of_In, <- in_rev, <- list_elem_of_In; by apply (host_unit_not h 58)).
  change (-1 <? 0) with true. cbn [negb]. change (0 <=? -1) with false. cbn [andb]. rewrite Hd, Hl, Hn, Hv. cbn [negb].
  destruct (urlHost h); [subst|rewrite Hurl]; cbn; by rewrite jeqb_refl.
Qed.

(** ** Parsed patterns *)

(** What is known of an accepted pattern: its host is normalized and outside the platform
    domain, its path has no space, no query and at most a trailing star. *)
Record parsed_pattern (r : RoutePattern) (platformDomain : jstr) : Prop := {
  pn_host : normalizeHost (JStr (r_host r)) = Ok (r_host r);
  pn_outside : isPlatformDomainHost (r_host r) platformDomain = false;
  pn_slash : ∃ rest, r_slot r = 47 :: rest;
  pn_space : existsb is_space (r_slot r) = false;
  pn_query : includes_unit 63 (r_slot r) = false ∧ includes_unit 35 (r_slot r) = false;
  pn_star : index_of 42 (r_slot r) = -1 ∨ index_of 42 (r_slot r) = jlen (r_slot r) - 1;
  pn_route : r = route_at (r_host r) (r_slot r) }.

Lemma route_at_host h slot : r_host (route_at h slot) = h ∧ r_slot (route_at h slot) = slot.
Proof. unfold route_at. by destruct (ends_with _ slot). Qed.

Lemma includes_unit_app c a b : includes_unit c (a ++ b) = includes_unit c a || includes_unit c b.
Proof. unfold includes_unit. apply existsb_app. Qed.

Lemma parsePattern_inv raw d r : parsePattern raw d = Ok r → parsed_pattern r d.
Proof.
  unfold parsePattern. destruct raw; try done. set (t := trim s). destruct (jeqb t []); [done|].
  destruct (_ || starts_with _ _); [done|]. destruct (_ || includes_unit 35 t) eqn:Eq; [done|].
  destruct (index_of 47 t <? 0) eqn:Ei; [done|]. apply Z.ltb_ge in Ei. destruct (index_of_split 47 t Ei) as (Ht & _ & Hp).
  set (slash := index_of 47 t) in *. destruct (jeqb (slice_to slash t) []); [done|].
  destruct (existsb is_space (slice_from slash t)) eqn:Es; [done|]. destruct (includes_unit 42 _); [done|].
  destruct (negb _ && negb _) eqn:Est; [done|]. intros H. apply rbind_Ok_inv in H as (h & Hh & H).
  destruct (isPlatformDomainHost h d) eqn:Eo; [done|]. apply Ok_inj in H. subst r.
  destruct (route_at_host h (slice_from slash t)) as [E1 E2].
  apply orb_false_iff in Eq as [Eq1 Eq2]. rewrite Ht in Eq1, Eq2. rewrite <- Hp in Eq1, Eq2.
  rewrite includes_unit_app in Eq1, Eq2. apply orb_false_iff in Eq1 as [_ Eq1], Eq2 as [_ Eq2].
  split; rewrite ?E1, ?E2; try done.
  - by apply normalizeHost_fixed in Hh.
  - by eexists.
  - apply andb_false_iff in Est. rewrite !negb_false_iff, !Z.eqb_eq in Est. tauto.
Qed.

(** Two texts that start with a slash-free part and a slash share that part. *)
Lemma slash_split a a' b b' : 47 ∉ a → 47 ∉ a' → a ++ 47 :: b = a' ++ 47 :: b' → a = a'.
Proof.
  intros Ha Ha' H. assert (length a = length a') as Hl.
  { apply (f_equal (index_of 47)) in H. rewrite !index_of_app in H by done. unfold jlen in H. lia. }
  by apply app_inj_1 in H as [-> _].
Qed.

Lemma no_scheme h rest scheme : Forall (λ c, host_unit c = true) h → scheme ∈ [js "http:"; js "https:"] →
  starts_with (scheme ++ js "//") (to_lower (h ++ 47 :: rest)) = false.
Proof.
  intros Hh Hs. destruct (starts_with _ _) eqn:E; [|done]. apply starts_with_spec in E as [t E]. exfalso.
  unfold to_lower in E. rewrite map_app in E. cbn [map] in E. change (lower_unit 47) with 47 in E.
  assert (map lower_unit h = h) as Hid.
  { clear -Hh. induction Hh as [|c h Hc _ IH]; [done|]. cbn. f_equal; [|done].
    revert Hc. unfold host_unit, lower_unit, is_lower, is_digit, is_dash, is_dot, is_upper. break_goal; lia. }
  rewrite Hid, <- app_assoc in E. change (js "//") with [47; 47] in E. cbn [app] in E.
  apply slash_split in E; [|by apply host_unit_not|].
  - apply (host_unit_not h 58) in Hh; [|done]. subst h. apply Hh. apply (bool_decide_unpack _).
    repeat (apply elem_of_cons in Hs as [->|Hs]; [done|]). by apply not_elem_of_nil in Hs.
  - apply (bool_decide_unpack _). repeat (apply elem_of_cons in Hs as [->|Hs]; [done|]). by apply not_elem_of_nil in Hs.
Qed.

Lemma pattern_text_trimmed h rest : h ≠ [] → Forall (λ c, host_unit c = true) h →
  existsb is_space (47 :: rest) = false → trim (h ++ 47 :: rest) = h ++ 47 :: rest.
Proof.
  intros Hne Hh Hs. apply trim_no_space, Forall_app. split.
  - eapply Forall_impl; [exact Hh|apply host_unit_no_space].
  - apply Forall_forall. intros c Hc. destruct (is_space c) eqn:E; [|done].
    assert (existsb is_space (47 :: rest) = true); [|congruence]. apply existsb_exists. exists c. by rewrite <- list_elem_of_In.
Qed.

Lemma parsed_pattern_print r d : parsed_pattern r d → parsePattern (JStr (r_host r ++ r_slot r)) d = Ok r.
Proof.
  intros [H1 H2 (rest & H3) H4 [H5 H5'] H6 H7]. destruct (normalized_units _ _ H1) as [Hne Hu].
  unfold parsePattern. rewrite H3 in *. rewrite pattern_text_trimmed by done.
  rewrite (proj2 (jeqb_neq _ _)) by (by destruct (r_host r)).
  change (js "http://") with (js "http:" ++ js "//"). change (js "https://") with (js "https:" ++ js "//").
  rewrite !no_scheme by (done || set_solver). cbn [orb]. rewrite !includes_unit_app, H5, H5'.
  rewrite !(proj2 (includes_unit_false _ _)) by (by apply (host_unit_not (r_host r))). cbn [orb].
  rewrite index_of_app by (by apply (host_unit_not (r_host r))). 
  destruct (Z.ltb_spec (jlen (r_host r)) 0); [unfold jlen in *; lia|]. destruct (slice_at (r_host r) (47 :: rest)) as [-> ->].
  rewrite H4, (proj2 (jeqb_neq _ _) Hne).
  rewrite (proj2 (includes_unit_false _ _)) by (by apply (host_unit_not (r_host r))).
  assert (negb (index_of 42 (47 :: rest) =? -1) && negb (index_of 42 (47 :: rest) =? jlen (47 :: rest) - 1) = false) as ->.
  { apply andb_false_iff. rewrite !negb_false_iff, !Z.eqb_eq. done. }
  rewrite H1. cbn [rbind]. rewrite H2. by rewrite <- H7.
Qed.

(** Does the slot of a route cover a request? A trailing star stands for any ending, and a
    slot without one has no query either. *)
Definition slot_covers (slot pathname search : jstr) : bool :=
  if ends_with (js "*") slot then starts_with (take (length slot - 1) slot) pathname
  else jeqb pathname slot && jeqb search [].

(** The entry the gateway builds from a route of the table. *)
Definition entry_of (r : RoutePattern) (ns worker version : jstr) : option pattern_entry :=
  match r_kind r, r_value r with
  | JStr kind, JStr value => k ← kind_of_text kind; Some (PatternEntry (r_slot r) k value ns worker version)
  | _, _ => None
  end.

Lemma route_at_entry h slot ns worker version : ∃ e, entry_of (route_at h slot) ns worker version = Some e ∧
  pe_slot e = slot ∧ ∀ pathname search, matchPatternEntry e pathname search = slot_covers slot pathname search.
Proof.
  unfold route_at, slot_covers. destruct (ends_with (js "*") slot); by eexists.
Qed.

Lemma parse_routes_inv d l : ∀ seen rs, parse_routes_from seen l d = Ok rs →
  Forall (λ r, parsed_pattern r d) rs ∧ NoDup (map routeKey rs) ∧ ∀ k, k ∈ seen → k ∉ map routeKey rs.
Proof.
  induction l as [|raw l IH]; intros seen rs H; cbn [parse_routes_from] in H.
  - apply Ok_inj in H. subst rs. cbn. split_and!; [done|constructor|]. intros k _. apply not_elem_of_nil.
  - apply rbind_Ok_inv in H as (r & Hr & H). destruct (set_has seen (routeKey r)) eqn:Es; [done|].
    apply rbind_Ok_inv in H as (out & Ho & H). apply Ok_inj in H. subst rs.
    destruct (IH _ _ Ho) as (H1 & H2 & H3). cbn. split_and!.
    + constructor; [by eapply parsePattern_inv|done].
    + constructor; [apply H3; set_solver|done].
    + intros k Hk. apply not_elem_of_cons. split; [|apply H3; set_solver]. intros ->.
      apply set_has_spec in Hk. congruence.
Qed.

Lemma parsed_host_no_bar r d : parsed_pattern r d → 124 ∉ r_host r.
Proof. intros [H _ _ _ _ _ _]. destruct (normalized_units _ _ H) as [_ Hu]. by apply (host_unit_not (r_host r)). Qed.
End host_lemmas.

(** ** Queue consumers *)

Lemma integer_in_inv low high e v n : integer_in low high e v = Ok n → low <= n <= high.
Proof.
  unfold integer_in. destruct v as [| | |[z| | |]| | | |]; try done. destruct (_ || _) eqn:E; [done|]. intros <-%Ok_inj. lia.
Qed.

Lemma optional_inv {A} v (read : jsval → result topology_error A) o :
  optional v read = Ok o → ∀ a, o = Some a → read v = Ok a.
Proof.
  unfold optional. destruct (nullish v); [by intros [= <-] a|]. intros H a ->.
  apply rbind_Ok_inv in H as (a' & -> & [= ->]). done.
Qed.

(** The limits of a queue consumer. *)
Record consumer_ok (c : QueueConsumer) : Prop := {
  co_queue : QUEUE_NAME_RE (qc_queue c) = true;
  co_size : 1 <= qc_maxBatchSize c <= MAX_BATCH_SIZE;
  co_timeout : 0 <= qc_maxBatchTimeoutMs c <= MAX_BATCH_TIMEOUT_MS;
  co_retries : 0 <= qc_maxRetries c <= MAX_RETRIES;
  co_delay : ∀ n, qc_retryDelaySeconds c = Some n → 0 <= n <= MAX_QUEUE_DELAY_SECONDS;
  co_dead : ∀ q, qc_deadLetterQueue c = Some q → QUEUE_NAME_RE q = true ∧ q ≠ qc_queue c }.

Lemma parse_consumer_inv seen entry c : parse_consumer seen entry = Ok c → consumer_ok c ∧ qc_queue c ∉ seen.
Proof.
  unfold parse_consumer. destruct entry; try done. cbv zeta. destruct (obj_get (js "queue") fields) as [| | | |queue| | |]; try done.
  destruct (isValidQueueName (JStr queue)) eqn:Eq; [|done]. cbn [negb]. destruct (set_has seen queue) eqn:Es; [done|].
  intros H. apply rbind_Ok_inv in H as (size & H1%integer_in_inv & H). apply rbind_Ok_inv in H as (timeout & H2%integer_in_inv & H).
  apply rbind_Ok_inv in H as (retries & H3%integer_in_inv & H). apply rbind_Ok_inv in H as (delay & H4 & H).
  apply rbind_Ok_inv in H as (dead & H5 & H). apply Ok_inj in H. subst c. split.
  - split; cbn; try done.
    + intros n ->. eapply integer_in_inv. by apply (optional_inv _ _ _ H4).
    + intros q ->. pose proof (optional_inv _ _ _ H5 q eq_refl) as Hd. unfold parse_dead_letter in Hd.
      destruct (obj_get (js "deadLetterQueue") fields) as [| | | |s| | |]; try done. destruct (isValidQueueName (JStr s)) eqn:Ev; [|done].
      cbn [negb] in Hd. destruct (jeqb s queue) eqn:Ej; [done|]. apply Ok_inj in Hd. subst q.
      split; [exact Ev|]. by apply jeqb_neq.
  - cbn. intros Hin%set_has_spec. congruence.
Qed.

Lemma parse_consumers_inv l : ∀ seen cs, parse_consumers_from seen l = Ok cs →
  Forall consumer_ok cs ∧ NoDup (map qc_queue cs) ∧ ∀ q, q ∈ seen → q ∉ map qc_queue cs.
Proof.
  induction l as [|entry l IH]; intros seen cs H; cbn [parse_consumers_from] in H.
  - apply Ok_inj in H. subst cs. cbn. split_and!; [done|constructor|]. intros q _. apply not_elem_of_nil.
  - apply rbind_Ok_inv in H as (c & Hc & H). apply rbind_Ok_inv in H as (out & Ho & H). apply Ok_inj in H. subst cs.
    apply parse_consumer_inv in Hc as [Hc Hs]. destruct (IH _ _ Ho) as (H1 & H2 & H3). cbn. split_and!.
    + by constructor.
    + constructor; [apply H3; set_solver|done].
    + intros q Hq. apply not_elem_of_cons. split; [|apply H3; set_solver]. by intros ->.
Qed.

(** ** Properties *)

(** C38. Route patterns: an accepted pattern prints as its host followed by its path, and the
    printed text is accepted again as the same route; so the routes kept in a bundle are
    already in normal form. *)
Theorem pattern_roundtrip (urlHost : jstr → option jstr) (raw : jsval) (platformDomain : jstr) (r : RoutePattern)
    (H : parsePattern urlHost raw platformDomain = Ok r) :
  parsePattern urlHost (JStr (r_host r ++ r_slot r)) platformDomain = Ok r.
Proof. by eapply parsed_pattern_print, parsePattern_inv. Qed.

Lemma pattern_roundtrip_witness :
  parsePattern Some (JStr (js " API.Example.COM:8443/v1/*")) (js "workers.local")
    = Ok (MkRoute (js "api.example.com") (js "/v1/*") (JStr (js "prefix")) (JStr (js "/v1/"))) ∧
  parsePattern Some (JStr (js "api.example.com/v1/*")) (js "workers.local")
    = Ok (MkRoute (js "api.example.com") (js "/v1/*") (JStr (js "prefix")) (JStr (js "/v1/"))).
Proof.
  split; [vm_compute; reflexivity|].
  apply (pattern_roundtrip Some (JStr (js " API.Example.COM:8443/v1/*")) (js "workers.local")
           (MkRoute (js "api.example.com") (js "/v1/*") (JStr (js "prefix")) (JStr (js "/v1/")))).
  vm_compute. reflexivity.
Defined.

(** C39. Queue consumer limits: every consumer of an accepted list has a batch of 1 to 100
    messages, a timeout of at most a minute, at most 100 retries and a delay of at most a
    day, its queue and its dead-letter queue are valid names that differ, and no queue has two
    consumers. *)
Theorem queue_consumer_limits (raw : jsval) (consumers : list QueueConsumer)
    (H : parseQueueConsumers raw = Ok consumers) :
  Forall consumer_ok consumers ∧ NoDup (map qc_queue consumers).
Proof.
  unfold parseQueueConsumers in H. destruct raw; try done;
    try (apply Ok_inj in H; subst; split; [done|constructor]).
  destruct (parse_consumers_inv _ _ _ H) as (H1 & H2 & _). done.
Qed.

Definition consumer_sample : jsval :=
  JArr [JObj [(js "queue", JStr (js "jobs")); (js "maxRetries", JNum (NInt 100)); (js "deadLetterQueue", JStr (js "failed"))];
        JObj [(js "queue", JStr (js "mail")); (js "retryDelaySeconds", JNum (NInt 86400))]].

Lemma queue_consumer_limits_witness :
  Forall consumer_ok [MkConsumer (js "jobs") 10 5000 100 None (Some (js "failed"));
                      MkConsumer (js "mail") 10 5000 3 (Some 86400) None] ∧
  NoDup [js "jobs"; js "mail"].
Proof.
  apply (queue_consumer_limits consumer_sample
           [MkConsumer (js "jobs") 10 5000 100 None (Some (js "failed"));
            MkConsumer (js "mail") 10 5000 3 (Some 86400) None]).
  vm_compute. reflexivity.
Defined.
