(* ===== verification/Routing.v ===== *)
(** * Promotion, version bumps and declared hosts

    Models src/control/routing.js: the callbacks of [promoteWithRoutes],
    [bumpActiveAndPromote] and [reconcileHosts] as attempts of an optimistic transaction.
    Error details, log lines and the text of messages are left out. [nextFireMs] is the
    vendored cron library, [cronId] a hash; both are section variables. *)

From stdpp Require Import base list strings gmap.
From Stdlib Require Import ZArith Lia.
From S2P Require Import Prelude NsPattern WorkerContract Utf8 Json JsNumber Gateway SessionPolicy Txn Control Topology.

#[local] Open Scope Z_scope.
#[local] Open Scope wdl_scope.
#[local] Open Scope txn_scope.

Definition MAX_ATTEMPTS : nat := 5.
Definition HOST_RECONCILE_READ_BATCH_SIZE : nat := 64.
Definition DEPENDENCY_READ_BATCH_SIZE : nat := 64.
Definition DECLARED_HOSTS_REVISION_KEY : jstr := js "declared-hosts:revision".
Definition ROUTES_CHANNEL : jstr := js "routes:invalidate".
Definition PATTERNS_CHANNEL : jstr := js "patterns:invalidate".
Definition SESSION_POLICY_CHANNEL : jstr := js "session-policy:restart".

Definition fail {A} (status : Z) (code : string) : result control_error A := Err (routing_error status code).
Definition rd_fail {A} (status : Z) (code : string) : reads A := rd_throw (routing_error status code).

(** An error of another module that reaches the caller unchanged. *)
Definition rethrow {E A} (r : result E A) : result control_error A :=
  match r with Ok a => Ok a | Err _ => Err Thrown end.

Definition opt_string (o : option jstr) : jsval := match o with Some s => JStr s | None => JNull end.

Definition bundle_key (ns worker version : jstr) : result control_error jstr :=
  rethrow (bundleKey ns worker (JStr version)).

Definition requirePatternProjection (raw : jstr) : result control_error projection :=
  match decodePatternProjection (JStr raw) with
  | Some p => Ok p
  | None => fail 500 "corrupt_pattern_projection"
  end.

Definition uniqueKeys (keys : list jstr) : list jstr := unique (filter (λ k, k ≠ []) keys).

Definition watchKeys (keys : list jstr) : reads unit :=
  match uniqueKeys keys with [] => rd_ret tt | ks => rd_watch ks end.

(** ** Cron sequences *)

Definition cronSequenceSeedFromProjection (meta : list (jstr * jsval)) : result control_error (option Z) :=
  if negb (has_own (js "seq") meta) then Ok None
  else match safe_integer_of (obj_get (js "seq") meta) with
       | Some n => if n <? 0 then fail 500 "corrupt_cron_meta" else Ok (Some n)
       | None => fail 500 "corrupt_cron_meta"
       end.

(** A decimal integer without leading zeros, as the regular expression requires it. *)
Definition canonical_decimal (s : jstr) : bool :=
  match s with
  | [] => false
  | [c] => is_digit c
  | c :: _ => negb (c =? 48) && forallb is_digit s
  end.

Definition decimal_value (s : jstr) : option Z :=
  if canonical_decimal s && is_safe_integer (dec_value 0 s) then Some (dec_value 0 s) else None.

Definition parseCronSequence (raw : option jstr) : result control_error (option Z) :=
  match raw with
  | None => Ok None
  | Some text => match decimal_value text with
                 | Some n => Ok (Some n)
                 | None => fail 500 "corrupt_cron_sequence"
                 end
  end.

Definition resolveCronSequence (cronMeta : option (list (jstr * jsval))) (rawSequence : option jstr)
    : result control_error (Z * bool) :=
  let! persisted := parseCronSequence rawSequence in
  match persisted with
  | Some n => if n <? CRON_GENERATION_EPOCH - 1 then fail 500 "corrupt_cron_sequence" else Ok (n, false)
  | None =>
      match cronMeta with
      | None => Ok (CRON_GENERATION_EPOCH - 1, true)
      | Some meta =>
          let! seed := cronSequenceSeedFromProjection meta in
          match seed with
          | None => fail 500 "corrupt_cron_sequence"
          | Some n => Ok (Z.max n (CRON_GENERATION_EPOCH - 1), true)
          end
      end
  end.

Definition parseCronMeta (raw : jstr) : result control_error (list (jstr * jsval)) :=
  match json_parse raw with
  | Some (JObj fields) => Ok fields
  | _ => fail 500 "corrupt_cron_meta"
  end.

(** A sequence that is kept although no cron is left. *)
Definition check_idle_sequence (rawSequence : option jstr) : result control_error unit :=
  match rawSequence with
  | None => Ok tt
  | Some _ =>
      let! persisted := parseCronSequence rawSequence in
      match persisted with
      | Some n => if n <? CRON_GENERATION_EPOCH - 1 then fail 500 "corrupt_cron_sequence" else Ok tt
      | None => fail 500 "corrupt_cron_sequence"
      end
  end.

(** ** Bundle metadata *)

Definition routingBundleMeta (raw : jsval) : result control_error (list (jstr * jsval)) :=
  let! meta := parseBundleMeta raw in
  let! _ := match obj_get (js "workersDev") meta with
            | JUndef | JBool _ => Ok tt
            | _ => fail 500 "corrupt_meta"
            end in
  let bad field := match obj_get (js field) meta with JUndef => false | v => negb (isSessionPolicyMode v) end in
  if bad "sessionPolicy" || bad "durableObjectRollout" then fail 500 "corrupt_meta" else Ok meta.

Definition retryIfRouteChanged (ns workerName version : jstr) : reads unit :=
  let+ currentVersion := rd_ask (QHGet (routesKey ns) workerName) in
  if bool_decide (currentVersion = Some version) then rd_ret tt else rd_throw WatchFailed.

Definition readMeta (ns workerName : jstr) (version : option jstr) : reads (option (list (jstr * jsval))) :=
  match version with
  | None | Some [] => rd_ret None
  | Some version =>
      let+ key := rd_lift (bundle_key ns workerName version) in
      let+ raw := rd_ask (QHGet key (js "__meta__")) in
      let+ _ := match raw with None => retryIfRouteChanged ns workerName version | Some _ => rd_ret tt end in
      let+ meta := rd_lift (routingBundleMeta (opt_string raw)) in
      rd_ret (Some meta)
  end.

Definition workersDev_of (meta : list (jstr * jsval)) : bool :=
  match obj_get (js "workersDev") meta with JBool false => false | _ => true end.

Definition assertRoutableWorkersDev (meta : list (jstr * jsval)) (routes : list RoutePattern) : result control_error bool :=
  match workersDev_of meta, routes with
  | false, [] => fail 400 "workers_dev_requires_routes"
  | workersDev, _ => Ok workersDev
  end.

Definition sessionPolicyModeFromMeta (meta : list (jstr * jsval)) : jstr :=
  let mode field := match obj_get (js field) meta with
                    | JStr m => if isSessionPolicyMode (JStr m) then Some m else None
                    | _ => None
                    end in
  match mode "sessionPolicy" with
  | Some m => m
  | None => default SESSION_POLICY_PRESERVE (mode "durableObjectRollout")
  end.

(** The loop over the bindings; [storageId] is the id seen so far. *)
Fixpoint storage_ids_coherent (storageId : option jstr) (bindings : list (jstr * jsval)) : result control_error unit :=
  match bindings with
  | [] => Ok tt
  | (_, binding) :: rest =>
      if is_type "do" binding then
        match filled_string (member "doStorageId" binding) with
        | None => fail 500 "corrupt_meta"
        | Some id =>
            match storageId with
            | Some seen => if jeqb seen id then storage_ids_coherent (Some id) rest else fail 500 "corrupt_meta"
            | None => storage_ids_coherent (Some id) rest
            end
        end
      else storage_ids_coherent storageId rest
  end.

Definition assertDoStorageIdCoherent (meta : list (jstr * jsval)) : result control_error unit :=
  match obj_get (js "bindings") meta with
  | JObj bindings => storage_ids_coherent None bindings
  | _ => Ok tt
  end.

(** ** Session policies *)

Record SessionPolicyPlan := MkPolicyPlan { sp_planMode : jstr; sp_planSequence : Z; sp_persistSequence : bool }.

Definition stageSessionPolicy (ns worker version : jstr) (plan : SessionPolicyPlan) : result control_error (list write) :=
  let! projection := rethrow (encodeSessionPolicyProjection
                                (PolicyProjection version (sp_planMode plan) (sp_planSequence plan))) in
  if sp_persistSequence plan then
    let! event := rethrow (encodeSessionPolicyEvent (PolicyEvent ns worker version (sp_planSequence plan))) in
    Ok [WSet (sessionPolicySequenceKey ns worker) (string_of_Z (sp_planSequence plan));
        WSet (sessionPolicyKey ns worker) projection; WPublish SESSION_POLICY_CHANNEL event]
  else Ok [WSet (sessionPolicyKey ns worker) projection].

Definition parseSessionPolicySequence (raw : option jstr) : result control_error Z :=
  match raw with
  | None => Ok 0
  | Some text => match decimal_value text with
                 | Some n => Ok n
                 | None => fail 500 "corrupt_session_policy_sequence"
                 end
  end.

Definition computeSessionPolicyPlan (currentVersion : option jstr) (newVersion mode : jstr)
    (rawSequence rawProjection : option jstr) : result control_error SessionPolicyPlan :=
  let! allocated := parseSessionPolicySequence rawSequence in
  match parseSessionPolicyProjection (opt_string rawProjection) with
  | Err _ => fail 500 "corrupt_session_policy_projection"
  | Ok current =>
      let! _ := match current with
                | Some c => if bool_decide (currentVersion = Some (sp_version c)) then Ok tt
                            else fail 500 "corrupt_session_policy_projection"
                | None => Ok tt
                end in
      let! _ := match current with
                | Some c => if sp_restartSequence c =? allocated then Ok tt
                            else fail 500 "corrupt_session_policy_sequence"
                | None => Ok tt
                end in
      let restart := jeqb mode SESSION_POLICY_RESTART in
      let repeated c := restart && jeqb (sp_version c) newVersion && jeqb (sp_mode c) SESSION_POLICY_RESTART in
      let restartSequence := if restart then allocated + 1 else allocated in
      let fresh := if is_safe_integer restartSequence then Ok (MkPolicyPlan mode restartSequence restart)
                   else fail 500 "session_policy_sequence_exhausted" in
      match current with
      | Some c => if repeated c then Ok (MkPolicyPlan mode (sp_restartSequence c) false) else fresh
      | None => fresh
      end
  end.

(** ** Staged writes *)

Definition stageVersionFlip (ns workerName newVersion : jstr) (routes : list RoutePattern) (workersDev : bool)
    (affectedHosts : list jstr) : result control_error (list write) :=
  let! patterns := stage_all (λ r,
    let! value := rethrow (encodePatternProjection (JStr ns) (JStr workerName) (JStr newVersion) (r_kind r) (r_value r)) in
    Ok [WHSet (patternsKey (r_host r)) (r_slot r) value]) routes in
  Ok (patterns
      ++ [WHSet (routesKey ns) workerName newVersion;
          if workersDev then WSRem (platformDomainDisabledKey ns) workerName
          else WSAdd (platformDomainDisabledKey ns) workerName]
      ++ map (WPublish PATTERNS_CHANNEL) affectedHosts ++ [WPublish ROUTES_CHANNEL ns]).

Definition stageDeclaredHostChanges (ns : jstr) (toAdd : list jstr) (removals : list (jstr * gset jstr)) : list write :=
  let changedHosts := unique (toAdd ++ map fst removals) in
  flat_map (λ host, [WSAdd (hostsKey ns) host; WSAdd (hostDeclarationsKey host) ns; WSAdd DECLARED_HOSTS_KEY host]) toAdd
  ++ flat_map (λ '(host, declaredNs),
       [WSRem (hostsKey ns) host; WSRem (hostDeclarationsKey host) ns]
       ++ (if decide (declaredNs ∖ {[ns]} = ∅) then [WDel (hostDeclarationsKey host); WSRem DECLARED_HOSTS_KEY host] else []))
       removals
  ++ map (WPublish PATTERNS_CHANNEL) changedHosts
  ++ match changedHosts with [] => [] | _ => [WIncr DECLARED_HOSTS_REVISION_KEY] end.

(** The consumers to stage and the ones to remove. *)
Definition computeQueueConsumerPlan (oldQueueConsumers newQueueConsumers : list QueueConsumer)
    : list QueueConsumer * list QueueConsumer :=
  (newQueueConsumers, filter (λ c, qc_queue c ∉ map qc_queue newQueueConsumers) oldQueueConsumers).

Definition stageQueueConsumerPlan (ns workerName newVersion : jstr) (plan : list QueueConsumer * list QueueConsumer)
    : list write :=
  flat_map (stageQueueConsumerProjection ns workerName newVersion) plan.1
  ++ flat_map (λ c, stageQueueConsumerRemoval ns (qc_queue c)) plan.2.

(** ** Cron plans *)

Definition slotMsFor (ms : Z) : Z := ms / 60000 * 60000.

Section routing.
Variable cronId : jstr → jstr → jstr.
(** The next time a cron expression fires; [None] when the library throws. *)
Variable nextFireMs : jstr → jstr → Z → option Z.

(** The loop over [cronDiff.added]: one generation and one slot per entry. *)
Fixpoint place_crons (now cronSeq : Z) (added : list (jstr * CronSpec)) : result control_error (Z * list CronEntry) :=
  match added with
  | [] => Ok (cronSeq, [])
  | (id, spec) :: rest =>
      if MAX_SAFE_INTEGER <=? cronSeq then fail 500 "cron_sequence_exhausted"
      else match nextFireMs (c_cron spec) (c_timezone spec) now with
           | None => Err Thrown
           | Some ms =>
               let! placed := place_crons now (cronSeq + 1) rest in
               Ok (placed.1, MkCronEntry id spec (cronSeq + 1) (slotMsFor ms) :: placed.2)
           end
  end.

(** The entries of the hash that are not [__meta__] and are JSON. *)
Definition old_crons (cronHash : gmap jstr jstr) : list (jstr * jsval) :=
  omap (λ kv : jstr * jstr, if jeqb kv.1 (js "__meta__") then None else v ← json_parse kv.2; Some (kv.1, v))
    (map_to_list cronHash).

Definition computeCronPlan (cronHash : gmap jstr jstr) (rawSequence : option jstr) (newCrons : list CronSpec)
    (now : Z) : result control_error CronPlan :=
  let! cronMeta := match cronHash !! js "__meta__" with
                   | Some raw => let! meta := parseCronMeta raw in Ok (Some meta)
                   | None => Ok None
                   end in
  let! cronDiff := diffCrons cronId (old_crons cronHash) newCrons in
  let hasExistingCronState := negb (bool_decide (cronHash = ∅)) in
  if negb (hasExistingCronState || negb (bool_decide (newCrons = []))) then
    let! _ := check_idle_sequence rawSequence in Ok (MkCronPlan 0 false [] [])
  else
    let! _ := match cronMeta with
              | None => if hasExistingCronState then fail 500 "corrupt_cron_meta" else Ok tt
              | Some _ => Ok tt
              end in
    let! sequence := resolveCronSequence cronMeta rawSequence in
    let! placed := place_crons now sequence.1 cronDiff.1 in
    Ok (MkCronPlan placed.1 (sequence.2 || negb (bool_decide (placed.2 = []))) placed.2 cronDiff.2).

(** ** Dependencies *)

Fixpoint chunks {X} (fuel n : nat) (l : list X) : list (list X) :=
  match fuel, l with
  | S fuel, _ :: _ => take n l :: chunks fuel n (drop n l)
  | _, _ => []
  end.

(** The batches of [DEPENDENCY_READ_BATCH_SIZE]; a list has at most as many as elements. *)
Definition batches {X} (l : list X) : list (list X) := chunks (length l) DEPENDENCY_READ_BATCH_SIZE l.

Definition assertD1DependencySnapshot (exists_ : list bool) : result control_error unit :=
  if forallb id exists_ then Ok tt else fail 409 "d1_database_dependency_missing".

Definition outgoingDependenciesByKey (outgoingRefs : list OutgoingRef) : result control_error (list jstr) :=
  (fix go refs := match refs with
     | [] => Ok []
     | ref :: refs =>
         let! key := bundle_key (or_targetNs ref) (or_targetWorker ref) (or_targetVersion ref) in
         let! keys := go refs in Ok (key :: filter (λ k, k ≠ key) keys)
     end) outgoingRefs.

Definition assertOutgoingDependencySnapshot (lengths : list Z) : result control_error unit :=
  if existsb (Z.eqb 0) lengths then fail 409 "service_binding_dependency_missing" else Ok tt.

Definition exists_many (keys : list jstr) : reads (list bool) := rd_map (λ k, rd_ask (QExists k)) keys.
Definition meta_lengths (keys : list jstr) : reads (list Z) := rd_map (λ k, rd_ask (QHStrLen k (js "__meta__"))) keys.

(** EXISTS of a batch counts the keys that are there; only a wrong count reads them one by
    one. *)
Definition check_d1_batch (batch : list jstr) : reads unit :=
  let+ flags := exists_many batch in
  if forallb id flags then rd_ret tt
  else let+ again := exists_many batch in rd_lift (assertD1DependencySnapshot again).

Definition check_outgoing_batch (batch : list jstr) : reads unit :=
  let+ lengths := meta_lengths batch in rd_lift (assertOutgoingDependencySnapshot lengths).

Definition assertBundleDependenciesPresent (ns : jstr) (d1Refs : list D1Ref) (outgoingRefs : list OutgoingRef) : reads unit :=
  let d1Keys := map (λ ref, d1DatabaseKey ns (dr_databaseId ref)) d1Refs in
  let+ outgoingKeys := rd_lift (outgoingDependenciesByKey outgoingRefs) in
  match uniqueKeys (d1Keys ++ outgoingKeys) with
  | [] => rd_ret tt
  | dependencyKeys =>
      let firstD1Keys := take DEPENDENCY_READ_BATCH_SIZE d1Keys in
      let firstOutgoingKeys := take (DEPENDENCY_READ_BATCH_SIZE - length firstD1Keys) outgoingKeys in
      let+ _ := rd_watch dependencyKeys in
      let+ flags := exists_many firstD1Keys in
      let+ lengths := meta_lengths firstOutgoingKeys in
      let+ _ := if forallb id flags then rd_ret tt
                else let+ again := exists_many firstD1Keys in rd_lift (assertD1DependencySnapshot again) in
      let+ _ := rd_iter check_d1_batch (batches (drop (length firstD1Keys) d1Keys)) in
      let+ _ := rd_lift (assertOutgoingDependencySnapshot lengths) in
      rd_iter check_outgoing_batch (batches (drop (length firstOutgoingKeys) outgoingKeys))
  end.

Definition assertQueueConsumerOwnership (ns workerName : jstr) (oldQueueConsumers newQueueConsumers : list QueueConsumer)
    : reads unit :=
  let queueUnion := unique (map qc_queue oldQueueConsumers ++ map qc_queue newQueueConsumers) in
  let+ _ := watchKeys (map (queueConsumerKey ns) queueUnion) in
  let+ workerFields := rd_map (λ c, rd_ask (QHGet (queueConsumerKey ns (qc_queue c)) (js "worker"))) newQueueConsumers in
  if forallb (λ held, match held with Some [] | None => true | Some w => jeqb w workerName end) workerFields
  then rd_ret tt else rd_fail 409 "queue_consumer_conflict".

Definition assertDeclaredHosts (ns : jstr) (newRoutes : list RoutePattern) : reads unit :=
  let newHosts := unique (map r_host newRoutes) in
  let+ memberFlags := rd_map (λ h, rd_ask (QSIsMember (hostsKey ns) h)) newHosts in
  if forallb id memberFlags then rd_ret tt else rd_fail 403 "host_not_declared".

(** ** Route conflicts *)

(** The projections of a host's slots; a slot that does not decode is corruption. *)
Definition host_slots (state : gmap jstr jstr) : result control_error (list (jstr * projection)) :=
  (fix go (l : list (jstr * jstr)) := match l with
     | [] => Ok []
     | (slot, raw) :: l =>
         let! held := requirePatternProjection raw in
         let! rest := go l in Ok ((slot, held) :: rest)
     end) (map_to_list state).

Fixpoint host_analysis (hosts : list jstr) (states : list (gmap jstr jstr))
    : result control_error (list (jstr * list (jstr * projection))) :=
  match hosts, states with
  | h :: hosts, state :: states =>
      let! slots := host_slots state in
      let! rest := host_analysis hosts states in Ok ((h, slots) :: rest)
  | _, _ => Ok []
  end.

(** [Map.prototype.get] *)
Fixpoint assoc {X} (k : jstr) (l : list (jstr * X)) : option X :=
  match l with [] => None | (k', x) :: l => if jeqb k k' then Some x else assoc k l end.

(** No slot of the host belongs to another namespace, and the slot itself is free or held
    by this worker. *)
Definition route_free (ns workerName : jstr) (analysis : list (jstr * list (jstr * projection))) (r : RoutePattern) : bool :=
  match assoc (r_host r) analysis with
  | None => true
  | Some slots =>
      forallb (λ sp : jstr * projection, jeqb (pp_ns sp.2) [] || jeqb (pp_ns sp.2) ns) slots
      && match assoc (r_slot r) slots with
         | None => true
         | Some held => jeqb (pp_ns held) ns && jeqb (pp_worker held) workerName
         end
  end.

(** Answers the state of every affected host. *)
Definition readHostStateAndAssertRouteConflicts (ns workerName : jstr) (newRoutes : list RoutePattern)
    (affectedHosts : list jstr) : reads (list (jstr * gmap jstr jstr)) :=
  let+ states := rd_map (λ h, rd_ask (QHGetAll (patternsKey h))) affectedHosts in
  let+ analysis := rd_lift (host_analysis affectedHosts states) in
  if forallb (route_free ns workerName analysis) newRoutes then rd_ret (zip affectedHosts states)
  else rd_fail 409 "route_conflict".

(** One active worker of a platform namespace: its metadata is checked, its names compared. *)
Definition check_platform_worker (otherNs : jstr) (newAs : list jstr) (entry : jstr * jstr * option jstr) : reads unit :=
  let '(otherWorker, otherVersion, rawMeta) := entry in
  let+ _ := match rawMeta with None => retryIfRouteChanged otherNs otherWorker otherVersion | Some _ => rd_ret tt end in
  let+ otherMeta := rd_lift (routingBundleMeta (opt_string rawMeta)) in
  let heldAs := exports_field otherMeta in
  if existsb (λ a, set_has heldAs a) newAs then rd_fail 409 "platform_as_conflict" else rd_ret tt.

Definition platform_meta (otherNs : jstr) (entry : jstr * jstr) : reads (option jstr) :=
  let+ key := rd_lift (bundle_key otherNs entry.1 entry.2) in rd_ask (QHGet key (js "__meta__")).

Definition assertPlatformAsAvailable (ns workerName : jstr) (newAs : list jstr) : reads unit :=
  if negb (set_has PLATFORM_TIER_RESERVED_NS ns) || bool_decide (newAs = []) then rd_ret tt
  else
    let+ _ := watchKeys (map routesKey (filter (λ n, n ≠ ns) PLATFORM_TIER_RESERVED_NS)) in
    rd_iter (λ otherNs,
      let+ activeRoutes := rd_ask (QHGetAll (routesKey otherNs)) in
      let routeEntries := filter (λ e : jstr * jstr, ¬ (otherNs = ns ∧ e.1 = workerName) ∧ e.2 ≠ [])
                            (map_to_list activeRoutes) in
      let+ rawMetas := rd_map (platform_meta otherNs) routeEntries in
      rd_iter (check_platform_worker otherNs newAs) (zip routeEntries rawMetas)) PLATFORM_TIER_RESERVED_NS.

(** ** Promotion *)

Record PromoteInputs := MkInputs {
  pi_newRoutes : list RoutePattern; pi_workersDev : bool; pi_sessionPolicy : jstr;
  pi_newCrons : list CronSpec; pi_newQueueConsumers : list QueueConsumer; pi_newAs : list jstr;
  pi_d1Refs : list D1Ref; pi_outgoingRefs : list OutgoingRef;
  pi_rawSequence : option jstr; pi_rawProjection : option jstr }.

Definition truthy_text (v : option jstr) : bool := match v with Some (_ :: _) => true | _ => false end.

Definition readPromoteInitialSnapshot (ns workerName newVersion : jstr) (watch : list jstr)
    : reads (option jstr * PromoteInputs) :=
  let+ candidateKey := rd_lift (bundle_key ns workerName newVersion) in
  let+ _ := rd_watch watch in
  let+ callerLock := rd_ask (QGet (deleteLockKey ns workerName)) in
  let+ rawSequence := rd_ask (QGet (sessionPolicySequenceKey ns workerName)) in
  let+ rawProjection := rd_ask (QGet (sessionPolicyKey ns workerName)) in
  let+ metaRaw := rd_ask (QHGet candidateKey (js "__meta__")) in
  let+ currentVersion := rd_ask (QHGet (routesKey ns) workerName) in
  if truthy_text callerLock then rd_fail 409 "deleting"
  else match metaRaw with
  | None => rd_fail 404 "version_not_found"
  | Some raw =>
      let+ inputs := rd_lift (
        let! meta := routingBundleMeta (JStr raw) in
        let! newRoutes := list_field "routes" route_of meta in
        let! workersDev := assertRoutableWorkersDev meta newRoutes in
        let! newCrons := list_field "crons" cron_of meta in
        let! newQueueConsumers := list_field "queueConsumers" consumer_of meta in
        let newAs := exports_field meta in
        let! _ := assertDoStorageIdCoherent meta in
        let! _ := if isReservedNs (JStr ns) && negb (set_has ROUTES_ALLOWED_RESERVED_NS ns)
                     && negb (bool_decide (length newRoutes = 0%nat))
                  then fail 400 "reserved_namespace_routes" else Ok tt in
        let bindings := obj_get (js "bindings") meta in
        Ok (MkInputs newRoutes workersDev (sessionPolicyModeFromMeta meta) newCrons newQueueConsumers newAs
              (extractD1Refs bindings) (extractOutgoingRefs bindings ns) rawSequence rawProjection)) in
      rd_ret (currentVersion, inputs)
  end.

Record PromoteObserved := MkObserved {
  po_oldRoutes : list RoutePattern; po_oldQueueConsumers : list QueueConsumer;
  po_affectedHosts : list jstr; po_hostState : list (jstr * gmap jstr jstr) }.

Definition readAndAssertPromoteState (ns workerName : jstr) (currentVersion : option jstr) (inputs : PromoteInputs)
    : reads PromoteObserved :=
  let+ _ := assertBundleDependenciesPresent ns (pi_d1Refs inputs) (pi_outgoingRefs inputs) in
  let+ currentMeta := readMeta ns workerName currentVersion in
  let+ oldRoutes := rd_lift (list_field "routes" route_of (default [] currentMeta)) in
  let+ oldQueueConsumers := rd_lift (list_field "queueConsumers" consumer_of (default [] currentMeta)) in
  let+ _ := assertQueueConsumerOwnership ns workerName oldQueueConsumers (pi_newQueueConsumers inputs) in
  let affectedHosts := computeAffectedHosts oldRoutes (pi_newRoutes inputs) in
  let+ _ := watchKeys (map patternsKey affectedHosts) in
  let+ _ := assertDeclaredHosts ns (pi_newRoutes inputs) in
  let+ hostState := readHostStateAndAssertRouteConflicts ns workerName (pi_newRoutes inputs) affectedHosts in
  let+ _ := assertPlatformAsAvailable ns workerName (pi_newAs inputs) in
  rd_ret (MkObserved oldRoutes oldQueueConsumers affectedHosts hostState).

Record PromoteStagePlan := MkStagePlan {
  ps_newRouteKeys : list jstr; ps_nsHostsAdd : list jstr; ps_nsHostsRem : list jstr;
  ps_cronHash : gmap jstr jstr; ps_cronPlan : CronPlan;
  ps_queuePlan : list QueueConsumer * list QueueConsumer; ps_sessionPolicyPlan : SessionPolicyPlan }.

Definition buildPromoteStagePlan (now : Z) (ns workerName : jstr) (currentVersion : option jstr) (newVersion : jstr)
    (inputs : PromoteInputs) (observed : PromoteObserved) : reads PromoteStagePlan :=
  let newRouteKeys := computeRouteKeySet (pi_newRoutes inputs) in
  let deltas := computeNsHostDeltas ns (po_affectedHosts observed) (po_oldRoutes observed) (pi_newRoutes inputs)
                  newRouteKeys (λ h, default ∅ (assoc h (po_hostState observed))) in
  let+ cronHash := rd_ask (QHGetAll (cronWorkerKey ns workerName)) in
  let+ rawSequence := rd_ask (QGet (cronSequenceKey ns workerName)) in
  let+ cronPlan := rd_lift (computeCronPlan cronHash rawSequence (pi_newCrons inputs) now) in
  let queuePlan := computeQueueConsumerPlan (po_oldQueueConsumers observed) (pi_newQueueConsumers inputs) in
  let+ policy := rd_lift (computeSessionPolicyPlan currentVersion newVersion (pi_sessionPolicy inputs)
                            (pi_rawSequence inputs) (pi_rawProjection inputs)) in
  rd_ret (MkStagePlan newRouteKeys deltas.1 deltas.2 cronHash cronPlan queuePlan policy).

Definition stagePromoteWithRoutes (ns workerName newVersion : jstr) (inputs : PromoteInputs) (observed : PromoteObserved)
    (plan : PromoteStagePlan) : result control_error (list write) :=
  let removed := filter (λ r, routeKey r ∉ ps_newRouteKeys plan) (po_oldRoutes observed) in
  let! flip := stageVersionFlip ns workerName newVersion (pi_newRoutes inputs) (pi_workersDev inputs)
                 (po_affectedHosts observed) in
  let! policy := stageSessionPolicy ns workerName newVersion (ps_sessionPolicyPlan plan) in
  let! d1 := stageD1ReferrerAdds ns workerName newVersion (pi_d1Refs inputs) in
  let! crons := stageCronProjection ns workerName newVersion (cronWorkerKey ns workerName) (ps_cronHash plan)
                  (pi_newCrons inputs) (ps_cronPlan plan) in
  Ok (map (λ r, WHDel (patternsKey (r_host r)) (r_slot r)) removed
      ++ flip ++ policy ++ [WSAdd NAMESPACES_KEY ns]
      ++ map (WSAdd (nsHostsKey ns)) (ps_nsHostsAdd plan) ++ map (WSRem (nsHostsKey ns)) (ps_nsHostsRem plan)
      ++ d1 ++ crons ++ stageQueueConsumerPlan ns workerName newVersion (ps_queuePlan plan)).

(** What the transactions of the control plane answer. *)
Inductive control_result :=
| Promoted (version : jstr) (affectedHosts : list jstr) (workersDev : bool) (routeUrls : list jstr)
    (sessionPolicy : jstr) (restartSequence : Z)
| Bumped (version previousVersion : jstr) (affectedHosts : list jstr) (sessionPolicy : jstr) (restartSequence : Z)
| HostsReconciled (hosts : list jstr)
| Deployed (version : jstr)
| WorkerDeleted (activeVersion : option jstr) (retainedVersions affectedHosts : list jstr) (queueConsumersRemoved : nat)
    (namespaceStillActive : bool) (cleanup : option (jstr * list jstr))
| WorkerAbsent (namespaceStillActive : bool)
| VersionDeleted (cleanup : option (jstr * jstr)) (skippedSharedPrefix lastRetainedNoActive : bool).

Definition promoteWithRoutes (ns workerName newVersion : jstr) (now : Z) : txn control_result :=
  let+ candidateKey := rd_lift (bundle_key ns workerName newVersion) in
  let initialWatchKeys := [routesKey ns; hostsKey ns; cronWorkerKey ns workerName; cronSequenceKey ns workerName;
    sessionPolicyKey ns workerName; sessionPolicySequenceKey ns workerName; deleteLockKey ns workerName; candidateKey] in
  let+ snapshot := readPromoteInitialSnapshot ns workerName newVersion initialWatchKeys in
  let '(currentVersion, inputs) := snapshot in
  let+ observed := readAndAssertPromoteState ns workerName currentVersion inputs in
  let+ plan := buildPromoteStagePlan now ns workerName currentVersion newVersion inputs observed in
  let+ ws := rd_lift (stagePromoteWithRoutes ns workerName newVersion inputs observed plan) in
  rd_ret (Commit ws (Promoted newVersion (po_affectedHosts observed) (pi_workersDev inputs)
                       (map (λ r, js "https://" ++ r_host r ++ r_slot r) (pi_newRoutes inputs)) (sp_planMode (ps_sessionPolicyPlan plan))
                       (sp_planSequence (ps_sessionPolicyPlan plan)))).

(** ** Bumping the active version *)

(** The callback once [newVersion] is allocated. [stageBeforeCopy] is the caller's hook: from
    the current and the new version and the source metadata, the writes it stages before the
    copy. *)
Definition bumpActiveAndPromote (stageBeforeCopy : jstr → jstr → list (jstr * jsval) → reads (list write)) (ns workerName newVersion : jstr) (now : Z)
    : txn control_result :=
  let+ _ := rd_watch [routesKey ns; hostsKey ns; sessionPolicyKey ns workerName;
                      sessionPolicySequenceKey ns workerName; deleteLockKey ns workerName] in
  let+ callerLock := rd_ask (QGet (deleteLockKey ns workerName)) in
  let+ rawSequence := rd_ask (QGet (sessionPolicySequenceKey ns workerName)) in
  let+ rawProjection := rd_ask (QGet (sessionPolicyKey ns workerName)) in
  let+ current := rd_ask (QHGet (routesKey ns) workerName) in
  if truthy_text callerLock then rd_fail 409 "caller_deleting"
  else match current with
  | None | Some [] => rd_fail 404 "active_version_not_found"
  | Some currentVersion =>
      let+ srcKey := rd_lift (bundle_key ns workerName currentVersion) in
      let+ dstKey := rd_lift (bundle_key ns workerName newVersion) in
      let+ _ := rd_watch [srcKey; dstKey] in
      let+ srcMetaRaw := rd_ask (QHGet srcKey (js "__meta__")) in
      match srcMetaRaw with
      | None => let+ _ := retryIfRouteChanged ns workerName currentVersion in rd_fail 500 "bundle_copy_failed"
      | Some raw =>
          let+ srcMeta := rd_lift (routingBundleMeta (JStr raw)) in
          let+ routes := rd_lift (list_field "routes" route_of srcMeta) in
          let+ workersDev := rd_lift (assertRoutableWorkersDev srcMeta routes) in
          let+ _ := rd_lift (assertDoStorageIdCoherent srcMeta) in
          let+ policy := rd_lift (computeSessionPolicyPlan (Some currentVersion) newVersion
                                    (sessionPolicyModeFromMeta srcMeta) rawSequence rawProjection) in
          let+ queueConsumers := rd_lift (list_field "queueConsumers" consumer_of srcMeta) in
          let bindings := obj_get (js "bindings") srcMeta in
          let outgoingRefs := extractOutgoingRefs bindings ns in
          let d1Refs := extractD1Refs bindings in
          let+ _ := assertDeclaredHosts ns routes in
          let+ _ := assertBundleDependenciesPresent ns d1Refs outgoingRefs in
          let affectedHosts := unique (map r_host routes) in
          let+ _ := watchKeys (map patternsKey affectedHosts) in
          let+ states := rd_map (λ h, rd_ask (QHGetAll (patternsKey h))) affectedHosts in
          let+ _ := rd_lift (host_analysis affectedHosts states) in
          let cronKey := cronWorkerKey ns workerName in
          let+ _ := rd_watch [cronKey; cronSequenceKey ns workerName] in
          let+ cronHash := rd_ask (QHGetAll cronKey) in
          let+ cronValue := rd_ask (QGet (cronSequenceKey ns workerName)) in
          let+ cronSequence := rd_lift (
            match cronHash !! js "__meta__" with
            | Some ((_ :: _) as metaRaw) =>
                let! meta := parseCronMeta metaRaw in
                let! sequence := resolveCronSequence (Some meta) cronValue in Ok (Some sequence)
            | _ =>
                if bool_decide (cronHash = ∅) then let! _ := check_idle_sequence cronValue in Ok None
                else fail 500 "corrupt_cron_meta"
            end) in
          let+ _ := watchKeys (map (λ c, queueConsumerKey ns (qc_queue c)) queueConsumers) in
          match parseVersion (JStr newVersion) with
          | None => rd_fail 500 "invalid_generated_version"
          | Some newVNum =>
              let+ before := stageBeforeCopy currentVersion newVersion srcMeta in
              let+ ws := rd_lift (
                let! flip := stageVersionFlip ns workerName newVersion routes workersDev affectedHosts in
                let! policyWrites := stageSessionPolicy ns workerName newVersion policy in
                let! outgoing := stageOutgoingReferrerAdds ns workerName newVersion outgoingRefs in
                let! d1 := stageD1ReferrerAdds ns workerName newVersion d1Refs in
                let! crons := match cronSequence with
                              | None => Ok []
                              | Some (cronSeq, persistSequence) =>
                                  let! meta := stageCronProjectionMeta ns workerName newVersion cronKey in
                                  Ok ((if (persistSequence : bool) then stageCronSequence ns workerName cronSeq else []) ++ meta)
                              end in
                Ok (before ++ [WCopy srcKey dstKey] ++ flip ++ policyWrites ++ [WSAdd NAMESPACES_KEY ns]
                    ++ stageWorkerVersionIndexUpsert ns workerName newVersion newVNum ++ outgoing ++ d1 ++ crons
                    ++ flat_map (stageQueueConsumerProjection ns workerName newVersion) queueConsumers)) in
              rd_ret (Commit ws (Bumped newVersion currentVersion affectedHosts (sp_planMode policy) (sp_planSequence policy)))
          end
      end
  end.
End routing.

(** ** Declared hosts *)

Section hosts.
Variable urlHost : jstr → option jstr.

(** A slot of the host that belongs to the namespace refuses the removal. *)
Definition assert_host_unused (ns : jstr) (state : gmap jstr jstr) : result control_error unit :=
  (fix go (l : list (jstr * jstr)) := match l with
     | [] => Ok tt
     | (_, raw) :: l =>
         let! parsed := requirePatternProjection raw in
         if jeqb (pp_ns parsed) ns then fail 409 "host_in_use" else go l
     end) (map_to_list state).

(** The removals of one batch: membership in the reverse index first, then the patterns of
    the members, then the declarations. *)
Definition read_removals (ns : jstr) (batch : list jstr) : reads (list (jstr * gset jstr)) :=
  let+ reverseFlags := rd_map (λ h, rd_ask (QSIsMember (nsHostsKey ns) h)) batch in
  let matchedHosts := map fst (filter (λ hf : jstr * bool, hf.2 = true) (zip batch reverseFlags)) in
  let+ matchedPatterns := rd_map (λ h, rd_ask (QHGetAll (patternsKey h))) matchedHosts in
  let+ _ := rd_iter (λ entries, rd_lift (assert_host_unused ns entries)) matchedPatterns in
  let+ declarations := rd_map (λ h, rd_ask (QSMembers (hostDeclarationsKey h))) batch in
  rd_ret (zip batch declarations).

Definition requestedHosts (body : jsval) (platformDomain : jstr) : result control_error (list jstr) :=
  match body with
  | JObj fields =>
      match obj_get (js "hosts") fields with
      | JArr l => match parseHostList urlHost (JArr l) platformDomain with
                  | Ok hosts => Ok hosts
                  | Err _ => fail 400 "invalid_request"
                  end
      | _ => fail 400 "invalid_request"
      end
  | _ => fail 400 "invalid_request"
  end.

(** [toSorted()] compares by code units; only the order of the answer depends on it. *)
Definition reconcileHosts (ns : jstr) (body : jsval) (platformDomain : jstr) (now : Z) : txn control_result :=
  let+ bodySet := rd_lift (requestedHosts body platformDomain) in
  let+ _ := rd_watch [hostsKey ns] in
  let+ currentSet := rd_ask (QSMembers (hostsKey ns)) in
  let toAdd := filter (λ h, h ∉ currentSet) bodySet in
  let toRemove := filter (λ h, h ∉ bodySet) (elements currentSet) in
  match unique (toAdd ++ toRemove) with
  | [] => rd_ret (NoWrites (HostsReconciled bodySet))
  | _ =>
      let+ _ := watchKeys (map patternsKey toRemove) in
      let+ _ := watchKeys (map hostDeclarationsKey toRemove) in
      let+ removals := rd_map (read_removals ns) (chunks (length toRemove) HOST_RECONCILE_READ_BATCH_SIZE toRemove) in
      rd_ret (Commit (stageDeclaredHostChanges ns toAdd (concat removals)) (HostsReconciled bodySet))
  end.
End hosts.
