(* ===== verification/RoutingSafety.v ===== *)
(** * The routing tables stay coherent

    Promotions, version bumps and host reconciliations of src/control/routing.js run as
    concurrent optimistic transactions, together with uploads of new bundles and with
    changes of every key that is no routing table. At any time the pattern tables hold
    exactly the routes of the active bundles, a host serves one namespace, and the reverse
    index and the declared hosts cover the tables. Deletes of workers and versions join this world in
    DeleteSafety.v and RoutingWorld.v. *)

From stdpp Require Import base list strings gmap.
From Stdlib Require Import ZArith Lia.
From S2P Require Import Prelude NsPattern WorkerContract Utf8 Json JsNumber Gateway SessionPolicy Txn Control Topology Routing.

#[local] Open Scope Z_scope.
#[local] Open Scope wdl_scope.
#[local] Open Scope txn_scope.

(** ** Keys *)

(** The part of a key before its first colon. *)
Fixpoint key_head (k : jstr) : jstr :=
  match k with [] => [] | c :: k => if c =? colon then [] else c :: key_head k end.

(** The keys of bundles: [worker:<ns>:<worker>:v:<n>]. *)
Definition is_bundle (k : jstr) : bool :=
  jeqb (key_head k) (js "worker") && (length (split_on colon k) =? 5)%nat.

Definition TABLE_HEADS : list jstr := [js "patterns"; js "hosts"; js "ns-hosts"; js "routes"].

(** The keys of the routing tables and of the bundles. *)
Definition table_key (k : jstr) : bool := is_bundle k || set_has TABLE_HEADS (key_head k).

(** With the sets of referrers: the keys that only the requests of the control plane write. *)
Definition kept_key (k : jstr) : bool := table_key k || jeqb (key_head k) (js "worker-version-referrers").

(** The names of namespaces and workers: letters, digits, dashes and underscores. *)
Definition name_ok (s : jstr) : Prop := Forall (λ c, alnum_dash_us c = true) s.
Definition names_ok (ns worker : jstr) : Prop := name_ok ns ∧ name_ok worker.

#[export] Instance names_ok_dec ns worker : Decision (names_ok ns worker).
Proof. unfold names_ok, name_ok. apply _. Defined.

Lemma name_no_colon s : name_ok s → colon ∉ s.
Proof. intros H. by eapply Forall_class_no_sep; [|exact H]. Qed.

(** Writes that leave the tables alone, and the referrers too. *)
Definition loose_writes (ws : list write) : Prop := Forall (λ k, table_key k = false) (targets ws).
Definition plain_writes (ws : list write) : Prop := Forall (λ k, kept_key k = false) (targets ws).

Lemma kept_table k : kept_key k = false → table_key k = false.
Proof. unfold kept_key. by intros [? _]%orb_false_iff. Qed.

Lemma plain_loose ws : plain_writes ws → loose_writes ws.
Proof. intros H. eapply Forall_impl; [exact H|apply kept_table]. Qed.

Lemma plain_head k : set_has (js "worker" :: js "worker-version-referrers" :: TABLE_HEADS) (key_head k) = false → kept_key k = false.
Proof.
  unfold kept_key, table_key, is_bundle, set_has. cbn [existsb]. intros [-> [H1 H2]%orb_false_iff]%orb_false_iff. cbn [andb orb].
  by rewrite H1, H2.
Qed.

(** The head of a key that is a literal prefix and some text. *)
Ltac solve_head := first [apply plain_head; vm_compute; reflexivity | vm_compute; reflexivity].

Lemma split_on_length c s : length (split_on c s) = S (length (filter (λ x, x = c) s)).
Proof.
  induction s as [|x s IH]; cbn [split_on]; [done|]. rewrite filter_cons. destruct (Z.eqb_spec x c); case_decide; try done.
  - cbn. by rewrite IH.
  - destruct (split_on c s) as [|w ws]; [done|]. by rewrite <- IH.
Qed.

Lemma no_colon_filter s : colon ∉ s → filter (λ x, x = colon) s = [].
Proof.
  induction s as [|x s IH]; intros H; [done|]. apply not_elem_of_cons in H as [Hx Hs].
  rewrite filter_cons_False by congruence. auto.
Qed.

Lemma session_policy_plain ns worker : names_ok ns worker →
  kept_key (sessionPolicyKey ns worker) = false ∧ kept_key (sessionPolicySequenceKey ns worker) = false.
Proof.
  intros [H1%name_no_colon%no_colon_filter H2%name_no_colon%no_colon_filter]. unfold kept_key, table_key, is_bundle, sessionPolicyKey, sessionPolicySequenceKey.
  rewrite !split_on_length, !filter_app, H1, H2, !length_app. split; vm_compute; reflexivity.
Qed.

Lemma bundle_key_is_bundle ns worker version k : names_ok ns worker → bundle_key ns worker version = Ok k → is_bundle k = true.
Proof.
  intros [H1%name_no_colon%no_colon_filter H2%name_no_colon%no_colon_filter]. unfold bundle_key, bundleKey. destruct (parseVersion (JStr version)) as [n|] eqn:E; [|done].
  intros <-%Ok_inj. apply parseVersion_inv in E as [Hn _]. unfold is_bundle.
  assert (filter (λ x, x = colon) (string_of_Z n) = []) as Hf.
  { apply no_colon_filter. unfold string_of_Z. destruct (Z.ltb_spec n 0); [lia|].
    eapply (Forall_class_no_sep (λ c, is_digit c = true)); [done|]. apply string_of_nonneg_digits. lia. }
  rewrite split_on_length, !filter_app, H1, H2, Hf, !length_app. vm_compute. reflexivity.
Qed.

Lemma plain_writes_app ws ws' : plain_writes (ws ++ ws') ↔ plain_writes ws ∧ plain_writes ws'.
Proof. unfold plain_writes, targets. by rewrite omap_app, Forall_app. Qed.

Lemma loose_writes_app ws ws' : loose_writes (ws ++ ws') ↔ loose_writes ws ∧ loose_writes ws'.
Proof. unfold loose_writes, targets. by rewrite omap_app, Forall_app. Qed.

Lemma loose_writes_same ws s k : loose_writes ws → table_key k = true → same_at k s (apply_writes ws s).
Proof.
  intros Hp Hk. apply apply_writes_other. intros Hin. unfold loose_writes in Hp. rewrite Forall_forall in Hp.
  rewrite (Hp _ Hin) in Hk. done.
Qed.

Lemma plain_writes_kept ws s k : plain_writes ws → kept_key k = true → same_at k s (apply_writes ws s).
Proof.
  intros Hp Hk. apply apply_writes_other. intros Hin. unfold plain_writes in Hp. rewrite Forall_forall in Hp.
  rewrite (Hp _ Hin) in Hk. done.
Qed.

Lemma table_patterns h : table_key (patternsKey h) = true. Proof. vm_compute. reflexivity. Qed.
Lemma table_routes ns : table_key (routesKey ns) = true. Proof. vm_compute. reflexivity. Qed.
Lemma table_hosts ns : table_key (hostsKey ns) = true. Proof. vm_compute. reflexivity. Qed.
Lemma table_ns_hosts ns : table_key (nsHostsKey ns) = true. Proof. vm_compute. reflexivity. Qed.
Lemma table_bundle k : is_bundle k = true → table_key k = true. Proof. unfold table_key. by intros ->. Qed.
Lemma table_kept k : table_key k = true → kept_key k = true. Proof. unfold kept_key. by intros ->. Qed.
Lemma referrers_kept ns w v : kept_key (referrersKey ns w v) = true. Proof. vm_compute. reflexivity. Qed.
Create HintDb tables discriminated.
#[export] Hint Resolve table_patterns table_routes table_hosts table_ns_hosts table_bundle table_kept : tables.

(** ** Writes outside the tables *)

Lemma plain_cons w ws : plain_writes (w :: ws) ↔ (∀ k, target w = Some k → kept_key k = false) ∧ plain_writes ws.
Proof.
  unfold plain_writes, targets. cbn. destruct (target w) as [k|].
  - rewrite Forall_cons. split; [|by intros [H ?]; auto]. intros [H ?]. split; [by intros k' [= <-]|done].
  - naive_solver.
Qed.

Lemma plain_nil : plain_writes [].
Proof. constructor. Qed.

Lemma plain_map {X} (f : X → write) l : (∀ x k, target (f x) = Some k → kept_key k = false) → plain_writes (map f l).
Proof. intros H. induction l as [|x l IH]; [apply plain_nil|]. apply plain_cons. eauto. Qed.

Lemma plain_flat_map {X} (f : X → list write) l : (∀ x, plain_writes (f x)) → plain_writes (flat_map f l).
Proof. intros H. induction l as [|x l IH]; [apply plain_nil|]. cbn. apply plain_writes_app. auto. Qed.

Lemma plain_stage_all {X} (f : X → result control_error (list write)) l :
  (∀ x ws, f x = Ok ws → plain_writes ws) → ∀ ws, stage_all f l = Ok ws → plain_writes ws.
Proof.
  intros Hf. induction l as [|x l IH]; intros ws H; cbn [stage_all] in H.
  - apply Ok_inj in H as <-. apply plain_nil.
  - apply rbind_Ok_inv in H as (w1 & H1 & H). apply rbind_Ok_inv in H as (w2 & H2 & H). apply Ok_inj in H as <-.
    apply plain_writes_app. eauto.
Qed.

(** A list of writes to keys with literal prefixes. *)
Ltac solve_plain :=
  repeat (apply plain_cons; split; [intros ? [= <-]; solve_head|]); try apply plain_nil.

Lemma plain_d1_adds ns worker version refs ws : stageD1ReferrerAdds ns worker version refs = Ok ws → plain_writes ws.
Proof.
  apply plain_stage_all. intros ref ws' H. apply rbind_Ok_inv in H as (m & _ & H). apply Ok_inj in H as <-. solve_plain.
Qed.

(** Writes to the sets of referrers only. *)
Definition referrer_writes (ws : list write) : Prop := Forall (λ k, key_head k = js "worker-version-referrers") (targets ws).

Lemma referrer_stage_all {X} (f : X → result control_error (list write)) l :
  (∀ x ws, f x = Ok ws → referrer_writes ws) → ∀ ws, stage_all f l = Ok ws → referrer_writes ws.
Proof.
  intros Hf. induction l as [|x l IH]; intros ws H; cbn [stage_all] in H.
  - apply Ok_inj in H as <-. constructor.
  - apply rbind_Ok_inv in H as (w1 & H1 & H). apply rbind_Ok_inv in H as (w2 & H2 & H). apply Ok_inj in H as <-.
    unfold referrer_writes, targets. rewrite omap_app. apply Forall_app. split; [by eapply Hf|by apply IH].
Qed.

Lemma referrers_head ns w v : key_head (referrersKey ns w v) = js "worker-version-referrers".
Proof. reflexivity. Qed.

Lemma outgoing_adds_referrers ns worker version refs ws : stageOutgoingReferrerAdds ns worker version refs = Ok ws → referrer_writes ws.
Proof.
  apply referrer_stage_all. intros ref ws' H. apply rbind_Ok_inv in H as (m & _ & H). apply Ok_inj in H as <-.
  repeat constructor.
Qed.

Lemma referrer_loose ws : referrer_writes ws → loose_writes ws.
Proof.
  intros H. eapply Forall_impl; [exact H|]. intros k Hk. unfold table_key, is_bundle. rewrite Hk. vm_compute. reflexivity.
Qed.

Lemma plain_version_upsert ns worker version n : plain_writes (stageWorkerVersionIndexUpsert ns worker version n).
Proof. unfold stageWorkerVersionIndexUpsert, stageWorkerVisible. cbn [app]. solve_plain. Qed.

Lemma plain_cron_sequence ns worker n : plain_writes (stageCronSequence ns worker n).
Proof. unfold stageCronSequence. solve_plain. Qed.

Lemma plain_cron_meta ns worker version ws :
  stageCronProjectionMeta ns worker version (cronWorkerKey ns worker) = Ok ws → plain_writes ws.
Proof.
  unfold stageCronProjectionMeta. intros H. apply rbind_Ok_inv in H as (m & _ & H). apply Ok_inj in H as <-.
  unfold stageCronWorkerIndexed. cbn [app]. solve_plain.
Qed.

Lemma plain_cron_projection ns worker version hash crons plan ws :
  stageCronProjection ns worker version (cronWorkerKey ns worker) hash crons plan = Ok ws → plain_writes ws.
Proof.
  unfold stageCronProjection.
  assert (plain_writes (if cp_persistSequence plan then stageCronSequence ns worker (cp_cronSeq plan) else [])) as Hs.
  { destruct (cp_persistSequence plan); [apply plain_cron_sequence|apply plain_nil]. }
  destruct crons as [|c crons].
  - intros <-%Ok_inj. rewrite !plain_writes_app. split_and!; [done| |].
    + case_decide; solve_plain.
    + unfold stageCronWorkerRemoved. solve_plain.
  - intros H. apply rbind_Ok_inv in H as (m & Hm%plain_cron_meta & H). apply rbind_Ok_inv in H as (added & Ha & H).
    apply Ok_inj in H as <-. rewrite !plain_writes_app. split_and!; [done|done| |].
    + revert Ha. apply plain_stage_all. intros e ws' H'. apply rbind_Ok_inv in H' as (t & _ & H').
      apply Ok_inj in H' as <-. unfold stageCronSlotRef. cbv zeta. solve_plain.
    + apply plain_map. intros id k [= <-]. solve_head.
Qed.

Lemma plain_queue_projection ns worker version c : plain_writes (stageQueueConsumerProjection ns worker version c).
Proof.
  unfold stageQueueConsumerProjection. cbv zeta. apply plain_cons. split; [intros ? [= <-]; solve_head|].
  apply plain_writes_app. split; [|solve_plain]. apply plain_map. intros fv k [= <-]. solve_head.
Qed.

Lemma plain_queue_plan ns worker version plan : plain_writes (stageQueueConsumerPlan ns worker version plan).
Proof.
  apply plain_writes_app. split; apply plain_flat_map.
  - intros c. apply plain_queue_projection.
  - intros c. unfold stageQueueConsumerRemoval, stageQueueConsumerKeyRemoval. solve_plain.
Qed.

Lemma plain_session_policy ns worker version plan ws : names_ok ns worker →
  stageSessionPolicy ns worker version plan = Ok ws → plain_writes ws.
Proof.
  intros [H1 H2]%session_policy_plain. unfold stageSessionPolicy. intros H. apply rbind_Ok_inv in H as (p & _ & H).
  destruct (sp_persistSequence plan).
  - apply rbind_Ok_inv in H as (e & _ & H). apply Ok_inj in H as <-.
    repeat (apply plain_cons; split; [by intros ? [= <-]|]). apply plain_nil.
  - apply Ok_inj in H as <-. apply plain_cons. split; [by intros ? [= <-]|apply plain_nil].
Qed.

Lemma plain_publish channel l : plain_writes (map (WPublish channel) l).
Proof. by apply plain_map. Qed.

Create HintDb plain discriminated.
#[export] Hint Resolve plain_nil plain_d1_adds plain_version_upsert plain_cron_sequence plain_cron_meta
  plain_cron_projection plain_queue_projection plain_queue_plan plain_session_policy plain_publish : plain.

(** ** The invariant *)

(** The routes in the metadata of a bundle. *)
Definition routes_in (bundle : gmap jstr jstr) : option (list RoutePattern) :=
  raw ← bundle !! js "__meta__";
  match (let! meta := routingBundleMeta (JStr raw) in list_field "routes" route_of meta) with
  | Ok rs => Some rs
  | Err _ => None
  end.

Definition bundle_routes (ns worker version : jstr) (s : store) : option (list RoutePattern) :=
  match bundle_key ns worker version with Ok k => routes_in (hash_at k s) | Err _ => None end.

(** What [parseRoutes] guarantees of the routes a bundle is uploaded with. *)
Definition routes_wf (rs : list RoutePattern) : Prop :=
  NoDup (map routeKey rs) ∧ Forall (λ r, 124 ∉ r_host r ∧ r = route_at (r_host r) (r_slot r)) rs.

(** The text a slot holds for a route of an active version. *)
Definition slot_text (ns worker version : jstr) (r : RoutePattern) : result projection_error jstr :=
  encodePatternProjection (JStr ns) (JStr worker) (JStr version) (r_kind r) (r_value r).

Definition patterns_at (h : jstr) (s : store) : gmap jstr jstr := hash_at (patternsKey h) s.
Definition active_at (ns : jstr) (s : store) : gmap jstr jstr := hash_at (routesKey ns) s.
Definition declared_at (ns : jstr) (s : store) : gset jstr := set_at (hostsKey ns) s.
Definition index_at (ns : jstr) (s : store) : gset jstr := set_at (nsHostsKey ns) s.

(** A slot of a host holds a projection. *)
Definition holds (s : store) (h slot : jstr) (p : projection) : Prop :=
  ∃ raw, patterns_at h s !! slot = Some raw ∧ decodePatternProjection (JStr raw) = Some p.

Record routing_inv (s : store) : Prop := {
  (** a slot is there for a route of the active version of its worker *)
  ri_slot : ∀ h slot raw, patterns_at h s !! slot = Some raw →
    ∃ ns w v rs r, active_at ns s !! w = Some v ∧ bundle_routes ns w v s = Some rs ∧ r ∈ rs ∧
      r_host r = h ∧ r_slot r = slot ∧ slot_text ns w v r = Ok raw;
  (** every route of an active version has its slot *)
  ri_active : ∀ ns w v, active_at ns s !! w = Some v → names_ok ns w ∧
    ∃ rs, bundle_routes ns w v s = Some rs ∧
      ∀ r, r ∈ rs → ∃ raw, slot_text ns w v r = Ok raw ∧ patterns_at (r_host r) s !! r_slot r = Some raw;
  (** a host serves one namespace *)
  ri_one_ns : ∀ h slot slot' p p', holds s h slot p → holds s h slot' p' → pp_ns p = pp_ns p';
  (** the reverse index is exact *)
  ri_index : ∀ ns h, h ∈ index_at ns s ↔ ∃ slot p, holds s h slot p ∧ pp_ns p = ns;
  (** hosts in use are declared *)
  ri_declared : ∀ h slot p, holds s h slot p → h ∈ declared_at (pp_ns p) s;
  ri_bundles : ∀ k rs, is_bundle k = true → routes_in (hash_at k s) = Some rs → routes_wf rs }.

(** Bundles never change once written. *)
Definition bundles_kept (s s' : store) : Prop := ∀ k, is_bundle k = true → ¬ blank k s → same_at k s s'.

#[export] Instance bundles_kept_preorder : PreOrder bundles_kept.
Proof.
  split; [by intros s k|]. intros s1 s2 s3 H1 H2 k Hk Hb. etrans; [by apply H1|]. apply H2; [done|].
  intros Hb'. apply Hb. eapply blank_same; [|exact Hb']. symmetry. by apply H1.
Qed.

(** A bundle that was there before is there as it was, or is gone. *)
Definition settled (s0 s : store) : Prop := ∀ k, is_bundle k = true → ¬ blank k s0 → same_at k s0 s ∨ blank k s.

(** With the keys ever written to: what is written is among them, and a key among them never
    gets a new bundle. *)
Definition control_inv (e : gset jstr) (s : store) : Prop := routing_inv s ∧ ∀ k, is_bundle k = true → ¬ blank k s → k ∈ e.
Definition bundles_settled (e : gset jstr) (s : store) (e' : gset jstr) (s' : store) : Prop :=
  e ⊆ e' ∧ ∀ k, is_bundle k = true → k ∈ e → same_at k s s' ∨ blank k s'.

Lemma bundles_settled_refl e s : bundles_settled e s e s.
Proof. split; [done|]. by left. Qed.

Lemma bundles_settled_trans e1 s1 e2 s2 e3 s3 :
  bundles_settled e1 s1 e2 s2 → bundles_settled e2 s2 e3 s3 → bundles_settled e1 s1 e3 s3.
Proof.
  intros [He H] [He' H']. split; [set_solver|]. intros k Hk Hin.
  destruct (H' k Hk (He k Hin)) as [Hs|]; [|by right]. destruct (H k Hk Hin) as [Hs'|Hb]; [left; by etrans|right].
  by eapply blank_same.
Qed.

Lemma before_settled e s s0 : before control_inv bundles_settled e s s0 → settled s0 s.
Proof. intros (e0 & [_ Hw] & _ & Hs) k Hk Hb. apply Hs; [done|]. by apply Hw. Qed.

(** A request that leaves the bundles alone, but for keys of its own. *)
Lemma kept_settled owned e s s' : control_inv e s → owned ## e → routing_inv s' →
  (∀ k, is_bundle k = true → k ∉ owned → same_at k s s') →
  control_inv (owned ∪ e) s' ∧ bundles_settled e s (owned ∪ e) s' ∧
  ∀ k, is_bundle k = true → k ∉ owned → blank k s → blank k s'.
Proof.
  intros [_ Hw] Hd Hi Hs. split_and!.
  - split; [done|]. intros k Hk Hb. destruct (decide (k ∈ owned)) as [|Hn]; [set_solver|].
    apply elem_of_union_r, Hw; [done|]. intros Hb'. apply Hb. eapply blank_same; [by apply Hs|done].
  - split; [set_solver|]. intros k Hk Hin. left. apply Hs; [done|]. set_solver.
  - intros k Hk Hn. eapply blank_same. by apply Hs.
Qed.

Lemma slot_text_decode ns w v r raw : slot_text ns w v r = Ok raw →
  ∃ k value, decodePatternProjection (JStr raw) = Some (Projection ns w v k value) ∧
    r_kind r = JStr (kind_text k) ∧ r_value r = JStr value.
Proof.
  unfold slot_text. intros H. assert (∃ kind value, r_kind r = JStr kind ∧ r_value r = JStr value) as (kind & value & Ek & Ev).
  { revert H. unfold encodePatternProjection. intros H.
    do 3 apply rbind_Ok_inv in H as (? & _ & H). apply rbind_Ok_inv in H as (kind & (Ek & _)%requireProjectionComponent_Ok & H).
    apply rbind_Ok_inv in H as (value & (Ev & _)%requireProjectionComponent_Ok & H). by exists kind, value. }
  rewrite Ek, Ev in *. pose proof (proj1 (encodePatternProjection_Ok _ _ _ _ _ _) H) as (_ & Hk & _).
  destruct (kind_of_text kind) as [k|] eqn:E; [|done]. apply kind_of_text_spec in E. subst kind.
  exists k, value. split; [|done]. by apply projection_codec.
Qed.

Lemma slot_holder s h slot raw : routing_inv s → patterns_at h s !! slot = Some raw →
  ∃ ns w v rs r k value, decodePatternProjection (JStr raw) = Some (Projection ns w v k value) ∧
    active_at ns s !! w = Some v ∧ bundle_routes ns w v s = Some rs ∧ r ∈ rs ∧ r_host r = h ∧ r_slot r = slot ∧
    slot_text ns w v r = Ok raw.
Proof.
  intros Hi (ns & w & v & rs & r & H1 & H2 & H3 & H4 & H5 & H6)%(ri_slot _ Hi).
  destruct (slot_text_decode _ _ _ _ _ H6) as (k & value & H7 & _). by exists ns, w, v, rs, r, k, value.
Qed.

(** Same tables, same invariant. *)
Lemma same_holds s s' h slot p : same_at (patternsKey h) s s' → holds s h slot p ↔ holds s' h slot p.
Proof. unfold holds, patterns_at. by intros (_ & -> & _). Qed.

Lemma routes_in_empty : routes_in ∅ = None.
Proof. unfold routes_in. by rewrite lookup_empty. Qed.

Lemma blank_routes k s : blank k s → routes_in (hash_at k s) = None.
Proof. intros (_ & <- & _). apply routes_in_empty. Qed.

Lemma bundle_routes_kept s s' ns w v rs : bundles_kept s s' → names_ok ns w →
  bundle_routes ns w v s = Some rs → bundle_routes ns w v s' = Some rs.
Proof.
  unfold bundle_routes. intros Hk Hn. destruct (bundle_key ns w v) as [k|] eqn:E; [|done]. intros H.
  assert (same_at k s s') as (_ & <- & _); [|done]. apply Hk; [by eapply bundle_key_is_bundle|].
  intros Hb. by rewrite (blank_routes k s Hb) in H.
Qed.

(** ** One worker changes its active version

    [s'] is [s] with the slots of the worker replaced by those of the routes [new]. *)

Section flip.
Context (s s' : store) (ns w v : jstr) (new : list RoutePattern) (affected : list jstr).
Hypothesis Hinv : routing_inv s.
Hypothesis Hnames : names_ok ns w.
Hypothesis Hnew : bundle_routes ns w v s' = Some new.
Hypothesis Hkept : bundles_kept s s'.
Hypothesis Hbundles : ∀ k rs, is_bundle k = true → routes_in (hash_at k s') = Some rs → routes_wf rs.
Hypothesis Hactive : ∀ ns', active_at ns' s' = if decide (ns' = ns) then <[w := v]> (active_at ns s) else active_at ns' s.
Hypothesis Hdeclared : ∀ ns', declared_at ns' s' = declared_at ns' s.
(** The new slots are written, *)
Hypothesis Hset : ∀ r, r ∈ new → ∃ raw, slot_text ns w v r = Ok raw ∧ patterns_at (r_host r) s' !! r_slot r = Some raw.
(** and the other slots are kept, unless they are the worker's. *)
Hypothesis Hother : ∀ h slot raw, (∀ r, r ∈ new → ¬ (r_host r = h ∧ r_slot r = slot)) →
  patterns_at h s' !! slot = Some raw ↔
  patterns_at h s !! slot = Some raw ∧ ∀ p, decodePatternProjection (JStr raw) = Some p → ¬ (pp_ns p = ns ∧ pp_worker p = w).
(** No other worker has a new slot and no other namespace has a new host. *)
Hypothesis Hfree : ∀ r slot p, r ∈ new → holds s (r_host r) slot p →
  pp_ns p = ns ∧ (slot = r_slot r → pp_worker p = w).
Hypothesis Hhosts : ∀ r, r ∈ new → r_host r ∈ declared_at ns s.
Hypothesis Hindex : ∀ ns' h, h ∈ index_at ns' s' ↔
  if decide (ns' = ns ∧ h ∈ affected) then ∃ slot p, holds s' h slot p ∧ pp_ns p = ns else h ∈ index_at ns' s.
Hypothesis Haffected_new : ∀ r, r ∈ new → r_host r ∈ affected.
Hypothesis Haffected_old : ∀ h slot p, holds s h slot p → pp_ns p = ns → pp_worker p = w → h ∈ affected.

(** A slot of [s'] is a new one or an old one of another worker. *)
Lemma flip_slot h slot raw : patterns_at h s' !! slot = Some raw →
  (∃ r, r ∈ new ∧ r_host r = h ∧ r_slot r = slot ∧ slot_text ns w v r = Ok raw) ∨
  (patterns_at h s !! slot = Some raw ∧
   ∀ p, decodePatternProjection (JStr raw) = Some p → ¬ (pp_ns p = ns ∧ pp_worker p = w)).
Proof.
  intros H. destruct (decide (Exists (λ r, r_host r = h ∧ r_slot r = slot) new)) as [He|He].
  - left. apply Exists_exists in He as (r & Hr & <- & <-). destruct (Hset r Hr) as (raw' & Ht & Hs). exists r.
    split_and!; [done..|]. congruence.
  - right. apply Hother; [|done]. intros r Hr Hh. apply He, Exists_exists. by exists r.
Qed.

Lemma flip_holds h slot p : holds s' h slot p →
  (pp_ns p = ns ∧ pp_worker p = w ∧ ∃ r, r ∈ new ∧ r_host r = h ∧ r_slot r = slot) ∨
  (holds s h slot p ∧ ¬ (pp_ns p = ns ∧ pp_worker p = w)).
Proof.
  intros (raw & Hs & Hd). destruct (flip_slot h slot raw Hs) as [(r & H1 & H2 & H3 & H4)|[H1 H2]].
  - left. destruct (slot_text_decode _ _ _ _ _ H4) as (k & value & Hd' & _). rewrite Hd' in Hd. injection Hd as <-. split_and!; [done..|]. by exists r.
  - right. split; [by exists raw|]. by apply H2.
Qed.

(** The slots of other workers stay. *)
Lemma flip_keeps h slot raw p : patterns_at h s !! slot = Some raw → decodePatternProjection (JStr raw) = Some p →
  ¬ (pp_ns p = ns ∧ pp_worker p = w) → patterns_at h s' !! slot = Some raw.
Proof.
  intros Hs Hd Hn. apply Hother; [|split; [done|congruence]]. intros r Hr [<- <-]. apply Hn.
  destruct (Hfree r (r_slot r) p Hr) as [Hns Hw]; [by exists raw|]. auto.
Qed.

Lemma flip_active ns' w' v' : active_at ns' s' !! w' = Some v' →
  (ns' = ns ∧ w' = w ∧ v' = v) ∨ (¬ (ns' = ns ∧ w' = w) ∧ active_at ns' s !! w' = Some v').
Proof.
  rewrite Hactive. case_decide as E; [|naive_solver]. subst ns'. intros [[<- <-]|[Hne H]]%lookup_insert_Some; naive_solver.
Qed.

Lemma flip_active_back ns' w' v' : ¬ (ns' = ns ∧ w' = w) → active_at ns' s !! w' = Some v' → active_at ns' s' !! w' = Some v'.
Proof.
  intros Hne H. rewrite Hactive. case_decide as E; [|done]. subst ns'. rewrite lookup_insert_ne; [done|]. naive_solver.
Qed.

Lemma flip_one_ns h slot slot' p p' : holds s' h slot p → holds s' h slot' p' → pp_ns p = pp_ns p'.
Proof.
  intros [(H1 & _ & r & Hr & <- & _)|[H1 _]]%flip_holds [(H2 & _ & r' & Hr' & Hh & _)|[H2 _]]%flip_holds.
  - congruence.
  - destruct (Hfree r slot' p' Hr H2) as [? _]. congruence.
  - rewrite <- Hh in H1. destruct (Hfree r' slot p Hr' H1) as [? _]. congruence.
  - by eapply (ri_one_ns _ Hinv).
Qed.

Lemma flip_index ns' h : h ∈ index_at ns' s' ↔ ∃ slot p, holds s' h slot p ∧ pp_ns p = ns'.
Proof.
  rewrite Hindex. destruct (decide (ns' = ns ∧ h ∈ affected)) as [[-> _]|Hn]; [done|]. rewrite (ri_index _ Hinv). split.
  - intros (slot & p & (raw & Hs & Hd) & Hns). exists slot, p. split; [|done]. exists raw. split; [|done].
    eapply flip_keeps; [done..|]. intros [E1 E2]. apply Hn. split; [congruence|].
    eapply (Haffected_old h slot p); [by exists raw|done..].
  - intros (slot & p & [(E1 & _ & r & Hr & <- & _)|[H _]]%flip_holds & Hns); [|eauto].
    destruct Hn. split; [congruence|by apply Haffected_new].
Qed.

Lemma flip_inv : routing_inv s'.
Proof.
  split.
  - intros h slot raw Hs. destruct (flip_slot h slot raw Hs) as [(r & H1 & H2 & H3 & H4)|[H1 H2]].
    + exists ns, w, v, new, r. split_and!; try done. rewrite Hactive. rewrite decide_True by done. apply lookup_insert_eq.
    + destruct (slot_holder s h slot raw Hinv H1) as (ns' & w' & v' & rs & r & k & value & Hd & Ha & Hb & Hr).
      exists ns', w', v', rs, r. split_and!; [|eapply bundle_routes_kept; [done| |done]|naive_solver..].
      * apply flip_active_back; [|done]. apply (H2 _ Hd).
      * by apply (ri_active _ Hinv) in Ha as [? _].
  - intros ns' w' v' [(-> & -> & ->)|[Hne Ha]]%flip_active; [eauto|].
    destruct (ri_active _ Hinv _ _ _ Ha) as (Hn & rs & Hb & Hr). split; [done|]. exists rs.
    split; [by eapply bundle_routes_kept|]. intros r Hin. destruct (Hr r Hin) as (raw & Ht & Hs). exists raw. split; [done|].
    destruct (slot_text_decode _ _ _ _ _ Ht) as (k & value & Hd & _). by eapply flip_keeps.
  - apply flip_one_ns.
  - apply flip_index.
  - intros h slot p [(-> & _ & r & Hr & <- & _)|[H _]]%flip_holds; rewrite Hdeclared; [by apply Hhosts|].
    by eapply (ri_declared _ Hinv).
  - apply Hbundles.
Qed.
End flip.

(** ** Changes that keep the tables *)

Lemma tables_inv s s' : routing_inv s → (∀ k, table_key k = true → is_bundle k = false → same_at k s s') →
  bundles_kept s s' → (∀ k rs, is_bundle k = true → routes_in (hash_at k s') = Some rs → routes_wf rs) → routing_inv s'.
Proof.
  intros Hi Hs Hk Hb.
  assert (∀ h, patterns_at h s = patterns_at h s') as Hp by (intros h; apply Hs; [auto with tables|done]).
  assert (∀ ns, active_at ns s = active_at ns s') as Ha by (intros ns; apply Hs; [auto with tables|done]).
  assert (∀ ns, declared_at ns s = declared_at ns s') as Hd by (intros ns; apply Hs; [auto with tables|done]).
  assert (∀ ns, index_at ns s = index_at ns s') as Hx by (intros ns; apply Hs; [auto with tables|done]).
  assert (∀ h slot p, holds s' h slot p → holds s h slot p) as Hh by (intros h slot p; unfold holds; by rewrite Hp).
  assert (∀ ns w v rs, active_at ns s !! w = Some v → bundle_routes ns w v s = Some rs → bundle_routes ns w v s' = Some rs) as Hr.
  { intros ns w v rs [Hn _]%(ri_active _ Hi). by apply bundle_routes_kept. }
  split.
  - intros h slot raw. rewrite <- Hp. intros (ns & w & v & rs & r & H1 & H2 & H3)%(ri_slot _ Hi).
    exists ns, w, v, rs, r. split_and!; [by rewrite <- Ha|by apply Hr|naive_solver..].
  - intros ns w v. rewrite <- Ha. intros H. destruct (ri_active _ Hi _ _ _ H) as (H1 & rs & H2 & H3). split; [done|].
    exists rs. split; [by apply Hr|]. intros r Hin. rewrite <- Hp. by apply H3.
  - intros h slot slot' p p' H1%Hh H2%Hh. by eapply (ri_one_ns _ Hi).
  - intros ns h. rewrite <- Hx, (ri_index _ Hi). unfold holds. by setoid_rewrite Hp.
  - intros h slot p H%Hh. rewrite <- Hd. by eapply (ri_declared _ Hi).
  - done.
Qed.

(** A new bundle under a key that held nothing. *)
Lemma new_bundle_inv s s' dst : routing_inv s → is_bundle dst = true → blank dst s →
  (∀ k, table_key k = true → k ≠ dst → same_at k s s') →
  (∀ rs, routes_in (hash_at dst s') = Some rs → routes_wf rs) → routing_inv s' ∧ bundles_kept s s'.
Proof.
  intros Hi Hd Hb Hs Hwf. assert (bundles_kept s s') as Hk.
  { intros k Hk Hn. apply Hs; [auto with tables|]. by intros ->. }
  split; [|done]. eapply tables_inv; [done| |done|].
  - intros k H1 H2. apply Hs; [done|]. intros ->. congruence.
  - intros k rs Hkb Hr. destruct (decide (k = dst)) as [->|Hne]; [by apply Hwf|].
    eapply (ri_bundles _ Hi k); [done|]. by destruct (Hs k (table_bundle _ Hkb) Hne) as (_ & -> & _).
Qed.

(** ** The staged writes of a version flip *)

Lemma patternsKey_inj h h' : patternsKey h = patternsKey h' → h = h'.
Proof. apply app_inv_head. Qed.

Definition slot_removals (removed : list RoutePattern) : list write :=
  map (λ r, WHDel (patternsKey (r_host r)) (r_slot r)) removed.

Lemma slot_removals_effect removed : ∀ s h slot,
  patterns_at h (apply_writes (slot_removals removed) s) !! slot =
  if decide (Exists (λ r, r_host r = h ∧ r_slot r = slot) removed) then None else patterns_at h s !! slot.
Proof.
  induction removed as [|r removed IH]; intros s h slot.
  - rewrite decide_False; [done|]. by intros H%Exists_nil.
  - change (apply_writes (slot_removals (r :: removed)) s)
      with (apply_writes (slot_removals removed) (apply_write (WHDel (patternsKey (r_host r)) (r_slot r)) s)).
    rewrite IH. clear IH. unfold patterns_at. cbn [apply_write]. rewrite hash_set_hash.
    destruct (decide (Exists _ removed)) as [He|He].
    + rewrite decide_True; [done|]. by apply Exists_cons_tl.
    + destruct (decide (patternsKey h = patternsKey (r_host r))) as [->%patternsKey_inj|Hne].
      * rewrite lookup_delete. case_decide as E.
        -- rewrite decide_True; [done|]. by apply Exists_cons_hd.
        -- rewrite decide_False; [done|]. intros [[_ ?]|?]%Exists_cons; [congruence|done].
      * rewrite decide_False; [done|]. intros [[<- _]|?]%Exists_cons; done.
Qed.

Definition stage_slots (ns w v : jstr) (routes : list RoutePattern) : result control_error (list write) :=
  stage_all (λ r, let! value := rethrow (slot_text ns w v r) in Ok [WHSet (patternsKey (r_host r)) (r_slot r) value]) routes.

Lemma stage_slots_cons ns w v r rs ws : stage_slots ns w v (r :: rs) = Ok ws →
  ∃ raw ws', slot_text ns w v r = Ok raw ∧ stage_slots ns w v rs = Ok ws' ∧ ws = WHSet (patternsKey (r_host r)) (r_slot r) raw :: ws'.
Proof.
  unfold stage_slots. cbn [stage_all]. intros H. apply rbind_Ok_inv in H as (w1 & H1 & H).
  apply rbind_Ok_inv in H as (ws' & H2 & H). apply Ok_inj in H as <-. apply rbind_Ok_inv in H1 as (raw & H1 & H3).
  apply Ok_inj in H3 as <-. exists raw, ws'. split; [|done]. by destruct (slot_text ns w v r); [apply Ok_inj in H1 as ->|].
Qed.

Lemma stage_slots_targets ns w v rs : ∀ ws, stage_slots ns w v rs = Ok ws → targets ws = map (λ r, patternsKey (r_host r)) rs.
Proof.
  induction rs as [|r rs IH]; intros ws H.
  - by apply Ok_inj in H as <-.
  - apply stage_slots_cons in H as (raw & ws' & _ & H & ->). unfold targets. cbn. f_equal. by apply IH.
Qed.

Lemma stage_slots_effect ns w v rs : NoDup (map (λ r, (r_host r, r_slot r)) rs) → ∀ ws s, stage_slots ns w v rs = Ok ws →
  (∀ r, r ∈ rs → ∃ raw, slot_text ns w v r = Ok raw ∧ patterns_at (r_host r) (apply_writes ws s) !! r_slot r = Some raw) ∧
  (∀ h slot, (∀ r, r ∈ rs → ¬ (r_host r = h ∧ r_slot r = slot)) →
     patterns_at h (apply_writes ws s) !! slot = patterns_at h s !! slot).
Proof.
  induction rs as [|r rs IH]; intros Hnd ws s H.
  - apply Ok_inj in H as <-. split; [by intros r ?%not_elem_of_nil|done].
  - apply stage_slots_cons in H as (raw & ws' & Ht & H & ->). cbn [map] in Hnd. apply NoDup_cons in Hnd as [Hr Hnd].
    change (apply_writes (?x :: ws') s) with (apply_writes ws' (apply_write x s)).
    set (s1 := apply_write _ s). destruct (IH Hnd ws' s1 H) as [H1 H2].
    assert (∀ h slot, patterns_at h s1 !! slot =
      if decide (r_host r = h ∧ r_slot r = slot) then Some raw else patterns_at h s !! slot) as Hs1.
    { intros h slot. unfold s1, patterns_at. cbn [apply_write]. rewrite hash_set_hash.
      destruct (decide (patternsKey h = patternsKey (r_host r))) as [->%patternsKey_inj|Hne].
      - rewrite lookup_insert. repeat case_decide; naive_solver.
      - rewrite decide_False; [done|]. by intros [<- _]. }
    split.
    + intros r' [->|Hin]%elem_of_cons; [|by apply H1]. exists raw. split; [done|]. rewrite H2.
      * rewrite Hs1. by rewrite decide_True.
      * intros r' Hin [E1 E2]. apply Hr. apply list_elem_of_fmap. exists r'. by rewrite E1, E2.
    + intros h slot Hno. rewrite H2 by (intros r' Hin; apply Hno; by apply list_elem_of_further).
      rewrite Hs1. rewrite decide_False; [done|]. apply Hno. apply list_elem_of_here.
Qed.

Lemma routes_wf_pairs rs : routes_wf rs → NoDup (map (λ r, (r_host r, r_slot r)) rs).
Proof.
  intros [H _]. induction rs as [|r rs IH]; [constructor|]. cbn [map] in *. apply NoDup_cons in H as [H1 H2]. constructor; [|auto].
  intros (r' & [= E1 E2] & Hin)%list_elem_of_fmap. apply H1. apply list_elem_of_fmap. exists r'. unfold routeKey. by rewrite E1, E2.
Qed.

(** With no bar in the hosts, a route key is one host and one slot. *)
Lemma routeKey_inj r r' : 124 ∉ r_host r → 124 ∉ r_host r' → routeKey r = routeKey r' → r_host r = r_host r' ∧ r_slot r = r_slot r'.
Proof.
  unfold routeKey. generalize (r_host r) (r_host r') (r_slot r) (r_slot r'). change (js "|") with [124]. cbn [app].
  induction l as [|x a IH]; intros [|y b] t t' Ha Hb H; cbn in H.
  - by injection H.
  - injection H as <- _. rewrite not_elem_of_cons in Hb. tauto.
  - injection H as -> _. rewrite not_elem_of_cons in Ha. tauto.
  - injection H as -> H. rewrite not_elem_of_cons in Ha, Hb. destruct (IH b t t') as [-> ->]; tauto.
Qed.

Lemma sadd_effect k l : ∀ s h, h ∈ set_at k (apply_writes (map (WSAdd k) l) s) ↔ h ∈ l ∨ h ∈ set_at k s.
Proof.
  induction l as [|x l IH]; intros s h; [set_solver|].
  change (apply_writes (map (WSAdd k) (x :: l)) s) with (apply_writes (map (WSAdd k) l) (apply_write (WSAdd k x) s)).
  rewrite IH. cbn [apply_write]. rewrite set_set_set, decide_True by done. set_solver.
Qed.

Lemma srem_effect k l : ∀ s h, h ∈ set_at k (apply_writes (map (WSRem k) l) s) ↔ h ∉ l ∧ h ∈ set_at k s.
Proof.
  induction l as [|x l IH]; intros s h; [set_solver|].
  change (apply_writes (map (WSRem k) (x :: l)) s) with (apply_writes (map (WSRem k) l) (apply_write (WSRem k x) s)).
  rewrite IH. cbn [apply_write]. rewrite set_set_set, decide_True by done. set_solver.
Qed.

(** The writes of a flip: slots removed and set, the active version, the reverse index. *)
Section staged.
Context (s : store) (ns w v : jstr) (removed new : list RoutePattern) (slots : list write) (adds rems : list jstr).
Context (P1 P2 : list write).
Hypothesis Hslots : stage_slots ns w v new = Ok slots.
Hypothesis Hplain1 : loose_writes P1.
Hypothesis Hplain2 : loose_writes P2.

Definition flip_writes : list write :=
  slot_removals removed ++ slots ++ [WHSet (routesKey ns) w v] ++ P1
  ++ map (WSAdd (nsHostsKey ns)) adds ++ map (WSRem (nsHostsKey ns)) rems ++ P2.

#[local] Abbreviation s1 := (apply_writes slots (apply_writes (slot_removals removed) s)).
#[local] Abbreviation s' := (apply_writes flip_writes s).

Lemma flip_writes_eq : s' = apply_writes P2 (apply_writes (map (WSRem (nsHostsKey ns)) rems)
  (apply_writes (map (WSAdd (nsHostsKey ns)) adds) (apply_writes P1 (apply_write (WHSet (routesKey ns) w v) s1)))).
Proof. unfold flip_writes. by rewrite !apply_writes_app. Qed.

Lemma head_not_in k (l : list write) : (∀ k', k' ∈ targets l → key_head k' ≠ key_head k) → k ∉ targets l.
Proof. intros H Hin. by apply (H k Hin). Qed.

Lemma removals_targets k' : k' ∈ targets (slot_removals removed) → key_head k' = js "patterns".
Proof.
  unfold targets, slot_removals. intros (wr & Hin & Ht)%list_elem_of_omap. apply list_elem_of_fmap in Hin as (r & -> & _).
  cbn in Ht. injection Ht as <-. vm_compute. reflexivity.
Qed.

Lemma slots_targets k' : k' ∈ targets slots → key_head k' = js "patterns".
Proof.
  rewrite (stage_slots_targets _ _ _ _ _ Hslots). intros (r & -> & _)%list_elem_of_fmap. vm_compute. reflexivity.
Qed.

Lemma index_targets (f : jstr → write) l k' : (∀ h, target (f h) = Some (nsHostsKey ns)) → k' ∈ targets (map f l) → key_head k' = js "ns-hosts".
Proof.
  intros Hf. unfold targets. intros (wr & Hin & Ht)%list_elem_of_omap. apply list_elem_of_fmap in Hin as (h & -> & _).
  rewrite Hf in Ht. injection Ht as <-. vm_compute. reflexivity.
Qed.

(** A key that is neither a pattern table, nor the active table, nor the index is kept. *)
Lemma staged_slots_same k : key_head k ≠ js "patterns" → same_at k s s1.
Proof.
  intros Hk. etrans; apply apply_writes_other; apply head_not_in; intros k' Hin.
  - rewrite (removals_targets k' Hin). congruence.
  - rewrite (slots_targets k' Hin). congruence.
Qed.

Lemma staged_index_same k (f : jstr → write) l s0 : (∀ h, target (f h) = Some (nsHostsKey ns)) → key_head k ≠ js "ns-hosts" →
  same_at k s0 (apply_writes (map f l) s0).
Proof.
  intros Hf Hk. apply apply_writes_other, head_not_in. intros k' Hin. rewrite (index_targets f l k' Hf Hin). congruence.
Qed.

Lemma staged_after k s0 : table_key k = true → key_head k ≠ js "ns-hosts" →
  same_at k s0 (apply_writes P2 (apply_writes (map (WSRem (nsHostsKey ns)) rems)
    (apply_writes (map (WSAdd (nsHostsKey ns)) adds) (apply_writes P1 s0)))).
Proof.
  intros Ht Hk. etrans; [by apply (loose_writes_same P1)|]. etrans; [by apply (staged_index_same k (WSAdd (nsHostsKey ns)) adds)|].
  etrans; [by apply (staged_index_same k (WSRem (nsHostsKey ns)) rems)|]. by apply loose_writes_same.
Qed.

Lemma staged_patterns h : patterns_at h s' = patterns_at h s1.
Proof.
  rewrite flip_writes_eq. destruct (staged_after (patternsKey h) (apply_write (WHSet (routesKey ns) w v) s1)) as (_ & E & _);
    [auto with tables|by vm_compute|]. unfold patterns_at. rewrite <- E. cbn [apply_write]. rewrite hash_set_hash.
  rewrite decide_False; [done|]. intros Heq. apply (f_equal key_head) in Heq. by vm_compute in Heq.
Qed.

Lemma staged_active ns' : active_at ns' s' = if decide (ns' = ns) then <[w := v]> (active_at ns s) else active_at ns' s.
Proof.
  rewrite flip_writes_eq. destruct (staged_after (routesKey ns') (apply_write (WHSet (routesKey ns) w v) s1)) as (_ & E & _);
    [auto with tables|by vm_compute|]. unfold active_at. rewrite <- E. cbn [apply_write]. rewrite hash_set_hash.
  assert (∀ n, hash_at (routesKey n) s = hash_at (routesKey n) s1) as Hs by (intros n; apply staged_slots_same; by vm_compute).
  rewrite <- !Hs. destruct (decide (ns' = ns)) as [->|Hne]; [by rewrite decide_True|].
  rewrite decide_False; [done|]. intros ?%app_inv_head. done.
Qed.

Lemma staged_kept k : table_key k = true → set_has [js "patterns"; js "routes"; js "ns-hosts"] (key_head k) = false → same_at k s s'.
Proof.
  intros Ht Hk. unfold set_has in Hk. cbn [existsb] in Hk. rewrite !orb_false_iff, !jeqb_neq in Hk. destruct Hk as (H1 & H2 & H3 & _).
  rewrite flip_writes_eq. etrans; [by apply staged_slots_same|]. etrans; [|by apply staged_after].
  apply apply_write_other. cbn. intros [= E]. apply H2. by rewrite <- E.
Qed.

Lemma bundle_head k : is_bundle k = true → key_head k = js "worker".
Proof. unfold is_bundle. intros [H _]%andb_prop. by apply jeqb_eq in H. Qed.

Lemma staged_bundle k : is_bundle k = true → same_at k s s'.
Proof. intros Hk. apply staged_kept; [auto with tables|]. by rewrite (bundle_head k Hk). Qed.

Lemma staged_declared ns' : declared_at ns' s' = declared_at ns' s.
Proof. symmetry. apply staged_kept; [auto with tables|by vm_compute]. Qed.

Lemma staged_index_at ns' : same_at (nsHostsKey ns') s (apply_writes P1 (apply_write (WHSet (routesKey ns) w v) s1)).
Proof.
  etrans; [apply (staged_slots_same (nsHostsKey ns')); by vm_compute|].
  etrans; [|apply loose_writes_same; auto with tables]. apply apply_write_other. cbn. intros [= E].
Qed.

Lemma staged_index ns' h : h ∈ index_at ns' s' ↔
  if decide (ns' = ns) then h ∉ rems ∧ (h ∈ adds ∨ h ∈ index_at ns s) else h ∈ index_at ns' s.
Proof.
  rewrite flip_writes_eq. unfold index_at.
  destruct (loose_writes_same P2 (apply_writes (map (WSRem (nsHostsKey ns)) rems)
    (apply_writes (map (WSAdd (nsHostsKey ns)) adds) (apply_writes P1 (apply_write (WHSet (routesKey ns) w v) s1))))
    (nsHostsKey ns')) as (_ & _ & <- & _); [done|auto with tables|].
  destruct (decide (ns' = ns)) as [->|Hne].
  - rewrite srem_effect, sadd_effect. by destruct (staged_index_at ns) as (_ & _ & <- & _).
  - assert (∀ (f : jstr → write) l s0, (∀ h, target (f h) = Some (nsHostsKey ns)) → set_at (nsHostsKey ns') (apply_writes (map f l) s0) = set_at (nsHostsKey ns') s0) as Ho.
    { intros f l s0 Hf. symmetry. apply apply_writes_other. unfold targets. intros (wr & Hin & Ht)%list_elem_of_omap.
      apply list_elem_of_fmap in Hin as (x & -> & _). rewrite Hf in Ht. injection Ht as E. by subst. }
    rewrite !Ho by done. by destruct (staged_index_at ns') as (_ & _ & <- & _).
Qed.
End staged.

(** ** What the reads of a promotion establish *)

Lemma elem_of_unique l (x : jstr) : x ∈ unique l ↔ x ∈ l.
Proof.
  induction l as [|y l IH]; [done|]. cbn [unique]. rewrite !elem_of_cons, list_elem_of_filter, IH.
  destruct (decide (x = y)); naive_solver.
Qed.

Lemma watchKeys_spec (past : store → Prop) s W keys (Q : unit → list jstr → Prop) :
  (∀ W', W ⊆ W' → (∀ k, k ∈ keys → k ≠ [] → k ∈ W') → Q tt W') → rd_spec past s W (watchKeys keys) Q.
Proof.
  intros H. assert (∀ k, k ∈ keys → k ≠ [] → k ∈ uniqueKeys keys) as Hu.
  { intros k Hk Hne. by apply elem_of_unique, list_elem_of_filter. }
  unfold watchKeys. destruct (uniqueKeys keys) as [|k0 ks] eqn:E.
  - apply rd_spec_ret, H; [done|]. intros k Hk Hne. by apply (Hu k Hk), not_elem_of_nil in Hne.
  - apply rd_spec_watch, H; [set_solver|]. intros k Hk Hne. apply elem_of_app. left. by apply Hu.
Qed.

Lemma snapshot_spec (past : store → Prop) s W ns w v watch (Q : option jstr * PromoteInputs → list jstr → Prop) :
  routesKey ns ∈ watch → (∀ k, bundle_key ns w v = Ok k → k ∈ watch) →
  (∀ cur inputs W', watch ++ W ⊆ W' → active_at ns s !! w = cur →
     bundle_routes ns w v s = Some (pi_newRoutes inputs) → Q (cur, inputs) W') →
  rd_spec past s W (readPromoteInitialSnapshot ns w v watch) Q.
Proof.
  intros Hr Hk HQ. unfold readPromoteInitialSnapshot. rd_step rd_spec_lift. intros key Hkey.
  rd_step rd_spec_watch. rd_step rd_spec_skip. intros lock W1 HW1.
  rd_step rd_spec_skip. intros seq W2 HW2. rd_step rd_spec_skip. intros proj W3 HW3.
  assert (watch ++ W ⊆ W3) as HW by (clear -HW1 HW2 HW3; set_solver).
  rd_step rd_spec_ask_watched; [apply HW, elem_of_app; left; by apply Hk|].
  rd_step rd_spec_ask_watched; [apply HW, elem_of_app; by left|]. cbn [answer].
  destruct (truthy_text lock); [apply rd_spec_throw|]. destruct (hash_at key s !! js "__meta__") as [raw|] eqn:Eraw; [|apply rd_spec_throw].
  rd_step rd_spec_lift. intros inputs Hin. apply rd_spec_ret. apply HQ; [done|done|].
  apply rbind_Ok_inv in Hin as (meta & Hm & Hin). apply rbind_Ok_inv in Hin as (rs & Hrs & Hin).
  assert (pi_newRoutes inputs = rs) as ->.
  { clear -Hin. repeat (apply rbind_Ok_inv in Hin as (? & _ & Hin)). apply Ok_inj in Hin. by subst inputs. }
  unfold bundle_routes. rewrite Hkey. unfold routes_in. rewrite Eraw. cbn [mbind option_bind]. by rewrite Hm; cbn [rbind]; rewrite Hrs.
Qed.

(** A version that is active has its bundle. *)
Lemma active_not_blank s ns w v k : routing_inv s → active_at ns s !! w = Some v → bundle_key ns w v = Ok k → ¬ blank k s.
Proof.
  intros Hi Ha Hk Hb. destruct (ri_active _ Hi _ _ _ Ha) as (_ & rs & Hr & _). unfold bundle_routes in Hr.
  rewrite Hk, (blank_routes _ _ Hb) in Hr. done.
Qed.

(** The bundle of a version that is active was what it is, whenever there was one. *)
Lemma active_settled s0 s ns w v k : routing_inv s → settled s0 s → active_at ns s !! w = Some v → bundle_key ns w v = Ok k →
  hash_at k s0 ≠ ∅ → hash_at k s0 = hash_at k s.
Proof.
  intros Hi Hs Ha Hk Hb. destruct (ri_active _ Hi _ _ _ Ha) as (Hn & _).
  destruct (Hs k (bundle_key_is_bundle _ _ _ _ Hn Hk)) as [Hsame|Hbl].
  - intros (_ & Hh & _). by rewrite <- Hh in Hb.
  - apply Hsame.
  - by destruct (active_not_blank s ns w v k Hi Ha Hk).
Qed.

(** The metadata of the current version: read without a watch of its bundle, but the version
    is active at the commit. *)
Lemma readMeta_spec (past : store → Prop) s W ns w cur (Q : option (list (jstr * jsval)) → list jstr → Prop) : routing_inv s →
  (∀ s0, past s0 → settled s0 s) → active_at ns s !! w = cur →
  (∀ W', W ⊆ W' → (cur = None ∨ cur = Some []) → Q None W') →
  (∀ W' ver meta, W ⊆ W' → cur = Some ver → (∀ rs, list_field "routes" route_of meta = Ok rs → bundle_routes ns w ver s = Some rs) →
     Q (Some meta) W') →
  rd_spec past s W (readMeta ns w cur) Q.
Proof.
  intros Hi Hp Hc H1 H2. unfold readMeta. destruct cur as [[|c ver]|]; try (apply rd_spec_ret, H1; auto).
  rd_step rd_spec_lift. intros key Hkey. rd_step rd_spec_ask. intros s0 Hs0 _. cbn [answer].
  rd_step rd_spec_skip. intros _ W1 HW. rd_step rd_spec_lift. intros meta Hm. apply rd_spec_ret.
  eapply H2; [done|done|]. intros rs Hrs. destruct (hash_at key s0 !! js "__meta__") as [raw|] eqn:Eraw; [|done].
  unfold bundle_routes. rewrite Hkey. rewrite <- (active_settled s0 s ns w (c :: ver) key Hi (Hp s0 Hs0) Hc Hkey) by (intros E; by rewrite E in Eraw).
  unfold routes_in. rewrite Eraw. cbn [mbind option_bind]. cbn [opt_string] in Hm. by rewrite Hm; cbn [rbind]; rewrite Hrs.
Qed.

(** ** Route conflicts *)

Fixpoint slots_of (l : list (jstr * jstr)) : result control_error (list (jstr * projection)) :=
  match l with
  | [] => Ok []
  | (slot, raw) :: l => let! held := requirePatternProjection raw in let! rest := slots_of l in Ok ((slot, held) :: rest)
  end.

Lemma host_slots_eq state : host_slots state = slots_of (map_to_list state).
Proof. unfold host_slots. induction (map_to_list state) as [|[slot raw] l IH]; cbn; [done|]. by rewrite IH. Qed.

Lemma requirePatternProjection_Ok raw p : requirePatternProjection raw = Ok p ↔ decodePatternProjection (JStr raw) = Some p.
Proof.
  unfold requirePatternProjection. destruct (decodePatternProjection _); split; try done.
  - by intros ->%Ok_inj.
  - by intros [= ->].
Qed.

Lemma slots_of_assoc l : ∀ slots slot raw, NoDup (l.*1) → slots_of l = Ok slots → (slot, raw) ∈ l →
  ∃ p, decodePatternProjection (JStr raw) = Some p ∧ assoc slot slots = Some p ∧ (slot, p) ∈ slots.
Proof.
  induction l as [|[slot0 raw0] l IH]; intros slots slot raw Hnd H Hin; [by apply not_elem_of_nil in Hin|].
  cbn in H. apply rbind_Ok_inv in H as (p0 & Hp0%requirePatternProjection_Ok & H). apply rbind_Ok_inv in H as (rest & Hr & H).
  apply Ok_inj in H as <-. cbn in Hnd. apply NoDup_cons in Hnd as [H0 Hnd]. cbn [assoc].
  apply elem_of_cons in Hin as [[= -> ->]|Hin].
  - exists p0. rewrite jeqb_refl. split_and!; [done|done|apply list_elem_of_here].
  - destruct (IH rest slot raw Hnd Hr Hin) as (p & H1 & H2 & H3). exists p. split_and!; [done| |by apply list_elem_of_further].
    rewrite (proj2 (jeqb_neq _ _)); [done|]. intros ->. apply H0. apply list_elem_of_fmap. by exists (slot0, raw).
Qed.

Lemma host_slots_holds s h slots slot p : host_slots (patterns_at h s) = Ok slots → holds s h slot p →
  assoc slot slots = Some p ∧ (slot, p) ∈ slots.
Proof.
  rewrite host_slots_eq. intros Hs (raw & Hr & Hd).
  destruct (slots_of_assoc _ _ slot raw (NoDup_fst_map_to_list _) Hs) as (p' & Hd' & H1 & H2).
  { by apply elem_of_map_to_list. }
  rewrite Hd in Hd'. injection Hd' as <-. done.
Qed.

Lemma host_analysis_assoc s hosts : ∀ analysis h, host_analysis hosts (map (λ h, patterns_at h s) hosts) = Ok analysis → h ∈ hosts →
  ∃ slots, assoc h analysis = Some slots ∧ host_slots (patterns_at h s) = Ok slots.
Proof.
  induction hosts as [|h0 hosts IH]; intros analysis h H Hin; [by apply not_elem_of_nil in Hin|]. cbn in H.
  apply rbind_Ok_inv in H as (slots & Hs & H). apply rbind_Ok_inv in H as (rest & Hr & H). apply Ok_inj in H as <-. cbn [assoc].
  destruct (jeqb h h0) eqn:E; [apply jeqb_eq in E as ->; by exists slots|]. apply jeqb_neq in E.
  apply elem_of_cons in Hin as [?|Hin]; [done|]. by apply IH.
Qed.

Lemma assoc_zip_map {X} (f : jstr → X) l h : h ∈ l → assoc h (zip l (map f l)) = Some (f h).
Proof.
  induction l as [|x l IH]; intros Hin; [by apply not_elem_of_nil in Hin|]. cbn. destruct (jeqb h x) eqn:E; [by apply jeqb_eq in E as ->|].
  apply jeqb_neq in E. apply elem_of_cons in Hin as [?|Hin]; [done|]. by apply IH.
Qed.

Lemma decoded_ns_nonempty raw p : decodePatternProjection (JStr raw) = Some p → pp_ns p ≠ [].
Proof.
  unfold decodePatternProjection. destruct (split_on tab raw) as [|a [|b [|c [|d [|e [|f [|]]]]]]]; try done.
  destruct (negb _); [done|]. destruct (_ || _) eqn:E; [done|]. rewrite !orb_false_iff, !jlen_zero in E.
  destruct (kind_of_text e); [|done]. intros [= <-]. cbn. tauto.
Qed.

Lemma route_free_spec s ns w analysis (affected : list jstr) r slot p : r_host r ∈ affected →
  host_analysis affected (map (λ h, patterns_at h s) affected) = Ok analysis → route_free ns w analysis r = true →
  holds s (r_host r) slot p → pp_ns p = ns ∧ (slot = r_slot r → pp_worker p = w).
Proof.
  intros Hin Ha Hf Hh. destruct (host_analysis_assoc s affected analysis (r_host r) Ha Hin) as (slots & Has & Hs).
  destruct (host_slots_holds s (r_host r) slots slot p Hs Hh) as [H1 H2]. unfold route_free in Hf. rewrite Has in Hf.
  apply andb_prop in Hf as [Hall Hheld]. rewrite forallb_Forall, Forall_forall in Hall. specialize (Hall _ H2). cbn in Hall.
  destruct Hh as (raw & _ & Hd). apply decoded_ns_nonempty, jeqb_neq in Hd. rewrite Hd in Hall. apply jeqb_eq in Hall. split; [done|].
  intros ->. rewrite H1 in Hheld. apply andb_prop in Hheld as [_ Hheld]. by apply jeqb_eq in Hheld.
Qed.

(** ** What a promotion has observed when it commits *)

Record promote_seen (s : store) (ns w : jstr) (cur : option jstr) (new : list RoutePattern) (o : PromoteObserved) : Prop := {
  ps_old : (po_oldRoutes o = [] ∧ (cur = None ∨ cur = Some [])) ∨ ∃ ver, cur = Some ver ∧ bundle_routes ns w ver s = Some (po_oldRoutes o);
  ps_hosts : po_affectedHosts o = computeAffectedHosts (po_oldRoutes o) new;
  ps_state : po_hostState o = zip (po_affectedHosts o) (map (λ h, patterns_at h s) (po_affectedHosts o));
  ps_declared : ∀ r, r ∈ new → r_host r ∈ declared_at ns s;
  ps_free : ∀ r slot p, r ∈ new → holds s (r_host r) slot p → pp_ns p = ns ∧ (slot = r_slot r → pp_worker p = w) }.

Lemma declared_spec (past : store → Prop) s W ns routes (Q : unit → list jstr → Prop) : hostsKey ns ∈ W →
  ((∀ r, r ∈ routes → r_host r ∈ declared_at ns s) → Q tt W) → rd_spec past s W (assertDeclaredHosts ns routes) Q.
Proof.
  intros HW HQ. unfold assertDeclaredHosts. cbv zeta. rd_step rd_spec_map_watched; [by intros|]. cbn [answer].
  destruct (forallb id _) eqn:E; [|apply rd_spec_throw]. apply rd_spec_ret, HQ. intros r Hr.
  rewrite forallb_Forall, Forall_forall in E. assert (bool_decide (r_host r ∈ set_at (hostsKey ns) s) = true) as Hb.
  { apply (E _). apply list_elem_of_fmap. exists (r_host r). split; [done|]. apply elem_of_unique, list_elem_of_fmap. by exists r. }
  by apply bool_decide_eq_true in Hb.
Qed.

Lemma conflicts_spec (past : store → Prop) (s : store) (W : list jstr) (ns w : jstr) (new : list RoutePattern) (affected : list jstr) (Q : list (jstr * gmap jstr jstr) → list jstr → Prop) :
  (∀ h, h ∈ affected → patternsKey h ∈ W) → (∀ r, r ∈ new → r_host r ∈ affected) →
  ((∀ r slot p, r ∈ new → holds s (r_host r) slot p → pp_ns p = ns ∧ (slot = r_slot r → pp_worker p = w)) →
   Q (zip affected (map (λ h, patterns_at h s) affected)) W) →
  rd_spec past s W (readHostStateAndAssertRouteConflicts ns w new affected) Q.
Proof.
  intros HW Hn HQ. unfold readHostStateAndAssertRouteConflicts. rd_step rd_spec_map_watched; [done|]. cbn [answer].
  rd_step rd_spec_lift. intros analysis Ha. destruct (forallb _ new) eqn:E; [|apply rd_spec_throw]. apply rd_spec_ret, HQ.
  rewrite forallb_Forall, Forall_forall in E. intros r slot p Hr Hh. eapply route_free_spec; [by apply Hn|exact Ha|by apply E|done].
Qed.

Lemma promote_state_spec (past : store → Prop) s W ns w cur inputs (Q : PromoteObserved → list jstr → Prop) : routing_inv s →
  (∀ s0, past s0 → settled s0 s) → active_at ns s !! w = cur → hostsKey ns ∈ W →
  (∀ o W', W ⊆ W' → promote_seen s ns w cur (pi_newRoutes inputs) o → Q o W') →
  rd_spec past s W (readAndAssertPromoteState ns w cur inputs) Q.
Proof.
  intros Hi Hp Hc HW HQ. unfold readAndAssertPromoteState. rd_step rd_spec_skip. intros _ W1 HW1.
  apply rd_spec_bind. cbv beta.
  assert (∀ W' meta, W ⊆ W' →
    (∀ old, list_field "routes" route_of (default [] meta) = Ok old →
      (old = [] ∧ (cur = None ∨ cur = Some [])) ∨ ∃ ver, cur = Some ver ∧ bundle_routes ns w ver s = Some old) →
    rd_spec past s W' (let+ oldRoutes := rd_lift (list_field "routes" route_of (default [] meta)) in
      let+ oldQueueConsumers := rd_lift (list_field "queueConsumers" consumer_of (default [] meta)) in
      let+ _ := assertQueueConsumerOwnership ns w oldQueueConsumers (pi_newQueueConsumers inputs) in
      let affectedHosts := computeAffectedHosts oldRoutes (pi_newRoutes inputs) in
      let+ _ := watchKeys (map patternsKey affectedHosts) in
      let+ _ := assertDeclaredHosts ns (pi_newRoutes inputs) in
      let+ hostState := readHostStateAndAssertRouteConflicts ns w (pi_newRoutes inputs) affectedHosts in
      let+ _ := assertPlatformAsAvailable ns w (pi_newAs inputs) in
      rd_ret (MkObserved oldRoutes oldQueueConsumers affectedHosts hostState)) Q) as Hrest.
  { intros W2 meta HW2 Hold. rd_step rd_spec_lift. intros old Hrs. rd_step rd_spec_lift. intros oldQ _. rd_step rd_spec_skip. intros _ W3 HW3.
    cbv zeta. rd_step watchKeys_spec. intros W4 HW4 Hpat. rd_step declared_spec; [clear -HW HW2 HW3 HW4; set_solver|].
    intros Hdec. rd_step conflicts_spec.
    - intros h Hh. apply Hpat; [apply list_elem_of_fmap; by exists h|done].
    - intros r Hr. apply elem_of_unique, elem_of_app. right. apply list_elem_of_fmap. by exists r.
    - intros Hfree. rd_step rd_spec_skip. intros _ W5 HW5. apply rd_spec_ret, HQ; [clear -HW2 HW3 HW4 HW5; set_solver|].
      split; cbn; [by apply Hold|done..]. }
  apply readMeta_spec; [done..| |].
  - intros W2 HW2 Hc'. apply Hrest; [clear -HW1 HW2; set_solver|]. intros old [= <-]. by left.
  - intros W2 ver meta HW2 Hc' Hb. apply Hrest; [clear -HW1 HW2; set_solver|]. intros old Ho. right. exists ver. split; [done|]. by apply Hb.
Qed.

(** ** A promotion keeps the invariant *)

Lemma stageVersionFlip_shape ns w v routes workersDev hosts ws : stageVersionFlip ns w v routes workersDev hosts = Ok ws →
  ∃ slots P, stage_slots ns w v routes = Ok slots ∧ plain_writes P ∧ ws = slots ++ [WHSet (routesKey ns) w v] ++ P.
Proof.
  unfold stageVersionFlip. intros H. apply rbind_Ok_inv in H as (slots & Hs & H). apply Ok_inj in H as <-.
  eexists slots, _. split; [exact Hs|]. split; [|reflexivity].
  apply plain_cons. split; [destruct workersDev; intros ? [= <-]; solve_head|]. apply plain_writes_app. split; [auto with plain|].
  apply plain_cons. split; [done|apply plain_nil].
Qed.

Lemma stagePromote_shape ns w v inputs o plan ws : names_ok ns w → stagePromoteWithRoutes ns w v inputs o plan = Ok ws →
  ∃ slots P1 P2, stage_slots ns w v (pi_newRoutes inputs) = Ok slots ∧ plain_writes P1 ∧ plain_writes P2 ∧
    ws = flip_writes ns w v (filter (λ r, routeKey r ∉ ps_newRouteKeys plan) (po_oldRoutes o)) slots
           (ps_nsHostsAdd plan) (ps_nsHostsRem plan) P1 P2.
Proof.
  intros Hn. unfold stagePromoteWithRoutes. cbv zeta. intros H.
  apply rbind_Ok_inv in H as (flip & (slots & P & Hs & HP & ->)%stageVersionFlip_shape & H).
  apply rbind_Ok_inv in H as (policy & Hp & H). apply rbind_Ok_inv in H as (d1 & Hd & H).
  apply rbind_Ok_inv in H as (crons & Hc & H). apply Ok_inj in H as <-.
  exists slots, (P ++ policy ++ [WSAdd NAMESPACES_KEY ns]), (d1 ++ crons ++ stageQueueConsumerPlan ns w v (ps_queuePlan plan)).
  split; [done|]. rewrite !plain_writes_app. split_and!; eauto with plain; [solve_plain|].
  unfold flip_writes, slot_removals. by rewrite <- !app_assoc.
Qed.

(** The slots of the worker are the routes of the version it runs. *)
Lemma old_routes_hold s ns w cur new o : routing_inv s → active_at ns s !! w = cur → promote_seen s ns w cur new o →
  (∀ h slot p, holds s h slot p → pp_ns p = ns → pp_worker p = w → ∃ r, r ∈ po_oldRoutes o ∧ r_host r = h ∧ r_slot r = slot) ∧
  (∀ r, r ∈ po_oldRoutes o → ∃ p, holds s (r_host r) (r_slot r) p ∧ pp_ns p = ns ∧ pp_worker p = w).
Proof.
  intros Hi Hc Hseen. split.
  - intros h slot p (raw & Hs & Hd) Hns Hw. destruct (slot_holder s h slot raw Hi Hs) as (ns' & w' & v' & rs & r & k & value & Hd' & Ha & Hb & Hr & Hh & Hsl & _).
    rewrite Hd in Hd'. injection Hd' as ->. cbn in Hns, Hw. subst ns' w'. rewrite Ha in Hc. subst cur.
    destruct (ps_old _ _ _ _ _ _ Hseen) as [[_ [[=]|[= ->]]]|(ver & [= <-] & Hb')].
    + by rewrite (eq_refl : bundle_routes ns w [] s = None) in Hb.
    + rewrite Hb in Hb'. injection Hb' as <-. by exists r.
  - intros r Hr. destruct (ps_old _ _ _ _ _ _ Hseen) as [[Ho _]|(ver & -> & Hb)].
    { rewrite Ho in Hr. by apply not_elem_of_nil in Hr. }
    destruct (ri_active _ Hi _ _ _ Hc) as (_ & rs & Hb' & Hall). rewrite Hb in Hb'. injection Hb' as <-.
    destruct (Hall r Hr) as (raw & Ht & Hs). destruct (slot_text_decode _ _ _ _ _ Ht) as (k & value & Hd & _).
    eexists. split; [by exists raw|done].
Qed.

Section promote.
Context (s : store) (ns w v : jstr) (cur : option jstr) (new : list RoutePattern) (o : PromoteObserved).
Context (slots P1 P2 : list write).
Hypothesis Hinv : routing_inv s.
Hypothesis Hnames : names_ok ns w.
Hypothesis Hcur : active_at ns s !! w = cur.
Hypothesis Hnew : bundle_routes ns w v s = Some new.
Hypothesis Hseen : promote_seen s ns w cur new o.
Hypothesis Hslots : stage_slots ns w v new = Ok slots.
Hypothesis Hplain1 : loose_writes P1.
Hypothesis Hplain2 : loose_writes P2.

#[local] Abbreviation old := (po_oldRoutes o).
#[local] Abbreviation affected := (po_affectedHosts o).
#[local] Abbreviation newKeys := (computeRouteKeySet new).
Let removed := filter (λ r, routeKey r ∉ newKeys) old.
Let deltas := computeNsHostDeltas ns affected old new newKeys (λ h, default ∅ (assoc h (po_hostState o))).
#[local] Abbreviation s' := (apply_writes (flip_writes ns w v removed slots deltas.1 deltas.2 P1 P2) s).

Lemma promote_wf rs ver : bundle_routes ns w ver s = Some rs → routes_wf rs.
Proof.
  unfold bundle_routes. destruct (bundle_key ns w ver) as [k|] eqn:E; [|done]. apply (ri_bundles _ Hinv).
  by eapply bundle_key_is_bundle.
Qed.

(** A route of the old version that the new one does not have, by host and slot. *)
Lemma removed_spec r : r ∈ removed ↔ r ∈ old ∧ ∀ r', r' ∈ new → ¬ (r_host r' = r_host r ∧ r_slot r' = r_slot r).
Proof.
  unfold removed. rewrite list_elem_of_filter. unfold computeRouteKeySet. rewrite elem_of_unique. split.
  - intros [Hk Hr]. split; [done|]. intros r' Hr' [E1 E2]. apply Hk, list_elem_of_fmap. exists r'. unfold routeKey. by rewrite E1, E2.
  - intros [Hr Hno]. split; [|done]. intros (r' & E & Hr')%list_elem_of_fmap. apply (Hno r' Hr').
    destruct (ps_old _ _ _ _ _ _ Hseen) as [[Ho _]|(ver & _ & Hb)].
    { rewrite Ho in Hr. by apply not_elem_of_nil in Hr. }
    destruct (promote_wf _ _ Hb) as [_ Hbar]. destruct (promote_wf _ _ Hnew) as [_ Hbar'].
    rewrite Forall_forall in Hbar, Hbar'. symmetry in E. by apply routeKey_inj in E; [|apply Hbar'|apply Hbar].
Qed.

Lemma promote_patterns h slot : patterns_at h s' !! slot =
  patterns_at h (apply_writes slots (apply_writes (slot_removals removed) s)) !! slot.
Proof. by rewrite staged_patterns. Qed.

Lemma promote_set r : r ∈ new → ∃ raw, slot_text ns w v r = Ok raw ∧ patterns_at (r_host r) s' !! r_slot r = Some raw.
Proof.
  intros Hr. rewrite promote_patterns. apply (stage_slots_effect ns w v new); [|done..].
  apply routes_wf_pairs. by eapply promote_wf.
Qed.

Lemma promote_rest h slot : (∀ r, r ∈ new → ¬ (r_host r = h ∧ r_slot r = slot)) → patterns_at h s' !! slot =
  if decide (Exists (λ r, r_host r = h ∧ r_slot r = slot) removed) then None else patterns_at h s !! slot.
Proof.
  intros Hno. rewrite promote_patterns, <- slot_removals_effect.
  apply (stage_slots_effect ns w v new); [|done..]. apply routes_wf_pairs. by eapply promote_wf.
Qed.

Lemma promote_other h slot raw : (∀ r, r ∈ new → ¬ (r_host r = h ∧ r_slot r = slot)) →
  patterns_at h s' !! slot = Some raw ↔
  patterns_at h s !! slot = Some raw ∧ ∀ p, decodePatternProjection (JStr raw) = Some p → ¬ (pp_ns p = ns ∧ pp_worker p = w).
Proof.
  intros Hno. rewrite promote_rest by done. destruct (old_routes_hold s ns w cur new o Hinv Hcur Hseen) as [Hback Hforth].
  split.
  - case_decide as He; [done|]. intros Hs. split; [done|]. intros p Hd [E1 E2]. apply He.
    destruct (Hback h slot p) as (r & Hr & Hh & Hsl); [by exists raw|done..|]. apply Exists_exists. exists r. split; [|done].
    apply removed_spec. split; [done|]. intros r' Hr' [E3 E4]. apply (Hno r' Hr'). by rewrite E3, E4.
  - intros [Hs Hn]. rewrite decide_False; [done|]. intros (r & [Hr _]%removed_spec & <- & <-)%Exists_exists.
    destruct (Hforth r Hr) as (p & (raw' & Hs' & Hd) & Hp). rewrite Hs in Hs'. injection Hs' as <-. by apply (Hn p Hd).
Qed.

Lemma foldr_delete_lookup (rs : list RoutePattern) (m : gmap jstr jstr) slot :
  foldr (λ r m, delete (r_slot r) m) m rs !! slot = if decide (Exists (λ r, r_slot r = slot) rs) then None else m !! slot.
Proof.
  induction rs as [|r rs IH]; cbn [foldr].
  - rewrite decide_False; [done|]. by intros ?%Exists_nil.
  - rewrite lookup_delete. destruct (decide (r_slot r = slot)) as [E|E].
    + rewrite decide_True; [done|]. by apply Exists_cons_hd.
    + rewrite IH. destruct (decide (Exists _ rs)) as [He|He].
      * rewrite decide_True; [done|]. by apply Exists_cons_tl.
      * rewrite decide_False; [done|]. by intros [?|?]%Exists_cons.
Qed.

Lemma promote_owns h : h ∈ affected →
  ns_owns_host ns h old new newKeys (default ∅ (assoc h (po_hostState o))) = true ↔ ∃ slot p, holds s' h slot p ∧ pp_ns p = ns.
Proof.
  intros Hh. rewrite (ps_state _ _ _ _ _ _ Hseen), (assoc_zip_map (λ h, patterns_at h s)) by done.
  unfold default, id, ns_owns_host. destruct (bool_decide (filter (λ r, r_host r = h) new = [])) eqn:E; cbn [negb orb].
  - apply bool_decide_eq_true in E. assert (∀ r slot, r ∈ new → ¬ (r_host r = h ∧ r_slot r = slot)) as Hno.
    { intros r slot Hr [Ehost _]. assert (r ∈ filter (λ r, r_host r = h) new) as Hin by (by apply list_elem_of_filter).
      rewrite E in Hin. by apply not_elem_of_nil in Hin. }
    assert (∀ slot, foldr (λ r m, delete (r_slot r) m) (patterns_at h s) (filter (λ r, routeKey r ∉ newKeys ∧ r_host r = h) old) !! slot
      = patterns_at h s' !! slot) as Hrem.
    { intros slot. rewrite foldr_delete_lookup, (promote_rest h slot) by (intros r; apply Hno). unfold removed.
      assert (Exists (λ r, r_slot r = slot) (filter (λ r, routeKey r ∉ newKeys ∧ r_host r = h) old) ↔
        Exists (λ r, r_host r = h ∧ r_slot r = slot) (filter (λ r, routeKey r ∉ newKeys) old)) as Hiff.
      { rewrite !Exists_exists. setoid_rewrite list_elem_of_filter. clear. naive_solver. }
      repeat case_decide; tauto. }
    rewrite existsb_exists. split.
    + intros ([slot raw] & Hin & Hb). apply list_elem_of_In, elem_of_map_to_list in Hin. rewrite Hrem in Hin. cbn [snd] in Hb.
      apply orb_prop in Hb as [Hb|Hb].
      * exfalso. apply jeqb_eq in Hb. subst raw. apply promote_other in Hin as [Hin _]; [|intros r; apply Hno].
        destruct (slot_holder s h slot _ Hinv Hin) as (? & ? & ? & ? & ? & ? & ? & Hd & _). vm_compute in Hd. done.
      * destruct (decodePatternProjection (JStr raw)) as [p|] eqn:Ed; [|done]. apply jeqb_eq in Hb. exists slot, p. split; [by exists raw|done].
    + intros (slot & p & (raw & Hs & Hd) & Hp). exists (slot, raw). split.
      * apply list_elem_of_In, elem_of_map_to_list. by rewrite Hrem.
      * cbn [snd]. rewrite Hd, Hp, jeqb_refl. apply orb_true_r.
  - apply bool_decide_eq_false in E. split; [|done]. intros _. destruct (filter (λ r, r_host r = h) new) as [|r rs] eqn:Ef; [done|].
    assert (r ∈ filter (λ r, r_host r = h) new) as [<- Hr]%list_elem_of_filter by (rewrite Ef; apply list_elem_of_here).
    destruct (promote_set r Hr) as (raw & Ht & Hs). destruct (slot_text_decode _ _ _ _ _ Ht) as (k & value & Hd & _).
    exists (r_slot r). eexists. split; [by exists raw|done].
Qed.

Lemma promote_index ns' h : h ∈ index_at ns' s' ↔
  if decide (ns' = ns ∧ h ∈ affected) then ∃ slot p, holds s' h slot p ∧ pp_ns p = ns else h ∈ index_at ns' s.
Proof.
  rewrite (staged_index s ns w v removed new slots) by done.
  set (owns := ns_owns_host ns h old new newKeys (default ∅ (assoc h (po_hostState o)))).
  destruct (decide (ns' = ns)) as [->|Hne]; [|by rewrite decide_False by tauto].
  assert (h ∈ deltas.1 ↔ owns = true ∧ h ∈ affected) as -> by (unfold deltas, computeNsHostDeltas; cbn [fst snd]; by rewrite list_elem_of_filter).
  assert (h ∈ deltas.2 ↔ owns = false ∧ h ∈ affected) as -> by (unfold deltas, computeNsHostDeltas; cbn [fst snd]; by rewrite list_elem_of_filter).
  destruct (decide (h ∈ affected)) as [Hh|Hh].
  - rewrite decide_True by done. rewrite <- (promote_owns h Hh). fold owns. destruct owns; naive_solver.
  - rewrite decide_False by tauto. tauto.
Qed.

Lemma promote_inv : routing_inv s' ∧ bundles_kept s s'.
Proof.
  assert (∀ k, is_bundle k = true → same_at k s s') as Hb by (intros k Hk; by eapply staged_bundle).
  assert (bundles_kept s s') as Hk by (intros k Hk _; by apply Hb). split; [|done].
  destruct (old_routes_hold s ns w cur new o Hinv Hcur Hseen) as [Hback _].
  apply (flip_inv s s' ns w v new affected); try done.
  - by eapply bundle_routes_kept.
  - intros k rs Hkb. destruct (Hb k Hkb) as (_ & <- & _). by apply (ri_bundles _ Hinv).
  - intros ns'. by eapply staged_active.
  - intros ns'. by eapply staged_declared.
  - apply promote_set.
  - apply promote_other.
  - apply (ps_free _ _ _ _ _ _ Hseen).
  - apply (ps_declared _ _ _ _ _ _ Hseen).
  - apply promote_index.
  - intros r Hr. rewrite (ps_hosts _ _ _ _ _ _ Hseen). apply elem_of_unique, elem_of_app. right. apply list_elem_of_fmap. by exists r.
  - intros h slot p Hh E1 E2. destruct (Hback h slot p Hh E1 E2) as (r & Hr & <- & _). rewrite (ps_hosts _ _ _ _ _ _ Hseen).
    apply elem_of_unique, elem_of_app. left. apply list_elem_of_fmap. by exists r.
Qed.
End promote.

(** ** The requests *)

#[local] Abbreviation is_bundle_key := (λ k, is_bundle k = true).
#[local] Abbreviation keeps := (keeps_invariant control_inv bundles_settled is_bundle_key).

Section requests.
Variable cronId : jstr → jstr → jstr.
Variable nextFireMs : jstr → jstr → Z → option Z.

Lemma plan_spec (past : store → Prop) s W now ns w cur v inputs o (Q : PromoteStagePlan → list jstr → Prop) :
  (∀ plan W', ps_newRouteKeys plan = computeRouteKeySet (pi_newRoutes inputs) →
     (ps_nsHostsAdd plan, ps_nsHostsRem plan) = computeNsHostDeltas ns (po_affectedHosts o) (po_oldRoutes o) (pi_newRoutes inputs)
       (computeRouteKeySet (pi_newRoutes inputs)) (λ h, default ∅ (assoc h (po_hostState o))) → Q plan W') →
  rd_spec past s W (buildPromoteStagePlan cronId nextFireMs now ns w cur v inputs o) Q.
Proof.
  intros HQ. unfold buildPromoteStagePlan. cbv zeta. rd_step rd_spec_skip. intros hash W1 _. rd_step rd_spec_skip. intros seq W2 _.
  rd_step rd_spec_lift. intros cronPlan _. rd_step rd_spec_lift. intros policy _. apply rd_spec_ret, HQ; [done|].
  cbn [ps_nsHostsAdd ps_nsHostsRem]. by destruct (computeNsHostDeltas _ _ _ _ _ _).
Qed.

(** At its commit a promotion has seen the routes of the version it activates and of the
    version it replaces, and what it writes is a version flip. *)
Definition promote_writes (s : store) (ns w v : jstr) (ws : list write) : Prop :=
  ∃ new o slots P1 P2, bundle_routes ns w v s = Some new ∧ promote_seen s ns w (active_at ns s !! w) new o ∧
    stage_slots ns w v new = Ok slots ∧ plain_writes P1 ∧ plain_writes P2 ∧
    let keys := computeRouteKeySet new in
    let deltas := computeNsHostDeltas ns (po_affectedHosts o) (po_oldRoutes o) new keys (λ h, default ∅ (assoc h (po_hostState o))) in
    ws = flip_writes ns w v (filter (λ r, routeKey r ∉ keys) (po_oldRoutes o)) slots deltas.1 deltas.2 P1 P2.

(** The writes of an attempt that commits. *)
Definition commits_with {A} (Q : list write → Prop) (pl : plan A) : Prop :=
  match pl with Commit ws _ => Q ws | NoWrites _ => True end.

Lemma promote_spec (past : store → Prop) s ns w v now ws a W : names_ok ns w → routing_inv s → (∀ s0, past s0 → settled s0 s) →
  reads_at past s [] (promoteWithRoutes cronId nextFireMs ns w v now) (Ok (Commit ws a)) W →
  promote_writes s ns w v ws.
Proof.
  intros Hn Hi Hp. apply (rd_spec_elim _ _ _ _ (λ pl _, commits_with (promote_writes s ns w v) pl)).
  unfold promoteWithRoutes. rd_step rd_spec_lift. intros key Hkey. cbv zeta. rd_step snapshot_spec; [set_solver| |].
  { intros k Hk. rewrite Hkey in Hk. apply Ok_inj in Hk as <-. set_solver. }
  intros cur inputs W1 HW1 Hcur Hnew. rd_step promote_state_spec; [done..|apply HW1; set_solver|]. intros o W2 _ Hseen.
  rd_step plan_spec. intros plan W3 Hkeys Hdeltas. rd_step rd_spec_lift. intros ws' Hws. apply rd_spec_ret.
  apply stagePromote_shape in Hws as (slots & P1 & P2 & Hs & HP1 & HP2 & ->); [|done].
  exists (pi_newRoutes inputs), o, slots, P1, P2. rewrite Hcur. split_and!; try done. cbv zeta. by rewrite Hkeys, <- Hdeltas.
Qed.

Lemma promote_keeps ns w v : names_ok ns w → keeps ∅ (promoteWithRoutes cronId nextFireMs ns w v).
Proof.
  intros Hn. split; [by intros k ?%elem_of_empty|]. intros now e s ws a W Hi Hd _ Hr. pose proof Hi as [Hri _].
  apply promote_spec in Hr as (new & o & slots & P1 & P2 & Hnew & Hseen & Hs & HP1 & HP2 & ->); [|done..|by apply before_settled].
  apply plain_loose in HP1, HP2. destruct (promote_inv s ns w v _ new o slots P1 P2 Hri Hn eq_refl Hnew Hseen Hs HP1 HP2) as [H1 H2].
  apply kept_settled; [done..|]. intros k Hk _. by eapply staged_bundle.
Qed.

End requests.

(** ** A bump keeps the invariant *)

(** The results of an attempt, whatever it reads. *)
Fixpoint reads_post {A} (p : reads A) (Q : A → Prop) : Prop :=
  match p with
  | RRet (Ok a) => Q a
  | RRet (Err _) => True
  | RWatch _ p => reads_post p Q
  | RRead q k => ∀ b, reads_post (k b) Q
  end.

Lemma reads_post_spec {A} (past : store → Prop) s (p : reads A) (Q : A → Prop) : reads_post p Q → ∀ W, rd_spec past s W p (λ a _, Q a).
Proof.
  intros Hp W. apply rd_spec_intro. revert W. induction p as [[a|e]|ks p IH|B q k IH]; cbn in *; intros W a' W' H.
  - destruct H as [[= ->] _]. done.
  - by destruct H.
  - by eapply IH.
  - destruct H as (s0 & _ & _ & H). by eapply IH.
Qed.

(** The caller's hook stages nothing on the tables. *)
Definition hook_plain (hook : jstr → jstr → list (jstr * jsval) → reads (list write)) : Prop :=
  ∀ cur v meta, reads_post (hook cur v meta) plain_writes.

(** The rest of the commit registers the new version with the targets of the copied bundle. *)
Definition bump_links (s : store) (ns w v src : jstr) (P : list write) : Prop :=
  ∃ raw meta Pa out Pb, hash_at src s !! js "__meta__" = Some raw ∧ routingBundleMeta (JStr raw) = Ok meta ∧
    stageOutgoingReferrerAdds ns w v (extractOutgoingRefs (obj_get (js "bindings") meta) ns) = Ok out ∧
    plain_writes Pa ∧ plain_writes Pb ∧ P = Pa ++ out ++ Pb.

Lemma bump_links_loose s ns w v src P : bump_links s ns w v src P → loose_writes P.
Proof.
  intros (raw & meta & Pa & out & Pb & _ & _ & Ho%outgoing_adds_referrers & HPa & HPb & ->). rewrite !loose_writes_app.
  split_and!; [by apply plain_loose|by apply referrer_loose|by apply plain_loose].
Qed.

Definition bump_writes (s : store) (ns w v : jstr) (ws : list write) : Prop :=
  ∃ cur src dst routes before slots P, active_at ns s !! w = Some cur ∧ bundle_key ns w cur = Ok src ∧
    bundle_key ns w v = Ok dst ∧ bundle_routes ns w cur s = Some routes ∧ stage_slots ns w v routes = Ok slots ∧
    plain_writes before ∧ bump_links s ns w v src P ∧
    ws = before ++ [WCopy src dst] ++ flip_writes ns w v [] slots [] [] P [].

Lemma bump_staged_shape ns w v src dst routes workersDev hosts policy outgoingRefs d1Refs crons newVNum queue ws before : names_ok ns w →
  plain_writes before → (∀ cs, crons = Ok cs → plain_writes cs) →
  (let! flip := stageVersionFlip ns w v routes workersDev hosts in
   let! policyWrites := stageSessionPolicy ns w v policy in
   let! outgoing := stageOutgoingReferrerAdds ns w v outgoingRefs in
   let! d1 := stageD1ReferrerAdds ns w v d1Refs in
   let! cs := crons in
   Ok (before ++ [WCopy src dst] ++ flip ++ policyWrites ++ [WSAdd NAMESPACES_KEY ns]
       ++ stageWorkerVersionIndexUpsert ns w v newVNum ++ outgoing ++ d1 ++ cs
       ++ flat_map (stageQueueConsumerProjection ns w v) queue)) = Ok ws →
  ∃ slots Pa out Pb, stage_slots ns w v routes = Ok slots ∧ stageOutgoingReferrerAdds ns w v outgoingRefs = Ok out ∧
    plain_writes Pa ∧ plain_writes Pb ∧ let P := Pa ++ out ++ Pb in
    ws = before ++ [WCopy src dst] ++ flip_writes ns w v [] slots [] [] P [].
Proof.
  intros Hn Hb Hc H. apply rbind_Ok_inv in H as (flip & (slots & P & Hs & HP & ->)%stageVersionFlip_shape & H).
  apply rbind_Ok_inv in H as (pw & Hp & H). apply rbind_Ok_inv in H as (out & Ho & H). apply rbind_Ok_inv in H as (d1 & Hd & H).
  apply rbind_Ok_inv in H as (cs & Hcs & H). apply Ok_inj in H as <-.
  exists slots, (P ++ pw ++ [WSAdd NAMESPACES_KEY ns] ++ stageWorkerVersionIndexUpsert ns w v newVNum), out,
    (d1 ++ cs ++ flat_map (stageQueueConsumerProjection ns w v) queue).
  rewrite !plain_writes_app. split_and!; eauto with plain.
  - solve_plain.
  - apply plain_flat_map. auto with plain.
  - cbv zeta. unfold flip_writes. cbn [slot_removals map app]. by rewrite <- !app_assoc, app_nil_r.
Qed.

Lemma bump_spec (past : store → Prop) hook s ns w v now ws a W : names_ok ns w → hook_plain hook →
  reads_at past s [] (bumpActiveAndPromote hook ns w v now) (Ok (Commit ws a)) W →
  bump_writes s ns w v ws.
Proof.
  intros Hn Hh. apply (rd_spec_elim _ _ _ _ (λ pl _, commits_with (bump_writes s ns w v) pl)).
  unfold bumpActiveAndPromote. rd_step rd_spec_watch. rd_step rd_spec_skip. intros lock W1 HW1.
  rd_step rd_spec_skip. intros seq W2 HW2. rd_step rd_spec_skip. intros proj W3 HW3.
  rd_step rd_spec_ask_watched; [apply HW3, HW2, HW1; cbn [query_key]; set_solver|]. cbn [answer].
  change (hash_at (routesKey ns) s) with (active_at ns s).
  destruct (truthy_text lock); [apply rd_spec_throw|].
  destruct (active_at ns s !! w) as [[|c cur]|] eqn:Ecur; try apply rd_spec_throw. set (curV := c :: cur) in *.
  rd_step rd_spec_lift. intros src Hsrc. rd_step rd_spec_lift. intros dst Hdst. rd_step rd_spec_watch.
  rd_step rd_spec_ask_watched; [cbn [query_key]; set_solver|]. cbn [answer].
  destruct (hash_at src s !! js "__meta__") as [raw|] eqn:Eraw.
  2: { rd_step rd_spec_skip. intros _ W4 _. apply rd_spec_throw. }
  rd_step rd_spec_lift. intros meta Hm. rd_step rd_spec_lift. intros routes Hr. rd_step rd_spec_lift. intros wd _.
  rd_step rd_spec_lift. intros _ _. rd_step rd_spec_lift. intros policy _. rd_step rd_spec_lift. intros qs _. cbv zeta.
  rd_step rd_spec_skip. intros _ W4 _. rd_step rd_spec_skip. intros _ W5 _. rd_step rd_spec_skip. intros _ W6 _.
  rd_step rd_spec_skip. intros states W7 _. rd_step rd_spec_lift. intros _ _. rd_step rd_spec_skip. intros _ W8 _.
  rd_step rd_spec_skip. intros hash W9 _. rd_step rd_spec_skip. intros value W10 _. rd_step rd_spec_lift. intros cronSeq _.
  rd_step rd_spec_skip. intros _ W11 _. destruct (parseVersion (JStr v)) as [n|]; [|apply rd_spec_throw].
  apply rd_spec_bind. cbv beta. eapply rd_spec_mono; [apply reads_post_spec, Hh|]. cbv beta. intros before W12 Hb.
  rd_step rd_spec_lift. intros ws' Hws. apply rd_spec_ret. apply bump_staged_shape in Hws as (slots & Pa & out & Pb & Hs & Hout & HPa & HPb & ->); [|done..|].
  - exists curV, src, dst, routes, before, slots, (Pa ++ out ++ Pb). split_and!; try done; [|by exists raw, meta, Pa, out, Pb]. unfold bundle_routes. rewrite Hsrc. unfold routes_in.
    rewrite Eraw. cbn [mbind option_bind]. by rewrite Hm; cbn [rbind]; rewrite Hr.
  - intros cs Hcs. destruct cronSeq as [[sq [|]]|]; [| |by apply Ok_inj in Hcs as <-; apply plain_nil];
      apply rbind_Ok_inv in Hcs as (m & Hcm & Hcs); apply Ok_inj in Hcs as <-; apply plain_writes_app; eauto with plain.
Qed.

Section bump.
Context (s : store) (ns w v cur src dst : jstr) (routes : list RoutePattern) (before slots P : list write).
Hypothesis Hinv : routing_inv s.
Hypothesis Hnames : names_ok ns w.
Hypothesis Hcur : active_at ns s !! w = Some cur.
Hypothesis Hsrc : bundle_key ns w cur = Ok src.
Hypothesis Hdst : bundle_key ns w v = Ok dst.
Hypothesis Hblank : blank dst s.
Hypothesis Hroutes : bundle_routes ns w cur s = Some routes.
Hypothesis Hslots : stage_slots ns w v routes = Ok slots.
Hypothesis Hbefore : plain_writes before.
Hypothesis Hplain : loose_writes P.

Let s1 := apply_writes (before ++ [WCopy src dst]) s.
Let s' := apply_writes (flip_writes ns w v [] slots [] [] P []) s1.

Lemma bump_tables k : table_key k = true → k ≠ dst → same_at k s s1.
Proof.
  intros Hk Hne. unfold s1. rewrite apply_writes_app. etrans; [by apply (loose_writes_same before); [apply plain_loose|]|].
  apply apply_writes_other. unfold targets. cbn. set_solver.
Qed.

Lemma bump_src_bundle : is_bundle src = true ∧ is_bundle dst = true ∧ src ≠ dst ∧ ¬ blank src s.
Proof.
  split_and!; [by eapply bundle_key_is_bundle..| |].
  - intros E. unfold bundle_routes in Hroutes. rewrite Hsrc, E in Hroutes. by rewrite (blank_routes dst s Hblank) in Hroutes.
  - intros Hb. unfold bundle_routes in Hroutes. rewrite Hsrc in Hroutes. by rewrite (blank_routes src s Hb) in Hroutes.
Qed.

(** The new bundle is a copy of the old one. *)
Lemma bump_copy : hash_at dst s1 = hash_at src s.
Proof.
  destruct bump_src_bundle as (H1 & H2 & H3 & H4). unfold s1. rewrite apply_writes_app.
  destruct (loose_writes_same before s src (plain_loose _ Hbefore) (table_bundle _ H1)) as (E1 & E2 & E3 & E4).
  set (s0 := apply_writes before s) in *. change (apply_writes [WCopy src dst] s0) with (apply_write (WCopy src dst) s0).
  cbn [apply_write]. rewrite bool_decide_eq_false_2.
  - unfold set_str, set_hash, set_set, set_zset, hash_at at 1. cbn. by rewrite lookup_insert_eq.
  - intros Hb. apply H4. eapply blank_same; [|exact Hb]. symmetry. by repeat split.
Qed.

Lemma bump_base : routing_inv s1 ∧ bundles_kept s s1.
Proof.
  destruct bump_src_bundle as (H1 & H2 & H3 & H4). apply (new_bundle_inv s s1 dst); try done; [apply bump_tables|].
  intros rs. rewrite bump_copy. by apply (ri_bundles _ Hinv).
Qed.

Lemma bump_routes : bundle_routes ns w v s1 = Some routes ∧ bundle_routes ns w cur s1 = Some routes.
Proof.
  split.
  - unfold bundle_routes in *. rewrite Hdst, bump_copy. by rewrite Hsrc in Hroutes.
  - eapply bundle_routes_kept; [apply bump_base|done..].
Qed.

Lemma bump_active : active_at ns s1 !! w = Some cur.
Proof.
  assert (same_at (routesKey ns) s s1) as (_ & E & _); [|unfold active_at in *; by rewrite <- E].
  apply bump_tables; [auto with tables|]. intros E. destruct bump_src_bundle as (_ & H2 & _). rewrite <- E in H2. by vm_compute in H2.
Qed.

(** The slots of the worker before the flip. *)
Lemma bump_held r : r ∈ routes → ∃ p, holds s1 (r_host r) (r_slot r) p ∧ pp_ns p = ns ∧ pp_worker p = w.
Proof.
  intros Hr. destruct (ri_active _ (proj1 bump_base) _ _ _ bump_active) as (_ & rs & Hb & Hall).
  rewrite (proj2 bump_routes) in Hb. injection Hb as <-. destruct (Hall r Hr) as (raw & Ht & Hs).
  destruct (slot_text_decode _ _ _ _ _ Ht) as (k & value & Hd & _). eexists. split; [by exists raw|done].
Qed.

Lemma bump_holder h slot p : holds s1 h slot p → pp_ns p = ns → pp_worker p = w → ∃ r, r ∈ routes ∧ r_host r = h ∧ r_slot r = slot.
Proof.
  intros (raw & Hs & Hd) E1 E2.
  destruct (slot_holder s1 h slot raw (proj1 bump_base) Hs) as (ns' & w' & v' & rs & r & k & value & Hd' & Ha & Hb & Hr & Hh & Hsl & _).
  rewrite Hd in Hd'. injection Hd' as ->. cbn in E1, E2. subst ns' w'. rewrite bump_active in Ha. injection Ha as <-.
  rewrite (proj2 bump_routes) in Hb. injection Hb as <-. by exists r.
Qed.

Lemma bump_free r slot p : r ∈ routes → holds s1 (r_host r) slot p → pp_ns p = ns ∧ (slot = r_slot r → pp_worker p = w).
Proof.
  intros Hr Hh. destruct (bump_held r Hr) as (p' & Hh' & E1 & E2). split.
  - rewrite <- E1. by eapply (ri_one_ns _ (proj1 bump_base)).
  - intros ->. destruct Hh as (raw & Hs & Hd), Hh' as (raw' & Hs' & Hd'). congruence.
Qed.

Lemma bump_patterns : NoDup (map (λ r, (r_host r, r_slot r)) routes).
Proof.
  apply routes_wf_pairs. destruct bump_src_bundle as (Hb & _). unfold bundle_routes in Hroutes. rewrite Hsrc in Hroutes.
  by eapply (ri_bundles _ Hinv src).
Qed.

Lemma bump_inv : routing_inv s' ∧ bundles_kept s s' ∧ ∀ k, is_bundle k = true → k ≠ dst → same_at k s s'.
Proof.
  destruct bump_base as [Hi1 Hk1]. pose proof (plain_loose [] plain_nil) as Hnil.
  assert (∀ k, is_bundle k = true → same_at k s1 s') as Hb by (intros k Hk; by eapply staged_bundle).
  assert (bundles_kept s1 s') as Hk' by (intros k Hk _; by apply Hb).
  assert (∀ h, patterns_at h s' = patterns_at h (apply_writes slots s1)) as Hp by (intros h; unfold s'; by erewrite staged_patterns).
  destruct (stage_slots_effect ns w v routes bump_patterns slots s1 Hslots) as [Hset Hrest].
  split_and!; [|by etrans|intros k Hk Hne; etrans; [by apply bump_tables; auto with tables|by apply Hb]].
  assert (∀ r, r ∈ routes → ∃ raw, slot_text ns w v r = Ok raw ∧ patterns_at (r_host r) s' !! r_slot r = Some raw) as Hset'.
  { intros r. rewrite Hp. apply Hset. }
  apply (flip_inv s1 s' ns w v routes (map r_host routes)); try done.
  - eapply bundle_routes_kept; [done..|apply bump_routes].
  - intros k rs Hkb. destruct (Hb k Hkb) as (_ & <- & _). by apply (ri_bundles _ Hi1).
  - intros ns'. by eapply staged_active.
  - intros ns'. by eapply staged_declared.
  - intros h slot raw Hno. rewrite Hp, Hrest by done. split; [|tauto]. intros Hs. split; [done|]. intros p Hd [E1 E2].
    destruct (bump_holder h slot p) as (r & Hr & Hh); [by exists raw|done..|]. by apply (Hno r).
  - apply bump_free.
  - intros r Hr. destruct (bump_held r Hr) as (p & Hh & <- & _). by eapply (ri_declared _ Hi1).
  - intros ns' h. unfold s'. rewrite (staged_index s1 ns w v [] routes slots) by done. fold s'.
    destruct (decide (ns' = ns)) as [->|Hne]; [|by rewrite decide_False by tauto].
    destruct (decide (h ∈ map r_host routes)) as [(r & -> & Hr)%list_elem_of_fmap|Hh].
    + rewrite decide_True by (split; [done|apply list_elem_of_fmap; by exists r]). rewrite (ri_index _ Hi1). split; intros _.
      * destruct (Hset' r Hr) as (raw & Ht & Hs). destruct (slot_text_decode _ _ _ _ _ Ht) as (k & value & Hd & _).
        exists (r_slot r). eexists. split; [by exists raw|done].
      * split; [apply not_elem_of_nil|]. right. destruct (bump_held r Hr) as (p & Hp' & E & _). eauto.
    + rewrite decide_False by tauto. pose proof (not_elem_of_nil h). tauto.
  - intros r Hr. apply list_elem_of_fmap. by exists r.
  - intros h slot p Hh E1 E2. destruct (bump_holder h slot p Hh E1 E2) as (r & Hr & <- & _). apply list_elem_of_fmap. by exists r.
Qed.
End bump.

Lemma bump_keeps hook ns w v dst : names_ok ns w → hook_plain hook → bundle_key ns w v = Ok dst →
  keeps {[dst]} (bumpActiveAndPromote hook ns w v).
Proof.
  intros Hn Hh Hd. split; [intros k ->%elem_of_singleton; by eapply bundle_key_is_bundle|]. intros now e s ws a W Hi Hdis Hb Hr. pose proof Hi as [Hri _].
  apply bump_spec in Hr as (cur & src & dst' & routes & before & slots & P & H1 & H2 & H3 & H4 & H5 & H6 & H7%bump_links_loose & ->); [|done..].
  rewrite Hd in H3. apply Ok_inj in H3 as <-.
  rewrite app_assoc, apply_writes_app.
  destruct (bump_inv s ns w v cur src dst routes before slots P) as (G1 & G2 & G3); try done; [apply Hb; set_solver|].
  apply kept_settled; [done..|]. intros k Hk Hne. apply G3; [done|]. set_solver.
Qed.
(** ** A reconciliation keeps the invariant *)

Fixpoint none_of (ns : jstr) (l : list (jstr * jstr)) : result control_error unit :=
  match l with
  | [] => Ok tt
  | (_, raw) :: l => let! parsed := requirePatternProjection raw in if jeqb (pp_ns parsed) ns then fail 409 "host_in_use" else none_of ns l
  end.

Lemma assert_host_unused_Ok ns state : assert_host_unused ns state = Ok tt →
  ∀ slot raw p, state !! slot = Some raw → decodePatternProjection (JStr raw) = Some p → pp_ns p ≠ ns.
Proof.
  intros H slot raw p Hs%elem_of_map_to_list Hd.
  assert (assert_host_unused ns state = none_of ns (map_to_list state)) as E.
  { unfold assert_host_unused. clear. induction (map_to_list state) as [|[k r] l IH]; cbn; [done|]. by rewrite IH. }
  rewrite E in H. clear E. revert H Hs. induction (map_to_list state) as [|[k r] l IH]; intros H Hs; [by apply not_elem_of_nil in Hs|].
  cbn in H. apply rbind_Ok_inv in H as (p' & Hp'%requirePatternProjection_Ok & H). destruct (jeqb (pp_ns p') ns) eqn:En; [done|].
  apply elem_of_cons in Hs as [[= -> ->]|Hs]; [|by apply IH]. rewrite Hd in Hp'. injection Hp' as ->. by apply jeqb_neq.
Qed.

(** No slot of the host belongs to the namespace. *)
Definition unused (s : store) (ns h : jstr) : Prop := ∀ slot p, holds s h slot p → pp_ns p ≠ ns.

Lemma Forall2_zip_filter (P : jstr → bool → Prop) l bs h : Forall2 P l bs → h ∈ l →
  (P h false) ∨ h ∈ map fst (filter (λ hf : jstr * bool, hf.2 = true) (zip l bs)).
Proof.
  induction 1 as [|x b l bs Hx _ IH]; intros Hin; [by apply not_elem_of_nil in Hin|].
  change (zip (x :: l) (b :: bs)) with ((x, b) :: zip l bs). rewrite filter_cons. cbn [snd].
  apply elem_of_cons in Hin as [->|Hin].
  - destruct b; [right|by left]. rewrite decide_True by done. apply list_elem_of_here.
  - destruct (IH Hin) as [?|Hi]; [by left|right]. case_decide; [by apply list_elem_of_further|done].
Qed.

Lemma removals_spec (past : store → Prop) (s : store) (W : list jstr) (ns : jstr) (batch : list jstr) (Q : list (jstr * gset jstr) → list jstr → Prop) :
  (∀ s0, past s0 → routing_inv s0) → (∀ h, h ∈ batch → patternsKey h ∈ W) →
  (∀ rem W', map fst rem = batch → (∀ h, h ∈ batch → unused s ns h) → Q rem W') → rd_spec past s W (read_removals ns batch) Q.
Proof.
  intros Hpast HW HQ. unfold read_removals. apply rd_spec_bind. cbv beta.
  apply (rd_spec_map _ _ _ (λ h b, b = false → unused s ns h)).
  { intros h W1 Hh HW1. apply rd_spec_ask. intros s0 Hi0%Hpast Hs. cbn [answer]. intros Hb%bool_decide_eq_false slot p Hp E.
    apply Hb, (ri_index _ Hi0). exists slot, p. split; [|done]. apply (same_holds s0 s); [|done]. by apply Hs, HW1, HW. }
  intros flags W1 HW1 Hflags. cbv zeta. set (matched := map fst _). rd_step rd_spec_map_watched.
  { intros h Hh. apply HW1, HW. unfold matched in Hh. apply list_elem_of_fmap in Hh as ([h' b] & -> & [_ Hz]%list_elem_of_filter).
    clear -Hz Hflags. induction Hflags as [|x c l bs _ _ IH]; [by apply not_elem_of_nil in Hz|].
    cbn in Hz. apply elem_of_cons in Hz as [[= -> _]|Hz]; [apply list_elem_of_here|apply list_elem_of_further; auto]. }
  cbn [answer]. rd_step rd_spec_iter_lift. intros Hun. apply rd_spec_bind. cbv beta.
  apply (rd_spec_map _ _ _ (λ _ _, True)); [intros h W2 _ _; by apply rd_spec_skip|]. intros decls W2 _ Hd%Forall2_length.
  apply rd_spec_ret, HQ.
  - unfold zip. rewrite <- (map_id batch) at 2. clear -Hd. revert decls Hd.
    induction batch as [|h l IH]; intros [|d decls] Hd; try done. cbn. f_equal. apply IH. by injection Hd.
  - intros h Hh. destruct (Forall2_zip_filter _ _ _ h Hflags Hh) as [Hf|Hm]; [by apply Hf|].
    intros slot p (raw & Hs & Hdec). eapply assert_host_unused_Ok; [|exact Hs|exact Hdec].
    apply Hun. apply list_elem_of_fmap. by exists h.
Qed.

Lemma concat_chunks {X} n k (l : list X) : (length l <= n)%nat → (0 < k)%nat → concat (chunks n k l) = l.
Proof.
  revert l. induction n as [|n IH]; intros l Hl Hk; [by destruct l; [|cbn in Hl; lia]|]. destruct l as [|x l]; [done|].
  cbn [chunks concat]. rewrite IH; [apply take_drop| |done]. rewrite length_drop. lia.
Qed.

Lemma Forall2_concat {X Y} (g : Y → X) (P : X → Prop) (ls : list (list X)) (rs : list (list Y)) :
  Forall2 (λ l r, map g r = l ∧ ∀ x, x ∈ l → P x) ls rs → map g (concat rs) = concat ls ∧ ∀ x, x ∈ concat ls → P x.
Proof.
  induction 1 as [|l r ls rs [H1 H2] _ [IH1 IH2]]; cbn; [split; [done|by intros x ?%elem_of_nil]|].
  rewrite map_app, H1, IH1. split; [done|]. intros x [?|?]%elem_of_app; auto.
Qed.

(** The requested hosts, and what a reconciliation commits with. *)
Definition reconcile_writes (urlHost : jstr → option jstr) (s : store) (ns : jstr) (body : jsval) (platformDomain : jstr) (ws : list write) : Prop :=
  ∃ hosts toAdd removals, requestedHosts urlHost body platformDomain = Ok hosts ∧
    (∀ h, h ∈ toAdd ↔ h ∈ hosts ∧ h ∉ declared_at ns s) ∧
    (∀ h, h ∈ map fst removals ↔ h ∈ declared_at ns s ∧ h ∉ hosts) ∧
    (∀ h, h ∈ map fst removals → unused s ns h) ∧ ws = stageDeclaredHostChanges ns toAdd removals.

Lemma reconcile_spec (past : store → Prop) urlHost s ns body platformDomain now ws a W : (∀ s0, past s0 → routing_inv s0) →
  reads_at past s [] (reconcileHosts urlHost ns body platformDomain now) (Ok (Commit ws a)) W →
  reconcile_writes urlHost s ns body platformDomain ws.
Proof.
  intros Hpast. apply (rd_spec_elim _ _ _ _ (λ pl _, commits_with (reconcile_writes urlHost s ns body platformDomain) pl)).
  unfold reconcileHosts. rd_step rd_spec_lift. intros hosts Hhosts. rd_step rd_spec_watch.
  rd_step rd_spec_ask_watched; [cbn [query_key]; set_solver|]. cbn [answer]. cbv zeta.
  set (toAdd := filter _ hosts). set (toRemove := filter _ (elements _)).
  destruct (unique (toAdd ++ toRemove)); [by apply rd_spec_ret|]. rd_step watchKeys_spec. intros W1 _ HW1.
  rd_step watchKeys_spec. intros W2 HW2 _. apply rd_spec_bind. cbv beta.
  assert (concat (chunks (length toRemove) HOST_RECONCILE_READ_BATCH_SIZE toRemove) = toRemove) as Hc
    by (apply concat_chunks; [done|unfold HOST_RECONCILE_READ_BATCH_SIZE; lia]).
  apply (rd_spec_map _ _ _ (λ batch rem, map fst rem = batch ∧ ∀ h, h ∈ batch → unused s ns h)).
  - intros batch W3 Hb HW3. apply removals_spec; [done| |by auto]. intros h Hh. apply HW3, HW2, HW1; [|done]. apply list_elem_of_fmap.
    exists h. split; [done|]. rewrite <- Hc. apply list_elem_of_In, in_concat. exists batch. by rewrite <- !list_elem_of_In.
  - intros rem W3 _ Hrem. apply Forall2_concat in Hrem as [Hf Hu]. rewrite Hc in Hf, Hu. apply rd_spec_ret.
    exists hosts, toAdd, (concat rem). rewrite Hf. split_and!; [done| | |done|done].
    + intros h. unfold toAdd. rewrite list_elem_of_filter. unfold declared_at. tauto.
    + intros h. unfold toRemove. rewrite list_elem_of_filter, elem_of_elements. unfold declared_at. tauto.
Qed.

(** The writes for one added and for one removed host. *)
Definition add_host (ns host : jstr) : list write :=
  [WSAdd (hostsKey ns) host; WSAdd (hostDeclarationsKey host) ns; WSAdd DECLARED_HOSTS_KEY host].
Definition remove_host (ns : jstr) (removal : jstr * gset jstr) : list write :=
  [WSRem (hostsKey ns) removal.1; WSRem (hostDeclarationsKey removal.1) ns]
  ++ (if decide (removal.2 ∖ {[ns]} = ∅) then [WDel (hostDeclarationsKey removal.1); WSRem DECLARED_HOSTS_KEY removal.1] else []).

Lemma declarations_plain h : kept_key (hostDeclarationsKey h) = false.
Proof. solve_head. Qed.
Lemma declared_hosts_plain : kept_key DECLARED_HOSTS_KEY = false.
Proof. solve_head. Qed.

Lemma not_host_key ns k : kept_key k = false → hostsKey ns ≠ k.
Proof. intros H%kept_table <-. by rewrite table_hosts in H. Qed.

Lemma add_host_effect ns x s : same_at (hostsKey ns) (apply_write (WSAdd (hostsKey ns) x) s) (apply_writes (add_host ns x) s).
Proof.
  unfold add_host. change (apply_writes _ s) with (apply_writes [WSAdd (hostDeclarationsKey x) ns; WSAdd DECLARED_HOSTS_KEY x]
    (apply_write (WSAdd (hostsKey ns) x) s)). apply apply_writes_other. unfold targets. cbn [omap list_omap target].
  rewrite !not_elem_of_cons. split_and!; [apply not_host_key, declarations_plain|apply not_host_key, declared_hosts_plain|apply not_elem_of_nil].
Qed.

Lemma remove_host_effect ns r s : same_at (hostsKey ns) (apply_write (WSRem (hostsKey ns) r.1) s) (apply_writes (remove_host ns r) s).
Proof.
  unfold remove_host. set (rest := if decide _ then _ else _).
  change (apply_writes _ s) with (apply_writes (WSRem (hostDeclarationsKey r.1) ns :: rest) (apply_write (WSRem (hostsKey ns) r.1) s)).
  apply apply_writes_other. unfold targets. cbn [omap list_omap target]. rewrite not_elem_of_cons. split; [apply not_host_key, declarations_plain|].
  unfold rest. case_decide; cbn; rewrite ?not_elem_of_cons; split_and?; try apply not_elem_of_nil.
  - apply not_host_key, declarations_plain.
  - apply not_host_key, declared_hosts_plain.
Qed.

Lemma adds_effect ns l : ∀ s h, h ∈ declared_at ns (apply_writes (flat_map (add_host ns) l) s) ↔ h ∈ l ∨ h ∈ declared_at ns s.
Proof.
  induction l as [|x l IH]; intros s h; cbn [flat_map]; [set_solver|]. rewrite apply_writes_app, IH. unfold declared_at.
  destruct (add_host_effect ns x s) as (_ & _ & <- & _). cbn [apply_write]. rewrite set_set_set, decide_True by done. set_solver.
Qed.

Lemma removes_effect ns l : ∀ s h, h ∈ declared_at ns (apply_writes (flat_map (remove_host ns) l) s) ↔ h ∉ map fst l ∧ h ∈ declared_at ns s.
Proof.
  induction l as [|x l IH]; intros s h; cbn [flat_map map]; [set_solver|]. rewrite apply_writes_app, IH. unfold declared_at.
  destruct (remove_host_effect ns x s) as (_ & _ & <- & _). cbn [apply_write]. rewrite set_set_set, decide_True by done. set_solver.
Qed.

Definition hosts_or_plain (ns : jstr) (ws : list write) : Prop := Forall (λ k, k = hostsKey ns ∨ kept_key k = false) (targets ws).

Lemma hosts_or_plain_app ns ws ws' : hosts_or_plain ns (ws ++ ws') ↔ hosts_or_plain ns ws ∧ hosts_or_plain ns ws'.
Proof. unfold hosts_or_plain, targets. by rewrite omap_app, Forall_app. Qed.

Lemma hosts_or_plain_flat {X} ns (f : X → list write) l : (∀ x, hosts_or_plain ns (f x)) → hosts_or_plain ns (flat_map f l).
Proof. intros H. induction l as [|x l IH]; cbn [flat_map]; [constructor|]. by apply hosts_or_plain_app. Qed.

Lemma stageDeclaredHostChanges_eq ns toAdd removals : ∃ P, plain_writes P ∧
  stageDeclaredHostChanges ns toAdd removals = flat_map (add_host ns) toAdd ++ flat_map (remove_host ns) removals ++ P.
Proof.
  unfold stageDeclaredHostChanges. cbv zeta. eexists. split; [|f_equal; f_equal].
  - apply plain_writes_app. split; [apply plain_publish|]. destruct (unique _); [apply plain_nil|]. solve_plain.
  - apply flat_map_ext. by intros [h d].
Qed.

Lemma reconcile_tables ns toAdd removals k s : kept_key k = true → k ≠ hostsKey ns →
  same_at k s (apply_writes (stageDeclaredHostChanges ns toAdd removals) s).
Proof.
  intros Hk Hne. destruct (stageDeclaredHostChanges_eq ns toAdd removals) as (P & HP & ->). apply apply_writes_other. intros Hin.
  assert (hosts_or_plain ns (flat_map (add_host ns) toAdd ++ flat_map (remove_host ns) removals ++ P)) as Hall.
  { rewrite !hosts_or_plain_app. split_and!.
    - apply hosts_or_plain_flat. intros x. unfold hosts_or_plain, add_host, targets. cbn [omap list_omap target].
      repeat constructor; right; auto using declarations_plain, declared_hosts_plain.
    - apply hosts_or_plain_flat. intros [x d]. unfold hosts_or_plain, remove_host, targets. cbn [fst snd app omap list_omap target].
      constructor; [by left|]. constructor; [right; apply declarations_plain|]. case_decide; cbn; repeat constructor; right;
        auto using declarations_plain, declared_hosts_plain.
    - eapply Forall_impl; [exact HP|]. by right. }
  unfold hosts_or_plain in Hall. rewrite Forall_forall in Hall. destruct (Hall k Hin); congruence.
Qed.

Lemma reconcile_declared ns toAdd removals s h :
  h ∈ declared_at ns (apply_writes (stageDeclaredHostChanges ns toAdd removals) s) ↔
  h ∉ map fst removals ∧ (h ∈ toAdd ∨ h ∈ declared_at ns s).
Proof.
  destruct (stageDeclaredHostChanges_eq ns toAdd removals) as (P & HP & ->). rewrite !apply_writes_app. unfold declared_at.
  destruct (loose_writes_same P (apply_writes (flat_map (remove_host ns) removals) (apply_writes (flat_map (add_host ns) toAdd) s))
    (hostsKey ns) (plain_loose _ HP) (table_hosts ns)) as (_ & _ & <- & _).
  fold (declared_at ns (apply_writes (flat_map (remove_host ns) removals) (apply_writes (flat_map (add_host ns) toAdd) s))).
  by rewrite removes_effect, adds_effect.
Qed.

Lemma reconcile_inv s ns toAdd removals : routing_inv s → (∀ h, h ∈ map fst removals → unused s ns h) →
  routing_inv (apply_writes (stageDeclaredHostChanges ns toAdd removals) s).
Proof.
  intros Hi Hu. set (s' := apply_writes _ s).
  assert (∀ k, table_key k = true → k ≠ hostsKey ns → same_at k s s') as Hs by (intros k Hk; apply reconcile_tables; auto with tables).
  assert (∀ k, key_head k ≠ js "hosts" → table_key k = true → same_at k s s') as Hh.
  { intros k Hk Ht. apply Hs; [done|]. by intros ->. }
  assert (∀ h, patterns_at h s = patterns_at h s') as Hp by (intros h; apply Hh; [by vm_compute|auto with tables]).
  assert (∀ n, active_at n s = active_at n s') as Ha by (intros n; apply Hh; [by vm_compute|auto with tables]).
  assert (∀ n, index_at n s = index_at n s') as Hx by (intros n; apply Hh; [by vm_compute|auto with tables]).
  assert (∀ k, is_bundle k = true → same_at k s s') as Hb.
  { intros k Hk. apply Hh; [by rewrite (bundle_head k Hk)|auto with tables]. }
  assert (∀ n w v, bundle_routes n w v s' = bundle_routes n w v s ∨ ¬ names_ok n w) as Hr.
  { intros n w v. destruct (decide (names_ok n w)) as [Hc|Hc]; [left|by right]. unfold bundle_routes.
    destruct (bundle_key n w v) as [k|] eqn:E; [|done]. assert (is_bundle k = true) as Hk.
    { by eapply bundle_key_is_bundle. }
    by destruct (Hb k Hk) as (_ & -> & _). }
  assert (∀ h slot p, holds s' h slot p ↔ holds s h slot p) as Hho by (intros h slot p; unfold holds; by rewrite Hp).
  split.
  - intros h slot raw. rewrite <- Hp. intros (n & w & v & rs & r & H1 & H2 & H3)%(ri_slot _ Hi). exists n, w, v, rs, r.
    rewrite <- Ha. destruct (ri_active _ Hi _ _ _ H1) as [Hn _]. destruct (Hr n w v) as [->|?]; [naive_solver|done].
  - intros n w v. rewrite <- Ha. intros H. destruct (ri_active _ Hi _ _ _ H) as (Hn & rs & H2 & H3). split; [done|]. exists rs.
    destruct (Hr n w v) as [->|?]; [|done]. split; [done|]. intros r Hin. rewrite <- Hp. by apply H3.
  - intros h slot slot' p p' H1%Hho H2%Hho. by eapply (ri_one_ns _ Hi).
  - intros n h. rewrite <- Hx, (ri_index _ Hi). by setoid_rewrite Hho.
  - intros h slot p H%Hho. pose proof (ri_declared _ Hi _ _ _ H) as Hd. destruct (decide (pp_ns p = ns)) as [E|Hne].
    + rewrite E in *. apply reconcile_declared. split; [|by right]. intros Hrem. by apply (Hu h Hrem slot p H).
    + unfold declared_at. destruct (Hs (hostsKey (pp_ns p))) as (_ & _ & <- & _); [auto with tables| |done]. by intros ?%app_inv_head.
  - intros k rs Hk. destruct (Hb k Hk) as (_ & <- & _). by apply (ri_bundles _ Hi).
Qed.

Lemma reconcile_keeps urlHost ns body platformDomain : keeps ∅ (reconcileHosts urlHost ns body platformDomain).
Proof.
  split; [by intros k ?%elem_of_empty|]. intros now e s ws a W Hi Hd _ Hr. pose proof Hi as [Hri _].
  apply reconcile_spec in Hr as (hosts & toAdd & removals & _ & _ & _ & Hu & ->); [|by intros s0 (e0 & [? _] & _)].
  assert (∀ k, is_bundle k = true → same_at k s (apply_writes (stageDeclaredHostChanges ns toAdd removals) s)) as Hb.
  { intros k Hk. apply reconcile_tables; [auto with tables|]. intros ->. by vm_compute in Hk. }
  apply kept_settled; [done..|by apply reconcile_inv|]. intros k Hk _. by apply Hb.
Qed.
