(* ===== verification/Delete.v ===== *)
(** * Deleting workers and versions

    Models src/control/handlers/delete.js, src/control/handlers/delete-plan.js and the
    transaction of src/control/handlers/versions.js: the collection of what a worker owns, the
    checks under WATCH, the staged deletion, the clean-up of what an absent worker left
    behind, and the deletion of one version.

    Redis SCAN may answer with any pages, so the pages each scan of an attempt gets are
    parameters; MATCH keeps the keys with the prefix of the pattern. The check with the
    workflows service and the fresh id of the clean-up task are parameters too. A renewal of
    the delete lock finds the token or not and does not change it; expiry has no part in the
    store. Error details, log lines, alarm clean-up and the HTTP answers are left out. *)

From stdpp Require Import base list strings gmap.
From Stdlib Require Import ZArith Lia.
From S2P Require Import Prelude NsPattern WorkerContract Utf8 Json JsNumber OwnerLease Gateway SessionPolicy Txn Control Topology Routing.

#[local] Open Scope Z_scope.
#[local] Open Scope wdl_scope.
#[local] Open Scope txn_scope.

Definition MAX_DELETE_ATTEMPTS : nat := 5.
Definition DELETE_READ_BATCH_SIZE : nat := 16.
Definition VERSION_DELETE_SIBLING_READ_BATCH_SIZE : nat := 32.
Definition ROUTES_FLUSH_CHANNEL : jstr := js "routes:flush".
Definition WORKER_DELETE_CHANNEL : jstr := js "worker:delete".
Definition DO_OWNER_SCOPE_PREFIX : jstr := js "do:owner:scope:".

Definition workerSecretsKey (ns worker : jstr) : jstr := js "secrets:" ++ ns ++ js ":" ++ worker.
Definition workflowDefsKey (ns worker : jstr) : jstr := js "wf:defs:" ++ ns ++ js ":" ++ worker.
Definition doObjectRegistryKey (storageId : jstr) : jstr := js "do:objects:" ++ encodeURIComponent storageId.
Definition queueConsumerScanPrefix (ns : jstr) : jstr := js "queue-consumer:" ++ ns ++ js ":".

(** The pattern without its final star. *)
Definition doOwnerScopeScanPatternForStorage (storageId : jstr) : jstr :=
  DO_OWNER_SCOPE_PREFIX ++ encodeURIComponent (storageId ++ js ":").

(** [DriftSignal]: like a [WatchError], the caller starts again. *)
Definition drift {A} : reads A := rd_throw WatchFailed.

(** ** What is collected *)

Record RouteSlot := MkSlot { rs_host : jstr; rs_slot : jstr }.

Definition isRouteSlot (route : jsval) : option RouteSlot :=
  match member "host" route, member "slot" route with
  | JStr host, JStr slot => Some (MkSlot host slot)
  | _, _ => None
  end.

Definition normalizeActiveRoutes (meta : list (jstr * jsval)) : result control_error (list RouteSlot) :=
  match obj_get (js "routes") meta with
  | JUndef | JNull => Ok []
  | JArr l => match mapM isRouteSlot l with Some routes => Ok routes | None => fail 500 "corrupt_meta" end
  | _ => fail 500 "corrupt_meta"
  end.

Definition bundleAssetPrefix (meta : list (jstr * jsval)) : option jstr :=
  match member "prefix" (obj_get (js "assets") meta) with JStr prefix => Some prefix | _ => None end.

(** A host stays in the reverse index while another slot of it belongs to the namespace. The
    order of a listing decides only whether a corrupt slot is met before the search ends. *)
Definition sibling_owns_host (ns : jstr) (ourSlots : list jstr) : list (jstr * jstr) → result control_error bool :=
  fix go l := match l with
  | [] => Ok false
  | (slot, raw) :: l =>
      if decide (slot ∈ ourSlots) then go l
      else
        let! projection := requirePatternProjection raw in
        if jeqb (pp_ns projection) ns then Ok true else go l
  end.

Fixpoint findHostsLosingNsOwnership (ns : jstr) (activeRoutes : list RouteSlot) (hosts : list (jstr * gmap jstr jstr))
    : result control_error (list jstr) :=
  match hosts with
  | [] => Ok []
  | (host, patterns) :: hosts =>
      let ourSlots := map rs_slot (filter (λ r, rs_host r = host) activeRoutes) in
      let! siblingOwnsHost := sibling_owns_host ns ourSlots (map_to_list patterns) in
      let! losing := findHostsLosingNsOwnership ns activeRoutes hosts in
      Ok (if (siblingOwnsHost : bool) then losing else host :: losing)
  end.

(** A retained version: its metadata and who refers to it. *)
Record RetainedVersion := MkRetained { rv_version : jstr; rv_meta : list (jstr * jsval); rv_referrers : gset jstr }.

Definition rv_d1Refs (r : RetainedVersion) : list D1Ref := extractD1Refs (obj_get (js "bindings") (rv_meta r)).
Definition rv_outgoingRefs (ns : jstr) (r : RetainedVersion) : list OutgoingRef :=
  extractOutgoingRefs (obj_get (js "bindings") (rv_meta r)) ns.

Record DeleteInputs := MkDeleteInputs {
  di_queueConsumerKeys : list jstr; di_doStorageId : option jstr; di_doObjectCount : Z; di_doOwnerKeys : list jstr;
  di_retainedVersions : list jstr; di_retained : list RetainedVersion;
  di_activeVersion : option jstr; di_activeRoutes : list RouteSlot; di_affectedHosts : list jstr;
  di_hostsLosingNsOwnership : list jstr; di_namespaceStillActive : bool;
  di_hasWorkerSecrets : bool; di_hasWorkflowDefs : bool }.

(** [value || null] *)
Definition non_empty (v : option jstr) : option jstr := if truthy_text v then v else None.

Definition di_doObjectRegistry (d : DeleteInputs) : option jstr := doObjectRegistryKey <$> non_empty (di_doStorageId d).

(** The pages of the scans of an attempt, in the collection and again under WATCH. *)
Record ScanPages := MkPages {
  pg_owners : list (list jstr); pg_queues : list (list jstr);
  pg_ownersAgain : list (list jstr); pg_queuesAgain : list (list jstr) }.

Definition match_prefix (prefix : jstr) (found : list jstr) : list jstr := filter (λ k, starts_with prefix k = true) found.

Definition scanDoOwnerKeys (pages : list (list jstr)) (doStorageId : option jstr) : list jstr :=
  match non_empty doStorageId with
  | None => []
  | Some id => unique (match_prefix (doOwnerScopeScanPatternForStorage id) (concat pages))
  end.

Definition scanQueueConsumerKeysForWorker (pages : list (list jstr)) (ns name : jstr) : reads (list jstr) :=
  let+ found := rd_map (λ page,
    let keys := unique (match_prefix (queueConsumerScanPrefix ns) page) in
    let+ workers := rd_map (λ key, rd_ask (QHGet key (js "worker"))) keys in
    rd_ret (map fst (filter (λ kw : jstr * option jstr, kw.2 = Some name) (zip keys workers)))) pages in
  rd_ret (unique (concat found)).

Definition delete_batches {X} (l : list X) : list (list X) := chunks (length l) DELETE_READ_BATCH_SIZE l.

(** The metadata and the referrers of a batch of versions. *)
Definition read_retained (ns name : jstr) (versions : list jstr) : reads (list (jstr * option jstr * gset jstr)) :=
  let+ metas := rd_map (λ ver, let+ key := rd_lift (bundle_key ns name ver) in rd_ask (QHGet key (js "__meta__"))) versions in
  let+ referrers := rd_map (λ ver, rd_ask (QSMembers (referrersKey ns name ver))) versions in
  rd_ret (zip (zip versions metas) referrers).

Definition parse_retained (ns name : jstr) (read : jstr * option jstr * gset jstr) : reads RetainedVersion :=
  let '(ver, rawMeta, referrers) := read in
  let+ _ := match rawMeta with
            | Some _ => rd_ret tt
            | None =>
                let+ currentVersions := rd_ask (QZRange (workerVersionsKey ns name)) in
                if decide (ver ∈ currentVersions) then rd_ret tt else drift
            end in
  let+ meta := rd_lift (parseBundleMeta (opt_string rawMeta)) in
  rd_ret (MkRetained ver meta referrers).

(** The metadata of the active version: collected with the retained ones, or read now. *)
Definition active_meta (ns name activeVersion : jstr) (retained : list RetainedVersion) : reads (list (jstr * jsval)) :=
  match find (λ r, jeqb (rv_version r) activeVersion) retained with
  | Some r => rd_ret (rv_meta r)
  | None =>
      let+ key := rd_lift (bundle_key ns name activeVersion) in
      let+ rawMeta := rd_ask (QHGet key (js "__meta__")) in
      let+ _ := match rawMeta with
                | Some _ => rd_ret tt
                | None =>
                    let+ currentActive := rd_ask (QHGet (routesKey ns) name) in
                    if decide (currentActive = Some activeVersion) then rd_ret tt else drift
                end in
      rd_lift (parseBundleMeta (opt_string rawMeta))
  end.

Definition others_active (name : jstr) (routesHash : gmap jstr jstr) : bool :=
  negb (bool_decide (delete name routesHash = ∅)).

Definition collectDeleteInputs (pages : ScanPages) (ns name : jstr) : reads DeleteInputs :=
  let+ doStorageId := rd_ask (QGet (doStorageIdKey ns name)) in
  let+ doObjectCount := match non_empty doStorageId with
                        | Some id => rd_ask (QSCard (doObjectRegistryKey id))
                        | None => rd_ret 0
                        end in
  let doOwnerKeys := scanDoOwnerKeys (pg_owners pages) doStorageId in
  let+ queueConsumerKeys := scanQueueConsumerKeysForWorker (pg_queues pages) ns name in
  let+ retainedVersions := rd_ask (QZRange (workerVersionsKey ns name)) in
  let+ retainedReads := rd_map (read_retained ns name) (delete_batches retainedVersions) in
  let+ retained := rd_map (parse_retained ns name) (concat retainedReads) in
  let+ routesHash := rd_ask (QHGetAll (routesKey ns)) in
  let activeVersion := non_empty (routesHash !! name) in
  let+ activeRoutes := match activeVersion with
                       | None => rd_ret []
                       | Some version =>
                           let+ meta := active_meta ns name version retained in
                           rd_lift (normalizeActiveRoutes meta)
                       end in
  let affectedHosts := unique (map rs_host activeRoutes) in
  let+ hostPatternReads := rd_map (λ h, rd_ask (QHGetAll (patternsKey h))) affectedHosts in
  let+ losing := rd_lift (findHostsLosingNsOwnership ns activeRoutes (zip affectedHosts hostPatternReads)) in
  let+ hasWorkerSecrets := rd_ask (QExists (workerSecretsKey ns name)) in
  let+ hasWorkflowDefs := rd_ask (QExists (workflowDefsKey ns name)) in
  rd_ret (MkDeleteInputs queueConsumerKeys doStorageId doObjectCount doOwnerKeys retainedVersions retained
            activeVersion activeRoutes affectedHosts losing (others_active name routesHash) hasWorkerSecrets hasWorkflowDefs).

(** ** The plan (src/control/handlers/delete-plan.js) *)

(** One clean-up task for the distinct asset prefixes of the deleted versions. *)
Definition buildWorkerDeleteCleanup (d : DeleteInputs) (taskId : jstr) : option (jstr * list jstr) :=
  match unique (omap (λ r, non_empty (bundleAssetPrefix (rv_meta r))) (di_retained d)) with
  | [] => None
  | prefixes => Some (taskId, prefixes)
  end.

Definition stage_version_removal (ns name : jstr) (r : RetainedVersion) : result control_error (list write) :=
  let ver := rv_version r in
  let! key := bundle_key ns name ver in
  let! outgoing := stageOutgoingReferrerRemovals ns name ver (rv_outgoingRefs ns r) in
  let! d1 := stageD1ReferrerRemovals ns name ver (rv_d1Refs r) in
  Ok ([WDel key] ++ stageWorkerVersionIndexRemove ns name ver ++ [WDel (referrersKey ns name ver)] ++ outgoing ++ d1).

Definition stageWorkerDelete (ns name : jstr) (d : DeleteInputs) : result control_error (list write) :=
  let! versions := stage_all (stage_version_removal ns name) (di_retained d) in
  let! event := rethrow (encodeWorkerDeleteEvent ns name) in
  Ok (map (λ r, WHDel (patternsKey (rs_host r)) (rs_slot r)) (di_activeRoutes d)
      ++ match di_activeVersion d with Some _ => [WHDel (routesKey ns) name] | None => [] end
      ++ [WSRem (platformDomainDisabledKey ns) name]
      ++ map (WSRem (nsHostsKey ns)) (di_hostsLosingNsOwnership d)
      ++ (if di_namespaceStillActive d then [] else [WSRem NAMESPACES_KEY ns])
      ++ [WDel (cronWorkerKey ns name)] ++ stageCronWorkerRemoved ns name
      ++ flat_map stageQueueConsumerKeyRemoval (di_queueConsumerKeys d)
      ++ (if di_hasWorkerSecrets d then [WDel (workerSecretsKey ns name)] else [])
      ++ [WDel (workflowDefsKey ns name); WDel (sessionPolicyKey ns name)]
      ++ map WDel (di_doOwnerKeys d)
      ++ match non_empty (di_doStorageId d) with Some _ => [WDel (doStorageIdKey ns name)] | None => [] end
      ++ versions
      ++ stageWorkerHidden ns name
      ++ (if di_namespaceStillActive d then [WPublish ROUTES_CHANNEL ns] else [WPublish ROUTES_FLUSH_CHANNEL []])
      ++ [WPublish WORKER_DELETE_CHANNEL event]
      ++ map (WPublish PATTERNS_CHANNEL) (di_affectedHosts d)).

(** ** The transaction *)

Fixpoint stage_all_keys {X} (f : X → result control_error (list jstr)) (l : list X) : result control_error (list jstr) :=
  match l with
  | [] => Ok []
  | x :: l => let! ks := f x in let! rest := stage_all_keys f l in Ok (ks ++ rest)
  end.

Definition lockKeeper (ns name lockToken : jstr) : reads unit :=
  let+ held := rd_ask (QGet (deleteLockKey ns name)) in
  if decide (held = Some lockToken) then rd_ret tt else rd_fail 409 "deleting".

(** [arraysShallowEqual] of the sorted arrays. *)
Definition same_keys (a b : list jstr) : bool := bool_decide (a ≡ₚ b).

Definition delete_watch_keys (ns name : jstr) (d : DeleteInputs) : result control_error (list jstr) :=
  let! versions := stage_all_keys (λ ver, let! key := bundle_key ns name ver in Ok [key; referrersKey ns name ver]) (di_retainedVersions d) in
  Ok ([routesKey ns; hostsKey ns; deleteLockKey ns name; sessionPolicyKey ns name; doStorageIdKey ns name;
       workerVersionsKey ns name; workerSecretsKey ns name; workflowDefsKey ns name]
      ++ option_list (di_doObjectRegistry d) ++ di_doOwnerKeys d ++ map patternsKey (di_affectedHosts d)
      ++ di_queueConsumerKeys d ++ versions).

(** The slots that are there are the worker's own. *)
Definition assert_slots_own (ns name : jstr) (patterns : list (jstr * gmap jstr jstr)) : list RouteSlot → result control_error unit :=
  fix go routes := match routes with
  | [] => Ok tt
  | r :: routes =>
      match default ∅ (assoc (rs_host r) patterns) !! rs_slot r with
      | None => go routes
      | Some held =>
          let! parsed := requirePatternProjection held in
          if jeqb (pp_ns parsed) ns && jeqb (pp_worker parsed) name then go routes else fail 409 "projection_drift"
      end
  end.

(** A consumer record that names another worker. *)
Definition consumer_drifted (name : jstr) (held : gmap jstr jstr) : bool :=
  match non_empty (held !! js "worker") with Some worker => negb (jeqb worker name) | None => false end.

Definition runSessionEXEC (pages : ScanPages) (ns name lockToken taskId : jstr) (collected : DeleteInputs) : txn control_result :=
  let+ keys := rd_lift (delete_watch_keys ns name collected) in
  let+ _ := rd_watch keys in
  let+ _ := lockKeeper ns name lockToken in
  let+ curVersions := rd_ask (QZRange (workerVersionsKey ns name)) in
  if negb (bool_decide (curVersions = di_retainedVersions collected)) then drift
  else
    let+ curRoutes := rd_ask (QHGetAll (routesKey ns)) in
    let curActive := non_empty (curRoutes !! name) in
    if negb (bool_decide (curActive = di_activeVersion collected)) then drift
    else if match curActive with Some v => negb (bool_decide (v ∈ curVersions)) | None => false end then rd_fail 409 "projection_drift"
    else
      let+ currentPatterns := rd_map (λ h, rd_ask (QHGetAll (patternsKey h))) (di_affectedHosts collected) in
      let patterns := zip (di_affectedHosts collected) currentPatterns in
      let+ losing := rd_lift (findHostsLosingNsOwnership ns (di_activeRoutes collected) patterns) in
      let+ curHasSecrets := rd_ask (QExists (workerSecretsKey ns name)) in
      let+ curHasWorkflowDefs := rd_ask (QExists (workflowDefsKey ns name)) in
      if negb (eqb curHasSecrets (di_hasWorkerSecrets collected)) || negb (eqb curHasWorkflowDefs (di_hasWorkflowDefs collected)) then drift
      else
        let+ setSnapshots := rd_map (λ ver, rd_ask (QSMembers (referrersKey ns name ver))) (di_retainedVersions collected) in
        let+ curDoObjectCount := match di_doObjectRegistry collected with
                                 | Some key => rd_ask (QSCard key)
                                 | None => rd_ret (di_doObjectCount collected)
                                 end in
        if negb (curDoObjectCount =? di_doObjectCount collected) then drift
        else if negb (same_keys (scanDoOwnerKeys (pg_ownersAgain pages) (di_doStorageId collected)) (di_doOwnerKeys collected)) then drift
        else
          let+ curQueueConsumerKeys := scanQueueConsumerKeysForWorker (pg_queuesAgain pages) ns name in
          if negb (same_keys curQueueConsumerKeys (di_queueConsumerKeys collected)) then drift
          else if existsb (λ mem : gset jstr, negb (bool_decide (mem = ∅))) setSnapshots then rd_fail 409 "version_referenced"
          else
            let+ _ := rd_lift (assert_slots_own ns name patterns (di_activeRoutes collected)) in
            let+ consumers := rd_map (λ key, rd_ask (QHGetAll key)) (di_queueConsumerKeys collected) in
            if existsb (consumer_drifted name) consumers then rd_fail 409 "projection_drift"
            else
              let commitInputs := MkDeleteInputs (di_queueConsumerKeys collected) (di_doStorageId collected)
                (di_doObjectCount collected) (di_doOwnerKeys collected) (di_retainedVersions collected) (di_retained collected)
                (di_activeVersion collected) (di_activeRoutes collected) (di_affectedHosts collected) losing
                (others_active name curRoutes) (di_hasWorkerSecrets collected) (di_hasWorkflowDefs collected) in
              let+ ws := rd_lift (stageWorkerDelete ns name commitInputs) in
              rd_ret (Commit ws (WorkerDeleted (di_activeVersion collected) (di_retainedVersions collected)
                (di_affectedHosts collected) (length (di_queueConsumerKeys collected)) (others_active name curRoutes)
                (buildWorkerDeleteCleanup commitInputs taskId))).

(** The clean-up of what an absent worker left behind. *)
Definition deleteResidualDoRedis (pages : ScanPages) (ns name lockToken : jstr) (collected : DeleteInputs) : txn control_result :=
  let+ _ := rd_watch ([deleteLockKey ns name; routesKey ns; workerVersionsKey ns name; workerSecretsKey ns name;
                       workflowDefsKey ns name; doStorageIdKey ns name; sessionPolicyKey ns name] ++ di_doOwnerKeys collected) in
  let+ _ := lockKeeper ns name lockToken in
  let+ activeVersion := rd_ask (QHGet (routesKey ns) name) in
  let+ retainedVersions := rd_ask (QZRange (workerVersionsKey ns name)) in
  let+ hasWorkerSecrets := rd_ask (QExists (workerSecretsKey ns name)) in
  let+ hasWorkflowDefs := rd_ask (QExists (workflowDefsKey ns name)) in
  let+ hasPolicyProjection := rd_ask (QExists (sessionPolicyKey ns name)) in
  if truthy_text activeVersion || negb (bool_decide (retainedVersions = [])) || hasWorkerSecrets || hasWorkflowDefs then drift
  else
    let+ storage := rd_ask (QGet (doStorageIdKey ns name)) in
    if negb (bool_decide (storage = di_doStorageId collected)) then drift
    else if negb (same_keys (scanDoOwnerKeys (pg_ownersAgain pages) (di_doStorageId collected)) (di_doOwnerKeys collected)) then drift
    else
      let answer := WorkerAbsent (di_namespaceStillActive collected) in
      if negb (truthy_text (di_doStorageId collected)) && bool_decide (di_doOwnerKeys collected = []) && negb hasPolicyProjection
      then rd_ret (NoWrites answer)
      else
        let+ event := rd_lift (rethrow (encodeWorkerDeleteEvent ns name)) in
        rd_ret (Commit (map WDel (di_doOwnerKeys collected)
                        ++ (if truthy_text (di_doStorageId collected) then [WDel (doStorageIdKey ns name)] else [])
                        ++ (if (hasPolicyProjection : bool) then [WDel (sessionPolicyKey ns name)] else [])
                        ++ [WPublish WORKER_DELETE_CHANNEL event]) answer).

Definition assertActiveVersionRetained (d : DeleteInputs) : result control_error unit :=
  match di_activeVersion d with
  | Some v => if decide (v ∈ di_retainedVersions d) then Ok tt else fail 409 "projection_drift"
  | None => Ok tt
  end.

(** Instances of workflows block a delete only after what else is wrong is known. *)
Definition workflow_blocker (check : result control_error unit) : result control_error bool :=
  match check with
  | Ok _ => Ok false
  | Err (RoutingError status code) =>
      if jeqb code (js "workflow_instances_active") then Ok true else Err (RoutingError status code)
  | Err e => Err e
  end.

Definition hasWorkerLifecycle (d : DeleteInputs) : bool :=
  truthy_text (di_activeVersion d) || negb (bool_decide (di_retainedVersions d = [])) || di_hasWorkerSecrets d || di_hasWorkflowDefs d.

Section requests.
(** The pages of the scans, the answer of the workflows service and the id of the clean-up
    task in the attempt that starts at [now]. *)
Variable pages : Z → ScanPages.
Variable workflowCheck : Z → result control_error unit.
Variable newTaskId : Z → jstr.

Definition executeWholeDelete (ns name lockToken : jstr) (now : Z) : txn control_result :=
  let+ collected := collectDeleteInputs (pages now) ns name in
  let+ _ := rd_lift (assertActiveVersionRetained collected) in
  let+ workflowBlocker := rd_lift (workflow_blocker (workflowCheck now)) in
  if (workflowBlocker : bool) then rd_fail 409 "workflow_instances_active"
  else if negb (hasWorkerLifecycle collected) then
    let+ _ := lockKeeper ns name lockToken in
    deleteResidualDoRedis (pages now) ns name lockToken collected
  else if existsb (λ r, negb (bool_decide (rv_referrers r = ∅))) (di_retained collected) then rd_fail 409 "version_referenced"
  else
    let+ _ := lockKeeper ns name lockToken in
    runSessionEXEC (pages now) ns name lockToken (newTaskId now) collected.

(** ** One version (src/control/handlers/versions.js) *)

(** Does a version of the batch share the prefix? The first that does ends the search. *)
Fixpoint batch_shares (prefix : jstr) (metas : list (option jstr)) : result control_error bool :=
  match metas with
  | [] => Ok false
  | raw :: metas =>
      let! meta := parseBundleMeta (opt_string raw) in
      if bool_decide (bundleAssetPrefix meta = Some prefix) then Ok true else batch_shares prefix metas
  end.

Fixpoint siblings_share (ns name prefix : jstr) (batches : list (list jstr)) : reads bool :=
  match batches with
  | [] => rd_ret false
  | batch :: batches =>
      let+ metas := rd_map (λ ver, let+ key := rd_lift (bundle_key ns name ver) in rd_ask (QHGet key (js "__meta__"))) batch in
      let+ shared := rd_lift (batch_shares prefix metas) in
      if (shared : bool) then rd_ret true else siblings_share ns name prefix batches
  end.

Definition executeVersionDelete (ns name version lockToken : jstr) (now : Z) : txn control_result :=
  let+ key := rd_lift (bundle_key ns name version) in
  let+ _ := rd_watch [deleteLockKey ns name; routesKey ns; workerVersionsKey ns name; workerSecretsKey ns name;
                      workflowDefsKey ns name; key; referrersKey ns name version] in
  let+ _ := lockKeeper ns name lockToken in
  let+ currentActive := rd_ask (QHGet (routesKey ns) name) in
  if decide (currentActive = Some version) then rd_fail 409 "active_version"
  else
    let+ currentVersions := rd_ask (QZRange (workerVersionsKey ns name)) in
    if negb (bool_decide (version ∈ currentVersions)) then rd_fail 404 "version_not_found"
    else if match non_empty currentActive with Some v => negb (bool_decide (v ∈ currentVersions)) | None => false end
    then rd_fail 409 "projection_drift"
    else
      let+ raw := rd_ask (QHGet key (js "__meta__")) in
      let+ meta := rd_lift (parseBundleMeta (opt_string raw)) in
      let+ referrers := rd_ask (QSMembers (referrersKey ns name version)) in
      if negb (bool_decide (referrers = ∅)) then rd_fail 409 "version_referenced"
      else
        let bindings := obj_get (js "bindings") meta in
        let prefix := non_empty (bundleAssetPrefix meta) in
        let siblings := filter (λ v, v ≠ version) currentVersions in
        let+ skipS3Cleanup := match prefix with
          | None => rd_ret false
          | Some p => siblings_share ns name p (chunks (length siblings) VERSION_DELETE_SIBLING_READ_BATCH_SIZE siblings)
          end in
        let+ hasWorkerSecrets := rd_ask (QExists (workerSecretsKey ns name)) in
        let+ hasWorkflowDefs := rd_ask (QExists (workflowDefsKey ns name)) in
        let lastRetainedNoActive := bool_decide (currentVersions = [version]) && negb (truthy_text currentActive) in
        let cleanup := match prefix with
          | Some p => if (skipS3Cleanup : bool) then None else Some (newTaskId now, p)
          | None => None
          end in
        let+ ws := rd_lift (
          let! outgoing := stageOutgoingReferrerRemovals ns name version (extractOutgoingRefs bindings ns) in
          let! d1 := stageD1ReferrerRemovals ns name version (extractD1Refs bindings) in
          Ok ([WDel key] ++ stageWorkerVersionIndexRemove ns name version ++ [WDel (referrersKey ns name version)]
              ++ outgoing ++ d1
              ++ (if lastRetainedNoActive
                  then stageWorkerVersionIndexDelete ns name
                       ++ (if hasWorkerSecrets || hasWorkflowDefs then [] else stageWorkerHidden ns name)
                  else []))) in
        rd_ret (Commit ws (VersionDeleted cleanup (bool_decide (is_Some prefix) && skipS3Cleanup) lastRetainedNoActive)).
End requests.
