(* ===== verification/DeleteSafety.v ===== *)
(** * Deletions keep the routing tables coherent

    A whole-worker delete takes the slots, the active version and the bundles of a worker
    away together; a version delete takes a bundle that is not active. Both keep the invariant
    of RoutingSafety.v, whatever the scans answer and whatever runs beside them. *)

From stdpp Require Import base list strings gmap.
From Stdlib Require Import ZArith Lia.
From S2P Require Import Prelude NsPattern WorkerContract Utf8 Json JsNumber OwnerLease Gateway SessionPolicy Txn Control Topology Routing.
From S2P Require Import RoutingSafety Delete.

#[local] Open Scope Z_scope.
#[local] Open Scope wdl_scope.
#[local] Open Scope txn_scope.

(** ** Keys *)

Lemma bundle_key_inj ns w v ns' w' v' k : names_ok ns w → names_ok ns' w' →
  bundle_key ns w v = Ok k → bundle_key ns' w' v' = Ok k → ns = ns' ∧ w = w' ∧ v = v'.
Proof.
  intros [Cn%name_no_colon Cw%name_no_colon] [Cn'%name_no_colon Cw'%name_no_colon]. unfold bundle_key, bundleKey.
  destruct (parseVersion (JStr v)) as [n|] eqn:Ev; [|done]. destruct (parseVersion (JStr v')) as [n'|] eqn:Ev'; [|done].
  intros <-%Ok_inj H%Ok_inj. apply app_inv_head in H. apply (colon_pair_inj ns' _ ns) in H as [-> H]; try done.
  apply (colon_pair_inj w' _ w) in H as [-> H]; try done. apply (app_inv_head (js "v:")) in H.
  apply parseVersion_inv in Ev as [? ->], Ev' as [? ->]. by rewrite H.
Qed.

(** The head of a key that starts with a literal prefix. *)
Lemma key_head_prefix p k : colon ∉ p → starts_with (p ++ [colon]) k = true → key_head k = p.
Proof.
  intros Hp (t & ->)%starts_with_spec. rewrite <- app_assoc. induction p as [|c p IH]; cbn; [done|].
  apply not_elem_of_cons in Hp as [Hc Hp]. destruct (Z.eqb_spec c colon); [congruence|]. f_equal. by apply IH.
Qed.

Lemma starts_with_weaken p q k : starts_with (p ++ q) k = true → starts_with p k = true.
Proof. intros (t & ->)%starts_with_spec. rewrite <- app_assoc. apply starts_with_app. Qed.

Lemma do_storage_plain ns w : names_ok ns w → kept_key (doStorageIdKey ns w) = false.
Proof.
  intros [H1%name_no_colon%no_colon_filter H2%name_no_colon%no_colon_filter]. unfold kept_key, table_key, is_bundle, doStorageIdKey.
  rewrite split_on_length, !filter_app, H1, H2, !length_app. vm_compute. reflexivity.
Qed.

(** Keys that scans find. *)
Definition scanned (keys : list jstr) : Prop := Forall (λ k, kept_key k = false) keys.

Lemma scanned_prefix p q keys : colon ∉ p → set_has (js "worker" :: js "worker-version-referrers" :: TABLE_HEADS) p = false →
  (∀ k, k ∈ keys → starts_with ((p ++ [colon]) ++ q) k = true) → scanned keys.
Proof.
  intros Hc Hp Hk. apply Forall_forall. intros k H%Hk. apply starts_with_weaken, key_head_prefix in H; [|done].
  apply plain_head. by rewrite H.
Qed.

Lemma match_prefix_elem prefix found k : k ∈ match_prefix prefix found → starts_with prefix k = true.
Proof. by intros [H _]%list_elem_of_filter. Qed.

Lemma scanned_owners pages id : scanned (scanDoOwnerKeys pages id).
Proof.
  unfold scanDoOwnerKeys. destruct (non_empty id) as [x|]; [|constructor].
  apply (scanned_prefix (js "do") (js "owner:scope:" ++ encodeURIComponent (x ++ js ":"))); [by vm_compute; set_solver|by vm_compute|].
  intros k Hk%elem_of_unique%match_prefix_elem. exact Hk.
Qed.

Lemma plain_dels keys : scanned keys → plain_writes (map WDel keys).
Proof. unfold scanned. rewrite Forall_forall. intros H. induction keys as [|k keys IH]; [apply plain_nil|]. apply plain_cons. split; [intros ? [= <-]; apply H; set_solver|]. apply IH. set_solver. Qed.

Lemma plain_queue_removals keys : scanned keys → plain_writes (flat_map stageQueueConsumerKeyRemoval keys).
Proof.
  unfold scanned. rewrite Forall_forall. intros H. induction keys as [|k keys IH]; [apply plain_nil|]. cbn [flat_map]. apply plain_writes_app.
  split; [|apply IH; set_solver]. unfold stageQueueConsumerKeyRemoval. apply plain_cons. split; [intros ? [= <-]; apply H; set_solver|solve_plain].
Qed.

Lemma outgoing_removals_referrers ns worker version refs ws : stageOutgoingReferrerRemovals ns worker version refs = Ok ws → referrer_writes ws.
Proof.
  apply referrer_stage_all. intros ref ws' H. apply rbind_Ok_inv in H as (m & _ & H). apply Ok_inj in H as <-. repeat constructor.
Qed.

Lemma plain_d1_removals ns worker version refs ws : stageD1ReferrerRemovals ns worker version refs = Ok ws → plain_writes ws.
Proof.
  apply plain_stage_all. intros ref ws' H. apply rbind_Ok_inv in H as (m & _ & H). apply Ok_inj in H as <-. solve_plain.
Qed.

(** ** Deleted keys *)

(** Writes that touch tables only to delete the bundles [D]. *)
Definition deletes (D : list jstr) (ws : list write) : Prop :=
  (∀ k, k ∈ D → WDel k ∈ ws) ∧
  ∀ wr k, wr ∈ ws → target wr = Some k → table_key k = true → k ∈ D ∧ wr = WDel k.

Lemma deletes_loose ws : loose_writes ws → deletes [] ws.
Proof.
  intros Hp. split; [by intros k ?%elem_of_nil|]. intros wr k Hin Ht Hk. unfold loose_writes in Hp. rewrite Forall_forall in Hp.
  rewrite (Hp k) in Hk; [done|]. apply list_elem_of_omap. by exists wr.
Qed.

Lemma deletes_app D D' ws ws' : deletes D ws → deletes D' ws' → deletes (D ++ D') (ws ++ ws').
Proof.
  intros [H1 H2] [H3 H4]. split.
  - intros k [?|?]%elem_of_app; apply elem_of_app; auto.
  - intros wr k [Hin|Hin]%elem_of_app Ht Hk; [destruct (H2 wr k Hin Ht Hk)|destruct (H4 wr k Hin Ht Hk)]; split; try done; apply elem_of_app; auto.
Qed.

Lemma del_blank k s : blank k (apply_write (WDel k) s).
Proof.
  unfold blank, same_at. cbn [apply_write].
  rewrite str_set_str, decide_True by done. unfold str_at, hash_at, set_at, zset_at. cbn. rewrite !lookup_insert_eq. done.
Qed.

Lemma deletes_only k ws : (∀ wr, wr ∈ ws → target wr = Some k → wr = WDel k) → ∀ s, blank k s → blank k (apply_writes ws s).
Proof.
  induction ws as [|wr ws IH]; intros Hw s Hb; [done|]. change (apply_writes (wr :: ws) s) with (apply_writes ws (apply_write wr s)).
  apply IH; [set_solver|]. destruct (decide (target wr = Some k)) as [E|E].
  - rewrite (Hw wr) by set_solver. apply del_blank.
  - eapply blank_same; [by apply apply_write_other|done].
Qed.

Lemma deletes_effect D ws s k : deletes D ws → table_key k = true →
  (k ∈ D → blank k (apply_writes ws s)) ∧ (k ∉ D → same_at k s (apply_writes ws s)).
Proof.
  intros [H1 H2] Hk. split; intros Hin.
  - apply H1 in Hin as Hd. apply list_elem_of_split in Hd as (l1 & l2 & ->). rewrite apply_writes_app.
    change (apply_writes (WDel k :: l2) ?x) with (apply_writes l2 (apply_write (WDel k) x)). apply deletes_only; [|apply del_blank].
    intros wr Hwr Ht. apply (H2 wr k); [set_solver|done|done].
  - apply apply_writes_other. intros (wr & Hwr & Ht)%list_elem_of_omap. by destruct (H2 wr k Hwr Ht Hk).
Qed.

(** ** Bundles that are not active may go *)

Lemma drop_bundles_inv s s' (D : list jstr) : routing_inv s → (∀ k, k ∈ D → is_bundle k = true ∧ blank k s') →
  (∀ k, table_key k = true → k ∉ D → same_at k s s') →
  (∀ ns w v k, active_at ns s !! w = Some v → bundle_key ns w v = Ok k → k ∉ D) → routing_inv s'.
Proof.
  intros Hi HD Hs Hact.
  assert (∀ k, table_key k = true → is_bundle k = false → same_at k s s') as Ht.
  { intros k Hk Hb. apply Hs; [done|]. intros [Hb' _]%HD. congruence. }
  assert (∀ h, patterns_at h s = patterns_at h s') as Hp by (intros h; apply Ht; [auto with tables|done]).
  assert (∀ n, active_at n s = active_at n s') as Ha by (intros n; apply Ht; [auto with tables|done]).
  assert (∀ n, declared_at n s = declared_at n s') as Hd by (intros n; apply Ht; [auto with tables|done]).
  assert (∀ n, index_at n s = index_at n s') as Hx by (intros n; apply Ht; [auto with tables|done]).
  assert (∀ h slot p, holds s' h slot p ↔ holds s h slot p) as Hh by (intros h slot p; unfold holds; by rewrite Hp).
  assert (∀ n w v rs, active_at n s !! w = Some v → bundle_routes n w v s = Some rs → bundle_routes n w v s' = Some rs) as Hr.
  { intros n w v rs Hv. destruct (ri_active _ Hi _ _ _ Hv) as [Hn _]. unfold bundle_routes.
    destruct (bundle_key n w v) as [k|] eqn:E; [|done]. destruct (Hs k) as (_ & <- & _); [|by eapply Hact|done].
    eapply table_bundle, bundle_key_is_bundle; done. }
  split.
  - intros h slot raw. rewrite <- Hp. intros (n & w & v & rs & r & H1 & H2 & H3)%(ri_slot _ Hi).
    exists n, w, v, rs, r. rewrite <- Ha. split_and!; [done|by apply Hr|naive_solver..].
  - intros n w v. rewrite <- Ha. intros H. destruct (ri_active _ Hi _ _ _ H) as (H1 & rs & H2 & H3). split; [done|].
    exists rs. split; [by apply Hr|]. intros r Hin. rewrite <- Hp. by apply H3.
  - intros h slot slot' p p' H1%Hh H2%Hh. by eapply (ri_one_ns _ Hi).
  - intros n h. rewrite <- Hx, (ri_index _ Hi). by setoid_rewrite Hh.
  - intros h slot p H%Hh. rewrite <- Hd. by eapply (ri_declared _ Hi).
  - intros k rs Hk Hrs. destruct (decide (k ∈ D)) as [[_ Hb]%HD|Hn]; [by rewrite (blank_routes _ _ Hb) in Hrs|].
    destruct (Hs k (table_bundle _ Hk) Hn) as (_ & E & _). rewrite <- E in Hrs. by apply (ri_bundles _ Hi k).
Qed.

(** ** A worker is taken down *)

(** The routes of the active version of a worker, none if it has none. *)
Definition own_routes (s : store) (ns w : jstr) (rs : list RoutePattern) : Prop :=
  (active_at ns s !! w = None ∧ rs = []) ∨ ∃ v, active_at ns s !! w = Some v ∧ bundle_routes ns w v s = Some rs.

Abbreviation has_slot h slot := (λ r : RoutePattern, r_host r = h ∧ r_slot r = slot).

Section take_down.
Context (s s' : store) (ns w : jstr) (rs : list RoutePattern) (losing : list jstr).
Hypothesis Hinv : routing_inv s.
Hypothesis Hown : own_routes s ns w rs.
Hypothesis Hpat : ∀ h slot, patterns_at h s' !! slot = if decide (Exists (has_slot h slot) rs) then None else patterns_at h s !! slot.
Hypothesis Hact : ∀ ns', active_at ns' s' = if decide (ns' = ns) then delete w (active_at ns s) else active_at ns' s.
Hypothesis Hdec : ∀ ns', declared_at ns' s' = declared_at ns' s.
Hypothesis Hidx : ∀ ns' h, h ∈ index_at ns' s' ↔ h ∈ index_at ns' s ∧ ¬ (ns' = ns ∧ h ∈ losing).
Hypothesis Hbun : ∀ k, is_bundle k = true → same_at k s s'.
Hypothesis Hlosing : ∀ h, h ∈ losing → ∀ slot p, holds s h slot p → pp_ns p = ns → Exists (has_slot h slot) rs.
Hypothesis Hstaying : ∀ h, h ∈ map r_host rs → h ∉ losing →
  ∃ slot p, holds s h slot p ∧ pp_ns p = ns ∧ ¬ Exists (has_slot h slot) rs.

Lemma own_slot r : r ∈ rs → ∃ p, holds s (r_host r) (r_slot r) p ∧ pp_ns p = ns ∧ pp_worker p = w.
Proof.
  intros Hr. destruct Hown as [[_ ->]|(v & Ha & Hb)]; [by apply elem_of_nil in Hr|].
  destruct (ri_active _ Hinv _ _ _ Ha) as (_ & rs' & Hb' & Hall). rewrite Hb in Hb'. injection Hb' as <-.
  destruct (Hall r Hr) as (raw & Ht & Hs). destruct (slot_text_decode _ _ _ _ _ Ht) as (k & value & Hd & _).
  eexists. split; [by exists raw|done].
Qed.

Lemma holds_fun h slot p p' : holds s h slot p → holds s h slot p' → p = p'.
Proof. intros (raw & H1 & H2) (raw' & H3 & H4). congruence. Qed.

(** The slots that go are those of the worker. *)
Lemma gone_slot h slot p : holds s h slot p → Exists (has_slot h slot) rs ↔ pp_ns p = ns ∧ pp_worker p = w.
Proof.
  intros Hp. split.
  - intros (r & Hr & <- & <-)%Exists_exists. destruct (own_slot r Hr) as (p' & Hp' & H1 & H2).
    by rewrite (holds_fun _ _ _ _ Hp Hp').
  - intros [En Ew]. pose proof Hp as (raw & Hs & Hd). destruct (slot_holder s h slot raw Hinv Hs) as (ns' & w' & v' & rs' & r & k & value & Hd' & Ha & Hb & Hr & Hh & Hsl & _).
    rewrite Hd in Hd'. injection Hd' as ->. cbn in En, Ew. subst ns' w'.
    destruct Hown as [[E _]|(v & Ha' & Hb')]; [congruence|]. rewrite Ha in Ha'. injection Ha' as <-. rewrite Hb in Hb'. injection Hb' as ->.
    apply Exists_exists. by exists r.
Qed.

Lemma left_slot h slot p : holds s' h slot p ↔ holds s h slot p ∧ ¬ (pp_ns p = ns ∧ pp_worker p = w).
Proof.
  split.
  - intros (raw & Hs & Hd). rewrite Hpat in Hs. case_decide as He; [done|]. assert (holds s h slot p) as Hp by by exists raw.
    split; [done|]. by rewrite <- (gone_slot _ _ _ Hp).
  - intros [Hp Hn]. pose proof Hp as (raw & Hs & Hd). exists raw. split; [|done]. rewrite Hpat, decide_False; [done|].
    by rewrite (gone_slot _ _ _ Hp).
Qed.

Lemma left_active ns' w' v' : active_at ns' s' !! w' = Some v' ↔ active_at ns' s !! w' = Some v' ∧ ¬ (ns' = ns ∧ w' = w).
Proof.
  rewrite Hact. destruct (decide (ns' = ns)) as [->|Hne]; [|naive_solver]. rewrite lookup_delete_Some. naive_solver.
Qed.

Lemma left_routes ns' w' v' : names_ok ns' w' → bundle_routes ns' w' v' s' = bundle_routes ns' w' v' s.
Proof.
  intros Hn. unfold bundle_routes. destruct (bundle_key ns' w' v') as [k|] eqn:E; [|done].
  by destruct (Hbun k (bundle_key_is_bundle _ _ _ _ Hn E)) as (_ & -> & _).
Qed.

Lemma take_down_index ns' h : h ∈ index_at ns' s' ↔ ∃ slot p, holds s' h slot p ∧ pp_ns p = ns'.
Proof.
  rewrite Hidx, (ri_index _ Hinv). setoid_rewrite left_slot. split.
  - intros [(slot & p & Hp & E) Hn]. destruct (decide (ns' = ns)) as [->|Hne]; [|exists slot, p; naive_solver].
    destruct (decide (pp_worker p = w)) as [Ew|Ew]; [|exists slot, p; naive_solver].
    assert (Exists (has_slot h slot) rs) as (r & Hr & Eh & _)%Exists_exists by by apply (gone_slot _ _ _ Hp).
    destruct (Hstaying h) as (slot' & p' & Hp' & E' & Hno); [apply list_elem_of_fmap; by exists r|tauto|].
    exists slot', p'. split; [|done]. split; [done|]. by rewrite <- (gone_slot _ _ _ Hp').
  - intros (slot & p & [Hp Hn] & E). split; [by exists slot, p|]. intros [-> Hl]. apply Hn.
    apply (gone_slot _ _ _ Hp). by apply (Hlosing h Hl slot p).
Qed.

Lemma take_down_inv : routing_inv s'.
Proof.
  split.
  - intros h slot raw Hs. assert (patterns_at h s !! slot = Some raw) as Hs0 by (rewrite Hpat in Hs; by case_decide).
    destruct (slot_holder s h slot raw Hinv Hs0) as (n & w' & v & rs' & r & k & value & Hd & Ha & Hb & Hr & Hh & Hsl & Ht).
    assert (holds s' h slot (Projection n w' v k value)) as [_ Hn]%left_slot by by exists raw. cbn in Hn.
    destruct (ri_active _ Hinv _ _ _ Ha) as [Hok _]. exists n, w', v, rs', r. rewrite left_active, left_routes by done. naive_solver.
  - intros n w' v [Ha Hn]%left_active. destruct (ri_active _ Hinv _ _ _ Ha) as (Hok & rs' & Hb & Hall). split; [done|].
    exists rs'. rewrite left_routes by done. split; [done|]. intros r Hr. destruct (Hall r Hr) as (raw & Ht & Hs). exists raw. split; [done|].
    destruct (slot_text_decode _ _ _ _ _ Ht) as (k & value & Hd & _).
    assert (holds s' (r_host r) (r_slot r) (Projection n w' v k value)) as (raw' & Hs' & _).
    { apply left_slot. split; [by exists raw|done]. }
    rewrite Hpat in Hs' |- *. by case_decide.
  - intros h slot slot' p p' [H1 _]%left_slot [H2 _]%left_slot. by eapply (ri_one_ns _ Hinv).
  - apply take_down_index.
  - intros h slot p [H _]%left_slot. rewrite Hdec. by eapply (ri_declared _ Hinv).
  - intros k rs' Hk. destruct (Hbun k Hk) as (_ & <- & _). by apply (ri_bundles _ Hinv).
Qed.
End take_down.

(** ** Hosts that leave the reverse index *)

Definition slot_of (r : RoutePattern) : RouteSlot := MkSlot (r_host r) (r_slot r).

Lemma normalize_routes meta rs slots : list_field "routes" route_of meta = Ok rs → normalizeActiveRoutes meta = Ok slots →
  slots = map slot_of rs.
Proof.
  unfold list_field, normalizeActiveRoutes. destruct (obj_get (js "routes") meta) eqn:Em;
    try (intros <-%Ok_inj; by try intros <-%Ok_inj).
  destruct (mapM route_of l) as [rs'|] eqn:E1; [|done]. destruct (mapM isRouteSlot l) as [sl|] eqn:E2; [|done].
  intros <-%Ok_inj <-%Ok_inj. apply mapM_Some in E1, E2. clear Em. revert sl E2.
  induction E1 as [|v r l rs Hv _ IH]; intros sl E2; inversion E2 as [|? x ? sl' Hx Hsl]; subst; [done|].
  cbn [map]. f_equal; [|by apply IH]. revert Hv Hx. unfold route_of, isRouteSlot.
  destruct (member "host" v), (member "slot" v); try done. by intros [= <-] [= <-].
Qed.

Lemma sibling_owns_spec ns our l b : sibling_owns_host ns our l = Ok b →
  if b then ∃ slot raw p, (slot, raw) ∈ l ∧ slot ∉ our ∧ decodePatternProjection (JStr raw) = Some p ∧ pp_ns p = ns
  else ∀ slot raw p, (slot, raw) ∈ l → decodePatternProjection (JStr raw) = Some p → pp_ns p = ns → slot ∈ our.
Proof.
  induction l as [|[slot raw] l IH]; cbn [sibling_owns_host]; [intros <-%Ok_inj; by intros slot raw p ?%elem_of_nil|].
  destruct (decide (slot ∈ our)) as [Hin|Hin].
  - intros H%IH. destruct b.
    + destruct H as (sl & rw & p & H1 & H2). exists sl, rw, p. split; [by apply list_elem_of_further|done].
    + intros sl rw p [E|Hl]%elem_of_cons; [by apply pair_equal_spec in E as [-> _]|by apply H].
  - intros (p & Hp%requirePatternProjection_Ok & H)%rbind_Ok_inv. destruct (jeqb (pp_ns p) ns) eqn:E.
    + apply Ok_inj in H as <-. apply jeqb_eq in E. exists slot, raw, p. split; [apply list_elem_of_here|done].
    + apply jeqb_neq in E. apply IH in H. destruct b.
      * destruct H as (sl & rw & p' & H1 & H2). exists sl, rw, p'. split; [by apply list_elem_of_further|done].
      * intros sl rw p' [E'|Hl]%elem_of_cons Hd; [apply pair_equal_spec in E' as [-> ->]; congruence|by eapply H].
Qed.

Lemma our_slots rs h slot :
  slot ∈ map rs_slot (filter (λ r, rs_host r = h) (map slot_of rs)) ↔ Exists (has_slot h slot) rs.
Proof.
  rewrite Exists_exists. rewrite list_elem_of_fmap. setoid_rewrite list_elem_of_filter. setoid_rewrite list_elem_of_fmap. split.
  - intros (x & -> & E & r & -> & Hr). by exists r.
  - intros (r & Hr & <- & <-). exists (slot_of r). split_and!; [done|done|by exists r].
Qed.

Lemma losing_spec s ns rs hosts losing : routing_inv s →
  findHostsLosingNsOwnership ns (map slot_of rs) (zip hosts (map (λ h, patterns_at h s) hosts)) = Ok losing →
  (∀ h, h ∈ losing → h ∈ hosts ∧ ∀ slot p, holds s h slot p → pp_ns p = ns → Exists (has_slot h slot) rs) ∧
  (∀ h, h ∈ hosts → h ∉ losing → ∃ slot p, holds s h slot p ∧ pp_ns p = ns ∧ ¬ Exists (has_slot h slot) rs).
Proof.
  intros Hi. revert losing. induction hosts as [|h hosts IH]; intros losing.
  { intros <-%Ok_inj. split; [by intros h ?%elem_of_nil|by intros h ?%elem_of_nil]. }
  cbn [map]. change (zip (h :: hosts) (?m :: ?ms)) with ((h, m) :: zip hosts ms). cbn [findHostsLosingNsOwnership]. cbv zeta.
  intros (b & Hb%sibling_owns_spec & H)%rbind_Ok_inv. apply rbind_Ok_inv in H as (l & Hl & H). apply Ok_inj in H as <-.
  destruct (IH l Hl) as [H1 H2]. destruct b.
  - destruct Hb as (slot & raw & p & Hin%elem_of_map_to_list & Hno & Hd & E). rewrite our_slots in Hno. split.
    + intros h' [Hh' H']%H1. split; [by apply list_elem_of_further|done].
    + intros h' [->|Hh']%elem_of_cons Hn; [|by apply H2]. exists slot, p. split; [by exists raw|done].
  - assert (∀ slot p, holds s h slot p → pp_ns p = ns → Exists (has_slot h slot) rs) as Hall.
    { intros slot p (raw & Hs & Hd) E. apply our_slots. by apply (Hb slot raw p); [apply elem_of_map_to_list|..]. }
    split.
    + intros h' [->|Hh']%elem_of_cons; [split; [apply list_elem_of_here|done]|].
      destruct (H1 h' Hh'). split; [by apply list_elem_of_further|done].
    + intros h' [->|Hh']%elem_of_cons Hn; [exfalso; apply Hn, list_elem_of_here|].
      apply H2; [done|]. intros Hl'. by apply Hn, list_elem_of_further.
Qed.

(** ** The staged delete *)

Lemma version_removal_deletes ns w r ws : stage_version_removal ns w r = Ok ws →
  ∃ k, bundle_key ns w (rv_version r) = Ok k ∧ (names_ok ns w → deletes [k] ws).
Proof.
  unfold stage_version_removal. cbv zeta. intros H. apply rbind_Ok_inv in H as (k & Hk & H).
  apply rbind_Ok_inv in H as (out & Ho%outgoing_removals_referrers & H). apply rbind_Ok_inv in H as (d1 & Hd%plain_d1_removals & H).
  apply Ok_inj in H as <-. exists k. split; [done|]. intros Hn.
  apply (deletes_app [k] [] [WDel k]).
  - split; [intros k' ->%list_elem_of_singleton; apply list_elem_of_here|].
    intros wr k' ->%list_elem_of_singleton [= <-] _. split; [apply list_elem_of_here|done].
  - apply deletes_loose. rewrite !loose_writes_app. split_and!; [|by repeat constructor|by apply referrer_loose|by apply plain_loose].
    unfold stageWorkerVersionIndexRemove. apply plain_loose. solve_plain.
Qed.

(** Among the referrers, writes that only unregister the versions [vs] of a worker. *)
Definition removes (ns w : jstr) (vs : list jstr) (ws : list write) : Prop :=
  ∀ wr k, wr ∈ ws → target wr = Some k → key_head k = js "worker-version-referrers" → ∃ v, v ∈ vs ∧
    (wr = WDel (referrersKey ns w v) ∨ ∃ binding m, wr = WSRem k m ∧ callerReferrerMember ns w v binding = Ok m).

Lemma removes_plain ns w vs ws : plain_writes ws → removes ns w vs ws.
Proof.
  intros Hp wr k Hin Ht Hk. unfold plain_writes in Hp. rewrite Forall_forall in Hp. specialize (Hp k).
  unfold kept_key in Hp. rewrite Hk, jeqb_refl, orb_true_r in Hp. discriminate Hp. apply list_elem_of_omap. by exists wr.
Qed.

Lemma removes_app ns w vs ws ws' : removes ns w vs (ws ++ ws') ↔ removes ns w vs ws ∧ removes ns w vs ws'.
Proof.
  unfold removes. split.
  - intros H. split; intros wr k Hin; apply H; apply elem_of_app; auto.
  - intros [H1 H2] wr k [Hin|Hin]%elem_of_app; [by apply H1|by apply H2].
Qed.

Lemma outgoing_removes ns w v refs ws : stageOutgoingReferrerRemovals ns w v refs = Ok ws → removes ns w [v] ws.
Proof.
  revert ws. induction refs as [|ref refs IH]; intros ws H; cbn [stageOutgoingReferrerRemovals stage_all] in H.
  - apply Ok_inj in H as <-. by intros wr k ?%elem_of_nil.
  - apply rbind_Ok_inv in H as (w1 & H1 & H). apply rbind_Ok_inv in H as (w2 & H2%IH & H). apply Ok_inj in H as <-.
    apply removes_app. split; [|done]. apply rbind_Ok_inv in H1 as (m & Hm & H1). apply Ok_inj in H1 as <-.
    intros wr k ->%list_elem_of_singleton [= <-] _. exists v. split; [apply list_elem_of_here|]. right. by exists (or_binding ref), m.
Qed.

Lemma version_removes ns w r ws : names_ok ns w → stage_version_removal ns w r = Ok ws → removes ns w [rv_version r] ws.
Proof.
  intros Hn. unfold stage_version_removal. cbv zeta. intros H. apply rbind_Ok_inv in H as (k & Hk & H).
  apply rbind_Ok_inv in H as (out & Ho%outgoing_removes & H). apply rbind_Ok_inv in H as (d1 & Hd%plain_d1_removals & H).
  apply Ok_inj in H as <-. rewrite !removes_app. split_and!; [| | |done|by apply removes_plain].
  - intros wr k' ->%list_elem_of_singleton [= <-] Hh. apply bundle_key_is_bundle, bundle_head in Hk; [|done]. rewrite Hk in Hh. discriminate Hh.
  - apply removes_plain. unfold stageWorkerVersionIndexRemove. solve_plain.
  - intros wr k' ->%list_elem_of_singleton _ _. exists (rv_version r). split; [apply list_elem_of_here|by left].
Qed.

Lemma removes_mono ns w vs vs' ws : vs ⊆ vs' → removes ns w vs ws → removes ns w vs' ws.
Proof. intros Hs H wr k Hin Ht Hk. destruct (H wr k Hin Ht Hk) as (v & Hv & Hw). exists v. auto. Qed.

Lemma versions_removes ns w l : names_ok ns w → ∀ ws, stage_all (stage_version_removal ns w) l = Ok ws → removes ns w (map rv_version l) ws.
Proof.
  intros Hn. induction l as [|r l IH]; cbn [stage_all map]; intros ws H.
  - apply Ok_inj in H as <-. by intros wr k ?%elem_of_nil.
  - apply rbind_Ok_inv in H as (w1 & H1%version_removes & H); [|done]. apply rbind_Ok_inv in H as (w2 & H2%IH & H). apply Ok_inj in H as <-.
    apply removes_app. split; (eapply removes_mono; [|done]); set_solver.
Qed.

Lemma versions_deletes ns w l : names_ok ns w → ∀ ws, stage_all (stage_version_removal ns w) l = Ok ws →
  ∃ D, deletes D ws ∧ Forall2 (λ r k, bundle_key ns w (rv_version r) = Ok k) l D.
Proof.
  intros Hn. induction l as [|r l IH]; cbn [stage_all]; intros ws H.
  - apply Ok_inj in H as <-. exists []. split; [apply deletes_loose; constructor|constructor].
  - apply rbind_Ok_inv in H as (w1 & (k & Hk & H1)%version_removal_deletes & H). apply rbind_Ok_inv in H as (w2 & (D & H2 & HD)%IH & H).
    apply Ok_inj in H as <-. exists (k :: D). split; [|by constructor]. apply (deletes_app [k] D); [by apply H1|done].
Qed.

Lemma stageWorkerDelete_shape ns w d rs ws : names_ok ns w → scanned (di_queueConsumerKeys d) → scanned (di_doOwnerKeys d) →
  di_activeRoutes d = map slot_of rs → stageWorkerDelete ns w d = Ok ws →
  ∃ P1 P2 V P3, plain_writes P1 ∧ plain_writes P2 ∧ plain_writes P3 ∧ stage_all (stage_version_removal ns w) (di_retained d) = Ok V ∧
    ws = (slot_removals rs ++ match di_activeVersion d with Some _ => [WHDel (routesKey ns) w] | None => [] end ++ P1
          ++ map (WSRem (nsHostsKey ns)) (di_hostsLosingNsOwnership d) ++ P2) ++ V ++ P3.
Proof.
  intros Hn Hq Ho Hr. unfold stageWorkerDelete. intros H. apply rbind_Ok_inv in H as (V & HV & H).
  apply rbind_Ok_inv in H as (event & _ & H). apply Ok_inj in H as <-. destruct (session_policy_plain ns w Hn) as [Hsp _].
  set (P2 := (if di_namespaceStillActive d then [] else [WSRem NAMESPACES_KEY ns])
    ++ [WDel (cronWorkerKey ns w)] ++ stageCronWorkerRemoved ns w ++ flat_map stageQueueConsumerKeyRemoval (di_queueConsumerKeys d)
    ++ (if di_hasWorkerSecrets d then [WDel (workerSecretsKey ns w)] else [])
    ++ [WDel (workflowDefsKey ns w); WDel (sessionPolicyKey ns w)] ++ map WDel (di_doOwnerKeys d)
    ++ match non_empty (di_doStorageId d) with Some _ => [WDel (doStorageIdKey ns w)] | None => [] end).
  set (P3 := stageWorkerHidden ns w
    ++ (if di_namespaceStillActive d then [WPublish ROUTES_CHANNEL ns] else [WPublish ROUTES_FLUSH_CHANNEL []])
    ++ [WPublish WORKER_DELETE_CHANNEL event] ++ map (WPublish PATTERNS_CHANNEL) (di_affectedHosts d)).
  exists [WSRem (platformDomainDisabledKey ns) w], P2, V, P3. split_and!; [solve_plain| | |done|].
  - unfold P2, stageCronWorkerRemoved. rewrite !plain_writes_app.
    split_and!; try (by apply plain_queue_removals); try (by apply plain_dels); try (solve_plain; fail).
    + destruct (di_namespaceStillActive d); solve_plain.
    + destruct (di_hasWorkerSecrets d); solve_plain.
    + apply plain_cons. split; [intros ? [= <-]; solve_head|]. apply plain_cons. split; [by intros ? [= <-]|apply plain_nil].
    + destruct (non_empty (di_doStorageId d)); [|apply plain_nil]. apply plain_cons. split; [intros ? [= <-]; by apply do_storage_plain|apply plain_nil].
  - unfold P3, stageWorkerHidden. rewrite !plain_writes_app. split_and!; [solve_plain| |by apply plain_cons; split; [|apply plain_nil]|apply plain_publish].
    destruct (di_namespaceStillActive d); (apply plain_cons; split; [done|apply plain_nil]).
  - rewrite Hr, map_map. unfold P2, P3, slot_removals. by rewrite <- !app_assoc.
Qed.

Section taken.
Context (s : store) (ns w : jstr) (rs : list RoutePattern) (B P1 P2 : list write) (losing : list jstr).
Hypothesis Hplain1 : plain_writes P1.
Hypothesis Hplain2 : plain_writes P2.
Hypothesis HB : B = [WHDel (routesKey ns) w] ∨ (B = [] ∧ active_at ns s !! w = None).
Let s1 := apply_writes (slot_removals rs ++ B ++ P1 ++ map (WSRem (nsHostsKey ns)) losing ++ P2) s.

Lemma taken_eq : s1 = apply_writes P2 (apply_writes (map (WSRem (nsHostsKey ns)) losing) (apply_writes P1 (apply_writes B (apply_writes (slot_removals rs) s)))).
Proof. unfold s1. by rewrite !apply_writes_app. Qed.

Lemma taken_removals k s0 : key_head k ≠ js "patterns" → same_at k s0 (apply_writes (slot_removals rs) s0).
Proof. intros Hk. apply apply_writes_other. intros H%removals_targets. congruence. Qed.

Lemma taken_routes k s0 : key_head k ≠ js "routes" → same_at k s0 (apply_writes B s0).
Proof.
  intros Hk. apply apply_writes_other. destruct HB as [->|[-> _]]; [|apply not_elem_of_nil].
  unfold targets. cbn. intros ->%list_elem_of_singleton. by vm_compute in Hk.
Qed.

Lemma taken_index k s0 : key_head k ≠ js "ns-hosts" → same_at k s0 (apply_writes (map (WSRem (nsHostsKey ns)) losing) s0).
Proof. apply (staged_index_same ns k (WSRem (nsHostsKey ns))). done. Qed.

Lemma taken_patterns h slot : patterns_at h s1 !! slot = if decide (Exists (has_slot h slot) rs) then None else patterns_at h s !! slot.
Proof.
  rewrite <- slot_removals_effect. assert (same_at (patternsKey h) (apply_writes (slot_removals rs) s) s1) as (_ & E & _).
  { rewrite taken_eq. etrans; [by apply taken_routes; vm_compute|]. etrans; [by apply (plain_writes_kept P1); auto with tables|].
    etrans; [by apply taken_index; vm_compute|]. by apply plain_writes_kept; auto with tables. }
  unfold patterns_at. by rewrite E.
Qed.

Lemma taken_active ns' : active_at ns' s1 = if decide (ns' = ns) then delete w (active_at ns s) else active_at ns' s.
Proof.
  unfold active_at at 1. assert (same_at (routesKey ns') (apply_writes B (apply_writes (slot_removals rs) s)) s1) as (_ & <- & _).
  { rewrite taken_eq. etrans; [by apply (plain_writes_kept P1); auto with tables|].
    etrans; [by apply taken_index; vm_compute|]. by apply plain_writes_kept; auto with tables. }
  assert (∀ n, hash_at (routesKey n) (apply_writes (slot_removals rs) s) = active_at n s) as Hr.
  { intros n. symmetry. apply taken_removals. by vm_compute. }
  destruct HB as [->|[-> Hno]].
  - change (apply_writes [?x] ?y) with (apply_write x y). cbn [apply_write]. rewrite hash_set_hash, !Hr.
    destruct (decide (ns' = ns)) as [->|Hne]; [by rewrite decide_True|]. rewrite decide_False; [done|]. by intros ?%app_inv_head.
  - change (apply_writes [] ?y) with y. rewrite Hr. destruct (decide (ns' = ns)) as [->|Hne]; [|done]. by rewrite delete_id.
Qed.

Lemma taken_other k : kept_key k = true → set_has [js "patterns"; js "routes"; js "ns-hosts"] (key_head k) = false → same_at k s s1.
Proof.
  intros Ht Hh. assert (∀ h, h ∈ [js "patterns"; js "routes"; js "ns-hosts"] → key_head k ≠ h) as Hne.
  { intros h Hin E. rewrite E in Hh. unfold set_has in Hh. apply Bool.not_true_iff_false in Hh. apply Hh, existsb_exists. exists h. rewrite jeqb_refl.
    split; [by apply list_elem_of_In|done]. }
  rewrite taken_eq. etrans; [apply taken_removals, Hne; set_solver|]. etrans; [apply taken_routes, Hne; set_solver|].
  etrans; [by apply (plain_writes_kept P1)|]. etrans; [apply taken_index, Hne; set_solver|]. by apply plain_writes_kept.
Qed.

Lemma taken_index_at ns' h : h ∈ index_at ns' s1 ↔ h ∈ index_at ns' s ∧ ¬ (ns' = ns ∧ h ∈ losing).
Proof.
  unfold index_at. set (s0 := apply_writes P1 (apply_writes B (apply_writes (slot_removals rs) s))).
  assert (same_at (nsHostsKey ns') s s0) as (_ & _ & Es0 & _).
  { unfold s0. etrans; [by apply taken_removals; vm_compute|]. etrans; [by apply taken_routes; vm_compute|].
    by apply plain_writes_kept; auto with tables. }
  assert (same_at (nsHostsKey ns') (apply_writes (map (WSRem (nsHostsKey ns)) losing) s0) s1) as (_ & _ & <- & _).
  { rewrite taken_eq. by apply plain_writes_kept; auto with tables. }
  rewrite Es0. destruct (decide (ns' = ns)) as [->|Hne].
  - rewrite srem_effect. tauto.
  - assert (same_at (nsHostsKey ns') s0 (apply_writes (map (WSRem (nsHostsKey ns)) losing) s0)) as (_ & _ & <- & _); [|tauto].
    apply apply_writes_other. unfold targets. intros (wr & Hin & Ht)%list_elem_of_omap.
    apply list_elem_of_fmap in Hin as (x & -> & _). injection Ht as E. by apply Hne.
Qed.
End taken.

(** ** A whole delete keeps the invariant *)

Record delete_seen (s : store) (ns w : jstr) (d : DeleteInputs) (rs : list RoutePattern) : Prop := {
  ds_active : active_at ns s !! w = di_activeVersion d;
  ds_routes : own_routes s ns w rs;
  ds_slots : di_activeRoutes d = map slot_of rs;
  ds_retained : ∀ v, di_activeVersion d = Some v → v ∈ map rv_version (di_retained d);
  ds_losing : findHostsLosingNsOwnership ns (di_activeRoutes d)
    (zip (unique (map r_host rs)) (map (λ h, patterns_at h s) (unique (map r_host rs)))) = Ok (di_hostsLosingNsOwnership d);
  ds_queues : scanned (di_queueConsumerKeys d);
  ds_owners : scanned (di_doOwnerKeys d) }.

Section whole.
Context (s : store) (ns w : jstr) (d : DeleteInputs) (rs : list RoutePattern) (ws : list write).
Hypothesis Hinv : routing_inv s.
Hypothesis Hnames : names_ok ns w.
Hypothesis Hseen : delete_seen s ns w d rs.
Hypothesis Hws : stageWorkerDelete ns w d = Ok ws.

(** The worker is gone with its retained bundles, and everything else is as it was. *)
Lemma whole_delete_effect : ∃ D,
  Forall2 (λ r k, bundle_key ns w (rv_version r) = Ok k) (di_retained d) D ∧ routing_inv (apply_writes ws s) ∧
  (∀ ns', active_at ns' (apply_writes ws s) = if decide (ns' = ns) then delete w (active_at ns s) else active_at ns' s) ∧
  (∀ ns', declared_at ns' (apply_writes ws s) = declared_at ns' s) ∧
  ∀ k, is_bundle k = true → (k ∈ D → blank k (apply_writes ws s)) ∧ (k ∉ D → same_at k s (apply_writes ws s)).
Proof.
  destruct Hseen as [Hact Hown Hslots Hret Hlos Hq Ho].
  destruct (stageWorkerDelete_shape ns w d rs ws Hnames Hq Ho Hslots Hws) as (P1 & P2 & V & P3 & HP1 & HP2 & HP3 & HV & ->).
  destruct (versions_deletes ns w _ Hnames V HV) as (D & HD & Hkeys). exists D. split; [done|].
  rewrite apply_writes_app. set (s1 := apply_writes _ s).
  assert (deletes D (V ++ P3)) as Hdel by (rewrite <- (app_nil_r D); apply deletes_app; [done|by apply deletes_loose, plain_loose]).
  assert (∀ k, k ∈ D → ∃ v, bundle_key ns w v = Ok k) as HDk.
  { intros k Hk. apply list_elem_of_lookup in Hk as [i Hi]. destruct (Forall2_lookup_r _ _ _ _ _ Hkeys Hi) as (r & _ & E). eauto. }
  assert (∀ k, k ∈ D → is_bundle k = true) as HDb by (intros k (v & Hv)%HDk; by eapply bundle_key_is_bundle).
  assert (∀ k, table_key k = true → is_bundle k = false → same_at k s1 (apply_writes (V ++ P3) s1)) as Htab.
  { intros k Hk Hb. apply (deletes_effect D); [done|done|]. intros Hin%HDb. congruence. }
  set (B := match di_activeVersion d with Some _ => [WHDel (routesKey ns) w] | None => [] end) in *.
  assert (B = [WHDel (routesKey ns) w] ∨ (B = [] ∧ active_at ns s !! w = None)) as HB.
  { unfold B. rewrite Hact. destruct (di_activeVersion d); auto. }
  assert (∀ k, is_bundle k = true → same_at k s s1) as Hb1.
  { intros k Hk. apply (taken_other s ns w rs B P1 P2 _ HP1 HP2 HB); [auto with tables|by rewrite (bundle_head k Hk)]. }
  assert (∀ ns', active_at ns' s1 = if decide (ns' = ns) then delete w (active_at ns s) else active_at ns' s) as Ha1
    by exact (taken_active s ns w rs B P1 P2 _ HP1 HP2 HB).
  assert (∀ ns', declared_at ns' s1 = declared_at ns' s) as Hd1.
  { intros ns'. symmetry. apply (taken_other s ns w rs B P1 P2 _ HP1 HP2 HB); [auto with tables|by vm_compute]. }
  rewrite Hslots in Hlos. destruct (losing_spec s ns rs _ _ Hinv Hlos) as [Hl1 Hl2].
  assert (routing_inv s1) as Hinv1.
  { apply (take_down_inv s s1 ns w rs (di_hostsLosingNsOwnership d)); try done.
    - exact (taken_patterns s ns w rs B P1 P2 _ HP1 HP2 HB).
    - exact (taken_index_at s ns w rs B P1 P2 _ HP1 HP2 HB).
    - intros h Hh. by apply (Hl1 h).
    - intros h Hh. apply Hl2. by apply elem_of_unique. }
  split_and!.
  - apply (drop_bundles_inv s1 _ D Hinv1).
    + intros k Hk. split; [by apply HDb|]. apply (deletes_effect D); auto with tables.
    + intros k Hk Hn. by apply (deletes_effect D).
    + intros ns' w' v k Hv Hk (v' & Hk')%HDk. destruct (ri_active _ Hinv1 _ _ _ Hv) as [Hn' _].
      destruct (bundle_key_inj _ _ _ _ _ _ _ Hn' Hnames Hk Hk') as (-> & -> & _).
      rewrite Ha1, decide_True in Hv by done. by rewrite lookup_delete_eq in Hv.
  - intros ns'. rewrite <- Ha1. symmetry. apply Htab; [auto with tables|done].
  - intros ns'. rewrite <- Hd1. symmetry. apply Htab; [auto with tables|done].
  - intros k Hk. destruct (deletes_effect D (V ++ P3) s1 k Hdel) as [H1 H2]; [auto with tables|]. split; [done|].
    intros Hn. etrans; [by apply Hb1|by apply H2].
Qed.
End whole.

(** The keys of the retained versions. *)
Lemma deleted_keys ns w (retained : list RetainedVersion) (D : list jstr) k :
  Forall2 (λ r k, bundle_key ns w (rv_version r) = Ok k) retained D →
  k ∈ D ↔ ∃ v, v ∈ map rv_version retained ∧ bundle_key ns w v = Ok k.
Proof.
  intros HD. split.
  - intros Hk. apply list_elem_of_lookup in Hk as [i Hk]. destruct (Forall2_lookup_r _ _ _ _ _ HD Hk) as (r & Hr & E).
    exists (rv_version r). split; [|done]. apply list_elem_of_fmap. exists r. split; [done|]. by eapply list_elem_of_lookup_2.
  - intros (v & Hv & Hk). apply list_elem_of_fmap in Hv as (r & -> & Hr). apply list_elem_of_lookup in Hr as [i Hr].
    destruct (Forall2_lookup_l _ _ _ _ _ HD Hr) as (k' & Hk' & E). rewrite Hk in E. apply Ok_inj in E as ->. by eapply list_elem_of_lookup_2.
Qed.

(** ** What a collection has seen *)

Section collection.
Context (past : store → Prop) (s : store) (ns w : jstr).

(** The metadata of a version, read from some store before. *)
Definition meta_read (ver : jstr) (meta : list (jstr * jsval)) : Prop :=
  ∃ s0 k raw, past s0 ∧ bundle_key ns w ver = Ok k ∧ hash_at k s0 !! js "__meta__" = Some raw ∧ parseBundleMeta (JStr raw) = Ok meta.

Record collected_ok (d : DeleteInputs) : Prop := {
  co_retained : map rv_version (di_retained d) = di_retainedVersions d;
  co_routes : match di_activeVersion d with
              | None => di_activeRoutes d = []
              | Some v => ∃ meta, meta_read v meta ∧ normalizeActiveRoutes meta = Ok (di_activeRoutes d)
              end;
  co_hosts : di_affectedHosts d = unique (map rs_host (di_activeRoutes d));
  co_queues : scanned (di_queueConsumerKeys d);
  co_owners : scanned (di_doOwnerKeys d) }.

Lemma raw_meta_spec (W : list jstr) ver (Q : option jstr → list jstr → Prop) :
  (∀ s0 k, past s0 → bundle_key ns w ver = Ok k → Q (hash_at k s0 !! js "__meta__") W) →
  rd_spec past s W (let+ key := rd_lift (bundle_key ns w ver) in rd_ask (QHGet key (js "__meta__"))) Q.
Proof. intros HQ. rd_step rd_spec_lift. intros k Hk. apply rd_spec_ask. intros s0 Hs0 _. cbn [answer]. by apply HQ. Qed.

(** A version of a batch with the metadata that was read for it. *)
Definition raw_read (ver : jstr) (x : jstr * option jstr * gset jstr) : Prop :=
  x.1.1 = ver ∧ ∀ raw, x.1.2 = Some raw → ∃ s0 k, past s0 ∧ bundle_key ns w ver = Ok k ∧ hash_at k s0 !! js "__meta__" = Some raw.

Lemma zip_Forall2 {X Y Z'} (l : list X) (ys : list Y) (zs : list Z') (P : X → Y → Prop) :
  Forall2 P l ys → length zs = length l → Forall2 (λ x t, t.1.1 = x ∧ P x t.1.2) l (zip (zip l ys) zs).
Proof.
  intros H. revert zs. induction H as [|x y l ys Hxy _ IH]; intros [|z zs] Hl; try done.
  constructor; [done|]. apply IH. by injection Hl.
Qed.

Lemma read_retained_spec (W : list jstr) (versions : list jstr) (Q : list (jstr * option jstr * gset jstr) → list jstr → Prop) :
  (∀ l W', Forall2 raw_read versions l → Q l W') → rd_spec past s W (read_retained ns w versions) Q.
Proof.
  intros HQ. unfold read_retained. apply rd_spec_bind. cbv beta.
  apply (rd_spec_map _ _ _ (λ ver o, ∀ raw, o = Some raw → ∃ s0 k, past s0 ∧ bundle_key ns w ver = Ok k ∧ hash_at k s0 !! js "__meta__" = Some raw)).
  { intros ver W1 _ _. apply raw_meta_spec. intros s0 k H1 H2 raw H3. by exists s0, k. }
  intros metas W1 _ Hm. apply rd_spec_bind. cbv beta.
  apply (rd_spec_map _ _ _ (λ _ _, True)); [intros ver W2 _ _; by apply rd_spec_skip|]. intros refs W2 _ Hr%Forall2_length.
  apply rd_spec_ret, HQ. exact (zip_Forall2 _ _ _ _ Hm (eq_sym Hr)).
Qed.

Lemma Forall2_concat_chunks {X Y} (P : X → Y → Prop) (l : list X) (bs : list (list Y)) :
  Forall2 (Forall2 P) (delete_batches l) bs → Forall2 P l (concat bs).
Proof.
  intros H. assert (Forall2 P (concat (delete_batches l)) (concat bs)) as H'.
  { induction H; cbn; [constructor|]. by apply Forall2_app. }
  unfold delete_batches in H'. by rewrite concat_chunks in H' by (unfold DELETE_READ_BATCH_SIZE; lia).
Qed.

Lemma parse_retained_spec (W : list jstr) (ver : jstr) (x : jstr * option jstr * gset jstr) (Q : RetainedVersion → list jstr → Prop) : raw_read ver x →
  (∀ r W', rv_version r = ver → meta_read ver (rv_meta r) → Q r W') → rd_spec past s W (parse_retained ns w x) Q.
Proof.
  intros [<- Hx] HQ. destruct x as [[ver raw] refs]. cbn [fst snd] in *. unfold parse_retained. rd_step rd_spec_skip. intros _ W1 _.
  rd_step rd_spec_lift. intros meta Hm. apply rd_spec_ret, HQ; [done|]. cbn [rv_meta]. destruct raw as [raw|]; [|done].
  destruct (Hx raw eq_refl) as (s0 & k & H1 & H2 & H3). by exists s0, k, raw.
Qed.

Definition retained_ok (versions : list jstr) (retained : list RetainedVersion) : Prop :=
  Forall2 (λ ver r, rv_version r = ver ∧ meta_read ver (rv_meta r)) versions retained.

Lemma read_all_spec (W : list jstr) (versions : list jstr) (Q : list (list (jstr * option jstr * gset jstr)) → list jstr → Prop) :
  (∀ l W', Forall2 raw_read versions (concat l) → Q l W') → rd_spec past s W (rd_map (read_retained ns w) (delete_batches versions)) Q.
Proof.
  intros HQ. apply (rd_spec_map _ _ _ (Forall2 raw_read)).
  - intros batch W1 _ _. apply read_retained_spec. auto.
  - intros l W1 _ Hr%Forall2_concat_chunks. by apply HQ.
Qed.

Lemma parse_all_spec (W : list jstr) (versions : list jstr) (l : list (jstr * option jstr * gset jstr)) (Q : list RetainedVersion → list jstr → Prop) : Forall2 raw_read versions l →
  (∀ r W', retained_ok versions r → Q r W') → rd_spec past s W (rd_map (parse_retained ns w) l) Q.
Proof.
  intros Hr HQ. apply (rd_spec_map _ _ _ (λ x r, rv_version r = x.1.1 ∧ meta_read x.1.1 (rv_meta r))).
  - intros x W2 Hx _. apply list_elem_of_lookup in Hx as [i Hi]. destruct (Forall2_lookup_r _ _ _ _ _ Hr Hi) as (ver & _ & Hv).
    eapply (parse_retained_spec _ ver); [done|]. destruct Hv as [<- _]. auto.
  - intros rs W2 _ Hl. apply HQ. unfold retained_ok. clear -Hr Hl. revert rs Hl.
    induction Hr as [|ver x versions reads [E _] _ IH]; intros rs Hl; inversion Hl as [|? r ? l' Hr' Hl']; subst; constructor; [done|]. by apply IH.
Qed.

Lemma active_meta_spec (W : list jstr) (versions : list jstr) (retained : list RetainedVersion) v (Q : list (jstr * jsval) → list jstr → Prop) : retained_ok versions retained →
  (∀ meta W', meta_read v meta → Q meta W') → rd_spec past s W (active_meta ns w v retained) Q.
Proof.
  intros Hret HQ. unfold active_meta. destruct (find _ retained) as [r|] eqn:E.
  - apply find_some in E as [Hin E%jeqb_eq]. apply rd_spec_ret, HQ. apply list_elem_of_In, list_elem_of_lookup in Hin as [i Hi].
    destruct (Forall2_lookup_r _ _ _ _ _ Hret Hi) as (ver & _ & E' & Hm). congruence.
  - rd_step rd_spec_lift. intros k Hk. rd_step rd_spec_ask. intros s0 Hs0 _. cbn [answer]. rd_step rd_spec_skip. intros _ W1 _.
    apply rd_spec_lift. intros meta Hm. apply HQ. destruct (hash_at k s0 !! js "__meta__") as [raw|] eqn:Er; [|done]. by exists s0, k, raw.
Qed.

Lemma queue_keys_spec (W : list jstr) pages (Q : list jstr → list jstr → Prop) :
  (∀ l W', W ⊆ W' → scanned l → Q l W') → rd_spec past s W (scanQueueConsumerKeysForWorker pages ns w) Q.
Proof.
  intros HQ. unfold scanQueueConsumerKeysForWorker. apply rd_spec_bind. cbv beta.
  apply (rd_spec_map _ _ _ (λ _ keys, scanned keys)).
  - intros page W1 _ _. cbv zeta. set (keys := unique _). rd_step rd_spec_skip. intros workers W2 _. apply rd_spec_ret.
    apply (scanned_prefix (js "queue-consumer") (ns ++ js ":")); [by vm_compute; set_solver|by vm_compute|].
    intros k Hk. apply list_elem_of_fmap in Hk as ([k' o] & -> & [_ Hz]%list_elem_of_filter). apply elem_of_zip_l in Hz. cbn [fst].
    apply elem_of_unique, match_prefix_elem in Hz. exact Hz.
  - intros found W1 HW1 Hf. apply rd_spec_ret, HQ; [done|]. unfold scanned. apply Forall_forall. intros k Hk.
    rewrite elem_of_unique in Hk. apply list_elem_of_In, in_concat in Hk as (keys & Hin & Hk). apply list_elem_of_In, list_elem_of_lookup in Hin as [i Hi].
    destruct (Forall2_lookup_r _ _ _ _ _ Hf Hi) as (page & _ & Hs). unfold scanned in Hs. rewrite Forall_forall in Hs.
    by apply Hs, list_elem_of_In.
Qed.

Lemma collect_spec (W : list jstr) pages (Q : DeleteInputs → list jstr → Prop) :
  (∀ d W', collected_ok d → Q d W') → rd_spec past s W (collectDeleteInputs pages ns w) Q.
Proof.
  intros HQ. unfold collectDeleteInputs. rd_step rd_spec_skip. intros storage W1 _. rd_step rd_spec_skip. intros count W2 _. cbv zeta.
  rd_step queue_keys_spec. intros queues W3 _ Hq. rd_step rd_spec_skip. intros versions W4 _.
  rd_step read_all_spec. intros reads W5 Hreads. rd_step (parse_all_spec W5 versions); [exact Hreads|]. intros retained W6 Hret.
  rd_step rd_spec_skip. intros hash W7 _. cbv zeta. set (active := non_empty (hash !! w)).
  apply rd_spec_bind. cbv beta.
  assert (∀ routes W', match active with None => routes = [] | Some v => ∃ meta, meta_read v meta ∧ normalizeActiveRoutes meta = Ok routes end →
    rd_spec past s W' (let+ hostPatternReads := rd_map (λ h, rd_ask (QHGetAll (patternsKey h))) (unique (map rs_host routes)) in
      let+ losing := rd_lift (findHostsLosingNsOwnership ns routes (zip (unique (map rs_host routes)) hostPatternReads)) in
      let+ hasWorkerSecrets := rd_ask (QExists (workerSecretsKey ns w)) in
      let+ hasWorkflowDefs := rd_ask (QExists (workflowDefsKey ns w)) in
      rd_ret (MkDeleteInputs queues storage count (scanDoOwnerKeys (pg_owners pages) storage) versions retained active routes
        (unique (map rs_host routes)) losing (others_active w hash) hasWorkerSecrets hasWorkflowDefs)) Q) as Hrest.
  { intros routes W' Hroutes. rd_step rd_spec_skip. intros hp W8 _. rd_step rd_spec_lift. intros losing _. rd_step rd_spec_skip. intros sec W9 _.
    rd_step rd_spec_skip. intros defs W10 _. apply rd_spec_ret, HQ. split; cbn; [|done|done|done|apply scanned_owners].
    clear -Hret. induction Hret as [|ver r vs rs [E _] _ IH]; [done|]. cbn [map]. by rewrite E, IH. }
  destruct active as [v|]; [|by apply rd_spec_ret, Hrest].
  rd_step (active_meta_spec W7 versions); [exact Hret|]. intros meta W8 Hm. apply rd_spec_lift. intros routes Hroutes. apply Hrest. eauto.
Qed.
End collection.

(** ** The commit of a whole delete *)

Lemma routing_meta raw meta : routingBundleMeta (JStr raw) = Ok meta → parseBundleMeta (JStr raw) = Ok meta.
Proof.
  unfold routingBundleMeta. intros (m & Hm & H)%rbind_Ok_inv. apply rbind_Ok_inv in H as (_ & _ & H). cbv zeta in H.
  destruct (_ || _); [done|]. by apply Ok_inj in H as <-.
Qed.

Lemma non_empty_active s ns w : routing_inv s → non_empty (active_at ns s !! w) = active_at ns s !! w.
Proof.
  intros Hi. destruct (active_at ns s !! w) as [[|c v]|] eqn:E; try done.
  destruct (ri_active _ Hi _ _ _ E) as (_ & rs & Hb & _). by rewrite (eq_refl : bundle_routes ns w [] s = None) in Hb.
Qed.

(** The routes collected are those of the version that is active at the commit. *)
Lemma collected_routes past s ns w d : routing_inv s → (∀ s0, past s0 → settled s0 s) → collected_ok past ns w d →
  active_at ns s !! w = di_activeVersion d → ∃ rs, own_routes s ns w rs ∧ di_activeRoutes d = map slot_of rs.
Proof.
  intros Hi Hp Hc Ha. pose proof (co_routes _ _ _ _ Hc) as Hr. destruct (di_activeVersion d) as [v|] eqn:Ev.
  - destruct Hr as (meta & (s0 & k & raw & Hs0 & Hk & Hraw & Hm) & Hn). destruct (ri_active _ Hi _ _ _ Ha) as (_ & rs & Hb & _).
    exists rs. split; [right; by exists v|]. unfold bundle_routes in Hb. rewrite Hk in Hb.
    rewrite <- (active_settled s0 s ns w v k Hi (Hp s0 Hs0) Ha Hk) in Hb by (intros E; by rewrite E in Hraw).
    unfold routes_in in Hb. rewrite Hraw in Hb. cbn [mbind option_bind] in Hb.
    destruct (routingBundleMeta (JStr raw)) as [meta'|] eqn:Em; [|done]. cbn [rbind] in Hb. apply routing_meta in Em.
    rewrite Hm in Em. apply Ok_inj in Em as <-. destruct (list_field "routes" route_of meta) as [rs'|] eqn:El; [|done].
    injection Hb as ->. by eapply normalize_routes.
  - exists []. split; [by left|done].
Qed.

Lemma map_host_slots rs : map rs_host (map slot_of rs) = map r_host rs.
Proof. by rewrite map_map. Qed.

Definition whole_writes (s : store) (ns w : jstr) (ws : list write) : Prop :=
  ∃ d rs, delete_seen s ns w d rs ∧ di_retainedVersions d = zrange (zset_at (workerVersionsKey ns w) s) ∧
    map rv_version (di_retained d) = di_retainedVersions d ∧ stageWorkerDelete ns w d = Ok ws ∧
    ∀ v, v ∈ di_retainedVersions d → set_at (referrersKey ns w v) s = ∅.

Lemma exec_spec (past : store → Prop) s (W : list jstr) ns w pages token task d : routing_inv s → (∀ s0, past s0 → settled s0 s) →
  collected_ok past ns w d →
  rd_spec past s W (runSessionEXEC pages ns w token task d) (λ pl _, commits_with (whole_writes s ns w) pl).
Proof.
  intros Hi Hp Hc. unfold runSessionEXEC. rd_step rd_spec_lift. intros keys Hkeys.
  apply rbind_Ok_inv in Hkeys as (vs & Hvs & Hkeys). apply Ok_inj in Hkeys.
  assert (routesKey ns ∈ keys ∧ workerVersionsKey ns w ∈ keys ∧ ∀ h, h ∈ di_affectedHosts d → patternsKey h ∈ keys) as (K1 & K2 & K3).
  { subst keys. split_and!; [set_solver|set_solver|]. intros h Hh. rewrite !elem_of_app. right. right. right. left.
    apply list_elem_of_fmap. by exists h. }
  assert (∀ v, v ∈ di_retainedVersions d → referrersKey ns w v ∈ keys) as K4.
  { intros v Hv. subst keys. rewrite !elem_of_app. do 5 right. clear -Hv Hvs. revert vs Hvs. induction (di_retainedVersions d) as [|v' l IH]; [by apply elem_of_nil in Hv|].
    intros vs (ks & Hk & H)%rbind_Ok_inv. apply rbind_Ok_inv in H as (rest & Hrest & H). apply Ok_inj in H as <-.
    apply rbind_Ok_inv in Hk as (key & _ & Hk). apply Ok_inj in Hk as <-. rewrite elem_of_app. apply elem_of_cons in Hv as [->|Hv]; [left|right; by apply IH].
    apply list_elem_of_further, list_elem_of_here. }
  clear Hvs.
  clear Hkeys. rd_step rd_spec_watch. rd_step rd_spec_skip. intros _ W1 HW1.
  rd_step rd_spec_ask_watched; [apply HW1; cbn [query_key]; set_solver|]. cbn [answer].
  case_bool_decide as Ev; [|apply rd_spec_throw]. cbn [negb].
  rd_step rd_spec_ask_watched; [apply HW1; cbn [query_key]; set_solver|]. cbn [answer]. cbv zeta.
  change (hash_at (routesKey ns) s) with (active_at ns s). rewrite (non_empty_active s ns w Hi).
  case_bool_decide as Ea; [|apply rd_spec_throw]. cbn [negb].
  destruct (match active_at ns s !! w with Some v => _ | None => _ end) eqn:Er; [apply rd_spec_throw|].
  rd_step rd_spec_map_watched; [intros h Hh; apply HW1; cbn [query_key]; set_solver|]. cbn [answer].
  change (map (λ h, hash_at (patternsKey h) s)) with (map (λ h, patterns_at h s)).
  rd_step rd_spec_lift. intros losing Hl. rd_step rd_spec_skip. intros sec W2 HW2. rd_step rd_spec_skip. intros defs W3 HW3.
  destruct (_ || _); [apply rd_spec_throw|]. rd_step rd_spec_map_watched; [intros v Hv; apply HW3, HW2, HW1; cbn [query_key]; set_solver|]. cbn [answer].
  rd_step rd_spec_skip. intros count W5 _.
  destruct (negb _); [apply rd_spec_throw|]. destruct (negb _); [apply rd_spec_throw|].
  rd_step rd_spec_skip. intros queues W6 _. destruct (negb _); [apply rd_spec_throw|]. destruct (existsb _ (map _ _)) eqn:Eref; [apply rd_spec_throw|].
  rd_step rd_spec_lift. intros _ _. rd_step rd_spec_skip. intros consumers W7 _. destruct (existsb _ consumers); [apply rd_spec_throw|].
  rd_step rd_spec_lift. intros ws Hws. apply rd_spec_ret. destruct (collected_routes past s ns w d Hi Hp Hc Ea) as (rs & Hown & Hslots).
  match type of Hws with stageWorkerDelete _ _ ?d' = _ => exists d', rs end.
  split; [|split; [symmetry; exact Ev|split; [exact (co_retained _ _ _ _ Hc)|split; [exact Hws|]]]].
  2: { intros v Hv. apply Bool.not_true_iff_false in Eref. destruct (decide (set_at (referrersKey ns w v) s = ∅)) as [|Hne]; [done|].
       destruct Eref. apply existsb_exists. exists (set_at (referrersKey ns w v) s). rewrite bool_decide_eq_false_2 by done. split; [|done].
       apply in_map_iff. exists v. split; [done|by apply list_elem_of_In]. }
  split; cbn; [done|done|done| | |by apply (co_queues _ _ _ _ Hc)|by apply (co_owners _ _ _ _ Hc)].
  - intros v Hv. rewrite (co_retained _ _ _ _ Hc), <- Ev. rewrite Ea, Hv in Er. apply negb_false_iff, bool_decide_eq_true in Er. done.
  - pose proof (co_hosts _ _ _ _ Hc) as Hh. rewrite Hslots in Hh. rewrite map_host_slots in Hh. by rewrite <- Hh.
Qed.

(** The clean-up after an absent worker touches no table; at its commit the worker has no
    active version and no version in the index. *)
Definition residual_writes (s : store) (ns w : jstr) (ws : list write) : Prop :=
  plain_writes ws ∧ truthy_text (active_at ns s !! w) = false ∧ zrange (zset_at (workerVersionsKey ns w) s) = [].

Lemma residual_spec (past : store → Prop) s (W : list jstr) ns w pages token d : names_ok ns w → scanned (di_doOwnerKeys d) →
  rd_spec past s W (deleteResidualDoRedis pages ns w token d) (λ pl _, commits_with (residual_writes s ns w) pl).
Proof.
  intros Hn Ho. unfold deleteResidualDoRedis. rd_step rd_spec_watch. rd_step rd_spec_skip. intros _ W1 HW1.
  rd_step rd_spec_ask_watched; [apply HW1; cbn [query_key]; set_solver|]. cbn [answer]. change (hash_at (routesKey ns) s) with (active_at ns s).
  rd_step rd_spec_ask_watched; [apply HW1; cbn [query_key]; set_solver|]. cbn [answer]. rd_step rd_spec_skip. intros sec W4 _.
  rd_step rd_spec_skip. intros defs W5 _. rd_step rd_spec_skip. intros policy W6 _. destruct (_ || _) eqn:Eabsent; [apply rd_spec_throw|].
  apply orb_false_iff in Eabsent as [[[Hact Hvs%negb_false_iff%bool_decide_eq_true]%orb_false_iff _]%orb_false_iff _].
  rd_step rd_spec_skip. intros storage W7 _. destruct (negb _); [apply rd_spec_throw|]. destruct (negb _); [apply rd_spec_throw|]. cbv zeta.
  destruct (_ && _); [by apply rd_spec_ret|]. rd_step rd_spec_lift. intros event _. apply rd_spec_ret. cbn [commits_with].
  split; [|done]. destruct (session_policy_plain ns w Hn) as [Hsp _]. rewrite !plain_writes_app. split_and!; [by apply plain_dels| | |].
  - destruct (truthy_text (di_doStorageId d)); [|apply plain_nil]. apply plain_cons. split; [intros ? [= <-]; by apply do_storage_plain|apply plain_nil].
  - destruct policy; [|apply plain_nil]. apply plain_cons. split; [by intros ? [= <-]|apply plain_nil].
  - apply plain_cons. split; [done|apply plain_nil].
Qed.

#[local] Abbreviation is_bundle_key := (λ k, is_bundle k = true).
#[local] Abbreviation keeps := (keeps_invariant control_inv bundles_settled is_bundle_key).

(** Deletions free keys for good. *)
Lemma dropped_settled (D : list jstr) e s s' : control_inv e s → routing_inv s' →
  (∀ k, is_bundle k = true → (k ∈ D → blank k s') ∧ (k ∉ D → same_at k s s')) →
  control_inv (∅ ∪ e) s' ∧ bundles_settled e s (∅ ∪ e) s' ∧ ∀ k, is_bundle k = true → k ∉ (∅ : gset jstr) → blank k s → blank k s'.
Proof.
  intros [_ Hw] Hi HD. rewrite union_empty_l_L. split_and!.
  - split; [done|]. intros k Hk Hb. destruct (HD k Hk) as [H1 H2]. destruct (decide (k ∈ D)) as [Hin|Hin]; [by destruct Hb; apply H1|].
    apply Hw; [done|]. intros Hb'. apply Hb. by eapply blank_same; [apply H2|].
  - split; [done|]. intros k Hk _. destruct (HD k Hk) as [H1 H2]. destruct (decide (k ∈ D)); auto.
  - intros k Hk _ Hb. destruct (HD k Hk) as [H1 H2]. destruct (decide (k ∈ D)); [by apply H1|]. by eapply blank_same; [apply H2|].
Qed.

Lemma plain_keeps e s ws : control_inv e s → plain_writes ws →
  control_inv (∅ ∪ e) (apply_writes ws s) ∧ bundles_settled e s (∅ ∪ e) (apply_writes ws s) ∧
  ∀ k, is_bundle k = true → k ∉ (∅ : gset jstr) → blank k s → blank k (apply_writes ws s).
Proof.
  intros Hi Hw. assert (∀ k, table_key k = true → same_at k s (apply_writes ws s)) as Hs
    by (intros k Hk; apply plain_writes_kept; auto with tables).
  apply (dropped_settled []); [done| |intros k Hk; split; [by intros ?%elem_of_nil|auto with tables]].
  apply (drop_bundles_inv s _ []); [apply Hi|by intros k ?%elem_of_nil|auto|intros; apply not_elem_of_nil].
Qed.

Section requests.
Variable pages : Z → ScanPages.
Variable workflowCheck : Z → result control_error unit.
Variable newTaskId : Z → jstr.

Lemma delete_spec (past : store → Prop) s ns w token now ws a W : names_ok ns w → routing_inv s → (∀ s0, past s0 → settled s0 s) →
  reads_at past s [] (executeWholeDelete pages workflowCheck newTaskId ns w token now) (Ok (Commit ws a)) W →
  residual_writes s ns w ws ∨ whole_writes s ns w ws.
Proof.
  intros Hn Hi Hp. apply (rd_spec_elim _ _ _ _ (λ pl _, commits_with (λ ws, residual_writes s ns w ws ∨ whole_writes s ns w ws) pl)).
  unfold executeWholeDelete. rd_step collect_spec. intros d W1 Hd. rd_step rd_spec_lift. intros _ _. rd_step rd_spec_lift. intros b _.
  destruct b; [apply rd_spec_throw|]. destruct (negb _).
  - rd_step rd_spec_skip. intros _ W2 _. eapply rd_spec_mono; [apply residual_spec; [done|by apply (co_owners _ _ _ _ Hd)]|].
    intros [ws' a'|a'] W3; cbn; auto.
  - destruct (existsb _ _); [apply rd_spec_throw|]. rd_step rd_spec_skip. intros _ W2 _.
    eapply rd_spec_mono; [by apply exec_spec|]. intros [ws' a'|a'] W3; cbn; auto.
Qed.

Lemma delete_keeps ns w token : names_ok ns w → keeps ∅ (executeWholeDelete pages workflowCheck newTaskId ns w token).
Proof.
  intros Hn. split; [by intros k ?%elem_of_empty|]. intros now e s ws a W Hi _ _ Hr. pose proof Hi as [Hri _].
  apply delete_spec in Hr as [[Hw _]|(d & rs & Hseen & _ & _ & Hws & _)]; [by apply plain_keeps| |done..|by apply before_settled].
  destruct (whole_delete_effect s ns w d rs ws Hri Hn Hseen Hws) as (D & _ & Hi' & _ & _ & HD). by apply (dropped_settled D).
Qed.

End requests.

(** ** The commit of a version delete *)

Definition version_writes (s : store) (ns w v : jstr) (ws : list write) : Prop :=
  ∃ k, bundle_key ns w v = Ok k ∧ active_at ns s !! w ≠ Some v ∧ deletes [k] ws ∧
    set_at (referrersKey ns w v) s = ∅ ∧ removes ns w [v] ws ∧ v ∈ zrange (zset_at (workerVersionsKey ns w) s).

Lemma version_delete_spec (past : store → Prop) newTaskId s ns w v token now ws a W : names_ok ns w →
  reads_at past s [] (executeVersionDelete newTaskId ns w v token now) (Ok (Commit ws a)) W → version_writes s ns w v ws.
Proof.
  intros Hn. apply (rd_spec_elim _ _ _ _ (λ pl _, commits_with (version_writes s ns w v) pl)).
  unfold executeVersionDelete. rd_step rd_spec_lift. intros k Hk. rd_step rd_spec_watch. rd_step rd_spec_skip. intros _ W1 HW1.
  rd_step rd_spec_ask_watched; [apply HW1; cbn [query_key]; set_solver|]. cbn [answer]. change (hash_at (routesKey ns) s) with (active_at ns s).
  destruct (decide _) as [|Ha]; [apply rd_spec_throw|].
  rd_step rd_spec_ask_watched; [apply HW1; cbn [query_key]; set_solver|]. cbn [answer]. set (versions := zrange _).
  destruct (negb (bool_decide (v ∈ versions))) eqn:Hlisted; [apply rd_spec_throw|]. apply negb_false_iff, bool_decide_eq_true in Hlisted.
  destruct (match non_empty _ with Some _ => _ | None => _ end); [apply rd_spec_throw|].
  rd_step rd_spec_skip. intros raw W3 HW3. rd_step rd_spec_lift. intros meta _.
  rd_step rd_spec_ask_watched; [apply HW3, HW1; cbn [query_key]; set_solver|]. cbn [answer].
  case_bool_decide as Eref; [|apply rd_spec_throw]. cbn [negb]. cbv zeta. rd_step rd_spec_skip. intros skipCleanup W5 _.
  rd_step rd_spec_skip. intros sec W6 _. rd_step rd_spec_skip. intros defs W7 _. rd_step rd_spec_lift. intros ws' Hws. apply rd_spec_ret.
  apply rbind_Ok_inv in Hws as (out & Ho & Hws). apply rbind_Ok_inv in Hws as (d1 & Hd%plain_d1_removals & Hws). apply Ok_inj in Hws as <-.
  assert (∀ b c : bool, plain_writes (if b then stageWorkerVersionIndexDelete ns w ++ (if c then [] else stageWorkerHidden ns w) else [])) as Hlast.
  { intros b c. destruct b; [|apply plain_nil]. apply plain_writes_app. split; [unfold stageWorkerVersionIndexDelete; solve_plain|].
    destruct c; [apply plain_nil|]. unfold stageWorkerHidden. solve_plain. }
  assert (plain_writes (stageWorkerVersionIndexRemove ns w v)) as Hidx by (unfold stageWorkerVersionIndexRemove; solve_plain).
  exists k. split_and!; [done|done| |done| |done].
  2: { rewrite !removes_app. split_and!; [|by apply removes_plain| |by eapply outgoing_removes|by apply removes_plain|by apply removes_plain].
       - intros wr k' ->%list_elem_of_singleton [= <-] Hh. apply bundle_key_is_bundle, bundle_head in Hk; [|done]. rewrite Hk in Hh. discriminate Hh.
       - intros wr k' ->%list_elem_of_singleton _ _. exists v. split; [apply list_elem_of_here|by left]. }
  apply (deletes_app [k] [] [WDel k]).
  - split; [intros k' ->%list_elem_of_singleton; apply list_elem_of_here|].
    intros wr k' ->%list_elem_of_singleton [= <-] _. split; [apply list_elem_of_here|done].
  - apply deletes_loose. rewrite !loose_writes_app. apply outgoing_removals_referrers in Ho.
    split_and!; [by apply plain_loose|by repeat constructor|by apply referrer_loose|by apply plain_loose|by apply plain_loose].
Qed.

Lemma version_delete_effect s ns w v k ws : routing_inv s → names_ok ns w → bundle_key ns w v = Ok k →
  active_at ns s !! w ≠ Some v → deletes [k] ws →
  routing_inv (apply_writes ws s) ∧ (∀ k', table_key k' = true → k' ≠ k → same_at k' s (apply_writes ws s)) ∧ blank k (apply_writes ws s).
Proof.
  intros Hi Hn Hk Ha Hd. pose proof (bundle_key_is_bundle _ _ _ _ Hn Hk) as Hb.
  assert (∀ k', table_key k' = true → k' ∉ [k] → same_at k' s (apply_writes ws s)) as Hs.
  { intros k' Hk' Hne. by apply (deletes_effect [k]). }
  assert (blank k (apply_writes ws s)) as Hbl by (apply (deletes_effect [k]); [done|auto with tables|apply list_elem_of_here]).
  split_and!; [|intros k' Hk' Hne; apply Hs; [done|set_solver]|done].
  apply (drop_bundles_inv s _ [k]); [done|by intros ? ->%list_elem_of_singleton|done|].
  intros ns' w' v' k' Hv Hk' ->%list_elem_of_singleton. destruct (ri_active _ Hi _ _ _ Hv) as [Hn' _].
  destruct (bundle_key_inj _ _ _ _ _ _ _ Hn' Hn Hk' Hk) as (-> & -> & ->). done.
Qed.

Lemma version_delete_keeps newTaskId ns w v token : names_ok ns w → keeps ∅ (executeVersionDelete newTaskId ns w v token).
Proof.
  intros Hn. split; [by intros k ?%elem_of_empty|]. intros now e s ws a W Hi _ _ Hr. pose proof Hi as [Hri _].
  apply version_delete_spec in Hr as (k & Hk & Ha & Hd & _); [|done].
  destruct (version_delete_effect s ns w v k ws Hri Hn Hk Ha Hd) as (Hi' & Hs & Hb). apply (dropped_settled [k]); [done|done|].
  intros k' Hk'. split; [by intros ->%list_elem_of_singleton|]. intros Hne. apply Hs; [auto with tables|set_solver].
Qed.
