(* ===== verification/Bundle.v ===== *)
(** * Bundles: bindings, modules and metadata of a deploy

    Models src/control/bindings.js, src/control/bundle.js, the canonical base64 check of
    src/shared/base64.js, the flag tables of src/shared/workerd-compat-flags.js and the size
    checks of src/control/workflow-definitions.js.

    The deploy handler turns every plain [Error] of these functions into a 400
    [invalid_request], so that is what they are here; errors with a code of their own keep it.
    [Object.entries] lists members in the order of the record. [JSON.stringify], [String] of a
    number and today's date are section variables. *)

From stdpp Require Import base list strings gmap.
From Stdlib Require Import ZArith Lia.
From S2P Require Import Prelude NsPattern WorkerContract Utf8 Base64 Json JsNumber JsDate Gateway Txn Control JsonView Topology Routing.

#[local] Open Scope Z_scope.
#[local] Open Scope wdl_scope.

Definition invalid {A} : result control_error A := fail 400 "invalid_request".

(** [if (!c) throw new Error(...)] *)
Definition ensure (c : bool) : result control_error unit := if c then Ok tt else invalid.

Definition str_field (k : string) (s : jstr) : jstr * jsval := (js k, JStr s).

(** An optional member of an object literal. *)
Definition opt_field {X} (k : string) (encode : X → jsval) (o : option X) : list (jstr * jsval) :=
  match o with Some x => [(js k, encode x)] | None => [] end.

Definition strings (l : list jstr) : jsval := JArr (map JStr l).

(** [for (const x of l) check(x)] *)
Fixpoint each {X} (check : X → result control_error unit) (l : list X) : result control_error unit :=
  match l with [] => Ok tt | x :: l => let! _ := check x in each check l end.

(** [l.map(f)] of a function that throws. *)
Fixpoint collect {X Y} (f : X → result control_error Y) (l : list X) : result control_error (list Y) :=
  match l with
  | [] => Ok []
  | x :: l => let! y := f x in let! ys := collect f l in Ok (y :: ys)
  end.

(** ** Binding shapes *)

(** [/^[A-Z_][A-Z0-9_]*$/] *)
Definition is_upper_us (c : Z) : bool := ((65 <=? c) && (c <=? 90)) || is_underscore c.
Definition PLATFORM_KEY_RE : jstr → bool := head_star_re is_upper_us (λ c, is_upper_us c || is_digit c).

Definition isAdminAcceptableNs (ns : jsval) : bool :=
  match ns with
  | JStr s => negb (set_has RESERVED_TENANT_NS s) && (isReservedNs ns || NS_RE s)
  | _ => false
  end.

Definition assertNotRuntimeReservedEntrypoint (entrypoint : jstr) : result control_error unit :=
  ensure (negb (WDL_RESERVED_ENTRYPOINT_RE entrypoint)).

Definition validate_service (b : list (jstr * jsval)) : result control_error unit :=
  let! _ := ensure (isValidWorkerName (obj_get (js "service") b)) in
  let ns := obj_get (js "ns") b in
  let! _ := ensure (nullish ns || isAdminAcceptableNs ns) in
  match obj_get (js "entrypoint") b with
  | JUndef | JNull => Ok tt
  | JStr entrypoint =>
      let! _ := ensure (isValidJsIdentifier (JStr entrypoint)) in assertNotRuntimeReservedEntrypoint entrypoint
  | _ => invalid
  end.

Definition validate_queue (b : list (jstr * jsval)) : result control_error unit :=
  let! _ := ensure (isValidQueueName (obj_get (js "id") b)) in
  match obj_get (js "deliveryDelaySeconds") b with
  | JUndef | JNull => Ok tt
  | JNum (NInt delay) => ensure ((0 <=? delay) && (delay <=? MAX_QUEUE_DELAY_SECONDS))
  | _ => invalid
  end.

Definition validate_d1 (b : list (jstr * jsval)) : result control_error unit :=
  let! _ := ensure (on_string D1_DATABASE_ID_RE (obj_get (js "databaseId") b)) in
  ensure (nullish (obj_get (js "databaseName") b)).

Definition validate_do (b : list (jstr * jsval)) : result control_error unit :=
  match obj_get (js "className") b with
  | JStr className =>
      let! _ := ensure (isValidJsClassDeclarationName (JStr className) && (jlen className <=? MAX_DO_CLASS_NAME_BYTES)) in
      assertNotRuntimeReservedEntrypoint className
  | _ => invalid
  end.

Definition BINDING_VALIDATORS (type : jstr) : option (list (jstr * jsval) → result control_error unit) :=
  if jeqb type (js "kv") then Some (λ b, ensure (isValidKvId (obj_get (js "id") b)))
  else if jeqb type (js "assets") then Some (λ _, Ok tt)
  else if jeqb type (js "service") then Some validate_service
  else if jeqb type (js "queue") then Some validate_queue
  else if jeqb type (js "d1") then Some validate_d1
  else if jeqb type (js "r2") then Some (λ b, ensure (on_string R2_BUCKET_NAME_RE (obj_get (js "bucketName") b)))
  else if jeqb type (js "do") then Some validate_do
  else if jeqb type (js "ai") then Some (λ b, ensure (bool_decide (map fst b = [js "type"])))
  else None.

(** The checks on the name of a binding, a workflow or a variable. *)
Definition binding_name_ok (name : jstr) : bool :=
  BINDING_NAME_RE name && negb (WDL_RESERVED_BINDING_RE name) && negb (set_has RESERVED_OBJECT_KEYS name).

Fixpoint validate_bindings_from (aiBindingCount : Z) (l : list (jstr * jsval)) : result control_error unit :=
  match l with
  | [] => Ok tt
  | (name, b) :: l =>
      let! _ := ensure (binding_name_ok name) in
      match b with
      | JObj spec =>
          match obj_get (js "type") spec with
          | JStr type =>
              match BINDING_VALIDATORS type with
              | Some validate =>
                  let! _ := validate spec in
                  let count := if jeqb type (js "ai") then aiBindingCount + 1 else aiBindingCount in
                  if 1 <? count then invalid else validate_bindings_from count l
              | None => invalid
              end
          | _ => invalid
          end
      | _ => invalid
      end
  end.

Definition validateBindings (bindings : jsval) : result control_error unit :=
  match bindings with
  | JUndef | JNull => Ok tt
  | JObj fields => validate_bindings_from 0 fields
  | _ => invalid
  end.

Definition normalize_binding (binding : jsval) : jsval :=
  match binding with
  | JObj spec =>
      if is_type "service" binding && match obj_get (js "entrypoint") spec with JStr e => jeqb e (js "default") | _ => false end
      then JObj (obj_delete (js "entrypoint") spec) else binding
  | _ => binding
  end.

Definition normalizeBindings (bindings : jsval) : option (list (jstr * jsval)) :=
  if nullish bindings then None else Some (map (λ kv, (kv.1, normalize_binding kv.2)) (entries_of bindings)).

(** ** Exports and platform bindings *)

Record ExportEntry := MkExport {
  ee_entrypoint : jstr; ee_allowedCallers : list jstr; ee_as : option jstr; ee_requiredCallerSecrets : option (list jstr) }.

Definition export_json (e : ExportEntry) : jsval :=
  JObj ([str_field "entrypoint" (ee_entrypoint e); (js "allowedCallers", strings (ee_allowedCallers e))]
        ++ opt_field "as" JStr (ee_as e) ++ opt_field "requiredCallerSecrets" strings (ee_requiredCallerSecrets e)).

Definition parse_caller (entry : jsval) : result control_error jstr :=
  match entry with
  | JStr s =>
      let! _ := ensure (jeqb s (js "*") || NS_RE s) in
      let! _ := ensure (negb (set_has RESERVED_TENANT_NS s)) in Ok s
  | _ => invalid
  end.

Definition parseAllowedCallers (raw : jsval) : result control_error (option (list jstr)) :=
  match raw with
  | JUndef | JNull => Ok None
  | JArr l => let! callers := collect parse_caller l in Ok (Some (unique callers))
  | _ => invalid
  end.

Definition platform_key (v : jsval) : result control_error jstr :=
  match v with JStr s => if PLATFORM_KEY_RE s then Ok s else invalid | _ => invalid end.

Definition parse_export (isPlatformTier : bool) (seenEntry seenAs : list jstr) (raw : jsval) : result control_error ExportEntry :=
  match raw with
  | JObj entry =>
      match obj_get (js "entrypoint") entry with
      | JStr entrypoint =>
          let! _ := ensure (jeqb entrypoint (js "default") || isValidJsClassDeclarationName (JStr entrypoint)) in
          let! _ := assertNotRuntimeReservedEntrypoint entrypoint in
          let! _ := ensure (negb (set_has seenEntry entrypoint)) in
          let! callers := parseAllowedCallers (obj_get (js "allowedCallers") entry) in
          let! allowedCallers := match callers with Some l => Ok l | None => invalid end in
          let! as_ := match obj_get (js "as") entry with
                      | JUndef => Ok None
                      | v =>
                          let! _ := ensure isPlatformTier in
                          let! s := platform_key v in
                          let! _ := ensure (negb (set_has seenAs s)) in Ok (Some s)
                      end in
          let! secrets := match obj_get (js "requiredCallerSecrets") entry with
                          | JUndef => Ok None
                          | JArr l =>
                              let! _ := ensure isPlatformTier in
                              let! keys := collect platform_key l in Ok (Some (unique keys))
                          | _ => invalid
                          end in
          let! _ := ensure (negb isPlatformTier || bool_decide (is_Some as_)) in
          Ok (MkExport entrypoint allowedCallers as_ secrets)
      | _ => invalid
      end
  | _ => invalid
  end.

Fixpoint parse_exports_from (isPlatformTier : bool) (seenEntry seenAs : list jstr) (l : list jsval)
    : result control_error (list ExportEntry) :=
  match l with
  | [] => Ok []
  | raw :: l =>
      let! entry := parse_export isPlatformTier seenEntry seenAs raw in
      let! rest := parse_exports_from isPlatformTier (ee_entrypoint entry :: seenEntry)
                     (option_list (ee_as entry) ++ seenAs) l in
      Ok (entry :: rest)
  end.

Definition parseExports (raw : jsval) (ns : jstr) : result control_error (list ExportEntry) :=
  match raw with
  | JUndef | JNull => Ok []
  | JArr l => parse_exports_from (set_has PLATFORM_TIER_RESERVED_NS ns) [] [] l
  | _ => invalid
  end.

Record PlatformBindingRequest := MkPlatformBinding { pb_binding : jstr; pb_platform : jstr }.

Definition parse_platform_binding (seen : list jstr) (raw : jsval) : result control_error PlatformBindingRequest :=
  match raw with
  | JObj entry =>
      let! binding := platform_key (obj_get (js "binding") entry) in
      let! platform := match obj_get (js "platform") entry with
                       | JUndef | JNull => Ok binding
                       | v => platform_key v
                       end in
      let! _ := ensure (negb (set_has seen binding)) in
      Ok (MkPlatformBinding binding platform)
  | _ => invalid
  end.

Fixpoint parse_platform_from (seen : list jstr) (l : list jsval) : result control_error (list PlatformBindingRequest) :=
  match l with
  | [] => Ok []
  | raw :: l =>
      let! entry := parse_platform_binding seen raw in
      let! rest := parse_platform_from (pb_binding entry :: seen) l in Ok (entry :: rest)
  end.

Definition parsePlatformBindings (raw : jsval) : result control_error (list PlatformBindingRequest) :=
  match raw with
  | JUndef | JNull => Ok []
  | JArr l => parse_platform_from [] l
  | _ => invalid
  end.

(** ** Linking *)

Definition evaluateServiceBindingAcl (callerNs targetNs : jstr) (allowedCallers : jsval) : bool :=
  jeqb callerNs targetNs
  || match allowedCallers with
     | JArr l => existsb (λ v, match v with JStr s => jeqb s (js "*") || jeqb s callerNs | _ => false end) l
     | _ => false
     end.

Definition isExportEntry (v : jsval) : bool :=
  match member "entrypoint" v, member "allowedCallers" v with JStr _, JArr _ => true | _, _ => false end.

(** The entry of the target's [exports] for an entrypoint. *)
Definition exported (entrypoint : jstr) (exports : list jsval) : option jsval :=
  find (λ e, isExportEntry e && match member "entrypoint" e with JStr s => jeqb s entrypoint | _ => false end) exports.

(** The last gate: the entrypoint is exported to the caller. *)
Definition check_entrypoint (callerNs targetNs entrypoint : jstr) (targetMeta : list (jstr * jsval)) : result control_error unit :=
  match obj_get (js "exports") targetMeta with
  | JArr ((_ :: _) as exports) =>
      match exported entrypoint exports with
      | None => fail 400 "service_binding_entrypoint_not_exported"
      | Some entry =>
          if evaluateServiceBindingAcl callerNs targetNs (member "allowedCallers" entry) then Ok tt
          else fail 403 "service_binding_acl_denied"
      end
  | _ =>
      if negb (jeqb entrypoint (js "default")) then fail 400 "service_binding_entrypoint_not_exported"
      else if negb (jeqb callerNs targetNs) then fail 403 "service_binding_acl_denied" else Ok tt
  end.

Definition link_entrypoint (spec : list (jstr * jsval)) : jstr :=
  match obj_get (js "entrypoint") spec with JStr ((_ :: _) as e) => e | _ => js "default" end.

(** Answers the binding pinned to the version of its target. *)
Definition linkServiceBinding (lookupTargetVersion : jstr → jstr → option jstr)
    (lookupTargetMeta : jstr → jstr → jstr → result control_error (option (list (jstr * jsval))))
    (callerNs callerName : jstr) (spec : list (jstr * jsval)) : result control_error (list (jstr * jsval)) :=
  match obj_get (js "requiredCallerSecrets") spec with
  | JUndef =>
      match filled_string (obj_get (js "service") spec) with
      | None => fail 400 "service_binding_invalid_service"
      | Some service =>
          let ns := obj_get (js "ns") spec in
          if negb (nullish ns || isAdminAcceptableNs ns) then fail 400 "service_binding_invalid_namespace"
          else
            let targetNs := match ns with JStr s => s | _ => callerNs end in
            if set_has PLATFORM_TIER_RESERVED_NS targetNs then fail 400 "service_binding_platform_namespace"
            else if jeqb service callerName && jeqb targetNs callerNs then fail 400 "service_binding_self_target"
            else match lookupTargetVersion targetNs service with
                 | None | Some [] => fail 409 "service_binding_target_inactive"
                 | Some targetVersion =>
                     let! found := lookupTargetMeta targetNs service targetVersion in
                     let entrypoint := link_entrypoint spec in
                     if negb (jeqb entrypoint (js "default")) && negb (isValidJsIdentifier (JStr entrypoint))
                     then fail 400 "service_binding_invalid_entrypoint"
                     else if WDL_RESERVED_ENTRYPOINT_RE entrypoint then fail 400 "service_binding_entrypoint_reserved"
                     else
                       let! _ := check_entrypoint callerNs targetNs entrypoint (default [] found) in
                       Ok (obj_put (js "version") (JStr targetVersion) spec)
                 end
      end
  | _ => fail 400 "service_binding_reserved_field"
  end.

Record PlatformExport := MkPlatformExport {
  pe_owner : jstr; pe_service : jstr; pe_pinned : jstr; pe_entrypoint : jstr; pe_as : jstr;
  pe_allowedCallers : list jstr; pe_requiredCallerSecrets : list jstr }.

Definition linkPlatformBinding (callerNs : jstr) (bindingReq : PlatformBindingRequest) (existingBindings : list (jstr * jsval))
    (platformExports : list PlatformExport) (availableCallerSecrets : gset jstr)
    : result control_error (jsval * option (list jstr)) :=
  if has_own (pb_binding bindingReq) existingBindings then fail 400 "platform_binding_name_collision"
  else match find (λ e, jeqb (pe_as e) (pb_platform bindingReq)) platformExports with
  | None => fail 400 "platform_binding_not_registered"
  | Some e =>
      if negb (evaluateServiceBindingAcl callerNs (pe_owner e) (strings (pe_allowedCallers e)))
      then fail 403 "platform_binding_acl_denied"
      else
        let missing := filter (λ k, k ∉ availableCallerSecrets) (pe_requiredCallerSecrets e) in
        Ok (JObj ([str_field "type" (js "service"); str_field "ns" (pe_owner e); str_field "service" (pe_service e);
                   str_field "version" (pe_pinned e)]
                  ++ (if negb (jeqb (pe_entrypoint e) []) && negb (jeqb (pe_entrypoint e) (js "default"))
                      then [str_field "entrypoint" (pe_entrypoint e)] else [])
                  ++ match pe_requiredCallerSecrets e with [] => [] | l => [(js "requiredCallerSecrets", strings l)] end),
            match missing with [] => None | l => Some l end)
  end.

(** ** Base64 *)

Definition decodeBase64Strict (value : jstr) : result control_error (list Z) :=
  match canonicalBase64ToBytes value with Ok bytes => Ok bytes | Err _ => invalid end.

(** ** Compatibility *)

Definition MIN_DYNAMIC_WORKER_COMPATIBILITY_DATE : jstr := js "2026-04-01".
Definition DEFAULT_DYNAMIC_WORKER_COMPATIBILITY_DATE : jstr := js "2026-04-24".
Definition ENHANCED_ERROR_SERIALIZATION_DEFAULT_DATE : jstr := js "2026-04-21".
Definition ENHANCED_ERROR_SERIALIZATION_FLAG : jstr := js "enhanced_error_serialization".
Definition LEGACY_ERROR_SERIALIZATION_FLAG : jstr := js "legacy_error_serialization".
Definition WDL_UNSUPPORTED_COMPAT_FLAGS : list jstr :=
  [js "allow_irrevocable_stub_storage"; js "new_module_registry"; js "no_rpc"; js "streams_disable_constructors"].
Definition WORKERD_EXPERIMENTAL_COMPAT_FLAGS : list jstr := map js
  ["allow_insecure_inefficient_logged_eval"; "auto_inject_python_workers"; "cache_reload_enabled"; "connect_handler_starttls";
   "connect_pass_through"; "d1_binding_jsrpc"; "durable_object_get_existing"; "durable_object_rename";
   "durable_object_snapshots"; "enable_abortsignal_rpc"; "enable_ctx_version_metadata"; "enable_d1_with_sessions_api";
   "enable_nodejs_inspector_local_dev"; "enable_version_api"; "enable_web_file_system"; "experimental";
   "expose_draining_reader"; "increase_websocket_message_size"; "js_rpc"; "kv_direct_binding"; "memory_cache_delete";
   "offpeak_location_hint"; "precise_timers"; "python_workers_development"; "python_workers_durable_objects";
   "python_zstd_snapshot"; "replica_routing"; "rtti_api"; "service_binding_extra_handlers";
   "spec_compliant_property_attributes"; "streaming_tail_worker"; "streams_no_default_auto_allocate_chunk_size";
   "tail_worker_user_spans"; "typescript_implemented_streams"; "typescript_strip_types"; "unsafe_module";
   "unsupported_process_actual_platform"; "wasm_memory_discard"; "webgpu"; "workflows_bindings_rpc"; "workflows_step_rollback"]%string.

Definition isWorkerdExperimentalCompatFlag (flag : jstr) : bool := set_has WORKERD_EXPERIMENTAL_COMPAT_FLAGS flag.
Definition isWdlUnsupportedCompatFlag (flag : jstr) : bool := set_has WDL_UNSUPPORTED_COMPAT_FLAGS flag.

(** The flags of a list of non-empty strings. *)
Definition flag_of (v : jsval) : result control_error jstr :=
  match v with JStr ((_ :: _) as f) => Ok f | _ => invalid end.

Definition validateCompatibilityFlags (flags : jsval) : result control_error unit :=
  match flags with
  | JUndef | JNull => Ok tt
  | JArr l =>
      let! fs := collect flag_of l in
      if existsb isWorkerdExperimentalCompatFlag fs then fail 400 "experimental_compat_flag_unsupported"
      else if existsb isWdlUnsupportedCompatFlag fs then fail 400 "compatibility_flag_unsupported"
      else if set_has fs LEGACY_ERROR_SERIALIZATION_FLAG then fail 400 "compatibility_flag_unsupported"
      else Ok tt
  | _ => invalid
  end.

(** [a < b] on strings. *)
Definition text_lt (a b : jstr) : bool := negb (text_le b a).

(** [/^(\d{4})-(\d{2})-(\d{2})$/] as year, month and day. *)
Definition date_match (s : jstr) : option (Z * Z * Z) :=
  match s with
  | [y1; y2; y3; y4; s1; m1; m2; s2; d1; d2] =>
      if (s1 =? 45) && (s2 =? 45) then
        yh ← digit2 y1 y2; yl ← digit2 y3 y4; m ← digit2 m1 m2; d ← digit2 d1 d2; Some (yh * 100 + yl, m, d)
      else None
  | _ => None
  end.

Definition days_in_month (y m : Z) : Z :=
  if m =? 2 then if is_leap y then 29 else 28 else if set_has [[4]; [6]; [9]; [11]] [m] then 30 else 31.

(** [Date.UTC] reads years below 100 as 1900 and later, so such a year does not come back. *)
Definition real_date (p : Z * Z * Z) : bool :=
  let '(y, m, d) := p in
  (100 <=? y) && (1 <=? m) && (m <=? 12) && (1 <=? d) && (d <=? days_in_month y m).

(** ** Workflow definitions *)

Definition WORKFLOW_DEFINITIONS_MAX_COUNT : Z := 1024.
Definition WORKFLOW_DEFINITIONS_MAX_BYTES : Z := 1024 * 1024.

Record WorkflowDecl := MkWorkflow { wf_name : jstr; wf_binding : jstr; wf_className : jstr }.

Definition workflow_json (w : WorkflowDecl) : jsval :=
  JObj [str_field "name" (wf_name w); str_field "binding" (wf_binding w); str_field "className" (wf_className w)].

(** What [readWorkflowDefinitionAdmission] answers: the script counts the fields and the bytes
    of the hash, and gives up past the bounds. *)
Record Admission := MkAdmission { ad_status : Z; ad_count : Z; ad_bytes : Z; ad_values : list (option jstr) }.

Definition hash_bytes (defs : gmap jstr jstr) : Z :=
  foldr (λ kv n, utf8ByteLength kv.1 + utf8ByteLength kv.2 + n) 0 (map_to_list defs).

Definition readWorkflowDefinitionAdmission (defs : gmap jstr jstr) (names : list jstr) : Admission :=
  let count := Z.of_nat (size defs) in
  if WORKFLOW_DEFINITIONS_MAX_COUNT <? count then MkAdmission 0 count 0 []
  else if WORKFLOW_DEFINITIONS_MAX_BYTES <? hash_bytes defs then MkAdmission 0 count (hash_bytes defs) []
  else MkAdmission 1 count (hash_bytes defs) (map (λ name, defs !! name) names).

Fixpoint updates_total (values : list (option jstr)) (updates : list (jstr * jstr)) (total : Z * Z) : Z * Z :=
  match updates with
  | [] => total
  | (name, value) :: updates =>
      let '(count, bytes) := total in
      let total := match mjoin (head values) with
                   | None => (count + 1, bytes + utf8ByteLength name)
                   | Some old => (count, bytes - utf8ByteLength old)
                   end in
      updates_total (tail values) updates (total.1, total.2 + utf8ByteLength value)
  end.

Definition workflowDefinitionUpdatesFit (snapshot : Admission) (updates : list (jstr * jstr)) : bool :=
  let '(count, bytes) := updates_total (ad_values snapshot) updates (ad_count snapshot, ad_bytes snapshot) in
  (count <=? WORKFLOW_DEFINITIONS_MAX_COUNT) && (bytes <=? WORKFLOW_DEFINITIONS_MAX_BYTES).

Section bundle.
(** [JSON.stringify], [None] when it throws. *)
Variable JSON_stringify : jsval → option jstr.
(** [String(n)] *)
Variable String_number : jnum → jstr.

Definition workflowDeclarationsFit (declarations : list jsval) : bool :=
  (Z.of_nat (length declarations) <=? WORKFLOW_DEFINITIONS_MAX_COUNT)
  && match JSON_stringify (JArr declarations) with
     | Some text => utf8ByteLength text <=? WORKFLOW_DEFINITIONS_MAX_BYTES
     | None => false
     end.

Definition parse_workflow (seenNames seenBindings : list jstr) (raw : jsval) : result control_error WorkflowDecl :=
  match raw with
  | JObj entry =>
      let! _ := match obj_get (js "scriptName") entry, obj_get (js "script_name") entry with
                | JUndef, JUndef => Ok tt
                | _, _ => fail 400 "workflow_script_name_unsupported"
                end in
      match obj_get (js "name") entry with
      | JStr name =>
          let! _ := ensure (WORKFLOW_NAME_RE name && negb (set_has RESERVED_OBJECT_KEYS name) && negb (set_has seenNames name)) in
          match obj_get (js "binding") entry with
          | JStr binding =>
              let! _ := ensure (binding_name_ok binding && negb (set_has seenBindings binding)) in
              let className := match obj_get (js "className") entry with
                               | JUndef | JNull => obj_get (js "class_name") entry
                               | v => v
                               end in
              match className with
              | JStr c =>
                  let! _ := ensure (isValidJsClassDeclarationName className && negb (WDL_RESERVED_ENTRYPOINT_RE c)) in
                  Ok (MkWorkflow name binding c)
              | _ => invalid
              end
          | _ => invalid
          end
      | _ => invalid
      end
  | _ => invalid
  end.

Fixpoint parse_workflows_from (seenNames seenBindings : list jstr) (l : list jsval) : result control_error (list WorkflowDecl) :=
  match l with
  | [] => Ok []
  | raw :: l =>
      let! w := parse_workflow seenNames seenBindings raw in
      let! rest := parse_workflows_from (wf_name w :: seenNames) (wf_binding w :: seenBindings) l in Ok (w :: rest)
  end.

Definition normalizeWorkflows (workflows : jsval) : result control_error (list WorkflowDecl) :=
  match workflows with
  | JUndef | JNull => Ok []
  | JArr l =>
      if WORKFLOW_DEFINITIONS_MAX_COUNT <? Z.of_nat (length l) then fail 413 "workflow_definitions_too_large"
      else
        let! out := parse_workflows_from [] [] l in
        if workflowDeclarationsFit (map workflow_json out) then Ok out else fail 413 "workflow_definitions_too_large"
  | _ => invalid
  end.

(** ** Variables *)

Definition normalize_var (kv : jstr * jsval) : result control_error (jstr * jsval) :=
  let! _ := ensure (negb (WDL_RESERVED_BINDING_RE kv.1) && negb (set_has RESERVED_OBJECT_KEYS kv.1)) in
  match kv.2 with
  | JStr s => Ok (kv.1, JStr s)
  | JNum n => Ok (kv.1, JStr (String_number n))
  | JBool b => Ok (kv.1, JStr (if b then js "true" else js "false"))
  | _ => invalid
  end.

Definition normalizeVars (vars : jsval) : result control_error (option (list (jstr * jsval))) :=
  match vars with
  | JUndef | JNull => Ok None
  | JObj fields => let! normalized := collect normalize_var fields in Ok (Some normalized)
  | _ => invalid
  end.

(** ** Modules *)

Definition as_string (v : jsval) : option jstr := match v with JStr s => Some s | _ => None end.

Definition normalizeModule (value : jsval) : result control_error (jstr * list Z) :=
  match value with
  | JStr s => Ok (js "module", utf8_encode s)
  | JObj record =>
      let text k := as_string (obj_get (js k) record) in
      match text "data_b64" with
      | Some b64 => let! bytes := decodeBase64Strict b64 in Ok (js "data", bytes)
      | None =>
      match text "wasm_b64" with
      | Some b64 => let! bytes := decodeBase64Strict b64 in Ok (js "wasm", bytes)
      | None =>
      match text "text" with
      | Some text => Ok (js "text", utf8_encode text)
      | None =>
      match obj_get (js "json") record with
      | JUndef =>
          match text "cjs" with
          | Some cjs => Ok (js "cjs", utf8_encode cjs)
          | None => match text "py" with Some _ => fail 400 "python_workers_unsupported" | None => invalid end
          end
      | v => match JSON_stringify v with Some text => Ok (js "json", utf8_encode text) | None => invalid end
      end end end end
  | _ => invalid
  end.

Definition module_path (p : jsval) : result control_error unit :=
  match validateModulePath p with Ok _ => Ok tt | Err _ => invalid end.

Record module := MkModule { mo_path : jstr; mo_type : jstr; mo_bytes : list Z }.

Definition prepare_module (kv : jstr * jsval) : result control_error module :=
  let! _ := module_path (JStr kv.1) in
  let! m := normalizeModule kv.2 in Ok (MkModule kv.1 m.1 m.2).

(** ** The bundle *)

(** [new Date()], and the newest date the bundled workerd supports. *)
Variable todayUtc MAX_WORKER_COMPATIBILITY_DATE : jstr.

Definition validateCompatibilityDate (value : jsval) : result control_error (option jstr) :=
  match value with
  | JUndef | JNull => Ok None
  | JStr s =>
      match date_match s with
      | None => invalid
      | Some p =>
          let! _ := ensure (real_date p) in
          let! _ := ensure (negb (text_lt s MIN_DYNAMIC_WORKER_COMPATIBILITY_DATE)) in
          let! _ := ensure (negb (text_lt todayUtc s)) in
          let! _ := ensure (negb (text_lt MAX_WORKER_COMPATIBILITY_DATE s)) in Ok (Some s)
      end
  | _ => invalid
  end.

Record BundleExtras := MkExtras {
  ex_bindings : jsval; ex_compatibilityDate : jsval; ex_compatibilityFlags : jsval; ex_vars : jsval;
  ex_exports : list ExportEntry; ex_workflows : jsval; ex_assets : option (list (jstr * jsval)) }.

(** A prepared bundle: its metadata and its modules. *)
Record PreparedBundle := MkPrepared { pr_meta : list (jstr * jsval); pr_modules : list module }.

Definition module_json (m : module) : jstr * jsval := (mo_path m, JObj [str_field "type" (mo_type m)]).

Definition array_field (k : string) (l : list jsval) : list (jstr * jsval) :=
  match l with [] => [] | _ => [(js k, JArr l)] end.

(** [Object.hasOwn(o, k)]; an array owns its length too. *)
Definition hasOwn (k : jstr) (o : jsval) : bool :=
  has_own k (entries_of o) || match o with JArr _ => jeqb k (js "length") | _ => false end.

Definition prepareBundle (mainModule : jstr) (rawModules : jsval) (extras : BundleExtras)
    : result control_error PreparedBundle :=
  let! _ := module_path (JStr mainModule) in
  let! _ := ensure (hasOwn mainModule rawModules) in
  let! _ := validateBindings (ex_bindings extras) in
  let! compatibilityDate := validateCompatibilityDate (ex_compatibilityDate extras) in
  let! _ := validateCompatibilityFlags (ex_compatibilityFlags extras) in
  let! vars := normalizeVars (ex_vars extras) in
  let bindings := normalizeBindings (ex_bindings extras) in
  let! workflows := normalizeWorkflows (ex_workflows extras) in
  let! _ := each (λ w, ensure (negb (has_own (wf_binding w) (default [] bindings)))) workflows in
  let! modules := collect prepare_module (entries_of rawModules) in
  Ok (MkPrepared
    ([str_field "mainModule" mainModule; (js "modules", JObj (map module_json modules))]
     ++ opt_field "compatibilityDate" JStr compatibilityDate
     ++ (if nullish (ex_compatibilityFlags extras) then [] else [(js "compatibilityFlags", ex_compatibilityFlags extras)])
     ++ opt_field "bindings" JObj bindings
     ++ opt_field "vars" JObj vars
     ++ array_field "exports" (map export_json (ex_exports extras))
     ++ array_field "workflows" (map workflow_json workflows)
     ++ opt_field "assets" JObj (ex_assets extras)) modules).

(** ** Assets *)

Definition asset_path_ok (p : jstr) : bool :=
  negb (jeqb p []) && negb (starts_with (js "/") p)
  && negb (existsb (λ seg, jeqb seg [] || jeqb seg (js ".") || jeqb seg (js "..")) (split_on 47 p)).

Definition normalize_asset (kv : jstr * jsval) : result control_error (jstr * list Z) :=
  match kv.2 with
  | JStr value =>
      let! _ := ensure (asset_path_ok kv.1) in
      let! bytes := decodeBase64Strict value in Ok (kv.1, bytes)
  | _ => invalid
  end.

Definition normalizeAssets (rawAssets : jsval) : result control_error (option (list (jstr * list Z))) :=
  match rawAssets with
  | JUndef | JNull => Ok None
  | JObj fields => let! out := collect normalize_asset fields in Ok (Some out)
  | _ => invalid
  end.
End bundle.
