(* ===== verification/Deploy.v ===== *)
(** * Deploying a version

    Models src/control/handlers/deploy.js: the request, the linking of service and platform
    bindings against the active versions, the committed bundle, and the transaction that
    writes it; [resolveDatabaseRefFrom] of src/control/d1-store.js with its record reader in
    src/control/d1-model.js, and [stageBundleCommit] of src/control/shared.js.

    The store keeps the decoded text of a module's bytes. Random ids, [JSON.stringify], [String]
    of a number, dates, the URL parser, time zones, the cron library and the check of the
    environment budget (which decrypts secrets) are section variables. The upload of assets to
    the object store, its clean-up, log lines and the HTTP answers are left out. *)

From stdpp Require Import base list strings gmap.
From Stdlib Require Import ZArith Lia.
From S2P Require Import Prelude NsPattern WorkerContract Utf8 Json JsNumber Gateway SessionPolicy Txn Control Topology Routing.
From S2P Require Import Delete Bundle.

#[local] Open Scope Z_scope.
#[local] Open Scope wdl_scope.
#[local] Open Scope txn_scope.

Definition MAX_COMMIT_ATTEMPTS : nat := 5.
Definition nsSecretsKey (ns : jstr) : jstr := js "secrets:" ++ ns.
Definition d1DatabaseNameKey (ns databaseName : jstr) : jstr := js "d1:database-name:" ++ ns ++ js ":" ++ databaseName.

(** ** The request *)

Record DeployRequest := MkDeployRequest {
  dq_mainModule : jstr; dq_modules : jsval; dq_assetsToUpload : option (list (jstr * list Z)); dq_routes : list RoutePattern;
  dq_workersDev : bool; dq_sessionPolicy : jstr; dq_exportsList : list ExportEntry;
  dq_platformBindingsList : list PlatformBindingRequest; dq_crons : list CronSpec; dq_queueConsumers : list QueueConsumer;
  dq_mergedBindings : list (jstr * jsval); dq_compatibilityDate : jsval; dq_compatibilityFlags : jsval; dq_vars : jsval;
  dq_workflows : jsval }.

Definition parseDeployModules (body : list (jstr * jsval)) : result control_error (jstr * jsval) :=
  match obj_get (js "code") body with
  | JStr code => Ok (js "worker.js", JObj [(js "worker.js", JStr code)])
  | _ =>
      match obj_get (js "mainModule") body, obj_get (js "modules") body with
      | JStr mainModule, JObj modules => Ok (mainModule, JObj modules)
      | JStr mainModule, JArr modules => Ok (mainModule, JArr modules)
      | _, _ => invalid
      end
  end.

(** Any error of a parser of [topology.js] is a 400. *)
Definition request_error {E A} (r : result E A) : result control_error A := match r with Ok a => Ok a | Err _ => invalid end.

Section request.
Variable urlHost : jstr → option jstr.
Variable knownTimezone : jstr → bool.
Variable cronParses : jstr → jstr → bool.

Definition prepareDeployRequest (body : list (jstr * jsval)) (ns platformDomain : jstr) : result control_error DeployRequest :=
  let get k := obj_get (js k) body in
  let! main := parseDeployModules body in
  let! assetsToUpload := normalizeAssets (get "assets") in
  let! routes := request_error (parseRoutes urlHost (get "routes") platformDomain) in
  let! workersDev := match get "workersDev" with JUndef => Ok true | JBool b => Ok b | _ => invalid end in
  let! _ := ensure (workersDev || negb (bool_decide (routes = []))) in
  let! _ := ensure (negb (isReservedNs (JStr ns)) || set_has ROUTES_ALLOWED_RESERVED_NS ns || bool_decide (routes = [])) in
  let! exportsList := parseExports (get "exports") ns in
  let! platformBindingsList := parsePlatformBindings (get "platformBindings") in
  let! _ := match get "allowedCallers" with JUndef => Ok tt | _ => invalid end in
  let! crons := request_error (parseCronList knownTimezone cronParses (get "crons")) in
  let! queueConsumers := request_error (parseQueueConsumers (get "queueConsumers")) in
  let! _ := ensure (isValidRouteNs (JStr ns) || (bool_decide (crons = []) && bool_decide (queueConsumers = []))) in
  let! _ := validateBindings (get "bindings") in
  let declaredBindings := default [] (normalizeBindings (get "bindings")) in
  let mergedBindings := if bool_decide (is_Some assetsToUpload) && negb (has_own (js "ASSETS") declaredBindings)
                        then declaredBindings ++ [(js "ASSETS", JObj [str_field "type" (js "assets")])] else declaredBindings in
  let! _ := match get "durableObjectRollout" with JUndef => Ok tt | _ => invalid end in
  let! sessionPolicy := match get "sessionPolicy" with
                        | JUndef => Ok SESSION_POLICY_PRESERVE
                        | JStr mode => if isSessionPolicyMode (JStr mode) then Ok mode else invalid
                        | _ => invalid
                        end in
  Ok (MkDeployRequest main.1 main.2 assetsToUpload routes workersDev sessionPolicy exportsList platformBindingsList crons
        queueConsumers mergedBindings (get "compatibilityDate") (get "compatibilityFlags") (get "vars") (get "workflows")).
End request.

(** ** Linking against the active versions *)

(** [new Map()] of the targets, in the order they first appear. *)
Fixpoint distinct_pairs (l : list (jstr * jstr)) : list (jstr * jstr) :=
  match l with [] => [] | x :: l => x :: filter (λ y, y ≠ x) (distinct_pairs l) end.

Definition service_target (ns name : jstr) (spec : jsval) : option (jstr * jstr) :=
  if is_type "service" spec then
    service ← filled_string (member "service" spec);
    targetNs ← match member "ns" spec with JUndef | JNull => Some ns | JStr s => Some s | _ => None end;
    if jeqb targetNs ns && jeqb service name then None
    else if set_has PLATFORM_TIER_RESERVED_NS targetNs then None
    else Some (targetNs, service)
  else None.

Definition serviceBindingPreflightTargets (ns name : jstr) (bindings : list (jstr * jsval)) : list (jstr * jstr) :=
  distinct_pairs (omap (λ kv : jstr * jsval, service_target ns name kv.2) bindings).

Definition linkableBundleMeta (raw : jstr) : result control_error (list (jstr * jsval)) := parseBundleMeta (JStr raw).

(** The cached reads: the active version of each target, and its metadata. *)
Definition version_cache (targets : list (jstr * jstr)) (versions : list (option jstr)) (targetNs worker : jstr) : option jstr :=
  mjoin (snd <$> find (λ tv : (jstr * jstr) * option jstr, bool_decide (tv.1 = (targetNs, worker))) (zip targets versions)).

Definition meta_cache (targets : list (jstr * jstr * jstr)) (metas : list (option jstr)) (targetNs worker version : jstr)
    : result control_error (option (list (jstr * jsval))) :=
  match mjoin (snd <$> find (λ tm : (jstr * jstr * jstr) * option jstr, bool_decide (tm.1 = (targetNs, worker, version))) (zip targets metas)) with
  | None => Ok None
  | Some raw => let! meta := linkableBundleMeta raw in Ok (Some meta)
  end.

(** The specs of service bindings are pinned in place. *)
Definition link_binding (versions : jstr → jstr → option jstr)
    (metas : jstr → jstr → jstr → result control_error (option (list (jstr * jsval)))) (ns name : jstr) (kv : jstr * jsval)
    : result control_error (jstr * jsval) :=
  match kv.2 with
  | JObj spec =>
      if is_type "service" (JObj spec)
      then let! linked := linkServiceBinding versions metas ns name spec in Ok (kv.1, JObj linked)
      else Ok kv
  | _ => Ok kv
  end.

Definition validateServiceBindingsPreflight (ns name : jstr) (bindings : list (jstr * jsval)) (targetList : list (jstr * jstr))
    : reads (list (jstr * jsval)) :=
  let+ versions := rd_map (λ t : jstr * jstr, rd_ask (QHGet (routesKey t.1) t.2)) targetList in
  let versionedTargets := omap (λ tv : (jstr * jstr) * option jstr, version ← non_empty tv.2; Some (tv.1, version)) (zip targetList versions) in
  let+ rawMetas := rd_map (λ t : jstr * jstr * jstr,
    let+ key := rd_lift (bundle_key t.1.1 t.1.2 t.2) in rd_ask (QHGet key (js "__meta__"))) versionedTargets in
  rd_lift (collect (link_binding (version_cache targetList versions) (meta_cache versionedTargets rawMetas) ns name) bindings).

Definition isStringArray (v : jsval) : option (list jstr) :=
  match v with JArr l => mapM (λ x, match x with JStr s => Some s | _ => None end) l | _ => None end.

(** The exports of a platform worker that can be bound by name. *)
Definition platform_export (ns worker version : jstr) (v : jsval) : option PlatformExport :=
  match v with
  | JObj record =>
      match obj_get (js "entrypoint") record, obj_get (js "as") record with
      | JStr entrypoint, JStr as_ =>
          callers ← isStringArray (obj_get (js "allowedCallers") record);
          secrets ← match obj_get (js "requiredCallerSecrets") record with JUndef => Some [] | v => isStringArray v end;
          Some (MkPlatformExport ns worker version entrypoint as_ callers secrets)
      | _, _ => None
      end
  | _ => None
  end.

Definition exports_of (entry : jstr * jstr * jstr) (rawMeta : option jstr) : result control_error (list PlatformExport) :=
  let '(ns, worker, version) := entry in
  match rawMeta with
  | None => Ok []
  | Some raw =>
      let! meta := linkableBundleMeta raw in
      Ok (match obj_get (js "exports") meta with JArr l => omap (platform_export ns worker version) l | _ => [] end)
  end.

Definition collectPlatformExports (platformNamespaces : list jstr) (routeHashes : list (gmap jstr jstr)) : reads (list PlatformExport) :=
  let routeEntries := flat_map (λ nh : jstr * gmap jstr jstr, map (λ wv : jstr * jstr, (nh.1, wv.1, wv.2)) (map_to_list nh.2))
                        (zip platformNamespaces routeHashes) in
  let+ rawMetas := rd_map (λ t : jstr * jstr * jstr,
    let+ key := rd_lift (bundle_key t.1.1 t.1.2 t.2) in rd_ask (QHGet key (js "__meta__"))) routeEntries in
  let+ found := rd_lift (collect (λ er : (jstr * jstr * jstr) * option jstr, exports_of er.1 er.2) (zip routeEntries rawMetas)) in
  rd_ret (concat found).

(** One platform binding after the other; a later one sees the earlier ones. *)
Fixpoint link_platform (ns : jstr) (exports : list PlatformExport) (secrets : gset jstr) (bindings : list (jstr * jsval))
    (requests : list PlatformBindingRequest) : result control_error (list (jstr * jsval)) :=
  match requests with
  | [] => Ok bindings
  | pb :: requests =>
      let! linked := linkPlatformBinding ns pb bindings exports secrets in
      link_platform ns exports secrets (obj_put (pb_binding pb) linked.1 bindings) requests
  end.

Definition resolvePlatformBindings (ns name : jstr) (bindings : list (jstr * jsval)) (requests : list PlatformBindingRequest)
    : reads (list (jstr * jsval)) :=
  match requests with
  | [] => rd_ret bindings
  | _ =>
      let+ routeHashes := rd_map (λ n, rd_ask (QHGetAll (routesKey n))) PLATFORM_TIER_RESERVED_NS in
      let+ nsSecrets := rd_ask (QHGetAll (nsSecretsKey ns)) in
      let+ workerSecrets := rd_ask (QHGetAll (workerSecretsKey ns name)) in
      let+ platformExports := collectPlatformExports PLATFORM_TIER_RESERVED_NS routeHashes in
      rd_lift (link_platform ns platformExports (dom nsSecrets ∪ dom workerSecrets) bindings requests)
  end.

Definition runDeployPreflight (ns name : jstr) (deployRequest : DeployRequest) : reads (list (jstr * jsval)) :=
  let targetList := serviceBindingPreflightTargets ns name (dq_mergedBindings deployRequest) in
  let+ bindings := validateServiceBindingsPreflight ns name (dq_mergedBindings deployRequest) targetList in
  resolvePlatformBindings ns name bindings (dq_platformBindingsList deployRequest).


(** ** The committed bundle *)

(** [/^[0-9a-f]{28}$/] *)
Definition is_hex (c : Z) : bool := is_digit c || ((97 <=? c) && (c <=? 102)).
Definition ASSETS_TOKEN_RE (s : jstr) : bool := (jlen s =? 28) && forallb is_hex s.

Definition assetsPrefixFor (ns worker token : jstr) : result control_error jstr :=
  if jeqb ns [] || jeqb worker [] || negb (ASSETS_TOKEN_RE token) then Err Thrown
  else Ok (js "assets/" ++ ns ++ js "/" ++ worker ++ js "/" ++ token ++ js "/").

(** Members whose value is [undefined] are not printed. *)
Definition route_json (r : RoutePattern) : jsval :=
  JObj [str_field "host" (r_host r); str_field "slot" (r_slot r); (js "kind", r_kind r); (js "value", r_value r)].
Definition cron_json (c : CronSpec) : jsval := JObj [str_field "cron" (c_cron c); str_field "timezone" (c_timezone c)].
Definition integer (n : Z) : jsval := JNum (NInt n).
Definition consumer_json (c : QueueConsumer) : jsval :=
  JObj ([str_field "queue" (qc_queue c); (js "maxBatchSize", integer (qc_maxBatchSize c));
         (js "maxBatchTimeoutMs", integer (qc_maxBatchTimeoutMs c)); (js "maxRetries", integer (qc_maxRetries c))]
        ++ opt_field "retryDelaySeconds" integer (qc_retryDelaySeconds c)
        ++ opt_field "deadLetterQueue" JStr (qc_deadLetterQueue c)).

Record CommittedBundle := MkCommitted {
  cb_prepared : PreparedBundle; cb_outgoingRefs : list OutgoingRef; cb_d1Refs : list D1Ref }.

(** [if (set) meta[k] = v] *)
Definition put_if (set : bool) (k : string) (v : jsval) (meta : list (jstr * jsval)) : list (jstr * jsval) :=
  if set then obj_put (js k) v meta else meta.
Definition put_list (k : string) (l : list jsval) : list (jstr * jsval) → list (jstr * jsval) :=
  put_if (negb (bool_decide (length l = 0%nat))) k (JArr l).

(** ** Databases and stored definitions *)

Record D1DatabaseRecord := MkDatabase { db_databaseId : jstr; db_databaseName : option jstr; db_state : option jstr }.

Definition decodeDatabaseHash (hash : gmap jstr jstr) : option D1DatabaseRecord :=
  databaseId ← non_empty (hash !! js "databaseId");
  Some (MkDatabase databaseId (hash !! js "databaseName") (hash !! js "state")).

Definition isReadyDatabase (database : D1DatabaseRecord) : bool := bool_decide (db_state database = Some (js "ready")).

Definition ready_only (database : option D1DatabaseRecord) : option D1DatabaseRecord :=
  db ← database; if isReadyDatabase db then Some db else None.

Definition resolveDatabaseRefFrom (ns databaseRef : jstr) : reads (option D1DatabaseRecord) :=
  let+ hash := rd_ask (QHGetAll (d1DatabaseKey ns databaseRef)) in
  let+ value := rd_ask (QGet (d1DatabaseNameKey ns databaseRef)) in
  match decodeDatabaseHash hash with
  | Some byId => rd_ret (ready_only (Some byId))
  | None =>
      match non_empty value with
      | None => rd_ret None
      | Some databaseId =>
          let+ hash := rd_ask (QHGetAll (d1DatabaseKey ns databaseId)) in rd_ret (ready_only (decodeDatabaseHash hash))
      end
  end.

(** A reference of the request with the database it stands for. *)
Record ResolvedD1Ref := MkResolved { rr_binding : jstr; rr_databaseId : jstr; rr_databaseName : option jstr }.

Definition resolve_d1_ref (ns : jstr) (ref : D1Ref) : reads ResolvedD1Ref :=
  let+ found := resolveDatabaseRefFrom ns (dr_databaseId ref) in
  match found with
  | None => rd_fail 404 "d1_database_not_found"
  | Some database =>
      let+ _ := rd_watch [d1DatabaseKey ns (db_databaseId database)] in
      let+ current := resolveDatabaseRefFrom ns (db_databaseId database) in
      match current with
      | Some currentDatabase =>
          if jeqb (db_databaseId currentDatabase) (db_databaseId database)
          then rd_ret (MkResolved (dr_binding ref) (db_databaseId currentDatabase) (db_databaseName currentDatabase))
          else rd_fail 404 "d1_database_not_found"
      | None => rd_fail 404 "d1_database_not_found"
      end
  end.

Definition resolveD1RefsForCommit (ns : jstr) (d1Refs : list D1Ref) : reads (list ResolvedD1Ref) :=
  rd_map (resolve_d1_ref ns) d1Refs.

Definition parsePersistedWorkflowDef (rawDef : option jstr) : result control_error (option jstr) :=
  match rawDef with
  | None => Ok None
  | Some text =>
      match member "workflowKey" (default JNull (json_parse text)) with
      | JStr key => if WORKFLOW_KEY_RE key then Ok (Some key) else fail 500 "workflow_definition_corrupt"
      | _ => fail 500 "workflow_definition_corrupt"
      end
  end.

Definition prefixedId (prefix hex : jstr) : jstr := prefix ++ hex.

(** ** The checks under WATCH *)

Definition hasDurableObjectBinding (bindings : jsval) : bool := existsb (λ kv : jstr * jsval, is_type "do" kv.2) (entries_of bindings).

Definition bindings_of (meta : list (jstr * jsval)) : jsval := obj_get (js "bindings") meta.
Definition workflows_of (meta : list (jstr * jsval)) : list jsval :=
  match obj_get (js "workflows") meta with JArr l => l | _ => [] end.

Definition outgoing_watch_keys (ref : OutgoingRef) : result control_error (list jstr) :=
  let! key := bundle_key (or_targetNs ref) (or_targetWorker ref) (or_targetVersion ref) in
  Ok [routesKey (or_targetNs ref); key; deleteLockKey (or_targetNs ref) (or_targetWorker ref)].

Definition watchCommitKeys (ns name : jstr) (meta : list (jstr * jsval)) (outgoingRefs : list OutgoingRef) (d1Refs : list D1Ref)
    : reads unit :=
  let+ outgoing := rd_lift (stage_all_keys outgoing_watch_keys outgoingRefs) in
  rd_watch ([deleteLockKey ns name; nsSecretsKey ns; workerSecretsKey ns name]
            ++ (if hasDurableObjectBinding (bindings_of meta) then [doStorageIdKey ns name] else [])
            ++ (match workflows_of meta with [] => [] | _ => [workflowDefsKey ns name] end)
            ++ flat_map (λ ref, [d1DatabaseKey ns (dr_databaseId ref); d1DatabaseNameKey ns (dr_databaseId ref)]) d1Refs
            ++ outgoing).

Definition validateCallerNotDeleting (ns name : jstr) : reads unit :=
  let+ callerLock := rd_ask (QGet (deleteLockKey ns name)) in
  if truthy_text callerLock then rd_fail 409 "caller_deleting" else rd_ret tt.

(** What the pipelined reads answer for one reference. *)
Definition check_outgoing_ref (ref : OutgoingRef) (targetLock currentActive targetMeta : option jstr) : result control_error unit :=
  if truthy_text targetLock then fail 409 "target_deleting"
  else if negb (bool_decide (currentActive = Some (or_targetVersion ref))) then fail 409 "target_drift"
  else if negb (truthy_text targetMeta) then fail 409 "target_drift" else Ok tt.

Fixpoint check_outgoing_refs (refs : list OutgoingRef) (locks actives metas : list (option jstr)) : result control_error unit :=
  match refs, locks, actives, metas with
  | ref :: refs, lock :: locks, active :: actives, meta :: metas =>
      let! _ := check_outgoing_ref ref lock active meta in check_outgoing_refs refs locks actives metas
  | _, _, _, _ => Ok tt
  end.

Definition validateOutgoingRefsForCommit (outgoingRefs : list OutgoingRef) : reads unit :=
  let+ targetLocks := rd_map (λ ref, rd_ask (QGet (deleteLockKey (or_targetNs ref) (or_targetWorker ref)))) outgoingRefs in
  let+ currentActives := rd_map (λ ref, rd_ask (QHGet (routesKey (or_targetNs ref)) (or_targetWorker ref))) outgoingRefs in
  let+ targetMetas := rd_map (λ ref,
    let+ key := rd_lift (bundle_key (or_targetNs ref) (or_targetWorker ref) (or_targetVersion ref)) in
    rd_ask (QHGet key (js "__meta__"))) outgoingRefs in
  rd_lift (check_outgoing_refs outgoingRefs targetLocks currentActives targetMetas).

(** ** The committed metadata *)

Definition update_binding (k : jstr) (f : jsval → jsval) (bindings : list (jstr * jsval)) : list (jstr * jsval) :=
  obj_put k (f (obj_get k bindings)) bindings.

Definition spread (fields : list (jstr * jsval)) (v : jsval) : jsval :=
  JObj (fold_left (λ acc kv, obj_put kv.1 kv.2 acc) fields (match v with JObj l => l | _ => [] end)).

Definition attachDoStorageId (doStorageId : jstr) (bindings : list (jstr * jsval)) : list (jstr * jsval) :=
  map (λ kv : jstr * jsval, if is_type "do" kv.2 then (kv.1, spread [str_field "doStorageId" doStorageId] kv.2) else kv) bindings.

Definition pin_database (bindings : list (jstr * jsval)) (ref : ResolvedD1Ref) : list (jstr * jsval) :=
  update_binding (rr_binding ref)
    (spread [str_field "databaseId" (rr_databaseId ref); (js "databaseName", opt_string (rr_databaseName ref))]) bindings.

Record WorkflowDefUpdate := MkDefUpdate { wu_key : jstr; wu_field : jstr; wu_value : jstr }.

(** The result of [materializeCommittedMetadata]. *)
Record Materialized := MkMaterialized {
  ma_meta : list (jstr * jsval); ma_workflowDefUpdates : list WorkflowDefUpdate; ma_doStorageId : option jstr }.

Definition text_member (k : string) (v : jsval) : result control_error jstr :=
  match member k v with JStr s => Ok s | _ => Err Thrown end.

(** ** Staging *)

(** The fields HSET writes, with their bytes; the metadata comes last. *)
Definition bundle_fields (metaText : jstr) (modules : list module) : list (jstr * list Z) :=
  map (λ m, (mo_path m, mo_bytes m)) modules ++ [(js "__meta__", utf8_encode metaText)].

Definition stageBundleCommit (key metaText : jstr) (modules : list module) : list write :=
  WDel key :: map (λ fv : jstr * list Z, WHSet key fv.1 (utf8_decode fv.2)) (bundle_fields metaText modules).

Section commit.
Variable JSON_stringify : jsval → option jstr.
Variable String_number : jnum → jstr.
Variable todayUtc MAX_WORKER_COMPATIBILITY_DATE : jstr.

(** [token]: the result of [generateAssetsToken]. *)
Definition prepareCommittedBundle (token : jstr) (deployRequest : DeployRequest) (ns name : jstr) (bindings : list (jstr * jsval))
    : result control_error CommittedBundle :=
  let! assetsMeta := match dq_assetsToUpload deployRequest with
                     | None => Ok None
                     | Some _ => let! prefix := assetsPrefixFor ns name token in
                                 Ok (Some [str_field "token" token; str_field "prefix" prefix])
                     end in
  let! prepared := prepareBundle JSON_stringify String_number todayUtc MAX_WORKER_COMPATIBILITY_DATE
    (dq_mainModule deployRequest) (dq_modules deployRequest)
    (MkExtras (match bindings with [] => JUndef | _ => JObj bindings end) (dq_compatibilityDate deployRequest)
       (dq_compatibilityFlags deployRequest) (dq_vars deployRequest) (dq_exportsList deployRequest)
       (dq_workflows deployRequest) assetsMeta) in
  let meta := put_list "queueConsumers" (map consumer_json (dq_queueConsumers deployRequest))
    (put_list "crons" (map cron_json (dq_crons deployRequest))
      (put_if (negb (jeqb (dq_sessionPolicy deployRequest) SESSION_POLICY_PRESERVE)) "sessionPolicy" (JStr (dq_sessionPolicy deployRequest))
        (put_if (negb (dq_workersDev deployRequest)) "workersDev" (JBool false)
          (put_list "routes" (map route_json (dq_routes deployRequest)) (pr_meta prepared))))) in
  Ok (MkCommitted (MkPrepared meta (pr_modules prepared)) (extractOutgoingRefs (bindings_of meta) ns) (extractD1Refs (bindings_of meta))).

(** The calls of [randomHex(16)], in the attempt that starts at [now]. *)
Variable randomHex : Z → nat → jstr.

Definition newDoStorageId (now : Z) : jstr := prefixedId (js "do_") (randomHex now 0).
Definition newWorkflowKey (now : Z) (index : nat) : jstr := prefixedId (js "wf_") (randomHex now (S index)).

(** [assertWorkerLoaderUserEnvBudget] on the decrypted secrets. *)
Variable envBudget : gmap jstr jstr → gmap jstr jstr → list (jstr * jsval) → result control_error unit.

(** The loop over the workflows: each gets the key it is stored with, or a fresh one. *)
Fixpoint key_workflows (defsKey : jstr) (now : Z) (index : nat) (raws : list (option jstr)) (workflows : list jsval)
    : result control_error (list (jsval * WorkflowDefUpdate)) :=
  match workflows with
  | [] => Ok []
  | workflow :: workflows =>
      let! name := text_member "name" workflow in
      let! existingDef := parsePersistedWorkflowDef (mjoin (head raws)) in
      let workflowKey := match existingDef with Some key => key | None => newWorkflowKey now index end in
      match JSON_stringify (JObj [str_field "workflowKey" workflowKey; (js "className", member "className" workflow)]) with
      | None => Err Thrown
      | Some text =>
          let! rest := key_workflows defsKey now (S index) (tail raws) workflows in
          Ok ((spread [str_field "workflowKey" workflowKey] workflow, MkDefUpdate defsKey name text) :: rest)
      end
  end.

Definition materialize_workflows (ns name : jstr) (now : Z) (workflows : list jsval) : reads (list (jsval * WorkflowDefUpdate)) :=
  match workflows with
  | [] => rd_ret []
  | _ =>
      let defsKey := workflowDefsKey ns name in
      let+ names := rd_lift (collect (text_member "name") workflows) in
      let+ defs := rd_ask (QHGetAll defsKey) in
      let admission := readWorkflowDefinitionAdmission defs names in
      if negb (ad_status admission =? 1) then rd_fail 500 "workflow_definition_corrupt"
      else
        let+ keyed := rd_lift (key_workflows defsKey now 0 (ad_values admission) workflows) in
        if workflowDeclarationsFit JSON_stringify (map fst keyed)
           && workflowDefinitionUpdatesFit admission (map (λ ku : jsval * WorkflowDefUpdate, (wu_field ku.2, wu_value ku.2)) keyed)
        then rd_ret keyed else rd_fail 413 "workflow_definitions_too_large"
  end.

Definition materializeCommittedMetadata (ns name : jstr) (now : Z) (meta : list (jstr * jsval)) (resolvedD1Refs : list ResolvedD1Ref)
    : reads Materialized :=
  let bindings := match bindings_of meta with JObj l => l | _ => [] end in
  let+ keyed := materialize_workflows ns name now (workflows_of meta) in
  let+ doStorageId :=
    if hasDurableObjectBinding (JObj bindings) then
      let+ stored := rd_ask (QGet (doStorageIdKey ns name)) in
      rd_ret (Some (if truthy_text stored then default [] stored else newDoStorageId now))
    else rd_ret None in
  let bindings := match doStorageId with Some ((_ :: _) as id) => attachDoStorageId id bindings | _ => bindings end in
  let bindings := fold_left pin_database resolvedD1Refs bindings in
  let committedMeta := put_list "workflows" (map fst keyed) (obj_put (js "bindings") (JObj bindings) meta) in
  rd_ret (MkMaterialized committedMeta (map snd keyed) doStorageId).

Definition validateCommittedEnvBudget (ns name : jstr) (meta : list (jstr * jsval)) : reads unit :=
  let+ nsEncrypted := rd_ask (QHGetAll (nsSecretsKey ns)) in
  let+ workerEncrypted := rd_ask (QHGetAll (workerSecretsKey ns name)) in
  rd_lift (envBudget nsEncrypted workerEncrypted meta).

Definition stageDeployCommit (ns name version : jstr) (vNum : Z) (modules : list module) (m : Materialized)
    (outgoingRefs : list OutgoingRef) (resolvedD1Refs : list ResolvedD1Ref) : result control_error (list write) :=
  let! key := bundle_key ns name version in
  let! metaText := text_or_throw (JSON_stringify (JObj (ma_meta m))) in
  let! outgoing := stageOutgoingReferrerAdds ns name version outgoingRefs in
  let! d1 := stageD1ReferrerAdds ns name version (map (λ r, MkD1Ref (rr_binding r) (rr_databaseId r)) resolvedD1Refs) in
  Ok (stageBundleCommit key metaText modules
      ++ match non_empty (ma_doStorageId m) with Some id => [WSetNx (doStorageIdKey ns name) id] | None => [] end
      ++ map (λ u, WHSet (wu_key u) (wu_field u) (wu_value u)) (ma_workflowDefUpdates m)
      ++ stageWorkerVersionIndexUpsert ns name version vNum ++ outgoing ++ d1).

Definition commitWithWatch (ns name version : jstr) (committed : CommittedBundle) (now : Z) : txn control_result :=
  match parseVersion (JStr version) with
  | None => rd_throw Thrown
  | Some vNum =>
      let meta := pr_meta (cb_prepared committed) in
      let+ _ := watchCommitKeys ns name meta (cb_outgoingRefs committed) (cb_d1Refs committed) in
      let+ resolvedD1Refs := resolveD1RefsForCommit ns (cb_d1Refs committed) in
      let+ _ := validateCallerNotDeleting ns name in
      let+ _ := validateOutgoingRefsForCommit (cb_outgoingRefs committed) in
      let+ materialized := materializeCommittedMetadata ns name now meta resolvedD1Refs in
      let+ _ := validateCommittedEnvBudget ns name (ma_meta materialized) in
      let+ ws := rd_lift (stageDeployCommit ns name version vNum (pr_modules (cb_prepared committed)) materialized
                            (cb_outgoingRefs committed) resolvedD1Refs) in
      rd_ret (Commit ws (Deployed version))
  end.
End commit.
