(* ===== verification/DeploySafety.v ===== *)
(** * Deploys keep the routing tables coherent, and promotions can read what they commit

    The commit of src/control/handlers/deploy.js, seen from the store it runs on: what it
    writes, that it keeps the routing invariant of RoutingSafety.v, and that the metadata it
    writes reads back, in the promotion, as the request it was made from. *)

From stdpp Require Import base list strings gmap.
From Stdlib Require Import ZArith Lia.
From S2P Require Import Prelude NsPattern WorkerContract Utf8 Json JsNumber Gateway SessionPolicy Txn Control JsonView Topology.
From S2P Require Import Routing RoutingSafety Delete DeleteSafety Bundle Deploy.

#[local] Open Scope Z_scope.
#[local] Open Scope wdl_scope.
#[local] Open Scope txn_scope.

(** ** Members of metadata *)

Lemma get_put_if k b k' v meta : obj_get k (put_if b k' v meta) = if decide (k = js k') then if b then v else obj_get k meta else obj_get k meta.
Proof. destruct b; cbn [put_if]; [apply obj_get_put|by case_decide]. Qed.

Lemma get_put_list k k' l meta : obj_get k (put_list k' l meta) =
  if decide (k = js k') then match l with [] => obj_get k meta | _ => JArr l end else obj_get k meta.
Proof. unfold put_list. rewrite get_put_if. by destruct l; case_decide. Qed.

Lemma get_absent k fields : k ∉ map fst fields → obj_get k fields = JUndef.
Proof.
  induction fields as [|[k0 v] fields IH]; [done|]. cbn [map fst obj_get]. intros [H1 H2]%not_elem_of_cons.
  rewrite (proj2 (jeqb_neq k k0)) by done. auto.
Qed.

Lemma get_in k fields : obj_get k fields ≠ JUndef → (k, obj_get k fields) ∈ fields.
Proof.
  induction fields as [|[k0 v] fields IH]; [done|]. cbn [obj_get]. destruct (jeqb k k0) eqn:E; [|set_solver].
  apply jeqb_eq in E as ->. set_solver.
Qed.

(** ** Views of lists and bindings *)

Lemma list_field_view {X} (field : string) (read : jsval → option X) (enc : X → jsval) meta xs :
  (∀ x, x ∈ xs → enc x ≠ JUndef ∧ read (json_view (enc x)) = Some x) →
  obj_get (js field) meta = match map enc xs with [] => JUndef | _ => JArr (map enc xs) end →
  list_field field read (view_fields meta) = Ok xs.
Proof.
  intros Hx Hm. unfold list_field. rewrite view_get, Hm. clear Hm. destruct xs as [|x0 xs0]; [done|].
  set (xs := x0 :: xs0) in *. change (match map enc xs with [] => JUndef | _ => JArr (map enc xs) end) with (JArr (map enc xs)).
  cbn [json_view].
  assert (mapM read (map (λ x, match x with JUndef => JNull | _ => json_view x end) (map enc xs)) = Some xs) as ->; [|done].
  clearbody xs. induction xs as [|x xs IH]; [done|]. cbn [map mapM]. destruct (Hx x) as [H1 H2]; [set_solver|].
  replace (match enc x with JUndef => JNull | _ => json_view (enc x) end) with (json_view (enc x)) by (by destruct (enc x)).
  rewrite H2. cbn [mbind option_bind]. rewrite IH; [done|]. intros y Hy. apply Hx. set_solver.
Qed.

Lemma view_string v s : json_view v = JStr s → v = JStr s.
Proof. by destruct v as [| | |[]| | | |]. Qed.

Lemma elem_view_fields k x fields : (k, x) ∈ view_fields fields → ∃ x0, (k, x0) ∈ fields ∧ x = json_view x0.
Proof.
  unfold view_fields. induction fields as [|[k0 x0] fields IH]; [by intros ?%elem_of_nil|].
  assert ((k, x) ∈ obj_delete k0 (view_fields fields) → ∃ x1, (k, x1) ∈ (k0, x0) :: fields ∧ x = json_view x1) as Hd.
  { intros [_ (x1 & H & ->)%IH]%list_elem_of_filter. exists x1. split; [set_solver|done]. }
  destruct x0; first [exact Hd | intros [[= -> ->]|H]%elem_of_cons; [eexists; split; [apply list_elem_of_here|done]|by apply Hd]].
Qed.

Lemma storage_ids_ok id l : (∀ kv, kv ∈ l → is_type "do" kv.2 = true → filled_string (member "doStorageId" kv.2) = Some id) →
  ∀ seen, seen = None ∨ seen = Some id → storage_ids_coherent seen l = Ok tt.
Proof.
  induction l as [|[k b] l IH]; intros Hl seen Hs; [done|]. cbn [storage_ids_coherent].
  assert (∀ seen, seen = None ∨ seen = Some id → storage_ids_coherent seen l = Ok tt) as Hrest.
  { apply IH. intros kv Hin. apply Hl. set_solver. }
  destruct (is_type "do" b) eqn:E; [|by apply Hrest]. pose proof (Hl (k, b) (list_elem_of_here _ _) E) as Hb. cbn [snd] in Hb. rewrite Hb.
  destruct Hs as [->| ->]; [apply Hrest; auto|]. rewrite jeqb_refl. apply Hrest. auto.
Qed.

(** ** The bindings of the committed metadata *)

(** A committed binding and the prepared one it comes from: only the pinned ids differ, and a
    Durable Object binding carries the storage id [id]. *)
Definition PINNED_FIELDS : list jstr := [js "doStorageId"; js "databaseId"; js "databaseName"].

Definition pinned (id : jstr) (prepared committed : jsval) : Prop :=
  ∃ l0 l, prepared = JObj l0 ∧ committed = JObj l ∧ (∀ k, k ∉ PINNED_FIELDS → obj_get k l = obj_get k l0) ∧
    (is_type "do" committed = true → obj_get (js "doStorageId") l = JStr id).

Definition bindings_pinned (id : jstr) (b0 b : list (jstr * jsval)) : Prop :=
  map fst b = map fst b0 ∧ (∀ k x, (k, x) ∈ b → ∃ x0, (k, x0) ∈ b0 ∧ pinned id x0 x) ∧
  ∀ k, k ∈ map fst b0 → pinned id (obj_get k b0) (obj_get k b).

Lemma type_free : js "type" ∉ PINNED_FIELDS.
Proof. rewrite <- set_has_spec. by vm_compute. Qed.

Lemma put_keys k v fields : k ∈ map fst fields → map fst (obj_put k v fields) = map fst fields.
Proof.
  induction fields as [|[k0 v0] fields IH]; [by intros ?%elem_of_nil|]. cbn [map fst obj_put]. destruct (jeqb k k0) eqn:E.
  - apply jeqb_eq in E as ->. done.
  - apply jeqb_neq in E. intros [->|H]%elem_of_cons; [done|]. cbn [map fst]. by rewrite IH.
Qed.

Lemma elem_put k v fields k' x : (k', x) ∈ obj_put k v fields → (k' = k ∧ x = v) ∨ (k', x) ∈ fields.
Proof.
  induction fields as [|[k0 v0] fields IH]; cbn [obj_put].
  - intros [= -> ->]%list_elem_of_singleton. auto.
  - destruct (jeqb k k0); intros [[= -> ->]|H]%elem_of_cons; [auto|set_solver|set_solver|]. apply IH in H. set_solver.
Qed.

Lemma own_get k fields : k ∈ map fst fields → ∃ x, obj_get k fields = x ∧ (k, x) ∈ fields.
Proof.
  induction fields as [|[k0 v0] fields IH]; [by intros ?%elem_of_nil|]. cbn [map fst obj_get]. destruct (jeqb k k0) eqn:E.
  - apply jeqb_eq in E as ->. intros _. exists v0. set_solver.
  - apply jeqb_neq in E. intros [->|H]%elem_of_cons; [done|]. destruct (IH H) as (x & Hx & Hin). exists x. set_solver.
Qed.

Lemma spread_get fields l k : k ∉ map fst fields →
  match spread fields (JObj l) with JObj l' => obj_get k l' | _ => JUndef end = obj_get k l.
Proof.
  unfold spread. revert l. induction fields as [|[k0 v] fields IH]; intros l H; [done|]. cbn [fold_left fst snd map] in *.
  apply not_elem_of_cons in H as [H1 H2]. rewrite IH by done. rewrite obj_get_put. by rewrite decide_False.
Qed.

Lemma pinned_spread id x0 x fields : pinned id x0 x → map fst fields ⊆ PINNED_FIELDS → js "doStorageId" ∉ map fst fields →
  pinned id x0 (spread fields x).
Proof.
  intros (l0 & l & -> & -> & Hl & Hd) Hf Hs. eexists l0, _. split_and!; [done|reflexivity| |].
  - intros k'' Hk''. rewrite <- (Hl k'' Hk''). apply (spread_get fields l). set_solver.
  - intros Ht. rewrite <- Hd; [exact (spread_get fields l _ Hs)|]. unfold is_type, member in *.
    rewrite <- (spread_get fields l (js "type")); [exact Ht|]. pose proof type_free. set_solver.
Qed.

(** What a step of the pinning does to the bindings. *)
Lemma pin_step id b0 b fields k : bindings_pinned id b0 b → k ∈ map fst b → map fst fields ⊆ PINNED_FIELDS →
  js "doStorageId" ∉ map fst fields → bindings_pinned id b0 (update_binding k (spread fields) b).
Proof.
  intros (Hk & Hb & Hg) Hin Hf Hs. unfold update_binding. split_and!; [by rewrite put_keys| |].
  - intros k' x [[-> ->]|H]%elem_put; [|by apply Hb]. destruct (own_get k b Hin) as (x1 & Hx1 & Hin1). rewrite Hx1.
    destruct (Hb k x1 Hin1) as (x0 & H0 & Hp). exists x0. split; [done|]. by apply pinned_spread.
  - intros k' Hk'. rewrite obj_get_put. case_decide as E; [subst k'|by apply Hg]. apply pinned_spread; [|done..]. by apply Hg.
Qed.

Lemma pin_all id b0 refs : ∀ b, bindings_pinned id b0 b → (∀ r, r ∈ refs → rr_binding r ∈ map fst b0) →
  bindings_pinned id b0 (fold_left pin_database refs b).
Proof.
  induction refs as [|r refs IH]; intros b Hb Hr; [done|]. cbn [fold_left]. apply IH; [|intros; apply Hr; set_solver].
  unfold pin_database. apply pin_step; [done| | |].
  - destruct Hb as (-> & _). apply Hr. set_solver.
  - cbn [map fst str_field]. unfold PINNED_FIELDS. set_solver.
  - rewrite <- set_has_spec. by vm_compute.
Qed.

Lemma pinned_here id l : is_type "do" (JObj l) = false → pinned id (JObj l) (JObj l).
Proof. intros E. exists l, l. split_and!; [done..|]. by rewrite E. Qed.

Lemma attach_one id l : pinned id (JObj l) (if is_type "do" (JObj l) then spread [str_field "doStorageId" id] (JObj l) else JObj l).
Proof.
  destruct (is_type "do" (JObj l)) eqn:E; [|by apply pinned_here]. eexists l, _. split_and!; [done|reflexivity| |].
  - intros k' Hk'. apply (spread_get _ l). cbn [map fst str_field]. unfold PINNED_FIELDS in Hk'. set_solver.
  - intros _. cbn [fold_left fst snd str_field]. rewrite obj_get_put. by rewrite decide_True.
Qed.

Lemma obj_get_attach id b0 k : obj_get k (attachDoStorageId id b0) =
  if is_type "do" (obj_get k b0) then spread [str_field "doStorageId" id] (obj_get k b0) else obj_get k b0.
Proof.
  unfold attachDoStorageId. induction b0 as [|[k0 x] b0 IH]; [done|]. cbn [map fst snd].
  destruct (is_type "do" x) eqn:E; cbn [obj_get]; destruct (jeqb k k0); rewrite ?E; done.
Qed.

Lemma attach_pinned id b0 : (∀ k x, (k, x) ∈ b0 → ∃ l, x = JObj l) → bindings_pinned id b0 (attachDoStorageId id b0).
Proof.
  intros Hb. split_and!.
  - unfold attachDoStorageId. rewrite map_map. apply map_ext. intros [k x]. cbn [fst snd]. by destruct (is_type "do" x).
  - unfold attachDoStorageId. intros k x Hin. apply list_elem_of_fmap in Hin as ([k0 x0] & Heq & Hin). cbn [fst snd] in Heq.
    destruct (Hb _ _ Hin) as [l ->]. exists (JObj l). pose proof (attach_one id l) as Hp.
    destruct (is_type "do" (JObj l)); injection Heq as -> ->; by split.
  - intros k Hk. rewrite obj_get_attach. destruct (own_get k b0 Hk) as (x & -> & Hin). destruct (Hb _ _ Hin) as [l ->]. apply attach_one.
Qed.

Lemma unpinned id b0 : (∀ k x, (k, x) ∈ b0 → ∃ l, x = JObj l) → hasDurableObjectBinding (JObj b0) = false → bindings_pinned id b0 b0.
Proof.
  intros Hb Hd. assert (∀ k x, (k, x) ∈ b0 → pinned id x x) as Hp.
  { intros k x Hin. destruct (Hb _ _ Hin) as [l ->]. apply pinned_here. apply not_true_iff_false in Hd. apply not_true_iff_false. intros Ht.
    apply Hd. unfold hasDurableObjectBinding. cbn [entries_of]. apply existsb_exists. exists (k, JObj l). split; [by apply list_elem_of_In|done]. }
  split_and!; [done|intros k x Hin; exists x; eauto|]. intros k Hk. destruct (own_get k b0 Hk) as (x & -> & Hin). eauto.
Qed.

Lemma view_type t l : is_type t (json_view (JObj l)) = is_type t (JObj l).
Proof.
  unfold is_type. rewrite view_member. cbn [member]. destruct (obj_get (js "type") l) as [| | |[]| | | |]; done.
Qed.

Lemma pinned_coherent id b0 b : id ≠ [] → bindings_pinned id b0 b → storage_ids_coherent None (view_fields b) = Ok tt.
Proof.
  intros Hid (_ & Hb & _). apply (storage_ids_ok id); [|auto]. intros [k x] (x1 & Hin & ->)%elem_view_fields. cbn [snd].
  destruct (Hb k x1 Hin) as (x0 & _ & l0 & l & _ & -> & _ & Hd). rewrite view_type. intros Ht. rewrite view_member. cbn [member].
  rewrite (Hd Ht). cbn. by destruct id.
Qed.

Lemma filled_view v s : filled_string (json_view v) = Some s → filled_string v = Some s.
Proof. by destruct v as [| | |[]| | | |]. Qed.

(** The references read from committed metadata are references of the prepared bundle. *)
Lemma pinned_refs id b0 b ns ref : bindings_pinned id b0 b →
  ref ∈ extractOutgoingRefs (JObj (view_fields b)) ns → ref ∈ extractOutgoingRefs (JObj b0) ns.
Proof.
  intros (_ & Hb & _) Hin. unfold extractOutgoingRefs in *. cbn [entries_of] in *. apply list_elem_of_omap in Hin as ([k x] & Hin & Href).
  apply elem_view_fields in Hin as (x1 & Hin & ->). destruct (Hb k x1 Hin) as (x0 & H0 & l0 & l & -> & -> & Hl & _).
  apply list_elem_of_omap. exists (k, JObj l0). split; [done|]. rewrite view_type in Href. rewrite !view_member in Href. cbn [member] in *.
  unfold is_type in *. cbn [member] in *.
  rewrite !Hl in Href by (rewrite <- set_has_spec; by vm_compute).
  destruct (match obj_get (js "type") l0 with JStr s => _ | _ => false end); [|done].
  destruct (filled_string (json_view (obj_get (js "service") l0))) as [service|] eqn:E1; [|done]. apply filled_view in E1 as ->.
  cbn [mbind option_bind] in *. destruct (filled_string (json_view (obj_get (js "version") l0))) as [version|] eqn:E2; [|done].
  apply filled_view in E2 as ->. cbn [mbind option_bind] in *. rewrite <- Href. do 3 f_equal.
  destruct (obj_get (js "ns") l0) as [| | |[]| | | |]; done.
Qed.

(** ** The prepared bundle *)

Lemma validated_each l : ∀ n, validate_bindings_from n l = Ok tt → ∀ k x, (k, x) ∈ l → binding_name_ok k = true ∧
  ∃ spec type validate, x = JObj spec ∧ obj_get (js "type") spec = JStr type ∧ BINDING_VALIDATORS type = Some validate ∧ validate spec = Ok tt.
Proof.
  induction l as [|[k0 b] l IH]; intros n H k x; [by intros ?%elem_of_nil|]. cbn [validate_bindings_from] in H.
  apply rbind_Ok_inv in H as (u & Hn & H). destruct b as [| | | | | | |spec]; try done. destruct (obj_get (js "type") spec) as [| | | |type| | |] eqn:Et; try done.
  destruct (BINDING_VALIDATORS type) as [validate|] eqn:Ev; [|done]. apply rbind_Ok_inv in H as ([] & Hv & H). cbv zeta in H.
  destruct (1 <? _); [done|]. intros [[= -> ->]|Hin]%elem_of_cons; [|by eapply IH]. split; [by destruct (binding_name_ok k0)|].
  by exists spec, type, validate.
Qed.

Lemma validated_objects l n : validate_bindings_from n l = Ok tt → ∀ k x, (k, x) ∈ l → ∃ spec, x = JObj spec.
Proof. intros H k x Hin. destruct (validated_each l n H k x Hin) as (_ & spec & _ & _ & -> & _). by exists spec. Qed.

Lemma normalized_objects bindings b : validateBindings bindings = Ok tt → normalizeBindings bindings = Some b →
  ∀ k x, (k, x) ∈ b → ∃ spec, x = JObj spec.
Proof.
  intros Hv Hn k x Hin. destruct bindings as [| | | | | | |l]; try done. unfold normalizeBindings in Hn. cbn [nullish entries_of] in Hn.
  injection Hn as <-. apply list_elem_of_fmap in Hin as ([k0 x0] & Heq & Hin). cbn [fst snd] in Heq. injection Heq as -> ->.
  destruct (validated_objects l 0 Hv k0 x0 Hin) as [spec ->]. unfold normalize_binding.
  destruct (_ && _); by eexists.
Qed.

(** The members [prepareBundle] writes. *)
Definition BUNDLE_FIELDS : list jstr := map js ["mainModule"; "modules"; "compatibilityDate"; "compatibilityFlags"; "bindings"; "vars";
  "exports"; "workflows"; "assets"]%string.

Lemma opt_field_keys {X} k (enc : X → jsval) o : map fst (opt_field k enc o) ⊆ [js k].
Proof. destruct o; cbn [opt_field map fst]; set_solver. Qed.
Lemma array_field_keys k l : map fst (array_field k l) ⊆ [js k].
Proof. destruct l; cbn [array_field map fst]; set_solver. Qed.

Lemma get_skip k l l' : k ∉ map fst l → obj_get k (l ++ l') = obj_get k l'.
Proof.
  induction l as [|[k0 v] l IH]; [done|]. cbn [map fst app obj_get]. intros [H1 H2]%not_elem_of_cons.
  rewrite (proj2 (jeqb_neq k k0)) by done. auto.
Qed.

Lemma skip_opt {X} k k' (enc : X → jsval) o : k ≠ js k' → k ∉ map fst (opt_field k' enc o).
Proof. intros H Hin%opt_field_keys. set_solver. Qed.
Lemma skip_array k k' l : k ≠ js k' → k ∉ map fst (array_field k' l).
Proof. intros H Hin%array_field_keys. set_solver. Qed.
Lemma skip_if k k' (b : bool) (v : jsval) : k ≠ js k' → k ∉ map fst (if b then [] else [(js k', v)]).
Proof. destruct b; cbn [map fst]; set_solver. Qed.

(** The parts of an object literal that do not have the key. *)
Ltac skip_part := first [apply skip_opt | apply skip_array | apply skip_if | rewrite <- set_has_spec; vm_compute; congruence];
  try (vm_compute; congruence).
Ltac skip_fields := repeat (rewrite get_skip by skip_part); try (rewrite get_absent by skip_part).

Lemma prepared_meta JSON num today maxDate mainModule modules extras pr :
  prepareBundle JSON num today maxDate mainModule modules extras = Ok pr →
  map fst (pr_meta pr) ⊆ BUNDLE_FIELDS ∧ obj_get (js "mainModule") (pr_meta pr) = JStr mainModule ∧
  obj_get (js "modules") (pr_meta pr) = JObj (map module_json (pr_modules pr)) ∧
  collect (prepare_module JSON) (entries_of modules) = Ok (pr_modules pr) ∧ hasOwn mainModule modules = true ∧
  (∃ date, validateCompatibilityDate today maxDate (ex_compatibilityDate extras) = Ok date ∧
     obj_get (js "compatibilityDate") (pr_meta pr) = match date with Some d => JStr d | None => JUndef end) ∧
  validateCompatibilityFlags (ex_compatibilityFlags extras) = Ok tt ∧
  obj_get (js "compatibilityFlags") (pr_meta pr) = (if nullish (ex_compatibilityFlags extras) then JUndef else ex_compatibilityFlags extras) ∧
  validateBindings (ex_bindings extras) = Ok tt ∧
  obj_get (js "bindings") (pr_meta pr) = match normalizeBindings (ex_bindings extras) with Some b => JObj b | None => JUndef end.
Proof.
  unfold prepareBundle. intros H. apply rbind_Ok_inv in H as (_ & _ & H). apply rbind_Ok_inv in H as ([] & Hown & H).
  apply rbind_Ok_inv in H as ([] & Hv & H). apply rbind_Ok_inv in H as (date & Hdate & H). apply rbind_Ok_inv in H as ([] & Hf & H).
  apply rbind_Ok_inv in H as (vars & _ & H). cbv zeta in H. apply rbind_Ok_inv in H as (workflows & _ & H).
  apply rbind_Ok_inv in H as (_ & _ & H). apply rbind_Ok_inv in H as (mods & Hmods & H). apply Ok_inj in H as <-. cbn [pr_meta pr_modules].
  unfold ensure in Hown. destruct (hasOwn mainModule modules); [|done].
  split_and!; try done.
  - intros k. rewrite !map_app, !elem_of_app, <- (set_has_spec BUNDLE_FIELDS).
    assert (∀ k', k ∈ [js k'] → set_has BUNDLE_FIELDS (js k') = true → set_has BUNDLE_FIELDS k = true) as Hk by (by intros k' ->%list_elem_of_singleton).
    intros [[->|Hi]%elem_of_cons|[Hi|[Hi|[Hi|[Hi|[Hi|[Hi|Hi]]]]]]]; [done| | |destruct (nullish _); [by apply elem_of_nil in Hi|]|..];
      first [apply opt_field_keys in Hi | apply array_field_keys in Hi | idtac]; by eapply Hk.
  - exists date. split; [done|]. skip_fields. destruct date as [d|]; cbn [opt_field]; [skip_fields; by vm_compute|]. by skip_fields.
  - skip_fields. destruct (nullish _); [by skip_fields|by vm_compute].
  - skip_fields. destruct (normalizeBindings _); cbn [opt_field]; [by vm_compute|by skip_fields].
Qed.

(** ** The committed bundle *)

Definition listed (l : list jsval) : jsval := match l with [] => JUndef | _ => JArr l end.

Record committed_ok (q : DeployRequest) (ns : jstr) (pr : PreparedBundle) (c : CommittedBundle) : Prop := {
  ck_routes : obj_get (js "routes") (pr_meta (cb_prepared c)) = listed (map route_json (dq_routes q));
  ck_crons : obj_get (js "crons") (pr_meta (cb_prepared c)) = listed (map cron_json (dq_crons q));
  ck_consumers : obj_get (js "queueConsumers") (pr_meta (cb_prepared c)) = listed (map consumer_json (dq_queueConsumers q));
  ck_workersDev : obj_get (js "workersDev") (pr_meta (cb_prepared c)) = if dq_workersDev q then JUndef else JBool false;
  ck_policy : obj_get (js "sessionPolicy") (pr_meta (cb_prepared c)) =
    if jeqb (dq_sessionPolicy q) SESSION_POLICY_PRESERVE then JUndef else JStr (dq_sessionPolicy q);
  ck_rollout : obj_get (js "durableObjectRollout") (pr_meta (cb_prepared c)) = JUndef;
  ck_same : ∀ k, k ∈ BUNDLE_FIELDS → obj_get k (pr_meta (cb_prepared c)) = obj_get k (pr_meta pr);
  ck_bindings : bindings_of (pr_meta (cb_prepared c)) = JUndef ∨
    ∃ b, bindings_of (pr_meta (cb_prepared c)) = JObj b ∧ ∀ k x, (k, x) ∈ b → ∃ spec, x = JObj spec;
  ck_outgoing : cb_outgoingRefs c = extractOutgoingRefs (bindings_of (pr_meta (cb_prepared c))) ns;
  ck_d1 : cb_d1Refs c = extractD1Refs (bindings_of (pr_meta (cb_prepared c)));
  ck_modules : pr_modules (cb_prepared c) = pr_modules pr }.

Ltac get_fields := repeat first [rewrite get_put_list | rewrite get_put_if | rewrite decide_False by (vm_compute; congruence) | rewrite decide_True by done].

Lemma prepare_committed JSON num today maxDate token q ns w bindings c :
  prepareCommittedBundle JSON num today maxDate token q ns w bindings = Ok c →
  ∃ extras pr, prepareBundle JSON num today maxDate (dq_mainModule q) (dq_modules q) extras = Ok pr ∧
    ex_compatibilityDate extras = dq_compatibilityDate q ∧ ex_compatibilityFlags extras = dq_compatibilityFlags q ∧ committed_ok q ns pr c.
Proof.
  unfold prepareCommittedBundle. intros (assets & _ & H)%rbind_Ok_inv. apply rbind_Ok_inv in H as (pr & Hpr & H). cbv zeta in H.
  apply Ok_inj in H as <-. eexists _, pr. split_and!; [exact Hpr|done|done|]. apply prepared_meta in Hpr as (Hk & _ & _ & _ & _ & _ & _ & _ & Hv & Hb).
  assert (∀ k, set_has BUNDLE_FIELDS k = false → obj_get k (pr_meta pr) = JUndef) as Habs.
  { intros k Hn. apply get_absent. intros Hin%Hk%set_has_spec. congruence. }
  assert (∀ k, k ∈ BUNDLE_FIELDS → set_has (map js ["queueConsumers"; "crons"; "sessionPolicy"; "workersDev"; "routes"]%string) k = false) as Hd.
  { intros k Hin. apply not_true_iff_false. rewrite set_has_spec. revert k Hin. unfold BUNDLE_FIELDS. cbn [map].
    intros k Hin Hin'. repeat (apply elem_of_cons in Hin as [->|Hin]; [rewrite <- set_has_spec in Hin'; by vm_compute in Hin'|]). by apply elem_of_nil in Hin. }
  set (meta := put_list "queueConsumers" _ _).
  assert (∀ k, k ∈ BUNDLE_FIELDS → obj_get k meta = obj_get k (pr_meta pr)) as Hsame.
  { intros k Hin. specialize (Hd k Hin). unfold set_has in Hd. cbn [map existsb] in Hd. rewrite !orb_false_iff, !jeqb_neq in Hd.
    unfold meta. rewrite !get_put_list, !get_put_if, get_put_list. rewrite !decide_False by tauto. done. }
  assert (bindings_of meta = obj_get (js "bindings") (pr_meta pr)) as Hbm by (apply Hsame; rewrite <- set_has_spec; by vm_compute).
  split; cbn [cb_prepared cb_outgoingRefs cb_d1Refs pr_meta pr_modules]; try done; fold meta.
  - unfold meta. get_fields. rewrite Habs by by vm_compute. by destruct (map route_json _).
  - unfold meta. get_fields. rewrite Habs by by vm_compute. by destruct (map cron_json _).
  - unfold meta. get_fields. rewrite Habs by by vm_compute. by destruct (map consumer_json _).
  - unfold meta. get_fields. rewrite Habs by by vm_compute. by destruct (dq_workersDev q).
  - unfold meta. get_fields. rewrite Habs by by vm_compute. by destruct (jeqb _ _).
  - unfold meta. get_fields. by apply Habs.
  - rewrite Hbm, Hb. destruct (normalizeBindings _) as [b|] eqn:En; [|by left]. right. exists b. split; [done|].
    by eapply normalized_objects.
Qed.

(** ** The reads of the commit *)

Definition workflow_updates_at (key : jstr) (updates : list WorkflowDefUpdate) : Prop := Forall (λ u, wu_key u = key) updates.

Section commit.
Variable JSON_stringify : jsval → option jstr.
Variable randomHex : Z → nat → jstr.
Variable envBudget : gmap jstr jstr → gmap jstr jstr → list (jstr * jsval) → result control_error unit.

Lemma key_workflows_at key now workflows : ∀ index raws keyed, key_workflows JSON_stringify randomHex key now index raws workflows = Ok keyed →
  workflow_updates_at key (map snd keyed) ∧ length keyed = length workflows.
Proof.
  induction workflows as [|w workflows IH]; intros index raws keyed H; cbn [key_workflows] in H.
  - apply Ok_inj in H as <-. by split; [constructor|].
  - apply rbind_Ok_inv in H as (name & _ & H). apply rbind_Ok_inv in H as (def & _ & H). cbv zeta in H.
    destruct (JSON_stringify _); [|done]. apply rbind_Ok_inv in H as (rest & Hr & H). apply Ok_inj in H as <-.
    destruct (IH _ _ _ Hr) as [H1 H2]. cbn [map snd length]. split; [by constructor|by rewrite H2].
Qed.

(** What the committed metadata is made of. *)
Record materialized_ok (ns w : jstr) (meta : list (jstr * jsval)) (resolved : list ResolvedD1Ref) (m : Materialized) : Prop := {
  mo_updates : workflow_updates_at (workflowDefsKey ns w) (ma_workflowDefUpdates m);
  mo_kept : ∀ k, k ≠ js "bindings" → k ≠ js "workflows" → obj_get k (ma_meta m) = obj_get k meta;
  mo_bindings : ∃ id b, bindings_of (ma_meta m) = JObj b ∧ id ≠ [] ∧
    let b0 := match bindings_of meta with JObj l => l | _ => [] end in
    ((∀ k x, (k, x) ∈ b0 → ∃ l, x = JObj l) → (∀ r, r ∈ resolved → rr_binding r ∈ map fst b0) → bindings_pinned id b0 b) }.

Lemma materialize_spec (past : store → Prop) s (W : list jstr) ns w now meta resolved (Q : Materialized → list jstr → Prop) :
  (∀ m W', W ⊆ W' → materialized_ok ns w meta resolved m → Q m W') →
  rd_spec past s W (materializeCommittedMetadata JSON_stringify randomHex ns w now meta resolved) Q.
Proof.
  intros HQ. unfold materializeCommittedMetadata. cbv zeta. set (b0 := match bindings_of meta with JObj l => l | _ => [] end).
  apply rd_spec_bind. cbv beta. apply rd_spec_intro. intros keyed W1 H1. assert (W ⊆ W1) as HW1 by (by eapply reads_at_grows).
  assert (workflow_updates_at (workflowDefsKey ns w) (map snd keyed)) as Hu.
  { revert H1. apply (rd_spec_elim _ _ _ _ (λ keyed _, workflow_updates_at (workflowDefsKey ns w) (map snd keyed))). unfold materialize_workflows.
    destruct (workflows_of meta) as [|x l]; [apply rd_spec_ret; constructor|]. rd_step rd_spec_lift. intros names _. rd_step rd_spec_skip. intros defs W2 _.
    cbv zeta. destruct (negb _); [apply rd_spec_throw|]. rd_step rd_spec_lift. intros keyed' Hk%key_workflows_at.
    destruct (_ && _); [|apply rd_spec_throw]. apply rd_spec_ret. apply Hk. }
  clear H1. apply rd_spec_bind. cbv beta. destruct (hasDurableObjectBinding (JObj b0)) eqn:Ed.
  - rd_step rd_spec_skip. intros stored W2 HW2. apply rd_spec_ret. set (id := if truthy_text stored then default [] stored else newDoStorageId randomHex now).
    assert (id ≠ []) as Hid by (unfold id; by destruct stored as [[|c t]|]).
    apply rd_spec_ret, HQ; [set_solver|]. split; cbn [ma_meta ma_workflowDefUpdates]; [done| |].
    + intros k Hk1 Hk2. rewrite get_put_list, decide_False by done. rewrite obj_get_put, decide_False by done. done.
    + eexists id, _. unfold bindings_of at 1. rewrite get_put_list, decide_False by (by vm_compute). rewrite obj_get_put, decide_True by done.
      split_and!; [reflexivity|done|]. intros Hobj Hr. destruct id as [|c t]; [done|]. apply pin_all; [|done]. by apply attach_pinned.
  - apply rd_spec_ret. apply rd_spec_ret, HQ; [done|]. split; cbn [ma_meta ma_workflowDefUpdates]; [done| |].
    + intros k Hk1 Hk2. rewrite get_put_list, decide_False by done. rewrite obj_get_put, decide_False by done. done.
    + eexists (js "do_"), _. unfold bindings_of at 1. rewrite get_put_list, decide_False by (by vm_compute).
      rewrite obj_get_put, decide_True by done. split_and!; [reflexivity|done|]. intros Hobj Hr. apply pin_all; [|done]. by apply unpinned.
Qed.

(** Every read of a reference saw the store of the commit. *)
Definition target_ready (s : store) (ref : OutgoingRef) : Prop :=
  active_at (or_targetNs ref) s !! or_targetWorker ref = Some (or_targetVersion ref) ∧
  truthy_text (str_at (deleteLockKey (or_targetNs ref) (or_targetWorker ref)) s) = false ∧
  ∃ k raw, bundle_key (or_targetNs ref) (or_targetWorker ref) (or_targetVersion ref) = Ok k ∧
    hash_at k s !! js "__meta__" = Some raw ∧ raw ≠ [].

Lemma stage_all_keys_in {X} (f : X → result control_error (list jstr)) l : ∀ keys, stage_all_keys f l = Ok keys →
  ∀ x, x ∈ l → ∃ ks, f x = Ok ks ∧ ks ⊆ keys.
Proof.
  induction l as [|y l IH]; intros keys H x; [by intros ?%elem_of_nil|]. cbn [stage_all_keys] in H.
  apply rbind_Ok_inv in H as (ks & Hk & H). apply rbind_Ok_inv in H as (rest & Hr & H). apply Ok_inj in H as <-.
  intros [->|Hin]%elem_of_cons; [exists ks; set_solver|]. destruct (IH rest Hr x Hin) as (ks' & ? & ?). exists ks'. set_solver.
Qed.

Lemma rd_spec_map_metas (past : store → Prop) s (W : list jstr) refs (Q : list (option jstr) → list jstr → Prop) :
  (∀ ref k, ref ∈ refs → bundle_key (or_targetNs ref) (or_targetWorker ref) (or_targetVersion ref) = Ok k → k ∈ W) →
  (∀ metas, Forall2 (λ ref meta, ∃ k, bundle_key (or_targetNs ref) (or_targetWorker ref) (or_targetVersion ref) = Ok k ∧
     meta = hash_at k s !! js "__meta__") refs metas → Q metas W) →
  rd_spec past s W (rd_map (λ ref, let+ key := rd_lift (bundle_key (or_targetNs ref) (or_targetWorker ref) (or_targetVersion ref)) in
    rd_ask (QHGet key (js "__meta__"))) refs) Q.
Proof.
  revert Q. induction refs as [|ref refs IH]; intros Q Hk HQ; cbn [rd_map]; [apply rd_spec_ret, HQ; constructor|].
  apply rd_spec_bind. rd_step rd_spec_lift. intros k Hkey. apply rd_spec_ask_watched; [apply (Hk ref k); [set_solver|done]|]. cbn [answer].
  apply rd_spec_bind, IH; [intros ref' k' Hin; apply Hk; set_solver|]. intros metas Hm. apply rd_spec_ret, HQ. constructor; [by exists k|done].
Qed.

Lemma check_refs_ready s refs : ∀ metas,
  Forall2 (λ ref meta, ∃ k, bundle_key (or_targetNs ref) (or_targetWorker ref) (or_targetVersion ref) = Ok k ∧ meta = hash_at k s !! js "__meta__") refs metas →
  check_outgoing_refs refs (map (λ ref, str_at (deleteLockKey (or_targetNs ref) (or_targetWorker ref)) s) refs)
    (map (λ ref, active_at (or_targetNs ref) s !! or_targetWorker ref) refs) metas = Ok tt → Forall (target_ready s) refs.
Proof.
  induction refs as [|ref refs IH]; intros metas Hm H; [constructor|]. inversion Hm as [|? meta ? metas' (k & Hk & ->) Hm']; subst.
  cbn [map check_outgoing_refs] in H. apply rbind_Ok_inv in H as ([] & Hc & H). constructor; [|by eapply IH].
  unfold check_outgoing_ref in Hc. destruct (truthy_text (str_at _ s)) eqn:El; [done|]. case_bool_decide as Ea; [|done]. cbn [negb] in Hc.
  destruct (hash_at k s !! js "__meta__") as [[|x raw]|] eqn:Er; try done. split_and!; [done|done|]. by exists k, (x :: raw).
Qed.

Lemma validate_refs_spec (past : store → Prop) s (W : list jstr) refs keys (Q : unit → list jstr → Prop) :
  stage_all_keys outgoing_watch_keys refs = Ok keys → keys ⊆ W → (Forall (target_ready s) refs → Q tt W) →
  rd_spec past s W (validateOutgoingRefsForCommit refs) Q.
Proof.
  intros Hkeys HW HQ.
  assert (∀ ref, ref ∈ refs → ∃ k, bundle_key (or_targetNs ref) (or_targetWorker ref) (or_targetVersion ref) = Ok k ∧
    k ∈ W ∧ routesKey (or_targetNs ref) ∈ W ∧ deleteLockKey (or_targetNs ref) (or_targetWorker ref) ∈ W) as Hin.
  { intros ref Hin. destruct (stage_all_keys_in _ _ _ Hkeys ref Hin) as (ks & Hk & Hsub). unfold outgoing_watch_keys in Hk.
    apply rbind_Ok_inv in Hk as (k & Hk & H). apply Ok_inj in H as <-. exists k. split; [done|]. set_solver. }
  unfold validateOutgoingRefsForCommit. rd_step rd_spec_map_watched; [intros ref Hr; destruct (Hin ref Hr) as (k & ?); cbn [query_key]; tauto|].
  cbn [answer]. rd_step rd_spec_map_watched; [intros ref Hr; destruct (Hin ref Hr) as (k & ?); cbn [query_key]; tauto|]. cbn [answer].
  apply rd_spec_bind. apply rd_spec_map_metas.
  - intros ref k Hr Hk. destruct (Hin ref Hr) as (k' & Hk' & H & _). rewrite Hk in Hk'. apply Ok_inj in Hk' as <-. done.
  - intros metas Hm. apply rd_spec_lift. intros [] Hc. apply HQ. by eapply check_refs_ready.
Qed.

Lemma resolved_bindings (past : store → Prop) s (W : list jstr) ns refs (Q : list ResolvedD1Ref → list jstr → Prop) :
  (∀ resolved W', W ⊆ W' → Forall2 (λ ref r, rr_binding r = dr_binding ref) refs resolved → Q resolved W') →
  rd_spec past s W (resolveD1RefsForCommit ns refs) Q.
Proof.
  intros HQ. unfold resolveD1RefsForCommit. eapply (rd_spec_map _ _ _ (λ ref r, rr_binding r = dr_binding ref)); [|exact HQ].
  intros ref W' _ _. unfold resolve_d1_ref. rd_step rd_spec_skip. intros [db|] W1 _; [|apply rd_spec_throw]. rd_step rd_spec_watch.
  rd_step rd_spec_skip. intros [db'|] W2 _; [|apply rd_spec_throw]. destruct (jeqb _ _); [by apply rd_spec_ret|apply rd_spec_throw].
Qed.

(** At its commit a deploy has found its targets active and present, and what it writes is the
    bundle, its references, and nothing on the tables. *)
Definition deploy_writes (s : store) (ns w v : jstr) (c : CommittedBundle) (ws : list write) : Prop :=
  ∃ dst m text resolved P1 outgoing P2,
    bundle_key ns w v = Ok dst ∧ JSON_stringify (JObj (ma_meta m)) = Some text ∧
    Forall2 (λ ref r, rr_binding r = dr_binding ref) (cb_d1Refs c) resolved ∧
    materialized_ok ns w (pr_meta (cb_prepared c)) resolved m ∧ Forall (target_ready s) (cb_outgoingRefs c) ∧
    stageOutgoingReferrerAdds ns w v (cb_outgoingRefs c) = Ok outgoing ∧ plain_writes P1 ∧ plain_writes P2 ∧
    ws = stageBundleCommit dst text (pr_modules (cb_prepared c)) ++ P1 ++ outgoing ++ P2.

Lemma commit_rest_loose ns w v refs P1 outgoing P2 : plain_writes P1 → plain_writes P2 →
  stageOutgoingReferrerAdds ns w v refs = Ok outgoing → loose_writes (P1 ++ outgoing ++ P2).
Proof.
  intros H1 H2 Ho%outgoing_adds_referrers. rewrite !loose_writes_app. split_and!; [by apply plain_loose|by apply referrer_loose|by apply plain_loose].
Qed.

Lemma deploy_spec (past : store → Prop) s ns w v c now ws a W : names_ok ns w →
  reads_at past s [] (commitWithWatch JSON_stringify randomHex envBudget ns w v c now) (Ok (Commit ws a)) W →
  deploy_writes s ns w v c ws.
Proof.
  intros Hn. apply (rd_spec_elim _ _ _ _ (λ pl _, commits_with (deploy_writes s ns w v c) pl)).
  unfold commitWithWatch. destruct (parseVersion (JStr v)) as [vNum|]; [|apply rd_spec_throw]. cbv zeta.
  apply rd_spec_bind. unfold watchCommitKeys. rd_step rd_spec_lift. intros keys Hkeys. apply rd_spec_watch.
  rd_step resolved_bindings. intros resolved W1 HW1 Hres. rd_step rd_spec_skip. intros _ W2 HW2.
  apply rd_spec_bind. eapply validate_refs_spec; [exact Hkeys|set_solver|]. intros Href.
  rd_step materialize_spec. intros m W3 HW3 Hm. rd_step rd_spec_skip. intros _ W4 _. rd_step rd_spec_lift. intros ws' Hws. apply rd_spec_ret.
  unfold stageDeployCommit in Hws. apply rbind_Ok_inv in Hws as (dst & Hdst & Hws). apply rbind_Ok_inv in Hws as (text & Ht & Hws).
  apply rbind_Ok_inv in Hws as (outgoing & Ho & Hws). apply rbind_Ok_inv in Hws as (d1 & Hd1%plain_d1_adds & Hws). apply Ok_inj in Hws as <-.
  unfold text_or_throw in Ht. destruct (JSON_stringify _) as [t|] eqn:Ej; [|done]. apply Ok_inj in Ht as ->.
  exists dst, m, text, resolved, (match non_empty (ma_doStorageId m) with Some id => [WSetNx (doStorageIdKey ns w) id] | None => [] end
    ++ map (λ u, WHSet (wu_key u) (wu_field u) (wu_value u)) (ma_workflowDefUpdates m) ++ stageWorkerVersionIndexUpsert ns w v vNum), outgoing, d1.
  split_and!; [done..| |done|by rewrite <- !app_assoc]. rewrite !plain_writes_app. split_and!; [| |apply plain_version_upsert].
  - destruct (non_empty _); [|apply plain_nil]. apply plain_cons. split; [intros ? [= <-]; by apply do_storage_plain|apply plain_nil].
  - pose proof (mo_updates _ _ _ _ _ Hm) as Hu. unfold workflow_updates_at in Hu. induction Hu as [|u us Hu _ IH]; [apply plain_nil|].
    cbn [map]. apply plain_cons. split; [|exact IH]. intros k [= <-]. rewrite Hu. solve_head.
Qed.
End commit.

(** ** What the request guarantees *)

Section request.
Variable urlHost : jstr → option jstr.
Variable knownTimezone : jstr → bool.
Variable cronParses : jstr → jstr → bool.

Lemma parsed_routes_wf raw platformDomain rs : parseRoutes urlHost raw platformDomain = Ok rs → routes_wf rs.
Proof.
  unfold parseRoutes. destruct raw; try done; try (intros <-%Ok_inj; split; [constructor|done]).
  intros (H1 & H2 & _)%parse_routes_inv. split; [done|]. eapply Forall_impl; [exact H1|]. intros r Hr.
  split; [exact (parsed_host_no_bar _ _ _ Hr)|exact (pn_route _ _ _ Hr)].
Qed.

Record request_ok (ns : jstr) (q : DeployRequest) : Prop := {
  rk_parsed : ∃ raw platformDomain, parseRoutes urlHost raw platformDomain = Ok (dq_routes q);
  rk_routes : routes_wf (dq_routes q);
  rk_reachable : dq_workersDev q = true ∨ dq_routes q ≠ [];
  rk_reserved : isReservedNs (JStr ns) = false ∨ set_has ROUTES_ALLOWED_RESERVED_NS ns = true ∨ dq_routes q = [];
  rk_consumers : Forall consumer_ok (dq_queueConsumers q);
  rk_policy : isSessionPolicyMode (JStr (dq_sessionPolicy q)) = true }.

Lemma ensure_true c u : ensure c = Ok u → c = true.
Proof. by destruct c. Qed.

Lemma request_error_Ok {E A} (r : result E A) a : request_error r = Ok a → r = Ok a.
Proof. destruct r; [by intros ->%Ok_inj|done]. Qed.

Lemma prepared_request body ns platformDomain q :
  prepareDeployRequest urlHost knownTimezone cronParses body ns platformDomain = Ok q → request_ok ns q.
Proof.
  unfold prepareDeployRequest. cbv zeta. intros H. apply rbind_Ok_inv in H as (main & _ & H). apply rbind_Ok_inv in H as (assets & _ & H).
  apply rbind_Ok_inv in H as (routes & Hr%request_error_Ok & H). apply rbind_Ok_inv in H as (workersDev & _ & H).
  apply rbind_Ok_inv in H as (u1 & Hw%ensure_true & H). apply rbind_Ok_inv in H as (u2 & Hres%ensure_true & H). apply rbind_Ok_inv in H as (exports & _ & H).
  apply rbind_Ok_inv in H as (platform & _ & H). apply rbind_Ok_inv in H as (u3 & _ & H). apply rbind_Ok_inv in H as (crons & _ & H).
  apply rbind_Ok_inv in H as (consumers & Hc%request_error_Ok & H). apply rbind_Ok_inv in H as (u4 & _ & H). apply rbind_Ok_inv in H as (u5 & _ & H).
  apply rbind_Ok_inv in H as (u6 & _ & H). apply rbind_Ok_inv in H as (policy & Hp & H). apply Ok_inj in H as <-.
  split; cbn [dq_routes dq_workersDev dq_queueConsumers dq_sessionPolicy].
  - by eexists _, _.
  - by eapply parsed_routes_wf.
  - apply orb_prop in Hw as [->|Hw]; [by left|]. apply negb_true_iff, bool_decide_eq_false in Hw. by right.
  - apply orb_prop in Hres as [[H|H]%orb_prop|H]; [left; by apply negb_true_iff|by right; left|by apply bool_decide_eq_true in H; right; right].
  - unfold parseQueueConsumers in Hc. destruct (obj_get (js "queueConsumers") body); try done; try (apply Ok_inj in Hc as <-; constructor).
    by apply parse_consumers_inv in Hc as [Hc _].
  - destruct (obj_get (js "sessionPolicy") body) as [| | | |mode| | |]; try done; [by apply Ok_inj in Hp as <-|].
    destruct (isSessionPolicyMode (JStr mode)) eqn:E; [|done]. by apply Ok_inj in Hp as <-.
Qed.

(** The routes of an accepted request are those of its [routes] field. *)
Lemma prepared_routes body ns platformDomain q :
  prepareDeployRequest urlHost knownTimezone cronParses body ns platformDomain = Ok q →
  parseRoutes urlHost (obj_get (js "routes") body) platformDomain = Ok (dq_routes q).
Proof.
  unfold prepareDeployRequest. cbv zeta. intros H. apply rbind_Ok_inv in H as (main & _ & H). apply rbind_Ok_inv in H as (assets & _ & H).
  apply rbind_Ok_inv in H as (routes & Hr%request_error_Ok & H). rewrite Hr. f_equal.
  do 12 (apply rbind_Ok_inv in H as (? & _ & H)). by apply Ok_inj in H as <-.
Qed.
End request.

(** ** Reading the committed metadata *)

Lemma route_view host slot : route_of (json_view (route_json (route_at host slot))) = Some (route_at host slot).
Proof.
  unfold route_of, route_json. rewrite !view_member.
  unfold route_at. destruct (ends_with (js "*") slot); reflexivity.
Qed.

Lemma cron_view c : cron_of (json_view (cron_json c)) = Some c.
Proof. unfold cron_of, cron_json. rewrite !view_member. by destruct c. Qed.

Lemma queue_name_filled q : QUEUE_NAME_RE q = true → q ≠ [].
Proof. by destruct q. Qed.

Lemma consumer_view c : consumer_ok c → consumer_of (json_view (consumer_json c)) = Some c.
Proof.
  intros Hc. unfold consumer_of, integer_member, consumer_json. rewrite !view_member.
  pose proof (co_dead _ Hc) as Hd. destruct c as [queue size timeout retries delay dead]. cbn [qc_queue qc_maxBatchSize qc_maxBatchTimeoutMs qc_maxRetries qc_retryDelaySeconds qc_deadLetterQueue] in *.
  destruct dead as [dq|]; [|destruct delay; reflexivity]. destruct (Hd dq eq_refl) as [Hq%queue_name_filled _].
  destruct dq as [|x dq]; [done|]. destruct delay; reflexivity.
Qed.

(** What a promotion gets out of the metadata. *)
Record reads_back (q : DeployRequest) (ns : jstr) (c : CommittedBundle) (meta : list (jstr * jsval)) : Prop := {
  rb_routes : list_field "routes" route_of meta = Ok (dq_routes q);
  rb_crons : list_field "crons" cron_of meta = Ok (dq_crons q);
  rb_consumers : list_field "queueConsumers" consumer_of meta = Ok (dq_queueConsumers q);
  rb_workersDev : assertRoutableWorkersDev meta (dq_routes q) = Ok (dq_workersDev q);
  rb_policy : sessionPolicyModeFromMeta meta = dq_sessionPolicy q;
  rb_refs : ∀ ref, ref ∈ extractOutgoingRefs (bindings_of meta) ns → ref ∈ cb_outgoingRefs c }.

Lemma d1_refs_bound l r : r ∈ extractD1Refs (JObj l) → dr_binding r ∈ map fst l.
Proof.
  unfold extractD1Refs. intros ([k x] & Hin & Hr)%list_elem_of_omap. destruct (is_type "d1" x); [|done].
  destruct (filled_string (member "databaseId" x)) as [id|]; [|done]. injection Hr as <-. apply list_elem_of_fmap. by exists (k, x).
Qed.

Lemma committed_pinned q ns w pr c resolved m : committed_ok q ns pr c → materialized_ok ns w (pr_meta (cb_prepared c)) resolved m →
  Forall2 (λ ref r, rr_binding r = dr_binding ref) (cb_d1Refs c) resolved →
  ∃ id b0 b, bindings_of (view_fields (ma_meta m)) = JObj (view_fields b) ∧ id ≠ [] ∧ bindings_pinned id b0 b ∧
    cb_outgoingRefs c = extractOutgoingRefs (JObj b0) ns ∧ b0 = match bindings_of (pr_meta (cb_prepared c)) with JObj l => l | _ => [] end.
Proof.
  intros Hc Hm Hres. destruct (mo_bindings _ _ _ _ _ Hm) as (id & b & Hb & Hid & Hpin). cbv zeta in Hpin. eexists id, _, b.
  split_and!; [unfold bindings_of in *; by rewrite view_get, Hb|done|apply Hpin| |reflexivity];
    rewrite ?(ck_outgoing _ _ _ _ Hc); pose proof (ck_d1 _ _ _ _ Hc) as Hd1; clear Hpin;
    destruct (ck_bindings _ _ _ _ Hc) as [E|(l & E & Hobj)]; rewrite E in *; try done.
  - by intros k x ?%elem_of_nil.
  - intros r Hr. rewrite Hd1 in Hres. apply Forall2_nil_inv_l in Hres as ->. by apply elem_of_nil in Hr.
  - intros r Hr. rewrite Hd1 in Hres. apply list_elem_of_lookup in Hr as [i Hi]. destruct (Forall2_lookup_r _ _ _ _ _ Hres Hi) as (ref & Href & ->).
    apply d1_refs_bound. by eapply list_elem_of_lookup_2.
Qed.

Lemma deployed_reads_back urlHost JSON `{!JsonPrinter JSON} q ns w pr c resolved m text : request_ok urlHost ns q → committed_ok q ns pr c →
  materialized_ok ns w (pr_meta (cb_prepared c)) resolved m →
  Forall2 (λ ref r, rr_binding r = dr_binding ref) (cb_d1Refs c) resolved → JSON (JObj (ma_meta m)) = Some text →
  ∃ meta, routingBundleMeta (JStr text) = Ok meta ∧ reads_back q ns c meta ∧ assertDoStorageIdCoherent meta = Ok tt.
Proof.
  intros Hq Hc Hm Hres Ht. exists (view_fields (ma_meta m)).
  pose proof (printer_reads_back _ _ Ht) as Hp. change (json_view (JObj (ma_meta m))) with (JObj (view_fields (ma_meta m))) in Hp.
  assert (∀ k, set_has [js "bindings"; js "workflows"] k = false → obj_get k (ma_meta m) = obj_get k (pr_meta (cb_prepared c))) as Hk.
  { intros k H. unfold set_has in H. cbn [existsb] in H. rewrite !orb_false_iff, !jeqb_neq in H. apply (mo_kept _ _ _ _ _ Hm); tauto. }
  assert (obj_get (js "workersDev") (view_fields (ma_meta m)) = if dq_workersDev q then JUndef else JBool false) as Hwd.
  { rewrite view_get, Hk, (ck_workersDev _ _ _ _ Hc) by (by vm_compute). by destruct (dq_workersDev q). }
  assert (obj_get (js "sessionPolicy") (view_fields (ma_meta m)) = if jeqb (dq_sessionPolicy q) SESSION_POLICY_PRESERVE then JUndef else JStr (dq_sessionPolicy q)) as Hsp.
  { rewrite view_get, Hk, (ck_policy _ _ _ _ Hc) by (by vm_compute). by destruct (jeqb _ _). }
  assert (obj_get (js "durableObjectRollout") (view_fields (ma_meta m)) = JUndef) as Hdr.
  { by rewrite view_get, Hk, (ck_rollout _ _ _ _ Hc) by (by vm_compute). }
  pose proof (rk_policy _ _ _ Hq) as Hpol.
  destruct (committed_pinned q ns w pr c resolved m Hc Hm Hres) as (id & b0 & b & Hvb & Hid & Hbp & Hout & _).
  split_and!.
  - unfold routingBundleMeta, parseBundleMeta. rewrite Hp. cbn [rbind]. rewrite Hwd, Hsp, Hdr. destruct (dq_workersDev q); cbn [rbind];
      destruct (jeqb _ _); cbn [orb]; rewrite ?Hpol; done.
  - split.
    + eapply list_field_view; [|by rewrite Hk by (by vm_compute); exact (ck_routes _ _ _ _ Hc)]. intros r Hr. split; [done|].
      destruct (rk_routes _ _ _ Hq) as [_ Hwf]. rewrite Forall_forall in Hwf. destruct (Hwf r Hr) as [_ ->]. apply route_view.
    + eapply list_field_view; [|by rewrite Hk by (by vm_compute); exact (ck_crons _ _ _ _ Hc)]. intros x _. split; [done|apply cron_view].
    + eapply list_field_view; [|by rewrite Hk by (by vm_compute); exact (ck_consumers _ _ _ _ Hc)]. intros x Hx. split; [done|].
      pose proof (rk_consumers _ _ _ Hq) as Hcons. rewrite Forall_forall in Hcons. by apply consumer_view, Hcons.
    + unfold assertRoutableWorkersDev, workersDev_of. rewrite Hwd. destruct (rk_reachable _ _ _ Hq) as [->|Hne]; [done|].
      destruct (dq_workersDev q); [done|]. by destruct (dq_routes q).
    + unfold sessionPolicyModeFromMeta. cbv zeta. rewrite Hsp, Hdr. destruct (jeqb _ _) eqn:E; [|by rewrite Hpol]. by apply jeqb_eq in E.
    + intros ref. rewrite Hvb, Hout. by eapply pinned_refs.
  - unfold assertDoStorageIdCoherent. unfold bindings_of in Hvb. rewrite Hvb. by eapply pinned_coherent.
Qed.

(** ** The effect of a deploy *)

Lemma hset_fields_effect key (fields : list (jstr * list Z)) : ∀ s f,
  hash_at key (apply_writes (map (λ fv : jstr * list Z, WHSet key fv.1 (utf8_decode fv.2)) fields) s) !! f =
  match last (filter (λ fv : jstr * list Z, fv.1 = f) fields) with Some fv => Some (utf8_decode fv.2) | None => hash_at key s !! f end.
Proof.
  induction fields as [|[f0 b] fields IH]; intros s f; [done|].
  change (apply_writes (map ?g ((f0, b) :: fields)) s) with (apply_writes (map g fields) (apply_write (WHSet key f0 (utf8_decode b)) s)).
  rewrite IH. clear IH. cbn [apply_write]. rewrite hash_set_hash, decide_True by done. rewrite filter_cons. cbn [fst].
  destruct (decide (f0 = f)) as [->|Hne]; [|by rewrite lookup_insert_ne]. rewrite lookup_insert_eq, last_cons. by destruct (last _).
Qed.

Lemma bundle_commit_targets dst text modules : Forall (λ k, k = dst) (targets (stageBundleCommit dst text modules)).
Proof.
  unfold stageBundleCommit, targets. cbn. constructor; [done|]. induction (bundle_fields text modules) as [|x l IH]; [constructor|].
  cbn. by constructor.
Qed.

Lemma bundle_commit_other dst text modules s k : k ≠ dst → same_at k s (apply_writes (stageBundleCommit dst text modules) s).
Proof.
  intros Hne. apply apply_writes_other. pose proof (bundle_commit_targets dst text modules) as H. rewrite Forall_forall in H. intros Hin%H. done.
Qed.

(** The committed hash, field by field: the last write of a field stays. *)
Lemma bundle_commit_effect dst text modules s f : hash_at dst (apply_writes (stageBundleCommit dst text modules) s) !! f =
  match last (filter (λ fv : jstr * list Z, fv.1 = f) (bundle_fields text modules)) with Some fv => Some (utf8_decode fv.2) | None => None end.
Proof.
  unfold stageBundleCommit. change (apply_writes (?x :: ?l) s) with (apply_writes l (apply_write x s)). rewrite hset_fields_effect.
  destruct (last _); [done|]. destruct (del_blank dst s) as (_ & H & _). by rewrite <- H.
Qed.

Lemma bundle_commit_meta dst text modules s : utf8_decode (utf8_encode text) = text →
  hash_at dst (apply_writes (stageBundleCommit dst text modules) s) !! js "__meta__" = Some text.
Proof.
  intros Ht. rewrite bundle_commit_effect. unfold bundle_fields. rewrite filter_app, last_app, filter_cons, decide_True by done.
  cbn [last filter list_filter snd]. by rewrite Ht.
Qed.

#[local] Abbreviation is_bundle_key := (λ k, is_bundle k = true).
#[local] Abbreviation keeps := (keeps_invariant control_inv bundles_settled is_bundle_key).

Section deploys.
Variable urlHost : jstr → option jstr.
Variable knownTimezone : jstr → bool.
Variable cronParses : jstr → jstr → bool.
Variable JSON_stringify : jsval → option jstr.
Context `{!JsonPrinter JSON_stringify}.
Variable String_number : jnum → jstr.
Variable todayUtc maxDate : jstr.
Variable randomHex : Z → nat → jstr.
Variable envBudget : gmap jstr jstr → gmap jstr jstr → list (jstr * jsval) → result control_error unit.

(** A bundle made from a request, whatever the linking made of its bindings. *)
Definition made_from (ns w : jstr) (q : DeployRequest) (c : CommittedBundle) : Prop :=
  (∃ body platformDomain, prepareDeployRequest urlHost knownTimezone cronParses body ns platformDomain = Ok q) ∧
  ∃ token bindings, prepareCommittedBundle JSON_stringify String_number todayUtc maxDate token q ns w bindings = Ok c.

(** A commit seen from its store: the bundle is there, reads back as the request, and
    everything else on the tables is as it was. *)
Record deployed (s s' : store) (ns w v dst : jstr) (q : DeployRequest) (c : CommittedBundle) : Prop := {
  dd_meta : ∃ raw meta, hash_at dst s' !! js "__meta__" = Some raw ∧ routingBundleMeta (JStr raw) = Ok meta ∧
    reads_back q ns c meta ∧ assertDoStorageIdCoherent meta = Ok tt;
  dd_targets : Forall (target_ready s) (cb_outgoingRefs c);
  dd_tables : ∀ k, table_key k = true → k ≠ dst → same_at k s s' }.

Lemma deploy_effect (past : store → Prop) s ns w v dst q c now ws a W : names_ok ns w → made_from ns w q c → bundle_key ns w v = Ok dst →
  reads_at past s [] (commitWithWatch JSON_stringify randomHex envBudget ns w v c now) (Ok (Commit ws a)) W →
  deployed s (apply_writes ws s) ns w v dst q c.
Proof.
  intros Hn [(body & domain & Hreq%prepared_request) (token & bindings & Hc)] Hdst Hr.
  apply prepare_committed in Hc as (extras & pr & _ & _ & _ & Hc).
  apply deploy_spec in Hr as (dst' & m & text & resolved & P1 & outgoing & P2 & Hk & Ht & Hres & Hm & Href & Ho & HP1 & HP2 & ->); [|done].
  rewrite Hdst in Hk. apply Ok_inj in Hk as <-. pose proof (bundle_key_is_bundle _ _ _ _ Hn Hdst) as Hb.
  assert (loose_writes (P1 ++ outgoing ++ P2)) as HP by (by apply commit_rest_loose with ns w v (cb_outgoingRefs c)).
  rewrite apply_writes_app. set (s1 := apply_writes (stageBundleCommit _ _ _) s).
  assert (∀ k, table_key k = true → same_at k s1 (apply_writes (P1 ++ outgoing ++ P2) s1)) as Hs1 by (intros k; by apply loose_writes_same).
  split; [|done|].
  - destruct (deployed_reads_back urlHost JSON_stringify q ns w pr c resolved m text) as (meta & H1 & H2 & H3); [done..|]. exists text, meta.
    split_and!; [|done..]. destruct (Hs1 dst (table_bundle _ Hb)) as (_ & <- & _). apply bundle_commit_meta. by eapply printer_well_formed.
  - intros k Hk Hne. etrans; [by apply bundle_commit_other|]. by apply Hs1.
Qed.

Lemma deployed_routes s s' ns w v dst q c : deployed s s' ns w v dst q c → routes_in (hash_at dst s') = Some (dq_routes q).
Proof.
  intros [(raw & meta & H1 & H2 & H3 & _) _ _]. unfold routes_in. rewrite H1. cbn [mbind option_bind]. rewrite H2. cbn [rbind].
  by rewrite (rb_routes _ _ _ _ H3).
Qed.

Lemma deploy_keeps ns w v dst q c : names_ok ns w → made_from ns w q c → bundle_key ns w v = Ok dst →
  keeps {[dst]} (commitWithWatch JSON_stringify randomHex envBudget ns w v c).
Proof.
  intros Hn Hq Hd. pose proof (bundle_key_is_bundle _ _ _ _ Hn Hd) as Hb. split; [by intros k ->%elem_of_singleton|].
  intros now e s ws a W Hi Hdis Hbl Hr. pose proof Hi as [Hri _]. eapply deploy_effect in Hr; [|done..].
  assert (blank dst s) as Hblank by (apply Hbl; set_solver).
  destruct (new_bundle_inv s (apply_writes ws s) dst) as [H1 H2]; try done; [by apply (dd_tables _ _ _ _ _ _ _ _ Hr)| |].
  - rewrite (deployed_routes _ _ _ _ _ _ _ _ Hr). intros rs [= <-]. destruct Hq as [(body & domain & Hreq%prepared_request) _].
    exact (rk_routes _ _ _ Hreq).
  - apply kept_settled; [done..|]. intros k Hk Hne. apply (dd_tables _ _ _ _ _ _ _ _ Hr); [auto with tables|set_solver].
Qed.

(** C6. Deployed metadata is well formed. Whatever a deploy commits, a promotion of that version
    reads it without an error: the metadata parses, its Durable Object bindings share one
    storage id, and its routes, crons, queue consumers, [workersDev] and session policy are
    those of the request. *)
Theorem deployed_metadata_readable (past : store → Prop) (s : store) (ns w v : jstr) (q : DeployRequest) (c : CommittedBundle) (now : Z)
    (ws : list write) (a : control_result) (W watch : list jstr)
    (Hnames : names_ok ns w) (Hq : made_from ns w q c)
    (Hcommit : reads_at past s [] (commitWithWatch JSON_stringify randomHex envBudget ns w v c now) (Ok (Commit ws a)) W)
    (Hlock : truthy_text (str_at (deleteLockKey ns w) (apply_writes ws s)) = false) :
  ∃ inputs, run_reads (apply_writes ws s) (readPromoteInitialSnapshot ns w v watch) = Ok (active_at ns (apply_writes ws s) !! w, inputs) ∧
    pi_newRoutes inputs = dq_routes q ∧ pi_workersDev inputs = dq_workersDev q ∧ pi_sessionPolicy inputs = dq_sessionPolicy q ∧
    pi_newCrons inputs = dq_crons q ∧ pi_newQueueConsumers inputs = dq_queueConsumers q ∧
    ∀ ref, ref ∈ pi_outgoingRefs inputs → ref ∈ cb_outgoingRefs c.
Proof.
  destruct (deploy_spec _ _ _ _ _ _ _ _ _ _ _ _ _ Hnames Hcommit) as (dst & _ & _ & _ & _ & _ & _ & Hdst & _).
  destruct (deploy_effect _ _ _ _ _ _ _ _ _ _ _ _ Hnames Hq Hdst Hcommit) as [(raw & meta & H1 & H2 & H3 & H4) _ _].
  destruct Hq as [(body & domain & Hreq%prepared_request) _]. set (s' := apply_writes ws s) in *. eexists.
  unfold readPromoteInitialSnapshot. rewrite Hdst. cbn [rd_lift reads_bind run_reads answer rd_watch rd_ask rd_ret]. rewrite Hlock, H1.
  cbn [reads_bind run_reads rd_lift]. rewrite H2. cbn [rbind]. rewrite (rb_routes _ _ _ _ H3). cbn [rbind].
  rewrite (rb_workersDev _ _ _ _ H3). cbn [rbind]. rewrite (rb_crons _ _ _ _ H3). cbn [rbind]. rewrite (rb_consumers _ _ _ _ H3). cbn [rbind].
  rewrite H4. cbn [rbind].
  assert (isReservedNs (JStr ns) && negb (set_has ROUTES_ALLOWED_RESERVED_NS ns) && negb (bool_decide (length (dq_routes q) = 0%nat)) = false) as ->.
  { destruct (rk_reserved _ _ _ Hreq) as [->|[->| ->]]; [done|by rewrite andb_false_r|by rewrite andb_false_r]. }
  cbn [rbind reads_bind run_reads rd_ret]. rewrite (rb_policy _ _ _ _ H3). split_and!; [reflexivity|done..|].
  intros ref. apply (rb_refs _ _ _ _ H3).
Qed.
End deploys.

(** ** A concrete deploy *)

Module Demo.
Definition body : list (jstr * jsval) :=
  [(js "code", JStr (js "export default {}")); (js "workersDev", JBool false);
   (js "routes", JArr [JStr (js "api.example.com/v1/*")]); (js "sessionPolicy", JStr (js "restart"));
   (js "crons", JArr [JObj [str_field "cron" (js "0 * * * *")]]);
   (js "queueConsumers", JArr [JObj [str_field "queue" (js "jobs"); str_field "deadLetterQueue" (js "dead")]]);
   (js "bindings", JObj [(js "BOX", JObj [str_field "type" (js "do"); str_field "className" (js "Box")]);
                         (js "KV", JObj [str_field "type" (js "kv"); str_field "id" (js "store")])])].

Definition number_text (n : jnum) : jstr := match n with NInt z => string_of_Z z | _ => [] end.
Definition hex (now : Z) (i : nat) : jstr := js "00112233445566778899aabbccddeeff".
Definition budget (a b : gmap jstr jstr) (meta : list (jstr * jsval)) : result control_error unit := Ok tt.

Definition request : result control_error DeployRequest :=
  prepareDeployRequest Some (λ _, true) (λ _ _, true) body (js "acme") (js "workers.local").

Definition bundle_of (q : DeployRequest) : result control_error CommittedBundle :=
  prepareCommittedBundle checked_stringify number_text (js "2026-06-01") (js "2026-06-01") [] q (js "acme") (js "api") (dq_mergedBindings q).

Definition empty_request : DeployRequest :=
  MkDeployRequest [] JUndef None [] true [] [] [] [] [] [] JUndef JUndef JUndef JUndef.
Definition the_request : DeployRequest := match request with Ok q => q | Err _ => empty_request end.
Definition the_bundle : CommittedBundle := match bundle_of the_request with Ok c => c | Err _ => MkCommitted (MkPrepared [] []) [] [] end.
Definition the_deploy (now : Z) : txn control_result :=
  commitWithWatch checked_stringify hex budget (js "acme") (js "api") (js "v1") the_bundle now.
Definition the_writes (s : store) : list write :=
  match run_reads s (the_deploy 0) with Ok (Commit ws _) => ws | _ => [] end.

Lemma made : made_from Some (λ _, true) (λ _ _, true) checked_stringify number_text (js "2026-06-01") (js "2026-06-01")
  (js "acme") (js "api") the_request the_bundle.
Proof.
  split.
  - exists body, (js "workers.local"). unfold the_request, request. vm_compute. reflexivity.
  - exists [], (dq_mergedBindings the_request). vm_compute. reflexivity.
Qed.

Lemma runs : ∃ W, reads_at (λ s, s = empty_store) empty_store [] (the_deploy 0) (Ok (Commit (the_writes empty_store) (Deployed (js "v1")))) W.
Proof.
  destruct (reads_at_run (λ s, s = empty_store) empty_store (the_deploy 0) eq_refl []) as [W H]. exists W.
  replace (Ok (Commit (the_writes empty_store) (Deployed (js "v1")))) with (run_reads empty_store (the_deploy 0)); [done|].
  vm_compute. reflexivity.
Qed.
End Demo.

Lemma deployed_metadata_readable_witness : ∃ inputs,
  run_reads (apply_writes (Demo.the_writes empty_store) empty_store) (readPromoteInitialSnapshot (js "acme") (js "api") (js "v1") []) = Ok (None, inputs) ∧
  pi_newRoutes inputs = [MkRoute (js "api.example.com") (js "/v1/*") (JStr (js "prefix")) (JStr (js "/v1/"))] ∧
  pi_workersDev inputs = false ∧ pi_sessionPolicy inputs = js "restart" ∧ pi_newCrons inputs = [MkCron (js "0 * * * *") (js "UTC")].
Proof.
  destruct Demo.runs as [W Hr].
  destruct (deployed_metadata_readable Some (λ _, true) (λ _ _, true) checked_stringify Demo.number_text (js "2026-06-01") (js "2026-06-01")
    Demo.hex Demo.budget (λ s, s = empty_store) empty_store (js "acme") (js "api") (js "v1") Demo.the_request Demo.the_bundle 0
    (Demo.the_writes empty_store) (Deployed (js "v1")) W [])
    as (inputs & H1 & H2 & H3 & H4 & H5 & _).
  - apply (bool_decide_unpack _). vm_compute. reflexivity.
  - exact Demo.made.
  - exact Hr.
  - vm_compute. reflexivity.
  - exists inputs. split_and!; [rewrite H1; vm_compute; reflexivity|rewrite H2; vm_compute; reflexivity|rewrite H3; vm_compute; reflexivity|
      rewrite H4; vm_compute; reflexivity|rewrite H5; vm_compute; reflexivity].
Defined.
