(* ===== verification/DeployLink.v ===== *)
(** * Service bindings across namespaces

    A deploy links its service bindings before its transaction, with reads that watch nothing,
    and checks again at the commit that each target is still the active version. Bundles do not
    change, so what was checked of the target's exports still holds: a committed binding to
    another namespace is one that namespace allows. *)

From stdpp Require Import base list strings gmap.
From Stdlib Require Import ZArith Lia.
From S2P Require Import Prelude NsPattern WorkerContract Utf8 Json JsNumber Txn Control JsonView Topology Routing RoutingSafety.
From S2P Require Import Delete Bundle Deploy DeploySafety.

#[local] Open Scope Z_scope.
#[local] Open Scope wdl_scope.
#[local] Open Scope txn_scope.

(** ** One binding *)

Definition target_ns (callerNs : jstr) (spec : list (jstr * jsval)) : jstr :=
  match obj_get (js "ns") spec with JStr s => s | _ => callerNs end.

(** What a linked binding has passed. *)
Record link_passed (metas : jstr → jstr → jstr → result control_error (option (list (jstr * jsval)))) (ns name : jstr)
    (spec linked : list (jstr * jsval)) (service version : jstr) : Prop := {
  lp_service : filled_string (obj_get (js "service") spec) = Some service;
  lp_version : filled_string (JStr version) = Some version;
  lp_platform : set_has PLATFORM_TIER_RESERVED_NS (target_ns ns spec) = false;
  lp_ns : filled_string (obj_get (js "ns") spec) = match obj_get (js "ns") spec with JStr s => Some s | _ => None end;
  lp_meta : ∃ found, metas (target_ns ns spec) service version = Ok found ∧
    check_entrypoint ns (target_ns ns spec) (link_entrypoint spec) (default [] found) = Ok tt;
  lp_linked : linked = obj_put (js "version") (JStr version) spec }.

Lemma acceptable_filled s : isAdminAcceptableNs (JStr s) = true → s ≠ [].
Proof. intros H ->. by vm_compute in H. Qed.

Lemma link_service_inv versions metas ns name spec linked : linkServiceBinding versions metas ns name spec = Ok linked →
  ∃ service version, link_passed metas ns name spec linked service version.
Proof.
  unfold linkServiceBinding. destruct (obj_get (js "requiredCallerSecrets") spec); try done.
  destruct (filled_string (obj_get (js "service") spec)) as [service|] eqn:Es; [|done]. cbv zeta.
  destruct (negb (nullish (obj_get (js "ns") spec) || isAdminAcceptableNs (obj_get (js "ns") spec))) eqn:En; [done|].
  apply negb_false_iff in En. fold (target_ns ns spec). destruct (set_has PLATFORM_TIER_RESERVED_NS (target_ns ns spec)) eqn:Ep; [done|].
  destruct (jeqb service name && jeqb (target_ns ns spec) ns); [done|].
  destruct (versions (target_ns ns spec) service) as [[|c version]|]; try done.
  intros (found & Hf & H)%rbind_Ok_inv. cbv zeta in H. destruct (_ && _); [done|]. destruct (WDL_RESERVED_ENTRYPOINT_RE _); [done|].
  apply rbind_Ok_inv in H as ([] & Hc & H). apply Ok_inj in H as <-. exists service, (c :: version). split; try done; [|by exists found].
  apply orb_prop in En as [En|En]; destruct (obj_get (js "ns") spec) as [| | | |s| | |]; try done. apply acceptable_filled in En. by destruct s.
Qed.

Lemma get_elem k fields l : obj_get k fields = JObj l → (k, JObj l) ∈ fields.
Proof.
  induction fields as [|[k0 x] fields IH]; [done|]. cbn [obj_get]. destruct (jeqb k k0) eqn:E; [|intros H%IH; set_solver].
  apply jeqb_eq in E as ->. intros ->. apply list_elem_of_here.
Qed.

Lemma collect_get versions metas ns name k bindings : ∀ linked, collect (link_binding versions metas ns name) bindings = Ok linked →
  ∀ spec, obj_get k bindings = JObj spec → is_type "service" (JObj spec) = true →
  ∃ l, obj_get k linked = JObj l ∧ linkServiceBinding versions metas ns name spec = Ok l.
Proof.
  induction bindings as [|[k0 x] bindings IH]; intros linked H spec; [done|]. cbn [collect] in H.
  apply rbind_Ok_inv in H as ([k1 y] & Hy & H). apply rbind_Ok_inv in H as (ys & Hys & H). apply Ok_inj in H as <-.
  assert (k1 = k0) as ->.
  { unfold link_binding in Hy. cbn [fst snd] in Hy. destruct x as [| | | | | | |l]; try (by apply Ok_inj in Hy as [= <- _]).
    destruct (is_type "service" (JObj l)); [apply rbind_Ok_inv in Hy as (? & _ & Hy)|]; by apply Ok_inj in Hy as [= <- _]. }
  cbn [obj_get]. destruct (jeqb k k0); [|by apply IH]. intros -> Ht. unfold link_binding in Hy. cbn [fst snd] in Hy. rewrite Ht in Hy.
  apply rbind_Ok_inv in Hy as (l & Hl & Hy). apply Ok_inj in Hy as [= <-]. by exists l.
Qed.

(** ** The reads of the preflight *)

(** The metadata of a version, as some earlier store had it. *)
Definition meta_seen (past : store → Prop) (ns w v : jstr) (meta : list (jstr * jsval)) : Prop :=
  ∃ s0 k raw, past s0 ∧ bundle_key ns w v = Ok k ∧ hash_at k s0 !! js "__meta__" = Some raw ∧ parseBundleMeta (JStr raw) = Ok meta.

Lemma meta_cache_seen (past : store → Prop) targets metas ns w v meta :
  Forall2 (λ (t : jstr * jstr * jstr) (raw : option jstr), ∃ s0 k, past s0 ∧ bundle_key t.1.1 t.1.2 t.2 = Ok k ∧ raw = hash_at k s0 !! js "__meta__") targets metas →
  meta_cache targets metas ns w v = Ok (Some meta) → meta_seen past ns w v meta.
Proof.
  intros Hf. unfold meta_cache. destruct (find _ (zip targets metas)) as [[t raw]|] eqn:E; cbn; [|by intros ?%Ok_inj].
  destruct raw as [raw|]; [|by intros ?%Ok_inj]. intros (meta' & Hm & H)%rbind_Ok_inv. apply Ok_inj in H as [= <-].
  apply find_some in E as [Hin Ht]. cbn [fst] in Ht. apply bool_decide_eq_true in Ht as ->.
  induction Hf as [|t raw' targets metas (s0 & k & Hp & Hk & Hr) _ IH]; [by cbn in Hin|]. cbn [zip zip_with] in Hin.
  destruct Hin as [[= -> ->]|Hin]; [|by apply IH]. cbn [fst snd] in *. exists s0, k, raw. by rewrite <- Hr.
Qed.

Lemma preflight_spec (past : store → Prop) s (W : list jstr) ns name bindings targets (Q : list (jstr * jsval) → list jstr → Prop) :
  (∀ linked W', (∀ k spec, obj_get k bindings = JObj spec → is_type "service" (JObj spec) = true →
     ∃ l service version metas, obj_get k linked = JObj l ∧ link_passed metas ns name spec l service version ∧
       ∀ ns w v meta, metas ns w v = Ok (Some meta) → meta_seen past ns w v meta) → Q linked W') →
  rd_spec past s W (validateServiceBindingsPreflight ns name bindings targets) Q.
Proof.
  intros HQ. unfold validateServiceBindingsPreflight. rd_step rd_spec_skip. intros versions W1 _. cbv zeta.
  set (versioned := omap _ (zip targets versions)). apply rd_spec_bind.
  apply (rd_spec_map _ _ _ (λ (t : jstr * jstr * jstr) (raw : option jstr), ∃ s0 k, past s0 ∧ bundle_key t.1.1 t.1.2 t.2 = Ok k ∧ raw = hash_at k s0 !! js "__meta__")).
  { intros t W' _ _. rd_step rd_spec_lift. intros k Hk. apply rd_spec_ask. intros s0 Hs0 _. by exists s0, k. }
  intros metas W2 _ Hm. apply rd_spec_lift. intros linked Hl. apply HQ. intros k spec Hin Ht.
  destruct (collect_get _ _ _ _ _ _ _ Hl spec Hin Ht) as (l & Hiny & Hlink). destruct (link_service_inv _ _ _ _ _ _ Hlink) as (service & version & Hp).
  exists l, service, version. eexists. split_and!; [done|exact Hp|]. intros ns' w' v' meta. by apply meta_cache_seen.
Qed.

Lemma link_platform_keeps ns exports secrets requests : ∀ bindings out, link_platform ns exports secrets bindings requests = Ok out →
  ∀ k l, obj_get k bindings = JObj l → obj_get k out = JObj l.
Proof.
  induction requests as [|pb requests IH]; intros bindings out H k l Hin; cbn [link_platform] in H; [by apply Ok_inj in H as <-|].
  apply rbind_Ok_inv in H as (linked & Hl & H). eapply IH; [exact H|]. rewrite obj_get_put. case_decide as E; [subst k|done].
  unfold linkPlatformBinding in Hl. destruct (has_own _ bindings) eqn:Eo; [done|]. apply get_elem in Hin.
  apply not_true_iff_false in Eo. destruct Eo. apply existsb_exists. eexists. split; [by apply list_elem_of_In|]. apply jeqb_refl.
Qed.

Lemma run_preflight_spec (past : store → Prop) s (W : list jstr) ns name q (Q : list (jstr * jsval) → list jstr → Prop) :
  (∀ linked W', (∀ k spec, obj_get k (dq_mergedBindings q) = JObj spec → is_type "service" (JObj spec) = true →
     ∃ l service version metas, obj_get k linked = JObj l ∧ link_passed metas ns name spec l service version ∧
       ∀ ns w v meta, metas ns w v = Ok (Some meta) → meta_seen past ns w v meta) → Q linked W') →
  rd_spec past s W (runDeployPreflight ns name q) Q.
Proof.
  intros HQ. unfold runDeployPreflight. cbv zeta. rd_step preflight_spec. intros linked W1 Hl. unfold resolvePlatformBindings.
  destruct (dq_platformBindingsList q) as [|pb pbs]; [by apply rd_spec_ret, HQ|]. set (requests := pb :: pbs).
  rd_step rd_spec_skip. intros routes W2 _. rd_step rd_spec_skip. intros nsSecrets W3 _. rd_step rd_spec_skip. intros workerSecrets W4 _.
  rd_step rd_spec_skip. intros exports W5 _. apply rd_spec_lift. intros out Hout. apply HQ. intros k spec Hin Ht.
  destruct (Hl k spec Hin Ht) as (l & service & version & metas & H1 & H2 & H3). exists l, service, version, metas. split_and!; [|done..].
  by eapply link_platform_keeps.
Qed.

(** ** From the linked bindings to the references of the commit *)

Lemma normalized_get k l : k ≠ js "entrypoint" → match normalize_binding (JObj l) with JObj l' => obj_get k l' | _ => JUndef end = obj_get k l.
Proof. intros Hk. unfold normalize_binding. destruct (_ && _); [rewrite obj_get_delete; by rewrite decide_False|done]. Qed.

Lemma normalized_obj l : ∃ l', normalize_binding (JObj l) = JObj l' ∧ ∀ k, k ≠ js "entrypoint" → obj_get k l' = obj_get k l.
Proof.
  destruct (normalize_binding (JObj l)) as [| | | | | | |l'] eqn:E; try (unfold normalize_binding in E; by destruct (_ && _) in E).
  exists l'. split; [done|]. intros k Hk. pose proof (normalized_get k l Hk) as H. by rewrite E in H.
Qed.

Lemma obj_get_normalized k bindings l : obj_get k bindings = JObj l →
  obj_get k (map (λ kv, (kv.1, normalize_binding kv.2)) bindings) = normalize_binding (JObj l).
Proof. induction bindings as [|[k0 x] bindings IH]; [done|]. cbn [map obj_get fst snd]. destruct (jeqb k k0); [by intros ->|apply IH]. Qed.

Lemma normalized_entrypoint l l' : normalize_binding (JObj l) = JObj l' → link_entrypoint l' = link_entrypoint l.
Proof.
  unfold normalize_binding. destruct (is_type _ _ && _) eqn:E; intros [= <-]; [|done]. apply andb_prop in E as [_ E].
  unfold link_entrypoint. rewrite obj_get_delete, decide_True by done. destruct (obj_get (js "entrypoint") l) as [| | | |e| | |]; try done.
  by apply jeqb_eq in E as ->.
Qed.

(** The prepared bindings are the linked ones. *)
Lemma prepared_bindings JSON num today maxDate token q ns w bindings c : bindings ≠ [] →
  prepareCommittedBundle JSON num today maxDate token q ns w bindings = Ok c →
  bindings_of (pr_meta (cb_prepared c)) = JObj (map (λ kv, (kv.1, normalize_binding kv.2)) bindings) ∧
  cb_outgoingRefs c = extractOutgoingRefs (bindings_of (pr_meta (cb_prepared c))) ns.
Proof.
  intros Hne Hc. unfold prepareCommittedBundle in Hc. apply rbind_Ok_inv in Hc as (assets & _ & Hc).
  apply rbind_Ok_inv in Hc as (pr & Hpr & Hc). cbv zeta in Hc. apply Ok_inj in Hc as <-. cbn [cb_outgoingRefs cb_prepared pr_meta]. split; [|done].
  unfold bindings_of. get_fields. apply prepared_meta in Hpr as (_ & _ & _ & _ & _ & _ & _ & _ & _ & ->). by destruct bindings.
Qed.

(** A linked binding as the prepared bundle has it. *)
Lemma linked_fields metas ns name spec l service version l' : link_passed metas ns name spec l service version →
  is_type "service" (JObj spec) = true → normalize_binding (JObj l) = JObj l' →
  obj_get (js "type") l' = obj_get (js "type") spec ∧ obj_get (js "service") l' = obj_get (js "service") spec ∧
  obj_get (js "ns") l' = obj_get (js "ns") spec ∧ obj_get (js "version") l' = JStr version ∧ link_entrypoint l' = link_entrypoint spec.
Proof.
  intros Hp Ht Hn. destruct (normalized_obj l) as (l2 & Hn2 & Hget). rewrite Hn in Hn2. injection Hn2 as <-.
  assert (∀ f, f ≠ js "entrypoint" → f ≠ js "version" → obj_get f l' = obj_get f spec) as Hs.
  { intros f H1 H2. rewrite Hget by done. rewrite (lp_linked _ _ _ _ _ _ _ Hp), obj_get_put. by rewrite decide_False. }
  split_and!; [by apply Hs; vm_compute..| |].
  - rewrite Hget by (by vm_compute). rewrite (lp_linked _ _ _ _ _ _ _ Hp), obj_get_put. by rewrite decide_True.
  - rewrite (normalized_entrypoint _ _ Hn). rewrite (lp_linked _ _ _ _ _ _ _ Hp). unfold link_entrypoint. rewrite obj_get_put.
    by rewrite decide_False by (by vm_compute).
Qed.

Lemma linked_ref metas JSON num today maxDate token q ns w bindings c name k spec l service version :
  prepareCommittedBundle JSON num today maxDate token q ns w bindings = Ok c →
  link_passed metas ns name spec l service version → is_type "service" (JObj spec) = true → obj_get k bindings = JObj l →
  MkOutgoing (target_ns ns spec) service version k ∈ cb_outgoingRefs c.
Proof.
  intros Hc Hp Ht Hin. apply prepared_bindings in Hc as [-> ->]; [|by intros ->].
  unfold extractOutgoingRefs. cbn [entries_of]. apply list_elem_of_omap. destruct (normalized_obj l) as (l' & Hn & _).
  exists (k, JObj l'). split; [apply get_elem; by rewrite (obj_get_normalized _ _ _ Hin)|].
  destruct (linked_fields _ _ _ _ _ _ _ _ Hp Ht Hn) as (E1 & E2 & E3 & E4 & _).
  unfold is_type in *. cbn [member] in *. rewrite E1, E2, E3, E4, Ht, (lp_service _ _ _ _ _ _ _ Hp). cbn [mbind option_bind].
  rewrite (lp_version _ _ _ _ _ _ _ Hp). cbn [mbind option_bind]. do 2 f_equal. rewrite (lp_ns _ _ _ _ _ _ _ Hp). unfold target_ns.
  by destruct (obj_get (js "ns") spec).
Qed.

(** ** The names of the targets *)

Lemma acceptable_name s : isAdminAcceptableNs (JStr s) = true → name_ok s.
Proof.
  unfold isAdminAcceptableNs. intros [Ht H]%andb_prop. cbn [isReservedNs] in H. unfold name_ok. destruct (set_has RESERVED_NS s) eqn:Er.
  - apply set_has_spec in Er. apply Forall_forall. intros c Hc. unfold RESERVED_NS in Er.
    repeat (apply elem_of_cons in Er as [->|Er]; [revert c Hc; apply Forall_forall; apply (bool_decide_unpack _); by vm_compute|]).
    by apply elem_of_nil in Er.
  - assert (isValidRuntimeLoadNs (JStr s) = true) as Hv.
    { unfold isValidRuntimeLoadNs, isValidTenantNs. cbn [isReservedNs]. rewrite Er, Ht.
      cbn [orb] in H. rewrite H. destruct s as [|c s]; [done|]. apply orb_true_iff. left. unfold jlen. cbn [length negb]. by rewrite !andb_true_iff. }
    apply runtime_load_ns_units in Hv as [HF _]. eapply Forall_impl; [exact HF|]. cbv beta.
    intros c Hc. unfold alnum_dash_us, is_alnum. unfold is_alpha. unfold is_lower_alnum in Hc.
    destruct (is_lower c); [done|]. destruct (is_digit c); [by rewrite orb_true_r|]. destruct (is_dash c); [by rewrite orb_true_r|].
    destruct (is_underscore c); [by rewrite orb_true_r|done].
Qed.

(** A prepared bundle refers to workers with proper names, under proper binding names. *)
Lemma committed_ref_names JSON num today maxDate token q ns w bindings c ref : name_ok ns →
  prepareCommittedBundle JSON num today maxDate token q ns w bindings = Ok c → ref ∈ cb_outgoingRefs c →
  names_ok (or_targetNs ref) (or_targetWorker ref) ∧ binding_name_ok (or_binding ref) = true.
Proof.
  intros Hns Hc Hin. apply prepare_committed in Hc as (extras & pr & Hpr & _ & _ & Hc). rewrite (ck_outgoing _ _ _ _ Hc) in Hin.
  unfold bindings_of in Hin. rewrite (ck_same _ _ _ _ Hc) in Hin by (rewrite <- set_has_spec; by vm_compute).
  apply prepared_meta in Hpr as (_ & _ & _ & _ & _ & _ & _ & _ & Hv & Hb). rewrite Hb in Hin.
  destruct (ex_bindings extras) as [| | | | | | |l] eqn:Ex; try done; try (by apply elem_of_nil in Hin).
  unfold normalizeBindings in Hin. cbn [nullish entries_of] in Hin. unfold extractOutgoingRefs in Hin. cbn [entries_of] in Hin.
  apply list_elem_of_omap in Hin as ([k x] & Hin & Href). apply list_elem_of_fmap in Hin as ([k0 x0] & Heq & Hin). cbn [fst snd] in Heq. injection Heq as -> ->.
  destruct (validated_each l 0 Hv k0 x0 Hin) as (Hk & spec & type & validate & -> & Ht & Hval & Hok). destruct (normalized_obj spec) as (l' & Hn & Hget).
  rewrite Hn in Href. unfold is_type in Href. cbn [member] in Href. rewrite (Hget (js "type")), (Hget (js "service")), (Hget (js "ns")), Ht in Href by (by vm_compute).
  destruct (jeqb type (js "service")) eqn:E; [|done]. apply jeqb_eq in E as ->.
  assert (validate = validate_service) as -> by (by injection Hval as <-). unfold validate_service in Hok.
  apply rbind_Ok_inv in Hok as (u & Hw%ensure_true & Hok). cbv zeta in Hok. apply rbind_Ok_inv in Hok as (u' & Hns'%ensure_true & _).
  destruct (filled_string (obj_get (js "service") spec)) as [service|] eqn:Es; [|done]. cbn [mbind option_bind] in Href.
  destruct (filled_string (obj_get (js "version") l')) as [version|]; [|done]. injection Href as <-. cbn [or_targetNs or_targetWorker or_binding].
  split; [|done]. destruct (obj_get (js "service") spec) as [| | | |[|x s]| | |]; try done. injection Es as <-. split; [|by apply worker_name_units].
  apply orb_prop in Hns' as [H|H]; destruct (obj_get (js "ns") spec) as [| | | |[|y t]| | |]; try done. cbn. by apply acceptable_name.
Qed.

(** ** The property *)

Section deploys.
Variable urlHost : jstr → option jstr.
Variable knownTimezone : jstr → bool.
Variable cronParses : jstr → jstr → bool.
Variable JSON_stringify : jsval → option jstr.
Context `{!JsonPrinter JSON_stringify}.
Variable String_number : jnum → jstr.
Variable todayUtc maxDate : jstr.
Variable randomHex : Z → nat → jstr.
Variable envBudget : gmap jstr jstr → gmap jstr jstr → list (jstr * jsval) → result control_error unit.

(** The target exports the entrypoint to the caller. *)
Definition allows (meta : list (jstr * jsval)) (entrypoint callerNs : jstr) : Prop :=
  ∃ exports entry callers, obj_get (js "exports") meta = JArr exports ∧ exported entrypoint exports = Some entry ∧
    member "allowedCallers" entry = JArr callers ∧ (JStr (js "*") ∈ callers ∨ JStr callerNs ∈ callers).

Lemma check_entrypoint_allows callerNs targetNs entrypoint meta : callerNs ≠ targetNs →
  check_entrypoint callerNs targetNs entrypoint meta = Ok tt → allows meta entrypoint callerNs.
Proof.
  intros Hne. unfold check_entrypoint. rewrite (proj2 (jeqb_neq callerNs targetNs)) by done. cbn [negb].
  destruct (obj_get (js "exports") meta) as [| | | | | |[|x l]|] eqn:E; try (by destruct (negb _)).
  destruct (exported entrypoint (x :: l)) as [entry|] eqn:Ee; [|done]. destruct (evaluateServiceBindingAcl _ _ _) eqn:Ea; [|done]. intros _.
  unfold evaluateServiceBindingAcl in Ea. rewrite (proj2 (jeqb_neq callerNs targetNs)) in Ea by done. cbn [orb] in Ea.
  destruct (member "allowedCallers" entry) as [| | | | | |callers|] eqn:Ec; try done. exists (x :: l), entry, callers. split_and!; [done..|].
  apply existsb_exists in Ea as (v & Hin%list_elem_of_In & Hv). destruct v as [| | | |s| | |]; try done.
  apply orb_prop in Hv as [->%jeqb_eq| ->%jeqb_eq]; auto.
Qed.

(** The fields of a committed binding, as the metadata parses. *)
Lemma view_entrypoint l l0 : (∀ k, k ∉ PINNED_FIELDS → obj_get k l = obj_get k l0) → link_entrypoint (view_fields l) = link_entrypoint l0.
Proof.
  intros Hl. unfold link_entrypoint. rewrite view_get, Hl by (rewrite <- set_has_spec; by vm_compute).
  by destruct (obj_get (js "entrypoint") l0) as [| | |[]| | | |].
Qed.

(** The commit stores every binding of the prepared bundle, with the fields the linking gave it. *)
Lemma stored_binding s ns w v token q bindings c ws k l : names_ok ns w →
  prepareCommittedBundle JSON_stringify String_number todayUtc maxDate token q ns w bindings = Ok c → obj_get k bindings = JObj l →
  deploy_writes JSON_stringify s ns w v c ws → ∃ l' dst text own fields b, normalize_binding (JObj l) = JObj l' ∧
    bundle_key ns w v = Ok dst ∧ hash_at dst (apply_writes ws s) !! js "__meta__" = Some text ∧ parseBundleMeta (JStr text) = Ok own ∧
    bindings_of own = JObj fields ∧ obj_get k fields = JObj b ∧ link_entrypoint b = link_entrypoint l' ∧
    ∀ f, f ∉ PINNED_FIELDS → obj_get f b = json_view (obj_get f l').
Proof.
  intros Hn Hc Hk (dst & m & text & resolved & P1 & outgoing & P2 & Hdst & Ht & Hres & Hm & Href & Ho & HP1 & HP2 & ->).
  destruct (prepare_committed _ _ _ _ _ _ _ _ _ _ Hc) as (extras & pr & _ & _ & _ & Hok).
  destruct (committed_pinned q ns w pr c resolved m Hok Hm Hres) as (id & b0 & b & Hvb & _ & (_ & _ & Hpin) & _ & Hb0).
  apply prepared_bindings in Hc as [Hpb _]; [|by intros ->]. rewrite Hpb in Hb0.
  destruct (normalized_obj l) as (l' & Hl' & _). pose proof (obj_get_normalized _ _ _ Hk) as Hg. rewrite Hl', <- Hb0 in Hg.
  destruct (Hpin k) as (l0 & lk & E0 & Ek & Hf & _); [apply list_elem_of_fmap; eexists; by split; [|by eapply get_elem]|].
  rewrite Hg in E0. injection E0 as <-. exists l', dst, text, (view_fields (ma_meta m)), (view_fields b), (view_fields lk).
  split_and!; [done|done| | |done| |by apply view_entrypoint|].
  - rewrite apply_writes_app. destruct (loose_writes_same (P1 ++ outgoing ++ P2) (apply_writes (stageBundleCommit dst text (pr_modules (cb_prepared c))) s) dst)
      as (_ & <- & _); [by eapply commit_rest_loose|by apply table_bundle; eapply bundle_key_is_bundle|].
    apply bundle_commit_meta. by eapply printer_well_formed.
  - unfold parseBundleMeta. by rewrite (printer_reads_back _ _ Ht).
  - rewrite view_get, Ek. done.
  - intros f Hfr. by rewrite view_get, Hf.
Qed.

(** C5. Cross-namespace bindings: when a deploy commits, every service binding of its request
    to another namespace is stored in the metadata of the new bundle, under its name and with its
    target and entrypoint, pinned to the version of the target that is active at that
    moment; the target is outside the platform namespaces, and the bundle of that version
    exports the entrypoint to the deploying namespace (or to all), although the exports were
    read earlier, under no watch, and in other stores. *)
Theorem cross_namespace_bindings_allowed (past : store → Prop) (s0 s : store) (ns w v : jstr) (q : DeployRequest)
    (linked : list (jstr * jsval)) (token : jstr) (c : CommittedBundle) (now : Z) (ws : list write) (a : control_result) (W0 W : list jstr)
    (k : jstr) (spec : list (jstr * jsval)) (Hnames : names_ok ns w) (Hpast : ∀ s1, past s1 → settled s1 s)
    (Hpreflight : reads_at past s0 [] (runDeployPreflight ns w q) (Ok linked) W0)
    (Hbundle : prepareCommittedBundle JSON_stringify String_number todayUtc maxDate token q ns w linked = Ok c)
    (Hcommit : reads_at past s [] (commitWithWatch JSON_stringify randomHex envBudget ns w v c now) (Ok (Commit ws a)) W)
    (Hbinding : obj_get k (dq_mergedBindings q) = JObj spec) (Hservice : is_type "service" (JObj spec) = true)
    (Hother : target_ns ns spec ≠ ns) :
  ∃ service version,
    (∃ dst text own fields b, bundle_key ns w v = Ok dst ∧ hash_at dst (apply_writes ws s) !! js "__meta__" = Some text ∧
       parseBundleMeta (JStr text) = Ok own ∧ bindings_of own = JObj fields ∧ obj_get k fields = JObj b ∧
       obj_get (js "type") b = JStr (js "service") ∧ obj_get (js "ns") b = JStr (target_ns ns spec) ∧
       obj_get (js "service") b = JStr service ∧ obj_get (js "version") b = JStr version ∧ link_entrypoint b = link_entrypoint spec) ∧
    obj_get (js "service") spec = JStr service ∧ set_has PLATFORM_TIER_RESERVED_NS (target_ns ns spec) = false ∧
    active_at (target_ns ns spec) s !! service = Some version ∧
    ∃ key raw meta, bundle_key (target_ns ns spec) service version = Ok key ∧
      hash_at key s !! js "__meta__" = Some raw ∧ parseBundleMeta (JStr raw) = Ok meta ∧ allows meta (link_entrypoint spec) ns.
Proof.
  apply (rd_spec_elim _ _ _ _ _ _ _ (run_preflight_spec past s0 [] ns w q
    (λ linked _, ∃ l service version metas, obj_get k linked = JObj l ∧ link_passed metas ns w spec l service version ∧
       ∀ ns w v meta, metas ns w v = Ok (Some meta) → meta_seen past ns w v meta) (λ linked W' H, H k spec Hbinding Hservice))) in Hpreflight
    as (l & service & version & metas & Hin & Hp & Hseen).
  pose proof (linked_ref _ _ _ _ _ _ _ _ _ _ _ _ _ _ _ _ _ Hbundle Hp Hservice Hin) as Href.
  destruct (committed_ref_names _ _ _ _ _ _ _ _ _ _ _ (proj1 Hnames) Hbundle Href) as [Hn _].
  apply deploy_spec in Hcommit; [|done].
  destruct (stored_binding _ _ _ _ _ _ _ _ _ _ _ Hnames Hbundle Hin Hcommit) as (l' & dst & text & own & fields & b & Hl' & Hstored).
  destruct (linked_fields _ _ _ _ _ _ _ _ Hp Hservice Hl') as (E1 & E2 & E3 & E4 & E5).
  destruct Hcommit as (_ & _ & _ & _ & _ & _ & _ & _ & _ & _ & _ & Hready & _). rewrite Forall_forall in Hready.
  destruct (Hready _ Href) as (Ha & _ & key & raw & Hkey & Hraw & _). cbn in *.
  destruct (lp_meta _ _ _ _ _ _ _ Hp) as (found & Hf & Hc). pose proof (check_entrypoint_allows _ _ _ _ (not_eq_sym Hother) Hc) as Hallow.
  destruct found as [meta|]; [|by destruct Hallow as (e & x & cs & H & _)]. cbn [default] in Hallow.
  destruct (Hseen _ _ _ _ Hf) as (s1 & key' & raw' & Hs1 & Hkey' & Hraw' & Hm). rewrite Hkey in Hkey'. apply Ok_inj in Hkey' as <-.
  assert (raw' = raw) as ->.
  { destruct (Hpast s1 Hs1 key (bundle_key_is_bundle _ _ _ _ Hn Hkey)) as [(_ & E & _)|(_ & E & _)].
    - intros (_ & E & _). by rewrite <- E in Hraw'.
    - rewrite E in Hraw'. congruence.
    - by rewrite <- E in Hraw. }
  assert (obj_get (js "service") spec = JStr service) as Es.
  { pose proof (lp_service _ _ _ _ _ _ _ Hp) as Es. destruct (obj_get (js "service") spec) as [| | | |[|x t]| | |]; try done. by injection Es as <-. }
  exists service, version. split_and!; [|done|exact (lp_platform _ _ _ _ _ _ _ Hp)|done|by exists key, raw, meta].
  destruct Hstored as (H1 & H2 & H3 & H4 & H5 & H6 & H7). exists dst, text, own, fields, b.
  split_and!; [done..| | | | |congruence]; rewrite H7 by (rewrite <- set_has_spec; by vm_compute).
  - rewrite E1. unfold is_type in Hservice. cbn [member] in Hservice. destruct (obj_get (js "type") spec); try done. by apply jeqb_eq in Hservice as ->.
  - rewrite E3. unfold target_ns in *. by destruct (obj_get (js "ns") spec).
  - by rewrite E2, Es.
  - by rewrite E4.
Qed.
End deploys.

Module LinkDemo.
Definition target_meta : jsval := JObj [(js "exports", JArr [JObj [str_field "entrypoint" (js "default"); (js "allowedCallers", strings [js "acme"])]])].
Definition target_key : jstr := js "worker:billing:api:v:3".
Definition s : store :=
  set_hash (routesKey (js "billing")) {[js "api" := js "v3"]}
    (set_hash target_key {[js "__meta__" := default [] (stringify target_meta)]} empty_store).
Definition spec : list (jstr * jsval) := [str_field "type" (js "service"); str_field "service" (js "api"); str_field "ns" (js "billing")].
Definition body : list (jstr * jsval) := [(js "code", JStr (js "export default {}")); (js "bindings", JObj [(js "API", JObj spec)])].
Definition request : DeployRequest :=
  match prepareDeployRequest Some (λ _, true) (λ _ _, true) body (js "acme") (js "workers.local") with Ok q => q | Err _ => Demo.empty_request end.
Definition linked : list (jstr * jsval) := match run_reads s (runDeployPreflight (js "acme") (js "web") request) with Ok l => l | Err _ => [] end.
Definition bundle : CommittedBundle :=
  match prepareCommittedBundle checked_stringify Demo.number_text (js "2026-06-01") (js "2026-06-01") [] request (js "acme") (js "web") linked with
  | Ok c => c | Err _ => MkCommitted (MkPrepared [] []) [] [] end.
Definition deploy (now : Z) : txn control_result := commitWithWatch checked_stringify Demo.hex Demo.budget (js "acme") (js "web") (js "v1") bundle now.
Definition writes : list write := match run_reads s (deploy 0) with Ok (Commit ws _) => ws | _ => [] end.
End LinkDemo.

Lemma cross_namespace_bindings_allowed_witness : ∃ service version,
  (∃ dst text own fields b, bundle_key (js "acme") (js "web") (js "v1") = Ok dst ∧
     hash_at dst (apply_writes LinkDemo.writes LinkDemo.s) !! js "__meta__" = Some text ∧ parseBundleMeta (JStr text) = Ok own ∧
     bindings_of own = JObj fields ∧ obj_get (js "API") fields = JObj b ∧ obj_get (js "version") b = JStr version) ∧
  active_at (js "billing") LinkDemo.s !! service = Some version ∧
  ∃ key raw meta, bundle_key (js "billing") service version = Ok key ∧
    hash_at key LinkDemo.s !! js "__meta__" = Some raw ∧ parseBundleMeta (JStr raw) = Ok meta ∧ allows meta (js "default") (js "acme").
Proof.
  destruct (reads_at_run (λ s, s = LinkDemo.s) LinkDemo.s (runDeployPreflight (js "acme") (js "web") LinkDemo.request) eq_refl []) as [W0 H0].
  destruct (reads_at_run (λ s, s = LinkDemo.s) LinkDemo.s (LinkDemo.deploy 0) eq_refl []) as [W H].
  assert (run_reads LinkDemo.s (runDeployPreflight (js "acme") (js "web") LinkDemo.request) = Ok LinkDemo.linked) as E0 by (vm_compute; reflexivity).
  assert (run_reads LinkDemo.s (LinkDemo.deploy 0) = Ok (Commit LinkDemo.writes (Deployed (js "v1")))) as E by (vm_compute; reflexivity).
  rewrite E0 in H0. rewrite E in H.
  destruct (cross_namespace_bindings_allowed checked_stringify Demo.number_text (js "2026-06-01") (js "2026-06-01") Demo.hex Demo.budget
    (λ s, s = LinkDemo.s) LinkDemo.s LinkDemo.s (js "acme") (js "web") (js "v1") LinkDemo.request LinkDemo.linked [] LinkDemo.bundle 0
    LinkDemo.writes (Deployed (js "v1")) W0 W (js "API") LinkDemo.spec)
    as (service & version & (dst & text & own & fields & b & G1 & G2 & G3 & G4 & G5 & _ & _ & _ & G6 & _) & _ & _ & H2 & H3).
  - apply (bool_decide_unpack _). vm_compute. reflexivity.
  - intros s1 -> k _ _. left. reflexivity.
  - exact H0.
  - vm_compute. reflexivity.
  - exact H.
  - vm_compute. reflexivity.
  - vm_compute. reflexivity.
  - vm_compute. congruence.
  - exists service, version. split_and!; [|exact H2|exact H3]. exists dst, text, own, fields, b. split_and!; assumption.
Defined.

(** ** Refusals *)

Lemma run_reads_bind {A B} s (p : reads A) (f : A → reads B) :
  run_reads s (reads_bind p f) = match run_reads s p with Ok a => run_reads s (f a) | Err e => Err e end.
Proof. induction p as [[a|e]|ks p IH|C q k IH]; cbn [reads_bind run_reads]; [done|done|exact IH|apply IH]. Qed.

Lemma run_reads_map {X B} s (f : X → reads B) (g : X → B) l : (∀ x, x ∈ l → run_reads s (f x) = Ok (g x)) →
  run_reads s (rd_map f l) = Ok (map g l).
Proof.
  induction l as [|x l IH]; intros H; [done|]. cbn [rd_map map]. rewrite run_reads_bind, (H x) by apply list_elem_of_here.
  rewrite run_reads_bind, IH; [done|]. intros y Hy. apply H. by apply list_elem_of_further.
Qed.

(** Why a target cannot be pinned. *)
Definition target_meta (s : store) (ref : OutgoingRef) : option jstr :=
  match bundle_key (or_targetNs ref) (or_targetWorker ref) (or_targetVersion ref) with Ok k => hash_at k s !! js "__meta__" | Err _ => None end.

Definition target_problem (s : store) (ref : OutgoingRef) : option string :=
  if truthy_text (str_at (deleteLockKey (or_targetNs ref) (or_targetWorker ref)) s) then Some "target_deleting"%string
  else if bool_decide (active_at (or_targetNs ref) s !! or_targetWorker ref = Some (or_targetVersion ref)) && truthy_text (target_meta s ref)
  then None else Some "target_drift"%string.

Lemma check_refs_eq s refs : check_outgoing_refs refs (map (λ ref, str_at (deleteLockKey (or_targetNs ref) (or_targetWorker ref)) s) refs)
    (map (λ ref, active_at (or_targetNs ref) s !! or_targetWorker ref) refs) (map (target_meta s) refs) =
  match head (omap (target_problem s) refs) with Some code => fail 409 code | None => Ok tt end.
Proof.
  induction refs as [|ref refs IH]; [done|]. cbn [map check_outgoing_refs]. rewrite IH. clear IH. unfold check_outgoing_ref.
  change (omap (target_problem s) (ref :: refs)) with
    (match target_problem s ref with Some y => y :: omap (target_problem s) refs | None => omap (target_problem s) refs end).
  generalize (omap (target_problem s) refs). intros rest. unfold target_problem. destruct (truthy_text (str_at _ s)); [done|]. case_bool_decide; cbn [negb andb]; [|done].
  by destruct (truthy_text (target_meta s ref)).
Qed.

Lemma no_problem_ready s ref k : bundle_key (or_targetNs ref) (or_targetWorker ref) (or_targetVersion ref) = Ok k →
  target_problem s ref = None ↔ target_ready s ref.
Proof.
  intros Hk. unfold target_problem, target_ready, target_meta. rewrite Hk. destruct (truthy_text (str_at _ s)).
  - split; [done|]. by intros (_ & ? & _).
  - case_bool_decide as Ea; cbn [andb]; [|split; [done|]; by intros (? & _)]. destruct (hash_at k s !! js "__meta__") as [[|x raw]|] eqn:E; cbn [truthy_text].
    + split; [done|]. intros (_ & _ & k' & raw & Hk' & Hr & Hne). apply Ok_inj in Hk' as <-. rewrite E in Hr. by injection Hr as <-.
    + split; [|done]. intros _. split_and!; [done|done|]. by exists k, (x :: raw).
    + split; [done|]. intros (_ & _ & k' & raw & Hk' & Hr & Hne). apply Ok_inj in Hk' as <-. by rewrite E in Hr.
Qed.

(** C8. Refused targets: the check of a deploy's service targets answers with the first target,
    in the order of the bindings, that cannot be pinned: 409 [target_deleting] when its worker is
    locked for deletion, 409 [target_drift] when another version is active or the bundle is gone;
    and it passes exactly when every target is active, present and not being deleted. *)
Theorem refused_targets_reported (s : store) (refs : list OutgoingRef)
    (Hkeys : Forall (λ ref, is_Some (parseVersion (JStr (or_targetVersion ref)))) refs) :
  run_reads s (validateOutgoingRefsForCommit refs) =
    match head (omap (target_problem s) refs) with Some code => fail 409 code | None => Ok tt end ∧
  (run_reads s (validateOutgoingRefsForCommit refs) = Ok tt ↔ Forall (target_ready s) refs).
Proof.
  assert (∀ ref, ref ∈ refs → ∃ k, bundle_key (or_targetNs ref) (or_targetWorker ref) (or_targetVersion ref) = Ok k) as Hk.
  { intros ref Hin. rewrite Forall_forall in Hkeys. destruct (Hkeys ref Hin) as [n Hn]. unfold bundle_key, bundleKey. rewrite Hn. by eexists. }
  assert (run_reads s (validateOutgoingRefsForCommit refs) =
    match head (omap (target_problem s) refs) with Some code => fail 409 code | None => Ok tt end) as H.
  { unfold validateOutgoingRefsForCommit. rewrite run_reads_bind.
    rewrite (run_reads_map s _ (λ ref, str_at (deleteLockKey (or_targetNs ref) (or_targetWorker ref)) s)) by done.
    rewrite run_reads_bind, (run_reads_map s _ (λ ref, active_at (or_targetNs ref) s !! or_targetWorker ref)) by done.
    rewrite run_reads_bind, (run_reads_map s _ (target_meta s)); [apply check_refs_eq|].
    intros ref Hin. destruct (Hk ref Hin) as [k E]. unfold target_meta. by rewrite E. }
  split; [done|]. rewrite H. clear H Hkeys. induction refs as [|ref refs IH]; [split; [constructor|done]|].
  destruct (Hk ref) as [k E]; [apply list_elem_of_here|].
  change (omap (target_problem s) (ref :: refs)) with
    (match target_problem s ref with Some y => y :: omap (target_problem s) refs | None => omap (target_problem s) refs end).
  rewrite Forall_cons, <- (no_problem_ready s ref k E), <- IH by (intros r Hr; apply Hk; by apply list_elem_of_further).
  destruct (target_problem s ref); cbn [head]; [split; [by intros H; discriminate H|by intros [? _]]|split; [done|by intros [_ ?]]].
Qed.

Lemma refused_targets_reported_witness :
  run_reads LinkDemo.s (validateOutgoingRefsForCommit
    [MkOutgoing (js "billing") (js "api") (js "v3") (js "API"); MkOutgoing (js "billing") (js "api") (js "v2") (js "OLD")]) = fail 409 "target_drift" ∧
  run_reads LinkDemo.s (validateOutgoingRefsForCommit [MkOutgoing (js "billing") (js "api") (js "v3") (js "API")]) = Ok tt.
Proof.
  destruct (refused_targets_reported LinkDemo.s
    [MkOutgoing (js "billing") (js "api") (js "v3") (js "API"); MkOutgoing (js "billing") (js "api") (js "v2") (js "OLD")]) as [H _].
  - repeat constructor; by eexists.
  - split; [rewrite H; vm_compute; reflexivity|vm_compute; reflexivity].
Defined.
