(* ===== verification/Load.v ===== *)
(** * Loading a committed bundle

    Models [bundleToWorkerCode] of src/runtime/lib.js, which turns the hash of a bundle into
    the code object of the worker loader, with the merging of compatibility flags. The hash
    holds the bytes HGETALL answers. What a deploy commits is what the runtime loads: module
    by module, with the main module, the compatibility date and the flags of the request. *)

From stdpp Require Import base list strings gmap.
From Stdlib Require Import ZArith Lia.
From S2P Require Import Prelude NsPattern WorkerContract Utf8 Base64 Json JsNumber Txn Control JsonView Topology Routing RoutingSafety.
From S2P Require Import Bundle Deploy DeploySafety.

#[local] Open Scope Z_scope.
#[local] Open Scope wdl_scope.

Inductive load_error :=
| MissingMeta | InvalidMeta | MissingModule (path : jstr) | PythonModule (path : jstr) | UnknownModuleType (path : jstr)
| InvalidModule (path : jstr) | DateTooOld | InvalidFlags.

Inductive WorkerModuleValue :=
| EsModule (source : jstr) | CjsModule (cjs : jstr) | TextModule (text : jstr) | JsonModule (json : jsval)
| WasmModule (wasm : list Z) | DataModule (data : list Z).

Record WorkerCode := MkWorkerCode {
  wc_compatibilityDate : jstr; wc_compatibilityFlags : list jstr; wc_mainModule : jstr;
  wc_modules : list (jstr * WorkerModuleValue); wc_meta : list (jstr * jsval) }.

Definition platformFloorCompatFlags (compatibilityDate : jstr) : list jstr :=
  if text_lt compatibilityDate ENHANCED_ERROR_SERIALIZATION_DEFAULT_DATE then [ENHANCED_ERROR_SERIALIZATION_FLAG] else [].

(** One flag of the metadata. *)
Definition load_flag (v : jsval) : result load_error jstr :=
  match v with
  | JStr ((_ :: _) as f) =>
      if isWorkerdExperimentalCompatFlag f || isWdlUnsupportedCompatFlag f || jeqb f LEGACY_ERROR_SERIALIZATION_FLAG
      then Err InvalidFlags else Ok f
  | _ => Err InvalidFlags
  end.

Fixpoint load_flags (l : list jsval) : result load_error (list jstr) :=
  match l with
  | [] => Ok []
  | v :: l => let! f := load_flag v in let! rest := load_flags l in Ok (f :: rest)
  end.

Definition mergeCompatFlags (userFlags : jsval) (compatibilityDate : jstr) : result load_error (list jstr) :=
  let! out := match userFlags with
              | JUndef => Ok []
              | JArr flags => load_flags flags
              | _ => Err InvalidFlags
              end in
  Ok (out ++ filter (λ f, f ∉ out) (platformFloorCompatFlags compatibilityDate)).

(** [moduleDecoders]; [None] for a type it does not have, [Some None] when the text is no JSON. *)
Definition moduleDecoder (type : jstr) (bytes : list Z) : option (option WorkerModuleValue) :=
  if jeqb type (js "module") then Some (Some (EsModule (utf8_decode bytes)))
  else if jeqb type (js "cjs") then Some (Some (CjsModule (utf8_decode bytes)))
  else if jeqb type (js "text") then Some (Some (TextModule (utf8_decode bytes)))
  else if jeqb type (js "json") then Some (JsonModule <$> json_parse (utf8_decode bytes))
  else if jeqb type (js "wasm") then Some (Some (WasmModule bytes))
  else if jeqb type (js "data") then Some (Some (DataModule bytes))
  else None.

Definition load_module (hash : gmap jstr (list Z)) (path : jstr) (info : jsval) : result load_error WorkerModuleValue :=
  match hash !! path with
  | None => Err (MissingModule path)
  | Some bytes =>
      match info with
      | JUndef | JNull => Err (InvalidModule path)
      | _ =>
          match member "type" info with
          | JStr type =>
              if jeqb type (js "py") then Err (PythonModule path)
              else match moduleDecoder type bytes with
                   | None => Err (UnknownModuleType path)
                   | Some None => Err (InvalidModule path)
                   | Some (Some value) => Ok value
                   end
          | _ => Err (UnknownModuleType path)
          end
      end
  end.

Fixpoint load_modules (hash : gmap jstr (list Z)) (modules : list (jstr * jsval)) : result load_error (list (jstr * WorkerModuleValue)) :=
  match modules with
  | [] => Ok []
  | (path, info) :: modules =>
      let! value := load_module hash path info in
      let! rest := load_modules hash modules in Ok ((path, value) :: rest)
  end.

Definition load_date (v : jsval) : jstr :=
  match v with JStr ((_ :: _) as d) => d | _ => DEFAULT_DYNAMIC_WORKER_COMPATIBILITY_DATE end.

Definition bundleToWorkerCode (hash : gmap jstr (list Z)) : result load_error WorkerCode :=
  match hash !! js "__meta__" with
  | None => Err MissingMeta
  | Some metaBytes =>
      match json_parse (utf8_decode metaBytes) with
      | Some (JObj meta) =>
          match obj_get (js "modules") meta, obj_get (js "mainModule") meta with
          | JObj metaModules, JStr ((_ :: _) as mainModule) =>
              let! modules := load_modules hash metaModules in
              let compatibilityDate := load_date (obj_get (js "compatibilityDate") meta) in
              if text_lt compatibilityDate MIN_DYNAMIC_WORKER_COMPATIBILITY_DATE then Err DateTooOld
              else
                let! flags := mergeCompatFlags (obj_get (js "compatibilityFlags") meta) compatibilityDate in
                Ok (MkWorkerCode compatibilityDate flags mainModule modules meta)
          | _, _ => Err InvalidMeta
          end
      | _ => Err InvalidMeta
      end
  end.

(** ** What was submitted *)

(** A text after a round trip through UTF-8: lone surrogates become replacement characters,
    and a byte order mark at the start is dropped. *)
Definition utf8_text (s : jstr) : jstr := utf8_decode (utf8_encode s).

(** The module a submitted value stands for. *)
Definition submitted (value : jsval) : option WorkerModuleValue :=
  match value with
  | JStr s => Some (EsModule (utf8_text s))
  | JObj record =>
      let text k := as_string (obj_get (js k) record) in
      let bytes make b64 := match canonicalBase64ToBytes b64 with Ok bytes => Some (make bytes) | Err _ => None end in
      match text "data_b64", text "wasm_b64", text "text", obj_get (js "json") record with
      | Some b64, _, _, _ => bytes DataModule b64
      | _, Some b64, _, _ => bytes WasmModule b64
      | _, _, Some text, _ => Some (TextModule (utf8_text text))
      | _, _, _, JUndef => match text "cjs" with Some cjs => Some (CjsModule (utf8_text cjs)) | None => None end
      | _, _, _, v => Some (JsonModule (json_view v))
      end
  | _ => None
  end.

(** The hash after the commands of the commit: the last write of a field stays. *)
Definition hash_of (fields : list (jstr * list Z)) : gmap jstr (list Z) :=
  fold_left (λ m fv, <[fv.1 := fv.2]> m) fields ∅.

Lemma hash_of_app fields fields' f : hash_of (fields ++ fields') !! f =
  match last (filter (λ fv : jstr * list Z, fv.1 = f) fields') with Some fv => Some fv.2 | None => hash_of fields !! f end.
Proof.
  unfold hash_of. rewrite fold_left_app. generalize (fold_left (λ m (fv : jstr * list Z), <[fv.1 := fv.2]> m) fields (∅ : gmap jstr (list Z))). clear fields.
  induction fields' as [|[f0 b] fields' IH]; intros m; [done|]. cbn [fold_left fst snd]. rewrite IH, filter_cons. cbn [fst].
  destruct (decide (f0 = f)) as [->|Hne]; [rewrite lookup_insert_eq, last_cons; by destruct (last _)|by rewrite lookup_insert_ne].
Qed.

Lemma filter_absent (f : jstr) (fields : list (jstr * list Z)) : f ∉ map fst fields → filter (λ fv : jstr * list Z, fv.1 = f) fields = [].
Proof.
  induction fields as [|[f0 b] fields IH]; [done|]. cbn [map fst]. intros [H1 H2]%not_elem_of_cons. rewrite filter_cons. cbn [fst].
  rewrite decide_False by congruence. auto.
Qed.

Lemma hash_of_elem fields f b : NoDup (map fst fields) → (f, b) ∈ fields → hash_of fields !! f = Some b.
Proof.
  intros Hnd Hin. rewrite <- (app_nil_l fields), hash_of_app.
  assert (filter (λ fv : jstr * list Z, fv.1 = f) fields = [(f, b)]) as ->; [|done].
  induction fields as [|[f0 b0] fields IH]; [by apply elem_of_nil in Hin|]. cbn [map fst] in Hnd. apply NoDup_cons in Hnd as [Hn Hnd].
  rewrite filter_cons. cbn [fst]. apply elem_of_cons in Hin as [[= <- <-]|Hin].
  - rewrite decide_True by done. f_equal. by apply filter_absent.
  - rewrite decide_False; [by apply IH|]. intros ->. apply Hn, list_elem_of_fmap. by exists (f, b).
Qed.

(** ** What is loaded *)

Section load.
Variable JSON_stringify : jsval → option jstr.
Context `{!JsonPrinter JSON_stringify}.

(** A normalized module decodes to what was submitted. *)
Lemma normalized_module value type bytes : normalizeModule JSON_stringify value = Ok (type, bytes) →
  jeqb type (js "py") = false ∧ ∃ v, submitted value = Some v ∧ moduleDecoder type bytes = Some (Some v).
Proof.
  unfold normalizeModule, submitted. destruct value as [| | | |s| | |record]; try done.
  - intros [<- <-]%Ok_inj%pair_equal_spec. split; [by vm_compute|]. by eexists.
  - cbv zeta. unfold decodeBase64Strict.
    destruct (as_string (obj_get (js "data_b64") record)) as [b64|].
    { destruct (canonicalBase64ToBytes b64); [|done]. intros [<- <-]%Ok_inj%pair_equal_spec. split; [by vm_compute|]. by eexists. }
    destruct (as_string (obj_get (js "wasm_b64") record)) as [b64|].
    { destruct (canonicalBase64ToBytes b64); [|done]. intros [<- <-]%Ok_inj%pair_equal_spec. split; [by vm_compute|]. by eexists. }
    destruct (as_string (obj_get (js "text") record)) as [text|].
    { intros [<- <-]%Ok_inj%pair_equal_spec. split; [by vm_compute|]. by eexists. }
    assert (∀ v, match JSON_stringify v with Some text => Ok (js "json", utf8_encode text) | None => invalid end = Ok (type, bytes) →
      jeqb type (js "py") = false ∧ moduleDecoder type bytes = Some (Some (JsonModule (json_view v)))) as Hj.
    { intros v. destruct (JSON_stringify v) as [t|] eqn:Et; [|done]. intros [<- <-]%Ok_inj%pair_equal_spec. split; [by vm_compute|].
      change (moduleDecoder (js "json") ?b) with (Some (JsonModule <$> json_parse (utf8_decode b))).
      by rewrite (printer_well_formed _ _ Et), (printer_reads_back _ _ Et). }
    destruct (obj_get (js "json") record); try (intros [H1 H2]%Hj; split; [done|]; by eexists).
    destruct (as_string (obj_get (js "cjs") record)) as [cjs|]; [|by destruct (as_string _)].
    intros [<- <-]%Ok_inj%pair_equal_spec. split; [by vm_compute|]. by eexists.
Qed.

Lemma view_fields_id fields : NoDup (map fst fields) → Forall (λ kv : jstr * jsval, kv.2 ≠ JUndef ∧ json_view kv.2 = kv.2) fields → view_fields fields = fields.
Proof.
  intros Hnd H. induction H as [|[k x] fields [Hx Hv] _ IH]; [done|]. cbn [map fst snd] in *. apply NoDup_cons in Hnd as [Hn Hnd].
  specialize (IH Hnd). unfold view_fields in *. rewrite IH.
  assert (obj_delete k fields = fields) as Hd.
  { clear -Hn. unfold obj_delete. induction fields as [|[k0 v0] fields IH]; [done|]. cbn [map fst] in Hn. apply not_elem_of_cons in Hn as [H1 H2].
    rewrite filter_cons. cbn [fst]. rewrite decide_True by congruence. by rewrite IH. }
  destruct x; try done; by rewrite Hd, Hv.
Qed.

Lemma prepared_paths modules mods : collect (prepare_module JSON_stringify) modules = Ok mods → map mo_path mods = map fst modules.
Proof.
  revert mods. induction modules as [|kv modules IH]; intros mods H; cbn [collect] in H; [by apply Ok_inj in H as <-|].
  apply rbind_Ok_inv in H as (m & Hm & H). apply rbind_Ok_inv in H as (ms & Hms & H). apply Ok_inj in H as <-. cbn [map]. rewrite (IH _ Hms). f_equal.
  unfold prepare_module in Hm. apply rbind_Ok_inv in Hm as (_ & _ & Hm). apply rbind_Ok_inv in Hm as (x & _ & Hm). by apply Ok_inj in Hm as <-.
Qed.

(** The modules load as submitted from a hash that has their bytes. *)
Lemma loads_modules (hash : gmap jstr (list Z)) modules : ∀ mods, collect (prepare_module JSON_stringify) modules = Ok mods →
  (∀ m, m ∈ mods → hash !! mo_path m = Some (mo_bytes m)) →
  ∃ loaded, load_modules hash (map module_json mods) = Ok loaded ∧
    Forall2 (λ raw value, value.1 = raw.1 ∧ submitted raw.2 = Some value.2) modules loaded.
Proof.
  induction modules as [|[path raw] modules IH]; intros mods H Hh; cbn [collect] in H.
  - apply Ok_inj in H as <-. by exists [].
  - apply rbind_Ok_inv in H as (m & Hm & H). apply rbind_Ok_inv in H as (ms & Hms & H). apply Ok_inj in H as <-.
    destruct (IH ms Hms) as (loaded & Hl & Hf); [intros m' Hin; apply Hh; set_solver|].
    unfold prepare_module in Hm. apply rbind_Ok_inv in Hm as (_ & _ & Hm). apply rbind_Ok_inv in Hm as ([type bytes] & Hn & Hm).
    apply Ok_inj in Hm as <-. cbn [fst snd] in *. apply normalized_module in Hn as (Hpy & v & Hv & Hd).
    exists ((path, v) :: loaded). split; [|by constructor]. cbn [map module_json load_modules mo_path mo_type].
    unfold load_module. pose proof (Hh (MkModule path type bytes) (list_elem_of_here _ _)) as Hb. cbn [mo_path mo_bytes] in Hb. rewrite Hb.
    change (member "type" (JObj [str_field "type" type])) with (JStr type). cbv iota. rewrite Hpy, Hd. cbn [rbind]. by rewrite Hl.
Qed.

Definition requested_flags (flags : jsval) : list jstr := match flags with JArr l => omap as_string l | _ => [] end.

Lemma loads_flags flags date : validateCompatibilityFlags flags = Ok tt →
  mergeCompatFlags (json_view (if nullish flags then JUndef else flags)) date =
  Ok (requested_flags flags ++ filter (λ f, f ∉ requested_flags flags) (platformFloorCompatFlags date)).
Proof.
  intros H. destruct flags as [| | | | | |l|]; try done. cbn [nullish json_view requested_flags]. unfold mergeCompatFlags.
  assert (load_flags (map (λ x, match x with JUndef => JNull | _ => json_view x end) l) = Ok (omap as_string l)) as ->; [|done].
  unfold validateCompatibilityFlags in H. apply rbind_Ok_inv in H as (fs & Hfs & H).
  destruct (existsb isWorkerdExperimentalCompatFlag fs) eqn:E1; [done|]. destruct (existsb isWdlUnsupportedCompatFlag fs) eqn:E2; [done|].
  destruct (set_has fs LEGACY_ERROR_SERIALIZATION_FLAG) eqn:E3; [done|]. clear H. revert fs Hfs E1 E2 E3. unfold set_has.
  induction l as [|x l IH]; intros fs Hfs E1 E2 E3; cbn [collect] in Hfs; [done|]. apply rbind_Ok_inv in Hfs as (f & Hf & Hfs).
  apply rbind_Ok_inv in Hfs as (rest & Hr & Hfs). apply Ok_inj in Hfs as <-. cbn [existsb] in *.
  apply orb_false_iff in E1 as [E1 E1'], E2 as [E2 E2'], E3 as [E3 E3'].
  destruct x as [| | | |[|c s]| | |]; try done. apply Ok_inj in Hf as <-.
  change (omap as_string (JStr (c :: s) :: l)) with ((c :: s) :: omap as_string l). cbn [map load_flags json_view].
  unfold load_flag. rewrite E1, E2. cbn [orb]. rewrite (proj2 (jeqb_neq _ _)) by (apply jeqb_neq in E3; congruence). cbn [rbind].
  by rewrite (IH rest Hr).
Qed.

Lemma valid_date today maxDate v date : validateCompatibilityDate today maxDate v = Ok date →
  text_lt (load_date (match date with Some d => JStr d | None => JUndef end)) MIN_DYNAMIC_WORKER_COMPATIBILITY_DATE = false ∧
  load_date (match date with Some d => JStr d | None => JUndef end) = default DEFAULT_DYNAMIC_WORKER_COMPATIBILITY_DATE date.
Proof.
  unfold validateCompatibilityDate. destruct v as [| | | |s| | |]; try done; try (intros <-%Ok_inj; split; [by vm_compute|done]).
  destruct (date_match s) as [p|] eqn:Ed; [|done]. intros (u1 & _ & H)%rbind_Ok_inv. apply rbind_Ok_inv in H as (u2 & Hmin%ensure_true & H).
  apply rbind_Ok_inv in H as (u3 & _ & H). apply rbind_Ok_inv in H as (u4 & _ & H). apply Ok_inj in H as <-.
  destruct s as [|c s]; [done|]. apply negb_true_iff in Hmin. done.
Qed.
End load.

(** ** A deploy and its load *)

(** The code object for a request. *)
Record loads_as (q : DeployRequest) (code : WorkerCode) : Prop := {
  la_main : wc_mainModule code = dq_mainModule q;
  la_modules : Forall2 (λ raw value, value.1 = raw.1 ∧ submitted raw.2 = Some value.2) (entries_of (dq_modules q)) (wc_modules code);
  la_date : wc_compatibilityDate code = match dq_compatibilityDate q with JStr d => d | _ => DEFAULT_DYNAMIC_WORKER_COMPATIBILITY_DATE end;
  la_flags : wc_compatibilityFlags code = requested_flags (dq_compatibilityFlags q)
    ++ filter (λ f, f ∉ requested_flags (dq_compatibilityFlags q)) (platformFloorCompatFlags (wc_compatibilityDate code)) }.

Lemma date_given today maxDate v date : validateCompatibilityDate today maxDate v = Ok date →
  default DEFAULT_DYNAMIC_WORKER_COMPATIBILITY_DATE date = match v with JStr d => d | _ => DEFAULT_DYNAMIC_WORKER_COMPATIBILITY_DATE end.
Proof.
  unfold validateCompatibilityDate. destruct v as [| | | |s| | |]; try done; try (by intros <-%Ok_inj).
  destruct (date_match s); [|done]. intros (u1 & _ & H)%rbind_Ok_inv. apply rbind_Ok_inv in H as (u2 & _ & H).
  apply rbind_Ok_inv in H as (u3 & _ & H). apply rbind_Ok_inv in H as (u4 & _ & H). by apply Ok_inj in H as <-.
Qed.

Lemma path_filled p : module_path (JStr p) = Ok tt → p ≠ [].
Proof. by intros H ->. Qed.

Lemma main_path JSON num today maxDate mainModule modules extras pr :
  prepareBundle JSON num today maxDate mainModule modules extras = Ok pr → mainModule ≠ [].
Proof. unfold prepareBundle. intros ([] & H & _)%rbind_Ok_inv. by apply path_filled. Qed.

Lemma module_fields_id mods : NoDup (map mo_path mods) → view_fields (map module_json mods) = map module_json mods.
Proof.
  intros Hnd. apply view_fields_id; [by rewrite map_map|]. rewrite Forall_forall. intros kv (m & -> & _)%list_elem_of_fmap. by split.
Qed.

Lemma committed_bytes text mods : NoDup (map mo_path mods) → js "__meta__" ∉ map mo_path mods →
  hash_of (bundle_fields text mods) !! js "__meta__" = Some (utf8_encode text) ∧
  ∀ m, m ∈ mods → hash_of (bundle_fields text mods) !! mo_path m = Some (mo_bytes m).
Proof.
  intros Hnd Hm. assert (NoDup (map fst (bundle_fields text mods))) as H.
  { unfold bundle_fields. rewrite map_app, map_map. apply NoDup_app. split_and!; [done| |apply NoDup_singleton].
    intros p Hp ->%list_elem_of_singleton. done. }
  split; [|intros m Hin]; apply hash_of_elem; try done; unfold bundle_fields; apply elem_of_app;
    [right; apply list_elem_of_here|left; apply list_elem_of_fmap; by exists m].
Qed.

Section deploys.
Variable urlHost : jstr → option jstr.
Variable knownTimezone : jstr → bool.
Variable cronParses : jstr → jstr → bool.
Variable JSON_stringify : jsval → option jstr.
Context `{!JsonPrinter JSON_stringify}.
Variable String_number : jnum → jstr.
Variable todayUtc maxDate : jstr.
Variable randomHex : Z → nat → jstr.
Variable envBudget : gmap jstr jstr → gmap jstr jstr → list (jstr * jsval) → result control_error unit.

Lemma committed_loads extras pr q ns w c resolved m text :
  prepareBundle JSON_stringify String_number todayUtc maxDate (dq_mainModule q) (dq_modules q) extras = Ok pr →
  ex_compatibilityDate extras = dq_compatibilityDate q → ex_compatibilityFlags extras = dq_compatibilityFlags q →
  committed_ok q ns pr c → materialized_ok ns w (pr_meta (cb_prepared c)) resolved m → JSON_stringify (JObj (ma_meta m)) = Some text →
  NoDup (map mo_path (pr_modules (cb_prepared c))) → js "__meta__" ∉ map mo_path (pr_modules (cb_prepared c)) →
  ∃ code, bundleToWorkerCode (hash_of (bundle_fields text (pr_modules (cb_prepared c)))) = Ok code ∧ loads_as q code.
Proof.
  intros Hpr Edate Eflags Hc Hm Ht Hnd Hmeta. rewrite (ck_modules _ _ _ _ Hc) in *.
  pose proof (main_path _ _ _ _ _ _ _ _ Hpr) as Hmain. apply prepared_meta in Hpr as (_ & H1 & H2 & H3 & _ & (date & H4 & H5) & H6 & H7 & _).
  rewrite Edate in H4. rewrite Eflags in H6, H7.
  destruct (committed_bytes text (pr_modules pr) Hnd Hmeta) as [Hb Hmods].
  destruct (loads_modules JSON_stringify _ _ _ H3 Hmods) as (loaded & Hl & Hf).
  assert (∀ k, set_has BUNDLE_FIELDS k = true → set_has [js "bindings"; js "workflows"] k = false →
    obj_get k (view_fields (ma_meta m)) = json_view (obj_get k (pr_meta pr))) as Hk.
  { intros k Hin%set_has_spec Hn. unfold set_has in Hn. cbn [existsb] in Hn. rewrite !orb_false_iff, !jeqb_neq in Hn.
    rewrite view_get, (mo_kept _ _ _ _ _ Hm) by tauto. by rewrite (ck_same _ _ _ _ Hc) by done. }
  destruct (valid_date _ _ _ _ H4) as [Hold Hdate].
  unfold bundleToWorkerCode. rewrite Hb, (printer_well_formed _ _ Ht), (printer_reads_back _ _ Ht).
  change (json_view (JObj (ma_meta m))) with (JObj (view_fields (ma_meta m))). cbv iota. rewrite !Hk, H1, H2, H5, H7 by (by vm_compute).
  change (json_view (JObj ?l)) with (JObj (view_fields l)). rewrite (module_fields_id _ Hnd).
  destruct (dq_mainModule q) as [|x main] eqn:Em; [done|]. cbn [json_view]. rewrite Hl. cbn [rbind].
  replace (json_view (match date with Some d => JStr d | None => JUndef end)) with (match date with Some d => JStr d | None => JUndef end) by (by destruct date).
  rewrite Hold, Hdate, (loads_flags _ _ H6). cbn [rbind]. eexists. split; [done|].
  split; cbn [wc_mainModule wc_modules wc_compatibilityDate wc_compatibilityFlags]; [done|done|by eapply date_given|done].
Qed.

(** C7. From deploy to runtime: the hash that a committed deploy leaves under the key of its
    version (nothing else of the transaction touches it) loads, and loads as the request: the
    same main module, every module with its path and content (texts as UTF-8 keeps them, JSON
    values as JSON keeps them, bytes exactly), the requested compatibility date or the
    default, and the requested flags with the platform's floor. For requests whose module paths
    are distinct and none of them is [__meta__]. *)
Theorem deployed_bundle_loads (past : store → Prop) (s : store) (ns w v : jstr) (q : DeployRequest) (c : CommittedBundle) (now : Z)
    (ws : list write) (a : control_result) (W : list jstr) (Hnames : names_ok ns w)
    (Hq : made_from urlHost knownTimezone cronParses JSON_stringify String_number todayUtc maxDate ns w q c)
    (Hcommit : reads_at past s [] (commitWithWatch JSON_stringify randomHex envBudget ns w v c now) (Ok (Commit ws a)) W)
    (Hpaths : NoDup (map fst (entries_of (dq_modules q)))) (Hmeta : js "__meta__" ∉ map fst (entries_of (dq_modules q))) :
  ∃ dst text rest, bundle_key ns w v = Ok dst ∧ ws = stageBundleCommit dst text (pr_modules (cb_prepared c)) ++ rest ∧ dst ∉ targets rest ∧
    ∃ code, bundleToWorkerCode (hash_of (bundle_fields text (pr_modules (cb_prepared c)))) = Ok code ∧ loads_as q code.
Proof.
  destruct Hq as [_ (token & bindings & Hc)]. apply prepare_committed in Hc as (extras & pr & Hpr & Hd & Hf & Hc).
  apply deploy_spec in Hcommit as (dst & m & text & resolved & P1 & outgoing & P2 & Hk & Ht & Hres & Hm & _ & Ho & HP1 & HP2 & ->); [|done].
  exists dst, text, (P1 ++ outgoing ++ P2). split_and!; [done|done| |].
  - assert (loose_writes (P1 ++ outgoing ++ P2)) as HP by (by apply commit_rest_loose with ns w v (cb_outgoingRefs c)).
    unfold loose_writes in HP. rewrite Forall_forall in HP. intros Hin%HP. pose proof (bundle_key_is_bundle _ _ _ _ Hnames Hk) as Hb.
    apply table_bundle in Hb. congruence.
  - assert (map mo_path (pr_modules (cb_prepared c)) = map fst (entries_of (dq_modules q))) as Hp.
    { rewrite (ck_modules _ _ _ _ Hc). apply prepared_meta in Hpr as (_ & _ & _ & Hmods & _). by apply prepared_paths in Hmods. }
    rewrite <- Hp in Hpaths, Hmeta. by eapply committed_loads.
Qed.
End deploys.

Lemma deployed_bundle_loads_witness : ∃ dst text rest, bundle_key (js "acme") (js "api") (js "v1") = Ok dst ∧
  Demo.the_writes empty_store = stageBundleCommit dst text (pr_modules (cb_prepared Demo.the_bundle)) ++ rest ∧ dst ∉ targets rest ∧
  ∃ code, bundleToWorkerCode (hash_of (bundle_fields text (pr_modules (cb_prepared Demo.the_bundle)))) = Ok code ∧ loads_as Demo.the_request code.
Proof.
  destruct Demo.runs as [W Hr].
  apply (deployed_bundle_loads Some (λ _, true) (λ _ _, true) checked_stringify Demo.number_text (js "2026-06-01") (js "2026-06-01")
    Demo.hex Demo.budget (λ s, s = empty_store) empty_store (js "acme") (js "api") (js "v1") Demo.the_request Demo.the_bundle 0
    (Demo.the_writes empty_store) (Deployed (js "v1")) W).
  - apply (bool_decide_unpack _). vm_compute. reflexivity.
  - exact Demo.made.
  - exact Hr.
  - apply (bool_decide_unpack _). vm_compute. exact I.
  - apply (bool_decide_unpack _). vm_compute. exact I.
Defined.

(** ** Two bundles that pass the checks and do not load

    A module under the path [__meta__] is accepted, and the metadata overwrites its bytes. *)
Example meta_path_accepted :
  match prepareBundle checked_stringify Demo.number_text (js "2026-06-01") (js "2026-06-01") (js "__meta__")
    (JObj [(js "__meta__", JStr (js "export default {}"))]) (MkExtras JUndef JUndef JUndef JUndef [] JUndef None) with
  | Ok pr => hash_of (bundle_fields (js "{}") (pr_modules pr)) !! js "__meta__" = Some (utf8_encode (js "{}"))
  | Err _ => False
  end.
Proof. vm_compute. reflexivity. Qed.

(** Modules given as an array own a [length], so a bundle without its main module is accepted. *)
Example array_modules_accepted :
  match prepareBundle checked_stringify Demo.number_text (js "2026-06-01") (js "2026-06-01") (js "length")
    (JArr [JStr (js "export default {}")]) (MkExtras JUndef JUndef JUndef JUndef [] JUndef None) with
  | Ok pr => map mo_path (pr_modules pr) = [js "0"] ∧ obj_get (js "mainModule") (pr_meta pr) = JStr (js "length")
  | Err _ => False
  end.
Proof. vm_compute. done. Qed.
