(* ===== verification/WorkflowReplay.v ===== *)
(** * The replay cache of workflow steps

    Models src/runtime/dispatch/workflow-replay-cache.js: cache objects shared by controllers of
    the same workflow instance, evicted from the table while they are still in use, the byte
    counters kept beside them, the leases of replies being read, and the canonical text of step
    configurations. Objects have an identity: [heap] lists them in the order of their creation
    and the table, the set of detached caches and the controllers refer to positions in it.
    [JSON] stands for [JSON.stringify]. Metrics are left out. *)

From stdpp Require Import base list strings sorting.
From Stdlib Require Import ZArith Lia.
From S2P Require Import Prelude JsMap Utf8 Json JsNumber JsonView.

#[local] Open Scope Z_scope.
#[local] Open Scope wdl_scope.

Abbreviation fields := (list (jstr * jsval)).

Definition WORKFLOW_REPLAY_CACHE_MAX_INSTANCES : nat := 256.
Definition WORKFLOW_REPLAY_CACHE_MAX_BYTES : Z := 16 * 1024 * 1024.
Definition WORKFLOW_REPLAY_WORKING_SET_MAX_BYTES : Z := 64 * 1024 * 1024.
Definition WORKFLOW_REPLAY_CACHE_MAX_STEPS_PER_INSTANCE : nat := 256.

(** ** Objects *)

Record StepRecord := MkStep {
  sr_name : jsval; sr_nameCount : jsval; sr_dependencies : jsval; sr_kind : jsval; sr_config : jsval;
  sr_status : jsval; sr_outputJson : jsval; sr_error : jsval }.

(** A cache; each stored step comes with its entry in [workflowReplayStepBytes]. *)
Record ReplayCache := MkCache {
  rc_key : jstr; rc_lastRunToken : jstr; rc_steps : @jmap Z (StepRecord * Z); rc_nextOrdinal : Z; rc_complete : bool;
  rc_bytes : Z; rc_activeControllers : Z; rc_released : bool }.

(** A lease on the bytes of a reply being read. *)
Record ReadLease := MkLease { rl_reserved : Z; rl_released : bool }.

Record replay := MkReplay {
  workflowReplayCaches : @jmap jstr nat;
  detachedReplayCaches : list nat;
  heap : list ReplayCache;
  replayReadLeases : list ReadLease;
  cacheSteps : Z; cacheBytes : Z; activeBytes : Z; detachedBytes : Z; readBytes : Z; highWaterBytes : Z }.

Definition initial_replay : replay := MkReplay [] [] [] [] 0 0 0 0 0 0.

Definition replayWorkingSetBytes (s : replay) : Z := cacheBytes s + detachedBytes s + readBytes s.

Definition recordReplayHighWater (s : replay) : replay :=
  MkReplay (workflowReplayCaches s) (detachedReplayCaches s) (heap s) (replayReadLeases s)
    (cacheSteps s) (cacheBytes s) (activeBytes s) (detachedBytes s) (readBytes s)
    (Z.max (highWaterBytes s) (replayWorkingSetBytes s)).

(** [workflowReplayCaches.get(cache.key) === cache] *)
Definition in_table (s : replay) (id : nat) (c : ReplayCache) : bool :=
  bool_decide (jm_get (rc_key c) (workflowReplayCaches s) = Some id).

Definition is_detached (s : replay) (id : nat) : bool := bool_decide (id ∈ detachedReplayCaches s).

(** Assignment to the fields of an object. *)
Definition set_cache (id : nat) (c : ReplayCache) (s : replay) : replay :=
  MkReplay (workflowReplayCaches s) (detachedReplayCaches s) (<[id := c]> (heap s)) (replayReadLeases s)
    (cacheSteps s) (cacheBytes s) (activeBytes s) (detachedBytes s) (readBytes s) (highWaterBytes s).

(** The counters as an operation moves them. *)
Definition count (steps bytes active detached : Z) (s : replay) : replay :=
  MkReplay (workflowReplayCaches s) (detachedReplayCaches s) (heap s) (replayReadLeases s)
    (cacheSteps s + steps) (cacheBytes s + bytes) (activeBytes s + active) (detachedBytes s + detached)
    (readBytes s) (highWaterBytes s).

Definition when (b : bool) (n : Z) : Z := if b then n else 0.

(** ** Steps *)

Section steps.
Variable JSON : jsval → option jstr.

Definition or_null (v : jsval) : jsval := match v with JUndef | JNull => JNull | v => v end.

Definition text_bytes (v : jsval) : Z := match v with JStr s => utf8ByteLength s | _ => 0 end.

Definition serializedReplayStepBytes (step : StepRecord) : Z :=
  let metadataJson := default (js "null")
    (JSON (JArr [or_null (sr_name step); or_null (sr_nameCount step); or_null (sr_dependencies step);
                 or_null (sr_kind step); or_null (sr_status step); or_null (sr_error step)])) in
  text_bytes (sr_config step) + text_bytes (sr_outputJson step) + utf8ByteLength metadataJson.

Definition projectReplayStepError (status error : jsval) : jsval :=
  match status, error with
  | JStr st, JObj record =>
      if negb (jeqb st (js "failed")) then JUndef
      else
        match obj_get (js "name") record, obj_get (js "message") record with
        | JStr n, JStr m => JObj [(js "name", JStr n); (js "message", JStr m)]
        | JStr n, _ => JObj [(js "name", JStr n)]
        | _, JStr m => JObj [(js "message", JStr m)]
        | _, _ => JUndef
        end
  | _, _ => JUndef
  end.

(** The record [rememberWorkflowReplayStep] stores for a step. *)
Definition stored_step (step : fields) : StepRecord :=
  let status := obj_get (js "status") step in
  let outputJson := obj_get (js "outputJson") step in
  let completed := match status with JStr st => jeqb st (js "completed") | _ => false end in
  MkStep (obj_get (js "name") step) (obj_get (js "nameCount") step) (obj_get (js "dependencies") step)
    (obj_get (js "kind") step) (obj_get (js "config") step) status
    (match outputJson with
     | JStr t => JStr t
     | o => if completed then JStr (default (js "null") (JSON (or_null (obj_get (js "output") step)))) else o
     end)
    (projectReplayStepError status (obj_get (js "error") step)).

Definition readWorkflowReplayStepOutput (step : StepRecord) : option jsval :=
  match sr_outputJson step with JStr t => json_parse t | _ => Some JNull end.

(** ** Canonical texts *)

(** [compareEncodedKeys]: by the bytes of the keys. *)
Fixpoint bytes_le (a b : list Z) : bool :=
  match a, b with
  | [], _ => true
  | _ :: _, [] => false
  | x :: a', y :: b' => if x =? y then bytes_le a' b' else x <? y
  end.

Definition key_le (a b : jstr * jstr) : Prop := bytes_le (utf8_encode a.1) (utf8_encode b.1) = true.

Global Instance key_le_dec : RelDecision key_le.
Proof. intros a b. unfold key_le. apply _. Defined.

Definition leaf_text (v : jsval) : jstr := default [] (JSON v).

(** The members with their texts are sorted; [sort] is stable. *)
Fixpoint canonicalJsonValue (v : jsval) : jstr :=
  match v with
  | JArr l => 91 :: join_with 44 (map canonicalJsonValue l) ++ [93]
  | JObj record =>
      let members := (fix go (l : list (jstr * jsval)) : list (jstr * jstr) :=
        match l with [] => [] | (k, x) :: r => (k, canonicalJsonValue x) :: go r end) record in
      123 :: join_with 44 (map (λ m : jstr * jstr, leaf_text (JStr m.1) ++ 58 :: m.2) (merge_sort key_le members)) ++ [125]
  | v => leaf_text v
  end.

Definition canonicalJson (value : jsval) : jstr :=
  let normalized := match JSON value with None => JNull | Some json => default JNull (json_parse json) end in
  canonicalJsonValue normalized.

(** ** Eviction *)

Definition deleteReplayStep (id : nat) (ordinal : Z) (s : replay) : replay :=
  match heap s !! id with
  | None => s
  | Some c =>
      match jm_get ordinal (rc_steps c) with
      | None => s
      | Some (_, bytes) =>
          let c' := MkCache (rc_key c) (rc_lastRunToken c) (jm_delete ordinal (rc_steps c)) (rc_nextOrdinal c) (rc_complete c)
                      (rc_bytes c - bytes) (rc_activeControllers c) (rc_released c) in
          count (when (in_table s id c) (-1)) (when (in_table s id c) (- bytes))
            (when (0 <? rc_activeControllers c) (- bytes)) (when (is_detached s id) (- bytes)) (set_cache id c' s)
      end
  end.

Definition clearWorkflowReplayCache (id : nat) (s : replay) : replay :=
  match heap s !! id with
  | None => s
  | Some c =>
      let s' := count 0 0 0 (when (is_detached s id) (- rc_bytes c)) s in
      set_cache id (MkCache (rc_key c) (rc_lastRunToken c) [] 0 false 0 (rc_activeControllers c) true)
        (MkReplay (workflowReplayCaches s') (filter (λ i, i ≠ id) (detachedReplayCaches s')) (heap s') (replayReadLeases s')
           (cacheSteps s') (cacheBytes s') (activeBytes s') (detachedBytes s') (readBytes s') (highWaterBytes s'))
  end.

Definition evictWorkflowReplayCache (key : jstr) (s : replay) : replay :=
  match jm_get key (workflowReplayCaches s) with
  | None => s
  | Some id =>
      match heap s !! id with
      | None => s
      | Some c =>
          let s1 := count (- Z.of_nat (jm_size (rc_steps c))) (- rc_bytes c) 0 0 s in
          let s2 := MkReplay (jm_delete key (workflowReplayCaches s1)) (detachedReplayCaches s1) (heap s1) (replayReadLeases s1)
                      (cacheSteps s1) (cacheBytes s1) (activeBytes s1) (detachedBytes s1) (readBytes s1) (highWaterBytes s1) in
          if rc_activeControllers c =? 0 then clearWorkflowReplayCache id s2
          else
            count 0 0 0 (rc_bytes c)
              (MkReplay (workflowReplayCaches s2) (detachedReplayCaches s2 ++ [id]) (heap s2) (replayReadLeases s2)
                 (cacheSteps s2) (cacheBytes s2) (activeBytes s2) (detachedBytes s2) (readBytes s2) (highWaterBytes s2))
      end
  end.

Definition evictOldestWorkflowReplayCache (s : replay) : replay :=
  match jm_first_key (workflowReplayCaches s) with Some oldest => evictWorkflowReplayCache oldest s | None => s end.

(** The two eviction loops; each round removes an entry of the table, so its size is enough. *)
Fixpoint evict_while (over : replay → bool) (fuel : nat) (s : replay) : replay :=
  match fuel with
  | O => s
  | S n => if over s then evict_while over n (evictOldestWorkflowReplayCache s) else s
  end.

Definition evict_until (over : replay → bool) (s : replay) : replay := evict_while over (jm_size (workflowReplayCaches s)) s.

(** [reserveWorkingSet]: the loop over the entries of the table; [false] is a thrown
    [WorkflowReplayCapacityError]. *)
Fixpoint reserve_loop (entries : list (jstr * nat)) (bytes : Z) (keep : option nat) (s : replay) : replay * bool :=
  match entries with
  | [] => (s, false)
  | (key, id) :: rest =>
      let active := match heap s !! id with Some c => 0 <? rc_activeControllers c | None => false end in
      if bool_decide (keep = Some id) || active then reserve_loop rest bytes keep s
      else
        let s := evictWorkflowReplayCache key s in
        if replayWorkingSetBytes s + bytes <=? WORKFLOW_REPLAY_WORKING_SET_MAX_BYTES then (s, true)
        else reserve_loop rest bytes keep s
  end.

Definition reserveWorkingSet (bytes : Z) (keep : option nat) (s : replay) : replay * bool :=
  if replayWorkingSetBytes s + bytes <=? WORKFLOW_REPLAY_WORKING_SET_MAX_BYTES then (s, true)
  else reserve_loop (workflowReplayCaches s) bytes keep s.

(** ** Read leases *)

Definition createWorkflowReplayReadLease (s : replay) : replay * nat :=
  (MkReplay (workflowReplayCaches s) (detachedReplayCaches s) (heap s) (replayReadLeases s ++ [MkLease 0 false])
     (cacheSteps s) (cacheBytes s) (activeBytes s) (detachedBytes s) (readBytes s) (highWaterBytes s),
   length (replayReadLeases s)).

Definition set_lease (lease : nat) (l : ReadLease) (delta : Z) (s : replay) : replay :=
  MkReplay (workflowReplayCaches s) (detachedReplayCaches s) (heap s) (<[lease := l]> (replayReadLeases s))
    (cacheSteps s) (cacheBytes s) (activeBytes s) (detachedBytes s) (readBytes s + delta) (highWaterBytes s).

Definition lease_reserve (lease : nat) (bytes : Z) (s : replay) : replay * bool :=
  match replayReadLeases s !! lease with
  | None => (s, false)
  | Some l =>
      if rl_released l then (s, false)
      else
        let '(s, ok) := reserveWorkingSet (Z.max 0 (bytes - rl_reserved l)) None s in
        if ok then (recordReplayHighWater (set_lease lease (MkLease bytes false) (bytes - rl_reserved l) s), true)
        else (s, false)
  end.

Definition lease_release (lease : nat) (s : replay) : replay :=
  match replayReadLeases s !! lease with
  | None => s
  | Some l => if rl_released l then s else set_lease lease (MkLease (rl_reserved l) true) (- rl_reserved l) s
  end.

(** ** Controllers *)

Record WorkflowRun := MkRun {
  wr_ns : jstr; wr_workflowKey : jstr; wr_instanceId : jstr; wr_generation : Z; wr_createdAtMs : Z; wr_runToken : jstr }.

Definition workflowReplayCacheKey (run : WorkflowRun) : jstr :=
  wr_ns run ++ [9] ++ wr_workflowKey run ++ [9] ++ wr_instanceId run ++ [9] ++ string_of_Z (wr_generation run) ++ [9]
  ++ string_of_Z (wr_createdAtMs run).

Definition with_table (table : @jmap jstr nat) (s : replay) : replay :=
  MkReplay table (detachedReplayCaches s) (heap s) (replayReadLeases s)
    (cacheSteps s) (cacheBytes s) (activeBytes s) (detachedBytes s) (readBytes s) (highWaterBytes s).

Definition too_many (s : replay) : bool := (WORKFLOW_REPLAY_CACHE_MAX_INSTANCES <? jm_size (workflowReplayCaches s))%nat.

Definition getWorkflowReplayCache (run : WorkflowRun) (s : replay) : replay * nat :=
  let key := workflowReplayCacheKey run in
  match jm_get key (workflowReplayCaches s) with
  | Some id =>
      let s := with_table (jm_touch key id (workflowReplayCaches s)) s in
      match heap s !! id with
      | Some c =>
          if jeqb (rc_lastRunToken c) (wr_runToken run) then (s, id)
          else
            (set_cache id (MkCache (rc_key c) (wr_runToken run) (rc_steps c) (rc_nextOrdinal c) false
                             (rc_bytes c) (rc_activeControllers c) (rc_released c)) s, id)
      | None => (s, id)
      end
  | None =>
      let id := length (heap s) in
      let s := MkReplay (jm_set key id (workflowReplayCaches s)) (detachedReplayCaches s)
                 (heap s ++ [MkCache key (wr_runToken run) [] 0 false 0 0 false]) (replayReadLeases s)
                 (cacheSteps s) (cacheBytes s) (activeBytes s) (detachedBytes s) (readBytes s) (highWaterBytes s) in
      (evict_until too_many s, id)
  end.

Definition with_controllers (n : Z) (c : ReplayCache) : ReplayCache :=
  MkCache (rc_key c) (rc_lastRunToken c) (rc_steps c) (rc_nextOrdinal c) (rc_complete c) (rc_bytes c) n (rc_released c).

Definition acquireWorkflowReplayCache (run : WorkflowRun) (s : replay) : replay * nat :=
  let '(s, id) := getWorkflowReplayCache run s in
  match heap s !! id with
  | Some c =>
      (set_cache id (with_controllers (rc_activeControllers c + 1) c)
         (count 0 0 (when (rc_activeControllers c =? 0) (rc_bytes c)) 0 s), id)
  | None => (s, id)
  end.

Definition releaseWorkflowReplayCache (id : nat) (s : replay) : replay :=
  match heap s !! id with
  | None => s
  | Some c =>
      let n := if 0 <? rc_activeControllers c then rc_activeControllers c - 1 else rc_activeControllers c in
      let s := set_cache id (with_controllers n c)
                 (count 0 0 (when ((0 <? rc_activeControllers c) && (n =? 0)) (- rc_bytes c)) 0 s) in
      if (0 <? n) || in_table s id c then s else clearWorkflowReplayCache id s
  end.

(** ** Remembering a step *)

Definition too_large_cache (s : replay) : bool := WORKFLOW_REPLAY_CACHE_MAX_BYTES <? cacheBytes s.

(** The new entry with its counters. *)
Definition insert_step (id : nat) (ordinal : Z) (step : StepRecord) (bytes : Z) (counted : bool) (s : replay) : replay :=
  match heap s !! id with
  | None => s
  | Some c =>
      count (when counted 1) (when counted bytes) (when (0 <? rc_activeControllers c) bytes) (when (is_detached s id) bytes)
        (set_cache id (MkCache (rc_key c) (rc_lastRunToken c) (jm_set ordinal (step, bytes) (rc_steps c)) (rc_nextOrdinal c)
                         (rc_complete c) (rc_bytes c + bytes) (rc_activeControllers c) (rc_released c)) s)
  end.

Definition step_bytes (ordinal : option Z) (c : ReplayCache) : Z :=
  match o ← ordinal; jm_get o (rc_steps c) with Some (_, b) => b | None => 0 end.

Definition rememberWorkflowReplayStep (id : nat) (ordinal : Z) (step : fields) (s : replay) : replay * bool :=
  match heap s !! id with
  | None => (s, true)
  | Some c =>
      if rc_released c then (s, true)
      else
        let countInGlobalCache := in_table s id c in
        let storedStep := stored_step step in
        let bytes := serializedReplayStepBytes storedStep in
        if WORKFLOW_REPLAY_CACHE_MAX_BYTES <? bytes then (deleteReplayStep id ordinal s, true)
        else
          let oldest :=
            if negb (jm_has ordinal (rc_steps c)) && (WORKFLOW_REPLAY_CACHE_MAX_STEPS_PER_INSTANCE <=? jm_size (rc_steps c))%nat
            then jm_first_key (rc_steps c) else None in
          let replacedBytes := step_bytes (Some ordinal) c + step_bytes oldest c in
          let '(s, ok) := reserveWorkingSet (Z.max 0 (bytes - replacedBytes)) (Some id) s in
          if negb ok then (s, false)
          else
            let s := deleteReplayStep id ordinal s in
            let s := match oldest with Some o => deleteReplayStep id o s | None => s end in
            let s := recordReplayHighWater (insert_step id ordinal storedStep bytes countInGlobalCache s) in
            (if countInGlobalCache then evict_until too_large_cache s else s, true)
  end.
End steps.

(** ** Sums over objects *)

Section sums.
Context {A : Type}.

Fixpoint isum (f : nat → A → Z) (l : list A) : Z :=
  match l with [] => 0 | x :: r => f O x + isum (λ i, f (S i)) r end.

Lemma isum_ext f f' l : (∀ i x, l !! i = Some x → f i x = f' i x) → isum f l = isum f' l.
Proof.
  revert f f'. induction l as [|x l IH]; intros f f' H; [done|]. cbn [isum]. rewrite (H O x eq_refl). f_equal.
  apply IH. intros i y Hy. by apply (H (S i)).
Qed.

Lemma isum_nonneg f l : (∀ i x, l !! i = Some x → 0 <= f i x) → 0 <= isum f l.
Proof.
  revert f. induction l as [|x l IH]; intros f H; [done|]. cbn [isum]. pose proof (H O x eq_refl).
  assert (0 <= isum (λ i, f (S i)) l) by (apply IH; intros i y Hy; by apply (H (S i))). lia.
Qed.

(** An object and its weight change, the others keep theirs. *)
Lemma isum_change f f' l i x x' : l !! i = Some x → (∀ j y, j ≠ i → l !! j = Some y → f' j y = f j y) →
  isum f' (<[i := x']> l) = isum f l - f i x + f' i x'.
Proof.
  revert f f' i. induction l as [|y l IH]; intros f f' [|i] Hx Hf; cbn in Hx; try done.
  - simplify_eq. cbn [isum insert list_insert]. rewrite (isum_ext (λ i, f' (S i)) (λ i, f (S i))); [lia|].
    intros j z Hz. by apply (Hf (S j)).
  - change (<[S i := x']> (y :: l)) with (y :: <[i := x']> l). cbn [isum].
    rewrite (IH (λ i, f (S i)) (λ i, f' (S i)) i Hx); [|intros j z Hj Hz; apply (Hf (S j)); [congruence | done]].
    rewrite (Hf O y); [lia|done|done].
Qed.

Lemma isum_snoc f f' l x : (∀ j y, l !! j = Some y → f' j y = f j y) → isum f' (l ++ [x]) = isum f l + f' (length l) x.
Proof.
  revert f f'. induction l as [|y l IH]; intros f f' Hf; cbn [isum app length]; [lia|].
  rewrite (IH (λ i, f (S i)) (λ i, f' (S i))); [|intros j z Hz; by apply (Hf (S j))]. rewrite (Hf O y) by done. lia.
Qed.
End sums.

(** ** The invariant *)

(** What a cache holds in bytes. *)
Definition steps_bytes (m : @jmap Z (StepRecord * Z)) : Z := isum (λ _ e, e.2.2) m.

Record cache_ok (s : replay) (id : nat) (c : ReplayCache) : Prop := {
  co_bytes : rc_bytes c = steps_bytes (rc_steps c);
  co_steps : Forall (λ e : Z * (StepRecord * Z), 0 <= e.2.2) (rc_steps c);
  co_keys : jm_wf (rc_steps c);
  co_count : (jm_size (rc_steps c) <= WORKFLOW_REPLAY_CACHE_MAX_STEPS_PER_INSTANCE)%nat;
  co_active : 0 <= rc_activeControllers c;
  (** Released caches are empty and idle, the others are in the table or detached. *)
  co_place : if rc_released c then rc_steps c = [] ∧ rc_activeControllers c = 0 ∧ in_table s id c = false ∧ is_detached s id = false
             else in_table s id c = negb (is_detached s id);
  co_detached : is_detached s id = true → 0 < rc_activeControllers c }.

(** The counters are the sums over the objects they count. *)
Record counts_ok (s : replay) : Prop := {
  ct_steps : cacheSteps s = isum (λ i c, when (in_table s i c) (Z.of_nat (jm_size (rc_steps c)))) (heap s);
  ct_bytes : cacheBytes s = isum (λ i c, when (in_table s i c) (rc_bytes c)) (heap s);
  ct_active : activeBytes s = isum (λ i c, when (0 <? rc_activeControllers c) (rc_bytes c)) (heap s);
  ct_detached : detachedBytes s = isum (λ i c, when (is_detached s i) (rc_bytes c)) (heap s);
  ct_read : readBytes s = isum (λ _ l, when (negb (rl_released l)) (rl_reserved l)) (replayReadLeases s) }.

Record core (s : replay) : Prop := {
  cr_counts : counts_ok s;
  cr_caches : ∀ id c, heap s !! id = Some c → cache_ok s id c;
  cr_table : jm_wf (workflowReplayCaches s);
  cr_entries : ∀ k id, jm_get k (workflowReplayCaches s) = Some id → ∃ c, heap s !! id = Some c ∧ rc_key c = k;
  cr_detached : NoDup (detachedReplayCaches s) ∧ Forall (λ id, is_Some (heap s !! id)) (detachedReplayCaches s);
  cr_leases : Forall (λ l, 0 <= rl_reserved l) (replayReadLeases s) }.

Record bounded (s : replay) : Prop := {
  bd_working : replayWorkingSetBytes s <= WORKFLOW_REPLAY_WORKING_SET_MAX_BYTES;
  bd_high : replayWorkingSetBytes s <= highWaterBytes s <= WORKFLOW_REPLAY_WORKING_SET_MAX_BYTES;
  bd_cache : cacheBytes s <= WORKFLOW_REPLAY_CACHE_MAX_BYTES;
  bd_instances : (jm_size (workflowReplayCaches s) <= WORKFLOW_REPLAY_CACHE_MAX_INSTANCES)%nat }.

Lemma cache_bytes_nonneg s id c : cache_ok s id c → 0 <= rc_bytes c.
Proof.
  intros []. rewrite co_bytes0. apply isum_nonneg. intros i e He. rewrite Forall_forall in co_steps0.
  by apply co_steps0, list_elem_of_lookup_2 with i.
Qed.

Lemma steps_bytes_delete o (m : @jmap Z (StepRecord * Z)) st b : jm_wf m → jm_get o m = Some (st, b) →
  steps_bytes (jm_delete o m) = steps_bytes m - b.
Proof.
  unfold steps_bytes. induction m as [|[k [st' b']] m IH]; intros Hwf Hg; [done|]. cbn [jm_get jm_delete] in *.
  destruct (decide (o = k)) as [->|]; cbn [isum snd].
  - simplify_eq. rewrite jm_delete_absent; [lia|]. by apply NoDup_cons in Hwf as [? _].
  - rewrite IH; [lia| |done]. by apply NoDup_cons in Hwf as [_ ?].
Qed.

Lemma steps_bytes_snoc m e : steps_bytes (m ++ [e]) = steps_bytes m + e.2.2.
Proof. unfold steps_bytes. by rewrite (isum_snoc (λ _ e, e.2.2)) by done. Qed.

Lemma jm_delete_size {V} o (m : @jmap Z V) : jm_wf m → jm_has o m = true → S (jm_size (jm_delete o m)) = jm_size m.
Proof. unfold jm_has. destruct (jm_get o m) eqn:E; [|done]. intros Hwf _. by eapply jm_size_delete_present. Qed.

(** ** Operations on one object *)

(** The place of the other objects is the same. *)
Definition same_place (id : nat) (s s' : replay) : Prop :=
  ∀ j c, j ≠ id → heap s !! j = Some c → in_table s' j c = in_table s j c ∧ is_detached s' j = is_detached s j.

Record table_ok (s : replay) : Prop := {
  to_table : jm_wf (workflowReplayCaches s);
  to_entries : ∀ k id, jm_get k (workflowReplayCaches s) = Some id → ∃ c, heap s !! id = Some c ∧ rc_key c = k;
  to_detached : NoDup (detachedReplayCaches s) ∧ Forall (λ id, is_Some (heap s !! id)) (detachedReplayCaches s) }.

Lemma core_update s s' id c c' :
  core s → heap s !! id = Some c → heap s' = <[id := c']> (heap s) → replayReadLeases s' = replayReadLeases s →
  same_place id s s' → table_ok s' → cache_ok s' id c' →
  cacheSteps s' = cacheSteps s - when (in_table s id c) (Z.of_nat (jm_size (rc_steps c))) + when (in_table s' id c') (Z.of_nat (jm_size (rc_steps c'))) →
  cacheBytes s' = cacheBytes s - when (in_table s id c) (rc_bytes c) + when (in_table s' id c') (rc_bytes c') →
  activeBytes s' = activeBytes s - when (0 <? rc_activeControllers c) (rc_bytes c) + when (0 <? rc_activeControllers c') (rc_bytes c') →
  detachedBytes s' = detachedBytes s - when (is_detached s id) (rc_bytes c) + when (is_detached s' id) (rc_bytes c') →
  readBytes s' = readBytes s → core s'.
Proof.
  intros [[Hst Hby Hac Hde Hre] Hc _ _ _ Hl] Hid Hh Hls Hp [Ht He Hd] Hok E1 E2 E3 E4 E5.
  split; try done; [split| |by rewrite Hls].
  - rewrite E1, Hst, Hh. rewrite (isum_change (λ i c, when (in_table s i c) (Z.of_nat (jm_size (rc_steps c)))) (λ i c, when (in_table s' i c) (Z.of_nat (jm_size (rc_steps c)))) _ _ _ c' Hid); [done|]. intros j y Hj Hy; cbn beta; by rewrite (proj1 (Hp j y Hj Hy)).
  - rewrite E2, Hby, Hh. rewrite (isum_change (λ i c, when (in_table s i c) (rc_bytes c)) (λ i c, when (in_table s' i c) (rc_bytes c)) _ _ _ c' Hid); [done|]. intros j y Hj Hy; cbn beta; by rewrite (proj1 (Hp j y Hj Hy)).
  - rewrite E3, Hac, Hh. rewrite (isum_change (λ i c, when (0 <? rc_activeControllers c) (rc_bytes c)) (λ i c, when (0 <? rc_activeControllers c) (rc_bytes c)) _ _ _ c' Hid); [done|]. done.
  - rewrite E4, Hde, Hh. rewrite (isum_change (λ i c, when (is_detached s i) (rc_bytes c)) (λ i c, when (is_detached s' i) (rc_bytes c)) _ _ _ c' Hid); [done|]. intros j y Hj Hy; cbn beta; by rewrite (proj2 (Hp j y Hj Hy)).
  - by rewrite E5, Hre, Hls.
  - intros j y Hy. rewrite Hh in Hy. destruct (decide (j = id)) as [->|Hj].
    + rewrite list_lookup_insert_eq in Hy by by eapply lookup_lt_Some. by simplify_eq.
    + rewrite list_lookup_insert_ne in Hy by done. destruct (Hp j y Hj Hy) as [P1 P2]. destruct (Hc j y Hy). split; try done.
      * by rewrite P1, P2.
      * by rewrite P2.
Qed.

Lemma insert_entry (h : list ReplayCache) id c c' k (j : nat) :
  h !! id = Some c → rc_key c' = rc_key c → (∃ x, h !! j = Some x ∧ rc_key x = k) →
  ∃ x, <[id := c']> h !! j = Some x ∧ rc_key x = k.
Proof.
  intros Hc Hk (x & Hx & <-). destruct (decide (j = id)) as [->|Hj].
  - rewrite list_lookup_insert_eq by by eapply lookup_lt_Some. exists c'. split; [done|]. congruence.
  - rewrite list_lookup_insert_ne by done. by exists x.
Qed.

Lemma insert_some (h : list ReplayCache) id c' (j : nat) : is_Some (h !! j) → is_Some (<[id := c']> h !! j).
Proof. intros Hj%lookup_lt_is_Some. apply lookup_lt_is_Some. by rewrite length_insert. Qed.

(** The table is as it was and an object with the same key is assigned to. *)
Lemma table_assign s s' id c c' :
  table_ok s → heap s !! id = Some c → rc_key c' = rc_key c → heap s' = <[id := c']> (heap s) →
  workflowReplayCaches s' = workflowReplayCaches s → detachedReplayCaches s' = detachedReplayCaches s → table_ok s'.
Proof.
  intros [Ht He [Hd Hf]] Hc Hk Hh Et Ed. split; rewrite ?Et, ?Ed; [done| |].
  - intros k j Hj. rewrite Hh. eapply insert_entry; eauto.
  - split; [done|]. eapply Forall_impl; [exact Hf|]. intros j Hj. rewrite Hh. by apply insert_some.
Qed.

Lemma core_table s : core s → table_ok s.
Proof. intros []. by split. Qed.

(** An assignment that leaves the place of the object. *)
Lemma core_assign s id c c' (dS dB dA dD : Z) :
  core s → heap s !! id = Some c → rc_key c' = rc_key c →
  cache_ok s id c' →
  dS = when (in_table s id c) (Z.of_nat (jm_size (rc_steps c')) - Z.of_nat (jm_size (rc_steps c))) →
  dB = when (in_table s id c) (rc_bytes c' - rc_bytes c) →
  dA = when (0 <? rc_activeControllers c') (rc_bytes c') - when (0 <? rc_activeControllers c) (rc_bytes c) →
  dD = when (is_detached s id) (rc_bytes c' - rc_bytes c) →
  core (count dS dB dA dD (set_cache id c' s)).
Proof.
  intros Hcore Hid Hk Hok -> -> -> ->.
  set (s' := count _ _ _ _ _).
  assert (in_table s' id c' = in_table s id c) as Ein by (unfold in_table; by rewrite Hk).
  eapply (core_update s); [done|exact Hid|done|done|done| |by destruct Hok; split|..]; rewrite ?Ein.
  - by eapply table_assign; [by apply core_table|..].
  - unfold s'. cbn [cacheSteps count set_cache]. destruct (in_table s id c); cbn [when]; lia.
  - unfold s'. cbn [cacheBytes count set_cache]. destruct (in_table s id c); cbn [when]; lia.
  - unfold s'. cbn [activeBytes count set_cache]. lia.
  - change (is_detached s' id) with (is_detached s id). unfold s'. cbn [detachedBytes count set_cache].
    destruct (is_detached s id); cbn [when]; lia.
  - done.
Qed.

(** What a deletion does to the object. *)
Definition without_step (ordinal : Z) (c : ReplayCache) : ReplayCache :=
  MkCache (rc_key c) (rc_lastRunToken c) (jm_delete ordinal (rc_steps c)) (rc_nextOrdinal c) (rc_complete c)
    (rc_bytes c - step_bytes (Some ordinal) c) (rc_activeControllers c) (rc_released c).

Lemma without_absent o c : jm_get o (rc_steps c) = None → without_step o c = c.
Proof.
  intros H. unfold without_step, step_bytes. cbn [mbind option_bind]. rewrite H, jm_delete_absent by by apply jm_get_None.
  destruct c. cbn. f_equal. lia.
Qed.

Lemma deleteReplayStep_eq s id c o : heap s !! id = Some c →
  deleteReplayStep id o s =
    (if jm_has o (rc_steps c)
     then count (when (in_table s id c) (-1)) (when (in_table s id c) (- step_bytes (Some o) c))
            (when (0 <? rc_activeControllers c) (- step_bytes (Some o) c)) (when (is_detached s id) (- step_bytes (Some o) c))
            (set_cache id (without_step o c) s)
     else s).
Proof.
  intros Hc. unfold deleteReplayStep, jm_has, without_step, step_bytes. rewrite Hc. cbn [mbind option_bind].
  by destruct (jm_get o (rc_steps c)) as [[st b]|].
Qed.

Lemma without_step_ok s id c o : cache_ok s id c → jm_has o (rc_steps c) = true → cache_ok s id (without_step o c).
Proof.
  intros [] Ho. pose proof (jm_delete_size o (rc_steps c) co_keys0 Ho) as Hs.
  split; cbn [rc_bytes rc_steps rc_activeControllers rc_released without_step]; try done.
  - unfold step_bytes, jm_has in *. cbn [mbind option_bind]. destruct (jm_get o (rc_steps c)) as [[st b]|] eqn:E; [|done].
    rewrite co_bytes0. symmetry. by eapply steps_bytes_delete.
  - clear -co_steps0. induction co_steps0 as [|[k e] m He _ IH]; cbn [jm_delete]; [constructor|]. case_decide; [done|]. by constructor.
  - by apply jm_wf_delete.
  - lia.
  - destruct (rc_released c); [|done]. destruct co_place0 as (E & _). unfold jm_has in Ho. by rewrite E in Ho.
Qed.

(** What every operation keeps of the rest of the state. *)
Record keeps (s s' : replay) : Prop := {
  kp_leases : replayReadLeases s' = replayReadLeases s;
  kp_read : readBytes s' = readBytes s;
  kp_high : highWaterBytes s' = highWaterBytes s }.

Lemma delete_core s id c o : core s → heap s !! id = Some c → core (deleteReplayStep id o s).
Proof.
  intros Hs Hc. rewrite (deleteReplayStep_eq _ _ _ _ Hc). destruct (jm_has o (rc_steps c)) eqn:Ho; [|done].
  pose proof (cr_caches _ Hs _ _ Hc) as Hok. pose proof (jm_delete_size o (rc_steps c) (co_keys _ _ _ Hok) Ho) as Hsz.
  eapply core_assign; [done|exact Hc|done|by apply without_step_ok|..]; cbn [without_step rc_steps rc_bytes rc_activeControllers].
  - destruct (in_table s id c); cbn [when]; lia.
  - destruct (in_table s id c); cbn [when]; lia.
  - destruct (0 <? rc_activeControllers c); cbn [when]; lia.
  - destruct (is_detached s id); cbn [when]; lia.
Qed.

(** A deletion changes its object, and the counters by its bytes. *)
Lemma delete_effect s id c o : core s → heap s !! id = Some c → rc_released c = false →
  let s' := deleteReplayStep id o s in
  heap s' !! id = Some (without_step o c) ∧ in_table s' id (without_step o c) = in_table s id c ∧ is_detached s' id = is_detached s id ∧
  workflowReplayCaches s' = workflowReplayCaches s ∧ keeps s s' ∧
  replayWorkingSetBytes s' = replayWorkingSetBytes s - step_bytes (Some o) c ∧ cacheBytes s' <= cacheBytes s.
Proof.
  intros Hs Hc Hr. cbv zeta. rewrite (deleteReplayStep_eq _ _ _ _ Hc). pose proof (cr_caches _ Hs _ _ Hc) as Hok.
  pose proof (co_place _ _ _ Hok) as Hp. rewrite Hr in Hp. destruct (jm_has o (rc_steps c)) eqn:Ho.
  - assert (0 <= step_bytes (Some o) c) as Hb.
    { unfold step_bytes. cbn [mbind option_bind]. destruct (jm_get o (rc_steps c)) as [[st b]|] eqn:E; [|done].
      pose proof (co_steps _ _ _ Hok) as Hf. rewrite Forall_forall in Hf. by apply (Hf (o, (st, b))), jm_get_elem. }
    split_and!; try done.
    + apply list_lookup_insert_eq. by eapply lookup_lt_Some.
    + unfold replayWorkingSetBytes. cbn [cacheBytes detachedBytes readBytes count set_cache]. rewrite Hp.
      destruct (is_detached s id); cbn [when negb]; lia.
    + cbn [cacheBytes count set_cache]. destruct (in_table s id c); cbn [when]; lia.
  - assert (jm_get o (rc_steps c) = None) as Hn by (unfold jm_has in Ho; by destruct (jm_get o (rc_steps c))).
    rewrite without_absent by done. unfold step_bytes. cbn [mbind option_bind]. rewrite Hn. split_and!; try done. lia.
Qed.

(** ** Eviction *)

Lemma in_table_delete s key j c id :
  jm_get key (workflowReplayCaches s) = Some id → j ≠ id →
  bool_decide (jm_get (rc_key c) (jm_delete key (workflowReplayCaches s)) = Some j) = in_table s j c.
Proof.
  intros Hk Hj. unfold in_table. apply bool_decide_ext. rewrite jm_get_delete. case_decide as E; [|done]. rewrite E, Hk.
  split; [done|]. intros [= ->]. done.
Qed.

Lemma in_table_get s id c : in_table s id c = true ↔ jm_get (rc_key c) (workflowReplayCaches s) = Some id.
Proof. unfold in_table. apply bool_decide_eq_true. Qed.

(** What an eviction leaves: the others as they are, and itself too when it is in use. *)
Record evicts (s s' : replay) : Prop := {
  ev_keeps : keeps s s';
  ev_working : replayWorkingSetBytes s' <= replayWorkingSetBytes s;
  ev_cache : cacheBytes s' <= cacheBytes s;
  ev_size : (jm_size (workflowReplayCaches s') <= jm_size (workflowReplayCaches s))%nat;
  ev_busy : ∀ j c, heap s !! j = Some c → 0 < rc_activeControllers c → heap s' !! j = Some c }.

Lemma evicts_refl s : evicts s s.
Proof. by split. Qed.

Lemma evicts_trans s s' s'' : evicts s s' → evicts s' s'' → evicts s s''.
Proof.
  intros [[] ] [[] ]. split; [split; congruence|lia..|]. eauto.
Qed.

Definition cleared (c : ReplayCache) : ReplayCache := MkCache (rc_key c) (rc_lastRunToken c) [] 0 false 0 (rc_activeControllers c) true.

Lemma filter_out_absent (id : nat) (l : list nat) : id ∉ l → filter (λ i, i ≠ id) l = l.
Proof.
  induction l as [|x l IH]; [done|]. intros [Hx Hl]%not_elem_of_cons. rewrite filter_cons_True by congruence. by rewrite IH.
Qed.

Lemma evict_entry s key id c :
  core s → jm_get key (workflowReplayCaches s) = Some id → heap s !! id = Some c →
  let s' := evictWorkflowReplayCache key s in
  core s' ∧ evicts s s' ∧ workflowReplayCaches s' = jm_delete key (workflowReplayCaches s) ∧
  (∀ j c, j ≠ id → heap s !! j = Some c → heap s' !! j = Some c ∧ in_table s' j c = in_table s j c ∧ is_detached s' j = is_detached s j).
Proof.
  intros Hs Hk Hc. cbv zeta. pose proof (cr_caches _ Hs _ _ Hc) as Hok. pose proof (core_table _ Hs) as [Ht He [Hd Hf]].
  destruct (He _ _ Hk) as (c0 & Hc0 & Hkey). rewrite Hc in Hc0. simplify_eq.
  assert (in_table s id c0 = true) as Hin by by apply in_table_get.
  assert (rc_released c0 = false ∧ is_detached s id = false) as [Hr Hdt].
  { pose proof (co_place _ _ _ Hok) as Hp. destruct (rc_released c0); [destruct Hp as (_ & _ & Hp & _); congruence|].
    split; [done|]. destruct (is_detached s id); [|done]. cbn in Hp. congruence. }
  pose proof (cache_bytes_nonneg _ _ _ Hok) as Hb.
  assert (id ∉ detachedReplayCaches s) as Hnd by (unfold is_detached in Hdt; by apply bool_decide_eq_false in Hdt).
  unfold evictWorkflowReplayCache. rewrite Hk, Hc. destruct (Z.eqb_spec (rc_activeControllers c0) 0) as [Ea|Ea].
  - unfold clearWorkflowReplayCache. cbn [heap count]. rewrite Hc. fold (cleared c0).
    change (is_detached (MkReplay _ (detachedReplayCaches (count _ _ _ _ s)) _ _ _ _ _ _ _ _) id) with (is_detached s id). rewrite Hdt. cbn [when].
    match goal with |- core ?x ∧ _ => set (s' := x) end.
    assert (detachedReplayCaches s' = detachedReplayCaches s) as Ed by by apply filter_out_absent.
    assert (same_place id s s') as Hsp.
    { intros j y Hj Hy. split; [exact (in_table_delete s (rc_key c0) j y id Hk Hj) | unfold is_detached; by rewrite Ed]. }
    assert (in_table s' id (cleared c0) = false) as Hi'.
    { apply bool_decide_eq_false. unfold s'. cbn [workflowReplayCaches set_cache cleared rc_key count]. by rewrite jm_get_delete, decide_True. }
    assert (is_detached s' id = false) as Hd' by (unfold is_detached; by rewrite Ed).
    split; [|split; [|split; [done|]]].
    + eapply (core_update s s' id c0 (cleared c0)); try done; rewrite ?Hin, ?Hdt, ?Hi', ?Hd'.
      * split; unfold s'; cbn [workflowReplayCaches set_cache count heap]; [by apply jm_wf_delete| |].
        -- intros k j. rewrite jm_get_delete. case_decide; [done|]. intros Hj. eapply insert_entry; eauto.
        -- change (detachedReplayCaches _) with (detachedReplayCaches s'). rewrite Ed. split; [done|]. eapply Forall_impl; [exact Hf|].
           intros j Hj. by apply insert_some.
      * split; rewrite ?Hi', ?Hd'; cbn [cleared rc_released rc_steps rc_activeControllers rc_bytes]; try done; [apply jm_wf_nil|cbn; lia|lia].
      * unfold s'. cbn [cacheSteps set_cache count when]. lia.
      * unfold s'. cbn [cacheBytes set_cache count when]. lia.
      * unfold s'. cbn [activeBytes set_cache count cleared rc_activeControllers rc_bytes]. rewrite Ea. change (0 <? 0) with false. cbn [when]. lia.
      * unfold s'. cbn [detachedBytes set_cache count when]. lia.
    + split; [done| | | |].
      * unfold replayWorkingSetBytes, s'. cbn [cacheBytes detachedBytes readBytes set_cache count]. lia.
      * unfold s'. cbn [cacheBytes set_cache count]. lia.
      * apply jm_delete_length.
      * intros j y Hy Hpos. unfold s'. cbn [heap set_cache count]. rewrite list_lookup_insert_ne; [done|]. intros <-. rewrite Hc in Hy. simplify_eq. lia.
    + intros j y Hj Hy. split; [|by apply Hsp]. unfold s'. cbn [heap set_cache count]. by rewrite list_lookup_insert_ne.
  - match goal with |- core ?x ∧ _ => set (s' := x) end.
    assert (same_place id s s') as Hsp.
    { intros j y Hj Hy. split; [exact (in_table_delete s (rc_key c0) j y id Hk Hj)|]. unfold is_detached, s'. cbn [detachedReplayCaches count].
      apply bool_decide_ext. rewrite elem_of_app, list_elem_of_singleton. naive_solver. }
    assert (in_table s' id c0 = false) as Hi'.
    { apply bool_decide_eq_false. unfold s'. cbn [workflowReplayCaches count]. by rewrite jm_get_delete, decide_True. }
    assert (is_detached s' id = true) as Hd'.
    { apply bool_decide_eq_true. unfold s'. cbn [detachedReplayCaches count]. apply elem_of_app. right. by apply list_elem_of_singleton. }
    assert (heap s' = heap s) as Eh by done. pose proof (co_active _ _ _ Hok) as Hpos.
    split; [|split; [|split; [done|]]].
    + eapply (core_update s s' id c0 c0); try done; rewrite ?Hin, ?Hdt, ?Hi', ?Hd'.
      * by rewrite list_insert_id.
      * split; unfold s'; cbn [workflowReplayCaches count heap detachedReplayCaches]; [by apply jm_wf_delete| |].
        -- intros k j. rewrite jm_get_delete. case_decide; [done|]. apply He.
        -- split; [|apply Forall_app; split; [done|by apply Forall_singleton]]. apply NoDup_app. split; [done|]. split; [|apply NoDup_singleton].
           intros x Hx ->%list_elem_of_singleton. done.
      * destruct Hok. split; try done; [by rewrite Hr, Hi', Hd'|]. intros _. lia.
      * unfold s'. cbn [cacheSteps count when]. lia.
      * unfold s'. cbn [cacheBytes count when]. lia.
      * unfold s'. cbn [activeBytes count]. lia.
      * unfold s'. cbn [detachedBytes count when]. lia.
    + split; [done| | |apply jm_delete_length|done].
      * unfold replayWorkingSetBytes, s'. cbn [cacheBytes detachedBytes readBytes count]. lia.
      * unfold s'. cbn [cacheBytes count]. lia.
    + intros j y Hj Hy. split; [done|by apply Hsp].
Qed.

Lemma jm_elem_get {V} k v (m : @jmap jstr V) : jm_wf m → (k, v) ∈ m → jm_get k m = Some v.
Proof.
  induction m as [|[k' v'] m IH]; intros Hwf Hin; [by apply elem_of_nil in Hin|]. cbn [jm_get].
  apply NoDup_cons in Hwf as [Hk Hwf]. apply elem_of_cons in Hin as [[= -> ->]|Hin]; [by rewrite decide_True|].
  rewrite decide_False; [by apply IH|]. intros ->. apply Hk. apply list_elem_of_fmap. by exists (k', v).
Qed.

(** The object an operation holds on to. *)
Definition held (keep : option nat) (s s' : replay) : Prop :=
  ∀ j c, keep = Some j → heap s !! j = Some c →
    heap s' !! j = Some c ∧ in_table s' j c = in_table s j c ∧ is_detached s' j = is_detached s j.

Lemma reserve_loop_ok entries bytes keep : NoDup (map fst entries) → ∀ s, core s →
  Forall (λ e, jm_get e.1 (workflowReplayCaches s) = Some e.2) entries →
  let r := reserve_loop entries bytes keep s in
  core r.1 ∧ evicts s r.1 ∧ held keep s r.1 ∧
  (r.2 = true → replayWorkingSetBytes r.1 + bytes <= WORKFLOW_REPLAY_WORKING_SET_MAX_BYTES) ∧
  (WORKFLOW_REPLAY_WORKING_SET_MAX_BYTES < replayWorkingSetBytes s + bytes → r.2 = false →
   WORKFLOW_REPLAY_WORKING_SET_MAX_BYTES < replayWorkingSetBytes r.1 + bytes).
Proof.
  induction entries as [|[key id] rest IH]; intros Hn s Hs He; cbv zeta; cbn [reserve_loop].
  { split_and!; cbn [fst snd]; done. }
  apply NoDup_cons in Hn as [Hk Hn]. apply Forall_cons in He as [He Hr]. cbn [fst snd] in He.
  destruct (cr_entries _ Hs _ _ He) as (c & Hc & _). rewrite Hc.
  destruct (bool_decide (keep = Some id) || (0 <? rc_activeControllers c)) eqn:Eb; [by apply IH|].
  apply orb_false_iff in Eb as [Ek%bool_decide_eq_false _].
  destruct (evict_entry s key id c Hs He Hc) as (Hs1 & Hev & Ht & Ho). set (s1 := evictWorkflowReplayCache key s) in *.
  assert (held keep s s1) as Hh by (intros j y Hj Hy; apply Ho; congruence).
  destruct (Z.leb_spec (replayWorkingSetBytes s1 + bytes) WORKFLOW_REPLAY_WORKING_SET_MAX_BYTES); [by split_and!|].
  destruct (IH Hn s1 Hs1) as (H1 & H2 & H3 & H4 & H5).
  { rewrite Ht. rewrite Forall_forall in Hr |- *. intros e Hin. rewrite jm_get_delete, decide_False; [by apply Hr|].
    intros <-. apply Hk. apply list_elem_of_fmap. by exists e. }
  split_and!; [done|by eapply evicts_trans| |done|intros _; apply H5; lia]. intros j y Hj Hy. destruct (Hh j y Hj Hy) as (A1 & A2 & A3).
  destruct (H3 j y Hj A1) as (B1 & B2 & B3). split_and!; congruence.
Qed.

Lemma reserve_ok bytes keep s : core s →
  let r := reserveWorkingSet bytes keep s in
  core r.1 ∧ evicts s r.1 ∧ held keep s r.1 ∧
  (r.2 = true → replayWorkingSetBytes r.1 + bytes <= WORKFLOW_REPLAY_WORKING_SET_MAX_BYTES) ∧
  (r.2 = false → WORKFLOW_REPLAY_WORKING_SET_MAX_BYTES < replayWorkingSetBytes r.1 + bytes).
Proof.
  intros Hs. unfold reserveWorkingSet. destruct (Z.leb_spec (replayWorkingSetBytes s + bytes) WORKFLOW_REPLAY_WORKING_SET_MAX_BYTES).
  { split_and!; cbn [fst snd]; done. }
  destruct (reserve_loop_ok (workflowReplayCaches s) bytes keep) with (s := s) as (H1 & H2 & H3 & H4 & H5); [apply (cr_table _ Hs)|done| |].
  { apply Forall_forall. intros [k i] Hin. cbn [fst snd]. apply jm_elem_get; [apply (cr_table _ Hs)|done]. }
  split_and!; [done..|]. by apply H5.
Qed.

Lemma evict_oldest_ok s : core s →
  core (evictOldestWorkflowReplayCache s) ∧ evicts s (evictOldestWorkflowReplayCache s) ∧
  (workflowReplayCaches s ≠ [] → S (jm_size (workflowReplayCaches (evictOldestWorkflowReplayCache s))) = jm_size (workflowReplayCaches s)).
Proof.
  intros Hs. unfold evictOldestWorkflowReplayCache. destruct (workflowReplayCaches s) as [|[k id] m] eqn:Et; cbn [jm_first_key].
  { split_and!; [done|apply evicts_refl|done]. }
  assert (jm_get k (workflowReplayCaches s) = Some id) as Hg by (rewrite Et; cbn; by rewrite decide_True).
  destruct (cr_entries _ Hs _ _ Hg) as (c & Hc & _). destruct (evict_entry s k id c Hs Hg Hc) as (H1 & H2 & H3 & _).
  split_and!; [done..|]. intros _. rewrite H3, Et. pose proof (cr_table _ Hs) as Hwf. rewrite Et in Hwf.
  cbn [jm_delete]. rewrite decide_True by done. rewrite jm_delete_absent; [done|]. by apply NoDup_cons in Hwf as [? _].
Qed.

Lemma evict_while_ok over fuel : ∀ s, core s → core (evict_while over fuel s) ∧ evicts s (evict_while over fuel s).
Proof.
  induction fuel as [|n IH]; intros s Hs; cbn [evict_while]; [split; [done|apply evicts_refl]|].
  destruct (over s); [|split; [done|apply evicts_refl]]. destruct (evict_oldest_ok s Hs) as (H1 & H2 & _).
  destruct (IH _ H1) as [H3 H4]. split; [done|by eapply evicts_trans].
Qed.

(** With the size of the table as fuel the loop ends because its condition fails, or with an
    empty table. *)
Lemma evict_while_ends over fuel : ∀ s, core s → (jm_size (workflowReplayCaches s) <= fuel)%nat →
  over (evict_while over fuel s) = false ∨ workflowReplayCaches (evict_while over fuel s) = [].
Proof.
  induction fuel as [|n IH]; intros s Hs Hf; cbn [evict_while].
  - right. unfold jm_size in Hf. destruct (workflowReplayCaches s); [done|cbn in Hf; lia].
  - destruct (over s) eqn:Eo; [|by left]. destruct (workflowReplayCaches s) as [|e m] eqn:Et.
    + assert (evictOldestWorkflowReplayCache s = s) as -> by (unfold evictOldestWorkflowReplayCache; by rewrite Et).
      apply IH; [done|]. rewrite Et. cbn. lia.
    + destruct (evict_oldest_ok s Hs) as (H1 & _ & H3). apply IH; [done|]. rewrite Et in H3. specialize (H3 ltac:(done)). lia.
Qed.

Lemma empty_table_bytes s : core s → workflowReplayCaches s = [] → cacheBytes s = 0.
Proof.
  intros Hs Ht. rewrite (ct_bytes _ (cr_counts _ Hs)).
  rewrite (isum_ext _ (λ _ _, 0)); [|intros i c _; unfold in_table; by rewrite Ht]. generalize (heap s). intros h. by induction h.
Qed.

(** ** Every operation keeps the invariant *)

Record replay_ok (s : replay) : Prop := { ro_core : core s; ro_bounded : bounded s }.

Lemma evicts_bounded s s' : bounded s → evicts s s' → bounded s'.
Proof. intros [] [[] ]. split; rewrite ?kp_high0; lia. Qed.

Lemma high_water_core s : core s → core (recordReplayHighWater s).
Proof. intros [[] H2 H3 H4 H5 H6]. split; try done. intros id c Hc. destruct (H2 id c Hc). by split. Qed.

Lemma high_water_bounded s :
  replayWorkingSetBytes s <= WORKFLOW_REPLAY_WORKING_SET_MAX_BYTES → highWaterBytes s <= WORKFLOW_REPLAY_WORKING_SET_MAX_BYTES →
  cacheBytes s <= WORKFLOW_REPLAY_CACHE_MAX_BYTES → (jm_size (workflowReplayCaches s) <= WORKFLOW_REPLAY_CACHE_MAX_INSTANCES)%nat →
  bounded (recordReplayHighWater s).
Proof.
  intros H1 H2 H3 H4. change (replayWorkingSetBytes s) with (replayWorkingSetBytes (recordReplayHighWater s)) in H1.
  split; try done. cbn [highWaterBytes recordReplayHighWater].
  change (replayWorkingSetBytes s) with (replayWorkingSetBytes (recordReplayHighWater s)). lia.
Qed.

(** The counters of the leases. *)
Lemma lease_core s lease l l' delta :
  core s → replayReadLeases s !! lease = Some l → 0 <= rl_reserved l' →
  delta = when (negb (rl_released l')) (rl_reserved l') - when (negb (rl_released l)) (rl_reserved l) →
  core (set_lease lease l' delta s).
Proof.
  intros [[H1 H2 H3 H4 H5] Hc Ht He Hd Hl] Hls Hr ->. split; try done.
  - split; try done. cbn [readBytes replayReadLeases set_lease]. rewrite H5.
    rewrite (isum_change (λ _ l, when (negb (rl_released l)) (rl_reserved l)) (λ _ l, when (negb (rl_released l)) (rl_reserved l)) _ _ _ l' Hls) by done.
    lia.
  - intros id c Hcc. destruct (Hc id c Hcc). by split.
  - cbn [replayReadLeases set_lease]. by apply Forall_insert.
Qed.

Lemma lease_create_ok s : replay_ok s → replay_ok (createWorkflowReplayReadLease s).1.
Proof.
  intros [[[H1 H2 H3 H4 H5] Hc Ht He Hd Hl] []]. split; [|by split]. cbn [fst createWorkflowReplayReadLease]. split; try done.
  - split; try done. cbn [readBytes replayReadLeases]. rewrite H5.
    rewrite (isum_snoc (λ _ l, when (negb (rl_released l)) (rl_reserved l)) (λ _ l, when (negb (rl_released l)) (rl_reserved l))) by done. cbn. lia.
  - intros id c Hcc. destruct (Hc id c Hcc). by split.
  - cbn [replayReadLeases]. apply Forall_app. split; [done|]. apply Forall_singleton. done.
Qed.

Lemma lease_reserve_ok lease bytes s : 0 <= bytes → replay_ok s → replay_ok (lease_reserve lease bytes s).1.
Proof.
  intros Hb [Hs Hbd]. unfold lease_reserve. destruct (replayReadLeases s !! lease) as [l|] eqn:El; [|done].
  destruct (rl_released l) eqn:Er; [done|].
  destruct (reserve_ok (Z.max 0 (bytes - rl_reserved l)) None s Hs) as (H1 & H2 & _ & H3 & _).
  destruct (reserveWorkingSet _ None s) as [s1 ok]. cbn [fst snd] in *. pose proof (evicts_bounded _ _ Hbd H2) as Hb1.
  destruct ok; cbn [fst]; [|by split]. specialize (H3 eq_refl).
  assert (core (set_lease lease (MkLease bytes false) (bytes - rl_reserved l) s1)) as Hs2.
  { eapply lease_core; [done| |done|].
    - rewrite (kp_leases _ _ (ev_keeps _ _ H2)). exact El.
    - cbn [rl_reserved rl_released]. by rewrite Er. }
  split; [by apply high_water_core|]. destruct Hb1. unfold replayWorkingSetBytes in *.
  apply high_water_bounded; unfold replayWorkingSetBytes; cbn [cacheBytes detachedBytes readBytes highWaterBytes set_lease workflowReplayCaches]; try done; lia.
Qed.

Lemma lease_release_ok lease s : replay_ok s → replay_ok (lease_release lease s).
Proof.
  intros [Hs Hbd]. unfold lease_release. destruct (replayReadLeases s !! lease) as [l|] eqn:El; [|done].
  destruct (rl_released l) eqn:Er; [done|].
  assert (0 <= rl_reserved l) as Hl by (pose proof (cr_leases _ Hs) as Hf; rewrite Forall_forall in Hf; by eapply Hf, list_elem_of_lookup_2).
  split; [eapply lease_core; [done|exact El|done|]; cbn; rewrite Er; cbn; lia|].
  destruct Hbd. unfold replayWorkingSetBytes in *. split; unfold replayWorkingSetBytes;
    cbn [cacheBytes detachedBytes readBytes highWaterBytes set_lease workflowReplayCaches]; try done; lia.
Qed.

(** A fresh cache under a key of its own. *)
Lemma create_core s key token : core s → jm_get key (workflowReplayCaches s) = None →
  core (MkReplay (jm_set key (length (heap s)) (workflowReplayCaches s)) (detachedReplayCaches s)
          (heap s ++ [MkCache key token [] 0 false 0 0 false]) (replayReadLeases s)
          (cacheSteps s) (cacheBytes s) (activeBytes s) (detachedBytes s) (readBytes s) (highWaterBytes s)).
Proof.
  intros [[H1 H2 H3 H4 H5] Hc Ht He [Hd Hf] Hl] Hn. set (id := length (heap s)). set (c0 := MkCache _ _ _ _ _ _ _ _). set (s' := MkReplay _ _ _ _ _ _ _ _ _ _).
  assert (∀ j y, heap s !! j = Some y → in_table s' j y = in_table s j y) as Hin.
  { intros j y Hy. unfold in_table. apply bool_decide_ext. unfold s'. cbn [workflowReplayCaches]. rewrite jm_get_set. case_decide as E; [|done].
    rewrite E, Hn. split; [|done]. intros [= <-]. apply lookup_lt_Some in Hy. unfold id in Hy. lia. }
  assert (∀ j, is_detached s' j = is_detached s j) as Hdt by done.
  assert (is_detached s id = false) as Hid.
  { apply bool_decide_eq_false. intros Hx. rewrite Forall_forall in Hf. apply Hf, lookup_lt_is_Some in Hx. unfold id in Hx. lia. }
  assert (in_table s' id c0 = true) as Hi by (apply in_table_get; unfold s'; cbn [workflowReplayCaches c0 rc_key]; by rewrite jm_get_set, decide_True).
  split; try done; cbn [workflowReplayCaches detachedReplayCaches heap s'].
  - split; cbn [cacheSteps cacheBytes activeBytes detachedBytes readBytes heap s' replayReadLeases]; try done.
    + rewrite H1, (isum_snoc (λ i c, when (in_table s i c) (Z.of_nat (jm_size (rc_steps c)))) (λ i c, when (in_table s' i c) (Z.of_nat (jm_size (rc_steps c)))));
        [|intros j y Hy; by rewrite Hin]. fold id. rewrite Hi. cbn. lia.
    + rewrite H2, (isum_snoc (λ i c, when (in_table s i c) (rc_bytes c)) (λ i c, when (in_table s' i c) (rc_bytes c))); [|intros j y Hy; by rewrite Hin].
      fold id. rewrite Hi. cbn. lia.
    + rewrite H3, (isum_snoc (λ i c, when (0 <? rc_activeControllers c) (rc_bytes c)) (λ i c, when (0 <? rc_activeControllers c) (rc_bytes c))) by done. cbn. change (0 <? 0) with false. cbn [when]. lia.
    + rewrite H4, (isum_snoc (λ i c, when (is_detached s i) (rc_bytes c)) (λ i c, when (is_detached s' i) (rc_bytes c))) by done.
      change (is_detached s' (length (heap s))) with (is_detached s id). rewrite Hid. cbn. lia.
  - intros j y Hy. unfold s' in Hy. cbn [heap] in Hy. apply lookup_app_Some in Hy as [Hy|[Hj Hy]].
    + destruct (Hc j y Hy). split; try done. by rewrite (Hin j y Hy), Hdt.
    + apply list_lookup_singleton_Some in Hy as [Ej <-]. assert (j = id) as -> by (unfold id; lia).
      split; try done; [apply jm_wf_nil|cbn; lia|by rewrite Hi, Hdt, Hid|by rewrite Hdt, Hid].
  - by apply jm_wf_set.
  - intros k j. rewrite jm_get_set. case_decide as E; [intros [= <-]; exists c0; split; [|done]; by apply list_lookup_middle|].
    intros Hj. destruct (He k j Hj) as (x & Hx & Hk). exists x. split; [|done]. by apply lookup_app_l_Some.
  - split; [done|]. eapply Forall_impl; [exact Hf|]. intros j [x Hx]. exists x. by apply lookup_app_l_Some.
Qed.

(** Moving an entry of the table to its end. *)
Lemma touch_core s key id : core s → jm_get key (workflowReplayCaches s) = Some id →
  core (with_table (jm_touch key id (workflowReplayCaches s)) s).
Proof.
  intros [[H1 H2 H3 H4 H5] Hc Ht He Hd Hl] Hk. set (s' := with_table _ s).
  assert (∀ j y, in_table s' j y = in_table s j y) as Hin.
  { intros j y. unfold in_table. apply bool_decide_ext. unfold s'. cbn [workflowReplayCaches with_table]. rewrite jm_get_touch. case_decide as E; [|done].
    by rewrite E, Hk. }
  split; try done; [split; try done| | |].
  - unfold s'. cbn [cacheSteps with_table heap]. rewrite H1. apply isum_ext. intros i x _. fold s'. by rewrite Hin.
  - unfold s'. cbn [cacheBytes with_table heap]. rewrite H2. apply isum_ext. intros i x _. fold s'. by rewrite Hin.
  - intros j y Hy. destruct (Hc j y Hy). split; try done. by rewrite Hin.
  - by apply jm_wf_touch.
  - intros k j. unfold s'. cbn [workflowReplayCaches with_table heap]. rewrite jm_get_touch. case_decide; [intros [= <-]; subst; by apply He | apply He].
Qed.

(** An assignment that changes neither steps nor bytes. *)
Lemma core_mark s id c c' : core s → heap s !! id = Some c →
  rc_key c' = rc_key c → rc_steps c' = rc_steps c → rc_bytes c' = rc_bytes c → rc_released c' = rc_released c →
  rc_activeControllers c' = rc_activeControllers c → core (set_cache id c' s).
Proof.
  intros Hs Hc E1 E2 E3 E4 E5. replace (set_cache id c' s) with (count 0 0 0 0 (set_cache id c' s))
    by (unfold count, set_cache; cbn; f_equal; lia).
  eapply core_assign; [done|exact Hc|done| |by rewrite E2; destruct (in_table s id c); cbn [when]; lia|
    by rewrite E3; destruct (in_table s id c); cbn [when]; lia|by rewrite E3, E5; lia|by rewrite E3; destruct (is_detached s id); cbn [when]; lia].
  destruct (cr_caches _ Hs _ _ Hc). split; rewrite ?E2, ?E3, ?E5; try done. rewrite E4. unfold in_table. by rewrite E1.
Qed.

Lemma get_core run s : core s → core (getWorkflowReplayCache run s).1.
Proof.
  intros Hs. unfold getWorkflowReplayCache. destruct (jm_get _ (workflowReplayCaches s)) as [id|] eqn:Eg.
  - pose proof (touch_core _ _ _ Hs Eg) as Ht. cbn [heap with_table]. destruct (heap s !! id) as [c|] eqn:Ec; [|done].
    destruct (jeqb _ _); [done|]. by eapply core_mark.
  - by apply evict_while_ok, create_core.
Qed.

Lemma get_ok run s : replay_ok s → replay_ok (getWorkflowReplayCache run s).1.
Proof.
  intros [Hs Hb]. split; [by apply get_core|]. unfold getWorkflowReplayCache.
  destruct (jm_get _ (workflowReplayCaches s)) as [id|] eqn:Eg.
  - assert (∀ s' : replay, cacheBytes s' = cacheBytes s → detachedBytes s' = detachedBytes s → readBytes s' = readBytes s → highWaterBytes s' = highWaterBytes s →
      workflowReplayCaches s' = jm_touch (workflowReplayCacheKey run) id (workflowReplayCaches s) → bounded s') as H.
    { intros s' E1 E2 E3 E4 E5. destruct Hb. unfold replayWorkingSetBytes in *. split; unfold replayWorkingSetBytes; rewrite ?E1, ?E2, ?E3, ?E4, ?E5; try done.
      rewrite (jm_size_touch_present _ _ _ _ (cr_table _ Hs) Eg). done. }
    cbn [heap with_table]. destruct (heap s !! id) as [c|]; [|by apply H]. destruct (jeqb _ _); by apply H.
  - pose proof (create_core s (workflowReplayCacheKey run) (wr_runToken run) Hs Eg) as Hc. set (s' := MkReplay _ _ _ _ _ _ _ _ _ _) in *. cbn [fst].
    destruct (evict_while_ok too_many (jm_size (workflowReplayCaches s')) s' Hc) as [_ Hev].
    destruct Hb. destruct Hev as [[] Hw Hcb _ _]. fold (evict_until too_many s') in *.
    change (replayWorkingSetBytes s') with (replayWorkingSetBytes s) in Hw. change (cacheBytes s') with (cacheBytes s) in Hcb.
    change (highWaterBytes s') with (highWaterBytes s) in kp_high0. split; rewrite ?kp_high0; try lia.
    destruct (evict_while_ends too_many (jm_size (workflowReplayCaches s')) s' Hc) as [E|E]; [done| |].
    + exact (proj1 (Nat.ltb_ge _ _) E).
    + fold (evict_until too_many s') in E. rewrite E. unfold jm_size, WORKFLOW_REPLAY_CACHE_MAX_INSTANCES. cbn. lia.
Qed.

(** The newest entry survives the eviction of old ones. *)
Lemma evict_while_last fuel : ∀ s m key id c, core s → workflowReplayCaches s = m ++ [(key, id)] → heap s !! id = Some c →
  let s' := evict_while too_many fuel s in
  jm_get key (workflowReplayCaches s') = Some id ∧ heap s' !! id = Some c.
Proof.
  induction fuel as [|n IH]; intros s m key id c Hs Ht Hc; cbv zeta; cbn [evict_while].
  - split; [|done]. apply jm_elem_get; [apply (cr_table _ Hs)|]. rewrite Ht. apply elem_of_app. right. by apply list_elem_of_singleton.
  - destruct (too_many s) eqn:Eo.
    2:{ split; [|done]. apply jm_elem_get; [apply (cr_table _ Hs)|]. rewrite Ht. apply elem_of_app. right. by apply list_elem_of_singleton. }
    destruct m as [|[k0 i0] m].
    { unfold too_many in Eo. rewrite Ht in Eo. done. }
    pose proof (cr_table _ Hs) as Hwf. rewrite Ht in Hwf.
    assert (k0 ≠ key ∧ k0 ∉ map fst (m ++ [(key, id)])) as [Hne Hni].
    { apply NoDup_cons in Hwf as [Hn _]. split; [|done]. intros ->. apply Hn. unfold jm_keys. apply list_elem_of_fmap. exists (key, id). split; [done|]. apply elem_of_app. right. by left. }
    assert (jm_get k0 (workflowReplayCaches s) = Some i0) as Hg by (rewrite Ht; cbn; by rewrite decide_True).
    destruct (cr_entries _ Hs _ _ Hg) as (c0 & Hc0 & Hk0). destruct (evict_entry s k0 i0 c0 Hs Hg Hc0) as (H1 & _ & H3 & H4).
    assert (evictOldestWorkflowReplayCache s = evictWorkflowReplayCache k0 s) as -> by (unfold evictOldestWorkflowReplayCache; by rewrite Ht).
    apply (IH _ m key id c H1).
    + rewrite H3, Ht. cbn [app jm_delete]. rewrite decide_True by done. by apply jm_delete_absent.
    + apply H4; [|done]. intros <-. destruct (cr_entries _ Hs key id) as (c1 & Hc1 & Hk1); [|congruence].
      apply jm_elem_get; [apply (cr_table _ Hs)|]. rewrite Ht. apply elem_of_app. right. by apply list_elem_of_singleton.
Qed.

(** The cache a controller gets is in the table. *)
Lemma get_in_table run s : core s →
  let r := getWorkflowReplayCache run s in
  ∃ c, heap r.1 !! r.2 = Some c ∧ in_table r.1 r.2 c = true.
Proof.
  intros Hs. cbv zeta. unfold getWorkflowReplayCache. destruct (jm_get (workflowReplayCacheKey run) (workflowReplayCaches s)) as [id|] eqn:Eg.
  - destruct (cr_entries _ Hs _ _ Eg) as (c & Hc & Hk). cbn [heap with_table]. rewrite Hc. destruct (jeqb _ _); cbn [fst snd].
    + exists c. split; [done|]. apply in_table_get. cbn [workflowReplayCaches with_table]. by rewrite jm_get_touch, decide_True.
    + eexists. split; [cbn [heap set_cache with_table]; apply list_lookup_insert_eq; by eapply lookup_lt_Some|].
      apply in_table_get. cbn [workflowReplayCaches set_cache with_table rc_key]. by rewrite jm_get_touch, decide_True.
  - pose proof (create_core s (workflowReplayCacheKey run) (wr_runToken run) Hs Eg) as Hc. set (s' := MkReplay _ _ _ _ _ _ _ _ _ _) in *. cbn [fst snd].
    destruct (evict_while_last (jm_size (workflowReplayCaches s')) s' (workflowReplayCaches s) (workflowReplayCacheKey run) (length (heap s))
      (MkCache (workflowReplayCacheKey run) (wr_runToken run) [] 0 false 0 0 false) Hc) as [H1 H2].
    + unfold s'. cbn [workflowReplayCaches]. apply jm_set_absent. by apply jm_get_None.
    + unfold s'. cbn [heap]. by apply list_lookup_middle.
    + eexists. split; [exact H2|]. by apply in_table_get.
Qed.

Lemma in_table_place s id c : core s → heap s !! id = Some c → in_table s id c = true → rc_released c = false ∧ is_detached s id = false.
Proof.
  intros Hs Hc Hi. pose proof (co_place _ _ _ (cr_caches _ Hs _ _ Hc)) as Hp. rewrite Hi in Hp.
  destruct (rc_released c); [by destruct Hp as (_ & _ & ? & _)|]. split; [done|]. by destruct (is_detached s id).
Qed.

Lemma count_bounded s a : bounded s → bounded (count 0 0 a 0 s).
Proof.
  intros []. unfold replayWorkingSetBytes in *. split; unfold replayWorkingSetBytes; cbn [cacheBytes detachedBytes readBytes highWaterBytes workflowReplayCaches count]; try done; lia.
Qed.

Lemma set_cache_bounded s id c : bounded s → bounded (set_cache id c s).
Proof. by intros []. Qed.

Lemma acquire_ok run s : replay_ok s → replay_ok (acquireWorkflowReplayCache run s).1.
Proof.
  intros Hs. pose proof (get_ok run s Hs) as [H1 H2]. destruct (get_in_table run s (ro_core _ Hs)) as (c & Hc & Hi).
  unfold acquireWorkflowReplayCache. destruct (getWorkflowReplayCache run s) as [s1 id]. cbn [fst snd] in *. rewrite Hc. cbn [fst].
  destruct (in_table_place _ _ _ H1 Hc Hi) as [Hr Hd]. pose proof (cr_caches _ H1 _ _ Hc) as Hok. pose proof (co_active _ _ _ Hok) as Ha.
  split; [|by apply set_cache_bounded, count_bounded].
  assert (core (count 0 0 (when (rc_activeControllers c =? 0) (rc_bytes c)) 0 (set_cache id (with_controllers (rc_activeControllers c + 1) c) s1))) as H; [|exact H].
  eapply core_assign; [done|exact Hc|done| |..]; cbn [rc_steps rc_bytes rc_activeControllers with_controllers].
  - destruct Hok. split; cbn [rc_steps rc_bytes rc_activeControllers rc_released with_controllers]; try done; [lia| |lia].
    rewrite Hr in *. exact co_place0.
  - destruct (in_table s1 id c); cbn [when]; lia.
  - destruct (in_table s1 id c); cbn [when]; lia.
  - rewrite (proj2 (Z.ltb_lt _ _)) by lia. destruct (Z.eqb_spec (rc_activeControllers c) 0), (Z.ltb_spec 0 (rc_activeControllers c)); cbn [when]; lia.
  - destruct (is_detached s1 id); cbn [when]; lia.
Qed.

Lemma controllers_ok s id c n : cache_ok s id c → 0 <= n → (rc_released c = true → n = 0) → (is_detached s id = true → 0 < n) →
  cache_ok s id (with_controllers n c).
Proof.
  intros [] Hn Hr Hd. split; cbn [rc_steps rc_bytes rc_activeControllers rc_released with_controllers]; try done.
  destruct (rc_released c); [|done]. destruct co_place0 as (? & _ & ? & ?). split_and!; auto.
Qed.

Lemma controllers_core s id c n : core s → heap s !! id = Some c → cache_ok s id (with_controllers n c) →
  core (set_cache id (with_controllers n c)
    (count 0 0 (when (0 <? n) (rc_bytes c) - when (0 <? rc_activeControllers c) (rc_bytes c)) 0 s)).
Proof.
  intros Hs Hc Hok.
  assert (core (count 0 0 (when (0 <? n) (rc_bytes c) - when (0 <? rc_activeControllers c) (rc_bytes c)) 0 (set_cache id (with_controllers n c) s))) as H; [|exact H].
  eapply core_assign; [done|exact Hc|done|done|..]; cbn [rc_steps rc_bytes rc_activeControllers with_controllers]; try done.
  - destruct (in_table s id c); cbn [when]; lia.
  - destruct (in_table s id c); cbn [when]; lia.
  - destruct (is_detached s id); cbn [when]; lia.
Qed.

(** The last controller of a detached cache clears it. *)
Lemma clear_detached_core s id c : core s → heap s !! id = Some c → is_detached s id = true → rc_released c = false →
  core (set_cache id (cleared (with_controllers 0 c))
    (MkReplay (workflowReplayCaches s) (filter (λ i, i ≠ id) (detachedReplayCaches s)) (heap s) (replayReadLeases s)
       (cacheSteps s) (cacheBytes s) (activeBytes s - rc_bytes c) (detachedBytes s - rc_bytes c) (readBytes s) (highWaterBytes s))).
Proof.
  intros Hs Hc Hd Hr. match goal with |- core ?x => set (s' := x) end. pose proof (cr_caches _ Hs _ _ Hc) as Hok.
  pose proof (co_place _ _ _ Hok) as Hp. rewrite Hr, Hd in Hp. cbn [negb] in Hp. pose proof (co_detached _ _ _ Hok Hd) as Ha.
  assert (in_table s' id (cleared (with_controllers 0 c)) = false) as Hi' by done.
  assert (is_detached s' id = false) as Hd'.
  { apply bool_decide_eq_false. unfold s'. cbn [detachedReplayCaches set_cache]. intros Hin. by apply list_elem_of_filter in Hin as [? _]. }
  destruct (core_table _ Hs) as [Ht He [Hn Hf]].
  eapply (core_update s s' id c (cleared (with_controllers 0 c))); try done; rewrite ?Hp, ?Hd, ?Hi', ?Hd'.
  - intros j y Hj Hy. split; [done|]. unfold is_detached, s'. cbn [detachedReplayCaches set_cache]. apply bool_decide_ext.
    rewrite list_elem_of_filter. naive_solver.
  - split; unfold s'; cbn [workflowReplayCaches detachedReplayCaches heap set_cache]; [done| |].
    + intros k j Hj. eapply insert_entry; eauto.
    + split; [by apply NoDup_filter|]. apply Forall_forall. intros j [_ Hj]%list_elem_of_filter. apply insert_some.
      rewrite Forall_forall in Hf. by apply Hf.
  - split; rewrite ?Hi', ?Hd'; cbn [cleared rc_released rc_steps rc_activeControllers rc_bytes with_controllers]; try done; [apply jm_wf_nil|cbn; lia].
  - unfold s'. cbn [cacheSteps set_cache when]. lia.
  - unfold s'. cbn [cacheBytes set_cache when]. lia.
  - unfold s'. cbn [activeBytes set_cache cleared with_controllers rc_activeControllers rc_bytes]. rewrite (proj2 (Z.ltb_lt _ _)) by done.
    change (0 <? 0) with false. cbn [when]. lia.
  - unfold s'. cbn [detachedBytes set_cache when]. lia.
Qed.

Lemma clear_eq s id c : heap s !! id = Some c →
  clearWorkflowReplayCache id s =
    set_cache id (cleared c)
      (MkReplay (workflowReplayCaches s) (filter (λ i, i ≠ id) (detachedReplayCaches s)) (heap s) (replayReadLeases s)
         (cacheSteps s + 0) (cacheBytes s + 0) (activeBytes s + 0) (detachedBytes s + when (is_detached s id) (- rc_bytes c)) (readBytes s) (highWaterBytes s)).
Proof. intros H. unfold clearWorkflowReplayCache. by rewrite H. Qed.

Lemma release_ok id s : replay_ok s → replay_ok (releaseWorkflowReplayCache id s).
Proof.
  intros [Hs Hb]. unfold releaseWorkflowReplayCache. destruct (heap s !! id) as [c|] eqn:Hc; [|done].
  pose proof (cr_caches _ Hs _ _ Hc) as Hok. pose proof (co_active _ _ _ Hok) as Ha. pose proof (cache_bytes_nonneg _ _ _ Hok) as Hby.
  pose proof (co_place _ _ _ Hok) as Hp. destruct (Z.ltb_spec 0 (rc_activeControllers c)) as [Hpos|Hz]; cbn [andb].
  - assert (rc_released c = false) as Hr by (destruct (rc_released c); [destruct Hp as (_ & ? & _); lia|done]). rewrite Hr in Hp.
    set (n := rc_activeControllers c - 1) in *. change (in_table (set_cache _ _ _) id c) with (in_table s id c).
    destruct (Z.ltb_spec 0 n) as [Hn|Hn]; cbn [orb].
    { rewrite (proj2 (Z.eqb_neq n 0)) by lia. cbn [when]. split; [|by apply set_cache_bounded, count_bounded].
      assert (cache_ok s id (with_controllers n c)) as Hn' by (apply controllers_ok; [done|lia|congruence|done]).
      pose proof (controllers_core s id c n Hs Hc Hn') as H. rewrite (proj2 (Z.ltb_lt 0 n)), (proj2 (Z.ltb_lt 0 (rc_activeControllers c))), Z.sub_diag in H by lia.
      exact H. }
    assert (n = 0) as En by lia. rewrite En. change (0 =? 0) with true. cbn [when]. destruct (in_table s id c) eqn:Hi.
    + split; [|by apply set_cache_bounded, count_bounded].
      assert (cache_ok s id (with_controllers 0 c)) as Hn'
        by (apply controllers_ok; [done|done|done|]; intros Hd; rewrite Hd in Hp; done).
      pose proof (controllers_core s id c 0 Hs Hc Hn') as H. rewrite (proj2 (Z.ltb_lt 0 (rc_activeControllers c))) in H by lia. exact H.
    + assert (is_detached s id = true) as Hd by (by destruct (is_detached s id)).
      pose proof (clear_detached_core s id c Hs Hc Hd Hr) as Hcl.
      erewrite clear_eq by (cbn [heap set_cache]; apply list_lookup_insert_eq; by eapply lookup_lt_Some).
      change (is_detached (set_cache _ _ _) id) with (is_detached s id). rewrite Hd. cbn [when].
      match goal with |- replay_ok ?x => assert (x = set_cache id (cleared (with_controllers 0 c))
        (MkReplay (workflowReplayCaches s) (filter (λ i, i ≠ id) (detachedReplayCaches s)) (heap s) (replayReadLeases s)
           (cacheSteps s) (cacheBytes s) (activeBytes s - rc_bytes c) (detachedBytes s - rc_bytes c) (readBytes s) (highWaterBytes s))) as -> end.
      { unfold set_cache, count. cbn [workflowReplayCaches detachedReplayCaches heap replayReadLeases cacheSteps cacheBytes activeBytes detachedBytes readBytes highWaterBytes with_controllers rc_bytes].
        rewrite list_insert_insert_eq. f_equal; lia. }
      split; [done|]. destruct Hb. unfold replayWorkingSetBytes in *. split; unfold replayWorkingSetBytes;
        cbn [cacheBytes detachedBytes readBytes highWaterBytes workflowReplayCaches set_cache]; try done; lia.
  - assert (rc_activeControllers c = 0) as E0 by lia. rewrite E0. cbn [Z.ltb Z.compare orb when].
    assert (with_controllers 0 c = c) as Ec by (destruct c; cbn in *; by subst).
    assert (set_cache id (with_controllers 0 c) (count 0 0 0 0 s) = s) as ->.
    { rewrite Ec. unfold set_cache, count. cbn. rewrite list_insert_id by done. destruct s. cbn. f_equal; lia. }
    destruct (in_table s id c) eqn:Hi; [done|]. assert (is_detached s id = false) as Hd.
    { destruct (is_detached s id) eqn:E; [|done]. pose proof (co_detached _ _ _ Hok E). lia. }
    rewrite Hd in Hp. destruct (rc_released c) eqn:Hr; [|done]. destruct Hp as (Est & _).
    rewrite (clear_eq _ _ _ Hc), Hd. cbn [when].
    rewrite filter_out_absent by (by apply bool_decide_eq_false in Hd).
    split.
    + assert (core (set_cache id (cleared c) s)) as H.
      { eapply core_mark; [done|exact Hc|done|by rewrite Est| |by rewrite Hr|done]. rewrite (co_bytes _ _ _ Hok), Est. done. }
      destruct s. unfold set_cache in *. cbn in *. by rewrite !Z.add_0_r.
    + apply set_cache_bounded. destruct Hb, s. unfold replayWorkingSetBytes in *. cbn in *. split; unfold replayWorkingSetBytes; cbn; try done; lia.
Qed.

(** *** Remembering a step *)

Definition with_step (ordinal : Z) (step : StepRecord) (bytes : Z) (c : ReplayCache) : ReplayCache :=
  MkCache (rc_key c) (rc_lastRunToken c) (jm_set ordinal (step, bytes) (rc_steps c)) (rc_nextOrdinal c)
    (rc_complete c) (rc_bytes c + bytes) (rc_activeControllers c) (rc_released c).

Lemma insert_ok s id c ordinal step bytes : core s → heap s !! id = Some c → rc_released c = false → 0 <= bytes →
  jm_has ordinal (rc_steps c) = false → (jm_size (rc_steps c) < WORKFLOW_REPLAY_CACHE_MAX_STEPS_PER_INSTANCE)%nat →
  let s' := insert_step id ordinal step bytes (in_table s id c) s in
  core s' ∧ heap s' !! id = Some (with_step ordinal step bytes c) ∧ replayWorkingSetBytes s' = replayWorkingSetBytes s + bytes ∧
  keeps s s' ∧ workflowReplayCaches s' = workflowReplayCaches s ∧ cacheBytes s' = cacheBytes s + when (in_table s id c) bytes.
Proof.
  intros Hs Hc Hr Hb Ho Hn. cbv zeta. unfold insert_step. rewrite Hc. fold (with_step ordinal step bytes c).
  assert (ordinal ∉ jm_keys (rc_steps c)) as Hk by (apply jm_get_None; unfold jm_has in Ho; by destruct (jm_get ordinal (rc_steps c))).
  pose proof (cr_caches _ Hs _ _ Hc) as Hok. pose proof (co_place _ _ _ Hok) as Hp. rewrite Hr in Hp.
  split; [|split_and!; try done; [|unfold replayWorkingSetBytes; cbn [cacheBytes detachedBytes readBytes count set_cache]; rewrite Hp;
    destruct (is_detached s id); cbn [when negb]; lia]].
  - destruct Hok. eapply core_assign; [done|exact Hc|done| |..]; cbn [with_step rc_steps rc_bytes rc_activeControllers].
    + split; cbn [with_step rc_steps rc_bytes rc_activeControllers rc_released]; rewrite ?(jm_set_absent _ _ _ Hk); try done.
      * rewrite steps_bytes_snoc, co_bytes0. done.
      * apply Forall_app. split; [done|]. by apply Forall_singleton.
      * by apply jm_wf_snoc.
      * unfold jm_size in *. rewrite length_app. cbn. lia.
      * by rewrite Hr.
    + rewrite (jm_set_absent _ _ _ Hk). unfold jm_size. rewrite length_app. cbn [length]. destruct (in_table s id c); cbn [when]; lia.
    + destruct (in_table s id c); cbn [when]; lia.
    + destruct (0 <? rc_activeControllers c); cbn [when]; lia.
    + destruct (is_detached s id); cbn [when]; lia.
  - cbn [heap count set_cache]. apply list_lookup_insert_eq. by eapply lookup_lt_Some.
Qed.

Lemma utf8ByteLengthLoop_nonneg t : ∀ n, 0 <= n → n <= utf8ByteLengthLoop n t.
Proof.
  induction t as [t IH] using (induction_ltof1 _ (@length Z)). unfold ltof in IH. intros n Hn.
  destruct t as [|c t]; cbn [utf8ByteLengthLoop]; [lia|].
  assert (∀ k, n <= k → n <= utf8ByteLengthLoop k t) as H by (intros k Hk; etransitivity; [exact Hk|]; apply IH; [cbn; lia|lia]).
  repeat (case_match; try (apply H; lia)); try lia. etransitivity; [|apply IH; [cbn; lia|lia]]. lia.
Qed.

Lemma utf8ByteLength_nonneg t : 0 <= utf8ByteLength t.
Proof. unfold utf8ByteLength. case_match; [lia|]. by apply utf8ByteLengthLoop_nonneg. Qed.

Lemma step_bytes_pos JSON step : 0 <= serializedReplayStepBytes JSON step.
Proof.
  unfold serializedReplayStepBytes, text_bytes. pose proof utf8ByteLength_nonneg as H.
  pose proof (H (default (js "null") (JSON (JArr [or_null (sr_name step); or_null (sr_nameCount step); or_null (sr_dependencies step);
                 or_null (sr_kind step); or_null (sr_status step); or_null (sr_error step)])))).
  repeat case_match; try lia; pose proof (H s); try lia; pose proof (H s0); lia.
Qed.

(** Bounds that hold between the steps of an operation. *)
Record loose (s : replay) : Prop := {
  ls_working : replayWorkingSetBytes s <= WORKFLOW_REPLAY_WORKING_SET_MAX_BYTES;
  ls_high : highWaterBytes s <= WORKFLOW_REPLAY_WORKING_SET_MAX_BYTES;
  ls_instances : (jm_size (workflowReplayCaches s) <= WORKFLOW_REPLAY_CACHE_MAX_INSTANCES)%nat }.

Definition oldest_of (ordinal : Z) (c : ReplayCache) : option Z :=
  if negb (jm_has ordinal (rc_steps c)) && (WORKFLOW_REPLAY_CACHE_MAX_STEPS_PER_INSTANCE <=? jm_size (rc_steps c))%nat
  then jm_first_key (rc_steps c) else None.

(** The two deletions make room for the step. *)
Lemma make_room s id c ordinal : core s → heap s !! id = Some c → rc_released c = false →
  let s' := match oldest_of ordinal c with Some o => deleteReplayStep id o (deleteReplayStep id ordinal s) | None => deleteReplayStep id ordinal s end in
  ∃ c', core s' ∧ heap s' !! id = Some c' ∧ in_table s' id c' = in_table s id c ∧ keeps s s' ∧ workflowReplayCaches s' = workflowReplayCaches s ∧
    rc_released c' = false ∧ rc_activeControllers c' = rc_activeControllers c ∧ cacheBytes s' <= cacheBytes s ∧
    replayWorkingSetBytes s' = replayWorkingSetBytes s - (step_bytes (Some ordinal) c + step_bytes (oldest_of ordinal c) c) ∧
    jm_has ordinal (rc_steps c') = false ∧ (jm_size (rc_steps c') < WORKFLOW_REPLAY_CACHE_MAX_STEPS_PER_INSTANCE)%nat ∧
    (∀ o, o ≠ ordinal → jm_get o (rc_steps c') = if decide (oldest_of ordinal c = Some o) then None else jm_get o (rc_steps c)).
Proof.
  intros Hs Hc Hr. cbv zeta. pose proof (delete_core s id c ordinal Hs Hc) as H1.
  destruct (delete_effect s id c ordinal Hs Hc Hr) as (A1 & A2 & A3 & A4 & A5 & A6 & A7). set (s1 := deleteReplayStep id ordinal s) in *.
  pose proof (cr_caches _ Hs _ _ Hc) as Hok. pose proof (co_keys _ _ _ Hok) as Hwf. pose proof (co_count _ _ _ Hok) as Hcnt.
  assert (jm_has ordinal (rc_steps (without_step ordinal c)) = false) as Hno.
  { cbn [without_step rc_steps]. unfold jm_has. by rewrite jm_get_delete, decide_True. }
  unfold oldest_of. destruct (jm_has ordinal (rc_steps c)) eqn:Ho; cbn [negb andb].
  - exists (without_step ordinal c). split_and!; try done.
    + rewrite A6. unfold step_bytes at 3. cbn [mbind option_bind]. lia.
    + cbn [without_step rc_steps]. pose proof (jm_delete_size ordinal (rc_steps c) Hwf Ho). lia.
    + intros o Hne. cbn [without_step rc_steps]. by rewrite jm_get_delete, decide_False.
  - assert (jm_get ordinal (rc_steps c) = None) as Hg by (unfold jm_has in Ho; by destruct (jm_get ordinal (rc_steps c))).
    pose proof (without_absent ordinal c Hg) as Ew. rewrite Ew in *.
    destruct (Nat.leb_spec WORKFLOW_REPLAY_CACHE_MAX_STEPS_PER_INSTANCE (jm_size (rc_steps c))) as [Hge|Hlt].
    + destruct (rc_steps c) as [|[o e] m] eqn:Em; [unfold jm_size, WORKFLOW_REPLAY_CACHE_MAX_STEPS_PER_INSTANCE in Hge; cbn in Hge; lia|]. cbn [jm_first_key].
      rewrite <- Em in *. assert (jm_has o (rc_steps c) = true) as Hho by (unfold jm_has; rewrite Em; cbn; by rewrite decide_True).
      destruct (delete_effect s1 id c o H1 A1 Hr) as (B1 & B2 & B3 & B4 & B5 & B6 & B7).
      exists (without_step o c). split_and!; try done; try congruence.
      * by eapply delete_core.
      * destruct A5, B5. split; congruence.
      * lia.
      * rewrite B6, A6. lia.
      * cbn [without_step rc_steps]. unfold jm_has. rewrite jm_get_delete. case_decide; [done|]. by rewrite Hg.
      * cbn [without_step rc_steps]. pose proof (jm_delete_size o (rc_steps c) Hwf Hho). lia.
      * intros o' Hne. cbn [without_step rc_steps]. rewrite jm_get_delete. repeat case_decide; try done; congruence.
    + exists c. split_and!; try done. rewrite A6. unfold step_bytes at 3. cbn [mbind option_bind]. lia.
Qed.

Section remember.
Context (JSON : jsval → option jstr).

(** The room a step needs beyond that of the steps it replaces. *)
Definition growth (ordinal : Z) (step : fields) (c : ReplayCache) : Z :=
  Z.max 0 (serializedReplayStepBytes JSON (stored_step JSON step) - (step_bytes (Some ordinal) c + step_bytes (oldest_of ordinal c) c)).

(** The steps of a cache after remembering one: an oversized step is forgotten, a refused one
    leaves the cache as it was, any other is there, and only the oldest of a full cache is gone. *)
Definition remembered (ordinal : Z) (step : fields) (r : replay * bool) (c c' : ReplayCache) : Prop :=
  let st := stored_step JSON step in
  let bytes := serializedReplayStepBytes JSON st in
  (WORKFLOW_REPLAY_CACHE_MAX_BYTES < bytes → r.2 = true ∧
     ∀ o, jm_get o (rc_steps c') = if decide (o = ordinal) then None else jm_get o (rc_steps c)) ∧
  (bytes <= WORKFLOW_REPLAY_CACHE_MAX_BYTES → r.2 = false →
     c' = c ∧ WORKFLOW_REPLAY_WORKING_SET_MAX_BYTES < replayWorkingSetBytes r.1 + growth ordinal step c) ∧
  (bytes <= WORKFLOW_REPLAY_CACHE_MAX_BYTES → r.2 = true →
     ∀ o, jm_get o (rc_steps c') = if decide (o = ordinal) then Some (st, bytes)
       else if decide (oldest_of ordinal c = Some o) then None else jm_get o (rc_steps c)).

(** What remembering a step does: the invariant holds again, and a cache that a controller uses
    has the steps it should. *)
Lemma remember_spec id ordinal step s : replay_ok s →
  let r := rememberWorkflowReplayStep JSON id ordinal step s in
  replay_ok r.1 ∧
  ∀ c, heap s !! id = Some c → rc_released c = false → 0 < rc_activeControllers c →
    ∃ c', heap r.1 !! id = Some c' ∧ remembered ordinal step r c c'.
Proof.
  intros [Hs Hb]. cbv zeta. unfold rememberWorkflowReplayStep. destruct (heap s !! id) as [c|] eqn:Hc; [|done].
  destruct (rc_released c) eqn:Hr; [split; [done|]; intros ? [= <-]; congruence|].
  set (st := stored_step JSON step). set (bytes := serializedReplayStepBytes JSON st).
  destruct (Z.ltb_spec WORKFLOW_REPLAY_CACHE_MAX_BYTES bytes) as [Hbig|Hsmall].
  { cbn [fst snd]. destruct (delete_effect s id c ordinal Hs Hc Hr) as (A1 & _ & _ & A4 & [] & A6 & A7). split.
    2: { intros ? [= <-] _ _. eexists. split; [exact A1|]. split_and!; fold st bytes; [|lia..]. intros _. split; [done|]. intros o.
         cbn [without_step rc_steps]. by rewrite jm_get_delete. }
    split; [by eapply delete_core|].
    assert (0 <= step_bytes (Some ordinal) c) as H0.
    { unfold step_bytes. cbn [mbind option_bind]. destruct (jm_get ordinal (rc_steps c)) as [[s0 b0]|] eqn:Eg; [|lia].
      pose proof (co_steps _ _ _ (cr_caches _ Hs _ _ Hc)) as Hf. rewrite Forall_forall in Hf. by apply (Hf _ (jm_get_elem _ _ _ Eg)). }
    destruct Hb. split; rewrite ?kp_high0, ?A4; lia. }
  fold (oldest_of ordinal c).
  destruct (reserve_ok (Z.max 0 (bytes - (step_bytes (Some ordinal) c + step_bytes (oldest_of ordinal c) c))) (Some id) s Hs) as (H1 & H2 & H3 & H4 & Hfull).
  destruct (reserveWorkingSet _ (Some id) s) as [s1 ok]. cbn [fst snd] in *. pose proof (evicts_bounded _ _ Hb H2) as Hb1.
  destruct (H3 id c eq_refl Hc) as (Hc1 & Hi1 & _). destruct ok; cbn [negb fst snd].
  2: { split; [done|]. intros ? [= <-] _ _. exists c. split; [done|]. split_and!; fold st bytes; [lia| |done]. intros _ _. split; [done|]. by apply Hfull. }
  specialize (H4 eq_refl).
  destruct (make_room s1 id c ordinal H1 Hc1 Hr) as (c2 & R1 & R2 & R3 & R4 & R5 & R6 & R7 & R8 & R9 & R10 & R11 & R12).
  set (s2 := match oldest_of ordinal c with Some o => _ | None => _ end) in *.
  rewrite <- Hi1, <- R3. destruct (insert_ok s2 id c2 ordinal st bytes R1 R2 R6 (step_bytes_pos JSON st) R10 R11) as (I1 & I2 & I3 & I4 & I5 & I6).
  set (s3 := insert_step id ordinal st bytes (in_table s2 id c2) s2) in *. set (s4 := recordReplayHighWater s3).
  assert (core s4) as H5 by by apply high_water_core. destruct Hb1, R4, I4.
  assert (loose s4) as Hl.
  { assert (replayWorkingSetBytes s3 <= WORKFLOW_REPLAY_WORKING_SET_MAX_BYTES) as Hw by lia. split; [exact Hw| |].
    - unfold s4. cbn [highWaterBytes recordReplayHighWater]. rewrite kp_high1, kp_high0. lia.
    - unfold s4. cbn [workflowReplayCaches recordReplayHighWater]. by rewrite I5, R5. }
  assert (replayWorkingSetBytes s4 <= highWaterBytes s4) as Hh.
  { unfold s4. cbn [highWaterBytes recordReplayHighWater]. change (replayWorkingSetBytes (recordReplayHighWater s3)) with (replayWorkingSetBytes s3). lia. }
  assert (∀ s', heap s' !! id = Some (with_step ordinal st bytes c2) → ∃ c', heap s' !! id = Some c' ∧
    remembered ordinal step (s', true) c c') as Hstep.
  { intros s' Hs'. eexists. split; [exact Hs'|]. cbn [with_step rc_steps]. split_and!; fold st bytes; [lia|done|]. intros _ _ o.
    cbn [with_step rc_steps]. rewrite jm_get_set. case_decide; [done|]. by apply R12. }
  destruct (in_table s2 id c2) eqn:Hin; cbn [when] in I6.
  - destruct (evict_while_ok too_large_cache (jm_size (workflowReplayCaches s4)) s4 H5) as [H6 H7].
    pose proof (evict_while_ends too_large_cache (jm_size (workflowReplayCaches s4)) s4 H5 ltac:(done)) as Hend.
    fold (evict_until too_large_cache s4) in *. split.
    + split; [done|]. destruct Hl, H7 as [[] ?]. split; rewrite ?kp_high2; try lia. destruct Hend as [E|E]; [by apply Z.ltb_ge in E|].
      rewrite (empty_table_bytes _ H6 E). unfold WORKFLOW_REPLAY_CACHE_MAX_BYTES. lia.
    + intros c' [= <-] _ Hpos. apply Hstep, (ev_busy _ _ H7); [exact I2|]. cbn [with_step rc_activeControllers]. by rewrite R7.
  - split; [split; [done|]; destruct Hl; split; try done; unfold s4; cbn [cacheBytes recordReplayHighWater]; lia|].
    intros c' [= <-] _ Hpos. by apply Hstep.
Qed.
End remember.

(** ** Histories *)

(** The operations of the step controllers, in any order and on any object. [rs_cursor] is
    their assignment to the cursor of a cache. *)
Inductive replay_step (JSON : jsval → option jstr) (s : replay) : replay → Prop :=
| rs_acquire run : replay_step JSON s (acquireWorkflowReplayCache run s).1
| rs_release id : replay_step JSON s (releaseWorkflowReplayCache id s)
| rs_remember id ordinal step : replay_step JSON s (rememberWorkflowReplayStep JSON id ordinal step s).1
| rs_lease : replay_step JSON s (createWorkflowReplayReadLease s).1
| rs_reserve lease bytes : 0 <= bytes → replay_step JSON s (lease_reserve lease bytes s).1
| rs_unlease lease : replay_step JSON s (lease_release lease s)
| rs_cursor id c next complete : heap s !! id = Some c →
    replay_step JSON s (set_cache id (MkCache (rc_key c) (rc_lastRunToken c) (rc_steps c) next complete (rc_bytes c)
                                        (rc_activeControllers c) (rc_released c)) s).

Inductive replay_reachable (JSON : jsval → option jstr) : replay → Prop :=
| rr_initial : replay_reachable JSON initial_replay
| rr_step s s' : replay_reachable JSON s → replay_step JSON s s' → replay_reachable JSON s'.

Lemma initial_replay_ok : replay_ok initial_replay.
Proof.
  split.
  - split; try done; [apply jm_wf_nil|by split; [apply NoDup_nil|]].
  - split; apply (bool_decide_unpack _); vm_compute; exact I.
Qed.

Lemma replay_reachable_ok JSON s : replay_reachable JSON s → replay_ok s.
Proof.
  induction 1 as [|s s' _ IH Hs]; [apply initial_replay_ok|]. destruct Hs.
  - by apply acquire_ok.
  - by apply release_ok.
  - by apply remember_spec.
  - by apply lease_create_ok.
  - by apply lease_reserve_ok.
  - by apply lease_release_ok.
  - destruct IH. split; [by eapply core_mark | by apply set_cache_bounded].
Qed.

(** C19. The byte counters of the replay cache are exact: after any history of acquisitions,
    releases, remembered steps, evictions and reads, each counter is the sum over the objects
    it stands for, the bytes of a cache are those of its steps, and a cache object is in the
    table, detached and in use, or released, idle and empty, but never two of these. *)
Theorem replay_accounting_exact (JSON : jsval → option jstr) (s : replay) (Hr : replay_reachable JSON s) :
  counts_ok s ∧ ∀ id c, heap s !! id = Some c →
    rc_bytes c = steps_bytes (rc_steps c) ∧
    match rc_released c, in_table s id c, is_detached s id with
    | false, true, false => True
    | false, false, true => 0 < rc_activeControllers c
    | true, false, false => rc_steps c = [] ∧ rc_activeControllers c = 0
    | _, _, _ => False
    end.
Proof.
  apply replay_reachable_ok in Hr as [Hs _]. split; [apply (cr_counts _ Hs)|]. intros id c Hc. destruct (cr_caches _ Hs _ _ Hc).
  split; [done|]. destruct (rc_released c).
  - by destruct co_place0 as (? & ? & -> & ->).
  - destruct (is_detached s id); rewrite co_place0; cbn [negb]; auto.
Qed.

(** C20. Replay memory is bounded: the steps kept in the table, the caches still used by
    controllers and the replies being read never take more than 64 MiB together, the table
    never more than 16 MiB in 256 caches of at most 256 steps; and once every controller and
    every lease is released nothing is left but the table, so nothing leaks. *)
Theorem replay_memory_bounded (JSON : jsval → option jstr) (s : replay) (Hr : replay_reachable JSON s) :
  replayWorkingSetBytes s <= 64 * 1024 * 1024 ∧ highWaterBytes s <= 64 * 1024 * 1024 ∧ cacheBytes s <= 16 * 1024 * 1024 ∧
  (jm_size (workflowReplayCaches s) <= 256)%nat ∧ (∀ id c, heap s !! id = Some c → (jm_size (rc_steps c) <= 256)%nat) ∧
  ((∀ id c, heap s !! id = Some c → rc_activeControllers c = 0) → (∀ l, l ∈ replayReadLeases s → rl_released l = true) →
   replayWorkingSetBytes s = cacheBytes s).
Proof.
  apply replay_reachable_ok in Hr as [Hs [Hw [_ Hh] Hc Hi]]. split_and!; [exact Hw|exact Hh|exact Hc|exact Hi| |].
  - intros id c Hid. apply (co_count _ _ _ (cr_caches _ Hs _ _ Hid)).
  - intros Hidle Hrel. unfold replayWorkingSetBytes. destruct (cr_counts _ Hs). rewrite ct_detached0, ct_read0.
    rewrite (isum_ext (λ i c, when (is_detached s i) (rc_bytes c)) (λ _ _, 0)).
    + rewrite (isum_ext (λ _ l, when (negb (rl_released l)) (rl_reserved l)) (λ _ _, 0)).
      * assert (∀ A (l : list A), isum (λ _ _, 0) l = 0) as E by (intros A l; induction l as [|x l IH]; [done|]; cbn [isum]; lia).
        rewrite !E. lia.
      * intros i l Hl. rewrite (Hrel l) by by eapply list_elem_of_lookup_2. done.
    + intros i c Hid. destruct (is_detached s i) eqn:Ed; [|done]. pose proof (co_detached _ _ _ (cr_caches _ Hs _ _ Hid) Ed).
      rewrite (Hidle i c Hid) in *. lia.
Qed.

(** What a step record carries as its output: its serialized text, or its value. *)
Definition step_output (JSON : jsval → option jstr) (step : fields) : option jsval :=
  let output := or_null (obj_get (js "output") step) in
  match obj_get (js "outputJson") step with
  | JStr t => json_parse t
  | _ => Some (match JSON output with Some _ => json_view output | None => JNull end)
  end.


(** ** A run: a controller remembers a step and releases the cache *)

Definition demo_run : WorkflowRun := MkRun (js "acme") (js "wf_1") (js "i-1") 1 1000 (js "token").

Definition demo_step : fields :=
  [(js "name", JStr (js "fetch")); (js "nameCount", JNum (NInt 1)); (js "status", JStr (js "completed"));
   (js "output", JObj [(js "total", JNum (NInt 42))])].

Definition demo_acquired : replay := (acquireWorkflowReplayCache demo_run initial_replay).1.
Definition demo_remembered : replay := (rememberWorkflowReplayStep checked_stringify 0 0 demo_step demo_acquired).1.

Lemma demo_acquired_reachable : replay_reachable checked_stringify demo_acquired.
Proof. eapply rr_step; [apply rr_initial|apply rs_acquire]. Defined.

Lemma replay_accounting_exact_witness : cacheSteps demo_remembered = 1 ∧ counts_ok demo_remembered.
Proof.
  split; [vm_compute; reflexivity|].
  refine (proj1 (replay_accounting_exact checked_stringify demo_remembered _)). eapply rr_step; [apply demo_acquired_reachable|apply rs_remember].
Defined.

Lemma replay_memory_bounded_witness : replayWorkingSetBytes demo_remembered = 50 ∧ replayWorkingSetBytes demo_remembered <= 64 * 1024 * 1024.
Proof.
  split; [vm_compute; reflexivity|].
  refine (proj1 (replay_memory_bounded checked_stringify demo_remembered _)). eapply rr_step; [apply demo_acquired_reachable|apply rs_remember].
Defined.

(** As a controller passes it on after a commit. *)
Definition demo_committed : fields :=
  [(js "name", JStr (js "fetch")); (js "status", JStr (js "completed")); (js "outputJson", JStr (js "[42]"))].

