(* ===== verification/RoutingWorld.v ===== *)
(** * The routing world: refinement and end-to-end dispatch

    Any interleaving of deploys, promotions, bumps, reconciliations, whole deletes and version
    deletes, and of changes of other keys: the tables stay coherent, every commit is
    one step of an atomic specification of the control plane, and the gateway, reading the
    pattern table of a host, serves exactly the routes of active bundles. *)

From stdpp Require Import base list strings gmap sorting.
From Stdlib Require Import ZArith Lia.
From S2P Require Import Prelude JsMap NsPattern WorkerContract Utf8 Json JsNumber Gateway GatewayRuntime.
From S2P Require Import SessionPolicy Txn Control JsonView Topology Routing RoutingSafety Delete DeleteSafety Bundle Deploy DeploySafety.

#[local] Open Scope Z_scope.
#[local] Open Scope wdl_scope.

(** Everyone else changes keys that are no routing table, no bundle and no set of referrers. *)
Inductive control_env (used : gset jstr) (s : store) : gset jstr → store → Prop :=
| ce_other s' : (∀ k, kept_key k = true → same_at k s s') → control_env used s used s'.

Lemma env_inv used s used' s' : control_env used s used' s' → routing_inv s →
  routing_inv s' ∧ bundles_kept s s' ∧ used ⊆ used' ∧ ∀ k, is_bundle k = true → k ∉ used' ∖ used → same_at k s s'.
Proof.
  intros [s'' Hs] Hi. split_and!; [|intros k Hk _; auto with tables|done|intros k Hk _; auto with tables].
  eapply tables_inv; [done|by auto with tables|intros k Hk _; auto with tables|]. intros k rs Hk.
  destruct (Hs k (table_kept k (table_bundle k Hk))) as (_ & <- & _). by apply (ri_bundles _ Hi).
Qed.

Lemma env_keeps : env_keeps_invariant control_inv bundles_settled control_env (λ k, is_bundle k = true).
Proof.
  intros used s used' s' e He Hsub Hi. pose proof Hi as [Hri _]. destruct (env_inv _ _ _ _ He Hri) as (H1 & _ & Hu & Hs).
  destruct (kept_settled (used' ∖ used) e s s' Hi) as (G1 & G2 & G3); [set_solver|done|done|].
  split_and!; [done|done|done|]. intros k Hk Hin. apply G3; [done|set_solver].
Qed.

Section world.
Variable cronId : jstr → jstr → jstr.
Variable nextFireMs : jstr → jstr → Z → option Z.
Variable urlHost : jstr → option jstr.

(** The requests as they arrive: the path parameters, the version number drawn for a deploy or
    a bump, and the body where the outcome depends on it. *)
Inductive request :=
| Deploy (ns w v : jstr) (body : list (jstr * jsval)) (platformDomain : jstr)
| Promote (ns w v : jstr)
| Bump (ns w v : jstr)
| ReconcileHosts (ns : jstr) (body : jsval) (platformDomain : jstr)
| DeleteWorker (ns w : jstr)
| DeleteVersion (ns w v : jstr).

(** [control_request r owned body]: [r] runs [body]; a deploy or a bump owns the key of the
    version number it has drawn. *)
Inductive control_request : request → gset jstr → (Z → txn control_result) → Prop :=
| cr_deploy knownTimezone cronParses JSON num today maxDate hex budget ns w v dst body platformDomain q token bindings c :
    JsonPrinter JSON → names_ok ns w →
    prepareDeployRequest urlHost knownTimezone cronParses body ns platformDomain = Ok q →
    prepareCommittedBundle JSON num today maxDate token q ns w bindings = Ok c → bundle_key ns w v = Ok dst →
    control_request (Deploy ns w v body platformDomain) {[dst]} (commitWithWatch JSON hex budget ns w v c)
| cr_promote ns w v : names_ok ns w → control_request (Promote ns w v) ∅ (promoteWithRoutes cronId nextFireMs ns w v)
| cr_bump hook ns w v dst : names_ok ns w → hook_plain hook → bundle_key ns w v = Ok dst →
    control_request (Bump ns w v) {[dst]} (bumpActiveAndPromote hook ns w v)
| cr_reconcile ns body platformDomain :
    control_request (ReconcileHosts ns body platformDomain) ∅ (reconcileHosts urlHost ns body platformDomain)
| cr_delete pages workflowCheck newTaskId ns w lockToken : names_ok ns w →
    control_request (DeleteWorker ns w) ∅ (executeWholeDelete pages workflowCheck newTaskId ns w lockToken)
| cr_delete_version newTaskId ns w v lockToken : names_ok ns w →
    control_request (DeleteVersion ns w v) ∅ (executeVersionDelete newTaskId ns w v lockToken).

Definition control_api (owned : gset jstr) (body : Z → txn control_result) : Prop := ∃ r, control_request r owned body.

Lemma ca_deploy knownTimezone cronParses JSON num today maxDate hex budget ns w v dst q c : JsonPrinter JSON → names_ok ns w →
  made_from urlHost knownTimezone cronParses JSON num today maxDate ns w q c → bundle_key ns w v = Ok dst →
  control_api {[dst]} (commitWithWatch JSON hex budget ns w v c).
Proof. intros HJ Hn [(body & domain & Hq) (token & bindings & Hc)] Hd. exists (Deploy ns w v body domain). by eapply cr_deploy. Qed.

#[local] Abbreviation reach := (txn_reach control_api control_env).

Lemma api_keeps owned body : control_api owned body → keeps_invariant control_inv bundles_settled (λ k, is_bundle k = true) owned body.
Proof.
  intros [r Hr]. destruct Hr as [tz cp JSON num today maxDate hex budget ns w v dst b domain q token bindings c HJ Hn Hq Hc Hd| | | | |];
    [apply (deploy_keeps urlHost tz cp JSON num today maxDate hex budget ns w v dst q c); [done|split; eauto|done]|by apply promote_keeps|by apply bump_keeps|apply reconcile_keeps
    |by apply delete_keeps|by apply version_delete_keeps].
Qed.

Lemma world_ok s0 used0 w : control_inv used0 s0 → reach (World s0 used0 ∅) w →
  ∃ e, txn_world_ok control_inv bundles_settled control_api e w.
Proof.
  intros Hi. eapply (txn_reach_ok _ _ bundles_settled_refl bundles_settled_trans _ _ _ api_keeps env_keeps used0); done.
Qed.

(** ** The atomic specification

    The control plane as its operators see it: bundles, the active version of each worker,
    the hosts each namespace has declared and the index of the versions a worker has kept,
    which whole deletes go by. *)

Record view := View {
  v_active : jstr → gmap jstr jstr;
  v_declared : jstr → gset jstr;
  v_retained : jstr → jstr → list jstr;
  v_bundle : jstr → jstr → jstr → option (list RoutePattern) }.

Definition view_of (s : store) : view :=
  View (λ ns, active_at ns s) (λ ns, declared_at ns s) (λ ns w, zrange (zset_at (workerVersionsKey ns w) s))
    (λ ns w v, bundle_routes ns w v s).

(** [r] is a route of an active worker. *)
Definition serves (a : view) (ns w v : jstr) (r : RoutePattern) : Prop :=
  v_active a ns !! w = Some v ∧ ∃ rs, v_bundle a ns w v = Some rs ∧ r ∈ rs.

Definition same_active (a a' : view) : Prop := ∀ ns, v_active a' ns = v_active a ns.
Definition same_declared (a a' : view) : Prop := ∀ ns, v_declared a' ns = v_declared a ns.
Definition same_bundles (a a' : view) : Prop := ∀ ns w v, names_ok ns w → v_bundle a' ns w v = v_bundle a ns w v.

(** The version may go live: its hosts are declared, no other namespace serves them and no
    other worker has one of its slots. *)
Definition may_serve (a : view) (ns w : jstr) (rs : list RoutePattern) : Prop :=
  ∀ r, r ∈ rs → r_host r ∈ v_declared a ns ∧
    ∀ ns' w' v' r', serves a ns' w' v' r' → r_host r' = r_host r → ns' = ns ∧ (r_slot r' = r_slot r → w' = w).

(** [w] runs [v], or nothing; every other worker runs what it ran. *)
Definition now_active (ns w : jstr) (v : option jstr) (a a' : view) : Prop :=
  ∀ ns', v_active a' ns' =
    if decide (ns' = ns) then match v with Some v => <[w := v]> (v_active a ns) | None => delete w (v_active a ns) end else v_active a ns'.

(** One bundle is added, and no other changes. *)
Definition bundle_added (ns w v : jstr) (rs : list RoutePattern) (a a' : view) : Prop :=
  v_bundle a ns w v = None ∧
  ∀ ns' w' v', names_ok ns' w' →
    v_bundle a' ns' w' v' = if decide (ns' = ns ∧ w' = w ∧ v' = v) then Some rs else v_bundle a ns' w' v'.

(** The bundles of [vs], versions of a worker, are gone, and no other changes. *)
Definition bundles_gone (ns w : jstr) (vs : list jstr) (a a' : view) : Prop :=
  ∀ ns' w' v', names_ok ns' w' →
    v_bundle a' ns' w' v' = if decide (ns' = ns ∧ w' = w ∧ v' ∈ vs) then None else v_bundle a ns' w' v'.

(** What each request does when it commits; [None]: a step on behalf of no commit. *)
Inductive spec_step (a a' : view) : option request → Prop :=
| ss_silent : same_active a a' → same_declared a a' → same_bundles a a' → spec_step a a' None
| ss_deploy ns w v body platformDomain rs :
    parseRoutes urlHost (obj_get (js "routes") body) platformDomain = Ok rs → bundle_added ns w v rs a a' →
    same_active a a' → same_declared a a' → spec_step a a' (Some (Deploy ns w v body platformDomain))
| ss_promote ns w v rs :
    v_bundle a ns w v = Some rs → may_serve a ns w rs → now_active ns w (Some v) a a' →
    same_declared a a' → same_bundles a a' → spec_step a a' (Some (Promote ns w v))
| ss_bump ns w v cur rs :
    v_active a ns !! w = Some cur → v_bundle a ns w cur = Some rs → bundle_added ns w v rs a a' → now_active ns w (Some v) a a' →
    same_declared a a' → spec_step a a' (Some (Bump ns w v))
| ss_hosts ns body platformDomain hosts :
    requestedHosts urlHost body platformDomain = Ok hosts → (∀ w v r, serves a ns w v r → r_host r ∈ hosts) →
    (∀ ns' h, h ∈ v_declared a' ns' ↔ if decide (ns' = ns) then h ∈ hosts else h ∈ v_declared a ns') →
    same_active a a' → same_bundles a a' → spec_step a a' (Some (ReconcileHosts ns body platformDomain))
| ss_delete ns w :
    (∀ v, v_active a ns !! w = Some v → v ∈ v_retained a ns w) → now_active ns w None a a' →
    bundles_gone ns w (v_retained a ns w) a a' → same_declared a a' → spec_step a a' (Some (DeleteWorker ns w))
| ss_delete_version ns w v :
    v ∈ v_retained a ns w → v_active a ns !! w ≠ Some v → bundles_gone ns w [v] a a' →
    same_active a a' → same_declared a a' → spec_step a a' (Some (DeleteVersion ns w v)).

(** The steps of the world, with the request a commit carries out. *)
Inductive control_step (w : world control_result) : option request → world control_result → Prop :=
| cs_request r id x ws a :
    w_sessions w !! id = Some x → control_request r (s_owned x) (s_body x) → s_run x = RRet (Ok (Commit ws a)) → s_valid x = true →
    control_step w (Some r) (change_store (apply_writes ws (w_store w)) (w_used w) (delete id (w_sessions w)) w)
| cs_local w' : txn_step control_api control_env w w' → w_store w' = w_store w → control_step w None w'
| cs_other used' s' : control_env (w_used w) (w_store w) used' s' → control_step w None (change_store s' used' (w_sessions w) w).

Lemma serves_holds s ns w v r : routing_inv s → serves (view_of s) ns w v r →
  ∃ p, holds s (r_host r) (r_slot r) p ∧ pp_ns p = ns ∧ pp_worker p = w.
Proof.
  intros Hi (Ha & rs & Hb & Hr). cbn in *. destruct (ri_active _ Hi _ _ _ Ha) as (_ & rs' & Hb' & Hall). rewrite Hb in Hb'. injection Hb' as <-.
  destruct (Hall r Hr) as (raw & Ht & Hs). destruct (slot_text_decode _ _ _ _ _ Ht) as (k & value & Hd & _). eexists. split; [by exists raw|done].
Qed.

Lemma same_bundles_at s s' : (∀ k, is_bundle k = true → same_at k s s') → same_bundles (view_of s) (view_of s').
Proof.
  intros Hs ns w v Hn. cbn. unfold bundle_routes. destruct (bundle_key ns w v) as [k|] eqn:Ek; [|done].
  destruct (Hs k (bundle_key_is_bundle _ _ _ _ Hn Ek)) as (_ & <- & _). done.
Qed.

Lemma bundle_added_at s s' ns w v dst rs : names_ok ns w → bundle_key ns w v = Ok dst → blank dst s →
  bundle_routes ns w v s' = Some rs → (∀ k, is_bundle k = true → k ≠ dst → same_at k s s') →
  bundle_added ns w v rs (view_of s) (view_of s').
Proof.
  intros Hn Hd Hb Hrs Hs. split.
  - cbn. unfold bundle_routes. rewrite Hd. by apply blank_routes.
  - intros ns' w' v' Hn'. cbn. case_decide as E; [by destruct E as (-> & -> & ->)|]. unfold bundle_routes.
    destruct (bundle_key ns' w' v') as [k|] eqn:Ek; [|done]. destruct (Hs k) as (_ & <- & _); [by eapply bundle_key_is_bundle| |done].
    intros ->. apply E. by eapply bundle_key_inj.
Qed.

(** The tables that no bundle touches give what is active and what is declared. *)
Lemma same_tables_at s s' : (∀ k, table_key k = true → is_bundle k = false → same_at k s s') →
  same_active (view_of s) (view_of s') ∧ same_declared (view_of s) (view_of s').
Proof. intros Hs. split; intros ns; cbn; symmetry; apply Hs; [auto with tables|done|auto with tables|done]. Qed.

Lemma promote_refines (past : store → Prop) ns w v now s ws a W : routing_inv s → (∀ s0, past s0 → settled s0 s) → names_ok ns w →
  reads_at past s [] (promoteWithRoutes cronId nextFireMs ns w v now) (Ok (Commit ws a)) W →
  spec_step (view_of s) (view_of (apply_writes ws s)) (Some (Promote ns w v)).
Proof.
  intros Hi Hpast Hn Hr. apply promote_spec in Hr as (new & o & slots & P1 & P2 & Hnew & Hseen & Hs & HP1 & HP2 & ->); [|done..].
  apply plain_loose in HP1, HP2. apply (ss_promote _ _ ns w v new); [done| | | |].
  - intros r Hin. split; [by apply (ps_declared _ _ _ _ _ _ Hseen)|]. intros ns' w' v' r' Hserve Hh.
    destruct (serves_holds s ns' w' v' r' Hi Hserve) as (p & Hp & <- & <-). rewrite Hh in Hp. by apply (ps_free _ _ _ _ _ _ Hseen r).
  - intros ns'. cbn. by eapply staged_active.
  - intros ns'. cbn. by eapply staged_declared.
  - apply same_bundles_at. intros k Hk. by eapply staged_bundle.
Qed.

Lemma bump_refines (past : store → Prop) hook ns w v dst now s ws a W : routing_inv s → names_ok ns w → hook_plain hook →
  bundle_key ns w v = Ok dst → blank dst s →
  reads_at past s [] (bumpActiveAndPromote hook ns w v now) (Ok (Commit ws a)) W →
  spec_step (view_of s) (view_of (apply_writes ws s)) (Some (Bump ns w v)).
Proof.
  intros Hi Hn Hh Hd Hb Hr.
  apply bump_spec in Hr as (cur & src & dst' & routes & before & slots & P & H1 & H2 & H3 & H4 & H5 & H6 & H7%bump_links_loose & ->); [|done..].
  rewrite Hd in H3. apply Ok_inj in H3 as <-. rewrite app_assoc, apply_writes_app. pose proof (plain_loose [] plain_nil) as Hnil.
  destruct (bump_inv s ns w v cur src dst routes before slots P) as (_ & Hk & Hother); try done.
  assert (∀ k, table_key k = true → k ≠ dst → same_at k s (apply_writes (before ++ [WCopy src dst]) s)) as Ht by (intros k; by eapply bump_tables).
  assert (∀ k, table_key k = true → is_bundle k = false → same_at k s (apply_writes (before ++ [WCopy src dst]) s)) as Ht'.
  { intros k Hk' Hk''. apply Ht; [done|]. intros ->. rewrite (bundle_key_is_bundle _ _ _ _ Hn Hd) in Hk''. done. }
  destruct (same_tables_at _ _ Ht') as [Hact Hdec].
  unfold same_active, same_declared in Hact, Hdec. cbn [view_of v_active v_declared] in Hact, Hdec.
  apply (ss_bump _ _ ns w v cur routes); [done|done| | |].
  - apply (bundle_added_at _ _ _ _ _ dst); [done..| |done]. destruct (bump_routes s ns w v cur src dst routes before slots P) as [Hb1 _]; try done.
    eapply bundle_routes_kept; [|done|exact Hb1]. intros k Hk' _. by eapply staged_bundle.
  - intros ns'. cbn [view_of v_active v_declared v_bundle]. erewrite staged_active by done. by rewrite !Hact.
  - intros ns'. cbn [view_of v_active v_declared v_bundle]. erewrite staged_declared by done. by rewrite Hdec.
Qed.

Lemma reconcile_refines (past : store → Prop) ns body platformDomain now s ws a W : routing_inv s → (∀ s0, past s0 → routing_inv s0) →
  reads_at past s [] (reconcileHosts urlHost ns body platformDomain now) (Ok (Commit ws a)) W →
  spec_step (view_of s) (view_of (apply_writes ws s)) (Some (ReconcileHosts ns body platformDomain)).
Proof.
  intros Hi Hpast Hr. apply reconcile_spec in Hr as (hosts & toAdd & removals & Hh & Hadd & Hrem & Hu & ->); [|done].
  assert (∀ k, table_key k = true → k ≠ hostsKey ns → same_at k s (apply_writes (stageDeclaredHostChanges ns toAdd removals) s)) as Hs
    by (intros k Hk; apply reconcile_tables; auto with tables).
  apply (ss_hosts _ _ ns body platformDomain hosts); [done| | | |].
  - intros w v r Hserve. destruct (serves_holds s ns w v r Hi Hserve) as (p & Hp & E & _).
    pose proof (ri_declared _ Hi _ _ _ Hp) as Hd. rewrite E in Hd. destruct (decide (r_host r ∈ hosts)) as [|Hn]; [done|].
    destruct (Hu (r_host r) (proj2 (Hrem (r_host r)) (conj Hd Hn)) _ _ Hp E).
  - intros ns' h. cbn [view_of v_active v_declared v_bundle]. destruct (decide (ns' = ns)) as [->|Hne].
    + rewrite reconcile_declared. specialize (Hadd h). specialize (Hrem h). destruct (decide (h ∈ hosts)), (decide (h ∈ declared_at ns s)); tauto.
    + unfold declared_at. destruct (Hs (hostsKey ns')) as (_ & _ & <- & _); [auto with tables| |done]. by intros ?%app_inv_head.
  - intros ns'. cbn [view_of v_active v_declared v_bundle]. symmetry. apply Hs; [auto with tables|done].
  - apply same_bundles_at. intros k Hk. apply Hs; [auto with tables|]. intros ->. by vm_compute in Hk.
Qed.

Lemma deploy_refines (past : store → Prop) tz cp JSON `{!JsonPrinter JSON} num today maxDate hex budget ns w v dst body domain q token bindings c
    now s ws a W :
  names_ok ns w → prepareDeployRequest urlHost tz cp body ns domain = Ok q →
  prepareCommittedBundle JSON num today maxDate token q ns w bindings = Ok c → bundle_key ns w v = Ok dst → blank dst s →
  reads_at past s [] (commitWithWatch JSON hex budget ns w v c now) (Ok (Commit ws a)) W →
  spec_step (view_of s) (view_of (apply_writes ws s)) (Some (Deploy ns w v body domain)).
Proof.
  intros Hn Hq Hc Hd Hb Hr. assert (made_from urlHost tz cp JSON num today maxDate ns w q c) as Hm by (split; eauto).
  eapply deploy_effect in Hr; [|done..]. pose proof (dd_tables _ _ _ _ _ _ _ _ Hr) as Hs.
  assert (∀ k, table_key k = true → is_bundle k = false → same_at k s (apply_writes ws s)) as Ht.
  { intros k Hk Hk'. apply Hs; [done|]. intros ->. rewrite (bundle_key_is_bundle _ _ _ _ Hn Hd) in Hk'. done. }
  destruct (same_tables_at _ _ Ht) as [Hact Hdec].
  apply (ss_deploy _ _ ns w v body domain (dq_routes q)); [by eapply prepared_routes| |done|done].
  apply (bundle_added_at _ _ _ _ _ dst); [done..| |].
  - unfold bundle_routes. rewrite Hd. by eapply deployed_routes.
  - intros k Hk Hne. apply Hs; [auto with tables|done].
Qed.

Lemma same_refines s s' : (∀ k, table_key k = true → same_at k s s') → spec_step (view_of s) (view_of s') None.
Proof.
  intros Hs. destruct (same_tables_at s s') as [H1 H2]; [auto|]. apply ss_silent; [done|done|].
  apply same_bundles_at. intros k Hk. apply Hs. auto with tables.
Qed.

(** Bundles under the keys [D] are gone, and no others. *)
Lemma gone_bundles s s' ns w (vs D : list jstr) : names_ok ns w →
  (∀ k, k ∈ D ↔ ∃ v, v ∈ vs ∧ bundle_key ns w v = Ok k) →
  (∀ k, is_bundle k = true → (k ∈ D → blank k s') ∧ (k ∉ D → same_at k s s')) → bundles_gone ns w vs (view_of s) (view_of s').
Proof.
  intros Hn HD Hs ns' w' v' Hn'. cbn. unfold bundle_routes. destruct (bundle_key ns' w' v') as [k|] eqn:Ek; [|by case_decide].
  destruct (Hs k (bundle_key_is_bundle _ _ _ _ Hn' Ek)) as [H1 H2]. case_decide as E.
  - destruct E as (-> & -> & Hv). apply blank_routes, H1, HD. by exists v'.
  - destruct H2 as (_ & <- & _); [|done]. intros (v & Hv & Hk)%HD. apply E.
    destruct (bundle_key_inj _ _ _ _ _ _ _ Hn' Hn Ek Hk) as (-> & -> & ->). done.
Qed.

(** A worker without an active version and without retained ones has nothing to delete. *)
Lemma residual_refines s ns w ws : routing_inv s → residual_writes s ns w ws →
  spec_step (view_of s) (view_of (apply_writes ws s)) (Some (DeleteWorker ns w)).
Proof.
  intros Hi (Hw & Ha & Hv). assert (∀ k, table_key k = true → same_at k s (apply_writes ws s)) as Hs
    by (intros k Hk; apply plain_writes_kept; auto with tables).
  assert (active_at ns s !! w = None) as Hnone.
  { destruct (active_at ns s !! w) as [v|] eqn:E; [|done]. destruct (ri_active _ Hi _ _ _ E) as (_ & rs & Hb & _). by destruct v. }
  destruct (same_tables_at s (apply_writes ws s)) as [H1 H2]; [auto|].
  assert (same_bundles (view_of s) (view_of (apply_writes ws s))) as H3 by (apply same_bundles_at; intros k Hk; apply Hs; auto with tables).
  apply ss_delete; [| | |done].
  - intros v E. cbn in E. by rewrite Hnone in E.
  - intros ns'. rewrite H1. cbn. case_decide; [subst ns'|done]. symmetry. by apply (delete_id (active_at ns s) w).
  - intros ns' w' v' Hn. rewrite H3 by done. cbn [view_of v_retained]. rewrite Hv. case_decide as E; [|done].
    destruct E as (_ & _ & []%elem_of_nil).
Qed.

Lemma delete_refines (past : store → Prop) pages check task ns w token now s ws a W : routing_inv s → (∀ s0, past s0 → settled s0 s) →
  names_ok ns w → reads_at past s [] (executeWholeDelete pages check task ns w token now) (Ok (Commit ws a)) W →
  spec_step (view_of s) (view_of (apply_writes ws s)) (Some (DeleteWorker ns w)).
Proof.
  intros Hi Hp Hn Hr. apply delete_spec in Hr as [Hw|(d & rs & Hseen & Hlist & Hret & Hws & _)]; [by apply residual_refines| |done..].
  destruct (whole_delete_effect s ns w d rs ws Hi Hn Hseen Hws) as (D & HD & _ & Ha & Hd & Hb).
  apply (ss_delete _ _ ns w); cbn [view_of v_retained]; [| | |done].
  - intros v Hv. cbn in Hv. rewrite (ds_active _ _ _ _ _ Hseen) in Hv. rewrite <- Hlist, <- Hret. by apply (ds_retained _ _ _ _ _ Hseen).
  - done.
  - rewrite <- Hlist, <- Hret. apply (gone_bundles _ _ _ _ _ D); [done| |done]. intros k. by apply deleted_keys.
Qed.

Lemma version_delete_refines (past : store → Prop) task ns w v token now s ws a W : routing_inv s → names_ok ns w →
  reads_at past s [] (executeVersionDelete task ns w v token now) (Ok (Commit ws a)) W →
  spec_step (view_of s) (view_of (apply_writes ws s)) (Some (DeleteVersion ns w v)).
Proof.
  intros Hi Hn Hr. apply version_delete_spec in Hr as (k & Hk & Ha & Hd & _ & _ & Hlist); [|done].
  destruct (version_delete_effect s ns w v k ws Hi Hn Hk Ha Hd) as (_ & Hs & Hb).
  assert (∀ k', table_key k' = true → is_bundle k' = false → same_at k' s (apply_writes ws s)) as Ht.
  { intros k' H1 H2. apply Hs; [done|]. intros ->. rewrite (bundle_key_is_bundle _ _ _ _ Hn Hk) in H2. done. }
  destruct (same_tables_at _ _ Ht) as [Hact Hdec]. apply (ss_delete_version _ _ ns w v); [done|done| |done|done].
  apply (gone_bundles _ _ _ _ _ [k]); [done| |].
  - intros k'. rewrite list_elem_of_singleton. setoid_rewrite list_elem_of_singleton. split; [intros ->; by exists v|].
    intros (v' & -> & E). rewrite Hk in E. by apply Ok_inj in E.
  - intros k' Hk'. split; [by intros ->%list_elem_of_singleton|]. intros Hne. apply Hs; [auto with tables|set_solver].
Qed.

(** Every step of the world has a label. *)
Lemma step_labelled e w w' : txn_world_ok control_inv bundles_settled control_api e w →
  txn_step control_api control_env w w' ↔ ∃ l, control_step w l w'.
Proof.
  intros [_ _ Hsess _]. split.
  - intros Hs. pose proof Hs as Hs'. destruct Hs' as
      [id attempts owned body now Hid Ha Hd Hb | id x ks p Hx Hr | id x B q k Hx Hr | id x ws a Hx Hr Hv
      |id x now x' Hx Hr Hn | id | used' s' He]; try (exists None; by apply cs_local); [|exists None; by apply cs_other].
    destruct (Hsess id x Hx) as [[[r Hapi] _ _] _]. exists (Some r). by apply (cs_request w r id x ws a).
  - intros [l [r id x ws a Hx _ Hr Hv|w'' Hs _|used' s' He]]; [by eapply ts_commit|done|by apply ts_env].
Qed.

Lemma request_refines e w id x ws a r : txn_world_ok control_inv bundles_settled control_api e w → w_sessions w !! id = Some x →
  control_request r (s_owned x) (s_body x) → s_run x = RRet (Ok (Commit ws a)) → s_valid x = true →
  spec_step (view_of (w_store w)) (view_of (apply_writes ws (w_store w))) (Some r).
Proof.
  intros Hw Hx Hapi Hr Hv. pose proof Hw as [[Hi _] _ Hsess _]. destruct (Hsess id x Hx) as [[_ Hown _] _].
  destruct (commit_at _ _ bundles_settled_refl _ e w id x ws a Hw Hx Hr Hv) as (now & W & Hra).
  assert (∀ s0, before control_inv bundles_settled e (w_store w) s0 → settled s0 (w_store w)) as Hp by (intros s0; apply before_settled).
  destruct Hapi as [tz cp JSON num today maxDate hex budget ns wk v dst body domain q token bindings c HJ Hn Hq Hc Hd|ns wk v Hn|hook ns wk v dst Hn Hh Hd
    |ns body d|pages check task ns wk token Hn|task ns wk v token Hn].
  - eapply deploy_refines; [done..| |exact Hra]. apply Hown. set_solver.
  - by eapply promote_refines.
  - eapply bump_refines; [done..| |exact Hra]. apply Hown. set_solver.
  - eapply reconcile_refines; [done| |exact Hra]. by intros s0 (e0 & [? _] & _).
  - by eapply delete_refines.
  - by eapply version_delete_refines.
Qed.

Lemma step_refines e w l w' : txn_world_ok control_inv bundles_settled control_api e w → control_step w l w' →
  spec_step (view_of (w_store w)) (view_of (w_store w')) l.
Proof.
  intros Hw [r id x ws a Hx Hapi Hr Hv|w'' _ ->|used' s' [s'' Hs]]; [by eapply request_refines|by apply same_refines|].
  apply same_refines. cbn. auto with tables.
Qed.

(** The pattern tables are a function of the specification's state. *)
Lemma tables_served s h slot raw : routing_inv s → patterns_at h s !! slot = Some raw ↔
  ∃ ns w v r, serves (view_of s) ns w v r ∧ r_host r = h ∧ r_slot r = slot ∧ slot_text ns w v r = Ok raw.
Proof.
  intros Hi. split.
  - intros (ns & w & v & rs & r & H1 & H2 & H3 & H4 & H5 & H6)%(ri_slot _ Hi). exists ns, w, v, r. split; [|done]. split; [done|by exists rs].
  - intros (ns & w & v & r & (Ha & rs & Hb & Hr) & <- & <- & Ht). cbn in *.
    destruct (ri_active _ Hi _ _ _ Ha) as (_ & rs' & Hb' & Hall). rewrite Hb in Hb'. injection Hb' as <-.
    destruct (Hall r Hr) as (raw' & Ht' & Hs). congruence.
Qed.

(** ** The gateway on these tables *)

(** A bundle has one route for a host and a slot. *)
Lemma routes_unique s ns w v rs r r' : routing_inv s → v_active (view_of s) ns !! w = Some v → v_bundle (view_of s) ns w v = Some rs →
  r ∈ rs → r' ∈ rs → r_host r = r_host r' → r_slot r = r_slot r' → r = r'.
Proof.
  intros Hi Ha Hb Hr Hr' E1 E2. cbn in Ha, Hb. destruct (ri_active _ Hi _ _ _ Ha) as [Hn _]. unfold bundle_routes in Hb.
  destruct (bundle_key ns w v) as [k|] eqn:Ek; [|done]. destruct (ri_bundles _ Hi k rs (bundle_key_is_bundle _ _ _ _ Hn Ek) Hb) as [_ Hall].
  rewrite Forall_forall in Hall. destruct (Hall r Hr) as [_ ->], (Hall r' Hr') as [_ ->]. by rewrite E1, E2.
Qed.

(** The sorted table the gateway builds from a listing of the pattern hash of a host. *)
Definition host_table (listing : list (jstr * jstr)) : list pattern_entry :=
  (cacheHostPatterns (map (λ kv, (kv.1, JStr kv.2)) listing)).1.

Lemma patternEntryOf_projection valid slot p :
  patternEntryOf valid slot (projection_value (Some p)) =
  if (valid (pp_ns p) : bool) then Ok (PatternEntry slot (pp_kind p) (pp_value p) (pp_ns p) (pp_worker p) (pp_version p)) else Err BadNamespace.
Proof.
  unfold patternEntryOf, projection_value. change (obj_get (js "ns") _) with (JStr (pp_ns p)).
  change (obj_get (js "worker") _) with (JStr (pp_worker p)). change (obj_get (js "version") _) with (JStr (pp_version p)).
  change (obj_get (js "kind") _) with (JStr (kind_text (pp_kind p))). change (obj_get (js "value") _) with (JStr (pp_value p)).
  cbv iota. by rewrite (proj2 (kind_of_text_spec _ (pp_kind p)) eq_refl).
Qed.

Lemma host_table_elem s h listing e : routing_inv s → listing ≡ₚ map_to_list (patterns_at h s) →
  e ∈ host_table listing ↔ ∃ ns w v r, serves (view_of s) ns w v r ∧ r_host r = h ∧ isValidRouteNs (JStr ns) = true ∧
    entry_of r ns w v = Some e.
Proof.
  intros Hi Hl. unfold host_table, cacheHostPatterns. rewrite sortPatterns_elem. split.
  - intros (slot & parsed & Hin & He). apply list_elem_of_In, in_flat_map in Hin as ([k x] & Hk & Hin).
    apply list_elem_of_In, list_elem_of_fmap in Hk as ([k' raw] & [= -> ->] & Hk). cbn [fst snd] in Hin.
    destruct Hin as [[<- <-]%pair_equal_spec|[]]. rewrite Hl, elem_of_map_to_list in Hk.
    apply (tables_served s h k' raw Hi) in Hk as (ns & w & v & r & Hserve & Hh & Hs & Ht).
    destruct (slot_text_decode _ _ _ _ _ Ht) as (kind & value & Hd & Ek & Ev). rewrite Hd, patternEntryOf_projection in He. cbn in He.
    destruct (isValidRouteNs (JStr ns)) eqn:Ens; [|done]. apply Ok_inj in He as <-. exists ns, w, v, r. split_and!; [done..|].
    unfold entry_of. rewrite Ek, Ev, (proj2 (kind_of_text_spec _ kind) eq_refl). cbn. by rewrite Hs.
  - intros (ns & w & v & r & Hserve & Hh & Hns & He). destruct (serves_holds s ns w v r Hi Hserve) as (p & (raw & Hs & Hd) & E1 & E2).
    rewrite Hh in Hs. assert (Hs' := Hs). apply (tables_served s h (r_slot r) raw Hi) in Hs' as (ns' & w' & v' & r' & Hserve' & Hh' & Hsl & Ht).
    destruct (slot_text_decode _ _ _ _ _ Ht) as (kind & value & Hd' & Ek & Ev). rewrite Hd in Hd'. injection Hd' as ->. cbn in E1, E2. subst ns' w'.
    exists (r_slot r), (projection_value (Some (Projection ns w v' kind value))). split.
    + apply list_elem_of_In, in_flat_map. exists (r_slot r, JStr raw). split; [|left; cbn [fst snd]; by rewrite Hd].
      apply list_elem_of_In, list_elem_of_fmap. exists (r_slot r, raw). split; [done|]. rewrite Hl. by apply elem_of_map_to_list.
    + rewrite patternEntryOf_projection. cbn. rewrite Hns. f_equal.
      destruct Hserve as (Ha & rs & Hb & Hr), Hserve' as (Ha' & rs' & Hb' & Hr'). cbn in Ha, Ha', Hb, Hb'. rewrite Ha in Ha'. injection Ha' as <-.
      rewrite Hb in Hb'. injection Hb' as <-. assert (r = r') as <-; [|unfold entry_of in He; rewrite Ek, Ev, (proj2 (kind_of_text_spec _ kind) eq_refl) in He; by injection He].
      apply (routes_unique s ns w v rs); try done; congruence.
Qed.
End world.

Lemma routing_inv_empty : routing_inv empty_store.
Proof.
  split.
  - intros h slot raw H. unfold patterns_at, hash_at in H. cbn in H. rewrite lookup_empty in H. cbn in H. by rewrite lookup_empty in H.
  - intros ns w v H. unfold active_at, hash_at in H. cbn in H. rewrite lookup_empty in H. cbn in H. by rewrite lookup_empty in H.
  - intros h slot slot' p p' (raw & H & _). unfold patterns_at, hash_at in H. cbn in H. rewrite lookup_empty in H. cbn in H. by rewrite lookup_empty in H.
  - intros ns h. split; [done|]. intros (slot & p & (raw & H & _) & _). unfold patterns_at, hash_at in H. cbn in H. rewrite lookup_empty in H. cbn in H.
    by rewrite lookup_empty in H.
  - intros h slot p (raw & H & _). unfold patterns_at, hash_at in H. cbn in H. rewrite lookup_empty in H. cbn in H. by rewrite lookup_empty in H.
  - intros k rs _. intros H. change (hash_at k empty_store) with (∅ : gmap jstr jstr) in H. by rewrite routes_in_empty in H.
Qed.

Lemma control_inv_empty : control_inv ∅ empty_store.
Proof. split; [exact routing_inv_empty|]. intros k _ Hb. by destruct Hb. Qed.

(** ** A concrete run

    A first version of [acme/api] is deployed, [acme] declares a host, the version goes live;
    then its delete lock is taken and the worker is deleted. *)

Definition demo_key : jstr := js "worker:acme:api:v:1".
Definition demo_cronId (cron timezone : jstr) : jstr := cron ++ timezone.
Definition demo_nextFireMs (cron timezone : jstr) (after : Z) : option Z := Some (after + 60000).
Definition demo_body : jsval := JObj [(js "hosts", JArr [JStr (js "api.example.com")])].

Definition committed (r : result control_error (plan control_result)) : list write :=
  match r with Ok (Commit ws _) => ws | _ => [] end.
Definition outcome_of (r : result control_error (plan control_result)) : control_result :=
  match r with Ok (Commit _ a) => a | _ => HostsReconciled [] end.

Definition demo_reconcile : Z → txn control_result := reconcileHosts Some (js "acme") demo_body (js "workers.local").
Definition demo_promote : Z → txn control_result := promoteWithRoutes demo_cronId demo_nextFireMs (js "acme") (js "api") (js "v1").

Definition demo_uploaded : store := apply_writes (Demo.the_writes empty_store) empty_store.
Definition demo_declared : store := apply_writes (committed (run_reads demo_uploaded (demo_reconcile 0))) demo_uploaded.
Definition demo_live : store := apply_writes (committed (run_reads demo_declared (demo_promote 0))) demo_declared.
Definition demo_world : world control_result := World demo_live (∅ ∪ (∅ ∪ ({[demo_key]} ∪ ∅))) ∅.

Lemma demo_reachable :
  txn_reach (control_api demo_cronId demo_nextFireMs Some) control_env (World empty_store ∅ ∅) demo_world.
Proof.
  eapply txn_reach_trans; [eapply txn_reach_trans|].
  - apply (alone_commits _ _ empty_store ∅ 5 {[demo_key]} Demo.the_deploy 0 (Demo.the_writes empty_store) (Deployed (js "v1")));
      [|set_solver|done|vm_compute; reflexivity].
    eapply (ca_deploy _ _ _ _ _ _ _ _ _ _ _ (js "acme") (js "api") (js "v1") demo_key); [apply _| |exact Demo.made|vm_compute; reflexivity].
    apply (bool_decide_unpack _); vm_compute; exact I.
  - apply (alone_commits _ _ demo_uploaded ({[demo_key]} ∪ ∅) 5 ∅ demo_reconcile 0 (committed (run_reads demo_uploaded (demo_reconcile 0)))
      (outcome_of (run_reads demo_uploaded (demo_reconcile 0))));
      [by eexists; apply cr_reconcile|set_solver|set_solver|vm_compute; reflexivity].
  - apply (alone_commits _ _ demo_declared (∅ ∪ ({[demo_key]} ∪ ∅)) 5 ∅ demo_promote 0 (committed (run_reads demo_declared (demo_promote 0)))
      (outcome_of (run_reads demo_declared (demo_promote 0))));
      [|set_solver|set_solver|vm_compute; reflexivity].
    eexists. apply cr_promote. apply (bool_decide_unpack _); vm_compute; exact I.
Qed.

(** The lock, set by [acquireDeleteLock]. *)
Definition demo_token : jstr := js "whole:00".
Definition demo_locked : store :=
  apply_writes [WSet (deleteLockKey (js "acme") (js "api")) demo_token] demo_live.
Definition demo_pages : ScanPages :=
  let queues := [[queueConsumerKey (js "acme") (js "jobs")]] in MkPages [] queues [] queues.
Definition demo_delete : Z → txn control_result :=
  executeWholeDelete (λ _, demo_pages) (λ _, Ok tt) (λ _, js "task") (js "acme") (js "api") demo_token.
Definition demo_deleted : store := apply_writes (committed (run_reads demo_locked (demo_delete 0))) demo_locked.

(** The session of the delete, ready to commit. *)
Lemma demo_ready : ∃ w w', txn_reach (control_api demo_cronId demo_nextFireMs Some) control_env (World empty_store ∅ ∅) w ∧
  w_store w = demo_locked ∧ w_store w' = demo_deleted ∧
  control_step demo_cronId demo_nextFireMs Some w (Some (DeleteWorker (js "acme") (js "api"))) w'.
Proof.
  assert (control_request demo_cronId demo_nextFireMs Some (DeleteWorker (js "acme") (js "api")) ∅ demo_delete) as Hreq
    by (apply cr_delete; apply (bool_decide_unpack _); vm_compute; exact I).
  destruct (alone_ready (control_api demo_cronId demo_nextFireMs Some) control_env demo_locked (w_used demo_world) 5 ∅ demo_delete 0
    (committed (run_reads demo_locked (demo_delete 0))) (outcome_of (run_reads demo_locked (demo_delete 0)))) as [watch H];
    [by exists (DeleteWorker (js "acme") (js "api"))|set_solver|set_solver|vm_compute; reflexivity|].
  eexists _, _. split_and!; [eapply txn_reach_trans; [exact demo_reachable|]; eapply txn_reach_trans; [|exact H]| |
    |eapply (cs_request _ _ _ _ _ 0%nat); [apply lookup_singleton_eq|exact Hreq|reflexivity|reflexivity]]; [|reflexivity|reflexivity].
  eapply tr_step; [apply tr_start|]. pose proof (ts_env (control_api demo_cronId demo_nextFireMs Some) control_env demo_world (w_used demo_world) demo_locked) as Hs.
  unfold change_store in Hs. change (w_sessions demo_world) with (∅ : gmap nat (session control_result)) in Hs. rewrite fmap_empty in Hs. apply Hs.
  apply ce_other. intros k Hk. apply apply_writes_other. unfold targets. cbn. intros Hin.
  apply list_elem_of_singleton in Hin as ->. by vm_compute in Hk.
Qed.

(** ** Properties *)

(** C2. Routing tables: however promotions, version bumps, host reconciliations, deletes of
    workers and versions and deploys interleave, the tables stay coherent. Every slot of a host belongs to a route of
    the active version of its worker and every route of an active version has its slot; a host
    serves one namespace only, and only one that declared it; and the reverse index from
    namespaces to hosts is exact. *)
Theorem routing_tables_coherent (cronId : jstr → jstr → jstr) (nextFireMs : jstr → jstr → Z → option Z)
    (urlHost : jstr → option jstr) (s0 : store) (used0 : gset jstr) (w : world control_result)
    (Hinit : control_inv used0 s0)
    (Hreach : txn_reach (control_api cronId nextFireMs urlHost) control_env (World s0 used0 ∅) w) :
  routing_inv (w_store w).
Proof. destruct (world_ok _ _ _ _ _ _ Hinit Hreach) as [e Hw]. apply (tw_inv _ _ _ _ _ Hw). Qed.

Lemma routing_tables_coherent_witness :
  routing_inv (w_store demo_world) ∧
  patterns_at (js "api.example.com") (w_store demo_world) !! js "/v1/*"
    = Some (join_with tab [js "v2"; js "acme"; js "api"; js "v1"; js "prefix"; js "/v1/"]).
Proof.
  split; [|vm_compute; reflexivity].
  apply (routing_tables_coherent demo_cronId demo_nextFireMs Some empty_store ∅ demo_world);
    [exact control_inv_empty|exact demo_reachable].
Defined.

(** C1. Atomicity: the interleaved optimistic transactions refine a specification in which
    each request is one step, in any state reached. Every step of the world is a commit of some
    request or changes nothing that is active, declared or stored as a bundle; and the commit of a
    request does exactly what the specification says for that request. A deploy of [v] adds the
    bundle [v], under an unused version, with the routes [parseRoutes] makes of the request's
    body. A promotion of [v] activates [v], a deployed version whose hosts are declared and which
    conflicts with no other active worker. A bump to [v] adds a copy of the active version under
    the unused version [v] and activates it. A reconciliation replaces the declared hosts of the
    namespace by the requested ones and drops none that is in use. A whole delete takes the
    worker down together with the bundles of exactly the versions in its index, the active one
    among them. A delete of [v] takes the bundle [v], which is in the index and not active. None
    of them changes another bundle, another worker's active version or another namespace's
    hosts. The pattern tables of any reached store are those that the specification's state
    determines. *)
Theorem control_plane_refines_spec (cronId : jstr → jstr → jstr) (nextFireMs : jstr → jstr → Z → option Z)
    (urlHost : jstr → option jstr) (s0 : store) (used0 : gset jstr) (w : world control_result)
    (Hinit : control_inv used0 s0)
    (Hreach : txn_reach (control_api cronId nextFireMs urlHost) control_env (World s0 used0 ∅) w) :
  (∀ w', txn_step (control_api cronId nextFireMs urlHost) control_env w w' ↔ ∃ l, control_step cronId nextFireMs urlHost w l w') ∧
  (∀ l w', control_step cronId nextFireMs urlHost w l w' → spec_step urlHost (view_of (w_store w)) (view_of (w_store w')) l) ∧
  ∀ h slot raw, patterns_at h (w_store w) !! slot = Some raw ↔
    ∃ ns wk v r, serves (view_of (w_store w)) ns wk v r ∧ r_host r = h ∧ r_slot r = slot ∧ slot_text ns wk v r = Ok raw.
Proof.
  destruct (world_ok _ _ _ _ _ _ Hinit Hreach) as [e Hw]. split_and!.
  - intros w'. by eapply step_labelled.
  - intros l w' Hs. by eapply step_refines.
  - intros h slot raw. apply tables_served, (tw_inv _ _ _ _ _ Hw).
Qed.

Lemma control_plane_refines_spec_witness : ∃ w w',
  control_step demo_cronId demo_nextFireMs Some w (Some (DeleteWorker (js "acme") (js "api"))) w' ∧
  w_store w = demo_locked ∧ w_store w' = demo_deleted ∧
  spec_step Some (view_of demo_locked) (view_of demo_deleted) (Some (DeleteWorker (js "acme") (js "api"))) ∧
  v_active (view_of demo_locked) (js "acme") !! js "api" = Some (js "v1") ∧
  v_retained (view_of demo_locked) (js "acme") (js "api") = [js "v1"] ∧
  v_active (view_of demo_deleted) (js "acme") !! js "api" = None ∧
  v_bundle (view_of demo_deleted) (js "acme") (js "api") (js "v1") = None.
Proof.
  destruct demo_ready as (w & w' & Hreach & Hw & Hw' & Hstep). exists w, w'. split_and!; [done|done|done| |vm_compute; reflexivity ..].
  rewrite <- Hw, <- Hw'. apply (control_plane_refines_spec demo_cronId demo_nextFireMs Some empty_store ∅ w); [exact control_inv_empty|done|done].
Defined.

(** The entry of a served route, and what it matches. *)
Lemma served_entry s ns w v r : routing_inv s → serves (view_of s) ns w v r →
  ∃ e, entry_of r ns w v = Some e ∧ pe_slot e = r_slot r ∧ pe_ns e = ns ∧ pe_worker e = w ∧ pe_version e = v ∧
    ∀ path search, matchPatternEntry e path search = slot_covers (r_slot r) path search.
Proof.
  intros Hi (Ha & rs & Hb & Hr). cbn in Ha, Hb. destruct (ri_active _ Hi _ _ _ Ha) as [Hn _]. unfold bundle_routes in Hb.
  destruct (bundle_key ns w v) as [k|] eqn:Ek; [|done]. destruct (ri_bundles _ Hi k rs (bundle_key_is_bundle _ _ _ _ Hn Ek) Hb) as [_ Hall].
  rewrite Forall_forall in Hall. destruct (Hall r Hr) as [_ Hat].
  destruct (route_at_entry (r_host r) (r_slot r) ns w v) as (e & He & Hs & Hm). rewrite <- Hat in He. exists e. split; [done|].
  unfold entry_of in He. destruct (r_kind r), (r_value r); try done. destruct (kind_of_text _); [|done]. injection He as <-. done.
Qed.

(** C3. From control plane to gateway: on the pattern table of a host in any reached store,
    listed in any order, a request on that host is forwarded only to the active version of a
    worker whose bundle has a route for the host that covers the path, in a namespace that
    declared the host; and when the routes of some worker cover a request, the gateway finds an
    entry of the same namespace for it, at least as specific as every route that covers it. *)
Theorem gateway_serves_active_routes (cronId : jstr → jstr → jstr) (nextFireMs : jstr → jstr → Z → option Z)
    (urlHost : jstr → option jstr) (s0 : store) (used0 : gset jstr) (w : world control_result) (h : jstr)
    (listing : list (jstr * jstr)) (path search : jstr) (Hinit : control_inv used0 s0)
    (Hreach : txn_reach (control_api cronId nextFireMs urlHost) control_env (World s0 used0 ∅) w)
    (Hlisting : listing ≡ₚ map_to_list (patterns_at h (w_store w))) :
  (∀ route b fwd prefix ns wk v,
     patternDispatch (λ _, Ok (Some (host_table listing)) : result unit _) path search h
       = Ok (ForwardRuntime route b fwd prefix ns wk v) →
     h ∈ v_declared (view_of (w_store w)) ns ∧
     ∃ r, serves (view_of (w_store w)) ns wk v r ∧ r_host r = h ∧ slot_covers (r_slot r) path search = true) ∧
  (∀ ns wk v r, serves (view_of (w_store w)) ns wk v r → r_host r = h → isValidRouteNs (JStr ns) = true →
     slot_covers (r_slot r) path search = true →
     ∃ hit e, (matchPatternWithStats (host_table listing) path search).1 = Some hit ∧ pe_ns hit = ns ∧
       entry_of r ns wk v = Some e ∧ pattern_le hit e).
Proof.
  destruct (world_ok _ _ _ _ _ _ Hinit Hreach) as [e0 Hw]. pose proof (proj1 (tw_inv _ _ _ _ _ Hw)) as Hi. split.
  - intros route b fwd prefix ns wk v [_ [_ (table & e & [= <-] & Hin & Hm & <- & <- & <-)]]%patternDispatch_forward.
    apply (host_table_elem _ _ _ _ Hi Hlisting) in Hin as (ns & wk & v & r & Hserve & Hh & _ & He).
    destruct (served_entry _ _ _ _ _ Hi Hserve) as (e' & He' & _ & E1 & E2 & E3 & Hc). rewrite He in He'. injection He' as <-.
    rewrite E1, E2, E3. destruct (serves_holds _ _ _ _ _ Hi Hserve) as (p & Hp & Hns & _). split.
    + cbn. rewrite <- Hns, <- Hh. by eapply (ri_declared _ Hi).
    + exists r. by rewrite <- Hc.
  - intros ns wk v r Hserve Hh Hns Hc. destruct (served_entry _ _ _ _ _ Hi Hserve) as (e & He & _ & E1 & _ & _ & Hm).
    assert (e ∈ host_table listing) as Hin by (apply (host_table_elem _ h _ _ Hi Hlisting); eauto 10).
    assert (StronglySorted pattern_le (host_table listing)) as Hsorted by apply sortPatterns_sorted.
    destruct (matchPatternFrom_spec 0 _ path search Hsorted) as [_ Hspec]. unfold matchPatternWithStats.
    destruct (matchPatternFrom 0 (host_table listing) path search).1 as [hit|].
    2: { specialize (Hspec e Hin). rewrite Hm in Hspec. congruence. }
    destruct Hspec as (Hhit & _ & Hle). exists hit, e. split_and!; [done| |done|apply Hle; [done|by rewrite Hm]].
    apply (host_table_elem _ h _ _ Hi Hlisting) in Hhit as (ns' & wk' & v' & r' & Hserve' & Hh' & _ & He').
    destruct (served_entry _ _ _ _ _ Hi Hserve') as (e' & He'' & _ & E' & _). rewrite He' in He''. injection He'' as <-. rewrite E'.
    destruct (serves_holds _ _ _ _ _ Hi Hserve) as (p & Hp & <- & _), (serves_holds _ _ _ _ _ Hi Hserve') as (p' & Hp' & <- & _).
    rewrite Hh in Hp. rewrite Hh' in Hp'. by eapply (ri_one_ns _ Hi).
Qed.

Lemma gateway_serves_active_routes_witness :
  patternDispatch (λ _, Ok (Some (host_table (map_to_list (patterns_at (js "api.example.com") demo_live)))) : result unit _)
    (js "/v1/users") [] (js "api.example.com")
    = Ok (ForwardRuntime (js "worker_fetch_pattern") RUNTIME_USER (js "/v1/users") (js "/v1/*") (js "acme") (js "api") (js "v1")) ∧
  js "api.example.com" ∈ v_declared (view_of demo_live) (js "acme").
Proof.
  destruct (gateway_serves_active_routes demo_cronId demo_nextFireMs Some empty_store ∅ demo_world (js "api.example.com")
    (map_to_list (patterns_at (js "api.example.com") demo_live)) (js "/v1/users") [] control_inv_empty demo_reachable
    (Permutation_refl _)) as [Hsafe _].
  split; [vm_compute; reflexivity|].
  eapply (Hsafe (js "worker_fetch_pattern") RUNTIME_USER (js "/v1/users") (js "/v1/*") (js "acme") (js "api") (js "v1")).
  vm_compute. reflexivity.
Defined.
