(* ===== verification/References.v ===== *)
(** * References between workers

    A bundle names the versions its service bindings are pinned to. A deploy and a version bump
    register the new version in the set of referrers of each target
    ([worker-version-referrers:<ns>:<worker>:<version>]), and deletes of workers and versions
    refuse while such a set has members and unregister what they delete. In every interleaving
    of these requests every reference of every bundle leads to a bundle that is there, and is
    registered with it: no service binding ever dangles. *)

From stdpp Require Import base list strings gmap.
From Stdlib Require Import ZArith Lia.
From S2P Require Import Prelude NsPattern WorkerContract Utf8 Json Gateway SessionPolicy Txn Control JsonView Topology Routing RoutingSafety.
From S2P Require Import Delete DeleteSafety Bundle Deploy DeploySafety DeployLink RoutingWorld.

#[local] Open Scope Z_scope.
#[local] Open Scope wdl_scope.
#[local] Open Scope txn_scope.

#[local] Abbreviation refers k := (key_head k = js "worker-version-referrers").

(** ** Members *)

Lemma name_unit c : alnum_dash_us c = true → 32 <= c < 128 ∧ c ≠ 34 ∧ c ≠ 92.
Proof. unfold alnum_dash_us, is_alnum, is_alpha, is_upper, is_lower, is_digit, is_dash, is_underscore. lia. Qed.

Lemma escape_name s : name_ok s → escape s = s.
Proof.
  intros H. induction H as [|c s Hc%name_unit _ IH]; [done|]. cbn [escape].
  replace (is_high c) with false by (unfold is_high; lia). replace (is_low c) with false by (unfold is_low; lia). rewrite IH.
  unfold escape_unit. repeat match goal with |- context[if ?b then _ else _] => replace b with false by lia end. done.
Qed.

Lemma name_no_quote s : name_ok s → 34 ∉ s.
Proof. intros H. by eapply Forall_class_no_sep; [|exact H]. Qed.

Lemma version_name v n : parseVersion (JStr v) = Some n → name_ok v.
Proof.
  intros [Hn ->]%parseVersion_inv. apply Forall_app. split; [by repeat constructor|]. unfold string_of_Z.
  destruct (Z.ltb_spec n 0); [lia|]. eapply Forall_impl; [apply string_of_nonneg_digits; lia|]. cbv beta. intros c Hc.
  unfold alnum_dash_us, is_alnum. by rewrite Hc, !orb_true_r.
Qed.

(** What comes after the last quote. *)
Lemma last_quote_inj (x x' a a' : jstr) : 34 ∉ a → 34 ∉ a' → x ++ 34 :: a = x' ++ 34 :: a' → x = x' ∧ a = a'.
Proof.
  intros Ha Ha'. revert x'. induction x as [|c x IH]; intros [|c' x']; cbn [app]; intros H; simplify_eq; try done.
  - destruct Ha. apply elem_of_app. right. apply list_elem_of_here.
  - destruct Ha'. apply elem_of_app. right. apply list_elem_of_here.
  - destruct (IH x') as [-> ->]; done.
Qed.

(** The text of a member ends with its names, each after a quote. *)
Definition after_ns : jstr := [34; 44] ++ quote (js "callerVersion") ++ [58].
Definition after_version : jstr := [34; 44] ++ quote (js "callerWorker") ++ [58].
Definition before_ns (b : jstr) : jstr := (123 :: quote (js "binding") ++ 58 :: quote b) ++ 44 :: quote (js "callerNs") ++ [58].

Lemma member_shape ns w v b m : names_ok ns w → name_ok v → callerReferrerMember ns w v b = Ok m →
  m = ((((before_ns b ++ 34 :: ns) ++ after_ns) ++ 34 :: v) ++ after_version ++ 34 :: w) ++ [34; 125].
Proof.
  intros [Hn Hw] Hv. unfold callerReferrerMember, encodeReferrerMember. destruct (_ || _); [done|]. intros <-%Ok_inj.
  unfold before_ns, after_ns, after_version, quote. cbn [join_with]. rewrite !(escape_name ns), !(escape_name w), !(escape_name v) by done.
  repeat first [rewrite <- app_assoc | rewrite <- app_comm_cons]. done.
Qed.

Lemma member_inj ns w v b ns' w' v' b' m : names_ok ns w → name_ok v → names_ok ns' w' → name_ok v' →
  callerReferrerMember ns w v b = Ok m → callerReferrerMember ns' w' v' b' = Ok m → ns = ns' ∧ w = w' ∧ v = v'.
Proof.
  intros Hn Hv Hn' Hv' E H. rewrite (member_shape ns w v b m) in H by done. apply member_shape in H; [|done..]. destruct Hn, Hn'.
  apply app_inv_tail in H. rewrite !app_assoc in H. apply last_quote_inj in H as [H ->]; [|by apply name_no_quote..].
  apply app_inv_tail in H. apply last_quote_inj in H as [H ->]; [|by apply name_no_quote..].
  apply app_inv_tail in H. by apply last_quote_inj in H as [_ ->]; [|apply name_no_quote..].
Qed.

Lemma referrers_key_inj ns w v ns' w' v' : names_ok ns w → names_ok ns' w' →
  referrersKey ns w v = referrersKey ns' w' v' → ns = ns' ∧ w = w' ∧ v = v'.
Proof.
  intros [Cn%name_no_colon Cw%name_no_colon] [Cn'%name_no_colon Cw'%name_no_colon] H. unfold referrersKey in H.
  apply app_inv_head in H. apply (colon_pair_inj ns _ ns') in H as [-> H]; try done.
  apply (colon_pair_inj w _ w') in H as [-> H]; done.
Qed.

(** ** Writes to the referrers *)

(** Writes that only add members. *)
Definition grows (ws : list write) : Prop :=
  ∀ wr k, wr ∈ ws → target wr = Some k → refers k → ∃ m, wr = WSAdd k m.

Lemma grows_app ws ws' : grows (ws ++ ws') ↔ grows ws ∧ grows ws'.
Proof.
  unfold grows. split.
  - intros H. split; intros wr k Hin; apply H; apply elem_of_app; auto.
  - intros [H1 H2] wr k [Hin|Hin]%elem_of_app; [by apply H1|by apply H2].
Qed.

Lemma grows_heads ws : (∀ k, k ∈ targets ws → ¬ refers k) → grows ws.
Proof. intros H wr k Hin Ht Hk. destruct (H k); [|done]. apply list_elem_of_omap. by exists wr. Qed.

Lemma grows_plain ws : plain_writes ws → grows ws.
Proof.
  intros Hp. apply grows_heads. intros k Hin Hk. unfold plain_writes in Hp. rewrite Forall_forall in Hp. specialize (Hp k Hin).
  unfold kept_key in Hp. by rewrite Hk, jeqb_refl, orb_true_r in Hp.
Qed.

Lemma sadd_members (k m k' : jstr) s : set_at k' s ⊆ set_at k' (apply_write (WSAdd k m) s) ∧ m ∈ set_at k (apply_write (WSAdd k m) s).
Proof. cbn [apply_write]. rewrite !set_set_set. rewrite (decide_True (P := k = k)) by done. case_decide; subst; set_solver. Qed.

Lemma grows_members ws : grows ws → ∀ s k, refers k → set_at k s ⊆ set_at k (apply_writes ws s).
Proof.
  induction ws as [|wr ws IH]; intros Hg s k Hk; [done|]. change (apply_writes (wr :: ws) s) with (apply_writes ws (apply_write wr s)).
  etrans; [|apply IH; [|done]; intros wr' k' Hin; by apply Hg, list_elem_of_further].
  destruct (decide (target wr = Some k)) as [Ht|Ht].
  - destruct (Hg wr k (list_elem_of_here _ _) Ht Hk) as [m ->]. apply sadd_members.
  - by destruct (apply_write_other wr s k Ht) as (_ & _ & <- & _).
Qed.

Lemma grows_added ws s k m : grows ws → refers k → WSAdd k m ∈ ws → m ∈ set_at k (apply_writes ws s).
Proof.
  intros Hg Hk (l1 & l2 & ->)%list_elem_of_split. apply grows_app in Hg as [_ Hg]. rewrite apply_writes_app.
  change (apply_writes (WSAdd k m :: l2) ?x) with (apply_writes l2 (apply_write (WSAdd k m) x)). apply grows_members; [|done|].
  - intros wr k' Hin. by apply Hg, list_elem_of_further.
  - by apply sadd_members.
Qed.

Lemma adds_grow ns w v refs out : stageOutgoingReferrerAdds ns w v refs = Ok out → grows out ∧
  ∀ ref, ref ∈ refs → ∃ m, callerReferrerMember ns w v (or_binding ref) = Ok m ∧
    WSAdd (referrersKey (or_targetNs ref) (or_targetWorker ref) (or_targetVersion ref)) m ∈ out.
Proof.
  revert out. induction refs as [|ref refs IH]; intros out H; cbn [stageOutgoingReferrerAdds stage_all] in H.
  - apply Ok_inj in H as <-. split; [by intros wr k ?%elem_of_nil|by intros r ?%elem_of_nil].
  - apply rbind_Ok_inv in H as (w1 & H1 & H). apply rbind_Ok_inv in H as (w2 & [H2 H3]%IH & H). apply Ok_inj in H as <-.
    apply rbind_Ok_inv in H1 as (m & Hm & H1). apply Ok_inj in H1 as <-. split.
    + apply grows_app. split; [|done]. intros wr k ->%list_elem_of_singleton [= <-] _. by exists m.
    + intros r [->|Hr]%elem_of_cons.
      * exists m. split; [done|apply list_elem_of_here].
      * destruct (H3 r Hr) as (m' & E & Hin). exists m'. split; [done|by apply list_elem_of_further].
Qed.

(** A member of nobody deleted stays in a set of nobody deleted. *)
Lemma removes_members ns w vs ws : removes ns w vs ws → ∀ s k m, refers k → (∀ v, v ∈ vs → k ≠ referrersKey ns w v) →
  (∀ v b, v ∈ vs → callerReferrerMember ns w v b ≠ Ok m) → m ∈ set_at k s → m ∈ set_at k (apply_writes ws s).
Proof.
  induction ws as [|wr ws IH]; intros Hr s k m Hk Hkey Hm Hin; [done|].
  change (apply_writes (wr :: ws) s) with (apply_writes ws (apply_write wr s)). apply IH; [|done..|].
  { intros wr' k' Hin'. by apply Hr, list_elem_of_further. }
  destruct (decide (target wr = Some k)) as [Ht|Ht].
  - destruct (Hr wr k (list_elem_of_here _ _) Ht Hk) as (v & Hv & [->|(b & m' & -> & E)]).
    + injection Ht as Ht. by destruct (Hkey v Hv).
    + cbn [apply_write]. rewrite set_set_set, decide_True by done. assert (m ≠ m'); [|set_solver].
      intros ->. by apply (Hm v b Hv).
  - by destruct (apply_write_other wr s k Ht) as (_ & _ & <- & _).
Qed.

(** ** The invariant *)

(** The references in the metadata of a bundle. *)
Definition refs_of (ns : jstr) (bundle : gmap jstr jstr) : list OutgoingRef :=
  match bundle !! js "__meta__" with
  | Some raw =>
      match parseBundleMeta (JStr raw) with
      | Ok meta => extractOutgoingRefs (bindings_of meta) ns
      | Err _ => []
      end
  | None => []
  end.

Definition present (k : jstr) (s : store) : Prop := is_Some (hash_at k s !! js "__meta__").

(** The target of a reference is there and knows of the version that refers to it. *)
Record linked (s : store) (ns w v : jstr) (ref : OutgoingRef) : Prop := {
  ln_names : names_ok (or_targetNs ref) (or_targetWorker ref);
  ln_target : ∃ k, bundle_key (or_targetNs ref) (or_targetWorker ref) (or_targetVersion ref) = Ok k ∧ present k s;
  ln_member : ∃ m, callerReferrerMember ns w v (or_binding ref) = Ok m ∧
    m ∈ set_at (referrersKey (or_targetNs ref) (or_targetWorker ref) (or_targetVersion ref)) s }.

Definition links_inv (s : store) : Prop :=
  ∀ ns w v k ref, names_ok ns w → bundle_key ns w v = Ok k → ref ∈ refs_of ns (hash_at k s) → linked s ns w v ref.

Lemma bundle_version ns w v k : bundle_key ns w v = Ok k → name_ok v.
Proof. unfold bundle_key, bundleKey. destruct (parseVersion (JStr v)) as [n|] eqn:E; [|done]. intros _. by eapply version_name. Qed.

(** References that keep their target and their member stay. *)
Lemma linked_mono s s' ns w v ref : linked s ns w v ref →
  (∀ k, bundle_key (or_targetNs ref) (or_targetWorker ref) (or_targetVersion ref) = Ok k → is_bundle k = true → present k s → present k s') →
  (∀ k, refers k → set_at k s ⊆ set_at k s') → linked s' ns w v ref.
Proof.
  intros [H1 (k & Hk & Hp) (m & Hm & Hin)] Hb Hs. split; [done| |].
  - exists k. split; [done|]. apply Hb; [done|by eapply bundle_key_is_bundle|done].
  - exists m. split; [done|]. by apply (Hs _ (referrers_head _ _ _)).
Qed.

(** Bundles stay, one may be new, and members are only added. *)
Lemma links_grow s s' (dst : option jstr) : links_inv s → (∀ k, is_bundle k = true → Some k ≠ dst → same_at k s s') →
  (∀ k, refers k → set_at k s ⊆ set_at k s') → (∀ k, dst = Some k → blank k s) →
  (∀ ns w v k ref, dst = Some k → names_ok ns w → bundle_key ns w v = Ok k → ref ∈ refs_of ns (hash_at k s') → linked s' ns w v ref) → links_inv s'.
Proof.
  intros Hi Hb Hs Hblank Hnew ns w v k ref Hn Hk Hin. destruct (decide (Some k = dst)) as [E|E]; [by eapply Hnew|].
  destruct (Hb k (bundle_key_is_bundle _ _ _ _ Hn Hk) E) as (_ & Eh & _). rewrite <- Eh in Hin.
  eapply linked_mono; [by eapply Hi| |done]. intros k' _ Hk' Hp. unfold present in *. destruct (decide (Some k' = dst)) as [E'|E'].
  - destruct (Hblank k' (eq_sym E')) as (_ & Eb & _). rewrite <- Eb in Hp. by destruct Hp.
  - by destruct (Hb k' Hk' E') as (_ & <- & _).
Qed.

(** Versions that nobody refers to may go, with their own registrations. *)
Lemma links_drop s s' ns w vs (D : list jstr) ws : links_inv s → names_ok ns w → s' = apply_writes ws s →
  (∀ k, k ∈ D ↔ ∃ v, v ∈ vs ∧ bundle_key ns w v = Ok k) → (∀ v, v ∈ vs → ∃ k, bundle_key ns w v = Ok k) →
  (∀ k, is_bundle k = true → (k ∈ D → blank k s') ∧ (k ∉ D → same_at k s s')) →
  removes ns w vs ws → (∀ v, v ∈ vs → set_at (referrersKey ns w v) s = ∅) → links_inv s'.
Proof.
  intros Hi Hn -> HD Hvs Hb Hr Hempty ns' w' v' k ref Hn' Hk Hin.
  assert (k ∉ D) as HkD.
  { intros HkD. destruct (Hb k (bundle_key_is_bundle _ _ _ _ Hn' Hk)) as [Hbl _]. destruct (Hbl HkD) as (_ & E & _).
    rewrite <- E in Hin. by apply elem_of_nil in Hin. }
  destruct (Hb k (bundle_key_is_bundle _ _ _ _ Hn' Hk)) as [_ Hsame]. destruct (Hsame HkD) as (_ & Eh & _). rewrite <- Eh in Hin.
  destruct (Hi _ _ _ _ _ Hn' Hk Hin) as [Ht (tk & Htk & Hp) (m & Hm & Hmem)].
  assert (∀ v, v ∈ vs → ¬ (or_targetNs ref = ns ∧ or_targetWorker ref = w ∧ or_targetVersion ref = v)) as Hno.
  { intros v Hv (E1 & E2 & E3). rewrite E1, E2, E3, (Hempty v Hv) in Hmem. by apply elem_of_empty in Hmem. }
  split; [done| |].
  - exists tk. split; [done|]. unfold present. destruct (Hb tk (bundle_key_is_bundle _ _ _ _ Ht Htk)) as [_ H2].
    destruct H2 as (_ & <- & _); [|done]. intros (v & Hv & Hk')%HD. destruct (bundle_key_inj _ _ _ _ _ _ _ Ht Hn Htk Hk') as (E1 & E2 & E3).
    by apply (Hno v Hv).
  - exists m. split; [done|]. apply (removes_members ns w vs); [done|by vm_compute| | |done].
    + intros v Hv E%referrers_key_inj; [|done..]. by apply (Hno v Hv).
    + intros v b Hv E. destruct (Hvs v Hv) as [kv Hkv].
      destruct (member_inj _ _ _ _ _ _ _ _ _ Hn (bundle_version _ _ _ _ Hkv) Hn' (bundle_version _ _ _ _ Hk) E Hm) as (-> & -> & ->).
      apply HkD, HD. by exists v'.
Qed.

(** ** Every request keeps it *)

Lemma flip_grows ns w v removed new slots adds rems P1 P2 : stage_slots ns w v new = Ok slots → grows P1 → grows P2 →
  grows (flip_writes ns w v removed slots adds rems P1 P2).
Proof.
  intros Hs H1 H2. unfold flip_writes. rewrite !grows_app. split_and!; try done; apply grows_heads; intros k Hk.
  - apply removals_targets in Hk. by rewrite Hk.
  - eapply slots_targets in Hk; [|exact Hs]. by rewrite Hk.
  - unfold targets in Hk. cbn in Hk. apply list_elem_of_singleton in Hk as ->. by vm_compute.
  - apply (index_targets ns) in Hk; [|done]. by rewrite Hk.
  - apply (index_targets ns) in Hk; [|done]. by rewrite Hk.
Qed.

Lemma kept_links s s' : links_inv s → (∀ k, kept_key k = true → is_bundle k = true ∨ refers k → same_at k s s') → links_inv s'.
Proof.
  intros Hi Hs. apply (links_grow s s' None); [done| | |done|done].
  - intros k Hk _. apply Hs; [auto with tables|by left].
  - intros k Hk. destruct (Hs k) as (_ & _ & <- & _); [|by right|done]. unfold kept_key. by rewrite Hk, jeqb_refl, orb_true_r.
Qed.

Lemma promote_links (past : store → Prop) cronId nextFireMs s ns w v now ws a W : routing_inv s → links_inv s → (∀ s0, past s0 → settled s0 s) → names_ok ns w →
  reads_at past s [] (promoteWithRoutes cronId nextFireMs ns w v now) (Ok (Commit ws a)) W → links_inv (apply_writes ws s).
Proof.
  intros Hi Hl Hp Hn Hr. apply promote_spec in Hr as (new & o & slots & P1 & P2 & _ & _ & Hs & HP1 & HP2 & ->); [|done..].
  apply (links_grow s _ None); [done| | |done|done].
  - intros k Hk _. apply plain_loose in HP1, HP2. by eapply staged_bundle.
  - intros k Hk. apply grows_members; [|done]. eapply flip_grows; [done|by apply grows_plain..].
Qed.

Lemma reconcile_links (past : store → Prop) urlHost s ns body domain now ws a W : links_inv s → (∀ s0, past s0 → routing_inv s0) →
  reads_at past s [] (reconcileHosts urlHost ns body domain now) (Ok (Commit ws a)) W → links_inv (apply_writes ws s).
Proof.
  intros Hl Hp Hr. apply reconcile_spec in Hr as (hosts & toAdd & removals & _ & _ & _ & _ & ->); [|done].
  apply (kept_links s); [done|]. intros k Hk Hb. apply reconcile_tables; [done|]. intros ->. by destruct Hb as [Hb|Hb]; vm_compute in Hb.
Qed.

Lemma bump_links_kept (past : store → Prop) hook s ns w v dst now ws a W : routing_inv s → links_inv s → names_ok ns w → hook_plain hook →
  bundle_key ns w v = Ok dst → blank dst s →
  reads_at past s [] (bumpActiveAndPromote hook ns w v now) (Ok (Commit ws a)) W → links_inv (apply_writes ws s).
Proof.
  intros Hi Hl Hn Hh Hd Hb Hr.
  apply bump_spec in Hr as (cur & src & dst' & routes & before & slots & P & H1 & H2 & H3 & H4 & H5 & H6 & H7 & ->); [|done..].
  rewrite Hd in H3. apply Ok_inj in H3 as <-. pose proof (bump_links_loose _ _ _ _ _ _ H7) as HP.
  destruct H7 as (raw & meta & Pa & out & Pb & Hraw & Hm & [Hout Hadds]%adds_grow & HPa & HPb & EP).
  set (flip := flip_writes ns w v [] slots [] [] P []).
  assert (grows (before ++ [WCopy src dst] ++ flip)) as Hg.
  { rewrite !grows_app. split_and!; [by apply grows_plain| |].
    - apply grows_heads. intros k Hk. unfold targets in Hk. cbn in Hk. apply list_elem_of_singleton in Hk as ->.
      by rewrite (bundle_head dst (bundle_key_is_bundle _ _ _ _ Hn Hd)).
    - eapply flip_grows; [done| |by apply grows_plain, plain_nil]. rewrite EP, !grows_app. split_and!; [by apply grows_plain|done|by apply grows_plain]. }
  assert (∀ ref, ref ∈ extractOutgoingRefs (bindings_of meta) ns → ∃ m, callerReferrerMember ns w v (or_binding ref) = Ok m ∧
    WSAdd (referrersKey (or_targetNs ref) (or_targetWorker ref) (or_targetVersion ref)) m ∈ before ++ [WCopy src dst] ++ flip) as Hreg.
  { intros ref Hin. destruct (Hadds ref Hin) as (m & Em & Hw). exists m. split; [done|]. unfold flip, flip_writes. rewrite EP, !elem_of_app. tauto. }
  destruct (bump_inv s ns w v cur src dst routes before slots P) as (_ & _ & Hsame); try done. fold flip in Hsame.
  assert (hash_at dst (apply_writes flip (apply_writes (before ++ [WCopy src dst]) s)) = hash_at src s) as Ecopy.
  { assert (same_at dst (apply_writes (before ++ [WCopy src dst]) s) (apply_writes flip (apply_writes (before ++ [WCopy src dst]) s))) as (_ & <- & _).
    - pose proof (plain_loose [] plain_nil) as Hnil. pose proof (bundle_key_is_bundle _ _ _ _ Hn Hd). by eapply staged_bundle.
    - by eapply bump_copy. }
  rewrite <- apply_writes_app, <- app_assoc in Ecopy. set (ws := before ++ [WCopy src dst] ++ flip) in *.
  assert (∀ k, is_bundle k = true → k ≠ dst → same_at k s (apply_writes ws s)) as Hsame'.
  { unfold ws. rewrite app_assoc, apply_writes_app. exact Hsame. }
  clear Hsame. apply (links_grow s _ (Some dst)); [done| |intros k Hk; by apply grows_members|by intros k [= ->]|].
  - intros k Hk Hne. apply Hsame'; [done|congruence].
  - intros ns' w' v' k ref [= <-] Hn' Hk'. destruct (bundle_key_inj _ _ _ _ _ _ _ Hn' Hn Hk' Hd) as (-> & -> & ->). rewrite Ecopy. intros Hin.
    destruct (Hl ns w cur src ref Hn H2 Hin) as [G1 (tk & Gk & Gp) _]. split; [done| |].
    + exists tk. split; [done|]. unfold present in *. destruct (Hsame' tk) as (_ & <- & _); [by eapply bundle_key_is_bundle| |done].
      intros ->. destruct Hb as (_ & E & _). rewrite <- E in Gp. by destruct Gp.
    + unfold refs_of in Hin. rewrite Hraw, (routing_meta _ _ Hm) in Hin. destruct (Hreg ref Hin) as (m & Em & Hw). exists m. split; [done|].
      by apply grows_added; [|vm_compute|].
Qed.

Lemma deploy_links (past : store → Prop) urlHost tz cp JSON `{!JsonPrinter JSON} num today maxDate hex budget s ns w v dst q c now ws a W :
  links_inv s → names_ok ns w → made_from urlHost tz cp JSON num today maxDate ns w q c → bundle_key ns w v = Ok dst → blank dst s →
  reads_at past s [] (commitWithWatch JSON hex budget ns w v c now) (Ok (Commit ws a)) W → links_inv (apply_writes ws s).
Proof.
  intros Hl Hn Hq Hd Hb Hr. pose proof Hr as Hr'. eapply deploy_effect in Hr'; [|done..].
  destruct Hr' as [(raw & meta & Hraw & Hm & Hback & _) Hready Hsame]. pose proof (bundle_key_is_bundle _ _ _ _ Hn Hd) as Hdb.
  apply deploy_spec in Hr as (dst' & m & text & resolved & P1 & outgoing & P2 & Hk & _ & _ & _ & _ & [Ho Hadds]%adds_grow & HP1 & HP2 & ->); [|done].
  rewrite Hd in Hk. apply Ok_inj in Hk as <-. set (ws := stageBundleCommit _ _ _ ++ _) in *.
  assert (grows ws) as Hg.
  { unfold ws. rewrite !grows_app. split_and!; [|by apply grows_plain|done|by apply grows_plain].
    apply grows_heads. intros k Hk. rewrite (proj1 (Forall_forall _ _) (bundle_commit_targets _ _ _) k Hk). by rewrite (bundle_head dst Hdb). }
  apply (links_grow s _ (Some dst)); [done| |intros k Hk; by apply grows_members|by intros k [= ->]|].
  - intros k Hk Hne. apply Hsame; [auto with tables|congruence].
  - intros ns' w' v' k ref [= <-] Hn' Hk'. destruct (bundle_key_inj _ _ _ _ _ _ _ Hn' Hn Hk' Hd) as (-> & -> & ->).
    unfold refs_of. rewrite Hraw, (routing_meta _ _ Hm). intros Hin%(rb_refs _ _ _ _ Hback).
    destruct Hq as [_ (token & bindings & Hc)]. destruct (committed_ref_names _ _ _ _ _ _ _ _ _ _ _ (proj1 Hn) Hc Hin) as [Ht _].
    rewrite Forall_forall in Hready. destruct (Hready ref Hin) as (_ & _ & tk & traw & Htk & Htraw & _). split; [done| |].
    + exists tk. split; [done|]. unfold present. destruct (Hsame tk) as (_ & <- & _); [|intros ->|by rewrite Htraw].
      * apply table_bundle. by eapply bundle_key_is_bundle.
      * destruct Hb as (_ & E & _). by rewrite <- E in Htraw.
    + destruct (Hadds ref Hin) as (mem & Em & Hw). exists mem. split; [done|].
      apply grows_added; [done|by vm_compute|]. unfold ws. rewrite !elem_of_app. tauto.
Qed.

Lemma removes_heads ns w vs ws : (∀ k, k ∈ targets ws → ¬ refers k) → removes ns w vs ws.
Proof. intros H wr k Hin Ht Hk. destruct (H k); [|done]. apply list_elem_of_omap. by exists wr. Qed.

Lemma whole_removes ns w d rs ws : names_ok ns w → scanned (di_queueConsumerKeys d) → scanned (di_doOwnerKeys d) →
  di_activeRoutes d = map slot_of rs → stageWorkerDelete ns w d = Ok ws → removes ns w (map rv_version (di_retained d)) ws.
Proof.
  intros Hn Hq Ho Hr Hws. destruct (stageWorkerDelete_shape ns w d rs ws Hn Hq Ho Hr Hws) as (P1 & P2 & V & P3 & HP1 & HP2 & HP3 & HV & ->).
  rewrite !removes_app. split_and!; try (by apply removes_plain); [| | |by apply versions_removes].
  - apply removes_heads. intros k Hk%removals_targets. by rewrite Hk.
  - apply removes_heads. destruct (di_activeVersion d); unfold targets; cbn; [|by intros k ?%elem_of_nil].
    intros k ->%list_elem_of_singleton. by vm_compute.
  - apply removes_heads. intros k Hk. apply (index_targets ns) in Hk; [|done]. by rewrite Hk.
Qed.

Lemma delete_links (past : store → Prop) pages check task s ns w token now ws a W : routing_inv s → links_inv s →
  (∀ s0, past s0 → settled s0 s) → names_ok ns w →
  reads_at past s [] (executeWholeDelete pages check task ns w token now) (Ok (Commit ws a)) W → links_inv (apply_writes ws s).
Proof.
  intros Hi Hl Hp Hn Hr. apply delete_spec in Hr as [[Hw _]|(d & rs & Hseen & _ & Hret & Hws & Hempty)]; [| |done..].
  { apply (kept_links s); [done|]. intros k Hk _. by apply plain_writes_kept. }
  destruct (whole_delete_effect s ns w d rs ws Hi Hn Hseen Hws) as (D & HD & _ & _ & _ & Hb).
  assert (∀ k, k ∈ D ↔ ∃ v, v ∈ map rv_version (di_retained d) ∧ bundle_key ns w v = Ok k) as HDv by (intros k; by apply deleted_keys).
  apply (links_drop s _ ns w (map rv_version (di_retained d)) D ws); try done.
  - intros v (r & -> & Hr)%list_elem_of_fmap. apply list_elem_of_lookup in Hr as [i Hr].
    destruct (Forall2_lookup_l _ _ _ _ _ HD Hr) as (k & _ & Hk). by exists k.
  - eapply whole_removes; [done|apply (ds_queues _ _ _ _ _ Hseen)|apply (ds_owners _ _ _ _ _ Hseen)|apply (ds_slots _ _ _ _ _ Hseen)|done].
  - by rewrite Hret.
Qed.

Lemma version_delete_links (past : store → Prop) task s ns w v token now ws a W : routing_inv s → links_inv s → names_ok ns w →
  reads_at past s [] (executeVersionDelete task ns w v token now) (Ok (Commit ws a)) W → links_inv (apply_writes ws s).
Proof.
  intros Hi Hl Hn Hr. apply version_delete_spec in Hr as (k & Hk & Ha & Hd & Hempty & Hrem & _); [|done].
  destruct (version_delete_effect s ns w v k ws Hi Hn Hk Ha Hd) as (_ & Hs & Hb).
  apply (links_drop s _ ns w [v] [k] ws); try done.
  - intros k'. rewrite list_elem_of_singleton. setoid_rewrite list_elem_of_singleton. split; [intros ->; by exists v|].
    intros (v' & -> & E). rewrite Hk in E. by apply Ok_inj in E.
  - intros v' ->%list_elem_of_singleton. by exists k.
  - intros k' Hk'. split; [by intros ->%list_elem_of_singleton|]. intros Hne. apply Hs; [auto with tables|set_solver].
  - by intros v' ->%list_elem_of_singleton.
Qed.

(** ** The world *)

Definition linked_inv (e : gset jstr) (s : store) : Prop := control_inv e s ∧ links_inv s.

Lemma reads_at_weaken {A} (past past' : store → Prop) s (p : reads A) : (∀ s0, past s0 → past' s0) →
  ∀ W r W', reads_at past s W p r W' → reads_at past' s W p r W'.
Proof.
  intros Hp. induction p as [r0|ks p IH|B q k IH]; intros W r W'; cbn [reads_at]; [done|apply IH|].
  intros (s0 & Hs0 & Hw & H). exists s0. auto.
Qed.

Lemma before_control e s s0 : before linked_inv bundles_settled e s s0 → before control_inv bundles_settled e s s0.
Proof. intros (e0 & [H _] & Hb). by exists e0. Qed.

Section world.
Variable cronId : jstr → jstr → jstr.
Variable nextFireMs : jstr → jstr → Z → option Z.
Variable urlHost : jstr → option jstr.

Lemma commit_links owned body now e s ws a W : control_api cronId nextFireMs urlHost owned body → linked_inv e s → (∀ k, k ∈ owned → blank k s) →
  reads_at (before control_inv bundles_settled e s) s [] (body now) (Ok (Commit ws a)) W → links_inv (apply_writes ws s).
Proof.
  intros Hapi [[Hi _] Hl] Hown Hr.
  assert (∀ s0, before control_inv bundles_settled e s s0 → settled s0 s) as Hp by (intros s0; apply before_settled).
  destruct Hapi as [r Hapi]. destruct Hapi as [tz cp JSON num today maxDate hex budget ns w v dst b domain q token bindings c HJ Hn Hq Hc Hd|ns w v Hn|hook ns w v dst Hn Hh Hd|ns b d|pages check task ns w token Hn|task ns w v token Hn].
  - assert (made_from urlHost tz cp JSON num today maxDate ns w q c) as Hm by (split; eauto).
    eapply deploy_links; [done..| |exact Hr]. apply Hown. set_solver.
  - by eapply promote_links.
  - eapply bump_links_kept; [done..| |exact Hr]. apply Hown. set_solver.
  - eapply reconcile_links; [done| |exact Hr]. by intros s0 (e0 & [? _] & _).
  - by eapply delete_links.
  - by eapply version_delete_links.
Qed.

Lemma api_links owned body : control_api cronId nextFireMs urlHost owned body →
  keeps_invariant linked_inv bundles_settled (λ k, is_bundle k = true) owned body.
Proof.
  intros Hapi. destruct (api_keeps _ _ _ _ _ Hapi) as [Hex Hk]. split; [done|]. intros now e s ws a W Hi Hd Hown Hr.
  apply (reads_at_weaken _ (before control_inv bundles_settled e s)) in Hr; [|by apply before_control].
  destruct (Hk now e s ws a W (proj1 Hi) Hd Hown Hr) as (H1 & H2 & H3). split_and!; [split; [done|by eapply commit_links]|done|done].
Qed.

Lemma env_links : env_keeps_invariant linked_inv bundles_settled control_env (λ k, is_bundle k = true).
Proof.
  intros used s used' s' e He Hsub [Hi Hl]. destruct (env_keeps used s used' s' e He Hsub Hi) as (H1 & H2 & H3 & H4). split_and!; try done.
  split; [done|]. destruct He as [s'' Hs]. apply (kept_links s); [done|]. auto.
Qed.

Lemma world_links s0 used0 w : linked_inv used0 s0 → txn_reach (control_api cronId nextFireMs urlHost) control_env (World s0 used0 ∅) w →
  links_inv (w_store w).
Proof.
  intros Hi Hr. destruct (txn_reach_ok _ _ bundles_settled_refl bundles_settled_trans _ _ _ api_links env_links used0 s0 used0 w) as [e [[_ H] _ _ _]]; done.
Qed.
End world.

(** A version that is referred to is not deleted. *)
Lemma referred_version_stays s ns w v m task token now ws a : names_ok ns w → m ∈ set_at (referrersKey ns w v) s →
  run_reads s (executeVersionDelete task ns w v token now) ≠ Ok (Commit ws a).
Proof.
  intros Hn Hm H. destruct (reads_at_run (λ s0, s0 = s) s (executeVersionDelete task ns w v token now) eq_refl []) as [W Hr]. rewrite H in Hr.
  apply version_delete_spec in Hr as (k & _ & _ & _ & Hempty & _); [|done]. rewrite Hempty in Hm. by apply elem_of_empty in Hm.
Qed.

(** ** A caller and its target *)

Module RefDemo.
Definition body : list (jstr * jsval) :=
  [(js "code", JStr (js "export default {}"));
   (js "bindings", JObj [(js "API", JObj [str_field "type" (js "service"); str_field "service" (js "api")])])].
Definition request : DeployRequest :=
  match prepareDeployRequest Some (λ _, true) (λ _ _, true) body (js "acme") (js "workers.local") with Ok q => q | Err _ => Demo.empty_request end.
Definition bindings : list (jstr * jsval) :=
  match run_reads demo_live (runDeployPreflight (js "acme") (js "web") request) with Ok l => l | Err _ => [] end.
Definition bundle : CommittedBundle :=
  match prepareCommittedBundle checked_stringify Demo.number_text (js "2026-06-01") (js "2026-06-01") [] request (js "acme") (js "web") bindings with
  | Ok c => c | Err _ => MkCommitted (MkPrepared [] []) [] [] end.
Definition deploy : Z → txn control_result := commitWithWatch checked_stringify Demo.hex Demo.budget (js "acme") (js "web") (js "v1") bundle.
Definition key : jstr := js "worker:acme:web:v:1".
Definition pair : store := apply_writes (committed (run_reads demo_live (deploy 0))) demo_live.
Definition world : world control_result := World pair ({[key]} ∪ w_used demo_world) ∅.

Lemma made_demo : made_from Some (λ _, true) (λ _ _, true) checked_stringify Demo.number_text (js "2026-06-01") (js "2026-06-01")
  (js "acme") (js "web") request bundle.
Proof.
  split.
  - exists body, (js "workers.local"). vm_compute. reflexivity.
  - exists [], bindings. vm_compute. reflexivity.
Qed.

Lemma reachable : txn_reach (control_api demo_cronId demo_nextFireMs Some) control_env (World empty_store ∅ ∅) world.
Proof.
  eapply txn_reach_trans; [exact demo_reachable|].
  apply (alone_commits _ _ demo_live (w_used demo_world) 5 {[key]} deploy 0 (committed (run_reads demo_live (deploy 0))) (Deployed (js "v1"))).
  - eapply (ca_deploy _ _ _ _ _ _ _ _ _ _ _ (js "acme") (js "web") (js "v1") key); [apply _| |exact made_demo|vm_compute; reflexivity].
    apply (bool_decide_unpack _). vm_compute. reflexivity.
  - apply (bool_decide_unpack _). vm_compute. reflexivity.
  - intros k ->%elem_of_singleton. repeat split; vm_compute; reflexivity.
  - vm_compute. reflexivity.
Qed.

Lemma start : linked_inv ∅ empty_store.
Proof. split; [exact control_inv_empty|]. intros ns w v k ref _ _ Hin. by apply elem_of_nil in Hin. Qed.
End RefDemo.

(** C4. No service binding dangles: however deploys, promotions, version bumps, reconciliations
    and deletes of workers and versions interleave, every reference in the metadata of every
    bundle leads to a bundle that is there, is registered in the set of referrers of that
    version, and as long as it is a delete of the version is refused. *)
Theorem references_intact (cronId : jstr → jstr → jstr) (nextFireMs : jstr → jstr → Z → option Z)
    (urlHost : jstr → option jstr) (s0 : store) (used0 : gset jstr) (w : world control_result)
    (Hinit : linked_inv used0 s0)
    (Hreach : txn_reach (control_api cronId nextFireMs urlHost) control_env (World s0 used0 ∅) w)
    (ns worker v k : jstr) (ref : OutgoingRef) (Hnames : names_ok ns worker) (Hkey : bundle_key ns worker v = Ok k)
    (Hin : ref ∈ refs_of ns (hash_at k (w_store w))) :
  let target := (or_targetNs ref, or_targetWorker ref, or_targetVersion ref) in
  (∃ key, bundle_key target.1.1 target.1.2 target.2 = Ok key ∧ present key (w_store w)) ∧
  (∃ m, callerReferrerMember ns worker v (or_binding ref) = Ok m ∧ m ∈ set_at (referrersKey target.1.1 target.1.2 target.2) (w_store w)) ∧
  ∀ newTaskId lockToken now ws a, run_reads (w_store w) (executeVersionDelete newTaskId target.1.1 target.1.2 target.2 lockToken now) ≠ Ok (Commit ws a).
Proof.
  cbn [fst snd]. destruct (world_links _ _ _ s0 used0 w Hinit Hreach ns worker v k ref Hnames Hkey Hin) as [H1 H2 H3].
  split_and!; [done|done|]. intros task token now ws a. destruct H3 as (m & _ & Hm). by eapply referred_version_stays.
Qed.

Lemma references_intact_witness :
  refs_of (js "acme") (hash_at RefDemo.key RefDemo.pair) = [MkOutgoing (js "acme") (js "api") (js "v1") (js "API")] ∧
  ∃ m, m ∈ set_at (referrersKey (js "acme") (js "api") (js "v1")) RefDemo.pair.
Proof.
  split; [vm_compute; reflexivity|].
  destruct (references_intact demo_cronId demo_nextFireMs Some empty_store ∅ RefDemo.world RefDemo.start RefDemo.reachable
    (js "acme") (js "web") (js "v1") RefDemo.key (MkOutgoing (js "acme") (js "api") (js "v1") (js "API"))) as (_ & (m & _ & Hm) & _).
  - apply (bool_decide_unpack _). vm_compute. reflexivity.
  - vm_compute. reflexivity.
  - replace (refs_of (js "acme") (hash_at RefDemo.key (w_store RefDemo.world))) with [MkOutgoing (js "acme") (js "api") (js "v1") (js "API")]
      by (vm_compute; reflexivity). apply list_elem_of_here.
  - exists m. exact Hm.
Defined.
